(* ===== verification/_CoqProject ===== *)
-Q . S2P
Prelude.v
Framebuffer.v
VncRuntime.v
Viewer.v
VncMailbox.v
VncClient.v
VncClipboard.v
VncInput.v
VncSession.v
VncReconnect.v
VncBackend.v
Framing.v
VncProtocol.v
RdpProtocol.v
RdpMailbox.v
RdpOutput.v
RdpPacing.v
RdpInput.v
ClipPath.v
ClipLayout.v
ClipFs.v
ClipStaging.v
ClipTransfer.v
ClipLocal.v
ClipBackend.v
ClipThreads.v
Text.v
TextSearch.v
JsonValue.v
EsClient.v
EsState.v
EsServer.v
EsRuns.v
EsDelivery.v
EsSession.v
SshConfig.v
DuckValue.v
DuckState.v
DuckText.v
DuckServer.v
DuckDemo.v
Delivery.v
DuckPaging.v
DuckCsv.v
DuckBuiltins.v
DdlSpec.v
DuckSchema.v
DuckDdl.v
GaussDdl.v
DuckDriver.v
DuckTx.v
GaussState.v
GaussSession.v
GaussCatalog.v
GaussExport.v
GaussServer.v
GaussDemo.v
GaussDelivery.v
GaussImport.v
GaussDriver.v
XmlReader.v
Floats.v
NotesText.v
NotesLines.v
NotesDocx.v
NotesPdf.v
NotesWord.v
NotesFile.v
NotesHtml.v
CrtModel.v
CrtXml.v
CrtImport.v
CrtTree.v
RedisDriver.v
RedisCalls.v
MongoDriver.v
MongoReads.v
ImportTerminals.v
ImportDatabases.v
ImportSafe.v
