(* ===== verification/Prelude.v ===== *)
(** * Navop extensions: a verification of the extension processes

    Navop runs its extensions as separate processes that talk to the host over
    stdin/stdout or a local socket.  This library models the logic of those written in
    Rust, and proves what makes them correct.  Paths below are relative to
    [src/extensions/].

    ** The VNC helper ([remote-desktop/vnc-helper/src])

    The host sends requests as JSON lines; a request loop forwards them to a session
    thread, which drives a VNC protocol engine and reports through a mailbox to a
    writer thread.
    - [Framebuffer.v] is framebuffer.rs: the RGBA buffer and its two updates, byte for
      byte ([patch_rgba_rect], [copy_rect]), proved pixel for pixel.
    - [VncRuntime.v] is runtime.rs: the messages.
    - [VncMailbox.v] is output_mailbox.rs: a method is a function on the state behind
      the mutex; [step] is the interleaving of sender and receiver threads.  The
      theorems say that dropping and merging pictures loses nothing a viewer could see,
      that controls arrive in order, and that no wake-up is lost.
    - [VncClient.v] is the interface of the vendored protocol engine, the clock and the
      input channel ([VncWorld], [VncWorldLaws]); it is not code of the helper.
    - [VncClipboard.v], [VncInput.v], [VncSession.v] are vnc_clipboard.rs,
      vnc_keyboard.rs with vnc_input.rs, and vnc_encoding.rs: text on the wire, keys and
      pointer, and a session's turn (events, flushing, refresh requests, liveness
      watchdog).
    - [VncReconnect.v], [VncBackend.v] are vnc_reconnect.rs and vnc_rfb.rs: the end of a
      session, the wait before the next one, and the loop over sessions.
    - [VncProtocol.v] is protocol.rs and main.rs: requests, events, the request loop.

    ** The RDP helper ([remote-desktop/rdp-helper/src])

    The same shape over an RDP library, with a clipboard that also exchanges files.
    - [RdpProtocol.v] is protocol.rs, threading.rs and parts of main.rs.
    - [RdpMailbox.v] is output_mailbox.rs; it promises what the VNC mailbox promises,
      stated against the same [Viewer.v].
    - [RdpOutput.v] is pixels.rs and rdp/output.rs; [RdpPacing.v] is the output task of
      rdp.rs, which holds at most one image back.
    - [RdpInput.v] is rdp/input_sender.rs, rdp/input.rs and the request loop of main.rs.
    - [ClipPath.v], [ClipLayout.v], [ClipStaging.v], [ClipTransfer.v], [ClipLocal.v] are
      clipboard/path.rs, remote_layout.rs, staging.rs, remote.rs and local.rs, over the
      file-system interface of [ClipFs.v]: which paths are accepted, what a file list
      means, where files are stored, how they are fetched and how local files are
      offered.
    - [ClipBackend.v] is clipboard.rs, controller.rs, backend.rs and backend_remote.rs,
      as sequences of atomic actions; [ClipThreads.v] interleaves the two threads.

    ** The Elasticsearch provider ([composite/elasticsearch/src])

    A process that serves resources, search jobs, blobs and event streams over a socket.
    - [EsClient.v] is error.rs, config.rs and client.rs: which request of the SDK a method
      makes, and what becomes of its answer.
    - [EsState.v] is state/: the tables of the process, a method per definition, with the
      channel between a job and its search worker.
    - [EsServer.v] is server/ and ipc.rs: handlers, dispatch and the loop over requests,
      which takes a secret from the host over the same connection.
    - [EsRuns.v], [EsDelivery.v], [EsSession.v] are the theorems: the invariant of the
      tables in every run in which requests and workers take turns, the events of a job,
      blobs and event queues, failed requests, and that requests are answered.

    ** The DuckDB driver ([ipc/duckdb/src])

    - [DuckValue.v], [DuckState.v], [DuckText.v], [DuckBuiltins.v] are value.rs, state.rs,
      the pure functions of handlers.rs and its companions, and builtin_functions.rs.
    - [DuckServer.v] is the handlers over the database, the class [DuckDb]; [DuckSchema.v]
      is the catalogue queries; [DuckDriver.v] is driver.rs: init, opening, dispatch.
    - [DuckPaging.v], [DuckCsv.v] are the theorems on what a host reads:
      the pages of a cursor and the chunks of an export add up to the result, and CSV reads
      back.  [DuckTx.v] abstracts the driver and the database to a machine of three phases
      ([Idle], [InTx], [Importing]); each request is one of its moves.
    - [DdlSpec.v] says what the statements that alter a table do to it; [DuckDdl.v] is
      ddl.rs, and the theorem that its statements turn the old table into the new one.

    ** The openGauss driver ([ipc/opengauss/src])

    [GaussDdl.v] is ddl.rs: changes with their rollback, proved to undo them.
    [GaussState.v] is config.rs, state.rs and the errors of server.rs: connection parameters,
    cursors, streams, imports and transactions.  [GaussSession.v] and [GaussCatalog.v] are
    session.rs over the client library; [GaussExport.v] and [GaussImport.v]
    are the statements and forms of exports and imports; [GaussServer.v] is the handlers
    and [GaussDriver.v] the dispatch of requests, with the proof that no call breaks
    the tables of a connection; [GaussDelivery.v] that the pages of a cursor and the chunks
    of an export add up to the result, over the cursors of [Delivery.v].

    ** The Redis driver ([ipc/redis/src])

    [RedisDriver.v] is main.rs: addresses, cached connections, commands, streams.
    [RedisCalls.v] writes down what is sent: a command that may write is sent once; the
    events of a stream are its messages in order, the missing ones counted.

    ** The MongoDB drivers ([src/drivers])

    [MongoDriver.v] is mongodb-driver (common.rs, modern.rs, legacy.rs) and main.rs of
    mongodb-legacy-3-2-driver; [MongoReads.v]: the documents of a search reach the host,
    and the second attempt to connect adds one option to the address.

    ** The importers of connection settings ([wasm/])

    [SshConfig.v] is openssh-config-importer: what is written is read back, and each
    file only appends records.
    [CrtModel.v], [CrtXml.v], [CrtImport.v] are securecrt-importer: records and
    paths, session files and button bars, the machine over the events of an XML export, and
    the walk of the directories of the host.  [CrtTree.v] proves that the machine imports a
    document as a recursive function over it does, and that the host is asked for a
    bounded number of files on paths that go down.
    [ImportTerminals.v] is mobaxterm-importer, xshell-importer and windterm-importer,
    [ImportDatabases.v] the importers of MongoDB Compass, Redis Desktop, TablePlus, DBeaver,
    JetBrains and Navicat, [ImportSafe.v] their components.  It proves that passwords do not
    reach the records, also as a change of the files that changes nothing, and that the
    address kept of a MongoDB connection reads back.

    ** The exporters of notes ([wasm/notes-document-export-core/src])

    lib.rs makes Word, PDF and HTML documents of a note in Markdown.
    - [NotesText.v] is the lines of a note; [NotesDocx.v], [NotesPdf.v], [NotesHtml.v] are
      the three documents; the last has also the three components (notes-word-exporter,
      notes-pdf-exporter, notes-html-exporter) that call them.
    - [NotesWord.v]: every part of a Word package is well formed, by the reader of
      [XmlReader.v], if the note has no character that XML forbids; with one it is not
      ([control_character_breaks]).  [NotesFile.v]: a reader of a PDF file finds its pages,
      and the text of a page reads back.  [NotesHtml.v]: so do the pictures
      inlined in HTML.  [NotesLines.v] has the lemmas on lines that these share.

    ** Shared parts

    [Prelude.v] (this file) has the result and state monads the code is written in
    ([outcome], [comp]), slices with their panics, and triples ([safely], [keeps_safe]).
    [Framing.v] is the format of events on stdout, as a reader; both helpers' writers
    are proved against it.  [Viewer.v] is the meaning of a stream of pictures, which
    both mailboxes and the session are proved against.  [Text.v] and [TextSearch.v] are
    Rust's [str] and what several importers and exporters do with it;
    [JsonValue.v] is serde_json's values, [Floats.v] the numbers of IEEE 754.

    ** How the code is rendered

    A Rust function is a function of the same name.  [Result] and [?] are [outcome]; a
    panic is a third outcome, so that its absence is a theorem.  [&mut self] is state
    passing ([comp]): an early return keeps the mutations made so far.  Unsigned
    integers are [N] (lengths and indices [nat]) with saturation, wrap-around and
    truncation written out.  A loop that the code does not bound has fuel: the wait
    between sessions (its theorem gives the fuel that is enough for any clock that
    advances), the session and backend loops (theorems hold for every fuel), and the
    collection of local files (10,001 rounds, which is enough because the 10,001st
    entry is refused), and the walk of the directories of an importer, where the guard on
    the depth ends it before the fuel does.  Threads are step relations over the atomic
    actions between taking and releasing a lock, and theorems hold in every reachable state.  Two
    places are coarser than the code: a turn of a Redis stream sends an event and counts it
    as dropped in one step, and a find in MongoDB reads its cursor before it encodes the
    documents, with the same results and errors.

    ** Hypotheses

    Code outside the repository is an argument: the JSON library ([Json]: printed
    values have no line break and parse back), the VNC engine ([VncWorldLaws]), the
    file system ([FileSystem], of which nothing is assumed except where a theorem says
    that calls succeed), clocks, channels and the RDP library's input database.  The
    client crates of the databases are classes with a world of their own ([DuckDb],
    [RedisClient], [MongoLib]).  Of those theorems assume that base64 decodes what it
    encodes, that a query of DuckDB has the same rows when it is run again, and, for the owner of a
    transaction ([TxLaws] in DuckTx.v), what each statement of the driver does to it: of the
    host's text in a query only one that no semicolon splits is assumed to leave it alone.
    [MemFs] in ClipFs.v and the [demo] values of the witnesses are implementations on
    which the hypotheses hold.

    ** Not modelled

    Socket and process start-up, logging, and Debug output: no logic.  The RDP session
    start (rdp.rs, rdp/config.rs) fills in values of a library that is not in the
    repository.  The protocol engines, the libraries for Zip archives, images, Markdown,
    XML and databases, the generated grammars, the Go and Java drivers and the vendored
    packages are not Rust code of this repository.  Drivers: the runtime that owns a
    connection's worker thread, numbers requests and interrupts queries is a dependency.
    The renderers and editors in WebAssembly call other crates, or are JavaScript. *)

From stdpp Require Export base numbers list option strings gmap sets.

Declare Scope helper_scope.
Delimit Scope helper_scope with helper.
Open Scope helper_scope.

(** ** Machine data

    Unsigned machine integers are [N], signed ones [Z]; every place where the
    Rust code relies on a width spells the bound or the wrap-around out. *)

Abbreviation bytes := (list N) (only parsing).
Abbreviation u8_max := 255%N (only parsing).
Abbreviation u16_max := 65535%N (only parsing).
Abbreviation u32_max := 4294967295%N (only parsing).
Abbreviation u64_max := 18446744073709551615%N (only parsing).

(** [a.saturating_add(b)] at the width whose greatest value is [m]. *)
Definition sat_add (m a b : N) : N := N.min m (a + b).

(** [a.wrapping_add(b)] at the width whose greatest value is [m]. *)
Definition wrap_add (m a b : N) : N := ((a + b) `mod` (m + 1))%N.

(** [a.checked_add(b)] at the width whose greatest value is [m]. *)
Definition checked_add (m a b : N) : option N :=
  if (a + b <=? m)%N then Some (a + b)%N else None.

(** [usize::from(n)]: a list index. *)
Abbreviation usz n := (N.to_nat n) (only parsing).

(** ** Results

    A Rust call returns, fails with an error value, or panics. *)

Inductive outcome (E A : Type) : Type :=
  | Ok (a : A)
  | Err (e : E)
  | Panic.
Arguments Ok {E A} a.
Arguments Err {E A} e.
Arguments Panic {E A}.

#[export] Instance outcome_ret E : MRet (outcome E) := @Ok E.
#[export] Instance outcome_bind E : MBind (outcome E) := λ A B f m,
  match m with
  | Ok a => f a
  | Err e => Err e
  | Panic => Panic
  end.

(** [anyhow::ensure!(b, e)]. *)
Definition ensure {E} (b : bool) (e : E) : outcome E () :=
  if b then Ok () else Err e.

Definition is_ok {E A} (r : outcome E A) : bool :=
  match r with Ok _ => true | _ => false end.

Definition no_panic {E A} (r : outcome E A) : Prop := r ≠ Panic.

(** [option.context(e)?] / [ok_or_else]. *)
Definition of_option {E A} (e : E) (o : option A) : outcome E A :=
  match o with Some a => Ok a | None => Err e end.

(** [r.map_err(f)]. *)
Definition map_err {E F A} (f : E → F) (r : outcome E A) : outcome F A :=
  match r with Ok a => Ok a | Err e => Err (f e) | Panic => Panic end.

(** ** Stateful computations

    A method on [&mut self] maps the state before the call to the state after
    it, together with its outcome: an early return by [?] keeps the mutations
    made so far. *)

Definition comp (S E A : Type) : Type := S → S * outcome E A.

#[export] Instance comp_ret S E : MRet (comp S E) := λ A a s, (s, Ok a).
#[export] Instance comp_bind S E : MBind (comp S E) := λ A B f m s,
  match m s with
  | (s', Ok a) => f a s'
  | (s', Err e) => (s', Err e)
  | (s', Panic) => (s', Panic)
  end.

Definition gets {S E A} (f : S → A) : comp S E A := λ s, (s, Ok (f s)).
Definition modify {S E} (f : S → S) : comp S E () := λ s, (f s, Ok ()).
Definition throw {S E A} (e : E) : comp S E A := λ s, (s, Err e).

(** Run a pure fallible step, then a stateful one. *)
Definition lift_outcome {S E A} (r : outcome E A) : comp S E A := λ s, (s, r).

(** [if let Err(error) = call { .. }]: the error as a value. *)
Definition attempt {S E F A} (m : comp S E A) : comp S F (E + A) := λ s,
  match m s with
  | (s', Ok a) => (s', Ok (inr a))
  | (s', Err e) => (s', Ok (inl e))
  | (s', Panic) => (s', Panic)
  end.

(** [call.map_err(f)]. *)
Definition map_err_comp {S E F A} (f : E → F) (m : comp S E A) : comp S F A := λ s,
  ((m s).1, map_err f (m s).2).

(** A call that mutates one field of the state it runs in. *)
Definition zoom {S T E A} (get : S → T) (set : T → S → S) (m : comp T E A) : comp S E A :=
  λ s, (set (m (get s)).1 s, (m (get s)).2).

(** A call that cannot fail. *)
Definition total {S E A} (m : S → S * A) : comp S E A := λ s, ((m s).1, Ok (m s).2).

(** ** Slices

    [&v[s..e]] and [v[s..e].copy_from_slice(src)] with their panics. *)

Definition get_slice {E A} (l : list A) (s e : nat) : outcome E (list A) :=
  if (s <=? e) && (e <=? length l) then Ok (take (e - s) (drop s l)) else Panic.

Definition copy_from_slice {E A} (l : list A) (s e : nat) (src : list A)
    : outcome E (list A) :=
  if (s <=? e) && (e <=? length l) && (e - s =? length src)
  then Ok (take s l ++ src ++ drop e l) else Panic.

(** [for i in lo..lo+n { a = body(i, a)?; }] *)
Fixpoint for_range {E A} (lo n : nat) (body : nat → A → outcome E A) (a : A)
    : outcome E A :=
  match n with
  | 0 => Ok a
  | S n' => a' ← body lo a; for_range (S lo) n' body a'
  end.

(** ** Lemmas *)

Lemma ensure_true {E A} (b : bool) (e : E) (k : () → outcome E A) :
  b = true → (ensure b e ≫= k) = k ().
Proof. by intros ->. Qed.

Lemma ensure_false {E A} (b : bool) (e : E) (k : () → outcome E A) :
  b = false → (ensure b e ≫= k) = Err e.
Proof. by intros ->. Qed.

Lemma bind_ok {E A B} (m : outcome E A) (k : A → outcome E B) b :
  (m ≫= k) = Ok b ↔ ∃ a, m = Ok a ∧ k a = Ok b.
Proof. destruct m; simpl; naive_solver. Qed.

Lemma ensure_bind_ok {E A} (c : bool) (e : E) (k : () → outcome E A) a :
  (ensure c e ≫= k) = Ok a ↔ c = true ∧ k () = Ok a.
Proof. destruct c; simpl; naive_solver. Qed.

(** Pure fallible steps that do not panic. *)
Lemma bind_no_panic {E A B} (m : outcome E A) (k : A → outcome E B) :
  m ≠ Panic → (∀ a, k a ≠ Panic) → (m ≫= k) ≠ Panic.
Proof. destruct m; simpl; auto. Qed.

Lemma ensure_no_panic {E} (b : bool) (e : E) : ensure b e ≠ Panic.
Proof. by destruct b. Qed.

Lemma of_option_no_panic {E A} (e : E) (o : option A) : of_option e o ≠ Panic.
Proof. by destruct o. Qed.

Lemma for_range_ind {E A} (P : nat → A → Prop) (body : nat → A → outcome E A)
    (n lo : nat) (a : A) :
  P lo a →
  (∀ i a, lo ≤ i < lo + n → P i a → ∃ a', body i a = Ok a' ∧ P (S i) a') →
  ∃ a', for_range lo n body a = Ok a' ∧ P (lo + n) a'.
Proof.
  revert lo a. induction n as [|n IH]; intros lo a H0 Hstep; simpl.
  - exists a. by rewrite Nat.add_0_r.
  - destruct (Hstep lo a) as (a1 & Hb & H1); [lia|done|].
    unfold mbind, outcome_bind. rewrite Hb.
    destruct (IH (S lo) a1 H1) as (a' & Ha' & HP).
    + intros i b Hi. apply Hstep. lia.
    + exists a'. split; [done|]. by rewrite Nat.add_succ_r.
Qed.

(** An iteration that panics in every state the earlier ones can leave. *)
Lemma for_range_panic {E A} (P : nat → A → Prop) (body : nat → A → outcome E A)
    (n lo k : nat) (a : A) :
  lo ≤ k < lo + n → P lo a →
  (∀ i a, lo ≤ i < k → P i a → ∃ a', body i a = Ok a' ∧ P (S i) a') →
  (∀ a, P k a → body k a = Panic) →
  for_range lo n body a = Panic.
Proof.
  revert lo a. induction n as [|n IH]; intros lo a Hk H0 Hstep Hpanic; [lia|].
  simpl. destruct (decide (lo = k)) as [->|Hne].
  - unfold mbind, outcome_bind. by rewrite Hpanic.
  - destruct (Hstep lo a) as (a1 & Hb & H1); [lia|done|].
    unfold mbind, outcome_bind. rewrite Hb.
    apply IH; [lia|done|intros; apply Hstep; [lia|done]|done].
Qed.

(** What [m] establishes from states satisfying [P]. *)
Definition run_ensures {S E A} (P : S → Prop) (m : comp S E A)
    (Q : S → outcome E A → Prop) : Prop :=
  ∀ s, P s → Q (m s).1 (m s).2.

Lemma comp_bind_run {S E A B} (m : comp S E A) (f : A → comp S E B) s :
  (m ≫= f) s =
    match (m s).2 with
    | Ok a => f a (m s).1
    | Err e => ((m s).1, Err e)
    | Panic => ((m s).1, Panic)
    end.
Proof. unfold mbind, comp_bind. by destruct (m s) as [? []]. Qed.

(** One step of a sequence. *)
Lemma lift_bind {S E A B} (r : outcome E A) (f : A → comp S E B) s :
  (lift_outcome r ≫= f) s =
    match r with Ok a => f a s | Err e => (s, Err e) | Panic => (s, Panic) end.
Proof. by destruct r. Qed.

Lemma gets_bind {S E A B} (g : S → A) (f : A → comp S E B) s : (gets g ≫= f) s = f (g s) s.
Proof. done. Qed.

Lemma total_bind {S E A B} (m : S → S * A) (f : A → comp S E B) s :
  (total m ≫= f) s = f (m s).2 (m s).1.
Proof. done. Qed.

Lemma modify_bind {S E B} (g : S → S) (f : () → comp S E B) s : (modify g ≫= f) s = f () (g s).
Proof. done. Qed.

(** A sequence that succeeded, one call at a time. *)
Lemma comp_bind_ok {S E A B} (m : comp S E A) (f : A → comp S E B) s s' b :
  (m ≫= f) s = (s', Ok b) ↔ ∃ s1 a, m s = (s1, Ok a) ∧ f a s1 = (s', Ok b).
Proof.
  unfold mbind, comp_bind. split.
  - destruct (m s) as [s1 [a|e|]]; [|done..]. intros. by exists s1, a.
  - by intros (s1 & a & -> & ?).
Qed.

(** An invariant passes through a sequence when both parts keep it. *)
Lemma run_ensures_bind {S E A B} (P : S → Prop) (m : comp S E A) (f : A → comp S E B) :
  run_ensures P m (λ s _, P s) → (∀ a, run_ensures P (f a) (λ s _, P s)) →
  run_ensures P (m ≫= f) (λ s _, P s).
Proof.
  intros Hm Hf s Hs. rewrite comp_bind_run. specialize (Hm s Hs).
  destruct (m s) as [s' []]; simpl in *; [by apply Hf|done|done].
Qed.

(** Calls that keep an invariant and do not panic. *)
Definition keeps_safe {S E A} (P : S → Prop) (m : comp S E A) : Prop :=
  run_ensures P m (λ s r, P s ∧ r ≠ Panic).

Lemma keeps_safe_bind {S E A B} (P : S → Prop) (m : comp S E A) (f : A → comp S E B) :
  keeps_safe P m → (∀ a, keeps_safe P (f a)) → keeps_safe P (m ≫= f).
Proof.
  intros Hm Hf s Hs. rewrite comp_bind_run. destruct (Hm s Hs) as [Hs' Hp].
  destruct (m s) as [s' []]; simpl in *; [by apply Hf|done|done].
Qed.

Lemma keeps_safe_pure {S E A} (P : S → Prop) (r : S → outcome E A) :
  (∀ s, r s ≠ Panic) → keeps_safe P (λ s, (s, r s)).
Proof. intros Hr s Hs. split; [done|apply Hr]. Qed.

Lemma keeps_safe_attempt {S E F A} (P : S → Prop) (m : comp S E A) :
  keeps_safe P m → keeps_safe P (attempt (F:=F) m).
Proof.
  intros Hm s Hs. destruct (Hm s Hs) as [Hs' Hp]. unfold attempt.
  destruct (m s) as [s' []]; simpl in *; [by split..|done].
Qed.

Lemma keeps_safe_map_err {S E F A} (P : S → Prop) (f : E → F) (m : comp S E A) :
  keeps_safe P m → keeps_safe P (map_err_comp f m).
Proof.
  intros Hm s Hs. destruct (Hm s Hs) as [Hs' Hp]. unfold map_err_comp.
  destruct (m s) as [s' []]; simpl in *; [by split..|done].
Qed.

Lemma keeps_safe_lift {S E A} (P : S → Prop) (r : outcome E A) :
  r ≠ Panic → keeps_safe P (lift_outcome r).
Proof. intros Hr. by apply keeps_safe_pure. Qed.

Lemma keeps_safe_ret {S E A} (P : S → Prop) (a : A) : keeps_safe (E:=E) P (mret a).
Proof. intros s Hs. done. Qed.

Lemma keeps_safe_throw {S E A} (P : S → Prop) (e : E) : keeps_safe (A:=A) P (throw e).
Proof. intros s Hs. done. Qed.

Lemma keeps_safe_gets {S E A} (P : S → Prop) (f : S → A) : keeps_safe (E:=E) P (gets f).
Proof. intros s Hs. done. Qed.

Lemma keeps_safe_modify {S E} (P : S → Prop) (f : S → S) :
  (∀ s, P s → P (f s)) → keeps_safe (E:=E) P (modify f).
Proof. intros Hf s Hs. split; [by apply Hf|done]. Qed.

Lemma keeps_safe_total {S E A} (P : S → Prop) (m : S → S * A) :
  (∀ s, P s → P (m s).1) → keeps_safe (E:=E) P (total m).
Proof. intros Hm s Hs. split; [by apply Hm|done]. Qed.

Lemma keeps_safe_zoom {S T E A} (P : T → Prop) (get : S → T) (set : T → S → S)
    (m : comp T E A) :
  (∀ t s, get (set t s) = t) → keeps_safe P m → keeps_safe (λ s, P (get s)) (zoom get set m).
Proof. intros Hgs Hm s Hs. destruct (Hm _ Hs). split; [simpl; by rewrite Hgs|done]. Qed.

(** Total-correctness triples: from [P], no panic, and [Q] if the call succeeds. *)
Definition safely {S E A} (P : S → Prop) (m : comp S E A) (Q : A → S → Prop) : Prop :=
  ∀ s, P s → match (m s).2 with Ok a => Q a (m s).1 | Err _ => True | Panic => False end.

Lemma safely_bind {S E A B} (P : S → Prop) (m : comp S E A) (R : A → S → Prop)
    (f : A → comp S E B) (Q : B → S → Prop) :
  safely P m R → (∀ a, safely (R a) (f a) Q) → safely P (m ≫= f) Q.
Proof.
  intros Hm Hf s Hs. rewrite comp_bind_run. specialize (Hm s Hs).
  destruct (m s) as [s' [a|e|]]; simpl in *; [by apply Hf|done|done].
Qed.

Lemma safely_weaken {S E A} (P P' : S → Prop) (m : comp S E A) (Q Q' : A → S → Prop) :
  safely P m Q → (∀ s, P' s → P s) → (∀ a s, Q a s → Q' a s) → safely P' m Q'.
Proof.
  intros Hm HP HQ s Hs. specialize (Hm s (HP s Hs)).
  destruct (m s) as [s' [a|e|]]; simpl in *; [by apply HQ|done|done].
Qed.

Lemma safely_pre {S E A} (P P' : S → Prop) (m : comp S E A) (Q : A → S → Prop) :
  (∀ s, P' s → P s) → safely P m Q → safely P' m Q.
Proof. intros HP Hm. by eapply safely_weaken. Qed.

Lemma safely_ok {S E A} (P : S → Prop) (m : comp S E A) (Q : A → S → Prop) s s' a :
  safely P m Q → P s → m s = (s', Ok a) → Q a s'.
Proof. intros Hm Hs Hr. specialize (Hm s Hs). by rewrite Hr in Hm. Qed.

Lemma safely_ret {S E A} (P : S → Prop) (a : A) (Q : A → S → Prop) :
  (∀ s, P s → Q a s) → safely (E:=E) P (mret a) Q.
Proof. intros HP s Hs. by apply HP. Qed.

Lemma safely_gets {S E A} (P : S → Prop) (f : S → A) :
  safely (E:=E) P (gets f) (λ a s, a = f s ∧ P s).
Proof. intros s Hs. by split. Qed.

Lemma safely_modify {S E} (P : S → Prop) (f : S → S) (Q : () → S → Prop) :
  (∀ s, P s → Q () (f s)) → safely (E:=E) P (modify f) Q.
Proof. intros HP s Hs. by apply HP. Qed.

Lemma safely_lift {S E A} (P : S → Prop) (r : outcome E A) :
  r ≠ Panic → safely P (lift_outcome r) (λ a s, r = Ok a ∧ P s).
Proof. intros Hr s Hs. by destruct r. Qed.

Lemma safely_zoom {S T E A} (get : S → T) (set : T → S → S) (P : S → Prop) (m : comp T E A)
    (Q : A → S → Prop) :
  (∀ s, P s → match (m (get s)).2 with
              | Ok a => Q a (set (m (get s)).1 s) | Err _ => True | Panic => False end) →
  safely P (zoom get set m) Q.
Proof. intros Hm s Hs. apply Hm, Hs. Qed.

Lemma safely_pure {S E A} (φ : Prop) (P : S → Prop) (m : comp S E A) (Q : A → S → Prop) :
  (φ → safely P m Q) → safely (λ s, φ ∧ P s) m Q.
Proof. intros Hm s [Hφ Hs]. by apply Hm. Qed.

Lemma attempt_run {S E F A} (m : comp S E A) s :
  (attempt (F:=F) m s).1 = (m s).1 ∧
  (attempt (F:=F) m s).2 =
    match (m s).2 with Ok a => Ok (inr a) | Err e => Ok (inl e) | Panic => Panic end.
Proof. unfold attempt. by destruct (m s) as [? []]. Qed.

Lemma get_slice_ok {E A} (l : list A) (s e : nat) :
  s ≤ e → e ≤ length l → get_slice (E:=E) l s e = Ok (take (e - s) (drop s l)).
Proof.
  intros. unfold get_slice.
  destruct (Nat.leb_spec s e); [|lia]. destruct (Nat.leb_spec e (length l)); [done|lia].
Qed.

Lemma get_slice_panic {E A} (l : list A) (s e : nat) :
  length l < e → get_slice (E:=E) l s e = Panic.
Proof.
  intros. unfold get_slice.
  destruct (Nat.leb_spec s e); [|done]. destruct (Nat.leb_spec e (length l)); [lia|done].
Qed.

Lemma copy_from_slice_ok {E A} (l src : list A) (s e : nat) :
  s ≤ e → e ≤ length l → length src = e - s →
  copy_from_slice (E:=E) l s e src = Ok (take s l ++ src ++ drop e l).
Proof.
  intros. unfold copy_from_slice.
  destruct (Nat.leb_spec s e); [|lia]. destruct (Nat.leb_spec e (length l)); [|lia].
  destruct (Nat.eqb_spec (e - s) (length src)); [done|lia].
Qed.

Lemma copy_from_slice_panic {E A} (l src : list A) (s e : nat) :
  length l < e → copy_from_slice (E:=E) l s e src = Panic.
Proof.
  intros. unfold copy_from_slice.
  destruct (Nat.leb_spec s e); [|done]. destruct (Nat.leb_spec e (length l)); [lia|done].
Qed.

Lemma slice_lookup {A} (l : list A) (s n i : nat) :
  i < n → take n (drop s l) !! i = l !! (s + i).
Proof. intros. rewrite lookup_take_lt by done. by rewrite lookup_drop. Qed.

(** The spliced list reads the source inside [s..e] and the old list outside. *)
Lemma splice_lookup {A} (l src : list A) (s e i : nat) :
  s ≤ e → e ≤ length l → length src = e - s →
  (take s l ++ src ++ drop e l) !! i =
    if decide (s ≤ i < e) then src !! (i - s) else l !! i.
Proof.
  intros Hse He Hsrc. case_decide as Hi.
  - rewrite lookup_app_r by (rewrite length_take; lia).
    rewrite length_take, Nat.min_l by lia.
    by rewrite lookup_app_l by lia.
  - destruct (decide (i < s)) as [Hlt|Hge].
    + rewrite lookup_app_l by (rewrite length_take; lia).
      by rewrite lookup_take_lt.
    + rewrite lookup_app_r by (rewrite length_take; lia).
      rewrite length_take, Nat.min_l by lia.
      rewrite lookup_app_r by lia. rewrite lookup_drop. f_equal. lia.
Qed.

Lemma splice_length {A} (l src : list A) (s e : nat) :
  s ≤ e → e ≤ length l → length src = e - s →
  length (take s l ++ src ++ drop e l) = length l.
Proof. intros. rewrite !length_app, length_take, length_drop. lia. Qed.

Lemma splice_id {A} (l : list A) (s e : nat) :
  s ≤ e → e ≤ length l → take s l ++ take (e - s) (drop s l) ++ drop e l = l.
Proof.
  intros. rewrite <-(take_drop s l) at 4. f_equal.
  rewrite <-(take_drop (e - s) (drop s l)) at 2. f_equal.
  rewrite drop_drop. f_equal. lia.
Qed.

Lemma removelast_split {A} (l : list A) x : last l = Some x → l = removelast l ++ [x].
Proof. intros [l' ->]%last_Some. by rewrite removelast_last. Qed.

Lemma sat_add_le m a b c : (a + b <= c → sat_add m a b <= c)%N.
Proof. unfold sat_add. lia. Qed.

Lemma sat_add_exact m a b c : (c < m → sat_add m a b <= c → a + b <= c)%N.
Proof. unfold sat_add. lia. Qed.

Lemma checked_add_Some m a b c :
  checked_add m a b = Some c ↔ (c = a + b ∧ a + b <= m)%N.
Proof. unfold checked_add. destruct (N.leb_spec (a + b) m); naive_solver lia. Qed.

(** ** Automation *)

Create HintDb helper discriminated.
Create Rewrite HintDb helper.
#[export] Hint Rewrite @length_app @length_take @length_drop @length_replicate
  @length_fmap @length_insert : helper.
#[export] Hint Resolve sat_add_le sat_add_exact : helper.
#[export] Hint Resolve ensure_no_panic of_option_no_panic : helper.
#[export] Hint Resolve keeps_safe_ret keeps_safe_throw keeps_safe_gets : helper.

(** Read an [Ok] result of a chain of guards backwards. *)
Ltac inv_ok :=
  repeat match goal with
  | H : (ensure _ _ ≫= _) = Ok _ |- _ =>
      let Hc := fresh "Hc" in apply ensure_bind_ok in H as [Hc H]
  | H : (_ ≫= _) = Ok _ |- _ =>
      let x := fresh "x" in let Hx := fresh "Hx" in
      apply bind_ok in H as (x & Hx & H)
  | H : Ok _ = Ok _ |- _ => injection H as H; try subst
  | H : Err _ = Ok _ |- _ => discriminate H
  | H : Panic = Ok _ |- _ => discriminate H
  end.

(** Turn the boolean guards in the context into propositions [lia] reads. *)
Ltac bool_to_prop :=
  repeat match goal with
  | H : _ && _ = true |- _ => apply andb_true_iff in H as [? H]
  | H : _ || _ = false |- _ => apply orb_false_iff in H as [? H]
  | H : negb _ = true |- _ => apply negb_true_iff in H
  | H : negb _ = false |- _ => apply negb_false_iff in H
  | H : (_ <=? _)%N = true |- _ => apply N.leb_le in H
  | H : (_ <=? _)%N = false |- _ => apply N.leb_gt in H
  | H : (_ <? _)%N = true |- _ => apply N.ltb_lt in H
  | H : (_ <? _)%N = false |- _ => apply N.ltb_ge in H
  | H : (_ =? _)%N = true |- _ => apply N.eqb_eq in H
  | H : (_ =? _)%N = false |- _ => apply N.eqb_neq in H
  | H : (_ <=? _)%nat = true |- _ => apply Nat.leb_le in H
  | H : (_ <=? _)%nat = false |- _ => apply Nat.leb_gt in H
  | H : (_ <? _)%nat = true |- _ => apply Nat.ltb_lt in H
  | H : (_ <? _)%nat = false |- _ => apply Nat.ltb_ge in H
  | H : (_ =? _)%nat = true |- _ => apply Nat.eqb_eq in H
  | H : (_ =? _)%nat = false |- _ => apply Nat.eqb_neq in H
  | H : (_ =? _)%Z = true |- _ => apply Z.eqb_eq in H
  | H : (_ =? _)%Z = false |- _ => apply Z.eqb_neq in H
  | H : bool_decide _ = true |- _ => apply bool_decide_eq_true in H
  | H : bool_decide _ = false |- _ => apply bool_decide_eq_false in H
  end.

(** Follow a chain of guards forwards: the failing branch ends in its error. *)
Ltac ensure_step :=
  match goal with
  | |- context [ensure ?b ?e ≫= _] =>
      let Hb := fresh "Hb" in
      destruct b eqn:Hb;
      [rewrite (ensure_true true) by reflexivity
      |rewrite (ensure_false false) by reflexivity; by eexists]
  end.

(** Settle the first comparison [lia] can decide, to one of its two values. *)
Ltac settle_test :=
  match goal with
  | |- context [(?a <=? ?b)%N] =>
      first [rewrite (proj2 (N.leb_le a b)) by lia|rewrite (proj2 (N.leb_gt a b)) by lia]
  | |- context [(?a <? ?b)%N] =>
      first [rewrite (proj2 (N.ltb_lt a b)) by lia|rewrite (proj2 (N.ltb_ge a b)) by lia]
  | |- context [(?a =? ?b)%N] =>
      first [rewrite (proj2 (N.eqb_eq a b)) by lia|rewrite (proj2 (N.eqb_neq a b)) by lia]
  end.
Ltac settle_tests := repeat (settle_test; cbn [andb orb negb]).

(** A pure sequence whose steps do not panic. *)
Ltac no_panic_steps :=
  repeat first
    [apply bind_no_panic; [|intros ?]
    |solve [auto with helper]
    |match goal with |- context [match ?x with _ => _ end] => destruct x end
    |done].

(** A stateful sequence whose steps keep the invariant and do not panic. *)
Ltac keeps_safe_steps :=
  repeat first
    [solve [auto with helper]
    |apply keeps_safe_bind; [|intros ?]
    |apply keeps_safe_lift; solve [no_panic_steps]
    |match goal with
     | |- keeps_safe _ (match ?x with _ => _ end) => destruct x
     | |- keeps_safe _ (let '(_, _) := ?x in _) => destruct x
     end].
