(* ===== verification/Framebuffer.v ===== *)
(** * The VNC framebuffer

    [RgbaFramebuffer] of vnc-helper/src/framebuffer.rs: the buffer, its
    colour-swapping copies, and the two in-place updates, with the panics of the
    slice operations they use.  The theorems read the buffer back pixel by
    pixel. *)

From S2P Require Import Prelude.

(** ** State *)

Record RgbaFramebuffer := mk_framebuffer {
  fb_width : N;
  fb_height : N;
  fb_rgba : bytes;
}.

(** ** Operations *)

Definition new_framebuffer (width height : N) : RgbaFramebuffer :=
  mk_framebuffer width height (replicate (usz width * usz height * 4) 0%N).

(** [for pixel in bgra.chunks_exact_mut(4) { pixel.swap(0, 2) }]: an incomplete
    last chunk stays as it is. *)
Fixpoint swap_red_blue (px : bytes) : bytes :=
  match px with
  | r :: g :: b :: a :: rest => b :: g :: r :: a :: swap_red_blue rest
  | rest => rest
  end.

Definition clone_bgra (fb : RgbaFramebuffer) : bytes := swap_red_blue (fb_rgba fb).

(** The pixels of [chunks_exact(4)] in BGRA order: an incomplete last chunk is
    skipped. *)
Fixpoint bgra_pixels (px : bytes) : bytes :=
  match px with
  | r :: g :: b :: a :: rest => b :: g :: r :: a :: bgra_pixels rest
  | _ => []
  end.

(** One iteration of the row loop of [clone_bgra_rect]. *)
Definition clone_bgra_row {E} (fb : RgbaFramebuffer) (x y width : N)
    (row : nat) (bgra : bytes) : outcome E bytes :=
  let start := ((usz y + row) * usz (fb_width fb) + usz x) * 4 in
  let finish := start + usz width * 4 in
  px ← get_slice (fb_rgba fb) start finish;
  Ok (bgra ++ bgra_pixels px).

Definition clone_bgra_rect {E} (fb : RgbaFramebuffer) (x y width height : N)
    : outcome E bytes :=
  for_range 0 (usz height) (clone_bgra_row fb x y width) [].

(** One iteration of the row loop of [patch_rgba_rect]. *)
Definition patch_row {E} (fb : RgbaFramebuffer) (x y width : N) (rect_rgba : bytes)
    (row : nat) (rgba : bytes) : outcome E bytes :=
  let src_start := row * usz width * 4 in
  let src_end := src_start + usz width * 4 in
  let dst_start := ((usz y + row) * usz (fb_width fb) + usz x) * 4 in
  let dst_end := dst_start + usz width * 4 in
  src ← get_slice rect_rgba src_start src_end;
  copy_from_slice rgba dst_start dst_end src.

Definition patch_rgba_rect (fb : RgbaFramebuffer) (x y width height : N)
    (rect_rgba : bytes) : outcome string RgbaFramebuffer :=
  let expected := usz width * usz height * 4 in
  ensure (length rect_rgba =? expected) "invalid rectangle buffer length";;
  ensure (x <=? fb_width fb)%N "rectangle x is outside framebuffer";;
  ensure (y <=? fb_height fb)%N "rectangle y is outside framebuffer";;
  ensure (sat_add u16_max x width <=? fb_width fb)%N
    "rectangle width exceeds framebuffer";;
  ensure (sat_add u16_max y height <=? fb_height fb)%N
    "rectangle height exceeds framebuffer";;
  rgba ← for_range 0 (usz height) (patch_row fb x y width rect_rgba) (fb_rgba fb);
  Ok (mk_framebuffer (fb_width fb) (fb_height fb) rgba).

(** One iteration of the snapshot loop of [copy_rect]. *)
Definition snapshot_row {E} (fb : RgbaFramebuffer) (src_x src_y width : N)
    (row : nat) (pixels : bytes) : outcome E bytes :=
  let start := ((usz src_y + row) * usz (fb_width fb) + usz src_x) * 4 in
  let finish := start + usz width * 4 in
  px ← get_slice (fb_rgba fb) start finish;
  Ok (pixels ++ px).

Definition copy_rect (fb : RgbaFramebuffer) (src_x src_y dst_x dst_y width height : N)
    : outcome string RgbaFramebuffer :=
  ensure (src_x <=? fb_width fb)%N "source x is outside framebuffer";;
  ensure (src_y <=? fb_height fb)%N "source y is outside framebuffer";;
  ensure (dst_x <=? fb_width fb)%N "destination x is outside framebuffer";;
  ensure (dst_y <=? fb_height fb)%N "destination y is outside framebuffer";;
  ensure (sat_add u16_max src_x width <=? fb_width fb)%N
    "source width exceeds framebuffer";;
  ensure (sat_add u16_max src_y height <=? fb_height fb)%N
    "source height exceeds framebuffer";;
  ensure (sat_add u16_max dst_x width <=? fb_width fb)%N
    "destination width exceeds framebuffer";;
  ensure (sat_add u16_max dst_y height <=? fb_height fb)%N
    "destination height exceeds framebuffer";;
  pixels ← for_range 0 (usz height) (snapshot_row fb src_x src_y width) [];
  patch_rgba_rect fb dst_x dst_y width height pixels.

(** ** Invariant and observations *)

(** The buffer holds four bytes per pixel. *)
Definition fb_wf (fb : RgbaFramebuffer) : Prop :=
  length (fb_rgba fb) = usz (fb_width fb) * usz (fb_height fb) * 4.

(** The dimensions at which [saturating_add] does not mask an overhang. *)
Definition fb_small (fb : RgbaFramebuffer) : Prop :=
  (fb_width fb < u16_max ∧ fb_height fb < u16_max)%N.

(** The rectangle lies inside the framebuffer. *)
Definition rect_inside (fb : RgbaFramebuffer) (x y width height : N) : Prop :=
  (x + width <= fb_width fb ∧ y + height <= fb_height fb)%N.

(** Byte [c] of the pixel in column [i] of row [j]. *)
Definition fb_byte (fb : RgbaFramebuffer) (i j c : nat) : option N :=
  fb_rgba fb !! ((j * usz (fb_width fb) + i) * 4 + c).

(** Byte [c] of pixel ([i], [j]) of a rectangle buffer [width] pixels wide. *)
Definition rect_byte (px : bytes) (width : N) (i j c : nat) : option N :=
  px !! ((j * usz width + i) * 4 + c).

(** ** Row arithmetic *)

(** Row [r]'s byte range from column [x] holds exactly the bytes of its pixels
    [x .. x + w). *)
Lemma row_range_hit W r x w i j c :
  i < W → x + w ≤ W → c < 4 →
  (r * W + x) * 4 ≤ (j * W + i) * 4 + c < (r * W + x) * 4 + w * 4 ↔
  j = r ∧ x ≤ i < x + w.
Proof.
  intros Hi Hw Hc. destruct (lt_eq_lt_dec j r) as [[Hlt| ->]|Hgt].
  - assert (S j * W ≤ r * W) by (apply Nat.mul_le_mono_r; lia). simpl in *. lia.
  - lia.
  - assert (S r * W ≤ j * W) by (apply Nat.mul_le_mono_r; lia). simpl in *. lia.
Qed.

(** A row range that starts inside the rectangle's rows ends inside the buffer. *)
Lemma row_range_bound W H r x w :
  r < H → x + w ≤ W → (r * W + x) * 4 + w * 4 ≤ W * H * 4.
Proof.
  intros Hr Hw. assert (S r * W ≤ H * W) by (apply Nat.mul_le_mono_r; lia).
  simpl in *. lia.
Qed.

Lemma rect_inside_nat fb x y width height :
  rect_inside fb x y width height →
  usz x + usz width ≤ usz (fb_width fb) ∧ usz y + usz height ≤ usz (fb_height fb).
Proof. unfold rect_inside. lia. Qed.

(** ** Copies *)

(** Induction over whole pixels, with the incomplete last chunk as base case. *)
Lemma pixel_ind (P : bytes → Prop) :
  (∀ px, length px < 4 → P px) →
  (∀ r g b a px, P px → P (r :: g :: b :: a :: px)) →
  ∀ px, P px.
Proof.
  intros Hshort Hstep px. remember (length px) as n eqn:Hn. revert px Hn.
  induction n as [n IH] using lt_wf_ind. intros px ->.
  destruct px as [|r [|g [|b [|a px]]]]; try (apply Hshort; simpl; lia).
  apply Hstep. eapply IH; [|done]. simpl. lia.
Qed.

Lemma whole_step r g b a (px : bytes) :
  length (r :: g :: b :: a :: px) `mod` 4 = 0 → length px `mod` 4 = 0.
Proof.
  simpl length. replace (S (S (S (S (length px))))) with (length px + 1 * 4) by lia.
  by rewrite Nat.Div0.mod_add.
Qed.

Lemma whole_short (px : bytes) : length px < 4 → length px `mod` 4 = 0 → px = [].
Proof. intros. rewrite Nat.mod_small in * by done. by apply nil_length_inv. Qed.

Lemma swap_red_blue_length px : length (swap_red_blue px) = length px.
Proof.
  induction px as [px Hlt|r g b a px IH] using pixel_ind; [|by simpl; rewrite IH].
  destruct px as [|? [|? [|? [|? ?]]]]; simpl in *; try done; lia.
Qed.

(** The two copies agree on whole pixels. *)
Lemma swap_red_blue_whole px : length px `mod` 4 = 0 → swap_red_blue px = bgra_pixels px.
Proof.
  induction px as [px Hlt|r g b a px IH] using pixel_ind; intros Hlen.
  - by rewrite (whole_short px).
  - simpl. by rewrite IH by (by eapply whole_step).
Qed.

Lemma bgra_pixels_length px : length px `mod` 4 = 0 → length (bgra_pixels px) = length px.
Proof. intros. by rewrite <-swap_red_blue_whole, swap_red_blue_length. Qed.

(** The channel of the RGBA pixel that channel [c] of the BGRA pixel shows. *)
Definition bgra_channel (c : nat) : nat :=
  match c with 0 => 2 | 1 => 1 | 2 => 0 | _ => c end.

Lemma bgra_pixels_lookup px k c :
  length px `mod` 4 = 0 → c < 4 →
  bgra_pixels px !! (k * 4 + c) = px !! (k * 4 + bgra_channel c).
Proof.
  revert k. induction px as [px Hlt|r g b a px IH] using pixel_ind; intros k Hlen Hc.
  - by rewrite (whole_short px).
  - destruct k as [|k].
    + do 4 (destruct c as [|c]; [done|]). lia.
    + simpl. apply IH; [by eapply whole_step|done].
Qed.

Lemma fb_wf_whole fb : fb_wf fb → length (fb_rgba fb) `mod` 4 = 0.
Proof. intros ->. apply Nat.Div0.mod_mul. Qed.

Lemma new_framebuffer_wf width height : fb_wf (new_framebuffer width height).
Proof. apply length_replicate. Qed.

(** ** The row loops *)

Section rows.
Context (fb : RgbaFramebuffer) (Hwf : fb_wf fb).

(** A row slice inside the rectangle succeeds and has the row's bytes. *)
Lemma row_slice_ok {E} x w r :
  usz x + usz w ≤ usz (fb_width fb) → r < usz (fb_height fb) →
  get_slice (E:=E) (fb_rgba fb) ((r * usz (fb_width fb) + usz x) * 4)
      ((r * usz (fb_width fb) + usz x) * 4 + usz w * 4) =
    Ok (take (usz w * 4) (drop ((r * usz (fb_width fb) + usz x) * 4) (fb_rgba fb))).
Proof.
  intros Hx Hr. rewrite get_slice_ok.
  - do 2 f_equal. lia.
  - lia.
  - rewrite Hwf. by apply row_range_bound.
Qed.

Lemma row_slice_length x w r :
  usz x + usz w ≤ usz (fb_width fb) → r < usz (fb_height fb) →
  length (take (usz w * 4) (drop ((r * usz (fb_width fb) + usz x) * 4) (fb_rgba fb)))
    = usz w * 4.
Proof.
  intros Hx Hr. rewrite length_take, length_drop, Hwf.
  pose proof (row_range_bound (usz (fb_width fb)) (usz (fb_height fb)) r (usz x) (usz w) Hr Hx).
  lia.
Qed.

Lemma row_slice_lookup x w r i c :
  i < usz w → c < 4 →
  take (usz w * 4) (drop ((r * usz (fb_width fb) + usz x) * 4) (fb_rgba fb))
    !! (i * 4 + c) = fb_byte fb (usz x + i) r c.
Proof. intros Hi Hc. rewrite slice_lookup by lia. unfold fb_byte. f_equal. lia. Qed.
End rows.

(** Appending one row per iteration lays the rows out consecutively. *)
Lemma append_rows {E} (w n : nat) (row : nat → bytes)
    (body : nat → bytes → outcome E bytes) :
  (∀ k acc, k < n → body k acc = Ok (acc ++ row k) ∧ length (row k) = w * 4) →
  ∃ out, for_range 0 n body [] = Ok out ∧ length out = n * w * 4 ∧
    ∀ i j c, i < w → j < n → c < 4 → out !! ((j * w + i) * 4 + c) = row j !! (i * 4 + c).
Proof.
  intros Hbody.
  destruct (for_range_ind (λ k out, length out = k * w * 4 ∧
      ∀ i j c, i < w → j < k → c < 4 → out !! ((j * w + i) * 4 + c) = row j !! (i * 4 + c))
    body n 0 []) as (out & Hout & Hlen & Hget).
  - split; [done|]. lia.
  - intros k acc Hk [Hlen Hget]. destruct (Hbody k acc) as [Hb Hrow]; [lia|].
    exists (acc ++ row k). split_and!; [done|rewrite length_app; lia|].
    intros i j c Hi Hj Hc. destruct (decide (j = k)) as [->|Hne].
    + rewrite lookup_app_r by lia. f_equal. lia.
    + rewrite lookup_app_l; [apply Hget; lia|].
      pose proof (row_range_bound w k j i 1). lia.
  - exists out. by split_and!.
Qed.

Lemma snapshot_spec {E} fb x y width height :
  fb_wf fb → rect_inside fb x y width height →
  ∃ px, for_range (E:=E) 0 (usz height) (snapshot_row fb x y width) [] = Ok px ∧
    length px = usz width * usz height * 4 ∧
    ∀ i j c, i < usz width → j < usz height → c < 4 →
      rect_byte px width i j c = fb_byte fb (usz x + i) (usz y + j) c.
Proof.
  intros Hwf [Hx Hy]%rect_inside_nat.
  destruct (append_rows (E:=E) (usz width) (usz height)
    (λ k, take (usz width * 4)
       (drop (((usz y + k) * usz (fb_width fb) + usz x) * 4) (fb_rgba fb)))
    (snapshot_row fb x y width)) as (px & Hpx & Hlen & Hget).
  - intros k acc Hk. unfold snapshot_row.
    rewrite row_slice_ok, row_slice_length by (done || lia). done.
  - exists px. split_and!; [done|lia|]. intros i j c Hi Hj Hc.
    unfold rect_byte. rewrite Hget by done. by apply row_slice_lookup.
Qed.

Lemma clone_bgra_rect_spec {E} fb x y width height :
  fb_wf fb → rect_inside fb x y width height →
  ∃ out, clone_bgra_rect (E:=E) fb x y width height = Ok out ∧
    length out = usz width * usz height * 4 ∧
    ∀ i j c, i < usz width → j < usz height → c < 4 →
      rect_byte out width i j c = fb_byte fb (usz x + i) (usz y + j) (bgra_channel c).
Proof.
  intros Hwf [Hx Hy]%rect_inside_nat.
  destruct (append_rows (E:=E) (usz width) (usz height)
    (λ k, bgra_pixels (take (usz width * 4)
       (drop (((usz y + k) * usz (fb_width fb) + usz x) * 4) (fb_rgba fb))))
    (clone_bgra_row fb x y width)) as (px & Hpx & Hlen & Hget).
  - intros k acc Hk. unfold clone_bgra_row.
    rewrite row_slice_ok by (done || lia). split; [done|].
    by rewrite bgra_pixels_length; rewrite row_slice_length by (done || lia);
      [|apply Nat.Div0.mod_mul].
  - exists px. split_and!; [done|lia|]. intros i j c Hi Hj Hc.
    unfold rect_byte. rewrite Hget, bgra_pixels_lookup.
    + apply row_slice_lookup; [done|]. do 4 (destruct c; simpl; [lia|]). lia.
    + rewrite row_slice_length by (done || lia). apply Nat.Div0.mod_mul.
    + done. + done. + done. + done.
Qed.

(** *** Patching *)

(** The whole-buffer copy, pixel by pixel. *)
Lemma clone_bgra_lookup fb i j c :
  fb_wf fb → c < 4 →
  rect_byte (clone_bgra fb) (fb_width fb) i j c = fb_byte fb i j (bgra_channel c).
Proof.
  intros Hwf Hc. unfold clone_bgra, rect_byte.
  rewrite swap_red_blue_whole by (by apply fb_wf_whole).
  by rewrite bgra_pixels_lookup by (done || by apply fb_wf_whole).
Qed.

(** The buffer after the rows before [k] of a rectangle are patched. *)
Definition rows_patched (fb : RgbaFramebuffer) (x y width : N) (px : bytes)
    (k : nat) (rgba : bytes) : Prop :=
  length rgba = length (fb_rgba fb) ∧
  ∀ i j c, i < usz (fb_width fb) → j < usz (fb_height fb) → c < 4 →
    rgba !! ((j * usz (fb_width fb) + i) * 4 + c) =
      if decide (usz x ≤ i < usz x + usz width ∧ usz y ≤ j < usz y + k)
      then rect_byte px width (i - usz x) (j - usz y) c else fb_byte fb i j c.

Lemma rows_patched_0 fb x y width px : rows_patched fb x y width px 0 (fb_rgba fb).
Proof. split; [done|]. intros i j c _ _ _. by rewrite decide_False by lia. Qed.

Lemma patch_row_step {E} fb x y width height px k rgba :
  fb_wf fb → length px = usz width * usz height * 4 →
  usz x + usz width ≤ usz (fb_width fb) →
  usz y + k < usz (fb_height fb) → k < usz height →
  rows_patched fb x y width px k rgba →
  ∃ rgba', patch_row (E:=E) fb x y width px k rgba = Ok rgba' ∧
    rows_patched fb x y width px (S k) rgba'.
Proof.
  intros Hwf Hpx Hx Hy Hk [Hlen Hget]. unfold patch_row.
  set (d := ((usz y + k) * usz (fb_width fb) + usz x) * 4).
  set (s := k * usz width * 4).
  assert (s + usz width * 4 ≤ length px) as Hs.
  { pose proof (row_range_bound (usz width) (usz height) k 0 (usz width)). lia. }
  assert (d + usz width * 4 ≤ length rgba) as Hd.
  { rewrite Hlen, Hwf. by apply row_range_bound. }
  rewrite get_slice_ok by lia. simpl.
  replace (s + usz width * 4 - s) with (usz width * 4) by lia.
  rewrite copy_from_slice_ok by (rewrite ?length_take, ?length_drop; lia).
  eexists. split; [done|]. split; [rewrite splice_length; rewrite ?length_take, ?length_drop; lia|].
  intros i j c Hi Hj Hc.
  rewrite splice_lookup by (rewrite ?length_take, ?length_drop; lia).
  pose proof (row_range_hit (usz (fb_width fb)) (usz y + k) (usz x) (usz width) i j c Hi Hx Hc)
    as Hhit.
  case_decide as Hin.
  - apply Hhit in Hin as [-> Hin]. rewrite decide_True by lia.
    rewrite slice_lookup by (unfold d; lia). unfold rect_byte. f_equal. unfold d, s.
    rewrite !Nat.mul_add_distr_r. lia.
  - rewrite Hget by done. fold d in Hhit. rewrite Hhit in Hin.
    destruct (decide (usz x ≤ i < usz x + usz width ∧ usz y ≤ j < usz y + k)) as [H1|H1];
      [rewrite decide_True by lia|rewrite decide_False by lia]; done.
Qed.

Lemma patch_rgba_rect_ok fb x y width height px :
  fb_wf fb → length px = usz width * usz height * 4 → rect_inside fb x y width height →
  ∃ fb', patch_rgba_rect fb x y width height px = Ok fb' ∧ fb_wf fb' ∧
    fb_width fb' = fb_width fb ∧ fb_height fb' = fb_height fb ∧
    rows_patched fb x y width px (usz height) (fb_rgba fb').
Proof.
  intros Hwf Hpx Hin. pose proof (rect_inside_nat _ _ _ _ _ Hin) as [Hx Hy].
  destruct Hin as [Hix Hiy].
  destruct (for_range_ind (E:=string) (rows_patched fb x y width px)
    (patch_row fb x y width px) (usz height) 0 (fb_rgba fb)) as (rgba & Hrgba & HP).
  - apply rows_patched_0.
  - intros i rgba [_ Hi]. apply patch_row_step with (height := height); try done; lia.
  - exists (mk_framebuffer (fb_width fb) (fb_height fb) rgba).
    unfold patch_rgba_rect.
    rewrite !ensure_true by (apply Nat.eqb_eq || apply N.leb_le; lia || (unfold sat_add; lia)).
    unfold mbind, outcome_bind. rewrite Hrgba. split_and!; try done.
    unfold fb_wf in *. simpl. destruct HP as [-> _]. done.
Qed.

(** What the guards of [patch_rgba_rect] accept, below the [u16] edge. *)
Lemma patch_rgba_rect_guards fb x y width height px fb' :
  fb_small fb → patch_rgba_rect fb x y width height px = Ok fb' →
  length px = usz width * usz height * 4 ∧ rect_inside fb x y width height.
Proof.
  intros [Hw Hh] Hok. unfold patch_rgba_rect in Hok. inv_ok. bool_to_prop.
  split; [done|]. split; eapply sat_add_exact; done.
Qed.

Lemma patch_rgba_rect_err fb x y width height px :
  fb_small fb →
  ¬ (length px = usz width * usz height * 4 ∧ rect_inside fb x y width height) →
  ∃ e, patch_rgba_rect fb x y width height px = Err e.
Proof.
  intros [Hw Hh] Hno. unfold patch_rgba_rect.
  repeat ensure_step.
  bool_to_prop. exfalso. apply Hno. split; [done|]. split; eapply sat_add_exact; done.
Qed.

(** Outside its errors, [copy_rect] is a snapshot followed by a patch. *)
Lemma copy_rect_ok fb src_x src_y dst_x dst_y width height :
  fb_wf fb → rect_inside fb src_x src_y width height →
  rect_inside fb dst_x dst_y width height →
  ∃ px fb', copy_rect fb src_x src_y dst_x dst_y width height = Ok fb' ∧
    (∀ i j c, i < usz width → j < usz height → c < 4 →
      rect_byte px width i j c = fb_byte fb (usz src_x + i) (usz src_y + j) c) ∧
    fb_wf fb' ∧ fb_width fb' = fb_width fb ∧ fb_height fb' = fb_height fb ∧
    rows_patched fb dst_x dst_y width px (usz height) (fb_rgba fb').
Proof.
  intros Hwf Hs Hd.
  destruct (snapshot_spec (E:=string) fb src_x src_y width height Hwf Hs)
    as (px & Hpx & Hlen & Hget).
  destruct (patch_rgba_rect_ok fb dst_x dst_y width height px Hwf Hlen Hd)
    as (fb' & Hok & Hrest).
  exists px, fb'. split; [|exact (conj Hget Hrest)].
  destruct Hs as [Hsx Hsy], Hd as [Hdx Hdy]. unfold copy_rect.
  rewrite !ensure_true by (apply N.leb_le; (unfold sat_add; lia)).
  unfold mbind, outcome_bind. by rewrite Hpx.
Qed.

Lemma copy_rect_err fb src_x src_y dst_x dst_y width height :
  fb_small fb →
  ¬ (rect_inside fb src_x src_y width height ∧ rect_inside fb dst_x dst_y width height) →
  ∃ e, copy_rect fb src_x src_y dst_x dst_y width height = Err e.
Proof.
  intros [Hw Hh] Hno. unfold copy_rect.
  do 8 ensure_step.
  bool_to_prop. exfalso. apply Hno. split; split; eapply sat_add_exact; done.
Qed.

(** Both updates keep the buffer well formed and its size fixed. *)
Lemma patch_rgba_rect_preserves fb x y width height px fb' :
  fb_wf fb → fb_small fb → patch_rgba_rect fb x y width height px = Ok fb' →
  fb_wf fb' ∧ fb_width fb' = fb_width fb ∧ fb_height fb' = fb_height fb ∧
  rect_inside fb x y width height.
Proof.
  intros Hwf Hsm Hok.
  destruct (patch_rgba_rect_guards _ _ _ _ _ _ _ Hsm Hok) as [Hlen Hin].
  destruct (patch_rgba_rect_ok _ _ _ _ _ _ Hwf Hlen Hin) 
    as (fb'' & Hok' & H1 & H2 & H3 & _).
  rewrite Hok in Hok'. injection Hok' as <-. done.
Qed.

Lemma copy_rect_preserves fb src_x src_y dst_x dst_y width height fb' :
  fb_wf fb → fb_small fb →
  copy_rect fb src_x src_y dst_x dst_y width height = Ok fb' →
  fb_wf fb' ∧ fb_width fb' = fb_width fb ∧ fb_height fb' = fb_height fb ∧
  rect_inside fb dst_x dst_y width height.
Proof.
  intros Hwf Hsm Hok.
  assert (Hin : rect_inside fb src_x src_y width height ∧
                rect_inside fb dst_x dst_y width height).
  { unfold copy_rect in Hok. destruct Hsm. inv_ok. bool_to_prop.
    split; split; eapply sat_add_exact; done. }
  destruct Hin as [Hs Hd].
  destruct (copy_rect_ok _ _ _ _ _ _ _ Hwf Hs Hd) 
    as (px & fb'' & Hok' & _ & H1 & H2 & H3 & _).
  rewrite Hok in Hok'. injection Hok' as <-. done.
Qed.

(** ** Properties *)

(** C1: [patch_rgba_rect], on a well-formed framebuffer below the [u16] edge,
    accepts exactly the rectangles that carry four bytes per pixel and lie inside
    the framebuffer; it then replaces the bytes of the covered pixels by the
    rectangle's, row by row, and leaves every other byte, the size and the
    well-formedness of the buffer as they were.  Any other rectangle is an error,
    and no rectangle panics. *)
Theorem patch_rgba_rect_correct fb x y width height px :
  fb_wf fb → fb_small fb →
  (length px = usz width * usz height * 4 ∧ rect_inside fb x y width height ∧
   ∃ fb', patch_rgba_rect fb x y width height px = Ok fb' ∧ fb_wf fb' ∧
     fb_width fb' = fb_width fb ∧ fb_height fb' = fb_height fb ∧
     ∀ i j c, i < usz (fb_width fb) → j < usz (fb_height fb) → c < 4 →
       fb_byte fb' i j c =
         if decide (usz x ≤ i < usz (x + width) ∧ usz y ≤ j < usz (y + height))
         then rect_byte px width (i - usz x) (j - usz y) c
         else fb_byte fb i j c) ∨
  (¬ (length px = usz width * usz height * 4 ∧ rect_inside fb x y width height) ∧
   ∃ e, patch_rgba_rect fb x y width height px = Err e).
Proof.
  intros Hwf Hsm.
  destruct (decide (length px = usz width * usz height * 4)) as [Hlen|];
    [|right; split; [naive_solver|apply patch_rgba_rect_err; naive_solver]].
  destruct (decide (x + width <= fb_width fb ∧ y + height <= fb_height fb)%N) as [Hin|];
    [|right; split; [naive_solver|apply patch_rgba_rect_err; naive_solver]].
  left. destruct (patch_rgba_rect_ok fb x y width height px Hwf Hlen Hin)
    as (fb' & Hok & Hwf' & Hw & Hh & _ & Hget).
  split_and!; [done|done|]. exists fb'. split_and!; try done.
  intros i j c Hi Hj Hc. unfold fb_byte at 1. rewrite Hw, Hget by done.
  by rewrite !N2Nat.inj_add.
Qed.

(** [copy_rect] copies a snapshot: inside the framebuffer, every destination
    pixel gets the byte its source pixel held before the call, even when source
    and destination overlap, and all other pixels keep theirs; a rectangle that
    leaves the framebuffer on either side is an error, never a panic. *)
Theorem copy_rect_snapshot fb src_x src_y dst_x dst_y width height :
  fb_wf fb → fb_small fb →
  (rect_inside fb src_x src_y width height ∧ rect_inside fb dst_x dst_y width height ∧
   ∃ fb', copy_rect fb src_x src_y dst_x dst_y width height = Ok fb' ∧ fb_wf fb' ∧
     ∀ i j c, i < usz (fb_width fb) → j < usz (fb_height fb) → c < 4 →
       fb_byte fb' i j c =
         if decide (usz dst_x ≤ i < usz (dst_x + width) ∧
                    usz dst_y ≤ j < usz (dst_y + height))
         then fb_byte fb (usz src_x + (i - usz dst_x)) (usz src_y + (j - usz dst_y)) c
         else fb_byte fb i j c) ∨
  (¬ (rect_inside fb src_x src_y width height ∧ rect_inside fb dst_x dst_y width height) ∧
   ∃ e, copy_rect fb src_x src_y dst_x dst_y width height = Err e).
Proof.
  intros Hwf Hsm.
  destruct (decide ((src_x + width <= fb_width fb ∧ src_y + height <= fb_height fb) ∧
                    (dst_x + width <= fb_width fb ∧ dst_y + height <= fb_height fb))%N)
    as [[Hs Hd]|Hno]; [left|right; split; [done|by apply copy_rect_err]].
  destruct (copy_rect_ok fb src_x src_y dst_x dst_y width height Hwf Hs Hd)
    as (px & fb' & Hok & Hpx & Hwf' & Hw & Hh & _ & Hget).
  split_and!; [done|done|]. exists fb'. split_and!; [done|done|].
  intros i j c Hi Hj Hc. unfold fb_byte at 1. rewrite Hw, Hget by done.
  rewrite !N2Nat.inj_add.
  destruct (decide _) as [Hin|]; [|done]. apply Hpx; lia.
Qed.

(** [clone_bgra_rect] of a rectangle inside a well-formed framebuffer returns
    the rectangle's pixels in row order, each with red and blue exchanged, and
    nothing else; [clone_bgra] is the same copy of the whole buffer. *)
Theorem clone_bgra_rect_correct E fb x y width height :
  fb_wf fb → rect_inside fb x y width height →
  (∃ out, clone_bgra_rect (E:=E) fb x y width height = Ok out ∧
    length out = usz width * usz height * 4 ∧
    ∀ i j c, i < usz width → j < usz height → c < 4 →
      rect_byte out width i j c = fb_byte fb (usz x + i) (usz y + j) (bgra_channel c)) ∧
  (length (clone_bgra fb) = length (fb_rgba fb) ∧
   ∀ i j c, c < 4 →
     rect_byte (clone_bgra fb) (fb_width fb) i j c = fb_byte fb i j (bgra_channel c)).
Proof.
  intros Hwf Hin. split; [by apply clone_bgra_rect_spec|].
  split; [apply swap_red_blue_length|]. intros i j c Hc. by apply clone_bgra_lookup.
Qed.

(** At the greatest [u16] height the guards do not protect the slices: a
    rectangle of the right byte length that overhangs the bottom of a framebuffer
    65535 rows high passes [saturating_add]'s check and makes the row copy panic. *)
Theorem patch_rgba_rect_saturated_panics fb x y width height px :
  fb_wf fb → fb_height fb = u16_max → (0 < width)%N → (x + width <= fb_width fb)%N →
  (y <= u16_max)%N → (u16_max < y + height)%N →
  length px = usz width * usz height * 4 →
  patch_rgba_rect fb x y width height px = Panic.
Proof.
  intros Hwf Hh H0 Hx Hy Hov Hlen. unfold patch_rgba_rect.
  rewrite !ensure_true by
    (apply Nat.eqb_eq || apply N.leb_le; (unfold sat_add; lia)).
  assert (for_range (E:=string) 0 (usz height) (patch_row fb x y width px) (fb_rgba fb) = Panic)
    as Hp; [|unfold mbind, outcome_bind; by rewrite Hp].
  apply for_range_panic with (P := rows_patched fb x y width px) (k := usz (u16_max - y)).
  - lia.
  - apply rows_patched_0.
  - intros i rgba Hi. apply patch_row_step with (height := height); (done || lia).
  - intros rgba [Hl _]. unfold patch_row.
    pose proof (row_range_bound (usz width) (usz height) (usz (u16_max - y)) 0 (usz width)).
    rewrite get_slice_ok by lia. unfold mbind, outcome_bind.
    apply copy_from_slice_panic. rewrite Hl, Hwf.
    replace (usz y + usz (u16_max - y)) with (usz (fb_height fb)) by lia.
    rewrite Nat.mul_add_distr_r, (Nat.mul_comm (usz (fb_width fb))). lia.
Qed.

(** ** Witnesses *)

Definition demo_fb : RgbaFramebuffer :=
  mk_framebuffer 3 1 [1; 0; 0; 255; 2; 0; 0; 255; 3; 0; 0; 255]%N.

Lemma patch_rgba_rect_correct_witness :
  fb_wf demo_fb ∧ fb_small demo_fb ∧
  ∃ fb', patch_rgba_rect demo_fb 1 0 2 1 [9; 9; 9; 9; 8; 8; 8; 8]%N = Ok fb' ∧
    fb_rgba fb' = [1; 0; 0; 255; 9; 9; 9; 9; 8; 8; 8; 8]%N.
Proof.
  assert (Hwf : fb_wf demo_fb) by reflexivity.
  assert (Hsm : fb_small demo_fb) by (split; reflexivity).
  split_and!; [done|done|].
  destruct (patch_rgba_rect_correct demo_fb 1 0 2 1 [9; 9; 9; 9; 8; 8; 8; 8]%N Hwf Hsm)
    as [(_ & _ & fb' & Hok & _)|(_ & e & He)].
  - exists fb'. split; [done|]. vm_compute in Hok. injection Hok as <-. reflexivity.
  - exfalso. vm_compute in He. discriminate He.
Defined.

Lemma copy_rect_snapshot_witness :
  ∃ fb', copy_rect demo_fb 0 0 1 0 2 1 = Ok fb' ∧
    fb_rgba fb' = [1; 0; 0; 255; 1; 0; 0; 255; 2; 0; 0; 255]%N.
Proof.
  assert (Hwf : fb_wf demo_fb) by reflexivity.
  assert (Hsm : fb_small demo_fb) by (split; reflexivity).
  destruct (copy_rect_snapshot demo_fb 0 0 1 0 2 1 Hwf Hsm)
    as [(_ & _ & fb' & Hok & _)|(_ & e & He)].
  - exists fb'. split; [done|]. vm_compute in Hok. injection Hok as <-. reflexivity.
  - exfalso. vm_compute in He. discriminate He.
Defined.

Lemma clone_bgra_rect_correct_witness :
  ∃ out, clone_bgra_rect (E:=string) demo_fb 1 0 2 1 = Ok out ∧
    out = [0; 0; 2; 255; 0; 0; 3; 255]%N.
Proof.
  assert (Hwf : fb_wf demo_fb) by reflexivity.
  assert (Hin : rect_inside demo_fb 1 0 2 1) by (split; vm_compute; discriminate).
  destruct (clone_bgra_rect_correct string demo_fb 1 0 2 1 Hwf Hin) as [(out & Hok & _) _].
  exists out. split; [done|]. vm_compute in Hok. injection Hok as <-. reflexivity.
Defined.

Lemma patch_rgba_rect_saturated_panics_witness :
  patch_rgba_rect (new_framebuffer 1 u16_max) 0 u16_max 1 1 [0; 0; 0; 0]%N = Panic.
Proof.
  apply (patch_rgba_rect_saturated_panics (new_framebuffer 1 u16_max) 0 u16_max 1 1 [0; 0; 0; 0]%N);
    [apply new_framebuffer_wf|reflexivity|lia|simpl; lia|lia|lia|reflexivity].
Defined.
