(* ===== verification/VncRuntime.v ===== *)
(** * Messages of the VNC helper

    The data types of vnc-helper/src/runtime.rs: what the host asks of a session
    ([RemoteDesktopInput]) and what a session reports ([RemoteDesktopOutput]).
    User text is the list of its Unicode scalar values, a diagnostic message is a
    [string]. *)

From S2P Require Import Prelude.

Abbreviation text := (list N) (only parsing).

Record RemoteDesktopConnectionOptions := mk_options {
  opt_destination : string;
  opt_username : option string;
  opt_password : option string;
  opt_domain : option string;
}.

Inductive RemoteMouseButton := Left | Middle | Right | X1 | X2.

Inductive RemoteKey :=
  | Scancode (code : N)
  | KeySym (keysym : N).

Inductive RemoteDesktopInput :=
  | Resize (width height : N)
  | MouseMove (x y : N)
  | MouseButton (button : RemoteMouseButton) (pressed : bool)
  | Wheel (vertical : bool) (units : Z)
  | Key (key : RemoteKey) (pressed : bool)
  | Text (t : text)
  | InClipboardText (t : text)
  | ClipboardFiles (paths : list text)
  | Reconnect
  | Close.

Inductive ResizeSupport := LocalScaleOnly.

Record RemoteDesktopCapabilities := mk_capabilities {
  cap_resize : ResizeSupport;
  cap_clipboard_text : bool;
  cap_cursor_shape : bool;
  cap_audio : bool;
  cap_file_transfer : bool;
}.

(** [RemoteDesktopCapabilities::vnc_mvp]. *)
Definition vnc_mvp : RemoteDesktopCapabilities :=
  mk_capabilities LocalScaleOnly true false false false.

Inductive RemoteDesktopReconnectReason :=
  DisplayUpdate | SessionError | ConnectionLost | Manual.

Record RemoteDesktopReconnect := mk_reconnect {
  rec_reason : RemoteDesktopReconnectReason;
  rec_delay_secs : option N;
}.

Record RemoteDesktopFrameRect := mk_frame_rect {
  fr_x : N;
  fr_y : N;
  fr_width : N;
  fr_height : N;
  fr_byte_len : N;
}.

Record RemoteDesktopCursor := mk_cursor {
  cur_width : N;
  cur_height : N;
  cur_hotspot_x : N;
  cur_hotspot_y : N;
  cur_rgba : bytes;
}.

Inductive RemoteDesktopOutput :=
  | Connected (width height : N) (capabilities : RemoteDesktopCapabilities)
  | Frame (width height : N) (rgba : bytes)
  | FrameBgraRects (width height : N) (rects : list RemoteDesktopFrameRect) (bgra : bytes)
  | CursorDefault
  | CursorHidden
  | CursorPosition (x y : N)
  | CursorBitmap (cursor : RemoteDesktopCursor)
  | ClipboardText (t : text)
  | Reconnecting (reconnect : RemoteDesktopReconnect)
  | Status (message : string)
  | ConnectionFailure (message : string)
  | Terminated (message : string).

#[export] Instance RemoteMouseButton_eq_dec : EqDecision RemoteMouseButton.
Proof. solve_decision. Defined.
#[export] Instance RemoteKey_eq_dec : EqDecision RemoteKey.
Proof. solve_decision. Defined.
#[export] Instance RemoteDesktopInput_eq_dec : EqDecision RemoteDesktopInput.
Proof. solve_decision. Defined.
#[export] Instance ResizeSupport_eq_dec : EqDecision ResizeSupport.
Proof. solve_decision. Defined.
#[export] Instance RemoteDesktopCapabilities_eq_dec : EqDecision RemoteDesktopCapabilities.
Proof. solve_decision. Defined.
#[export] Instance RemoteDesktopReconnectReason_eq_dec : EqDecision RemoteDesktopReconnectReason.
Proof. solve_decision. Defined.
#[export] Instance RemoteDesktopReconnect_eq_dec : EqDecision RemoteDesktopReconnect.
Proof. solve_decision. Defined.
#[export] Instance RemoteDesktopFrameRect_eq_dec : EqDecision RemoteDesktopFrameRect.
Proof. solve_decision. Defined.
#[export] Instance RemoteDesktopCursor_eq_dec : EqDecision RemoteDesktopCursor.
Proof. solve_decision. Defined.
#[export] Instance RemoteDesktopOutput_eq_dec : EqDecision RemoteDesktopOutput.
Proof. solve_decision. Defined.
