(* ===== verification/Viewer.v ===== *)
(** * The viewer: what a stream of picture events means

    The helpers send pictures to the host as complete frames and as deltas (lists
    of rectangles whose pixels follow each other in one buffer).  A mailbox between
    the two may merge or drop pictures.  This file is the specification both
    mailboxes are checked against: an event type says which picture, if any, each
    event carries ([PictureEvent]), a [Viewer] says what showing a frame and
    painting a rectangle do, and [view] plays an event on a viewer. *)

From S2P Require Import Prelude.

Record pic_rect := mk_pic_rect {
  pr_x : N; pr_y : N; pr_width : N; pr_height : N; pr_byte_len : N;
}.

Inductive picture :=
  | WholeFrame (width height : N) (px : bytes)
  | Delta (width height : N) (rects : list pic_rect) (px : bytes)
  | NoPicture.

(** What an event shows. *)
Class PictureEvent (E : Type) := picture_of : E → picture.

(** How a viewer reacts: any screen type with these two operations. *)
Class Viewer (V : Type) := {
  show_frame : N → N → bytes → V;
  paint : V → pic_rect → bytes → V;
}.

Section view.
Context `{Viewer V}.

(** Rectangles take their [byte_len] bytes from the buffer in order. *)
Fixpoint paint_rects (v : V) (rects : list pic_rect) (px : bytes) : V :=
  match rects with
  | [] => v
  | r :: rects' =>
      paint_rects (paint v r (take (usz (pr_byte_len r)) px)) rects'
        (drop (usz (pr_byte_len r)) px)
  end.

Definition view_picture (v : option V) (p : picture) : option V :=
  match p with
  | WholeFrame w h px => Some (show_frame w h px)
  | Delta _ _ rects px => (λ v, paint_rects v rects px) <$> v
  | NoPicture => v
  end.

Definition view `{PictureEvent E} (v : option V) (e : E) : option V :=
  view_picture v (picture_of e).
End view.

(** The rectangles' byte counts add up to the buffer. *)
Fixpoint rect_bytes (rects : list pic_rect) : nat :=
  match rects with
  | [] => 0
  | r :: rects' => usz (pr_byte_len r) + rect_bytes rects'
  end.

Definition picture_wf (p : picture) : Prop :=
  match p with
  | Delta _ _ rects px => rect_bytes rects = length px
  | _ => True
  end.

Definition picture_dims (p : picture) : option (N * N) :=
  match p with
  | WholeFrame w h _ | Delta w h _ _ => Some (w, h)
  | NoPicture => None
  end.

Lemma rect_bytes_app r1 r2 : rect_bytes (r1 ++ r2) = rect_bytes r1 + rect_bytes r2.
Proof. induction r1 as [|r r1 IH]; simpl; [done|]. rewrite IH. lia. Qed.

(** A delta's rectangles only read the bytes that belong to them. *)
Lemma paint_rects_app `{Viewer V} (v : V) r1 r2 px1 px2 :
  rect_bytes r1 = length px1 →
  paint_rects v (r1 ++ r2) (px1 ++ px2) = paint_rects (paint_rects v r1 px1) r2 px2.
Proof.
  revert v px1. induction r1 as [|r r1 IH]; intros v px1; simpl.
  - intros Hlen. by destruct px1.
  - intros Hlen. rewrite take_app_le, drop_app_le by lia.
    apply IH. rewrite length_drop. lia.
Qed.

(** Concatenating two deltas shows what playing them one after the other does. *)
Lemma view_delta_app `{Viewer V} (v : option V) w h r1 r2 px1 px2 :
  rect_bytes r1 = length px1 →
  view_picture v (Delta w h (r1 ++ r2) (px1 ++ px2)) =
    view_picture (view_picture v (Delta w h r1 px1)) (Delta w h r2 px2).
Proof. intros. destruct v; simpl; [|done]. by rewrite paint_rects_app. Qed.

Lemma view_whole_frame `{Viewer V} (v v' : option V) w h px :
  view_picture v (WholeFrame w h px) = view_picture v' (WholeFrame w h px).
Proof. done. Qed.

(** ** The direct line

    [direct]: the picture a viewer would show that saw every event at once.  It is
    [None] while no frame of the running session has been sent, or after a delta
    that does not fit the frame it follows. *)

Definition direct_picture `{Viewer V} (d : option (V * (N * N))) (p : picture)
    : option (V * (N * N)) :=
  match p with
  | WholeFrame w h px => Some (show_frame w h px, (w, h))
  | Delta w h rects px =>
      match d with
      | Some (v, dims) =>
          if decide (dims = (w, h)) then Some (paint_rects v rects px, dims) else None
      | None => None
      end
  | NoPicture => d
  end.
