(* ===== verification/VncMailbox.v ===== *)
(** * The VNC output mailbox

    vnc-helper/src/output_mailbox.rs: the mutex-protected queue between the session
    thread (through [OutputSender]) and the writer thread ([OutputReceiver]).
    Control messages queue up, pictures are kept as one pending frame and one
    pending delta.  Every method body runs under the mutex, so a method is a
    function on [State] that also says which condition-variable notification it
    sends; the receive loop is modelled by its poll, and the threads by the step
    relation [step] on a configuration. *)

From S2P Require Import Prelude VncRuntime Viewer.

(** ** State *)

Record State := mk_state {
  control : list RemoteDesktopOutput;
  latest_frame : option RemoteDesktopOutput;
  latest_delta : option RemoteDesktopOutput;
  accepting_session_outputs : bool;
  sender_count : N;
  receiver_alive : bool;
}.

Inductive MailboxClosed := mailbox_closed.

Inductive Notify := NotifyNone | NotifyOne | NotifyAll.

Definition output_mailbox : State := mk_state [] None None true 1 true.

(** ** Queue helpers *)

Definition is_session_scoped_control (output : RemoteDesktopOutput) : bool :=
  match output with
  | ClipboardText _ | CursorDefault | CursorHidden | CursorPosition _ _
  | CursorBitmap _ => true
  | _ => false
  end.

(** [control.retain(|output| !is_session_scoped_control(output))]. *)
Fixpoint discard_pending_session_controls (control : list RemoteDesktopOutput)
    : list RemoteDesktopOutput :=
  match control with
  | [] => []
  | o :: rest =>
      if is_session_scoped_control o then discard_pending_session_controls rest
      else o :: discard_pending_session_controls rest
  end.

Definition close_session_outputs (st : State) : State :=
  mk_state (discard_pending_session_controls (control st)) None None false
    (sender_count st) (receiver_alive st).

Definition enqueue_control (control : list RemoteDesktopOutput)
    (output : RemoteDesktopOutput) : list RemoteDesktopOutput :=
  match last control, output with
  | Some (CursorPosition _ _), CursorPosition next_x next_y =>
      removelast control ++ [CursorPosition next_x next_y]
  | Some (CursorBitmap _), CursorBitmap next => removelast control ++ [CursorBitmap next]
  | _, output => control ++ [output]
  end.

Definition merge_deltas (previous next : RemoteDesktopOutput) : RemoteDesktopOutput :=
  match previous, next with
  | FrameBgraRects width height rects bgra,
    FrameBgraRects next_width next_height next_rects next_bgra =>
      if (width =? next_width)%N && (height =? next_height)%N
      then FrameBgraRects width height (rects ++ next_rects) (bgra ++ next_bgra)
      else next
  | _, next => next
  end.

Definition with_control (st : State) (c : list RemoteDesktopOutput) : State :=
  mk_state c (latest_frame st) (latest_delta st) (accepting_session_outputs st)
    (sender_count st) (receiver_alive st).

Definition with_pictures (st : State) (f d : option RemoteDesktopOutput) : State :=
  mk_state (control st) f d (accepting_session_outputs st) (sender_count st)
    (receiver_alive st).

(** ** [OutputSender] *)

Definition begin_generation (st : State) : State * Notify :=
  (close_session_outputs st, NotifyOne).

(** The match of [send], once the receiver is known to be alive. *)
Definition accept_output (output : RemoteDesktopOutput) (st : State) : State :=
  match output with
  | Reconnecting reconnect =>
      let st := close_session_outputs st in
      with_control st (control st ++ [Reconnecting reconnect])
  | Connected _ _ _ =>
      mk_state (control st ++ [output]) (latest_frame st) (latest_delta st) true
        (sender_count st) (receiver_alive st)
  | Frame _ _ _ =>
      if accepting_session_outputs st then with_pictures st (Some output) None else st
  | FrameBgraRects _ _ _ _ =>
      if accepting_session_outputs st
      then with_pictures st (latest_frame st)
             (Some match latest_delta st with
                   | Some previous => merge_deltas previous output
                   | None => output
                   end)
      else st
  | ConnectionFailure _ | Terminated _ =>
      let st := close_session_outputs st in
      with_control st (control st ++ [output])
  | _ =>
      if is_session_scoped_control output && negb (accepting_session_outputs st)
      then st
      else with_control st (enqueue_control (control st) output)
  end.

Definition send (output : RemoteDesktopOutput) (st : State)
    : State * Notify * outcome MailboxClosed () :=
  if receiver_alive st
  then (accept_output output st, NotifyOne, Ok ())
  else (st, NotifyNone, Err mailbox_closed).

Definition with_sender_count (st : State) (n : N) : State :=
  mk_state (control st) (latest_frame st) (latest_delta st)
    (accepting_session_outputs st) n (receiver_alive st).

Definition clone_sender (st : State) : State :=
  with_sender_count st (sender_count st + 1).

(** [saturating_sub(1)]: subtraction on [N] stops at zero. *)
Definition drop_sender (st : State) : State * Notify :=
  let st := with_sender_count st (sender_count st - 1) in
  (st, if (sender_count st =? 0)%N then NotifyAll else NotifyNone).

(** ** [OutputReceiver] *)

Inductive RecvPoll :=
  | Received (output : RemoteDesktopOutput)
  | Closed
  | WouldWait.

(** One pass of the loop of [recv]: it ends in a value, in [None], or in
    [ready.wait(state)]. *)
Definition recv_poll (st : State) : State * RecvPoll :=
  match control st with
  | c :: rest => (with_control st rest, Received c)
  | [] =>
      match latest_frame st with
      | Some frame => (with_pictures st None (latest_delta st), Received frame)
      | None =>
          match latest_delta st with
          | Some delta => (with_pictures st None None, Received delta)
          | None => if (sender_count st =? 0)%N then (st, Closed) else (st, WouldWait)
          end
      end
  end.

Definition drop_receiver (st : State) : State * Notify :=
  (mk_state [] None None (accepting_session_outputs st) (sender_count st) false,
   NotifyAll).

(** ** Threads

    Any number of sender handles and one receiver, which sleeps on the condition
    variable after a poll that would wait and polls again when notified (or
    spuriously). *)

Inductive Receiver := Running | Sleeping | Gone.

Record Config := mk_config { mailbox : State; receiver : Receiver }.

Definition initial : Config := mk_config output_mailbox Running.

Definition notified (n : Notify) (r : Receiver) : Receiver :=
  match n, r with
  | (NotifyOne | NotifyAll), Sleeping => Running
  | _, r => r
  end.

Arguments notified : simpl never.

Inductive Label :=
  | LSend (output : RemoteDesktopOutput) (delivered : bool)
  | LBegin
  | LClone
  | LDropSender
  | LRecv (output : RemoteDesktopOutput)
  | LClosed
  | LSleep
  | LSpurious
  | LDropReceiver.

Inductive step : Config → Label → Config → Prop :=
  | step_send st r o st' n res :
      (0 < sender_count st)%N → send o st = (st', n, res) →
      step (mk_config st r) (LSend o (is_ok res)) (mk_config st' (notified n r))
  | step_begin st r st' n :
      (0 < sender_count st)%N → begin_generation st = (st', n) →
      step (mk_config st r) LBegin (mk_config st' (notified n r))
  | step_clone st r :
      (0 < sender_count st)%N →
      step (mk_config st r) LClone (mk_config (clone_sender st) r)
  | step_drop_sender st r st' n :
      (0 < sender_count st)%N → drop_sender st = (st', n) →
      step (mk_config st r) LDropSender (mk_config st' (notified n r))
  | step_recv st st' o :
      recv_poll st = (st', Received o) →
      step (mk_config st Running) (LRecv o) (mk_config st' Running)
  | step_closed st st' :
      recv_poll st = (st', Closed) →
      step (mk_config st Running) LClosed (mk_config st' Running)
  | step_sleep st st' :
      recv_poll st = (st', WouldWait) →
      step (mk_config st Running) LSleep (mk_config st' Sleeping)
  | step_spurious st :
      step (mk_config st Sleeping) LSpurious (mk_config st Running)
  | step_drop_receiver st st' n :
      drop_receiver st = (st', n) →
      step (mk_config st Running) LDropReceiver (mk_config st' Gone).

(** An execution: the labels are in order of time. *)
Inductive run : Config → list Label → Config → Prop :=
  | run_nil c : run c [] c
  | run_snoc c ls c1 l c2 : run c ls c1 → step c1 l c2 → run c (ls ++ [l]) c2.

Definition reachable (c : Config) : Prop := ∃ ls, run initial ls c.

(** The step relation, executed. *)
Definition exec (c : Config) (l : Label) : option Config :=
  let '(mk_config st r) := c in
  match l, r with
  | LSend o delivered, _ =>
      let '(st', n, res) := send o st in
      if decide (0 < sender_count st ∧ is_ok res = delivered)%N
      then Some (mk_config st' (notified n r)) else None
  | LBegin, _ =>
      if decide (0 < sender_count st)%N
      then Some (mk_config (begin_generation st).1 (notified (begin_generation st).2 r))
      else None
  | LClone, _ =>
      if decide (0 < sender_count st)%N then Some (mk_config (clone_sender st) r) else None
  | LDropSender, _ =>
      if decide (0 < sender_count st)%N
      then Some (mk_config (drop_sender st).1 (notified (drop_sender st).2 r)) else None
  | LRecv o, Running =>
      match recv_poll st with
      | (st', Received o') => if decide (o = o') then Some (mk_config st' Running) else None
      | _ => None
      end
  | LClosed, Running =>
      match recv_poll st with (st', Closed) => Some (mk_config st' Running) | _ => None end
  | LSleep, Running =>
      match recv_poll st with (st', WouldWait) => Some (mk_config st' Sleeping) | _ => None end
  | LSpurious, Sleeping => Some (mk_config st Running)
  | LDropReceiver, Running => Some (mk_config (drop_receiver st).1 Gone)
  | _, _ => None
  end.

Lemma exec_step c l c' : exec c l = Some c' → step c l c'.
Proof.
  destruct c as [st r]. intros He. destruct l, r; simpl in He; try discriminate He;
    repeat (case_match; try discriminate He); injection He as <-; destruct_and?; subst;
    first [eapply step_send; eassumption|by apply step_begin
          |by apply step_clone
          |apply step_drop_sender; [done|unfold drop_sender; simpl; case_match; congruence]
          |by apply step_recv|by apply step_closed
          |by apply step_sleep|apply step_spurious|by eapply step_drop_receiver].
Qed.

Definition exec_all (c : Config) (ls : list Label) : option Config :=
  foldl (λ oc l, c ← oc; exec c l) (Some c) ls.

Lemma exec_run ls c c1 c2 :
  run c ls c1 → ∀ ls', exec_all c1 ls' = Some c2 → run c (ls ++ ls') c2.
Proof.
  intros Hrun ls'. revert ls c1 Hrun. unfold exec_all.
  induction ls' as [|l ls' IH]; intros ls c1 Hrun; simpl.
  - intros [= <-]. by rewrite app_nil_r.
  - destruct (exec c1 l) as [c1'|] eqn:He.
    + intros Hf. rewrite (cons_middle l ls ls'), app_assoc. eapply IH; [|exact Hf].
      econstructor; [done|by apply exec_step].
    + intros Hf. exfalso. clear -Hf. induction ls'; [discriminate Hf|by apply IHls'].
Qed.

Lemma exec_all_run c ls c' : exec_all c ls = Some c' → run c ls c'.
Proof. apply (exec_run [] c c). constructor. Qed.

(** ** The picture an output carries *)

Definition pic_rect_of (r : RemoteDesktopFrameRect) : pic_rect :=
  mk_pic_rect (fr_x r) (fr_y r) (fr_width r) (fr_height r) (fr_byte_len r).

#[export] Instance output_picture : PictureEvent RemoteDesktopOutput := λ o,
  match o with
  | Frame w h px => WholeFrame w h px
  | FrameBgraRects w h rects px => Delta w h (pic_rect_of <$> rects) px
  | _ => NoPicture
  end.

Definition is_picture (o : RemoteDesktopOutput) : bool :=
  match o with Frame _ _ _ | FrameBgraRects _ _ _ _ => true | _ => false end.

(** Outputs of one session, which no other session's reader may see. *)
Definition is_session_output (o : RemoteDesktopOutput) : bool :=
  is_picture o || is_session_scoped_control o.

(** Outputs that end a session. *)
Definition is_barrier (o : RemoteDesktopOutput) : bool :=
  match o with Reconnecting _ | ConnectionFailure _ | Terminated _ => true | _ => false end.

(** ** Invariants *)

Definition pending (st : State) : Prop :=
  control st ≠ [] ∨ latest_frame st ≠ None ∨ latest_delta st ≠ None.

(** Nothing of the closed session is left. *)
Definition session_closed (st : State) : Prop :=
  accepting_session_outputs st = false ∧ latest_frame st = None ∧
  latest_delta st = None ∧ Forall (λ o, is_session_output o = false) (control st).

Record state_inv (st : State) : Prop := {
  inv_closed : accepting_session_outputs st = false → session_closed st;
  inv_control : Forall (λ o, is_picture o = false) (control st);
  inv_frame : ∀ o, latest_frame st = Some o → ∃ w h px, o = Frame w h px;
  inv_delta : ∀ o, latest_delta st = Some o → ∃ w h rs px, o = FrameBgraRects w h rs px;
}.

Record config_inv (c : Config) : Prop := {
  inv_state : state_inv (mailbox c);
  inv_gone : receiver c = Gone ↔ receiver_alive (mailbox c) = false;
  inv_sleeping : receiver c = Sleeping → ¬ pending (mailbox c) ∧ sender_count (mailbox c) ≠ 0%N;
}.

Lemma elem_of_removelast {A} (l : list A) x : x ∈ removelast l → x ∈ l.
Proof.
  induction l as [|a [|b l] IH]; simpl; [done|by intros ?%elem_of_nil|].
  rewrite !elem_of_cons. intros [->|?]; [by left|right]. apply elem_of_cons, IH. done.
Qed.

Lemma enqueue_control_Forall (P : RemoteDesktopOutput → Prop) c o :
  Forall P c → P o → Forall P (enqueue_control c o).
Proof.
  intros Hc Ho. rewrite Forall_forall in *. intros x.
  assert (∀ l, x ∈ l ++ [o] → (∀ y, y ∈ l → P y) → P x) as Happ.
  { intros l. rewrite elem_of_app, list_elem_of_singleton. naive_solver. }
  unfold enqueue_control.
  destruct (last c) as [[]|], o; intros Hx; eapply Happ; try exact Hx; eauto using elem_of_removelast.
Qed.

Lemma discard_Forall c :
  Forall (λ o, is_picture o = false) c →
  Forall (λ o, is_session_output o = false) (discard_pending_session_controls c).
Proof.
  induction 1 as [|o c Ho _ IH]; simpl; [done|].
  destruct (is_session_scoped_control o) eqn:Hs; [done|].
  constructor; [|done]. unfold is_session_output. by rewrite Ho, Hs.
Qed.

Lemma session_output_picture c :
  Forall (λ o, is_session_output o = false) c → Forall (λ o, is_picture o = false) c.
Proof.
  intros Hc. eapply Forall_impl; [exact Hc|]. intros o. unfold is_session_output.
  by destruct (is_picture o).
Qed.

Lemma close_session_outputs_closed st :
  state_inv st → session_closed (close_session_outputs st).
Proof. intros Hst. split_and!; try done. simpl. apply discard_Forall, Hst. Qed.

Lemma session_closed_inv st : session_closed st → state_inv st.
Proof.
  intros (Ha & Hf & Hd & Hc). split.
  - done.
  - by apply session_output_picture.
  - by rewrite Hf.
  - by rewrite Hd.
Qed.

Lemma session_closed_push st o :
  session_closed st → is_session_output o = false →
  session_closed (with_control st (control st ++ [o])).
Proof.
  intros (Ha & Hf & Hd & Hc) Ho. split_and!; try done. simpl.
  by apply Forall_app_2; [|constructor].
Qed.

Lemma merge_deltas_rects d w h rs px :
  ∃ w' h' rs' px', merge_deltas d (FrameBgraRects w h rs px) = FrameBgraRects w' h' rs' px'.
Proof. destruct d; simpl; try by eauto 10. case_match; by eauto 10. Qed.

Lemma accept_output_inv o st : state_inv st → state_inv (accept_output o st).
Proof.
  intros Hst. pose proof (close_session_outputs_closed st Hst) as Hclose.
  assert (∀ o, is_session_output o = false →
    state_inv (with_control (close_session_outputs st)
                 (control (close_session_outputs st) ++ [o]))) as Hpush
    by (intros o' Ho'; by apply session_closed_inv, session_closed_push).
  assert (∀ o, is_picture o = false → accepting_session_outputs st = true →
    state_inv (with_control st (enqueue_control (control st) o))) as Henq.
  { intros o' Ho' Hacc. destruct Hst as [H1 H2 H3 H4]. split; simpl; try done.
    - by rewrite Hacc.
    - by apply enqueue_control_Forall. }
  assert (∀ o, is_session_output o = false → accepting_session_outputs st = false →
    state_inv (with_control st (enqueue_control (control st) o))) as Henq'.
  { intros o' Ho' Hacc. apply session_closed_inv.
    destruct (inv_closed st Hst Hacc) as (H1 & H2 & H3 & H4).
    split_and!; try done. simpl. by apply enqueue_control_Forall. }
  destruct o; simpl; try (by apply Hpush).
  (* [Connected] *)
  { destruct Hst as [H1 H2 H3 H4]. split; simpl; try done.
    by apply Forall_app_2; [|constructor]. }
  (* [Frame] and [FrameBgraRects] *)
  1-2: destruct (accepting_session_outputs st) eqn:Hacc; [|done];
    destruct Hst as [H1 H2 H3 H4]; split; simpl; try done; try (by rewrite Hacc);
    intros ? [= <-]; eauto.
  { destruct (latest_delta st); [apply merge_deltas_rects|eauto]. }
  (* queued controls *)
  all: destruct (accepting_session_outputs st) eqn:Hacc; simpl;
    (by apply Henq) || (by apply Henq') || done.
Qed.

Lemma recv_poll_inv st st' r : recv_poll st = (st', r) → state_inv st → state_inv st'.
Proof.
  intros Hr Hst. unfold recv_poll in Hr.
  pose proof (inv_closed st Hst) as Hcl. destruct Hst as [H1 H2 H3 H4].
  destruct (control st) as [|o rest] eqn:Hc; [|injection Hr as <- <-].
  - destruct (latest_frame st) eqn:Hf; [injection Hr as <- <-|].
    { split; simpl; try done; [|by rewrite Hc]. intros Ha. destruct (H1 Ha) as (_ & ? & _). congruence. }
    destruct (latest_delta st) eqn:Hd; [injection Hr as <- <-|].
    { split; simpl; try done; [|by rewrite Hc]. intros Ha. destruct (H1 Ha) as (_ & _ & ? & _). congruence. }
    assert (st' = st) as -> by (case_match; congruence).
    split; try done; by rewrite ?Hc, ?Hf, ?Hd.
  - split; simpl; try done; [|by inversion H2].
    intros Ha. destruct (H1 Ha) as (? & ? & ? & Hall). split_and!; try done.
    simpl. rewrite Hc in Hall. by inversion Hall.
Qed.

Lemma send_state_inv o st st' n r : send o st = (st', n, r) → state_inv st → state_inv st'.
Proof.
  unfold send. case_match; intros [= <- <- <-]; [apply accept_output_inv|done].
Qed.

Lemma accept_output_alive o st : receiver_alive (accept_output o st) = receiver_alive st.
Proof. destruct o; simpl; repeat case_match; done. Qed.

Lemma accept_output_senders o st : sender_count (accept_output o st) = sender_count st.
Proof. destruct o; simpl; repeat case_match; done. Qed.

Lemma with_sender_count_inv st n : state_inv st → state_inv (with_sender_count st n).
Proof. intros [H1 H2 H3 H4]. by split. Qed.

Lemma recv_poll_frame st st' r :
  recv_poll st = (st', r) →
  receiver_alive st' = receiver_alive st ∧ sender_count st' = sender_count st ∧
  accepting_session_outputs st' = accepting_session_outputs st.
Proof. unfold recv_poll. intros Hr. repeat case_match; by simplify_eq/=. Qed.

Lemma recv_poll_wait st st' :
  recv_poll st = (st', WouldWait) → st' = st ∧ ¬ pending st ∧ sender_count st ≠ 0%N.
Proof.
  unfold recv_poll, pending. intros Hr. repeat case_match; simplify_eq/=.
  bool_to_prop. naive_solver.
Qed.

Lemma notified_gone n r : notified n r = Gone ↔ r = Gone.
Proof. by destruct n, r. Qed.

Lemma notified_one r : notified NotifyOne r ≠ Sleeping.
Proof. by destruct r. Qed.

Lemma notified_all r : notified NotifyAll r ≠ Sleeping.
Proof. by destruct r. Qed.

Lemma step_inv c l c' : step c l c' → config_inv c → config_inv c'.
Proof.
  intros Hstep [Hst Hgone Hsleep]. destruct Hstep; simpl in *.
  - (* send *) split; simpl; [by eapply send_state_inv| |].
    all: unfold send in *; case_match; simplify_eq/=.
    + rewrite notified_gone, accept_output_alive, H1. exact Hgone.
    + by rewrite notified_gone, H1.
    + by intros ?%notified_one.
    + done.
  - (* begin *) injection H0 as <- <-. split; simpl.
    + apply session_closed_inv, close_session_outputs_closed, Hst.
    + rewrite notified_gone. exact Hgone.
    + by intros ?%notified_one.
  - (* clone *) split; simpl; [by apply with_sender_count_inv|done|].
    intros [Hp _]%Hsleep. split; [exact Hp|lia].
  - (* drop sender *) injection H0 as <- <-. split; simpl.
    + by apply with_sender_count_inv.
    + rewrite notified_gone. exact Hgone.
    + destruct (_ =? 0)%N eqn:Hz; [by intros ?%notified_all|]. bool_to_prop.
      intros [Hp _]%Hsleep. by split.
  - (* receive *) destruct (recv_poll_frame _ _ _ H) as (Ha & _ & _).
    split; simpl; [by eapply recv_poll_inv|by rewrite Ha|done].
  - (* closed *) destruct (recv_poll_frame _ _ _ H) as (Ha & _ & _).
    split; simpl; [by eapply recv_poll_inv|by rewrite Ha|done].
  - (* sleep *) destruct (recv_poll_wait _ _ H) as (-> & Hp & Hs).
    split; simpl; [done| |done]. by rewrite <-Hgone.
  - (* spurious *) split; simpl; [done| |done]. by rewrite <-Hgone.
  - (* drop receiver *) injection H as <- <-. split; simpl; [|done|done].
    destruct Hst as [H1 H2 H3 H4]. split; simpl; try done.
Qed.

Lemma initial_inv : config_inv initial.
Proof. split; [split| |]; simpl; try done; by constructor. Qed.

Lemma run_inv c ls c' : run c ls c' → config_inv c → config_inv c'.
Proof. induction 1; eauto using step_inv. Qed.

Lemma reachable_inv c : reachable c → config_inv c.
Proof. intros [ls Hrun]. eapply run_inv; [done|apply initial_inv]. Qed.

(** ** The session barrier *)

Definition is_connected (o : RemoteDesktopOutput) : bool :=
  match o with Connected _ _ _ => true | _ => false end.

(** [send] of a barrier output, delivered, closes the session. *)
Lemma barrier_closes o st :
  state_inv st → is_barrier o = true → session_closed (accept_output o st).
Proof.
  intros Hst Ho. pose proof (close_session_outputs_closed st Hst) as Hc.
  destruct o; try discriminate Ho; by apply session_closed_push.
Qed.

Lemma accept_output_closed o st :
  session_closed st → is_connected o = false → session_closed (accept_output o st).
Proof.
  intros Hst Ho. pose proof (session_closed_inv st Hst) as Hinv.
  pose proof (close_session_outputs_closed st Hinv) as Hc.
  destruct o; try discriminate Ho; simpl; try (by apply session_closed_push);
    destruct Hst as (Ha & Hf & Hd & Hall); rewrite ?Ha; simpl; try done.
  split_and!; try done. simpl. by apply enqueue_control_Forall.
Qed.

Definition label_connects (l : Label) : bool :=
  match l with LSend o delivered => is_connected o && delivered | _ => false end.

Definition label_session_output (l : Label) : bool :=
  match l with LRecv o => is_session_output o | _ => false end.

Lemma recv_poll_closed st st' r :
  session_closed st → recv_poll st = (st', r) →
  session_closed st' ∧ ∀ o, r = Received o → is_session_output o = false.
Proof.
  intros (Ha & Hf & Hd & Hall) Hr. unfold recv_poll in Hr. rewrite Hf, Hd in Hr.
  destruct (control st) as [|o rest] eqn:Hc.
  - case_match; simplify_eq/=; (split; [|done]); split_and!; try done; by rewrite Hc.
  - injection Hr as <- <-. inversion Hall; subst. split; [by split_and!|].
    by intros ? [= <-].
Qed.

Lemma step_closed_session c l c' :
  step c l c' → session_closed (mailbox c) → label_connects l = false →
  session_closed (mailbox c') ∧ label_session_output l = false.
Proof.
  intros Hstep Hcl Hl. destruct Hstep; simpl in *.
  - split; [|done]. unfold send in *. case_match; simplify_eq/=; [|done].
    apply accept_output_closed; [done|]. by rewrite andb_true_r in Hl.
  - injection H0 as <- <-. split; [|done].
    by apply close_session_outputs_closed, session_closed_inv.
  - done.
  - injection H0 as <- <-. done.
  - destruct (recv_poll_closed _ _ _ Hcl H) as [? Ho]. split; [done|]. by apply Ho.
  - by destruct (recv_poll_closed _ _ _ Hcl H).
  - by destruct (recv_poll_closed _ _ _ Hcl H).
  - done.
  - injection H as <- <-. destruct Hcl as (Ha & _ & _ & _). by split_and!.
Qed.

Lemma run_closed_session c ls c' :
  run c ls c' → session_closed (mailbox c) → Forall (λ l, label_connects l = false) ls →
  session_closed (mailbox c') ∧ Forall (λ l, label_session_output l = false) ls.
Proof.
  induction 1 as [|c ls c1 l c2 Hrun IH Hstep]; intros Hcl Hls; [by split|].
  apply Forall_app in Hls as [Hls Hl]. destruct (IH Hcl Hls) as [Hcl1 Hout].
  inversion Hl; subst. destruct (step_closed_session _ _ _ Hstep Hcl1) as [? ?]; [done|].
  split; [done|]. apply Forall_app_2; [done|]. by constructor.
Qed.

(** C2: no output crosses a session boundary.  Once the session thread starts a
    new generation, or a [Reconnecting], [ConnectionFailure] or [Terminated] output
    is delivered, the receiver gets no frame, delta, cursor or clipboard output,
    whatever the threads do, until a [Connected] output is delivered. *)
Theorem session_barrier pre c l c1 post c2 :
  run initial pre c → step c l c1 →
  (l = LBegin ∨ ∃ o, l = LSend o true ∧ is_barrier o = true) →
  run c1 post c2 → Forall (λ l, label_connects l = false) post →
  Forall (λ l, label_session_output l = false) post.
Proof.
  intros Hpre Hstep Hl Hpost Hconn.
  assert (Hinv : config_inv c) by (apply reachable_inv; by exists pre).
  apply (run_closed_session c1 post c2 Hpost); [|done].
  destruct Hl as [->|(o & -> & Ho)]; inversion Hstep; subst; simpl in *.
  - unfold begin_generation in *. simplify_eq/=.
    apply close_session_outputs_closed, Hinv.
  - unfold send in *. case_match; simplify_eq/=.
    apply barrier_closes; [apply Hinv|done].
Qed.

(** C3: no lost wake-up.  In every reachable configuration whose receiver is not
    dropped, if an output is pending or no sender is left then the receiver is not
    asleep on the condition variable: its next poll returns a pending output, or
    [None] exactly when nothing is pending. *)
Theorem no_lost_wakeup c :
  reachable c → receiver c ≠ Gone →
  (pending (mailbox c) ∨ sender_count (mailbox c) = 0%N) →
  receiver c = Running ∧
  ((∃ o c', step c (LRecv o) c') ∨
   (¬ pending (mailbox c) ∧ ∃ c', step c LClosed c')).
Proof.
  intros Hr%reachable_inv Hgone Hp. destruct c as [st r]; simpl in *.
  assert (r = Running) as ->.
  { destruct r; [done| |done]. destruct (inv_sleeping _ Hr eq_refl); simpl in *.
    destruct Hp; [done|lia]. }
  split; [done|].
  destruct (recv_poll st) as [st' [o| |]] eqn:Hpoll.
  - left. exists o, (mk_config st' Running). by constructor.
  - right. split; [|by eexists; constructor].
    unfold recv_poll, pending in *. repeat case_match; simplify_eq/=. naive_solver.
  - destruct (recv_poll_wait _ _ Hpoll) as (_ & ? & ?). destruct Hp; [done|lia].
Qed.

(** ** Control messages are never lost or reordered *)

(** The outputs that no session boundary discards, in order. *)
Definition durable : list RemoteDesktopOutput → list RemoteDesktopOutput :=
  filter (λ o, is_session_output o = false).

Definition sent (ls : list Label) : list RemoteDesktopOutput :=
  omap (λ l, match l with LSend o true => Some o | _ => None end) ls.

Definition received (ls : list Label) : list RemoteDesktopOutput :=
  omap (λ l, match l with LRecv o => Some o | _ => None end) ls.

Lemma durable_app l1 l2 : durable (l1 ++ l2) = durable l1 ++ durable l2.
Proof. apply filter_app. Qed.

Lemma durable_discard c : durable (discard_pending_session_controls c) = durable c.
Proof.
  induction c as [|o c IH]; [done|]. unfold durable in *. simpl.
  destruct (is_session_scoped_control o) eqn:Hs.
  - rewrite filter_cons_False; [done|]. unfold is_session_output.
    by rewrite Hs, orb_true_r.
  - rewrite !filter_cons. by rewrite IH.
Qed.

Lemma durable_session o : is_session_output o = true → durable [o] = [].
Proof.
  intros Ho. unfold durable. rewrite filter_cons_False; [done|by rewrite Ho].
Qed.

Lemma durable_replace c b o :
  last c = Some b → is_session_output b = true → is_session_output o = true →
  durable (removelast c ++ [o]) = durable c ++ durable [o].
Proof.
  intros Hc Hb Ho. rewrite (removelast_split c b Hc) at 2.
  by rewrite !durable_app, (durable_session b), (durable_session o), !app_nil_r.
Qed.

Lemma durable_enqueue c o : durable (enqueue_control c o) = durable c ++ durable [o].
Proof.
  unfold enqueue_control. destruct (last c) as [b|] eqn:Hlast; [|by rewrite <-durable_app].
  destruct b, o; (by rewrite <-durable_app) || (by eapply durable_replace).
Qed.

Lemma durable_accept o st :
  durable (control (accept_output o st)) = durable (control st) ++ durable [o].
Proof.
  destruct o; simpl; rewrite ?durable_app, ?durable_discard; try done;
    repeat (case_match; simpl); rewrite ?durable_enqueue; try done;
    rewrite (durable_session _) by done; by rewrite app_nil_r.
Qed.

Lemma recv_poll_durable st st' r :
  state_inv st → recv_poll st = (st', r) →
  durable (control st) =
    (match r with Received o => durable [o] | _ => [] end) ++ durable (control st').
Proof.
  intros Hst Hr. unfold recv_poll in Hr.
  destruct (control st) as [|o rest] eqn:Hc.
  - destruct (latest_frame st) as [f|] eqn:Hf.
    { injection Hr as <- <-. destruct (inv_frame st Hst f Hf) as (? & ? & ? & ->).
      simpl. by rewrite Hc. }
    destruct (latest_delta st) as [d|] eqn:Hd.
    { injection Hr as <- <-. destruct (inv_delta st Hst d Hd) as (? & ? & ? & ? & ->).
      simpl. by rewrite Hc. }
    case_match; simplify_eq; by rewrite Hc.
  - injection Hr as <- <-. simpl. by rewrite <-durable_app.
Qed.

Lemma step_durable c l c' :
  step c l c' → state_inv (mailbox c) → receiver c' ≠ Gone →
  durable (control (mailbox c)) ++ durable (sent [l]) =
    durable (received [l]) ++ durable (control (mailbox c')).
Proof.
  intros Hstep Hst Hgone. destruct Hstep; simpl in *.
  - unfold send in *. case_match; simplify_eq/=; [|by rewrite app_nil_r].
    by rewrite durable_accept.
  - unfold begin_generation in *. simplify_eq/=. by rewrite durable_discard, app_nil_r.
  - by rewrite app_nil_r.
  - unfold drop_sender in *. simplify_eq/=. by rewrite app_nil_r.
  - rewrite app_nil_r. by apply (recv_poll_durable _ _ _ Hst H).
  - rewrite app_nil_r. by apply (recv_poll_durable _ _ _ Hst H).
  - rewrite app_nil_r. by apply (recv_poll_durable _ _ _ Hst H).
  - by rewrite app_nil_r.
  - done.
Qed.

(** A dropped receiver stays dropped. *)
Lemma step_gone c l c' : step c l c' → receiver c = Gone → receiver c' = Gone.
Proof. destruct 1; simpl; try done; by intros ->%(proj2 (notified_gone _ _)) || intros ->. Qed.

(** Control messages are neither lost nor reordered.  In every execution whose
    receiver is still there, the session-independent outputs ([Connected],
    [Reconnecting], [Status] and the terminal ones) that were accepted from all
    senders are, in order, those already received followed by those still queued. *)
Theorem durable_outputs_fifo ls c :
  run initial ls c → receiver c ≠ Gone →
  durable (sent ls) = durable (received ls) ++ durable (control (mailbox c)).
Proof.
  intros Hrun. remember initial as c0 eqn:Hc0. revert Hc0.
  induction Hrun as [|c0 ls c1 l c2 Hrun IH Hstep]; intros -> Hgone; [done|].
  assert (receiver c1 ≠ Gone) as Hg1 by (intros ?; eapply Hgone, step_gone; done).
  assert (Hinv : config_inv c1) by (apply reachable_inv; by exists ls).
  unfold sent, received. rewrite !omap_app, !durable_app. fold (sent ls) (received ls).
  rewrite (IH eq_refl Hg1), <-!app_assoc. f_equal.
  exact (step_durable _ _ _ Hstep (inv_state _ Hinv) Hgone).
Qed.

(** ** Pictures: the mailbox refines the direct line *)

Section pictures.
Context `{Viewer V}.

(** The specification state: whether a session accepts outputs, and what a
    viewer on a direct line shows. *)
Record direct_state := mk_direct { open : bool; screen : option (V * (N * N)) }.

Definition direct_closed : direct_state := mk_direct false None.

Definition direct_step (d : direct_state) (l : Label) : direct_state :=
  match l with
  | LSend o true =>
      if is_barrier o then direct_closed
      else if is_connected o then mk_direct true (screen d)
      else if open d then mk_direct true (direct_picture (screen d) (picture_of o))
      else d
  | LBegin => direct_closed
  | LDropReceiver => mk_direct (open d) None
  | _ => d
  end.

Definition direct (ls : list Label) : direct_state :=
  foldl direct_step (mk_direct true None) ls.

(** What the host shows after an execution. *)
Definition shown (ls : list Label) : option V := foldl view None (received ls).

Definition label_wf (l : Label) : Prop :=
  match l with LSend o _ => picture_wf (picture_of o) | _ => True end.

Definition play (v : option V) (o : option RemoteDesktopOutput) : option V :=
  match o with Some o => view v o | None => v end.

(** What the host will show once the pending pictures are received. *)
Definition caught_up (st : State) (v : option V) : option V :=
  play (play v (latest_frame st)) (latest_delta st).

Record simulates (st : State) (v : option V) (d : direct_state) : Prop := {
  sim_open : accepting_session_outputs st = open d;
  sim_wf : ∀ o, latest_delta st = Some o → picture_wf (picture_of o);
  sim_screen : ∀ s dims, screen d = Some (s, dims) →
    caught_up st v = Some s ∧
    ∀ o, latest_delta st = Some o → picture_dims (picture_of o) = Some dims;
}.

Lemma merge_deltas_same w h r1 px1 r2 px2 :
  merge_deltas (FrameBgraRects w h r1 px1) (FrameBgraRects w h r2 px2) =
    FrameBgraRects w h (r1 ++ r2) (px1 ++ px2).
Proof. simpl. by rewrite !N.eqb_refl. Qed.

(** Merging deltas of one size is playing both. *)
Lemma view_merge_deltas v w h r1 px1 r2 px2 :
  picture_wf (picture_of (FrameBgraRects w h r1 px1)) →
  view v (merge_deltas (FrameBgraRects w h r1 px1) (FrameBgraRects w h r2 px2)) =
    view (view v (FrameBgraRects w h r1 px1)) (FrameBgraRects w h r2 px2).
Proof.
  intros Hwf. rewrite merge_deltas_same. unfold view, picture_of, output_picture.
  rewrite fmap_app. by apply view_delta_app.
Qed.

Lemma merge_deltas_wf d o :
  (∃ w h r px, d = FrameBgraRects w h r px) → (∃ w h r px, o = FrameBgraRects w h r px) →
  picture_wf (picture_of d) → picture_wf (picture_of o) →
  picture_wf (picture_of (merge_deltas d o)).
Proof.
  intros (w & h & r1 & px1 & ->) (w' & h' & r2 & px2 & ->) H1 H2.
  simpl merge_deltas. case_match; [|done]. unfold picture_of, output_picture, picture_wf in *.
  rewrite fmap_app, rect_bytes_app, length_app. lia.
Qed.

Lemma simulates_closed st v : simulates (close_session_outputs st) v direct_closed.
Proof. by split. Qed.

Lemma simulates_control st v d c :
  simulates st v d → simulates (with_control st c) v d.
Proof. intros [H1 H2 H3]. by split. Qed.

Lemma direct_step_other d o :
  picture_of o = NoPicture → is_barrier o = false → is_connected o = false →
  direct_step d (LSend o true) = d.
Proof. intros Hp Hb Hc. simpl. rewrite Hb, Hc, Hp. by destruct d as [[] s]. Qed.

Lemma simulates_frame st v d w h px :
  simulates st v d →
  simulates (accept_output (Frame w h px) st) v (direct_step d (LSend (Frame w h px) true)).
Proof.
  intros Hs. simpl. rewrite <-(sim_open _ _ _ Hs).
  destruct (accepting_session_outputs st) eqn:Ha; [|done].
  split; simpl; [done|done|]. by intros s dims [= <- <-].
Qed.

Lemma simulates_delta st v d w h rs px :
  state_inv st → simulates st v d → picture_wf (picture_of (FrameBgraRects w h rs px)) →
  simulates (accept_output (FrameBgraRects w h rs px) st) v
    (direct_step d (LSend (FrameBgraRects w h rs px) true)).
Proof.
  intros Hst Hs Hwf. simpl. rewrite <-(sim_open _ _ _ Hs).
  destruct (accepting_session_outputs st) eqn:Ha; [|done].
  split; simpl; [done| |].
  - intros o [= <-]. destruct (latest_delta st) as [p|] eqn:Hp; [|done].
    apply merge_deltas_wf; [by apply (inv_delta st Hst)|by eauto 10|by eapply sim_wf|done].
  - intros s dims Hscr. destruct (screen d) as [[s0 dims0]|] eqn:Hd; [|done].
    destruct (decide (dims0 = (w, h))) as [->|]; [|done]. injection Hscr as <- <-.
    destruct (sim_screen _ _ _ Hs s0 (w, h) Hd) as [Hcu Hdims].
    unfold caught_up in *. simpl. destruct (latest_delta st) as [p|] eqn:Hp.
    + destruct (inv_delta st Hst p Hp) as (w' & h' & r' & px' & ->).
      specialize (Hdims _ eq_refl). injection Hdims as -> ->.
      rewrite view_merge_deltas by (by eapply sim_wf). simpl in Hcu. rewrite Hcu.
      rewrite merge_deltas_same. split; [done|]. by intros ? [= <-].
    + simpl in Hcu. rewrite Hcu. split; [done|]. by intros ? [= <-].
Qed.

Lemma simulates_accept st v d o :
  state_inv st → simulates st v d → picture_wf (picture_of o) →
  simulates (accept_output o st) v (direct_step d (LSend o true)).
Proof.
  intros Hst Hs Hwf.
  destruct o; [|by apply simulates_frame|by apply simulates_delta| | | | | | | | |];
    try (simpl; by apply simulates_control, simulates_closed);
    try (rewrite direct_step_other by done; simpl; repeat case_match;
         by try apply simulates_control).
  destruct Hs as [H1 H2 H3]. by split.
Qed.

Lemma view_control v o : is_picture o = false → view v o = v.
Proof. by destruct o. Qed.

Lemma simulates_recv st st' v d r :
  state_inv st → recv_poll st = (st', r) → simulates st v d →
  simulates st' (match r with Received o => view v o | _ => v end) d.
Proof.
  intros Hst Hr Hs. pose proof Hs as [H1 H2 H3]. unfold recv_poll in Hr.
  destruct (control st) as [|o rest] eqn:Hc.
  - destruct (latest_frame st) as [f|] eqn:Hf.
    { injection Hr as <- <-. split; simpl; [done|done|]. intros s dims Hscr.
      destruct (H3 s dims Hscr) as [Hcu Hdims]. split; [|done].
      unfold caught_up in *. simpl. by rewrite Hf in Hcu. }
    destruct (latest_delta st) as [dl|] eqn:Hd.
    { injection Hr as <- <-. split; simpl; [done|done|]. intros s dims Hscr.
      destruct (H3 s dims Hscr) as [Hcu Hdims]. split; [|done].
      unfold caught_up in *. simpl. by rewrite Hf, Hd in Hcu. }
    case_match; by simplify_eq.
  - injection Hr as <- <-. pose proof (inv_control st Hst) as Hall. rewrite Hc in Hall.
    inversion Hall; subst. rewrite view_control by done. by apply simulates_control.
Qed.

Lemma step_simulates c l c' v d :
  step c l c' → state_inv (mailbox c) → label_wf l → simulates (mailbox c) v d →
  simulates (mailbox c') (match l with LRecv o => view v o | _ => v end) (direct_step d l).
Proof.
  intros Hstep Hst Hl Hs. destruct Hstep; simpl mailbox in *.
  - unfold send in *. case_match; simplify_eq; [by apply simulates_accept|done].
  - unfold begin_generation in *. simplify_eq. apply simulates_closed.
  - destruct Hs as [H1 H2 H3]. by split.
  - unfold drop_sender in *. simplify_eq. destruct Hs as [H1 H2 H3]. by split.
  - exact (simulates_recv _ _ _ _ _ Hst H0 Hs).
  - exact (simulates_recv _ _ _ _ _ Hst H0 Hs).
  - exact (simulates_recv _ _ _ _ _ Hst H0 Hs).
  - done.
  - unfold drop_receiver in *. simplify_eq. destruct Hs as [H1 H2 H3]. by split.
Qed.

Lemma run_simulates ls c :
  run initial ls c → Forall label_wf ls → simulates (mailbox c) (shown ls) (direct ls).
Proof.
  intros Hrun. remember initial as c0 eqn:Hc0. revert Hc0.
  induction Hrun as [|c0 ls c1 l c2 Hrun IH Hstep]; intros -> Hwf.
  - by split.
  - apply Forall_app in Hwf as [Hls Hl]. inversion Hl; subst.
    assert (Hinv : config_inv c1) by (apply reachable_inv; by exists ls).
    pose proof (step_simulates _ _ _ _ _ Hstep (inv_state _ Hinv) H2 (IH eq_refl Hls)) as Hs.
    unfold shown, received, direct in *. rewrite omap_app, !foldl_app.
    destruct l; exact Hs.
Qed.

(** C4: the mailbox is a faithful, lossy picture channel.  Whatever frames and
    deltas it replaced or merged, in every execution whose deltas carry exactly
    the bytes of their rectangles, the host shows, as soon as no picture is
    pending, what a host on a direct line would show: the last frame sent in the
    running session with every later delta painted on it, in order. *)
Theorem mailbox_refines_direct_line ls c s dims :
  run initial ls c → Forall label_wf ls →
  screen (direct ls) = Some (s, dims) →
  latest_frame (mailbox c) = None → latest_delta (mailbox c) = None →
  shown ls = Some s.
Proof.
  intros Hrun Hwf Hscr Hf Hd.
  destruct (sim_screen _ _ _ (run_simulates ls c Hrun Hwf) s dims Hscr) as [Hcu _].
  unfold caught_up in Hcu. by rewrite Hf, Hd in Hcu.
Qed.
End pictures.

(** ** Witnesses *)

(** A screen that remembers what it was asked to draw. *)
#[export] Instance log_viewer : Viewer (list (N * N * bytes)) := {|
  show_frame w h px := [(w, h, px)];
  paint v r px := v ++ [(pr_x r, pr_y r, px)];
|}.

Definition demo_rect (x : N) : RemoteDesktopFrameRect := mk_frame_rect x 0 1 1 4.

Definition demo_labels : list Label :=
  [LSend (Frame 2 1 [1; 1; 1; 1; 2; 2; 2; 2]%N) true;
   LSend (FrameBgraRects 2 1 [demo_rect 0] [7; 7; 7; 7]%N) true;
   LSend (FrameBgraRects 2 1 [demo_rect 1] [8; 8; 8; 8]%N) true;
   LRecv (Frame 2 1 [1; 1; 1; 1; 2; 2; 2; 2]%N);
   LRecv (FrameBgraRects 2 1 [demo_rect 0; demo_rect 1] [7; 7; 7; 7; 8; 8; 8; 8]%N)].

Lemma mailbox_refines_direct_line_witness :
  ∃ c, run initial demo_labels c ∧
    shown demo_labels =
      Some [(2, 1, [1; 1; 1; 1; 2; 2; 2; 2]); (0, 0, [7; 7; 7; 7]); (1, 0, [8; 8; 8; 8])]%N.
Proof.
  eexists. split; [apply exec_all_run; reflexivity|].
  eapply (mailbox_refines_direct_line demo_labels).
  - apply exec_all_run; reflexivity.
  - repeat constructor.
  - reflexivity.
  - reflexivity.
  - reflexivity.
Defined.

Lemma session_barrier_witness :
  ∃ c c1 c2, run initial [LSend CursorHidden true] c ∧ step c LBegin c1 ∧
    run c1 [LSend (Frame 1 1 [0; 0; 0; 0]%N) true; LClone; LSleep] c2 ∧
    Forall (λ l, label_session_output l = false)
      [LSend (Frame 1 1 [0; 0; 0; 0]%N) true; LClone; LSleep].
Proof.
  assert (∃ c, run initial [LSend CursorHidden true] c ∧
    exec c LBegin = Some (mk_config (mk_state [] None None false 1 true) Running))
    as (c & Hpre & Hb).
  { eexists. split; [apply exec_all_run; reflexivity|].
    reflexivity. }
  assert (∃ c2, run (mk_config (mk_state [] None None false 1 true) Running)
    [LSend (Frame 1 1 [0; 0; 0; 0]%N) true; LClone; LSleep] c2) as [c2 Hpost].
  { eexists. apply exec_all_run; reflexivity. }
  exists c, (mk_config (mk_state [] None None false 1 true) Running), c2.
  split_and!; [done|by apply exec_step|done|].
  apply (session_barrier [LSend CursorHidden true] c LBegin
    (mk_config (mk_state [] None None false 1 true) Running)
    [LSend (Frame 1 1 [0; 0; 0; 0]%N) true; LClone; LSleep] c2);
    [done|by apply exec_step|by left|done|repeat constructor].
Defined.

Lemma no_lost_wakeup_witness :
  ∃ c, reachable c ∧ pending (mailbox c) ∧ receiver c = Running.
Proof.
  assert (∃ c, run initial [LSleep; LSend (Status "ready") true] c ∧
    pending (mailbox c) ∧ receiver c ≠ Gone) as (c & Hrun & Hp & Hg).
  { eexists. split; [apply exec_all_run; reflexivity|].
    split; [by left|done]. }
  exists c. assert (reachable c) as Hr by (by eexists). split_and!; [done|done|].
  apply (no_lost_wakeup c Hr Hg (or_introl Hp)).
Defined.

Lemma durable_outputs_fifo_witness :
  ∃ ls c, run initial ls c ∧
    durable (sent ls) = [Status "a"; Status "b"] ∧
    durable (received ls) ++ durable (control (mailbox c)) = [Status "a"; Status "b"].
Proof.
  set (ls := [LSend (Status "a") true; LSend CursorHidden true; LSend (Status "b") true;
              LRecv (Status "a"); LBegin]).
  assert (∃ c, run initial ls c ∧ receiver c ≠ Gone) as (c & Hrun & Hg).
  { eexists. split; [apply exec_all_run; reflexivity|done]. }
  exists ls, c. split_and!; [done|reflexivity|].
  rewrite <-(durable_outputs_fifo ls c Hrun Hg). reflexivity.
Defined.
