(* ===== verification/VncClient.v ===== *)
(** * The VNC client and the rest of the helper's environment

    The session thread talks to a vendored protocol engine ([VncClient] of
    vendor/vnc-rs), to the channel the request loop fills, and to the clock.  None
    of the three is modelled: [VncWorld] is the interface the session code uses,
    over an arbitrary type of world states, and [VncWorldLaws] states the one fact
    about it some theorems need, that the world remembers which events the engine
    accepted.  The message types are those of vendor/vnc-rs/src/event.rs and
    error.rs. *)

From S2P Require Import Prelude VncRuntime.

Record Rect := mk_rect { r_x : N; r_y : N; r_width : N; r_height : N }.
Record Screen := mk_screen { s_width : N; s_height : N }.

Inductive VncEvent :=
  | SetResolution (screen : Screen)
  | SetPixelFormat
  | RawImage (rect : Rect) (data : bytes)
  | Copy (dst src : Rect)
  | JpegImage (rect : Rect) (data : bytes)
  | SetCursor (rect : Rect) (data : bytes)
  | Bell
  | EvText (t : text)
  | CutTextBytes (data : bytes)
  | EvError (message : string).

Inductive X11Event :=
  | Refresh
  | FullRefresh
  | KeyEvent (keycode : N) (down : bool)
  | PointerEvent (position_x position_y bottons : N)
  | CopyText (t : text)
  | CopyTextBytes (data : bytes).

Inductive VncError :=
  | NoPassword
  | NoEncoding
  | InvalidSecurityTyep (code : N)
  | InvalidAuthResult (code : N)
  | SecurityNegotiation (message : string)
  | WrongPassword
  | ConnectError
  | WrongPixelFormat
  | WrongServerMessage
  | InvalidImageData
  | ClientNotRunning
  | ClipboardTooLarge (actual maximum : N)
  | IoError (message : string)
  | General (message : string).

(** ** anyhow errors

    An [anyhow::Error] is a chain of causes, outermost first; a cause is a message
    or a value of the engine's error type. *)

Inductive Cause :=
  | CauseMessage (message : string)
  | CauseVnc (error : VncError).

Abbreviation anyhow := (list Cause) (only parsing).

Inductive TryRecv :=
  | Input (input : RemoteDesktopInput)
  | Empty
  | Disconnected.

(** ** The interface *)

Class VncWorld (W : Type) := {
  (** [client.input(event).await] *)
  client_input : X11Event → W → W * outcome VncError ();
  (** [client.poll_event().await] *)
  client_poll_event : W → W * outcome VncError (option VncEvent);
  (** [client.close().await] *)
  client_close : W → W * outcome VncError ();
  (** [input_rx.try_recv()] *)
  input_try_recv : W → W * TryRecv;
  (** [Instant::now()], in milliseconds. *)
  now : W → W * N;
  (** [tokio::time::sleep] for a number of milliseconds. *)
  sleep : N → W → W;
  (** [TcpStream::connect] and the engine's handshake. *)
  connect_vnc : RemoteDesktopConnectionOptions → W → W * outcome anyhow ();
  (** [impl Display for VncError]. *)
  vnc_error_display : VncError → string;
  (** The events the engine accepted on the current connection, in order. *)
  accepted : W → list X11Event;
}.

(** What the engine promises about its inputs: an accepted event is added to the
    accepted ones, a refused event is not, it never panics, and reading leaves the
    accepted events alone. *)
Class VncWorldLaws (W : Type) `{VncWorld W} := {
  client_input_accepted e w :
    accepted (client_input e w).1 =
      accepted w ++ (if is_ok (client_input e w).2 then [e] else []);
  client_input_no_panic e w : (client_input e w).2 ≠ Panic;
  client_poll_accepted w : accepted (client_poll_event w).1 = accepted w;
  client_poll_no_panic w : (client_poll_event w).2 ≠ Panic;
  client_close_accepted w : accepted (client_close w).1 = accepted w;
  client_close_no_panic w : (client_close w).2 ≠ Panic;
  input_try_recv_accepted w : accepted (input_try_recv w).1 = accepted w;
  now_accepted w : accepted (now w).1 = accepted w;
  sleep_accepted d w : accepted (sleep d w) = accepted w;
}.

Section display.
Context `{VncWorld W}.

Definition cause_display (c : Cause) : string :=
  match c with CauseMessage m => m | CauseVnc e => vnc_error_display e end.

(** [error.to_string()]: the outermost message. *)
Definition error_to_string (e : anyhow) : string :=
  match e with c :: _ => cause_display c | [] => EmptyString end.

(** [format!("{error:#}")]: every message of the chain. *)
Fixpoint error_alternate (e : anyhow) : string :=
  match e with
  | [] => EmptyString
  | [c] => cause_display c
  | c :: e' => (cause_display c +:+ ": " +:+ error_alternate e')%string
  end.
End display.

(** ** A scripted world

    Replies, events, inputs and instants come from lists; once a list is used up
    the engine accepts everything and has no events, the channel is disconnected
    and the clock advances by the time slept. *)

Record Script := mk_script {
  sc_replies : list (outcome VncError ());
  sc_events : list (outcome VncError (option VncEvent));
  sc_inputs : list TryRecv;
  sc_connects : list (outcome anyhow ());
  sc_time : N;
  sc_accepted : list X11Event;
}.

Definition script_reply (e : X11Event) (w : Script) : Script * outcome VncError () :=
  let log r := sc_accepted w ++ (if is_ok (r : outcome VncError ()) then [e] else []) in
  match sc_replies w with
  | Err err :: rs =>
      (mk_script rs (sc_events w) (sc_inputs w) (sc_connects w) (sc_time w) (log (Err err)),
       Err err)
  | rs =>
      (mk_script (tail rs) (sc_events w) (sc_inputs w) (sc_connects w) (sc_time w) (log (Ok ())),
       Ok ())
  end.

#[export] Instance script_world : VncWorld Script := {|
  client_input := script_reply;
  client_poll_event w :=
    match sc_events w with
    | Panic :: _ | [] => (w, Ok None)
    | e :: es =>
        (mk_script (sc_replies w) es (sc_inputs w) (sc_connects w) (sc_time w) (sc_accepted w), e)
    end;
  client_close w := (w, Ok ());
  input_try_recv w :=
    match sc_inputs w with
    | [] => (w, Disconnected)
    | i :: rest =>
        (mk_script (sc_replies w) (sc_events w) rest (sc_connects w) (sc_time w) (sc_accepted w), i)
    end;
  now w := (w, sc_time w);
  sleep d w :=
    mk_script (sc_replies w) (sc_events w) (sc_inputs w) (sc_connects w) (sc_time w + d)
      (sc_accepted w);
  connect_vnc _ w :=
    match sc_connects w with
    | [] => (w, Err [CauseVnc ConnectError])
    | c :: cs =>
        (mk_script (sc_replies w) (sc_events w) (sc_inputs w) cs (sc_time w) [], c)
    end;
  vnc_error_display e :=
    match e with General m | IoError m => m | _ => "vnc error" end;
  accepted := sc_accepted;
|}.

#[export] Instance script_laws : VncWorldLaws Script.
Proof.
  split; intros.
  - simpl. unfold script_reply. destruct (sc_replies w) as [|[] ?]; reflexivity.
  - simpl. unfold script_reply. by destruct (sc_replies w) as [|[] ?].
  - simpl. by destruct (sc_events w) as [|[] ?].
  - simpl. by destruct (sc_events w) as [|[] ?].
  - done.
  - done.
  - simpl. by destruct (sc_inputs w).
  - done.
  - done.
Qed.
