(* ===== verification/VncClipboard.v ===== *)
(** * Clipboard text on the VNC wire

    vnc-helper/src/vnc_clipboard.rs: text goes out as Latin-1 with a replacement
    character and comes back as UTF-8 or, failing that, Latin-1.  [utf8_decode] and
    [utf8_encode] are the standard library's [str::from_utf8] and [str::as_bytes]
    over the scalar values of a string. *)

From S2P Require Import Prelude VncRuntime.

(** ** UTF-8 *)

Definition is_cont (b : N) : bool := (128 <=? b)%N && (b <=? 191)%N.

Definition in_range (lo hi b : N) : bool := (lo <=? b)%N && (b <=? hi)%N.

(** [char]: a Unicode scalar value. *)
Definition is_scalar (c : N) : Prop :=
  (c < 55296 ∨ (57343 < c ∧ c < 1114112))%N.

Definition utf8_encode_char (c : N) : bytes :=
  if (c <? 128)%N then [c]
  else if (c <? 2048)%N then [192 + c / 64; 128 + c `mod` 64]%N
  else if (c <? 65536)%N then [224 + c / 4096; 128 + (c / 64) `mod` 64; 128 + c `mod` 64]%N
  else [240 + c / 262144; 128 + (c / 4096) `mod` 64; 128 + (c / 64) `mod` 64;
        128 + c `mod` 64]%N.

Definition utf8_encode (t : text) : bytes := t ≫= utf8_encode_char.

(** [std::str::from_utf8]: overlong forms, surrogates and values above U+10FFFF
    are refused. *)
Fixpoint utf8_decode (bs : bytes) : option text :=
  match bs with
  | [] => Some []
  | b0 :: r0 =>
      if (b0 <? 128)%N then cons b0 <$> utf8_decode r0
      else match r0 with
      | [] => None
      | b1 :: r1 =>
          if in_range 194 223 b0 && is_cont b1
          then cons ((b0 - 192) * 64 + (b1 - 128))%N <$> utf8_decode r1
          else match r1 with
          | [] => None
          | b2 :: r2 =>
              if in_range 224 239 b0 && is_cont b1 && is_cont b2
                 && negb ((b0 =? 224)%N && (b1 <? 160)%N)
                 && negb ((b0 =? 237)%N && (159 <? b1)%N)
              then cons ((b0 - 224) * 4096 + (b1 - 128) * 64 + (b2 - 128))%N <$> utf8_decode r2
              else match r2 with
              | [] => None
              | b3 :: r3 =>
                  if in_range 240 244 b0 && is_cont b1 && is_cont b2 && is_cont b3
                     && negb ((b0 =? 240)%N && (b1 <? 144)%N)
                     && negb ((b0 =? 244)%N && (143 <? b1)%N)
                  then cons ((b0 - 240) * 262144 + (b1 - 128) * 4096 + (b2 - 128) * 64
                             + (b3 - 128))%N <$> utf8_decode r3
                  else None
              end
          end
      end
  end.

(** ** The wire form *)

Definition MAX_CUT_TEXT_BYTES : N := 20 * 1024 * 1024.

Record VncClipboardSnapshot := mk_snapshot { wire_bytes : bytes }.

(** The character loop of [VncClipboardSnapshot::encode]. *)
Fixpoint encode_chars (chars : text) (wire_bytes : bytes) : option bytes :=
  match chars with
  | [] => Some wire_bytes
  | character :: rest =>
      if (N.of_nat (length wire_bytes) =? MAX_CUT_TEXT_BYTES)%N then None
      else if (character <=? u8_max)%N
      then encode_chars rest (wire_bytes ++ [character])
      else encode_chars rest (wire_bytes ++ [63%N])
  end.

Definition encode (t : text) : option VncClipboardSnapshot :=
  mk_snapshot <$> encode_chars t [].

Definition decode_clipboard_text (bs : bytes) : option text :=
  if (MAX_CUT_TEXT_BYTES <? N.of_nat (length bs))%N then None
  else match utf8_decode bs with
  | Some t => Some t
  | None => Some bs
  end.

(** ** Properties *)

Definition latin1 (c : N) : N := if (c <=? u8_max)%N then c else 63%N.

Lemma encode_chars_spec t acc :
  (N.of_nat (length acc) <= MAX_CUT_TEXT_BYTES)%N →
  encode_chars t acc =
    if (N.of_nat (length acc + length t) <=? MAX_CUT_TEXT_BYTES)%N
    then Some (acc ++ (latin1 <$> t)) else None.
Proof.
  revert acc. induction t as [|c t IH]; intros acc Hacc; simpl.
  - rewrite Nat.add_0_r, app_nil_r. by rewrite (proj2 (N.leb_le _ _) Hacc).
  - destruct (N.eqb_spec (N.of_nat (length acc)) MAX_CUT_TEXT_BYTES) as [Heq|Hne].
    + case_match eqn:Hle; [|done]. bool_to_prop. lia.
    + assert (∀ b, (if (N.of_nat (length (acc ++ [b]) + length t) <=? MAX_CUT_TEXT_BYTES)%N
               then Some ((acc ++ [b]) ++ (latin1 <$> t)) else None) =
              (if (N.of_nat (length acc + S (length t)) <=? MAX_CUT_TEXT_BYTES)%N
               then Some (acc ++ b :: (latin1 <$> t)) else None)) as Hshift.
      { intros b. rewrite length_app, <-app_assoc. simpl.
        by replace (length acc + 1 + length t) with (length acc + S (length t)) by lia. }
      unfold latin1 at 1.
      destruct (c <=? 255)%N; rewrite IH by (rewrite length_app; simpl; lia); apply Hshift.
Qed.

(** The tests of the decoder on the bytes the encoder writes, for each width. *)
Lemma utf8_decode_2 q m bs :
  (2 <= q < 32)%N → (m < 64)%N →
  utf8_decode (192 + q :: 128 + m :: bs)%N = cons (q * 64 + m)%N <$> utf8_decode bs.
Proof.
  intros Hq Hm. cbn [utf8_decode]. unfold in_range, is_cont. settle_tests.
  do 2 f_equal. lia.
Qed.

Lemma utf8_decode_3 q r m bs :
  (q < 16)%N → (r < 64)%N → (m < 64)%N → (q = 0 → 32 <= r)%N → (q = 13 → r < 32)%N →
  utf8_decode (224 + q :: 128 + r :: 128 + m :: bs)%N =
    cons (q * 4096 + r * 64 + m)%N <$> utf8_decode bs.
Proof.
  intros Hq Hr Hm H0 H13. cbn [utf8_decode]. unfold in_range, is_cont.
  destruct (N.eq_dec q 0%N) as [->|]; [|destruct (N.eq_dec q 13%N) as [->|]];
    (try specialize (H0 eq_refl)); (try specialize (H13 eq_refl)); settle_tests.
  all: do 2 f_equal; lia.
Qed.

Lemma utf8_decode_4 q r s m bs :
  (q < 5)%N → (r < 64)%N → (s < 64)%N → (m < 64)%N → (q = 0 → 16 <= r)%N → (q = 4 → r < 16)%N →
  utf8_decode (240 + q :: 128 + r :: 128 + s :: 128 + m :: bs)%N =
    cons (q * 262144 + r * 4096 + s * 64 + m)%N <$> utf8_decode bs.
Proof.
  intros Hq Hr Hs Hm H0 H4. cbn [utf8_decode]. unfold in_range, is_cont.
  destruct (N.eq_dec q 0%N) as [->|]; [|destruct (N.eq_dec q 4%N) as [->|]];
    (try specialize (H0 eq_refl)); (try specialize (H4 eq_refl)); settle_tests.
  all: do 2 f_equal; lia.
Qed.

(** UTF-8 decodes what it encodes, one character at a time. *)
Lemma utf8_decode_char c bs :
  is_scalar c → utf8_decode (utf8_encode_char c ++ bs) = cons c <$> utf8_decode bs.
Proof.
  intros Hc. unfold utf8_encode_char, is_scalar in *.
  pose proof (N.div_mod c 64 ltac:(done)) as D1.
  pose proof (N.mod_upper_bound c 64 ltac:(done)) as M1.
  pose proof (N.div_mod (c / 64) 64 ltac:(done)) as D2.
  pose proof (N.mod_upper_bound (c / 64) 64 ltac:(done)) as M2.
  pose proof (N.div_mod (c / 4096) 64 ltac:(done)) as D3.
  pose proof (N.mod_upper_bound (c / 4096) 64 ltac:(done)) as M3.
  rewrite N.Div0.div_div in D2, D3. change (64 * 64)%N with 4096%N in D2.
  change (4096 * 64)%N with 262144%N in D3.
  destruct (N.ltb_spec c 128) as [H1|H1]; [|destruct (N.ltb_spec c 2048) as [H2|H2];
    [|destruct (N.ltb_spec c 65536) as [H3|H3]]]; cbn [app]; revert D1 M1 D2 M2 D3 M3;
    generalize (c / 64)%N, (c / 4096)%N, (c / 262144)%N, ((c / 4096) `mod` 64)%N,
      ((c / 64) `mod` 64)%N, (c `mod` 64)%N; intros.
  - cbn [utf8_decode]. settle_tests. done.
  - rewrite utf8_decode_2 by lia. do 2 f_equal. lia.
  - rewrite utf8_decode_3 by lia. do 2 f_equal. lia.
  - rewrite utf8_decode_4 by lia. do 2 f_equal. lia.
Qed.

Lemma utf8_roundtrip t : Forall is_scalar t → utf8_decode (utf8_encode t) = Some t.
Proof.
  induction 1 as [|c t Hc _ IH]; [done|].
  unfold utf8_encode in *. cbn [mbind list_bind].
  by rewrite utf8_decode_char, IH.
Qed.

(** ASCII bytes are their own UTF-8. *)
Lemma utf8_decode_ascii t : Forall (λ c, c < 128)%N t → utf8_decode t = Some t.
Proof.
  induction 1 as [|c t Hc _ IH]; [done|]. cbn [utf8_decode].
  rewrite (proj2 (N.ltb_lt _ _) Hc). by rewrite IH.
Qed.

(** [VncClipboardSnapshot::encode] is the Latin-1 downgrade of the whole text
    and nothing else: it refuses exactly the texts of more than 20 MiB characters,
    and otherwise yields one byte per character in order, the character itself
    below U+0100 and a question mark above; so every snapshot fits the wire limit
    and holds bytes only. *)
Theorem encode_correct t :
  encode t =
    (if (N.of_nat (length t) <=? MAX_CUT_TEXT_BYTES)%N
     then Some (mk_snapshot (latin1 <$> t)) else None) ∧
  ∀ s, encode t = Some s →
    (N.of_nat (length (wire_bytes s)) <= MAX_CUT_TEXT_BYTES)%N ∧
    Forall (λ b, b <= u8_max)%N (wire_bytes s).
Proof.
  assert (encode t = if (N.of_nat (length t) <=? MAX_CUT_TEXT_BYTES)%N
     then Some (mk_snapshot (latin1 <$> t)) else None) as Heq.
  { unfold encode. rewrite encode_chars_spec by (simpl; lia). simpl. by case_match. }
  split; [done|]. rewrite Heq. intros s. case_match; [|done]. intros [= <-]. bool_to_prop.
  simpl. rewrite length_fmap. split; [done|]. apply Forall_fmap, Forall_true. intros c.
  simpl. unfold latin1. destruct (N.leb_spec c 255); lia.
Qed.

(** Clipboard text survives the wire.  Bytes within the limit that are the
    UTF-8 form of a text decode to that text; ASCII text, and Latin-1 text whose
    bytes are not accidentally valid UTF-8, comes back from its own snapshot; bytes
    within the limit always decode, and longer ones never do. *)
Theorem clipboard_roundtrip t :
  (Forall is_scalar t → (N.of_nat (length (utf8_encode t)) <= MAX_CUT_TEXT_BYTES)%N →
   decode_clipboard_text (utf8_encode t) = Some t) ∧
  (∀ s, encode t = Some s →
   Forall (λ c, c < 128)%N t ∨ (Forall (λ c, c <= u8_max)%N t ∧ utf8_decode t = None) →
   decode_clipboard_text (wire_bytes s) = Some t) ∧
  (∀ bs, is_Some (decode_clipboard_text bs) ↔
   (N.of_nat (length bs) <= MAX_CUT_TEXT_BYTES)%N).
Proof.
  assert (∀ bs, (N.of_nat (length bs) <= MAX_CUT_TEXT_BYTES)%N → decode_clipboard_text bs =
    Some (default bs (utf8_decode bs))) as Hdec.
  { intros bs Hle. unfold decode_clipboard_text. rewrite (proj2 (N.ltb_ge _ _) Hle).
    by destruct (utf8_decode bs). }
  split_and!.
  - intros Hsc Hle. by rewrite Hdec, utf8_roundtrip.
  - intros s Hs Ht. unfold encode in Hs. rewrite encode_chars_spec in Hs by (simpl; lia).
    simpl in Hs. case_match eqn:Hle; [|done]. injection Hs as <-. bool_to_prop. simpl.
    assert (latin1 <$> t = t) as ->.
    { assert (Forall (λ c, c <= u8_max)%N t) as Hall.
      { destruct Ht as [Ht|[Ht _]]; [|done]. eapply Forall_impl; [exact Ht|]. simpl. lia. }
      clear -Hall. induction Hall as [|c t Hc _ IH]; [done|]. rewrite fmap_cons, IH. f_equal.
      unfold latin1. by rewrite (proj2 (N.leb_le _ _) Hc). }
    rewrite Hdec by done. destruct Ht as [Ht|[_ Ht]]; [by rewrite utf8_decode_ascii|by rewrite Ht].
  - intros bs. destruct (N.le_gt_cases (N.of_nat (length bs)) MAX_CUT_TEXT_BYTES) as [H|H].
    + rewrite Hdec by done. split; eauto.
    + unfold decode_clipboard_text. rewrite (proj2 (N.ltb_lt _ _) H).
      split; [by intros []|lia].
Qed.

(** ** Witnesses *)

Lemma encode_correct_witness :
  ∃ s, encode [104; 233; 20013]%N = Some s ∧ wire_bytes s = [104; 233; 63]%N ∧
    (N.of_nat (length (wire_bytes s)) <= MAX_CUT_TEXT_BYTES)%N.
Proof.
  destruct (encode_correct [104; 233; 20013]%N) as [Heq Hall].
  eexists. split; [exact Heq|]. split; [reflexivity|]. by apply Hall.
Defined.

Lemma clipboard_roundtrip_witness :
  decode_clipboard_text (utf8_encode [20013; 25991; 128421]%N) = Some [20013; 25991; 128421]%N ∧
  decode_clipboard_text [99; 97; 102; 233]%N = Some [99; 97; 102; 233]%N.
Proof.
  split.
  - apply (clipboard_roundtrip [20013; 25991; 128421]%N).
    + repeat constructor; unfold is_scalar; lia.
    + vm_compute. discriminate.
  - apply (clipboard_roundtrip [99; 97; 102; 233]%N) with (s := mk_snapshot [99; 97; 102; 233]%N).
    + reflexivity.
    + right. split; [repeat constructor; lia|reflexivity].
Defined.
