(* ===== verification/VncInput.v ===== *)
(** * Input of a VNC session: keyboard, pointer and the input batch

    vnc-helper/src/vnc_keyboard.rs and vnc_input.rs.  The calls run in [InputCtx],
    the arguments the Rust functions borrow mutably: the engine and the input
    channel (one [VncWorld]), the clipboard snapshot, the held keys and the pointer.
    The theorems relate this state to [accepted], what the engine has passed on to
    the server. *)

From stdpp Require Import sorting.
From S2P Require Import Prelude VncRuntime VncClient VncClipboard.

(** ** [BTreeSet<u32>] *)

Fixpoint btree_insert (k : N) (s : list N) : list N :=
  match s with
  | [] => [k]
  | x :: s' => if (k <? x)%N then k :: s else if (k =? x)%N then s else x :: btree_insert k s'
  end.

Definition btree_remove (k : N) (s : list N) : list N := filter (λ x, x ≠ k) s.

(** ** vnc_keyboard.rs: the scancode table *)

Definition scancode_to_keysym (scancode : N) : option N :=
  (match scancode with
  | 0x01 => Some 0xff1b
  | 0x02 => Some 49 | 0x03 => Some 50 | 0x04 => Some 51 | 0x05 => Some 52
  | 0x06 => Some 53 | 0x07 => Some 54 | 0x08 => Some 55 | 0x09 => Some 56
  | 0x0a => Some 57 | 0x0b => Some 48
  | 0x0e => Some 0xff08
  | 0x0f => Some 0xff09
  | 0x10 => Some 113 | 0x11 => Some 119 | 0x12 => Some 101 | 0x13 => Some 114
  | 0x14 => Some 116 | 0x15 => Some 121 | 0x16 => Some 117 | 0x17 => Some 105
  | 0x18 => Some 111 | 0x19 => Some 112
  | 0x1c => Some 0xff0d
  | 0x1d => Some 0xffe3
  | 0x1e => Some 97 | 0x1f => Some 115 | 0x20 => Some 100 | 0x21 => Some 102
  | 0x22 => Some 103 | 0x23 => Some 104 | 0x24 => Some 106 | 0x25 => Some 107
  | 0x26 => Some 108
  | 0x2a => Some 0xffe1
  | 0x2c => Some 122 | 0x2d => Some 120 | 0x2e => Some 99 | 0x2f => Some 118
  | 0x30 => Some 98 | 0x31 => Some 110 | 0x32 => Some 109
  | 0x38 => Some 0xffe9
  | 0x39 => Some 0x20
  | 0x3a => Some 0xffe5
  | 0x57 => Some 0xffc8
  | 0x58 => Some 0xffc9
  | 0xe01c => Some 0xff0d
  | 0xe01d => Some 0xffe4
  | 0xe038 => Some 0xffea
  | 0xe047 => Some 0xff50
  | 0xe048 => Some 0xff52
  | 0xe049 => Some 0xff55
  | 0xe04b => Some 0xff51
  | 0xe04d => Some 0xff53
  | 0xe04f => Some 0xff57
  | 0xe050 => Some 0xff54
  | 0xe051 => Some 0xff56
  | 0xe052 => Some 0xff63
  | 0xe053 => Some 0xffff
  | _ =>
      if (0x3b <=? scancode) && (scancode <=? 0x44)
      then Some (0xffbe + (scancode - 0x3b))
      else None
  end)%N.

Definition remote_key_to_keysym (key : RemoteKey) : option N :=
  match key with
  | KeySym value => Some value
  | Scancode value => scancode_to_keysym value
  end.

(** ** vnc_input.rs: the pointer *)

Record VncPointerState := mk_pointer { p_x : N; p_y : N; buttons : N }.

Definition pointer_default : VncPointerState := mk_pointer 0 0 0.

Definition vnc_button_bit (button : RemoteMouseButton) : option N :=
  match button with
  | Left => Some 1
  | Middle => Some 2
  | Right => Some 4
  | X1 => Some 128
  | X2 => None
  end%N.

Definition vnc_wheel_bit (vertical : bool) (units : Z) : option N :=
  match vertical, Z.sgn units with
  | true, (-1)%Z => Some 8
  | true, 1%Z => Some 16
  | false, (-1)%Z => Some 32
  | false, 1%Z => Some 64
  | _, _ => None
  end%N.

Definition move_to (x y : N) (p : VncPointerState) : VncPointerState :=
  mk_pointer x y (buttons p).

Definition set_button (button : RemoteMouseButton) (pressed : bool) (p : VncPointerState)
    : VncPointerState :=
  match vnc_button_bit button with
  | None => p
  | Some bit =>
      mk_pointer (p_x p) (p_y p)
        (if pressed then N.lor (buttons p) bit else N.ldiff (buttons p) bit)
  end.

Definition wheel_masks (vertical : bool) (units : Z) (p : VncPointerState) : list N :=
  match vnc_wheel_bit vertical units with
  | None => []
  | Some bit => [N.lor (buttons p) bit; buttons p]
  end.

Definition snapshot (p : VncPointerState) : N * N * N := (p_x p, p_y p, buttons p).

(** ** The input batch *)

Definition MAX_INPUTS_PER_POLL : nat := 256.

Inductive VncInputAction :=
  | Continue
  | Closed
  | InputClosed
  | ActReconnect
  | Failed (message : string).

Inductive VncInputBatch :=
  | Inputs (inputs : list RemoteDesktopInput)
  | BatchDisconnected.

(** The loop of [coalesce_remote_inputs] over its two local variables. *)
Fixpoint coalesce_loop (inputs coalesced : list RemoteDesktopInput)
    (pending_mouse_move : option RemoteDesktopInput) : list RemoteDesktopInput :=
  match inputs with
  | [] => coalesced ++ option_list pending_mouse_move
  | MouseMove x y :: rest => coalesce_loop rest coalesced (Some (MouseMove x y))
  | input :: rest => coalesce_loop rest (coalesced ++ option_list pending_mouse_move ++ [input]) None
  end.

Definition coalesce_remote_inputs (inputs : list RemoteDesktopInput) : list RemoteDesktopInput :=
  coalesce_loop inputs [] None.

Record InputCtx (W : Type) := mk_ctx {
  ctx_world : W;
  latest_clipboard : option VncClipboardSnapshot;
  keyboard : list N;
  pointer : VncPointerState;
}.
Arguments mk_ctx {W}.
Arguments ctx_world {W}.
Arguments latest_clipboard {W}.
Arguments keyboard {W}.
Arguments pointer {W}.

(** [first_error.map_or(Ok(()), Err)]. *)
Definition or_error {S} (first_error : option anyhow) : comp S anyhow () :=
  match first_error with None => mret () | Some error => throw error end.

Section input.
Context `{VncWorld W}.
Abbreviation io := (comp (InputCtx W) anyhow).

Definition set_world (w : W) (c : InputCtx W) : InputCtx W :=
  mk_ctx w (latest_clipboard c) (keyboard c) (pointer c).
Definition set_clipboard (s : option VncClipboardSnapshot) (c : InputCtx W) : InputCtx W :=
  mk_ctx (ctx_world c) s (keyboard c) (pointer c).
Definition set_keyboard (k : list N) (c : InputCtx W) : InputCtx W :=
  mk_ctx (ctx_world c) (latest_clipboard c) k (pointer c).
Definition set_pointer (p : VncPointerState) (c : InputCtx W) : InputCtx W :=
  mk_ctx (ctx_world c) (latest_clipboard c) (keyboard c) p.

(** [client.input(event).await?], the engine's error becoming the chain's root. *)
Definition input_event (e : X11Event) : io () :=
  map_err_comp (λ err, [CauseVnc err]) (zoom ctx_world set_world (client_input e)).

(** [VncKeyboardState::send]. *)
Definition keyboard_send (keysym : N) (pressed : bool) : io () :=
  map_err_comp (cons (CauseMessage "VNC keyboard event failed"))
    (input_event (KeyEvent keysym pressed));;
  modify (λ c, set_keyboard
    (if pressed then btree_insert keysym (keyboard c) else btree_remove keysym (keyboard c)) c).

(** The loop of [release_all]: every key is tried, the first error is kept. *)
Fixpoint release_loop (held : list N) (first_error : option anyhow) : io (option anyhow) :=
  match held with
  | [] => mret first_error
  | keysym :: held' =>
      r ← attempt (keyboard_send keysym false);
      release_loop held'
        (match r, first_error with inl error, None => Some error | _, _ => first_error end)
  end.

(** [VncKeyboardState::release_all]. *)
Definition release_all : io () :=
  held ← gets keyboard;
  first_error ← release_loop held None;
  modify (set_keyboard []);;
  or_error first_error.

Definition send_pointer_event (p : VncPointerState) : io () :=
  let '(x, y, mask) := snapshot p in
  input_event (PointerEvent x y mask).

Definition move_pointer (x y : N) : io VncInputAction :=
  p ← gets pointer;
  let next := move_to x y p in
  send_pointer_event next;;
  modify (set_pointer next);;
  mret Continue.

Definition update_button (button : RemoteMouseButton) (pressed : bool) : io VncInputAction :=
  p ← gets pointer;
  let next := set_button button pressed p in
  send_pointer_event next;;
  modify (set_pointer next);;
  mret Continue.

Fixpoint send_masks (x y : N) (masks : list N) : io () :=
  match masks with
  | [] => mret ()
  | mask :: masks' => input_event (PointerEvent x y mask);; send_masks x y masks'
  end.

Definition send_wheel_events (vertical : bool) (units : Z) : io VncInputAction :=
  p ← gets pointer;
  let '(x, y, _) := snapshot p in
  send_masks x y (wheel_masks vertical units p);;
  mret Continue.

Definition send_clipboard_text (t : text) : io VncInputAction :=
  match encode t with
  | None => mret Continue
  | Some s =>
      modify (set_clipboard (Some s));;
      input_event (CopyTextBytes (wire_bytes s));;
      mret Continue
  end.

Definition send_vnc_input (input : RemoteDesktopInput) : io VncInputAction :=
  match input with
  | Close => mret Closed
  | Reconnect => mret ActReconnect
  | MouseMove x y => move_pointer x y
  | MouseButton button pressed => update_button button pressed
  | Wheel vertical units => send_wheel_events vertical units
  | Key key pressed =>
      match remote_key_to_keysym key with
      | Some keysym => keyboard_send keysym pressed
      | None => mret ()
      end;;
      mret Continue
  | InClipboardText t | Text t => send_clipboard_text t
  | ClipboardFiles _ => mret Continue
  | Resize _ _ => mret Continue
  end.

Definition handle_vnc_input (input : RemoteDesktopInput) : io VncInputAction :=
  r ← attempt (send_vnc_input input);
  mret (match r with inr action => action | inl error => Failed (error_to_string error) end).

(** [for _ in 0..MAX_INPUTS_PER_POLL] of [drain_remote_inputs]. *)
Fixpoint drain_loop (n : nat) (inputs : list RemoteDesktopInput) (w : W) : W * VncInputBatch :=
  match n with
  | 0 => (w, Inputs (coalesce_remote_inputs inputs))
  | S n' =>
      match input_try_recv w with
      | (w', Input i) => drain_loop n' (inputs ++ [i]) w'
      | (w', Empty) => (w', Inputs (coalesce_remote_inputs inputs))
      | (w', Disconnected) => (w', BatchDisconnected)
      end
  end.

Definition drain_remote_inputs : W → W * VncInputBatch := drain_loop MAX_INPUTS_PER_POLL [].

(** [for input in inputs] of [handle_pending_inputs]. *)
Fixpoint handle_inputs (inputs : list RemoteDesktopInput) : io VncInputAction :=
  match inputs with
  | [] => mret Continue
  | input :: rest =>
      action ← handle_vnc_input input;
      match action with Continue => handle_inputs rest | _ => mret action end
  end.

Definition handle_pending_inputs : io VncInputAction :=
  batch ← zoom ctx_world set_world (total drain_remote_inputs);
  match batch with
  | Inputs inputs => handle_inputs inputs
  | BatchDisconnected => mret InputClosed
  end.

(** [VncPointerState::release_buttons]. *)
Definition release_buttons : io () :=
  p ← gets pointer;
  if (buttons p =? 0)%N then mret ()
  else
    result ← attempt (zoom ctx_world set_world (client_input (PointerEvent (p_x p) (p_y p) 0)));
    modify (set_pointer (mk_pointer (p_x p) (p_y p) 0));;
    match result with
    | inr _ => mret ()
    | inl error =>
        throw [CauseMessage ("VNC mouse release failed: " +:+ vnc_error_display error)]
    end.

Definition shutdown_inputs : io () :=
  keys ← attempt release_all;
  mouse ← attempt release_buttons;
  or_error (match keys, mouse with
            | inl error, _ => Some error
            | inr _, inl error => Some error
            | inr _, inr _ => None
            end).
End input.

(** ** What the server has been told *)

Definition note_key (k : N) (b : bool) (e : X11Event) : bool :=
  match e with KeyEvent k' down => if (k' =? k)%N then down else b | _ => b end.

(** The key is down at the server after the accepted events. *)
Definition held_at (log : list X11Event) (k : N) : bool := foldl (note_key k) false log.

Definition note_pointer (p : VncPointerState) (e : X11Event) : VncPointerState :=
  match e with PointerEvent x y mask => mk_pointer x y mask | _ => p end.

Definition pointer_at (log : list X11Event) : VncPointerState :=
  foldl note_pointer pointer_default log.

(** The bits of the mask that are mouse buttons; the others are wheel clicks. *)
Definition button_bits : N := 135.

Section tracking.
Context `{VncWorld W}.

(** The session's picture of the keyboard and the pointer is the server's. *)
Record tracks (c : InputCtx W) : Prop := {
  tracks_sorted : StronglySorted N.lt (keyboard c);
  tracks_keys k : k ∈ keyboard c ↔ held_at (accepted (ctx_world c)) k = true;
  tracks_x : p_x (pointer_at (accepted (ctx_world c))) = p_x (pointer c);
  tracks_y : p_y (pointer_at (accepted (ctx_world c))) = p_y (pointer c);
  tracks_buttons :
    N.land (buttons (pointer_at (accepted (ctx_world c)))) button_bits = buttons (pointer c);
}.
End tracking.

(** ** The batch as the server should see it

    A pure account of a batch, with no engine: the events an input stands for, given
    the pointer, and the state it leaves. *)

Definition input_pointer (p : VncPointerState) (i : RemoteDesktopInput) : VncPointerState :=
  match i with
  | MouseMove x y => move_to x y p
  | MouseButton b d => set_button b d p
  | _ => p
  end.

Definition input_keys (ks : list N) (i : RemoteDesktopInput) : list N :=
  match i with
  | Key key d =>
      match remote_key_to_keysym key with
      | Some k => if d then btree_insert k ks else btree_remove k ks
      | None => ks
      end
  | _ => ks
  end.

Definition input_clipboard (s : option VncClipboardSnapshot) (i : RemoteDesktopInput)
    : option VncClipboardSnapshot :=
  match i with
  | InClipboardText t | Text t => match encode t with Some s' => Some s' | None => s end
  | _ => s
  end.

Definition pointer_event (p : VncPointerState) : X11Event :=
  PointerEvent (p_x p) (p_y p) (buttons p).

Definition input_events (p : VncPointerState) (i : RemoteDesktopInput) : list X11Event :=
  match i with
  | MouseMove _ _ | MouseButton _ _ => [pointer_event (input_pointer p i)]
  | Wheel v u => PointerEvent (p_x p) (p_y p) <$> wheel_masks v u p
  | Key key d =>
      match remote_key_to_keysym key with Some k => [KeyEvent k d] | None => [] end
  | InClipboardText t | Text t =>
      match encode t with Some s => [CopyTextBytes (wire_bytes s)] | None => [] end
  | _ => []
  end.

(** The inputs before the first [Close] or [Reconnect], and what stops there. *)
Fixpoint until_stop (inputs : list RemoteDesktopInput) : list RemoteDesktopInput * VncInputAction :=
  match inputs with
  | [] => ([], Continue)
  | Close :: _ => ([], Closed)
  | Reconnect :: _ => ([], ActReconnect)
  | i :: rest => (i :: (until_stop rest).1, (until_stop rest).2)
  end.

Fixpoint batch_events (p : VncPointerState) (inputs : list RemoteDesktopInput) : list X11Event :=
  match inputs with
  | [] => []
  | i :: rest => input_events p i ++ batch_events (input_pointer p i) rest
  end.

(** The reference for coalescing: a move is dropped when the next input moves again. *)
Fixpoint drop_superseded (inputs : list RemoteDesktopInput) : list RemoteDesktopInput :=
  match inputs with
  | [] => []
  | i :: rest =>
      match i, rest with
      | MouseMove _ _, MouseMove _ _ :: _ => drop_superseded rest
      | _, _ => i :: drop_superseded rest
      end
  end.

Definition is_pointer_event (e : X11Event) : Prop :=
  match e with PointerEvent _ _ _ => True | _ => False end.
#[export] Instance is_pointer_event_dec e : Decision (is_pointer_event e).
Proof. destruct e; simpl; apply _. Defined.

(** ** Lemmas: sets of keys *)

Lemma btree_insert_elem k x s : x ∈ btree_insert k s ↔ x = k ∨ x ∈ s.
Proof.
  induction s as [|y s IH]; simpl; [set_solver|].
  destruct (N.ltb_spec k y); [set_solver|].
  destruct (N.eqb_spec k y) as [->|]; set_solver.
Qed.

Lemma btree_insert_sorted k s : StronglySorted N.lt s → StronglySorted N.lt (btree_insert k s).
Proof.
  induction 1 as [|x s Hs IH Hx]; simpl; [by repeat constructor|].
  destruct (N.ltb_spec k x); [|destruct (N.eqb_spec k x)].
  - constructor; [by constructor|]. constructor; [done|].
    eapply Forall_impl; [exact Hx|]. simpl. lia.
  - by constructor.
  - constructor; [done|]. apply Forall_forall. intros y [->|Hy]%btree_insert_elem; [lia|].
    by eapply Forall_forall in Hx.
Qed.

Lemma btree_remove_elem k x s : x ∈ btree_remove k s ↔ x ≠ k ∧ x ∈ s.
Proof. unfold btree_remove. by rewrite list_elem_of_filter. Qed.

Lemma btree_remove_sorted k s : StronglySorted N.lt s → StronglySorted N.lt (btree_remove k s).
Proof.
  unfold btree_remove. induction 1 as [|x s Hs IH Hx]; [constructor|].
  rewrite filter_cons. case_decide; [|done]. constructor; [done|].
  apply Forall_forall. intros y [_ Hy]%list_elem_of_filter. by eapply Forall_forall in Hx.
Qed.

(** ** Lemmas: button masks *)

Lemma mask_press b bit :
  N.land b button_bits = b → N.land bit button_bits = bit →
  N.land (N.lor b bit) button_bits = N.lor b bit.
Proof. intros Hb Hbit. by rewrite N.land_lor_distr_l, Hb, Hbit. Qed.

Lemma mask_wheel b bit :
  N.land b button_bits = b → N.land bit button_bits = 0%N →
  N.land (N.lor b bit) button_bits = b.
Proof. intros Hb Hbit. by rewrite N.land_lor_distr_l, Hb, Hbit, N.lor_0_r. Qed.

Lemma mask_release b bit :
  N.land b button_bits = b → N.land (N.ldiff b bit) button_bits = N.ldiff b bit.
Proof.
  intros Hb. rewrite <-Hb at 2. apply N.bits_inj. intros i.
  rewrite N.land_spec, !N.ldiff_spec, N.land_spec.
  by destruct (N.testbit b i), (N.testbit bit i), (N.testbit button_bits i).
Qed.

Lemma mask_idem b m : N.land b button_bits = m → N.land m button_bits = m.
Proof. intros <-. rewrite <-N.land_assoc, N.land_diag. done. Qed.

Lemma set_button_mask b d p :
  N.land (buttons p) button_bits = buttons p →
  N.land (buttons (set_button b d p)) button_bits = buttons (set_button b d p).
Proof.
  intros Hp. unfold set_button.
  destruct b; simpl; try done; destruct d; simpl; (apply mask_press || apply mask_release); done.
Qed.

Lemma wheel_bit_mask v u bit : vnc_wheel_bit v u = Some bit → N.land bit button_bits = 0%N.
Proof.
  unfold vnc_wheel_bit. destruct v, (Z.sgn u) as [|[]|[]]; intros [= <-]; reflexivity.
Qed.

Lemma held_at_snoc log e k : held_at (log ++ [e]) k = note_key k (held_at log k) e.
Proof. unfold held_at. by rewrite foldl_app. Qed.

Lemma pointer_at_snoc log e : pointer_at (log ++ [e]) = note_pointer (pointer_at log) e.
Proof. unfold pointer_at. by rewrite foldl_app. Qed.

#[export] Hint Rewrite held_at_snoc pointer_at_snoc : helper.
#[export] Hint Resolve btree_insert_sorted btree_remove_sorted : helper.

(** ** Lemmas: one call to the engine *)

Section runs.
Context `{VncWorldLaws W}.
Implicit Types c : InputCtx W.

(** Where a run of calls leaves the context: the events accepted meanwhile, and the
    world they were accepted in. *)
Definition advanced (log : list X11Event) c c' : Prop :=
  accepted (ctx_world c') = accepted (ctx_world c) ++ log.

Lemma input_event_run e c :
  (∃ w', accepted w' = accepted (ctx_world c) ++ [e] ∧
     input_event e c = (set_world w' c, Ok ())) ∨
  (∃ w' err, accepted w' = accepted (ctx_world c) ∧
     client_input e (ctx_world c) = (w', Err err) ∧
     input_event e c = (set_world w' c, Err [CauseVnc err])).
Proof.
  pose proof (client_input_accepted e (ctx_world c)) as Hacc.
  pose proof (client_input_no_panic e (ctx_world c)) as Hpanic.
  unfold input_event, map_err_comp, zoom.
  destruct (client_input e (ctx_world c)) as [w' [[]|err|]]; simpl in *.
  - left. by exists w'.
  - right. exists w', err. by rewrite app_nil_r in Hacc.
  - done.
Qed.

Lemma keyboard_send_run k d c :
  (∃ w', accepted w' = accepted (ctx_world c) ++ [KeyEvent k d] ∧
     keyboard_send k d c =
       (set_keyboard (if d then btree_insert k (keyboard c) else btree_remove k (keyboard c))
          (set_world w' c), Ok ())) ∨
  (∃ w' err, accepted w' = accepted (ctx_world c) ∧
     keyboard_send k d c = (set_world w' c, Err err)).
Proof.
  unfold keyboard_send. rewrite comp_bind_run. unfold map_err_comp.
  destruct (input_event_run (KeyEvent k d) c) as [(w' & Hw & ->)|(w' & err & Hw & _ & ->)]; simpl.
  - left. by exists w'.
  - right. by eexists _, _.
Qed.

Lemma pointer_send_run p c :
  (∃ w', accepted w' = accepted (ctx_world c) ++ [pointer_event p] ∧
     (send_pointer_event p;; modify (set_pointer p);; mret Continue) c =
       (set_pointer p (set_world w' c), Ok Continue)) ∨
  (∃ w' err, accepted w' = accepted (ctx_world c) ∧
     (send_pointer_event p;; modify (set_pointer p);; mret Continue) c =
       (set_world w' c, Err err)).
Proof.
  rewrite comp_bind_run. change (send_pointer_event p c) with (input_event (pointer_event p) c).
  destruct (input_event_run (pointer_event p) c) as [(w' & Hw & ->)|(w' & err & Hw & _ & ->)];
    simpl; [left; by exists w'|right; by eexists _, _].
Qed.

(** ** The invariant is kept *)

Lemma tracks_refused c w' :
  tracks c → accepted w' = accepted (ctx_world c) → tracks (set_world w' c).
Proof. intros [Hs Hk Hx Hy Hb] Hw. by split; simpl; rewrite ?Hw. Qed.

Lemma tracks_clipboard c s : tracks c → tracks (set_clipboard s c).
Proof. by intros [Hs Hk Hx Hy Hb]. Qed.

Lemma tracks_key k d c w' :
  tracks c → accepted w' = accepted (ctx_world c) ++ [KeyEvent k d] →
  tracks (set_keyboard (if d then btree_insert k (keyboard c) else btree_remove k (keyboard c))
    (set_world w' c)).
Proof.
  intros [Hs Hk Hx Hy Hb] Hw. split; simpl; rewrite ?Hw, ?pointer_at_snoc; simpl; try done.
  - destruct d; auto with helper.
  - intros k'. rewrite held_at_snoc. simpl. specialize (Hk k').
    destruct d; rewrite ?btree_insert_elem, ?btree_remove_elem;
      destruct (N.eqb_spec k k') as [->|]; naive_solver.
Qed.

Lemma tracks_pointer p c w' :
  tracks c → N.land (buttons p) button_bits = buttons p →
  accepted w' = accepted (ctx_world c) ++ [pointer_event p] →
  tracks (set_pointer p (set_world w' c)).
Proof.
  intros [Hs Hk Hx Hy Hb] Hp Hw. split; simpl; rewrite ?Hw, ?pointer_at_snoc; simpl; try done.
  intros k'. by rewrite held_at_snoc.
Qed.

(** A wheel click moves no button. *)
Lemma tracks_mask mask c w' :
  tracks c → N.land mask button_bits = buttons (pointer c) →
  accepted w' = accepted (ctx_world c) ++ [PointerEvent (p_x (pointer c)) (p_y (pointer c)) mask] →
  tracks (set_world w' c).
Proof.
  intros [Hs Hk Hx Hy Hb] Hp Hw. split; simpl; rewrite ?Hw, ?pointer_at_snoc; simpl; try done.
  intros k'. by rewrite held_at_snoc.
Qed.

Lemma tracks_other e c w' :
  tracks c → (∀ k b, note_key k b e = b) → (∀ p, note_pointer p e = p) →
  accepted w' = accepted (ctx_world c) ++ [e] → tracks (set_world w' c).
Proof.
  intros [Hs Hk Hx Hy Hb] Hek Hep Hw.
  split; simpl; rewrite ?Hw, ?pointer_at_snoc, ?Hep; simpl; try done.
  intros k'. by rewrite held_at_snoc, Hek.
Qed.

Abbreviation keeps m := (run_ensures tracks m (λ s _, tracks s)).

Lemma pure_keeps {E A} (r : outcome E A) : keeps (λ c : InputCtx W, (c, r)).
Proof. by intros c. Qed.

Lemma keyboard_send_keeps k d : keeps (keyboard_send (W:=W) k d).
Proof.
  intros c Hc. destruct (keyboard_send_run k d c) as [(w' & Hw & ->)|(w' & err & Hw & ->)];
    eauto using tracks_key, tracks_refused.
Qed.

Lemma send_masks_keeps masks c :
  Forall (λ m, N.land m button_bits = buttons (pointer c)) masks → tracks c →
  tracks (send_masks (p_x (pointer c)) (p_y (pointer c)) masks c).1.
Proof.
  intros Hm. revert c Hm. induction masks as [|m ms IH]; intros c Hm Hc; [done|].
  apply Forall_cons in Hm as [Hm Hms]. simpl. rewrite comp_bind_run.
  destruct (input_event_run (PointerEvent (p_x (pointer c)) (p_y (pointer c)) m) c)
    as [(w' & Hw & ->)|(w' & err & Hw & _ & ->)]; simpl.
  - apply (IH (set_world w' c)); [done|]. by eapply tracks_mask.
  - by apply tracks_refused.
Qed.

Lemma tracks_mask_idem c :
  tracks c → N.land (buttons (pointer c)) button_bits = buttons (pointer c).
Proof. intros Hc. eapply mask_idem, tracks_buttons, Hc. Qed.
Hint Resolve tracks_mask_idem : core.

Lemma send_wheel_events_keeps v u : keeps (send_wheel_events (W:=W) v u).
Proof.
  intros c Hc. unfold send_wheel_events. rewrite comp_bind_run. simpl.
  rewrite comp_bind_run.
  assert (tracks (send_masks (p_x (pointer c)) (p_y (pointer c))
    (wheel_masks v u (pointer c)) c).1) as Hm.
  { apply send_masks_keeps; [|done]. unfold wheel_masks.
    destruct (vnc_wheel_bit v u) as [bit|] eqn:Hbit; [|done].
    repeat constructor; [|by eauto]. eapply mask_wheel, wheel_bit_mask; eauto. }
  by destruct (send_masks _ _ _ c) as [c' []].
Qed.

Lemma pointer_keeps (next : VncPointerState → VncPointerState) :
  (∀ p, N.land (buttons p) button_bits = buttons p →
     N.land (buttons (next p)) button_bits = buttons (next p)) →
  keeps (p ← gets (S:=InputCtx W) pointer;
         (send_pointer_event (next p);; modify (set_pointer (next p));; mret Continue)).
Proof.
  intros Hnext c Hc. rewrite comp_bind_run. simpl.
  destruct (pointer_send_run (next (pointer c)) c) as [(w' & Hw & ->)|(w' & err & Hw & ->)]; simpl.
  - eapply tracks_pointer; eauto.
  - by apply tracks_refused.
Qed.

Lemma send_clipboard_text_keeps t : keeps (send_clipboard_text (W:=W) t).
Proof.
  intros c Hc. unfold send_clipboard_text. destruct (encode t) as [s|]; [|done].
  rewrite comp_bind_run. simpl. rewrite comp_bind_run.
  destruct (input_event_run (CopyTextBytes (wire_bytes s)) (set_clipboard (Some s) c))
    as [(w' & Hw & ->)|(w' & err & Hw & _ & ->)]; simpl.
  - by eapply tracks_other; eauto using tracks_clipboard.
  - by apply tracks_refused; [apply tracks_clipboard|].
Qed.

Lemma send_vnc_input_keeps i : keeps (send_vnc_input (W:=W) i).
Proof.
  destruct i as [? ?|x y|b d|v u|k d|t|t|?| |]; simpl; try apply pure_keeps.
  - by apply (pointer_keeps (move_to x y)).
  - apply (pointer_keeps (set_button b d)), set_button_mask.
  - apply send_wheel_events_keeps.
  - apply run_ensures_bind; [|intros; apply pure_keeps].
    destruct (remote_key_to_keysym k); [apply keyboard_send_keeps|apply pure_keeps].
  - apply send_clipboard_text_keeps.
  - apply send_clipboard_text_keeps.
Qed.

Lemma attempt_keeps {E F A} (m : comp (InputCtx W) E A) :
  keeps m → keeps (attempt (F:=F) m).
Proof. intros Hm c Hc. destruct (attempt_run (F:=F) m c) as [-> _]. by apply Hm. Qed.

Lemma handle_inputs_keeps l : keeps (handle_inputs (W:=W) l).
Proof.
  induction l as [|i l IH]; [apply pure_keeps|]. simpl. apply run_ensures_bind.
  - unfold handle_vnc_input. apply run_ensures_bind; [|intros; apply pure_keeps].
    apply attempt_keeps, send_vnc_input_keeps.
  - intros []; [apply IH|apply pure_keeps..].
Qed.

Lemma drain_loop_accepted n l w : accepted (drain_loop n l w).1 = accepted w.
Proof.
  revert l w. induction n as [|n IH]; intros l w; [done|]. simpl.
  pose proof (input_try_recv_accepted w).
  destruct (input_try_recv w) as [w' []]; simpl in *; rewrite ?IH; done.
Qed.

Lemma handle_pending_inputs_keeps : keeps (handle_pending_inputs (W:=W)).
Proof.
  apply run_ensures_bind.
  - intros c Hc. unfold zoom, total. simpl. apply tracks_refused; [done|].
    apply drain_loop_accepted.
  - intros []; [apply handle_inputs_keeps|apply pure_keeps].
Qed.
End runs.

(** ** Lemmas: nothing panics *)

Section panics.
Context `{VncWorldLaws W}.

Definition quiet {E A} (m : comp (InputCtx W) E A) : Prop := ∀ c, (m c).2 ≠ Panic.

Lemma quiet_bind {E A B} (m : comp (InputCtx W) E A) (f : A → comp (InputCtx W) E B) :
  quiet m → (∀ a, quiet (f a)) → quiet (m ≫= f).
Proof.
  intros Hm Hf c. rewrite comp_bind_run. specialize (Hm c).
  destruct (m c) as [c' []]; simpl in *; [apply Hf|done|done].
Qed.

Lemma quiet_pure {E A} (g : InputCtx W → InputCtx W) (r : InputCtx W → outcome E A) :
  (∀ c, r c ≠ Panic) → quiet (λ c, (g c, r c)).
Proof. intros Hr c. apply Hr. Qed.

Lemma quiet_attempt {E F A} (m : comp (InputCtx W) E A) : quiet m → quiet (attempt (F:=F) m).
Proof.
  intros Hm c. destruct (attempt_run (F:=F) m c) as [_ ->]. specialize (Hm c).
  by destruct (m c).2.
Qed.

Lemma quiet_input e : quiet (input_event e).
Proof. intros c. by destruct (input_event_run e c) as [(?&_&->)|(?&?&_&_&->)]. Qed.

Lemma quiet_keyboard_send k d : quiet (keyboard_send k d).
Proof. intros c. by destruct (keyboard_send_run k d c) as [(?&_&->)|(?&?&_&->)]. Qed.

Lemma quiet_pointer (p : VncPointerState) :
  quiet (send_pointer_event p;; modify (set_pointer p);; mret Continue).
Proof. intros c. by destruct (pointer_send_run p c) as [(?&_&->)|(?&?&_&->)]. Qed.

Lemma quiet_masks x y ms : quiet (send_masks x y ms).
Proof.
  induction ms as [|m ms IH]; [by apply quiet_pure|]. simpl.
  apply quiet_bind; [apply quiet_input|intros _; apply IH].
Qed.

Lemma quiet_send_vnc_input i : quiet (send_vnc_input i).
Proof.
  destruct i as [? ?|x y|b d|v u|k d|t|t|?| |]; simpl; try by apply quiet_pure.
  - apply quiet_bind; [by apply quiet_pure|intros p; apply quiet_pointer].
  - apply quiet_bind; [by apply quiet_pure|intros p; apply quiet_pointer].
  - apply quiet_bind; [by apply quiet_pure|intros p]. simpl.
    apply quiet_bind; [apply quiet_masks|by intros _; apply quiet_pure].
  - apply quiet_bind; [|by intros; apply quiet_pure].
    destruct (remote_key_to_keysym k); [apply quiet_keyboard_send|by apply quiet_pure].
  - unfold send_clipboard_text. destruct (encode t); [|by apply quiet_pure].
    apply quiet_bind; [by apply quiet_pure|intros _].
    apply quiet_bind; [apply quiet_input|by intros _; apply quiet_pure].
  - unfold send_clipboard_text. destruct (encode t); [|by apply quiet_pure].
    apply quiet_bind; [by apply quiet_pure|intros _].
    apply quiet_bind; [apply quiet_input|by intros _; apply quiet_pure].
Qed.

(** An input always yields an action: its errors become [Failed]. *)
Lemma handle_vnc_input_total i c : ∃ a, (handle_vnc_input i c).2 = Ok a.
Proof.
  unfold handle_vnc_input. rewrite comp_bind_run.
  pose proof (quiet_send_vnc_input i c) as Hq.
  unfold attempt. destruct (send_vnc_input i c) as [c' []]; simpl in *; eauto. done.
Qed.

Lemma handle_inputs_total l c : ∃ a, (handle_inputs l c).2 = Ok a.
Proof.
  revert c. induction l as [|i l IH]; intros c; [by eexists|]. simpl. rewrite comp_bind_run.
  destruct (handle_vnc_input_total i c) as [a ->]. destruct a; [apply IH|eexists; done..].
Qed.

Lemma handle_pending_inputs_total c : ∃ a, (handle_pending_inputs c).2 = Ok a.
Proof.
  unfold handle_pending_inputs. rewrite comp_bind_run. simpl.
  destruct (drain_remote_inputs (ctx_world c)) as [w' [l|]]; simpl;
    [apply handle_inputs_total|by eexists].
Qed.
End panics.

(** ** Lemmas: coalescing *)

Definition is_move (i : RemoteDesktopInput) : Prop :=
  match i with MouseMove _ _ => True | _ => False end.

Lemma coalesce_loop_spec l acc pending :
  (∀ i, pending = Some i → is_move i) →
  coalesce_loop l acc pending = acc ++ drop_superseded (option_list pending ++ l).
Proof.
  revert acc pending. induction l as [|i l IH]; intros acc pending Hp.
  - destruct pending as [i|]; simpl; [|done]. by destruct i.
  - assert (is_move i ∨ ¬ is_move i ∧ coalesce_loop (i :: l) acc pending =
      coalesce_loop l (acc ++ option_list pending ++ [i]) None ∧
      drop_superseded (i :: l) = i :: drop_superseded l) as [Hi|(Hi & -> & Hl)].
    { destruct i; simpl; solve [left; exact I|right; split_and!; [intros []|reflexivity..]]. }
    + destruct i as [|x y| | | | | | | |]; try done. simpl.
      rewrite IH by (intros ? [= <-]; exact I). f_equal.
      destruct pending as [j|]; [|done]. specialize (Hp j eq_refl). by destruct j.
    + rewrite IH by done. rewrite <-app_assoc. f_equal.
      destruct pending as [j|]; unfold option_list, option_rect; cbn [app]; [|by rewrite Hl].
      specialize (Hp j eq_refl). destruct j as [|jx jy| | | | | | | |]; try done.
      rewrite <-Hl. by destruct i; try (exfalso; apply Hi; exact I).
Qed.

Lemma drop_superseded_until_stop l :
  until_stop (drop_superseded l) = (drop_superseded (until_stop l).1, (until_stop l).2).
Proof.
  induction l as [|i l IH]; [done|].
  destruct i as [? ?|x y|? ?|? ?|? ?|?|?|?| |]; simpl; rewrite ?IH; try done.
  destruct l as [|j l]; [done|].
  destruct j; simpl in *; try (rewrite IH; done); try done; injection IH as IH1 IH2; congruence.
Qed.

Lemma drop_superseded_pointer l p :
  foldl input_pointer p (drop_superseded l) = foldl input_pointer p l.
Proof.
  revert p. induction l as [|i l IH]; intros p; [done|].
  destruct i as [|x y| | | | | | | |]; simpl; rewrite ?IH; try done.
  destruct l as [|j l]; [done|]. destruct j; solve [exact (IH (move_to x y p))|exact (IH p)].
Qed.

Lemma drop_superseded_keys l ks : foldl input_keys ks (drop_superseded l) = foldl input_keys ks l.
Proof.
  revert ks. induction l as [|i l IH]; intros ks; [done|].
  destruct i as [|x y| | | | | | | |]; simpl; rewrite ?IH; try done.
  destruct l as [|j l]; [done|]. by destruct j; apply (IH ks).
Qed.

Lemma drop_superseded_clipboard l s :
  foldl input_clipboard s (drop_superseded l) = foldl input_clipboard s l.
Proof.
  revert s. induction l as [|i l IH]; intros s; [done|].
  destruct i as [|x y| | | | | | | |]; simpl; rewrite ?IH; try done.
  destruct l as [|j l]; [done|]. by destruct j; apply (IH s).
Qed.

Lemma drop_superseded_events l p :
  batch_events p (drop_superseded l) `sublist_of` batch_events p l ∧
  filter (λ e, ¬ is_pointer_event e) (batch_events p (drop_superseded l)) =
    filter (λ e, ¬ is_pointer_event e) (batch_events p l).
Proof.
  revert p. induction l as [|i l IH]; intros p; [done|].
  assert (drop_superseded (i :: l) = i :: drop_superseded l ∨
    ∃ x y x' y' l', i = MouseMove x y ∧ l = MouseMove x' y' :: l' ∧
      drop_superseded (i :: l) = drop_superseded l) as [->|(x&y&x'&y'&l'&->&->&->)].
  { destruct i as [|x y| | | | | | | |]; try by left. destruct l as [|[] l]; try by left.
    right. by eexists _, _, _, _, _. }
  - simpl. destruct (IH (input_pointer p i)) as [Hsub Hf]. rewrite !filter_app, Hf.
    split; [by apply sublist_app|done].
  - destruct (IH (move_to x y p)) as [Hsub Hf].
    assert (batch_events (move_to x y p) (drop_superseded (MouseMove x' y' :: l')) =
      batch_events p (drop_superseded (MouseMove x' y' :: l'))) as Hdrop.
    { clear. revert x' y'. induction l' as [|j l' IH]; intros; [done|].
      destruct j; try done. apply IH. }
    rewrite Hdrop in Hsub, Hf. cbn [batch_events input_pointer input_events app]. split.
    + by apply sublist_cons.
    + rewrite filter_cons_False by (simpl; tauto). exact Hf.
Qed.

(** ** Lemmas: an engine that accepts everything *)

Section accepting.
Context `{VncWorldLaws W}.
Hypothesis accepts : ∀ e w, (client_input e w).2 = Ok ().
Implicit Types c : InputCtx W.

Lemma input_event_accepted e c :
  ∃ w', accepted w' = accepted (ctx_world c) ++ [e] ∧ input_event e c = (set_world w' c, Ok ()).
Proof.
  destruct (input_event_run e c) as [?|(w' & err & _ & Hr & _)]; [done|].
  specialize (accepts e (ctx_world c)). by rewrite Hr in accepts.
Qed.

Lemma keyboard_send_accepted k d c :
  ∃ w', accepted w' = accepted (ctx_world c) ++ [KeyEvent k d] ∧
    keyboard_send k d c =
      (set_keyboard (if d then btree_insert k (keyboard c) else btree_remove k (keyboard c))
         (set_world w' c), Ok ()).
Proof.
  unfold keyboard_send. rewrite comp_bind_run. unfold map_err_comp.
  destruct (input_event_accepted (KeyEvent k d) c) as (w' & Hw & ->). by exists w'.
Qed.

Lemma pointer_send_accepted p c :
  ∃ w', accepted w' = accepted (ctx_world c) ++ [pointer_event p] ∧
    (send_pointer_event p;; modify (set_pointer p);; mret Continue) c =
       (set_pointer p (set_world w' c), Ok Continue).
Proof.
  rewrite comp_bind_run. change (send_pointer_event p c) with (input_event (pointer_event p) c).
  destruct (input_event_accepted (pointer_event p) c) as (w' & Hw & ->). by exists w'.
Qed.

Lemma send_masks_accepted x y ms c :
  ∃ w', accepted w' = accepted (ctx_world c) ++ (PointerEvent x y <$> ms) ∧
    send_masks x y ms c = (set_world w' c, Ok ()).
Proof.
  revert c. induction ms as [|m ms IH]; intros c; simpl.
  - exists (ctx_world c). rewrite app_nil_r. by destruct c.
  - rewrite comp_bind_run.
    destruct (input_event_accepted (PointerEvent x y m) c) as (w' & Hw & ->). simpl.
    destruct (IH (set_world w' c)) as (w'' & Hw' & ->). exists w''.
    split; [|done]. simpl in Hw'. rewrite Hw', Hw, <-app_assoc. done.
Qed.

Definition after c w' i : InputCtx W :=
  mk_ctx w' (input_clipboard (latest_clipboard c) i) (input_keys (keyboard c) i)
    (input_pointer (pointer c) i).

Lemma send_vnc_input_accepted i c :
  i ≠ Close → i ≠ Reconnect →
  ∃ w', accepted w' = accepted (ctx_world c) ++ input_events (pointer c) i ∧
    send_vnc_input i c = (after c w' i, Ok Continue).
Proof.
  intros Hclose Hreconnect.
  assert (∀ t, ∃ w', accepted w' = accepted (ctx_world c) ++
      match encode t with Some s => [CopyTextBytes (wire_bytes s)] | None => [] end ∧
    send_clipboard_text t c =
      (mk_ctx w' (match encode t with Some s' => Some s' | None => latest_clipboard c end)
        (keyboard c) (pointer c), Ok Continue)) as Htext.
  { intros t. unfold send_clipboard_text. destruct (encode t) as [s|].
    - rewrite comp_bind_run. simpl. rewrite comp_bind_run.
      destruct (input_event_accepted (CopyTextBytes (wire_bytes s)) (set_clipboard (Some s) c))
        as (w' & Hw & ->). by exists w'.
    - exists (ctx_world c). rewrite app_nil_r. by destruct c. }
  assert (∃ w', accepted w' = accepted (ctx_world c) ++ [] ∧
    (c, Ok Continue) = (mk_ctx (W:=W) w' (latest_clipboard c) (keyboard c) (pointer c),
      Ok (E:=anyhow) Continue)) as Hnone.
  { exists (ctx_world c). rewrite app_nil_r. by destruct c. }
  destruct i as [? ?|x y|b d|v u|k d|t|t|?| |]; simpl; try done; try apply Htext; try apply Hnone.
  - apply (pointer_send_accepted (move_to x y (pointer c)) c).
  - apply (pointer_send_accepted (set_button b d (pointer c)) c).
  - unfold send_wheel_events. rewrite comp_bind_run. simpl. rewrite comp_bind_run.
    destruct (send_masks_accepted (p_x (pointer c)) (p_y (pointer c))
      (wheel_masks v u (pointer c)) c) as (w' & Hw & ->). by exists w'.
  - rewrite comp_bind_run. unfold after. simpl.
    destruct (remote_key_to_keysym k) as [keysym|]; [|apply Hnone].
    destruct (keyboard_send_accepted keysym d c) as (w' & Hw & ->). by exists w'.
Qed.

Lemma handle_inputs_accepted l c :
  ∃ w', accepted w' = accepted (ctx_world c) ++ batch_events (pointer c) (until_stop l).1 ∧
    handle_inputs l c =
      (mk_ctx w' (foldl input_clipboard (latest_clipboard c) (until_stop l).1)
         (foldl input_keys (keyboard c) (until_stop l).1)
         (foldl input_pointer (pointer c) (until_stop l).1), Ok (until_stop l).2).
Proof.
  revert c. induction l as [|i l IH]; intros c; simpl.
  { exists (ctx_world c). rewrite app_nil_r. by destruct c. }
  unfold handle_vnc_input. rewrite comp_bind_run, comp_bind_run. unfold attempt.
  destruct (decide (i = Close)) as [->|Hc]; [|destruct (decide (i = Reconnect)) as [->|Hr]].
  - exists (ctx_world c). rewrite app_nil_r. by destruct c.
  - exists (ctx_world c). rewrite app_nil_r. by destruct c.
  - destruct (send_vnc_input_accepted i c) as (w1 & Hw1 & ->); [done|done|]. simpl.
    destruct (IH (after c w1 i)) as (w2 & Hw2 & ->). simpl in *.
    exists w2. rewrite Hw2, Hw1, <-app_assoc. by destruct i.
Qed.
End accepting.

(** ** Lemmas: shutdown *)

Section shutdown.
Context `{VncWorldLaws W}.
Implicit Types c : InputCtx W.

Definition releases (ks : list N) : list X11Event := (λ k, KeyEvent k false) <$> ks.

(** What [release_loop] has done: the keys in [ok] were released in order, the rest
    of the context only lost them, and an error is reported unless all were. *)
Definition released (ks : list N) (err : option anyhow) c (ok : list N)
    (err' : option anyhow) c' : Prop :=
  ok `sublist_of` ks ∧
  advanced (releases ok) c c' ∧
  pointer c' = pointer c ∧ latest_clipboard c' = latest_clipboard c ∧
  (err' = None → err = None ∧ ok = ks) ∧
  (tracks c → tracks c' ∧ ∀ k, k ∈ keyboard c' ↔ k ∈ keyboard c ∧ k ∉ ok).

Lemma release_loop_run ks err c :
  ∃ c' ok err', release_loop ks err c = (c', Ok err') ∧ released ks err c ok err' c'.
Proof.
  revert err c. induction ks as [|k ks IH]; intros err c; simpl.
  { exists c, [], err. split; [done|]. split_and!; try done.
    - unfold advanced. by rewrite app_nil_r.
    - intros Hc. split; [done|]. set_solver. }
  rewrite comp_bind_run. unfold attempt.
  pose proof (keyboard_send_keeps k false c) as Hkeep.
  destruct (keyboard_send_run k false c) as [(w' & Hw & Heq)|(w' & e & Hw & Heq)];
    rewrite Heq in *; simpl.
  - set (c1 := set_keyboard (btree_remove k (keyboard c)) (set_world w' c)) in *.
    destruct (IH err c1) as (c' & ok & err' & -> & Hsub & Hadv & Hp & Hcl & Herr & Htr).
    exists c', (k :: ok), err'. destruct err; (split; [done|]); split_and!; try done.
    all: try by apply sublist_skip.
    all: try (unfold advanced in *; simpl in *; rewrite Hadv, Hw, <-app_assoc; done).
    all: try (intros Hnone; destruct (Herr Hnone); by subst).
    all: intros Hc; destruct (Htr (Hkeep Hc)) as [Htr' Hk]; split; [done|]; intros k'.
    all: rewrite Hk, elem_of_cons; simpl; rewrite btree_remove_elem; naive_solver.
  - destruct (IH (match err with None => Some e | _ => err end) (set_world w' c))
      as (c' & ok & err' & Hloop & Hsub & Hadv & Hp & Hcl & Herr & Htr).
    exists c', ok, err'. split; [by destruct err|]. split_and!; try done.
    + by apply sublist_cons.
    + unfold advanced in *. simpl in Hadv. by rewrite Hadv, Hw.
    + intros Hnone. destruct (Herr Hnone) as [He _]. by destruct err.
    + intros Hc. by apply Htr, Hkeep.
Qed.

Lemma release_all_run c :
  ∃ c' ok r, release_all c = (set_keyboard [] c', r) ∧ r ≠ Panic ∧
    released (keyboard c) None c ok (match r with Err e => Some e | _ => None end) c'.
Proof.
  unfold release_all. rewrite comp_bind_run. simpl. rewrite comp_bind_run.
  destruct (release_loop_run (keyboard c) None c) as (c' & ok & err & -> & Hrel). simpl.
  rewrite comp_bind_run. simpl.
  destruct err as [e|]; eexists c', ok, _; (split; [reflexivity|]); done.
Qed.

Lemma release_buttons_run c :
  ∃ w' ptr r,
    release_buttons c = (set_pointer (mk_pointer (p_x (pointer c)) (p_y (pointer c)) 0)
      (set_world w' c), r) ∧ r ≠ Panic ∧
    accepted w' = accepted (ctx_world c) ++ ptr ∧
    (buttons (pointer c) = 0%N ∧ ptr = [] ∧ r = Ok () ∨
     ptr = (if is_ok r then [PointerEvent (p_x (pointer c)) (p_y (pointer c)) 0] else [])).
Proof.
  unfold release_buttons. rewrite comp_bind_run. cbn [gets fst snd].
  destruct (N.eqb_spec (buttons (pointer c)) 0) as [Hz|Hnz].
  - exists (ctx_world c), [], (Ok ()). rewrite app_nil_r. split_and!; try done; [|by left].
    destruct c as [w s ks [px py b]]. simpl in *. by rewrite Hz.
  - rewrite comp_bind_run. unfold attempt, zoom.
    pose proof (client_input_accepted
      (PointerEvent (p_x (pointer c)) (p_y (pointer c)) 0) (ctx_world c)) as Hacc.
    pose proof (client_input_no_panic
      (PointerEvent (p_x (pointer c)) (p_y (pointer c)) 0) (ctx_world c)) as Hpanic.
    destruct (client_input _ (ctx_world c)) as [w' [[]|err|]]; simpl in *; [| |done];
      rewrite comp_bind_run; simpl; eexists w', _, _; (split; [reflexivity|]).
    + split_and!; try done. by right.
    + split_and!; try done. by right.
Qed.

(** Both releases, and the first of their errors. *)
Lemma shutdown_inputs_run c :
  ∃ c1 ok (r1 : outcome anyhow ()) w2 ptr (r2 : outcome anyhow ()),
    shutdown_inputs c =
      (set_pointer (mk_pointer (p_x (pointer c)) (p_y (pointer c)) 0)
         (set_world w2 (set_keyboard [] c1)),
       match r1, r2 with Err e, _ => Err e | _, Err e => Err e | _, _ => Ok () end) ∧
    r1 ≠ Panic ∧ r2 ≠ Panic ∧
    released (keyboard c) None c ok (match r1 with Err e => Some e | _ => None end) c1 ∧
    accepted w2 = accepted (ctx_world c1) ++ ptr ∧
    (buttons (pointer c) = 0%N ∧ ptr = [] ∧ r2 = Ok () ∨
     ptr = (if is_ok r2 then [PointerEvent (p_x (pointer c)) (p_y (pointer c)) 0] else [])).
Proof.
  unfold shutdown_inputs. rewrite comp_bind_run. unfold attempt at 1 2 3.
  destruct (release_all_run c) as (c1 & ok & r1 & -> & Hr1 & Hrel).
  pose proof Hrel as (_ & _ & Hp & _).
  destruct (release_buttons_run (set_keyboard [] c1)) as (w2 & ptr & r2 & Hrun & Hr2 & Hw2 & Hcase).
  simpl in *. rewrite Hp in *. exists c1, ok, r1, w2, ptr, r2.
  split; [|done].
  destruct r1 as [[]|e1|]; [| |done]; simpl; rewrite comp_bind_run; unfold attempt;
    rewrite Hrun; by destruct r2 as [[]|e2|].
Qed.
End shutdown.

(** ** Properties *)

Section theorems.
Context `{VncWorldLaws W}.
Implicit Types c : InputCtx W.

(** The held keys and the pointer the session remembers are the server's.  If
  they agree with the events the engine has accepted (a key is in [pressed] exactly
  when its last accepted event was a press, the position is that of the last
  accepted pointer event, and the remembered buttons are its button bits), they
  still agree after a batch of inputs, whichever of its events the engine refuses
  and wherever the batch stops; and the batch always returns an action, so an
  engine error is reported, never raised. *)
Theorem handle_pending_inputs_tracks c :
tracks c →
tracks (handle_pending_inputs c).1 ∧ ∃ action, (handle_pending_inputs c).2 = Ok action.
Proof.
intros Hc. split; [by apply handle_pending_inputs_keeps|apply handle_pending_inputs_total].
Qed.

(** Over an engine that accepts its inputs, the loop over a batch does what the
  pure reading of the batch says: it sends the events of the inputs before the
  first [Close] or [Reconnect], in order and nothing more, and leaves the pointer,
  the held keys and the clipboard those inputs ask for. *)
Theorem handle_inputs_refines_reference l c :
(∀ e (w : W), (client_input e w).2 = Ok ()) →
∃ w', accepted w' = accepted (ctx_world c) ++ batch_events (pointer c) (until_stop l).1 ∧
  handle_inputs l c =
    (mk_ctx w' (foldl input_clipboard (latest_clipboard c) (until_stop l).1)
       (foldl input_keys (keyboard c) (until_stop l).1)
       (foldl input_pointer (pointer c) (until_stop l).1), Ok (until_stop l).2).
Proof. intros Haccepts. by apply handle_inputs_accepted. Qed.

(** Coalescing a batch drops exactly the mouse moves the next input supersedes,
  and is invisible: over an accepting engine the coalesced batch ends with the same
  action, pointer, held keys and clipboard as the whole batch, sends the same
  keyboard and clipboard events, and its events are those of the whole batch with
  some pointer events left out. *)
Theorem coalesce_remote_inputs_correct l :
coalesce_remote_inputs l = drop_superseded l ∧
∀ c, (∀ e (w : W), (client_input e w).2 = Ok ()) →
  let c1 := (handle_inputs (coalesce_remote_inputs l) c).1 in
  let c2 := (handle_inputs l c).1 in
  (handle_inputs (coalesce_remote_inputs l) c).2 = (handle_inputs l c).2 ∧
  pointer c1 = pointer c2 ∧ keyboard c1 = keyboard c2 ∧
  latest_clipboard c1 = latest_clipboard c2 ∧
  ∃ few all, advanced few c c1 ∧ advanced all c c2 ∧ few `sublist_of` all ∧
    filter (λ e, ¬ is_pointer_event e) few = filter (λ e, ¬ is_pointer_event e) all.
Proof.
assert (coalesce_remote_inputs l = drop_superseded l) as Hl.
{ unfold coalesce_remote_inputs. by rewrite coalesce_loop_spec. }
split; [done|]. intros c Haccepts. rewrite Hl. simpl.
destruct (handle_inputs_accepted Haccepts l c) as (w2 & Hw2 & ->).
destruct (handle_inputs_accepted Haccepts (drop_superseded l) c) as (w1 & Hw1 & ->).
rewrite drop_superseded_until_stop in *. simpl in *.
rewrite drop_superseded_pointer, drop_superseded_keys, drop_superseded_clipboard.
split_and!; try done. eexists _, _. split; [exact Hw1|]. split; [exact Hw2|].
apply drop_superseded_events.
Qed.

(** Closing a session lets go of everything.  From a session in step with the
  server, [shutdown_inputs] sends only key releases, in ascending order of the held
  keys, and then at most one release of the buttons; it ends with no key and no
  button remembered whatever the engine refused, does not panic, and when it
  reports success no key and no button is down at the server. *)
Theorem shutdown_inputs_releases c :
tracks c →
∃ ok ptr,
  ok `sublist_of` keyboard c ∧
  (ptr = [] ∨ ptr = [PointerEvent (p_x (pointer c)) (p_y (pointer c)) 0]) ∧
  advanced (releases ok ++ ptr) c (shutdown_inputs c).1 ∧
  keyboard (shutdown_inputs c).1 = [] ∧ buttons (pointer (shutdown_inputs c).1) = 0%N ∧
  (shutdown_inputs c).2 ≠ Panic ∧
  ((shutdown_inputs c).2 = Ok () →
    let log := accepted (ctx_world (shutdown_inputs c).1) in
    (∀ k, held_at log k = false) ∧ N.land (buttons (pointer_at log)) button_bits = 0%N).
Proof.
intros Hc.
destruct (shutdown_inputs_run c) as (c1 & ok & r1 & w2 & ptr & r2 & -> & Hr1 & Hr2 &
  (Hsub & Hadv & Hp & _ & Herr & Htr) & Hw2 & Hcase).
destruct (Htr Hc) as [Htr1 Hk1]. exists ok, ptr. split_and!; try done.
- destruct Hcase as [(_ & -> & _)| ->]; [by left|]. destruct r2; auto.
- unfold advanced in *. simpl. by rewrite Hw2, Hadv, app_assoc.
- simpl. by destruct r1, r2.
- intros Hok. simpl in *. assert (is_ok r1 = true ∧ is_ok r2 = true) as [Hok1 Hok2].
  { by destruct r1, r2. }
  destruct r1 as [[]| |]; try done. destruct (Herr eq_refl) as [_ ->]. rewrite Hok2 in Hcase.
  rewrite Hw2. split.
  + intros k. destruct (held_at (accepted (ctx_world c1) ++ ptr) k) eqn:Hk; [|done]. exfalso.
    assert (held_at (accepted (ctx_world c1)) k = true) as Hk'.
    { rewrite <-Hk. destruct Hcase as [(_ & -> & _)| ->]; [by rewrite app_nil_r|].
      by rewrite held_at_snoc. }
    apply (tracks_keys _ Htr1), Hk1 in Hk'. naive_solver.
  + destruct Hcase as [(Hz & -> & _)| ->].
    * by rewrite app_nil_r, (tracks_buttons _ Htr1), Hp.
    * by rewrite pointer_at_snoc.
Qed.
End theorems.

(** ** Witnesses *)

(** An engine that has accepted nothing yet. *)
Definition fresh (replies : list (outcome VncError ())) (inputs : list TryRecv) : InputCtx Script :=
  mk_ctx (mk_script replies [] inputs [] 0 []) None [] pointer_default.

(** The same after pressing [a] and the left button. *)
Definition pressed_ctx : InputCtx Script :=
  (handle_inputs [Key (KeySym 97) true; MouseButton Left true] (fresh [] [])).1.

Lemma fresh_tracks replies inputs : tracks (fresh replies inputs).
Proof. split; simpl; try done; [constructor|]. intros k. split; [by intros ?%not_elem_of_nil|done]. Qed.

Lemma handle_pending_inputs_tracks_witness :
  let c := fresh [Ok (); Err WrongServerMessage]
    [Input (Key (KeySym 97) true); Input (MouseButton Left true); Empty] in
  tracks (handle_pending_inputs c).1 ∧ keyboard (handle_pending_inputs c).1 = [97%N].
Proof.
  split; [|reflexivity].
  apply (handle_pending_inputs_tracks (fresh [Ok (); Err WrongServerMessage]
    [Input (Key (KeySym 97) true); Input (MouseButton Left true); Empty])), fresh_tracks.
Defined.

(** An engine that accepts everything, and a clock. *)
Record Accepting := mk_accepting { ac_log : list X11Event; ac_time : N }.

#[export] Instance accepting_world : VncWorld Accepting := {|
  client_input e w := (mk_accepting (ac_log w ++ [e]) (ac_time w), Ok ());
  client_poll_event w := (w, Ok None);
  client_close w := (w, Ok ());
  input_try_recv w := (w, Empty);
  now w := (w, ac_time w);
  sleep d w := mk_accepting (ac_log w) (ac_time w + d);
  connect_vnc _ w := (mk_accepting [] (ac_time w), Ok ());
  vnc_error_display _ := EmptyString;
  accepted := ac_log;
|}.

#[export] Instance accepting_laws : VncWorldLaws Accepting.
Proof. by split. Qed.

Definition idle : InputCtx Accepting := mk_ctx (mk_accepting [] 0) None [] pointer_default.

Lemma handle_inputs_refines_reference_witness :
  ∃ w', accepted w' = [PointerEvent 3 4 0; PointerEvent 3 4 16; PointerEvent 3 4 0]%N ∧
    handle_inputs [MouseMove 3 4; Wheel true 120; Close; MouseMove 5 6] idle =
      (mk_ctx w' None [] (mk_pointer 3 4 0), Ok Closed).
Proof.
  exact (handle_inputs_refines_reference [MouseMove 3 4; Wheel true 120; Close; MouseMove 5 6]
    idle (λ _ _, eq_refl)).
Defined.

Lemma coalesce_remote_inputs_correct_witness :
  coalesce_remote_inputs [MouseMove 1 1; MouseMove 2 2; Key (KeySym 97) true; MouseMove 3 3] =
    [MouseMove 2 2; Key (KeySym 97) true; MouseMove 3 3] ∧
  pointer (handle_inputs (coalesce_remote_inputs [MouseMove 1 1; MouseMove 2 2]) idle).1 =
    pointer (handle_inputs [MouseMove 1 1; MouseMove 2 2] idle).1.
Proof.
  split.
  - apply (coalesce_remote_inputs_correct (W:=Accepting)
      [MouseMove 1 1; MouseMove 2 2; Key (KeySym 97) true; MouseMove 3 3]).
  - apply (coalesce_remote_inputs_correct (W:=Accepting) [MouseMove 1 1; MouseMove 2 2]).
    reflexivity.
Defined.

Lemma shutdown_inputs_releases_witness :
  keyboard pressed_ctx = [97%N] ∧ buttons (pointer pressed_ctx) = 1%N ∧
  held_at (accepted (ctx_world (shutdown_inputs pressed_ctx).1)) 97 = false.
Proof.
  split; [reflexivity|]. split; [reflexivity|].
  destruct (shutdown_inputs_releases pressed_ctx) as (ok & ptr & _ & _ & _ & _ & _ & _ & Hok).
  - apply handle_inputs_keeps, fresh_tracks.
  - by apply Hok.
Defined.
