(* ===== verification/VncSession.v ===== *)
(** * A connected VNC session

    vnc-helper/src/vnc_encoding.rs: server events patch the framebuffer, a flush
    sends what changed, and a watchdog decides when to ask the server for updates.
    The calls run in [SessionCtx]: the input context of VncInput.v, the session's own
    fields, and the calls made so far on the [OutputSender], as labels of the mailbox
    ([LSend] and [LBegin]; [output_tx.send]'s result is ignored by the session).

    Instants are in milliseconds; [duration_since] saturates at zero, as the
    subtraction on [N] does. *)

From S2P Require Import Prelude Framebuffer VncRuntime Viewer VncMailbox VncClient.
From S2P Require Import VncClipboard VncInput.

Definition VNC_REFRESH_INTERVAL : N := 33.
Definition VNC_REFRESH_RESPONSE_TIMEOUT : N := 500.
Definition VNC_LIVENESS_TIMEOUT : N := 15000.
Definition VNC_LIVENESS_PROBE_TIMEOUT : N := 5000.
Definition MAX_SERVER_EVENTS_PER_POLL : nat := 256.

Inductive RefreshAction := ActWait | ActIncremental | ActLivenessProbe | ActReconnectNow.

Definition duration_since (later earlier : N) : N := (later - earlier)%N.

Definition should_poll_server_event (processed : nat) : bool :=
  processed <? MAX_SERVER_EVENTS_PER_POLL.

Definition refresh_action (now last_refresh last_server_activity : N)
    (refresh_in_flight_since liveness_probe_since : option N) : RefreshAction :=
  match liveness_probe_since with
  | Some probe_since =>
      if (VNC_LIVENESS_PROBE_TIMEOUT <=? duration_since now probe_since)%N
      then ActReconnectNow else ActWait
  | None =>
      if match refresh_in_flight_since with
         | Some sent_at => (duration_since now sent_at <? VNC_REFRESH_RESPONSE_TIMEOUT)%N
         | None => false
         end then ActWait
      else if (VNC_LIVENESS_TIMEOUT <=? duration_since now last_server_activity)%N
      then ActLivenessProbe
      else if (duration_since now last_refresh <? VNC_REFRESH_INTERVAL)%N then ActWait
      else ActIncremental
  end.

(** ** State *)

Record VncFramebufferState := mk_fb_state {
  framebuffer : option RgbaFramebuffer;
  keyframe : bool;
  dirty_rects : list Rect;
}.

Definition fb_state_default : VncFramebufferState := mk_fb_state None false [].

(** The fields of [ConnectedVncSession] other than the client, the keyboard and the
    pointer, which the input context holds. *)
Record ConnectedVncSession := mk_session {
  was_connected : bool;
  fb_state : VncFramebufferState;
  last_refresh : N;
  last_server_activity : N;
  refresh_in_flight_since : option N;
  liveness_probe_since : option N;
}.

(** [ConnectedVncSession::new], at an instant. *)
Definition new_session (now : N) : ConnectedVncSession :=
  mk_session false fb_state_default now now None None.

Record SessionCtx (W : Type) := mk_sctx {
  s_input : InputCtx W;
  s_session : ConnectedVncSession;
  s_out : list Label;
}.
Arguments mk_sctx {W}.
Arguments s_input {W}.
Arguments s_session {W}.
Arguments s_out {W}.

Definition vnc_capabilities : RemoteDesktopCapabilities :=
  mk_capabilities LocalScaleOnly true false (cap_audio vnc_mvp) (cap_file_transfer vnc_mvp).

Definition frame_rect_of (r : Rect) : RemoteDesktopFrameRect :=
  mk_frame_rect (r_x r) (r_y r) (r_width r) (r_height r)
    (N.of_nat (usz (r_width r) * usz (r_height r) * 4)).

(** [for rect in &rects { bgra.extend(..) }]. *)
Fixpoint clone_rects {E} (fb : RgbaFramebuffer) (rects : list RemoteDesktopFrameRect)
    (bgra : bytes) : outcome E bytes :=
  match rects with
  | [] => Ok bgra
  | r :: rects' =>
      px ← clone_bgra_rect fb (fr_x r) (fr_y r) (fr_width r) (fr_height r);
      clone_rects fb rects' (bgra ++ px)
  end.

(** ** Operations *)

Section session.
Context `{VncWorld W}.
Abbreviation io := (comp (SessionCtx W) string).

Definition set_input (i : InputCtx W) (c : SessionCtx W) : SessionCtx W :=
  mk_sctx i (s_session c) (s_out c).
Definition set_session (s : ConnectedVncSession) (c : SessionCtx W) : SessionCtx W :=
  mk_sctx (s_input c) s (s_out c).
Definition set_fb_state (f : VncFramebufferState) (c : SessionCtx W) : SessionCtx W :=
  let s := s_session c in
  set_session (mk_session (was_connected s) f (last_refresh s) (last_server_activity s)
    (refresh_in_flight_since s) (liveness_probe_since s)) c.
Definition get_fb_state (c : SessionCtx W) : VncFramebufferState := fb_state (s_session c).

(** A call on the world inside the input context. *)
Definition on_world {E A} (m : comp W E A) : comp (SessionCtx W) E A :=
  zoom s_input set_input (zoom ctx_world set_world m).

Definition out_send {E} (o : RemoteDesktopOutput) : comp (SessionCtx W) E () :=
  modify (λ c, mk_sctx (s_input c) (s_session c) (s_out c ++ [LSend o true])).

Definition send_clipboard (t : text) : io () := out_send (ClipboardText t).
Definition send_status {E} (message : string) : comp (SessionCtx W) E () :=
  out_send (Status message).

(** [VncFramebufferState::set_resolution]. *)
Definition fb_set_resolution (screen : Screen) : io () :=
  modify (set_fb_state
    (mk_fb_state (Some (new_framebuffer (s_width screen) (s_height screen))) true []));;
  out_send (Connected (s_width screen) (s_height screen) vnc_capabilities).

(** [VncFramebufferState::patch_rect]. *)
Definition fb_patch_rect (rect : Rect) (data : bytes) : io () :=
  f ← gets get_fb_state;
  match framebuffer f with
  | None => mret ()
  | Some fb =>
      fb' ← lift_outcome
        (patch_rgba_rect fb (r_x rect) (r_y rect) (r_width rect) (r_height rect) data);
      modify (set_fb_state (mk_fb_state (Some fb') (keyframe f) (dirty_rects f ++ [rect])))
  end.

(** [VncFramebufferState::copy_rect]. *)
Definition fb_copy_rect (dst src : Rect) : io () :=
  f ← gets get_fb_state;
  match framebuffer f with
  | None => mret ()
  | Some fb =>
      fb' ← lift_outcome
        (copy_rect fb (r_x src) (r_y src) (r_x dst) (r_y dst) (r_width dst) (r_height dst));
      modify (set_fb_state (mk_fb_state (Some fb') (keyframe f) (dirty_rects f ++ [dst])))
  end.

(** [VncFramebufferState::flush_frame]. *)
Definition flush_frame : io () :=
  f ← gets get_fb_state;
  match framebuffer f with
  | None => mret ()
  | Some fb =>
      match dirty_rects f with
      | [] => mret ()
      | _ =>
          if keyframe f then
            out_send (Frame (fb_width fb) (fb_height fb) (clone_bgra fb));;
            modify (set_fb_state (mk_fb_state (Some fb) false []))
          else
            let rects := frame_rect_of <$> dirty_rects f in
            modify (set_fb_state (mk_fb_state (Some fb) (keyframe f) []));;
            bgra ← lift_outcome (clone_rects fb rects []);
            out_send (FrameBgraRects (fb_width fb) (fb_height fb) rects bgra)
      end
  end.

Definition mark_connected (s : ConnectedVncSession) : ConnectedVncSession :=
  mk_session true (fb_state s) (last_refresh s) (last_server_activity s)
    (refresh_in_flight_since s) (liveness_probe_since s).

(** [ConnectedVncSession::set_resolution]. *)
Definition set_resolution (screen : Screen) : io () :=
  fb_set_resolution screen;;
  modify (λ c, set_session (mark_connected (s_session c)) c).

Definition handle_event (event : VncEvent) : io () :=
  match event with
  | SetResolution screen => set_resolution screen
  | RawImage rect data => fb_patch_rect rect data
  | Copy dst src => fb_copy_rect dst src
  | EvText t => send_clipboard t
  | CutTextBytes bs =>
      match decode_clipboard_text bs with
      | Some t => send_clipboard t
      | None => mret ()
      end
  | EvError message => throw message
  | JpegImage _ _ => send_status "VNC JPEG rectangles are not enabled"
  | SetCursor _ _ => mret ()
  | Bell | SetPixelFormat => mret ()
  end.

Definition note_activity (now : N) (s : ConnectedVncSession) : ConnectedVncSession :=
  mk_session (was_connected s) (fb_state s) (last_refresh s) now None None.

(** [while should_poll_server_event(processed)]; [fuel] bounds the iterations. *)
Fixpoint poll_loop (fuel processed : nat) : io () :=
  match fuel with
  | 0 => mret ()
  | S fuel' =>
      if should_poll_server_event processed then
        event ← map_err_comp vnc_error_display (on_world client_poll_event);
        match event with
        | None => mret ()
        | Some event =>
            t ← on_world (total now);
            modify (λ c, set_session (note_activity t (s_session c)) c);;
            handle_event event;;
            poll_loop fuel' (S processed)
        end
      else mret ()
  end.

Definition poll_events : io () :=
  poll_loop (S MAX_SERVER_EVENTS_PER_POLL) 0;;
  flush_frame.

Definition client_event (e : X11Event) : io () :=
  map_err_comp vnc_error_display (on_world (client_input e)).

Definition request_initial_refresh : io () := client_event FullRefresh.

Definition note_refresh (now : N) (probe : option N) (s : ConnectedVncSession)
    : ConnectedVncSession :=
  mk_session (was_connected s) (fb_state s) now (last_server_activity s) (Some now) probe.

Definition session_refresh_action (now : N) (s : ConnectedVncSession) : RefreshAction :=
  refresh_action now (last_refresh s) (last_server_activity s)
    (refresh_in_flight_since s) (liveness_probe_since s).

Definition refresh_if_needed : io () :=
  t ← on_world (total now);
  s ← gets s_session;
  match session_refresh_action t s with
  | ActWait => mret ()
  | ActReconnectNow => throw "VNC liveness probe timed out"
  | ActIncremental =>
      client_event Refresh;;
      modify (λ c, set_session
        (note_refresh t (liveness_probe_since (s_session c)) (s_session c)) c)
  | ActLivenessProbe =>
      client_event FullRefresh;;
      modify (λ c, set_session (note_refresh t (Some t) (s_session c)) c)
  end.
End session.

(** ** What a host on a direct line sees *)

(** A screen of channels; a rectangle replaces what it covers. *)
Definition pixel_screen : Type := nat → nat → nat → option N.

Definition in_rect (x y w h : N) (i j : nat) : bool :=
  (usz x <=? i) && (i <? usz x + usz w) && (usz y <=? j) && (j <? usz y + usz h).

#[export] Instance pixel_viewer : Viewer pixel_screen := {|
  show_frame w h px := λ i j c, rect_byte px w i j c;
  paint v r px := λ i j c,
    if in_rect (pr_x r) (pr_y r) (pr_width r) (pr_height r) i j
    then rect_byte px (pr_width r) (i - usz (pr_x r)) (j - usz (pr_y r)) c
    else v i j c;
|}.

Definition covered (rects : list Rect) (i j : nat) : bool :=
  existsb (λ r, in_rect (r_x r) (r_y r) (r_width r) (r_height r) i j) rects.

(** The screen shows the framebuffer, red and blue exchanged, wherever no rectangle of
    the list is. *)
Definition shows_except (fb : RgbaFramebuffer) (v : pixel_screen) (rects : list Rect) : Prop :=
  ∀ i j c, i < usz (fb_width fb) → j < usz (fb_height fb) → c < 4 →
    covered rects i j = false → v i j c = fb_byte fb i j (bgra_channel c).

Definition inside (fb : RgbaFramebuffer) (r : Rect) : Prop :=
  rect_inside fb (r_x r) (r_y r) (r_width r) (r_height r).

(** The framebuffer is well formed, its dirty rectangles lie in it, and once a
    keyframe has been sent, a direct line shows it up to the dirty rectangles. *)
Definition fb_state_inv (f : VncFramebufferState) (d : direct_state (V:=pixel_screen)) : Prop :=
  match framebuffer f with
  | None => True
  | Some fb =>
      fb_wf fb ∧ fb_small fb ∧ Forall (inside fb) (dirty_rects f) ∧ open d = true ∧
      (keyframe f = false → ∃ v, screen d = Some (v, (fb_width fb, fb_height fb)) ∧
         shows_except fb v (dirty_rects f))
  end.

Definition session_inv {W} (c : SessionCtx W) : Prop :=
  fb_state_inv (get_fb_state c) (direct (s_out c)) ∧ Forall label_wf (s_out c).

(** ** Lemmas: rectangles *)

Lemma covered_app r1 r2 i j : covered (r1 ++ r2) i j = covered r1 i j || covered r2 i j.
Proof. apply existsb_app. Qed.

Lemma in_rect_true x y w h i j :
  in_rect x y w h i j = true ↔
  usz x ≤ i < usz x + usz w ∧ usz y ≤ j < usz y + usz h.
Proof.
  unfold in_rect. rewrite !andb_true_iff, !Nat.leb_le, !Nat.ltb_lt. lia.
Qed.

(** A successful patch or copy: the new framebuffer differs inside the rectangle only. *)
Definition patched_inside (fb : RgbaFramebuffer) (r : Rect) (fb' : RgbaFramebuffer) : Prop :=
  fb_wf fb' ∧ fb_small fb' ∧ fb_width fb' = fb_width fb ∧ fb_height fb' = fb_height fb ∧
  inside fb' r ∧
  ∀ i j c, i < usz (fb_width fb) → j < usz (fb_height fb) → c < 4 →
    in_rect (r_x r) (r_y r) (r_width r) (r_height r) i j = false →
    fb_byte fb' i j c = fb_byte fb i j c.

Lemma rows_patched_inside fb r px fb' :
  fb_small fb → inside fb r → fb_wf fb' →
  fb_width fb' = fb_width fb → fb_height fb' = fb_height fb →
  rows_patched fb (r_x r) (r_y r) (r_width r) px (usz (r_height r)) (fb_rgba fb') →
  patched_inside fb r fb'.
Proof.
  intros Hsm Hin Hwf Hw Hh [_ Hrows].
  unfold patched_inside, fb_small, inside, rect_inside in *. rewrite Hw, Hh.
  repeat (split; [done|]). intros i j c Hi Hj Hc Hout. unfold fb_byte at 1.
  rewrite Hw, Hrows by done. rewrite decide_False; [done|]. intros Hir.
  apply not_true_iff_false in Hout. by apply Hout, in_rect_true.
Qed.

Lemma patch_rgba_rect_cases fb r px :
  fb_wf fb → fb_small fb →
  (∃ e, patch_rgba_rect fb (r_x r) (r_y r) (r_width r) (r_height r) px = Err e) ∨
  (∃ fb', patch_rgba_rect fb (r_x r) (r_y r) (r_width r) (r_height r) px = Ok fb' ∧
     patched_inside fb r fb').
Proof.
  intros Hwf Hsm.
  destruct (decide (length px = usz (r_width r) * usz (r_height r) * 4 ∧
    (r_x r + r_width r <= fb_width fb ∧ r_y r + r_height r <= fb_height fb)%N)) as [[Hl Hin]|Hno].
  - right. destruct (patch_rgba_rect_ok _ _ _ _ _ _ Hwf Hl Hin)
      as (fb' & Hok & Hwf' & Hw & Hh & Hrows).
    exists fb'. split; [done|]. by eapply rows_patched_inside.
  - left. by apply patch_rgba_rect_err.
Qed.

Lemma copy_rect_cases fb dst src :
  fb_wf fb → fb_small fb →
  (∃ e, copy_rect fb (r_x src) (r_y src) (r_x dst) (r_y dst) (r_width dst) (r_height dst) = Err e) ∨
  (∃ fb', copy_rect fb (r_x src) (r_y src) (r_x dst) (r_y dst) (r_width dst) (r_height dst) = Ok fb' ∧
     patched_inside fb dst fb').
Proof.
  intros Hwf Hsm.
  destruct (decide (((r_x src + r_width dst <= fb_width fb ∧
      r_y src + r_height dst <= fb_height fb) ∧
    (r_x dst + r_width dst <= fb_width fb ∧ r_y dst + r_height dst <= fb_height fb))%N))
    as [[Hs Hd]|Hno].
  - right. destruct (copy_rect_ok fb (r_x src) (r_y src) (r_x dst) (r_y dst) (r_width dst)
      (r_height dst) Hwf Hs Hd) as (px & fb' & Hok & _ & Hwf' & Hw & Hh & Hrows).
    exists fb'. split; [done|]. by eapply rows_patched_inside.
  - left. by apply copy_rect_err.
Qed.

(** Painting the dirty rectangles with the framebuffer's bytes brings a screen up to
    date, whatever their overlaps. *)
Lemma clone_rects_spec {E} fb rects acc :
  fb_wf fb → Forall (inside fb) rects →
  ∃ bgra, clone_rects (E:=E) fb (frame_rect_of <$> rects) acc = Ok (acc ++ bgra) ∧
    rect_bytes (pic_rect_of <$> (frame_rect_of <$> rects)) = length bgra ∧
    ∀ v, shows_except fb v rects →
      shows_except fb (paint_rects v (pic_rect_of <$> (frame_rect_of <$> rects)) bgra) [].
Proof.
  intros Hwf Hin. revert acc. induction Hin as [|r rects Hr Hin IH]; intros acc.
  { exists []. by rewrite app_nil_r. }
  destruct (clone_bgra_rect_spec (E:=E) fb _ _ _ _ Hwf Hr) as (px & Hpx & Hlen & Hbytes).
  destruct (IH (acc ++ px)) as (bgra & Hbgra & Hsum & Hshow).
  exists (px ++ bgra). cbn [fmap list_fmap clone_rects frame_rect_of fr_x fr_y fr_width fr_height].
  unfold mbind, outcome_bind. rewrite Hpx. split; [by rewrite app_assoc|].
  cbn [rect_bytes paint_rects pic_rect_of pr_byte_len].
  assert (usz (fr_byte_len (frame_rect_of r)) = length px) as -> by (simpl; by rewrite Nat2N.id).
  split; [rewrite length_app; f_equal; exact Hsum|].
  intros v Hv. rewrite take_app_length, drop_app_length. apply Hshow.
  intros i j c Hi Hj Hc Hcov. cbn [paint pixel_viewer pr_x pr_y pr_width pr_height].
  destruct (in_rect (r_x r) (r_y r) (r_width r) (r_height r) i j) eqn:Hir; simpl in *;
    rewrite Hir.
  - apply in_rect_true in Hir. rewrite Hbytes by lia. f_equal; lia.
  - apply Hv; try done. simpl. by rewrite Hir.
Qed.

(** ** Lemmas: the invariant *)

Section invariant.
Context `{VncWorldLaws W}.
Implicit Types c : SessionCtx W.

(** Screens below the [u16] maximum, where the framebuffer's guards are exact. *)
Definition small_screen (s : Screen) : Prop := (s_width s < u16_max ∧ s_height s < u16_max)%N.
Definition small_event (e : VncEvent) : Prop :=
  match e with SetResolution s => small_screen s | _ => True end.

Definition sound {E A} (m : comp (SessionCtx W) E A) : Prop :=
  ∀ c, session_inv c → session_inv (m c).1 ∧ (m c).2 ≠ Panic.

Lemma sound_bind {E A B} (m : comp (SessionCtx W) E A) (f : A → comp (SessionCtx W) E B) :
  sound m → (∀ a, sound (f a)) → sound (m ≫= f).
Proof.
  intros Hm Hf c Hc. rewrite comp_bind_run. destruct (Hm c Hc) as [Hinv Hp].
  destruct (m c) as [c' []]; simpl in *; [by apply Hf|done|done].
Qed.

Lemma sound_pure {E A} (r : outcome E A) : r ≠ Panic → sound (λ c, (c, r)).
Proof. by intros Hr c Hc. Qed.

(** Calls that leave the framebuffer and the outputs alone. *)
Lemma sound_frame {E A} (m : comp (SessionCtx W) E A) :
  (∀ c, get_fb_state (m c).1 = get_fb_state c ∧ s_out (m c).1 = s_out c ∧ (m c).2 ≠ Panic) →
  sound m.
Proof.
  intros Hm c [Hf Hl]. destruct (Hm c) as (H1 & H2 & H3).
  split; [|done]. unfold session_inv. by rewrite H1, H2.
Qed.

Lemma session_inv_send c o :
  label_wf (LSend o true) →
  fb_state_inv (get_fb_state c) (direct_step (direct (s_out c)) (LSend o true)) →
  Forall label_wf (s_out c) →
  session_inv (mk_sctx (s_input c) (s_session c) (s_out c ++ [LSend o true])).
Proof.
  intros Hwf Hf Hl. split; simpl.
  - unfold direct. by rewrite foldl_app.
  - apply Forall_app. by split; [|repeat constructor].
Qed.

(** Messages without a picture. *)
Lemma out_send_sound {E} o :
  picture_of o = NoPicture → is_barrier o = false → is_connected o = false →
  sound (out_send (E:=E) o).
Proof.
  intros Hpic Hb Hconn c [Hf Hl]. split; [|done]. apply session_inv_send; [|simpl|done].
  - simpl. by rewrite Hpic.
  - rewrite Hb, Hconn, Hpic. simpl.
    unfold fb_state_inv in *. destruct (framebuffer _); [|done].
    destruct Hf as (H1 & H2 & H3 & Hopen & H5). by rewrite Hopen.
Qed.

(** A successful change of the framebuffer inside one more dirty rectangle. *)
Lemma session_inv_patched c fb r fb' :
  session_inv c → framebuffer (get_fb_state c) = Some fb → patched_inside fb r fb' →
  session_inv (set_fb_state (mk_fb_state (Some fb') (keyframe (get_fb_state c))
    (dirty_rects (get_fb_state c) ++ [r])) c).
Proof.
  intros [Hf Hl] Hfb (Hwf & Hsm & Hw & Hh & Hin & Hbytes). split; [|done].
  unfold fb_state_inv in *. rewrite Hfb in Hf. simpl.
  destruct Hf as (_ & _ & Hd & Hopen & Hkey). split_and!; [done..| | |].
  - apply Forall_app. split; [|by apply Forall_singleton].
    eapply Forall_impl; [exact Hd|]. unfold inside, rect_inside. intros x. by rewrite Hw, Hh.
  - done.
  - intros Hk. destruct (Hkey Hk) as (v & Hv & Hshow). exists v. rewrite Hw, Hh.
    split; [done|]. intros i j ch Hi Hj Hch. rewrite Hw, Hh in *.
    rewrite covered_app, orb_false_iff. intros [Hc1 Hc2]. simpl in Hc2.
    rewrite orb_false_r in Hc2. rewrite Hbytes; [by apply Hshow|done|done| |done].
    destruct ch as [|[|[|[|ch]]]]; simpl; lia.
Qed.

Lemma fb_patch_rect_sound r data : sound (fb_patch_rect (W:=W) r data).
Proof.
  intros c Hc. unfold fb_patch_rect. rewrite comp_bind_run. cbn [gets fst snd].
  destruct (framebuffer (get_fb_state c)) as [fb|] eqn:Hfb; [|done].
  pose proof Hc as [Hf _]. unfold fb_state_inv in Hf. rewrite Hfb in Hf.
  destruct Hf as (Hwf & Hsm & _). rewrite comp_bind_run. unfold lift_outcome.
  destruct (patch_rgba_rect_cases fb r data Hwf Hsm) as [[e ->]|(fb' & -> & Hp)]; [done|].
  split; [|done]. by eapply session_inv_patched.
Qed.

Lemma fb_copy_rect_sound dst src : sound (fb_copy_rect (W:=W) dst src).
Proof.
  intros c Hc. unfold fb_copy_rect. rewrite comp_bind_run. cbn [gets fst snd].
  destruct (framebuffer (get_fb_state c)) as [fb|] eqn:Hfb; [|done].
  pose proof Hc as [Hf _]. unfold fb_state_inv in Hf. rewrite Hfb in Hf.
  destruct Hf as (Hwf & Hsm & _). rewrite comp_bind_run. unfold lift_outcome.
  destruct (copy_rect_cases fb dst src Hwf Hsm) as [[e ->]|(fb' & -> & Hp)]; [done|].
  split; [|done]. by eapply session_inv_patched.
Qed.

Lemma set_resolution_sound s : small_screen s → sound (set_resolution (W:=W) s).
Proof.
  intros Hs c [Hf Hl]. split; [|done]. split; simpl.
  - unfold direct. rewrite foldl_app. simpl.
    split_and!; [apply new_framebuffer_wf|exact Hs|done|done|done].
  - apply Forall_app. split; [done|]. by repeat constructor.
Qed.

Lemma handle_event_sound e : small_event e → sound (handle_event (W:=W) e).
Proof.
  intros He. destruct e as [s| | | | | | |t|bs|]; simpl.
  - by apply set_resolution_sound.
  - by apply sound_pure.
  - apply fb_patch_rect_sound.
  - apply fb_copy_rect_sound.
  - by apply out_send_sound.
  - by apply sound_pure.
  - by apply sound_pure.
  - by apply out_send_sound.
  - destruct (decode_clipboard_text bs); [by apply out_send_sound|by apply sound_pure].
  - by apply sound_pure.
Qed.

(** After a flush no rectangle is dirty. *)
Lemma flush_frame_run c :
  session_inv c →
  session_inv (flush_frame c).1 ∧ (flush_frame c).2 = Ok () ∧
  (framebuffer (get_fb_state c) ≠ None → dirty_rects (get_fb_state (flush_frame c).1) = []).
Proof.
  intros Hc. unfold flush_frame. rewrite comp_bind_run. cbn [gets fst snd].
  pose proof Hc as [Hf Hl]. unfold fb_state_inv in Hf.
  destruct (framebuffer (get_fb_state c)) as [fb|] eqn:Hfb; [|done].
  destruct Hf as (Hwf & Hsm & Hd & Hopen & Hkey).
  destruct (dirty_rects (get_fb_state c)) as [|r rs] eqn:Hrs; [done|].
  destruct (keyframe (get_fb_state c)) eqn:Hk.
  - split; [|done]. split; [|apply Forall_app; split; [done|by repeat constructor]].
    simpl. unfold direct. rewrite foldl_app. simpl. fold (direct (V:=pixel_screen) (s_out c)).
    rewrite Hopen. split_and!; try done. intros _. eexists. split; [done|].
    intros i j ch Hi Hj Hch _. by apply clone_bgra_lookup.
  - rewrite comp_bind_run. cbn [modify fst snd]. rewrite comp_bind_run. unfold lift_outcome.
    destruct (clone_rects_spec (E:=string) fb (r :: rs) [] Hwf Hd) as (bgra & -> & Hsum & Hshow).
    cbn [fst snd]. split; [|done].
    split; [|apply Forall_app; split; [done|repeat constructor; exact Hsum]].
    simpl. unfold direct. rewrite foldl_app. simpl. fold (direct (V:=pixel_screen) (s_out c)).
    rewrite Hopen. simpl. destruct (Hkey eq_refl) as (v & Hv & Hs). rewrite Hv.
    rewrite decide_True by done. split_and!; try done. intros _. eexists. split; [done|].
    by apply Hshow.
Qed.

Lemma handle_event_world e c :
  s_input (handle_event (W:=W) e c).1 = s_input c.
Proof.
  destruct e as [s| | | | | | |t|bs|]; simpl; try done.
  - unfold fb_patch_rect. rewrite comp_bind_run. cbn [gets fst snd].
    destruct (framebuffer _); [|done]. rewrite comp_bind_run. unfold lift_outcome.
    by destruct (patch_rgba_rect _ _ _ _ _ _).
  - unfold fb_copy_rect. rewrite comp_bind_run. cbn [gets fst snd].
    destruct (framebuffer _); [|done]. rewrite comp_bind_run. unfold lift_outcome.
    by destruct (Framebuffer.copy_rect _ _ _ _ _ _ _).
  - by destruct (decode_clipboard_text bs).
Qed.

(** The servers considered: in the worlds of [I], which polling and reading the
    clock do not leave, no event asks for a screen of the greatest size. *)
Definition small_server (I : W → Prop) : Prop :=
  ∀ w, I w → I (client_poll_event w).1 ∧ I (now w).1 ∧
    ∀ e, (client_poll_event w).2 = Ok (Some e) → small_event e.

Lemma poll_loop_sound I fuel n c :
  small_server I → I (ctx_world (s_input c)) → session_inv c →
  session_inv (poll_loop fuel n c).1 ∧ (poll_loop fuel n c).2 ≠ Panic.
Proof.
  intros HI. revert n c. induction fuel as [|fuel IH]; intros n c Hw Hc; [done|]. simpl.
  destruct (should_poll_server_event n); [|done]. rewrite comp_bind_run.
  unfold map_err_comp, on_world, zoom. cbn [fst snd].
  pose proof (client_poll_no_panic (ctx_world (s_input c))) as Hp.
  destruct (HI _ Hw) as (Hw1 & _ & Hsmall).
  destruct (client_poll_event (ctx_world (s_input c))) as [w' [[e|]|err|]]; simpl in *; try done.
  rewrite comp_bind_run. cbn [total fst snd]. rewrite comp_bind_run. cbn [modify fst snd].
  rewrite comp_bind_run. match goal with |- context [handle_event e ?c1] => set (c1' := c1) end.
  assert (session_inv c1') as Hc1 by exact Hc.
  pose proof (handle_event_world e c1') as Hin.
  destruct (handle_event_sound e (Hsmall e eq_refl) c1' Hc1) as [Hc2 Hp2].
  destruct (handle_event e c1') as [c2 [[]|m|]]; simpl in *; [|done|done].
  apply IH; [|done]. rewrite Hin. simpl. by apply HI.
Qed.

Lemma poll_events_inv I c :
  small_server I → I (ctx_world (s_input c)) → session_inv c →
  session_inv (poll_events c).1 ∧ (poll_events c).2 ≠ Panic ∧
  ((poll_events c).2 = Ok () → framebuffer (get_fb_state (poll_events c).1) ≠ None →
     dirty_rects (get_fb_state (poll_events c).1) = []).
Proof.
  intros Hsmall Hw Hc. unfold poll_events. rewrite comp_bind_run.
  destruct (poll_loop_sound I (S MAX_SERVER_EVENTS_PER_POLL) 0 c Hsmall Hw Hc) as [Hinv Hp].
  destruct (poll_loop _ 0 c) as [c1 [[]|e|]]; simpl in *; [|done|done].
  destruct (flush_frame_run c1 Hinv) as (Hinv' & Hok & Hd).
  rewrite Hok. split_and!; try done. intros _ Hsome. apply Hd. intros Hnone. apply Hsome.
  unfold flush_frame. rewrite comp_bind_run. cbn [gets fst snd]. by rewrite Hnone.
Qed.
End invariant.

(** ** Lemmas: the watchdog *)

Section watchdog.
Context `{VncWorldLaws W}.
Implicit Types c : SessionCtx W.

(** What a successful call has done to the session, at the instant it read. *)
Definition refreshed (t : N) (s s' : ConnectedVncSession) : Prop :=
  match session_refresh_action t s with
  | ActWait => s' = s
  | ActReconnectNow => False
  | ActIncremental => s' = note_refresh t (liveness_probe_since s) s
  | ActLivenessProbe => s' = note_refresh t (Some t) s
  end.

Definition read_now c : N := (now (ctx_world (s_input c))).2.

(** The context once the clock has been read. *)
Definition after_now c : SessionCtx W :=
  set_input (set_world (now (ctx_world (s_input c))).1 (s_input c)) c.

Lemma refresh_if_needed_eq c :
  refresh_if_needed c =
    match session_refresh_action (read_now c) (s_session c) with
    | ActWait => (after_now c, Ok ())
    | ActReconnectNow => (after_now c, Err "VNC liveness probe timed out"%string)
    | ActIncremental =>
        (client_event Refresh;; modify (λ c', set_session
          (note_refresh (read_now c) (liveness_probe_since (s_session c')) (s_session c')) c'))
          (after_now c)
    | ActLivenessProbe =>
        (client_event FullRefresh;; modify (λ c', set_session
          (note_refresh (read_now c) (Some (read_now c)) (s_session c')) c')) (after_now c)
    end.
Proof.
  unfold refresh_if_needed, read_now, after_now. rewrite comp_bind_run.
  unfold on_world at 1 2 3, total, zoom. cbn [fst snd]. rewrite comp_bind_run.
  cbn [gets fst snd]. by destruct (session_refresh_action _ (s_session _)).
Qed.

(** Sending an event fails with the engine's message or goes through. *)
Lemma client_event_run e c :
  (∃ w', client_event e c = (set_input (set_world w' (s_input c)) c, Ok ())) ∨
  (∃ w' m, (client_input e (ctx_world (s_input c))).2 = Err m ∧
     client_event e c =
       (set_input (set_world w' (s_input c)) c, Err (vnc_error_display m))).
Proof.
  unfold client_event, map_err_comp, on_world, zoom.
  pose proof (client_input_no_panic e (ctx_world (s_input c))) as Hp.
  destruct (client_input e (ctx_world (s_input c))) as [w' [[]|m|]]; simpl in *; [| |done].
  - left. by exists w'.
  - right. by exists w', m.
Qed.

Lemma refresh_if_needed_ok c :
  (refresh_if_needed c).2 = Ok () →
  refreshed (read_now c) (s_session c) (s_session (refresh_if_needed c).1).
Proof.
  rewrite refresh_if_needed_eq. unfold refreshed.
  destruct (session_refresh_action (read_now c) (s_session c)); try done.
  - rewrite comp_bind_run.
    destruct (client_event_run Refresh (after_now c)) as [[w' ->]|(w' & m & _ & ->)]; done.
  - rewrite comp_bind_run.
    destruct (client_event_run FullRefresh (after_now c)) as [[w' ->]|(w' & m & _ & ->)]; done.
Qed.

(** Unless the engine fails with the same words, only an expired probe reports it. *)
Lemma refresh_if_needed_timeout c :
  (∀ e (w : W) m, (client_input e w).2 = Err m →
     vnc_error_display m ≠ "VNC liveness probe timed out"%string) →
  (refresh_if_needed c).2 = Err "VNC liveness probe timed out"%string →
  session_refresh_action (read_now c) (s_session c) = ActReconnectNow.
Proof.
  intros Hmsg. rewrite refresh_if_needed_eq.
  destruct (session_refresh_action (read_now c) (s_session c)); try done; rewrite comp_bind_run.
  - destruct (client_event_run Refresh (after_now c)) as [[w' ->]|(w' & m & Hm & ->)]; [done|].
    intros [= He]. by apply Hmsg in Hm.
  - destruct (client_event_run FullRefresh (after_now c)) as [[w' ->]|(w' & m & Hm & ->)]; [done|].
    intros [= He]. by apply Hmsg in Hm.
Qed.
End watchdog.

(** ** Properties *)

Section theorems.
Context `{VncWorldLaws W}.
Implicit Types c : SessionCtx W.

(** The pictures a session sends are the framebuffer it holds.  While the
  server's screens stay below 65535 pixels a side, polling never panics whatever
  rectangles the server sends, keeps every dirty rectangle inside the framebuffer
  and every delta exactly as long as its rectangles, and after a poll that
  succeeds no rectangle is left dirty and, once a keyframe has been sent, a viewer
  that saw every output shows the framebuffer pixel for pixel (red and blue
  exchanged). *)
Theorem poll_events_shows_framebuffer I c :
small_server I → I (ctx_world (s_input c)) → session_inv c →
session_inv (poll_events c).1 ∧ (poll_events c).2 ≠ Panic ∧
((poll_events c).2 = Ok () →
 let f := get_fb_state (poll_events c).1 in
 ∀ fb, framebuffer f = Some fb →
   dirty_rects f = [] ∧
   (keyframe f = false →
    ∃ v, screen (direct (s_out (poll_events c).1)) = Some (v, (fb_width fb, fb_height fb)) ∧
      ∀ i j ch, i < usz (fb_width fb) → j < usz (fb_height fb) → ch < 4 →
        v i j ch = fb_byte fb i j (bgra_channel ch))).
Proof.
intros Hsmall Hw Hc.
destruct (poll_events_inv I c Hsmall Hw Hc) as (Hinv & Hp & Hflush).
split_and!; [done..|]. intros Hok f fb Hfb. subst f.
assert (dirty_rects (get_fb_state (poll_events c).1) = []) as Hd by (apply Hflush; [done|]; by rewrite Hfb).
split; [done|]. intros Hk. destruct Hinv as [Hf _]. unfold fb_state_inv in Hf.
rewrite Hfb in Hf. destruct Hf as (_ & _ & _ & _ & Hkey).
destruct (Hkey Hk) as (v & Hv & Hshow). exists v. split; [done|].
intros i j ch Hi Hj Hch. apply Hshow; try done. by rewrite Hd.
Qed.

(** Calls of the watchdog under a silent server: the session is only changed by
  [refresh_if_needed], which succeeds each time; the world may do anything in
  between.  The instants the calls read are listed in order. *)
Inductive silent_run : SessionCtx W → list N → SessionCtx W → Prop :=
| silent_nil c : silent_run c [] c
| silent_snoc c ts c1 c2 :
    silent_run c ts c1 → (refresh_if_needed c1).2 = Ok () →
    s_session c2 = s_session (refresh_if_needed c1).1 →
    silent_run c (ts ++ [read_now c1]) c2.

(** No two consecutive instants are more than [g] apart. *)
Fixpoint gaps_within (g t : N) (ts : list N) : Prop :=
match ts with
| [] => True
| t' :: ts' => (t' <= t + g)%N ∧ gaps_within g t' ts'
end.

Lemma gaps_within_snoc g t ts t' :
gaps_within g t (ts ++ [t']) → gaps_within g t ts ∧ (t' <= default t (last ts) + g)%N.
Proof.
revert t. induction ts as [|x ts IH]; intros t; simpl; [tauto|].
intros [Hx Hts]. destruct (IH x Hts) as [Hg Ht']. split; [done|].
change (t' <= default t (last (x :: ts)) + g)%N. rewrite last_cons. by destruct (last ts).
Qed.

(** Where the watchdog stands: no probe yet and not much past the liveness timeout, or
  a probe that was sent in time and is still waited for. *)
Definition watching (a g t : N) (s : ConnectedVncSession) : Prop :=
last_server_activity s = a ∧
match liveness_probe_since s with
| None => (t < a + 15500)%N ∧
    match refresh_in_flight_since s with Some f => (f < a + 15000)%N | None => True end
| Some p => (a + 15000 <= p)%N ∧ (p < a + 15500 + g)%N ∧ (t < p + 5000)%N
end.

Lemma watching_step a g t t' s s' :
watching a g t s → (t' <= t + g)%N → refreshed t' s s' → watching a g t' s'.
Proof.
intros [Ha Hw] Ht' Href.
unfold refreshed, session_refresh_action, refresh_action, duration_since,
  VNC_LIVENESS_PROBE_TIMEOUT, VNC_REFRESH_RESPONSE_TIMEOUT, VNC_LIVENESS_TIMEOUT,
  VNC_REFRESH_INTERVAL in Href. unfold watching. rewrite Ha in *.
destruct (liveness_probe_since s) as [p|] eqn:Hprobe.
- destruct (N.leb_spec 5000 (t' - p)); [done|]. subst. rewrite Hprobe. lia.
- destruct (refresh_in_flight_since s) as [f|] eqn:Hfl.
  + destruct (N.ltb_spec (t' - f) 500); [subst; rewrite Hprobe, Hfl; lia|].
    destruct (N.leb_spec 15000 (t' - a)); [subst; simpl; lia|].
    destruct (_ <? 33)%N; subst; simpl; [rewrite Hprobe, Hfl; lia|lia].
  + destruct (N.leb_spec 15000 (t' - a)); [subst; simpl; lia|].
    destruct (_ <? 33)%N; subst; simpl; [rewrite Hprobe, Hfl; lia|lia].
Qed.

(** C5: the liveness watchdog detects a dead server, in time and never early.
  Calls at most [g] ms apart that all succeed, with no event from the server since
  the instant [a] of its last activity, cannot go on until 20.5 s + [g] after [a]
  (15 s of silence, at most 500 ms for an unanswered refresh, one [g] to send the
  probe, 5 s to answer it); and a call that reports the timeout happens no sooner
  than 20 s after [a]. *)
Theorem liveness_watchdog c ts c' g :
let a := last_server_activity (s_session c) in
refresh_in_flight_since (s_session c) = None → liveness_probe_since (s_session c) = None →
silent_run c ts c' → gaps_within g a ts →
(default a (last ts) < a + 20500 + g)%N ∧
((refresh_if_needed c').2 = Err "VNC liveness probe timed out" →
 (∀ e (w : W) m, (client_input e w).2 = Err m → vnc_error_display m ≠ "VNC liveness probe timed out") →
 (a + 20000 <= read_now c')%N).
Proof.
intros a Hfl Hprobe Hrun Hg.
assert (watching a g (default a (last ts)) (s_session c')) as [Ha Hw].
{ clear -Hrun Hg Hfl Hprobe H0. subst a. remember (last_server_activity (s_session c)) as a eqn:Ha0.
  revert Hg. induction Hrun as [c|c ts c1 c2 Hrun IH Hok Hs]; intros Hg.
  - unfold watching. rewrite Hprobe, Hfl. simpl. split; [done|]. lia.
  - apply gaps_within_snoc in Hg as [Hg Hgap]. rewrite last_snoc. simpl. rewrite Hs.
    eapply watching_step; [by apply IH|done|by apply refresh_if_needed_ok]. }
split.
{ destruct (liveness_probe_since (s_session c')); lia. }
intros Herr Hmsg. apply refresh_if_needed_timeout in Herr; [|done].
unfold session_refresh_action, refresh_action, duration_since, VNC_LIVENESS_PROBE_TIMEOUT in Herr.
destruct (liveness_probe_since (s_session c')) as [p|]; [|repeat case_match; done].
destruct (N.leb_spec 5000 (read_now c' - p)); [lia|done].
Qed.
End theorems.

(** ** The session and the mailbox together *)

(** The calls a session thread makes on the sender. *)
Definition is_session_call (l : Label) : Prop :=
  match l with LSend _ _ | LBegin => True | _ => False end.
#[export] Instance is_session_call_dec l : Decision (is_session_call l).
Proof. destruct l; simpl; apply _. Defined.

Lemma direct_session_calls `{Viewer V} ls :
  LDropReceiver ∉ ls → direct (V:=V) (filter is_session_call ls) = direct ls.
Proof.
  unfold direct. generalize (mk_direct (V:=V) true None). induction ls as [|l ls IH]; intros d Hls.
  - done.
  - apply not_elem_of_cons in Hls as [Hl Hls]. rewrite filter_cons. case_decide as Hcall.
    + apply IH, Hls.
    + rewrite IH by done. destruct l; try done; by destruct Hcall.
Qed.

(** ** What the session has sent *)

(** Until the keyframe of a framebuffer is due, nothing has been drawn on it. *)
Definition untouched (f : VncFramebufferState) : Prop :=
  ∀ fb, framebuffer f = Some fb → keyframe f = true → dirty_rects f = [] →
    fb = new_framebuffer (fb_width fb) (fb_height fb).

Section served.
Context `{VncWorldLaws W}.
Implicit Types c : SessionCtx W.

Lemma untouched_drawn fb k rs r : untouched (mk_fb_state (Some fb) k (rs ++ [r])).
Proof. intros fb' _ _ Hd. cbn in Hd. by destruct rs. Qed.

Lemma handle_event_untouched e c :
  untouched (get_fb_state c) → untouched (get_fb_state (handle_event e c).1).
Proof.
  intros Hu. destruct e as [s| | | | | | |t|bs|]; simpl; try done.
  - by intros fb [= <-] _ _.
  - unfold fb_patch_rect. rewrite comp_bind_run. cbn [gets fst snd].
    destruct (framebuffer _); [|done]. rewrite comp_bind_run. unfold lift_outcome.
    destruct (patch_rgba_rect _ _ _ _ _ _); [apply untouched_drawn|done..].
  - unfold fb_copy_rect. rewrite comp_bind_run. cbn [gets fst snd].
    destruct (framebuffer _); [|done]. rewrite comp_bind_run. unfold lift_outcome.
    destruct (Framebuffer.copy_rect _ _ _ _ _ _ _); [apply untouched_drawn|done..].
  - by destruct (decode_clipboard_text bs).
Qed.

Lemma poll_loop_served I fuel n c :
  small_server I → I (ctx_world (s_input c)) → untouched (get_fb_state c) →
  I (ctx_world (s_input (poll_loop fuel n c).1)) ∧
  untouched (get_fb_state (poll_loop fuel n c).1).
Proof.
  intros HI. revert n c. induction fuel as [|fuel IH]; intros n c Hw Hu; [done|]. simpl.
  destruct (should_poll_server_event n); [|done]. rewrite comp_bind_run.
  unfold map_err_comp, on_world, zoom. cbn [fst snd]. destruct (HI _ Hw) as (Hw1 & _ & _).
  destruct (client_poll_event (ctx_world (s_input c))) as [w' [[e|]|err|]]; simpl in *; try done.
  rewrite comp_bind_run. cbn [total fst snd]. rewrite comp_bind_run. cbn [modify fst snd].
  rewrite comp_bind_run. match goal with |- context [handle_event e ?c1] => set (c1' := c1) end.
  pose proof (handle_event_world e c1') as Hin.
  pose proof (handle_event_untouched e c1' Hu) as Hu'.
  assert (I (ctx_world (s_input (handle_event e c1').1))) as Hw'
    by (rewrite Hin; simpl; by apply HI).
  destruct (handle_event e c1') as [c2 [[]|m|]]; simpl in *; [by apply IH|done..].
Qed.

Lemma flush_frame_served c :
  s_input (flush_frame c).1 = s_input c ∧
  (untouched (get_fb_state c) → untouched (get_fb_state (flush_frame c).1)).
Proof.
  unfold flush_frame. rewrite comp_bind_run. cbn [gets fst snd].
  destruct (framebuffer (get_fb_state c)) as [fb|] eqn:Hfb; [|done].
  destruct (dirty_rects (get_fb_state c)) as [|r rs] eqn:Hrs; [done|].
  destruct (keyframe (get_fb_state c)) eqn:Hk; [by split|].
  rewrite comp_bind_run. cbn [modify fst snd]. rewrite comp_bind_run. unfold lift_outcome.
  by destruct (clone_rects _ _ _).
Qed.

Lemma poll_events_served I c :
  small_server I → I (ctx_world (s_input c)) → untouched (get_fb_state c) →
  I (ctx_world (s_input (poll_events c).1)) ∧ untouched (get_fb_state (poll_events c).1).
Proof.
  intros HI Hw Hu. unfold poll_events. rewrite comp_bind_run.
  destruct (poll_loop_served I (S MAX_SERVER_EVENTS_PER_POLL) 0 c HI Hw Hu) as [Hw' Hu'].
  destruct (poll_loop _ 0 c) as [c1 [[]|e|]]; simpl in *; [|done..].
  destruct (flush_frame_served c1) as [Hin Hf]. rewrite Hin. split; [done|]. by apply Hf.
Qed.

(** The contexts a session comes to in the worlds of [I]: it begins with no framebuffer,
    after whatever earlier sessions sent, it polls, and between its polls it may do anything
    that leaves its framebuffer and its outputs alone, as its input and its refreshes do. *)
Inductive served (I : W → Prop) : SessionCtx W → Prop :=
  | served_new c :
      get_fb_state c = fb_state_default → Forall label_wf (s_out c) →
      I (ctx_world (s_input c)) → served I c
  | served_poll c : served I c → (poll_events c).2 = Ok () → served I (poll_events c).1
  | served_idle c c' :
      served I c → get_fb_state c' = get_fb_state c → s_out c' = s_out c →
      I (ctx_world (s_input c')) → served I c'.

Lemma served_inv I c :
  small_server I → served I c →
  I (ctx_world (s_input c)) ∧ session_inv c ∧ untouched (get_fb_state c).
Proof.
  intros HI. induction 1 as [c Hf Hl Hw|c _ (Hw & Hs & Hu) _|c c' _ (_ & Hs & Hu) Hf Ho Hw].
  - split; [done|]. unfold session_inv. rewrite Hf. by repeat split.
  - destruct (poll_events_served I c HI Hw Hu) as [Hw' Hu'].
    split; [done|]. split; [|done]. by apply (poll_events_inv I).
  - split; [done|]. unfold session_inv. by rewrite Hf, Ho.
Qed.

(** The refreshes are such calls. *)
Lemma refresh_if_needed_served I c :
  served I c → I (ctx_world (s_input (refresh_if_needed c).1)) →
  served I (refresh_if_needed c).1.
Proof.
  intros Hc Hw. apply (served_idle I c); [done| | |done]; rewrite refresh_if_needed_eq;
    destruct (session_refresh_action _ _); try done; rewrite comp_bind_run.
  all: match goal with |- context [client_event ?e ?c1] =>
    destruct (client_event_run e c1) as [[w' ->]|(w' & m & _ & ->)] end; done.
Qed.
End served.

(** C6: the host sees the remote screen.  Take a session that began without a framebuffer
    and got, over any number of polls and refreshes, whatever events a server with screens
    below 65535 pixels a side sends, and whose last poll succeeded; and any execution of the
    mailbox in which the session thread made exactly the calls of that session, interleaved
    with a receiver that is still there.  As soon as no picture is pending, replaying what
    the receiver got, merged and dropped pictures included, shows the session's framebuffer
    pixel for pixel, unless that is still the blank screen of the size last set, of which no
    picture need have been sent. *)
Theorem host_shows_framebuffer `{VncWorldLaws W} I (c : SessionCtx W) fb ls cfg :
  small_server I → served I c → (poll_events c).2 = Ok () →
  framebuffer (get_fb_state (poll_events c).1) = Some fb →
  run initial ls cfg → filter is_session_call ls = s_out (poll_events c).1 →
  LDropReceiver ∉ ls →
  latest_frame (mailbox cfg) = None → latest_delta (mailbox cfg) = None →
  fb = new_framebuffer (fb_width fb) (fb_height fb) ∨
  ∃ v : pixel_screen, shown ls = Some v ∧
    ∀ i j ch, i < usz (fb_width fb) → j < usz (fb_height fb) → ch < 4 →
      v i j ch = fb_byte fb i j (bgra_channel ch).
Proof.
  intros HI Hserved Hok Hfb Hrun Hcalls Halive Hnf Hnd.
  destruct (served_inv I c HI Hserved) as (Hw & Hs & Hu).
  destruct (poll_events_served I c HI Hw Hu) as [_ Hu'].
  destruct (poll_events_inv I c HI Hw Hs) as ([Hf Hwf] & _ & Hdirty).
  assert (dirty_rects (get_fb_state (poll_events c).1) = []) as Hd
    by (apply Hdirty; [done|]; by rewrite Hfb).
  destruct (keyframe (get_fb_state (poll_events c).1)) eqn:Hk; [left; by apply Hu'|right].
  unfold fb_state_inv in Hf. rewrite Hfb in Hf. destruct Hf as (_ & _ & _ & _ & Hkey).
  destruct (Hkey Hk) as (v & Hv & Hshow). exists v. split.
  - assert (Forall label_wf ls) as Hls.
    { apply Forall_forall. intros l Hl. destruct l as [o b| | | | | | | |]; try done.
      eapply (Forall_forall label_wf); [exact Hwf|]. rewrite <-Hcalls.
      by apply list_elem_of_filter. }
    rewrite <-Hcalls, direct_session_calls in Hv by done.
    destruct (sim_screen _ _ _ (run_simulates ls cfg Hrun Hls) _ _ Hv) as [Hcu _].
    unfold caught_up in Hcu. by rewrite Hnf, Hnd in Hcu.
  - intros i j ch Hi Hj Hch. apply Hshow; try done. by rewrite Hd.
Qed.

(** ** Witnesses *)

Definition red : bytes := [255; 0; 0; 255]%N.
Definition blue : bytes := [0; 0; 255; 255]%N.

(** A server that resizes, draws, and after the next poll draws again. *)
Definition demo_server (more : list VncEvent) : Script :=
  mk_script [] (((λ e, Ok (Some e)) <$>
    [SetResolution (mk_screen 2 1); RawImage (mk_rect 0 0 2 1) (red ++ blue)]) ++
    [Ok None] ++ ((λ e, Ok (Some e)) <$> more)) [] [] 7 [].

Definition demo_session (more : list VncEvent) : SessionCtx Script :=
  mk_sctx (mk_ctx (demo_server more) None [] pointer_default) (new_session 0) [].

Definition small_script (w : Script) : Prop :=
  Forall (λ r : outcome VncError (option VncEvent),
    match r with Ok (Some e) => small_event e | _ => True end) (sc_events w).

Lemma small_script_server : small_server small_script.
Proof.
  intros w Hw. destruct w as [rs es ins cs t log]. unfold small_script in *. simpl in *.
  destruct es as [|r es]; [done|]. apply Forall_cons in Hw as [Hr Hes]. split_and!.
  - destruct r; simpl; [exact Hes|exact Hes|apply Forall_cons; by split].
  - apply Forall_cons. by split.
  - intros e He. destruct r as [[e'|]|m|]; simpl in He; try discriminate. by injection He as <-.
Qed.

Lemma demo_session_inv more : session_inv (demo_session more).
Proof. by split. Qed.

Lemma demo_server_small more : Forall small_event more → small_script (demo_server more).
Proof.
  intros Hmore. unfold small_script, demo_server. simpl.
  repeat (constructor; [done|]). apply Forall_fmap. exact Hmore.
Qed.

Lemma poll_events_shows_framebuffer_witness :
  framebuffer (get_fb_state (poll_events (demo_session [])).1) =
    Some (mk_framebuffer 2 1 (red ++ blue)) ∧
  ∃ v : pixel_screen,
    screen (direct (s_out (poll_events (demo_session [])).1)) = Some (v, (2, 1)%N) ∧
    v 1 0 0 = Some 255%N.
Proof.
  split; [reflexivity|].
  destruct (poll_events_shows_framebuffer small_script (demo_session [])
    small_script_server) as (_ & _ & Hshow).
  - by apply demo_server_small.
  - apply demo_session_inv.
  - destruct (Hshow eq_refl (mk_framebuffer 2 1 (red ++ blue)) eq_refl) as [_ Hk].
    destruct (Hk eq_refl) as (v & Hv & Hpx). exists v. split; [exact Hv|].
    rewrite Hpx; [reflexivity|simpl; lia..].
Defined.

Definition quiet_session (t : N) : SessionCtx Accepting :=
  mk_sctx (mk_ctx (mk_accepting [] t) None [] pointer_default)
    (mk_session true fb_state_default 0 0 None None) [].

Lemma liveness_watchdog_witness :
  let c := quiet_session 16000 in
  let c' := set_input (mk_ctx (mk_accepting [] 21000) None [] pointer_default)
    (refresh_if_needed c).1 in
  (refresh_if_needed c').2 = Err "VNC liveness probe timed out"%string ∧
  (0 + 20000 <= read_now c')%N.
Proof.
  split; [reflexivity|].
  set (c' := set_input (mk_ctx (mk_accepting [] 21000) None [] pointer_default)
    (refresh_if_needed (quiet_session 16000)).1).
  refine (proj2 (liveness_watchdog (quiet_session 16000) ([] ++ [16000%N]) c' 16000
    eq_refl eq_refl _ _) eq_refl _).
  - exact (silent_snoc (quiet_session 16000) [] (quiet_session 16000) c'
      (silent_nil _) eq_refl eq_refl).
  - simpl. lia.
  - done.
Defined.

(** Two polls: a keyframe, then a delta merged into nothing. *)
Definition demo_between : SessionCtx Script :=
  (poll_events (demo_session [RawImage (mk_rect 1 0 1 1) red])).1.
Definition demo_after : SessionCtx Script := (poll_events demo_between).1.

Definition demo_execution : list Label :=
  match s_out demo_after with
  | [connected; frame; delta] =>
      [connected; LRecv (Connected 2 1 vnc_capabilities); frame; delta;
       LRecv (Frame 2 1 (clone_bgra (mk_framebuffer 2 1 (red ++ blue))));
       LRecv (FrameBgraRects 2 1 [mk_frame_rect 1 0 1 1 4] [0; 0; 255; 255]%N)]
  | _ => []
  end.

Lemma host_shows_framebuffer_witness :
  framebuffer (get_fb_state demo_after) = Some (mk_framebuffer 2 1 (red ++ red)) ∧
  ∃ v : pixel_screen, shown demo_execution = Some v ∧ v 1 0 2 = Some 255%N.
Proof.
  split; [reflexivity|].
  assert (∃ cfg, exec_all initial demo_execution = Some cfg ∧
    latest_frame (mailbox cfg) = None ∧ latest_delta (mailbox cfg) = None)
    as (cfg & Hexec & Hnf & Hnd).
  { eexists. split; [vm_compute; reflexivity|]. done. }
  destruct (host_shows_framebuffer small_script demo_between (mk_framebuffer 2 1 (red ++ red))
    demo_execution cfg) as [Hblank|(v & Hv & Hpx)]; try done.
  - apply small_script_server.
  - apply served_poll; [|done]. apply served_new; [done|by constructor|].
    by apply demo_server_small; repeat constructor.
  - by apply exec_all_run.
  - vm_compute. intros Hin. repeat (apply elem_of_cons in Hin as [Hin|Hin]; [done|]).
    by apply not_elem_of_nil in Hin.
  - exists v. split; [done|]. rewrite Hpx; [reflexivity|simpl; lia..].
Defined.
