(* ===== verification/VncReconnect.v ===== *)
(** * Reconnecting: results of a session, delays, and the wait between sessions

    vnc-helper/src/vnc_reconnect.rs.  The calls run in [BackendCtx], what the backend
    keeps from one session to the next: the world, the clipboard snapshot, and the
    calls made on the [OutputSender].  The wait polls the clock and the input channel;
    its loop runs on fuel, and [wait_before_reconnect_correct] shows how much is
    enough for any clock that advances while it sleeps. *)

From S2P Require Import Prelude VncRuntime VncMailbox VncClient VncClipboard VncInput.

(** In milliseconds. *)
Definition VNC_POLL_INTERVAL : N := 8.
Definition MAX_RECONNECT_WAIT_INPUTS_PER_POLL : nat := 256.

Inductive VncSessionResult :=
  | ResClosed
  | ResInputClosed
  | ResReconnect (reason : RemoteDesktopReconnectReason) (diagnostic : string)
      (manual was_connected : bool).

(** In seconds. *)
Definition reconnect_delay (attempt : N) : N :=
  match attempt with
  | 0 => 1
  | 1 => 2
  | 2 => 5
  | _ => 10
  end%N.

Definition reconnect_reason (was_connected : bool) : RemoteDesktopReconnectReason :=
  if was_connected then ConnectionLost else SessionError.

Definition reconnect_result (reason : RemoteDesktopReconnectReason) (diagnostic : string)
    (manual was_connected : bool) : VncSessionResult :=
  ResReconnect reason diagnostic manual was_connected.

Definition session_result_from_action (action : VncInputAction) (was_connected : bool)
    : option VncSessionResult :=
  match action with
  | Continue => None
  | VncInput.Closed => Some ResClosed
  | InputClosed => Some ResInputClosed
  | ActReconnect => Some (reconnect_result Manual "manual reconnect" true was_connected)
  | Failed diagnostic =>
      Some (reconnect_result (reconnect_reason was_connected) diagnostic false was_connected)
  end.

Record BackendCtx (W : Type) := mk_bctx {
  b_world : W;
  b_clipboard : option VncClipboardSnapshot;
  b_out : list Label;
}.
Arguments mk_bctx {W}.
Arguments b_world {W}.
Arguments b_clipboard {W}.
Arguments b_out {W}.

Inductive WaitAction := WaitContinue | WaitReconnectNow | WaitStop.

Section reconnect.
Context `{VncWorld W}.

Definition merge_cleanup_error (result : VncSessionResult) (error : anyhow) : VncSessionResult :=
  match result with
  | ResReconnect reason diagnostic manual was_connected =>
      reconnect_result reason
        (diagnostic +:+ "; cleanup failed: " +:+ error_alternate error)%string
        manual was_connected
  | ResClosed => ResClosed
  | ResInputClosed => ResInputClosed
  end.

Definition set_b_world (w : W) (b : BackendCtx W) : BackendCtx W :=
  mk_bctx w (b_clipboard b) (b_out b).
Definition set_b_clipboard (s : option VncClipboardSnapshot) (b : BackendCtx W) : BackendCtx W :=
  mk_bctx (b_world b) s (b_out b).
Definition b_send (o : RemoteDesktopOutput) (b : BackendCtx W) : BackendCtx W :=
  mk_bctx (b_world b) (b_clipboard b) (b_out b ++ [LSend o true]).

(** The loop of [handle_wait_input]. *)
Fixpoint handle_wait_loop (n : nat) (action : WaitAction) (b : BackendCtx W)
    : BackendCtx W * WaitAction :=
  match n with
  | 0 => (b, action)
  | S n' =>
      let r := input_try_recv (b_world b) in
      let b' := set_b_world r.1 b in
      match r.2 with
      | Input Close => (b', WaitStop)
      | Input Reconnect => handle_wait_loop n' WaitReconnectNow b'
      | Input (InClipboardText t) | Input (Text t) =>
          handle_wait_loop n' action
            (match encode t with Some s => set_b_clipboard (Some s) b' | None => b' end)
      | Input _ => handle_wait_loop n' action b'
      | Empty => (b', action)
      | Disconnected => (b', WaitStop)
      end
  end.

Definition handle_wait_input : BackendCtx W → BackendCtx W * WaitAction :=
  handle_wait_loop MAX_RECONNECT_WAIT_INPUTS_PER_POLL WaitContinue.

(** The loop of [wait_before_reconnect] after the deadline is fixed; [None] when
    the fuel runs out. *)
Fixpoint wait_loop (fuel : nat) (deadline : N) (b : BackendCtx W)
    : BackendCtx W * option bool :=
  match fuel with
  | 0 => (b, None)
  | S fuel' =>
      let '(b1, action) := handle_wait_input b in
      match action with
      | WaitReconnectNow => (b1, Some true)
      | WaitStop => (b1, Some false)
      | WaitContinue =>
          let '(w2, t) := now (b_world b1) in
          let b2 := set_b_world w2 b1 in
          if (deadline <=? t)%N then (b2, Some true)
          else wait_loop fuel' deadline (set_b_world (sleep VNC_POLL_INTERVAL w2) b2)
      end
  end.

Definition wait_before_reconnect (fuel : nat) (delay : N) (b : BackendCtx W)
    : BackendCtx W * option bool :=
  let '(w, t) := now (b_world b) in
  wait_loop fuel (t + delay) (set_b_world w b).

Definition send_reconnecting (reason : RemoteDesktopReconnectReason) (delay_secs : option N)
    : BackendCtx W → BackendCtx W :=
  b_send (Reconnecting (mk_reconnect reason delay_secs)).
End reconnect.

(** ** Clocks *)

(** Time does not go back, and sleeping takes at least as long as asked. *)
Class VncClockLaws (W : Type) `{VncWorld W} := {
  now_monotone w : ((now w).2 <= (now (now w).1).2)%N;
  recv_monotone w : ((now w).2 <= (now (input_try_recv w).1).2)%N;
  sleep_advances d w : ((now w).2 + d <= (now (sleep d w)).2)%N;
}.

#[export] Instance script_clock : VncClockLaws Script.
Proof. split; intros; simpl; try lia. destruct (sc_inputs w); simpl; lia. Qed.

(** ** Lemmas *)

(** The inputs a stretch of calls read from the channel, oldest first. *)
Inductive reads `{VncWorld W} : W → list TryRecv → W → Prop :=
  | reads_nil w : reads w [] w
  | reads_recv w l w' :
      reads w l w' → reads w (l ++ [(input_try_recv w').2]) (input_try_recv w').1
  | reads_now w l w' : reads w l w' → reads w l (now w').1
  | reads_sleep w l w' d : reads w l w' → reads w l (sleep d w').

(** The clipboard after an input read during the wait. *)
Definition wait_clipboard (s : option VncClipboardSnapshot) (r : TryRecv)
    : option VncClipboardSnapshot :=
  match r with Input i => input_clipboard s i | _ => s end.

Definition stops (r : TryRecv) : Prop := r = Input Close ∨ r = Disconnected.

(** What the inputs read so far say about the wait. *)
Definition wait_outcome (l : list TryRecv) (action : WaitAction) : Prop :=
  match action with
  | WaitStop => (∃ l' r, l = l' ++ [r] ∧ stops r ∧ (∀ r', r' ∈ l' → ¬ stops r'))
  | WaitReconnectNow => Input Reconnect ∈ l ∧ (∀ r, r ∈ l → ¬ stops r)
  | WaitContinue => (Input Reconnect ∉ l) ∧ (∀ r, r ∈ l → ¬ stops r)
  end.

Section wait.
Context `{VncWorld W} `{!VncClockLaws W}.
Implicit Types b : BackendCtx W.

(** From [b] to [b'] by reading [l]. *)
Definition waited b l b' : Prop :=
  reads (b_world b) l (b_world b') ∧ b_out b' = b_out b ∧
  b_clipboard b' = foldl wait_clipboard (b_clipboard b) l ∧
  ((now (b_world b)).2 <= (now (b_world b')).2)%N.

Lemma waited_refl b : waited b [] b.
Proof. split_and!; try done. constructor. Qed.

Lemma waited_recv b l b1 s :
  waited b l b1 → s = wait_clipboard (b_clipboard b1) (input_try_recv (b_world b1)).2 →
  waited b (l ++ [(input_try_recv (b_world b1)).2])
    (set_b_clipboard s (set_b_world (input_try_recv (b_world b1)).1 b1)).
Proof.
  intros (Hr & Ho & Hc & Ht) ->. split_and!; simpl; [by constructor|done| |].
  - by rewrite foldl_app, <-Hc.
  - etrans; [exact Ht|apply recv_monotone].
Qed.

Lemma set_b_clipboard_same w b :
  set_b_clipboard (b_clipboard b) (set_b_world w b) = set_b_world w b.
Proof. done. Qed.

Lemma handle_wait_loop_run n action b0 l0 b :
  waited b0 l0 b →
  (∀ r, r ∈ l0 → ¬ stops r) → (action = WaitReconnectNow ↔ Input Reconnect ∈ l0) →
  action ≠ WaitStop →
  ∃ l, waited b0 l (handle_wait_loop n action b).1 ∧
    wait_outcome l (handle_wait_loop n action b).2.
Proof.
  revert action l0 b. induction n as [|n IH]; intros action l0 b Hw Hns Hact Hstop; simpl.
  { exists l0. split; [done|]. destruct action; [|naive_solver|done].
    split; [|done]. intros Hin. by apply Hact in Hin. }
  pose proof (λ s, waited_recv b0 l0 b s Hw) as Hnext.
  pose proof (set_b_clipboard_same (input_try_recv (b_world b)).1 b) as Hsame.
  destruct (input_try_recv (b_world b)) as [w' r] eqn:Hr. simpl in Hnext, Hsame. cbn [fst snd].
  assert (∀ action' b', ¬ stops r →
    (action' = WaitReconnectNow ↔ Input Reconnect ∈ l0 ++ [r]) → action' ≠ WaitStop →
    waited b0 (l0 ++ [r]) b' →
    ∃ l, waited b0 l (handle_wait_loop n action' b').1 ∧
    wait_outcome l (handle_wait_loop n action' b').2) as Hgo.
  { intros action' b' Hr' Hact' Hst' Hw'. apply (IH action' (l0 ++ [r]) b'); try done.
    intros r' [Hin|Hin]%elem_of_app; [by apply Hns|].
    apply list_elem_of_singleton in Hin. by subst. }
  assert (∀ r', r = r' → r' ≠ Input Reconnect →
    (action = WaitReconnectNow ↔ Input Reconnect ∈ l0 ++ [r])) as Hkeep.
  { intros r' -> Hne. rewrite Hact, elem_of_app, list_elem_of_singleton. naive_solver. }
  assert (b_clipboard b = wait_clipboard (b_clipboard b) r →
    waited b0 (l0 ++ [r]) (set_b_world w' b)) as Hplain.
  { intros Heq. rewrite <-Hsame. by apply Hnext. }
  destruct r as [[? ?|x y|? ?|? ?|? ?|t|t|?| |]| |]; simpl.
  all: try (apply Hgo; [by intros [|]|by eapply Hkeep|done|by apply Hplain]).
  - apply Hgo; [by intros [|]|by eapply Hkeep|done|].
    destruct (encode t) eqn:Henc; [apply Hnext|apply Hplain]; simpl; by rewrite Henc.
  - apply Hgo; [by intros [|]|by eapply Hkeep|done|].
    destruct (encode t) eqn:Henc; [apply Hnext|apply Hplain]; simpl; by rewrite Henc.
  - apply Hgo; [by intros [|]| |done|by apply Hplain].
    split; [|done]. intros _. apply elem_of_app. right. by apply list_elem_of_singleton.
  - exists (l0 ++ [Input Close]). split; [by apply Hplain|].
    exists l0, (Input Close). split; [done|]. split; [by left|done].
  - exists (l0 ++ [Empty]). split; [by apply Hplain|].
    assert (∀ r, r ∈ l0 ++ [Empty] → ¬ stops r) as Hns'.
    { intros r [Hin|Hin]%elem_of_app; [by apply Hns|].
      apply list_elem_of_singleton in Hin. subst. by intros [|]. }
    destruct action; [|split; [|done]; by apply (Hkeep Empty)|done].
    split; [|done]. intros Hin. by apply (Hkeep Empty) in Hin.
  - exists (l0 ++ [Disconnected]). split; [by apply Hplain|].
    exists l0, Disconnected. split; [done|]. split; [by right|done].
Qed.

Lemma wait_loop_run fuel deadline b0 l0 b :
  waited b0 l0 b → wait_outcome l0 WaitContinue → 0 < fuel →
  (deadline <= (now (b_world b)).2 + 8 * (N.of_nat fuel - 1))%N →
  ∃ l b' result, wait_loop fuel deadline b = (b', Some result) ∧ waited b0 l b' ∧
    if result : bool
    then (∀ r, r ∈ l → ¬ stops r) ∧
         (Input Reconnect ∈ l ∨ (deadline <= (now (b_world b')).2)%N)
    else wait_outcome l WaitStop.
Proof.
  revert l0 b. induction fuel as [|fuel IH]; intros l0 b Hw [Hno Hns] Hpos Hfuel; [lia|].
  cbn [wait_loop]. unfold handle_wait_input. generalize MAX_RECONNECT_WAIT_INPUTS_PER_POLL.
  intros n. destruct (handle_wait_loop_run n WaitContinue b0 l0 b)
    as (l1 & Hw1 & Hout); [done|done|split; [done|by intros ?%Hno]|done|].
  assert ((now (b_world b)).2 <= (now (b_world (handle_wait_loop n WaitContinue b).1)).2)%N
    as Hmono.
  { destruct (handle_wait_loop_run n WaitContinue b [] b) as (l2 & (_ & _ & _ & Ht) & _);
      [apply waited_refl|by intros r ?%not_elem_of_nil| |done|done].
    split; [done|by intros ?%not_elem_of_nil]. }
  destruct (handle_wait_loop n WaitContinue b) as [b1 action]. simpl in Hw1, Hout, Hmono.
  destruct action; [| |].
  - destruct Hw1 as (Hr1 & Ho1 & Hc1 & Ht1).
    pose proof (now_monotone (b_world b1)) as Hnow.
    assert (waited b0 l1 (set_b_world (now (b_world b1)).1 b1)) as Hw2.
    { split_and!; simpl; [by constructor|done|done|lia]. }
    destruct (now (b_world b1)) as [w2 t] eqn:Hnw. simpl in *.
    destruct (N.leb_spec deadline t) as [Hd|Hd].
    + exists l1, (set_b_world w2 b1), true. split; [done|]. split; [done|].
      destruct Hout as [_ Hout]. split; [done|]. right. simpl. lia.
    + pose proof (sleep_advances VNC_POLL_INTERVAL w2) as Hs.
      unfold VNC_POLL_INTERVAL in *.
      apply (IH l1 (set_b_world (sleep 8 w2) (set_b_world w2 b1))); [|done|lia|simpl; lia].
      destruct Hw2 as (Hr2 & Ho2 & Hc2 & Ht2). split_and!; simpl in *; [|done|done|lia].
      by constructor.
  - exists l1, b1, true. split; [done|]. split; [done|]. destruct Hout. split; [done|by left].
  - exists l1, b1, false. done.
Qed.
End wait.

(** ** Properties *)

(** The wait between two sessions ends, and for the right reason.  With a clock
    that advances while the thread sleeps, fuel for one poll every 8 ms of the delay
    and two more is always enough; the wait sends nothing, keeps the last clipboard
    text it read that fits the wire, returns [false] exactly when the last thing it
    read was [Close] or the end of the channel, and returns [true] only after the
    delay has passed or a [Reconnect] was read. *)
Theorem wait_before_reconnect_correct `{VncWorld W} `{!VncClockLaws W} fuel delay
    (b : BackendCtx W) :
  (delay / 8 + 2 <= N.of_nat fuel)%N →
  ∃ l b' result, wait_before_reconnect fuel delay b = (b', Some result) ∧
    reads (b_world b) l (b_world b') ∧ b_out b' = b_out b ∧
    b_clipboard b' = foldl wait_clipboard (b_clipboard b) l ∧
    if result : bool
    then (∀ r, r ∈ l → ¬ stops r) ∧
         (Input Reconnect ∈ l ∨ ((now (b_world b)).2 + delay <= (now (b_world b')).2)%N)
    else ∃ l' r, l = l' ++ [r] ∧ stops r ∧ (∀ r', r' ∈ l' → ¬ stops r').
Proof.
  intros Hfuel. unfold wait_before_reconnect.
  pose proof (now_monotone (b_world b)) as Hnow.
  assert (waited b [] (set_b_world (now (b_world b)).1 b)) as Hw.
  { split_and!; try done. repeat constructor. }
  pose proof (N.div_mod delay 8 ltac:(done)). pose proof (N.mod_upper_bound delay 8 ltac:(done)).
  destruct (now (b_world b)) as [w t]. simpl in Hnow, Hw.
  destruct (wait_loop_run fuel (t + delay) b [] (set_b_world w b))
    as (l & b' & result & -> & (Hr & Ho & Hc & _) & Hout).
  - done.
  - split; [apply not_elem_of_nil|by intros r ?%not_elem_of_nil].
  - lia.
  - simpl. lia.
  - by exists l, b', result.
Qed.

Lemma wait_before_reconnect_correct_witness :
  let b := mk_bctx (mk_script [] []
    [Input (InClipboardText [104%N]); Empty; Input Reconnect; Empty] [] 5 []) None [] in
  ∃ l b', wait_before_reconnect 20 1000 b = (b', Some true) ∧ Input Reconnect ∈ l ∧
    b_clipboard b' = foldl wait_clipboard None l.
Proof.
  destruct (wait_before_reconnect_correct 200 1000 (mk_bctx (mk_script [] []
    [Input (InClipboardText [104%N]); Empty; Input Reconnect; Empty] [] 5 []) None []))
    as (l & b' & result & Hrun & _ & _ & Hclip & Hres).
  - vm_compute. discriminate.
  - vm_compute in Hrun. injection Hrun as <- <-. exists l. eexists. split; [reflexivity|].
    split; [|exact Hclip]. destruct Hres as [_ [Hin|Hlate]]; [done|].
    exfalso. vm_compute in Hlate. by apply Hlate.
Defined.
