(* ===== verification/VncBackend.v ===== *)
(** * The VNC backend: sessions, cleanup and the reconnect loop

    vnc-helper/src/vnc_rfb.rs.  A session runs in [SessionCtx] until it ends and is
    then shut down; the backend runs sessions in [BackendCtx] and waits between them.
    The session's main loop and the backend's loop may run forever, so they take
    fuel and return [None] when it is used up. *)

From S2P Require Import Prelude Framebuffer VncRuntime VncMailbox VncClient VncClipboard.
From S2P Require Import VncInput VncSession VncReconnect.

(** ** Connect errors *)

(** [str::contains]. *)
Fixpoint str_contains (message marker : string) : bool :=
  String.prefix marker message ||
  match message with
  | EmptyString => false
  | String.String _ rest => str_contains rest marker
  end.

Definition ascii_lower (a : Ascii.ascii) : Ascii.ascii :=
  let n := Ascii.N_of_ascii a in
  if (65 <=? n)%N && (n <=? 90)%N then Ascii.ascii_of_N (n + 32) else a.

(** [str::to_ascii_lowercase]. *)
Fixpoint to_ascii_lowercase (s : string) : string :=
  match s with
  | EmptyString => EmptyString
  | String.String a s' => String.String (ascii_lower a) (to_ascii_lowercase s')
  end.

Definition is_authentication_failure_message (message : string) : bool :=
  let message := to_ascii_lowercase message in
  let known_failure := existsb (str_contains message)
    ["authentication failed"; "authentication failure"; "auth failed"; "access denied";
     "invalid credentials"; "wrong password"; "invalid password"; "password incorrect"]%string in
  known_failure
  || (str_contains message "password" &&
      existsb (str_contains message)
        ["failed"; "failure"; "incorrect"; "invalid"; "wrong"; "denied"]%string).

Definition is_authentication_error (error : VncError) : bool :=
  match error with
  | NoPassword | WrongPassword | InvalidAuthResult _ => true
  | General message => is_authentication_failure_message message
  | _ => false
  end.

(** The causes that are the engine's errors, as [downcast_ref] finds them. *)
Definition chain_any (p : VncError → bool) (error : anyhow) : bool :=
  existsb (λ cause, match cause with CauseVnc e => p e | CauseMessage _ => false end) error.

Definition is_terminal_connect_error : anyhow → bool :=
  chain_any (λ error,
    match error with
    | NoPassword | NoEncoding | InvalidSecurityTyep _ | InvalidAuthResult _
    | SecurityNegotiation _ | WrongPassword | ConnectError | WrongPixelFormat => true
    | General message => is_authentication_failure_message message
    | _ => false
    end).

Section backend.
Context `{VncWorld W}.
Abbreviation io := (comp (SessionCtx W) anyhow).

Definition connect_failure_message (error : anyhow) : string :=
  if chain_any is_authentication_error error
  then ("VNC authentication failed: " +:+ error_to_string error)%string
  else error_to_string error.

Definition b_status (message : string) : BackendCtx W → BackendCtx W :=
  b_send (Status message).
Definition send_failure (message : string) : BackendCtx W → BackendCtx W :=
  b_send (ConnectionFailure message).

Definition connect_error_result (error : anyhow) (b : BackendCtx W)
    : BackendCtx W * VncSessionResult :=
  if is_terminal_connect_error error
  then (send_failure (connect_failure_message error) b, ResClosed)
  else (b, reconnect_result SessionError (error_to_string error) false false).

(** ** A connected session *)

(** A call of the input side of the session. *)
Definition on_input {E A} (m : comp (InputCtx W) E A) : comp (SessionCtx W) E A :=
  zoom s_input set_input m.

Definition shutdown_session : io () :=
  inputs ← attempt (on_input shutdown_inputs);
  close ← attempt (on_world client_close);
  or_error (match inputs, close with
            | inl error, _ => Some error
            | inr _, inl error => Some [CauseMessage (vnc_error_display error)]
            | inr _, inr _ => None
            end).

Definition shutdown_with_reason (reason : string) : io string :=
  r ← attempt shutdown_session;
  mret (match r with
        | inr _ => reason
        | inl error => reason +:+ "; cleanup failed: " +:+ error_alternate error
        end)%string.

Definition connected : SessionCtx W → bool := λ c, was_connected (s_session c).

(** One turn of the loop of [run_connected_vnc_session], up to its sleep; the result
    the turn breaks with, if it does. *)
Definition session_turn : io (option VncSessionResult) :=
  polled ← attempt poll_events;
  match polled with
  | inl reason =>
      was ← gets connected;
      mret (Some (reconnect_result (reconnect_reason was) reason false was))
  | inr _ =>
      action ← on_input handle_pending_inputs;
      was ← gets connected;
      match session_result_from_action action was with
      | Some result => mret (Some result)
      | None =>
          refreshed ← attempt refresh_if_needed;
          match refreshed with
          | inl reason =>
              was ← gets connected;
              mret (Some (reconnect_result DisplayUpdate reason false was))
          | inr _ => mret None
          end
      end
  end.

Fixpoint session_loop (fuel : nat) : io (option VncSessionResult) :=
  match fuel with
  | 0 => mret None
  | S fuel' =>
      result ← session_turn;
      match result with
      | Some result => mret (Some result)
      | None => on_world (total (λ w, (sleep VNC_POLL_INTERVAL w, ())));; session_loop fuel'
      end
  end.

Definition run_connected_vnc_session (fuel : nat) : io (option VncSessionResult) :=
  result ← session_loop fuel;
  match result with
  | None => mret None
  | Some result =>
      r ← attempt shutdown_session;
      mret (Some (match r with
                  | inl error => merge_cleanup_error result error
                  | inr _ => result
                  end))
  end.

(** The part of [run_vnc_session] that owns a connected session. *)
Definition session_body (fuel : nat) : io (option VncSessionResult) :=
  first ← attempt request_initial_refresh;
  match first with
  | inl error =>
      reason ← shutdown_with_reason error;
      was ← gets connected;
      mret (Some (reconnect_result DisplayUpdate reason false was))
  | inr _ =>
      clip ← gets (λ c, latest_clipboard (s_input c));
      sent ← attempt
        (match clip with
         | Some s => on_world (client_input (CopyTextBytes (wire_bytes s)))
         | None => mret ()
         end);
      match sent with
      | inl error =>
          was ← gets connected;
          reason ← shutdown_with_reason (vnc_error_display error);
          mret (Some (reconnect_result (reconnect_reason was) reason false was))
      | inr _ => run_connected_vnc_session fuel
      end
  end.

(** ** The backend *)

(** The context a fresh session starts in. *)
Definition open_session (b : BackendCtx W) : SessionCtx W :=
  let '(w, t) := now (b_world b) in
  mk_sctx (mk_ctx w (b_clipboard b) [] pointer_default) (new_session t) (b_out b).
Definition close_session (c : SessionCtx W) : BackendCtx W :=
  mk_bctx (ctx_world (s_input c)) (latest_clipboard (s_input c)) (s_out c).

Definition begin_generation_call (b : BackendCtx W) : BackendCtx W :=
  mk_bctx (b_world b) (b_clipboard b) (b_out b ++ [LBegin]).

Definition run_vnc_session (fuel : nat) (options : RemoteDesktopConnectionOptions)
    (b : BackendCtx W) : BackendCtx W * outcome anyhow (option VncSessionResult) :=
  let b := b_status ("connecting to VNC " +:+ opt_destination options) b in
  let '(w, r) := connect_vnc options (b_world b) in
  let b := set_b_world w b in
  match r with
  | Err error =>
      let '(b, result) := connect_error_result error b in
      (b, Ok (Some result))
  | Panic => (b, Panic)
  | Ok _ =>
      let '(c, result) := session_body fuel (open_session (begin_generation_call b)) in
      (close_session c, result)
  end.

(** The loop of [run_vnc_backend]; each session and each wait get [session_fuel]. *)
Fixpoint backend_loop (fuel session_fuel : nat) (options : RemoteDesktopConnectionOptions)
    (reconnect_attempt : N) (b : BackendCtx W) : BackendCtx W * outcome anyhow (option ()) :=
  match fuel with
  | 0 => (b, Ok None)
  | S fuel' =>
      match run_vnc_session session_fuel options b with
      | (b, Err error) => (b, Err error)
      | (b, Panic) => (b, Panic)
      | (b, Ok None) => (b, Ok None)
      | (b, Ok (Some (ResClosed | ResInputClosed))) => (b, Ok (Some ()))
      | (b, Ok (Some (ResReconnect reason diagnostic manual was_connected))) =>
          let reconnect_attempt := if was_connected || manual then 0%N else reconnect_attempt in
          if manual
          then backend_loop fuel' session_fuel options reconnect_attempt
                 (send_reconnecting reason None b)
          else
            let delay := reconnect_delay reconnect_attempt in
            let b := send_reconnecting reason (Some delay) b in
            match wait_before_reconnect session_fuel (delay * 1000) b with
            | (b, None) => (b, Ok None)
            | (b, Some false) => (b, Ok (Some ()))
            | (b, Some true) =>
                backend_loop fuel' session_fuel options
                  (sat_add u64_max reconnect_attempt 1) b
            end
      end
  end.

Definition run_vnc_backend (fuel session_fuel : nat) (options : RemoteDesktopConnectionOptions)
    (w : W) : BackendCtx W * outcome anyhow (option ()) :=
  backend_loop fuel session_fuel options 0 (mk_bctx w None []).
End backend.

(** ** Lemmas: a running session *)

Section live.
Context `{VncWorldLaws W} (I : W → Prop).

(** The worlds of [I] only lead to each other, and their servers ask for no screen of
    the greatest size. *)
Class ClosedWorld : Prop := {
  closed_small : small_server I;
  closed_input e w : I w → I (client_input e w).1;
  closed_close w : I w → I (client_close w).1;
  closed_recv w : I w → I (input_try_recv w).1;
  closed_sleep d w : I w → I (sleep d w);
}.
Context `{!ClosedWorld}.

Definition in_world (c : InputCtx W) : Prop := I (ctx_world c).

(** What holds while a session runs. *)
Record live (c : SessionCtx W) : Prop := {
  live_world : in_world (s_input c);
  live_session : session_inv c;
  live_tracks : tracks (s_input c);
}.

Lemma live_set_input i c : in_world i → tracks i → live c → live (set_input i c).
Proof. intros Hi Ht [_ Hs _]. by split. Qed.

(** *** The input side *)

Lemma input_event_world e : keeps_safe in_world (input_event e).
Proof.
  intros c Hc. unfold input_event, map_err_comp, zoom, in_world in *. simpl.
  split; [by apply closed_input|]. pose proof (client_input_no_panic e (ctx_world c)).
  by destruct (client_input e (ctx_world c)) as [w' []].
Qed.

Lemma input_modify_world {E} (g : InputCtx W → InputCtx W) :
  (∀ c, ctx_world (g c) = ctx_world c) → keeps_safe (E:=E) in_world (modify g).
Proof. intros Hg c Hc. split; [|done]. unfold in_world. simpl. by rewrite Hg. Qed.

Lemma pure_world {E A} (r : InputCtx W → outcome E A) :
  (∀ c, r c ≠ Panic) → keeps_safe in_world (λ c, (c, r c)).
Proof. apply keeps_safe_pure. Qed.

Hint Resolve input_event_world : helper.

Lemma send_clipboard_text_world t : keeps_safe in_world (send_clipboard_text t).
Proof.
  unfold send_clipboard_text. destruct (encode t); [|by apply pure_world].
  apply keeps_safe_bind; [by apply input_modify_world|intros _].
  apply keeps_safe_bind; [auto with helper|by intros _; apply pure_world].
Qed.

Lemma send_pointer_world p : keeps_safe in_world
  (send_pointer_event p;; modify (set_pointer p);; mret Continue).
Proof.
  apply keeps_safe_bind; [apply input_event_world|intros _].
  apply keeps_safe_bind; [by apply input_modify_world|by intros _; apply pure_world].
Qed.

Lemma send_masks_world x y ms : keeps_safe in_world (send_masks x y ms).
Proof.
  induction ms as [|m ms IH]; [by apply pure_world|].
  apply keeps_safe_bind; [auto with helper|by intros _].
Qed.

Lemma keyboard_send_world k d : keeps_safe in_world (keyboard_send k d).
Proof.
  apply keeps_safe_bind; [apply keeps_safe_map_err, input_event_world|intros _].
  by apply input_modify_world.
Qed.

Lemma send_vnc_input_world i : keeps_safe in_world (send_vnc_input i).
Proof.
  destruct i as [? ?|x y|b d|v u|k d|t|t|?| |]; simpl; try by apply pure_world.
  - apply keeps_safe_bind; [by apply pure_world|intros p; apply send_pointer_world].
  - apply keeps_safe_bind; [by apply pure_world|intros p; apply send_pointer_world].
  - apply keeps_safe_bind; [by apply pure_world|intros p]. simpl.
    apply keeps_safe_bind; [apply send_masks_world|by intros _; apply pure_world].
  - apply keeps_safe_bind; [|by intros; apply pure_world].
    destruct (remote_key_to_keysym k); [apply keyboard_send_world|by apply pure_world].
  - apply send_clipboard_text_world.
  - apply send_clipboard_text_world.
Qed.

Lemma handle_inputs_world l : keeps_safe in_world (handle_inputs l).
Proof.
  induction l as [|i l IH]; [by apply pure_world|]. simpl. apply keeps_safe_bind.
  - apply keeps_safe_bind; [|by intros; apply pure_world].
    apply keeps_safe_attempt, send_vnc_input_world.
  - intros []; [apply IH|by apply pure_world..].
Qed.

Lemma drain_loop_world n l w : I w → I (drain_loop n l w).1.
Proof.
  revert l w. induction n as [|n IH]; intros l w Hw; [done|]. simpl.
  pose proof (closed_recv w Hw).
  destruct (input_try_recv w) as [w' []]; simpl in *; [by apply IH|done|done].
Qed.

Lemma handle_pending_inputs_world : keeps_safe in_world (handle_pending_inputs (W:=W)).
Proof.
  apply keeps_safe_bind.
  - intros c Hc. split; [|done]. by apply drain_loop_world.
  - intros []; [apply handle_inputs_world|by apply pure_world].
Qed.

(** *** One turn *)

Lemma live_inputs : keeps_safe live (on_input (handle_pending_inputs (W:=W))).
Proof.
  intros c Hc. unfold on_input, zoom.
  destruct (handle_pending_inputs_world (s_input c) (live_world _ Hc)) as [Hw Hp].
  split; [|exact Hp]. apply live_set_input; [exact Hw| |done].
  apply handle_pending_inputs_keeps, (live_tracks _ Hc).
Qed.

(** Polling and the clock change nothing the input side remembers. *)
Definition same_inputs (i i' : InputCtx W) : Prop :=
  accepted (ctx_world i') = accepted (ctx_world i) ∧ keyboard i' = keyboard i ∧
  pointer i' = pointer i.

Lemma tracks_same_inputs i i' : same_inputs i i' → tracks i → tracks i'.
Proof. intros (Ha & Hk & Hp) [K1 K2 K3 K4 K5]. split; rewrite ?Ha, ?Hk, ?Hp; done. Qed.

Lemma poll_loop_input fuel n c :
  in_world (s_input c) →
  in_world (s_input (poll_loop fuel n c).1) ∧
  same_inputs (s_input c) (s_input (poll_loop fuel n c).1).
Proof.
  revert n c. induction fuel as [|fuel IH]; intros n c Hc; [done|]. simpl.
  destruct (should_poll_server_event n); [|done]. rewrite comp_bind_run.
  unfold map_err_comp, on_world, zoom. cbn [fst snd].
  destruct (closed_small (ctx_world (s_input c)) Hc) as (Hw1 & _ & _).
  pose proof (client_poll_accepted (ctx_world (s_input c))) as Ha1.
  destruct (client_poll_event (ctx_world (s_input c))) as [w1 [[e|]|err|]]; simpl in *; try done.
  rewrite comp_bind_run. cbn [total fst snd]. rewrite comp_bind_run. cbn [modify fst snd].
  rewrite comp_bind_run. match goal with |- context [handle_event e ?c1] => set (c1' := c1) end.
  pose proof (handle_event_world e c1') as Hin.
  destruct (closed_small w1 Hw1) as (_ & Hw2 & _). pose proof (now_accepted w1) as Ha2.
  assert (in_world (s_input (handle_event e c1').1) ∧
    same_inputs (s_input c) (s_input (handle_event e c1').1)) as [Hw3 Hs3].
  { rewrite Hin. split; [exact Hw2|]. split_and!; simpl; [congruence|done|done]. }
  destruct (handle_event e c1') as [c2 [[]|m|]]; simpl in *; [|done|done].
  destruct (IH (S n) c2 Hw3) as [Hw4 (Ha4 & Hk4 & Hp4)]. split; [done|].
  destruct Hs3 as (Ha3 & Hk3 & Hp3). split_and!; congruence.
Qed.

Lemma flush_frame_input (c : SessionCtx W) : s_input (flush_frame c).1 = s_input c.
Proof.
  unfold flush_frame. rewrite comp_bind_run. cbn [gets fst snd].
  destruct (framebuffer _); [|done]. destruct (dirty_rects _); [done|].
  destruct (keyframe _); [done|]. rewrite comp_bind_run. cbn [modify fst snd].
  rewrite comp_bind_run. unfold lift_outcome. by destruct (clone_rects _ _ _).
Qed.

Lemma live_poll : keeps_safe live (poll_events (W:=W)).
Proof.
  intros c [Hw Hs Ht].
  destruct (poll_events_inv I c closed_small Hw Hs) as (Hs' & Hp & _).
  split; [|done]. unfold poll_events in *. rewrite comp_bind_run in *.
  destruct (poll_loop_input (S MAX_SERVER_EVENTS_PER_POLL) 0 c Hw) as [Hw' Hsame].
  destruct (poll_loop _ 0 c) as [c1 [[]|e|]]; simpl in *.
  - split; [by rewrite flush_frame_input|done|].
    rewrite flush_frame_input. by eapply tracks_same_inputs.
  - split; [done|done|]. by eapply tracks_same_inputs.
  - split; [done|done|]. by eapply tracks_same_inputs.
Qed.

Lemma live_sent e w' c :
  (∀ k b, note_key k b e = b) → (∀ p, note_pointer p e = p) → I w' →
  accepted w' = accepted (ctx_world (s_input c)) ++ [e] ∨
    accepted w' = accepted (ctx_world (s_input c)) →
  live c → live (set_input (set_world w' (s_input c)) c).
Proof.
  intros Hk Hp Hw Ha [_ Hs Ht]. split; [done|done|]. simpl.
  destruct Ha as [Ha|Ha]; [by eapply tracks_other|by apply tracks_refused].
Qed.

(** Requests to the server that move no key and no pointer. *)
Lemma live_client_input e :
  (∀ k b, note_key k b e = b) → (∀ p, note_pointer p e = p) →
  keeps_safe live (on_world (client_input e)).
Proof.
  intros Hk Hp c Hc. unfold on_world, zoom. simpl.
  pose proof (client_input_accepted e (ctx_world (s_input c))) as Ha.
  split; [|apply client_input_no_panic].
  eapply live_sent; [done|done|apply closed_input, Hc| |done].
  rewrite Ha. destruct (is_ok _); [by left|right; by rewrite app_nil_r].
Qed.

(** Bookkeeping of the session that is not the framebuffer's. *)
Lemma live_modify {E} (g : SessionCtx W → SessionCtx W) :
  (∀ c, s_input (g c) = s_input c ∧ get_fb_state (g c) = get_fb_state c ∧
    s_out (g c) = s_out c) →
  keeps_safe (E:=E) live (modify g).
Proof.
  intros Hg c [Hw Hs Ht]. destruct (Hg c) as (Hi & Hf & Ho). split; [|done].
  split; simpl; [by rewrite Hi| |by rewrite Hi]. unfold session_inv. by rewrite Hf, Ho.
Qed.

Lemma live_pure {E A} (r : SessionCtx W → outcome E A) :
  (∀ c, r c ≠ Panic) → keeps_safe live (λ c, (c, r c)).
Proof. apply keeps_safe_pure. Qed.

Lemma live_now : keeps_safe (E:=string) live (on_world (total now)).
Proof.
  intros c Hc. split; [|done]. unfold on_world, zoom. simpl.
  apply live_set_input; [by apply closed_small, Hc| |done].
  eapply tracks_same_inputs; [|apply Hc]. split_and!; [apply now_accepted|done|done].
Qed.

Lemma live_refresh : keeps_safe live (refresh_if_needed (W:=W)).
Proof.
  apply keeps_safe_bind; [apply live_now|intros t].
  apply keeps_safe_bind; [by apply live_pure|intros s].
  destruct (session_refresh_action t s); try by apply live_pure.
  - apply keeps_safe_bind; [|intros _; by apply live_modify].
    by apply keeps_safe_map_err, live_client_input.
  - apply keeps_safe_bind; [|intros _; by apply live_modify].
    by apply keeps_safe_map_err, live_client_input.
Qed.

Lemma live_turn : keeps_safe live (session_turn (W:=W)).
Proof.
  apply keeps_safe_bind; [apply keeps_safe_attempt, live_poll|intros [reason|[]]].
  { apply keeps_safe_bind; [by apply live_pure|by intros was; apply live_pure]. }
  apply keeps_safe_bind; [apply live_inputs|intros action].
  apply keeps_safe_bind; [by apply live_pure|intros was].
  destruct (session_result_from_action action was); [by apply live_pure|].
  apply keeps_safe_bind; [apply keeps_safe_attempt, live_refresh|intros [reason|[]]].
  - apply keeps_safe_bind; [by apply live_pure|by intros was'; apply live_pure].
  - by apply live_pure.
Qed.

Lemma live_loop fuel : keeps_safe live (session_loop (W:=W) fuel).
Proof.
  induction fuel as [|fuel IH]; [by apply live_pure|]. simpl.
  apply keeps_safe_bind; [apply live_turn|intros [result|]]; [by apply live_pure|].
  apply keeps_safe_bind; [|by intros _].
  intros c Hc. split; [|done]. unfold on_world, zoom. simpl.
  apply live_set_input; [by apply closed_sleep, Hc| |done].
  eapply tracks_same_inputs; [|apply Hc]. split_and!; [apply sleep_accepted|done|done].
Qed.
End live.

(** ** Lemmas: the end of a session *)

Section ending.
Context `{VncWorldLaws W} (I : W → Prop) `{!ClosedWorld I}.
Implicit Types c : SessionCtx W.

(** The session [c] was alive when its inputs were released, and nothing but the
    world has changed since. *)
Definition ended c' : Prop :=
  ∃ c w', live I c ∧ s_input c' = set_world w' (shutdown_inputs (s_input c)).1 ∧
    accepted w' = accepted (ctx_world (shutdown_inputs (s_input c)).1) ∧
    s_session c' = s_session c ∧ s_out c' = s_out c.

Lemma shutdown_session_run c :
  live I c → ended (shutdown_session c).1 ∧ (shutdown_session c).2 ≠ Panic.
Proof.
  intros Hc. unfold shutdown_session. rewrite comp_bind_run.
  destruct (shutdown_inputs_run (s_input c)) as (c1 & ok & r1 & w2 & ptr & r2 & Hrun & Hr1 & Hr2 & _).
  assert (∃ r, (attempt (F:=anyhow) (on_input shutdown_inputs) c) =
    (set_input (shutdown_inputs (s_input c)).1 c, Ok r)) as [r ->].
  { unfold attempt, on_input, zoom. rewrite Hrun. simpl.
    destruct r1 as [[]|e1|]; [|by eexists|done]. destruct r2 as [[]|e2|]; by eexists. }
  cbn [fst snd]. rewrite comp_bind_run. unfold attempt, on_world, zoom. cbn [fst snd].
  set (c2 := set_input _ c).
  pose proof (client_close_accepted (ctx_world (s_input c2))) as Ha.
  pose proof (client_close_no_panic (ctx_world (s_input c2))) as Hp.
  destruct (client_close (ctx_world (s_input c2))) as [w' [[]|e|]]; simpl in *; try done;
    destruct r as [e'|[]]; (split; [|done]); exists c, w'; done.
Qed.

Lemma ended_released c' : ended c' → keyboard (s_input c') = [] ∧ buttons (pointer (s_input c')) = 0%N.
Proof.
  intros (c & w' & Hc & -> & _).
  destruct (shutdown_inputs_run (s_input c)) as (c1 & ok & r1 & w2 & ptr & r2 & -> & _). done.
Qed.

Lemma ended_session_inv c' : ended c' → session_inv c'.
Proof.
  intros (c & w' & [_ Hs _] & _ & _ & Hss & Ho). unfold session_inv, get_fb_state in *.
  by rewrite Hss, Ho.
Qed.

(** A call that gets to a result has shut the session down. *)
Definition finishes {A} (m : comp (SessionCtx W) anyhow (option A)) : Prop :=
  ∀ c, live I c →
    ∃ c' r, m c = (c', Ok r) ∧ match r with Some _ => ended c' | None => live I c' end.

Lemma session_turn_ok c : live I c → ∃ r, (session_turn c).2 = Ok r.
Proof.
  intros Hc. unfold session_turn. rewrite comp_bind_run.
  destruct (live_poll I c Hc) as [Hc1 Hp1]. unfold attempt at 1 2 3.
  destruct (poll_events c) as [c1 [[]|e|]]; simpl in *; [|by eexists|done].
  rewrite comp_bind_run.
  assert (∃ a, (on_input (handle_pending_inputs (W:=W)) c1).2 = Ok a) as [a Ha]
    by apply handle_pending_inputs_total.
  destruct (live_inputs I c1 Hc1) as [Hc2 _]. rewrite Ha.
  destruct (on_input handle_pending_inputs c1) as [c2 r2]. simpl in *.
  rewrite comp_bind_run. cbn [gets fst snd].
  destruct (session_result_from_action a (connected c2)); [by eexists|].
  rewrite comp_bind_run. destruct (live_refresh I c2 Hc2) as [_ Hp3]. unfold attempt.
  destruct (refresh_if_needed c2) as [c3 [[]|e|]]; simpl in *; [by eexists| |done].
  by eexists.
Qed.

Lemma session_loop_ok fuel c : live I c → ∃ r, (session_loop fuel c).2 = Ok r.
Proof.
  revert c. induction fuel as [|fuel IH]; intros c Hc; [by eexists|]. simpl.
  rewrite comp_bind_run. destruct (session_turn_ok c Hc) as [r Hr].
  destruct (live_turn I c Hc) as [Hc1 _]. rewrite Hr.
  destruct (session_turn c) as [c1 r1]. simpl in *. destruct r as [result|]; [by eexists|].
  rewrite comp_bind_run. unfold on_world, zoom, total. cbn [fst snd]. apply IH.
  apply live_set_input; [by apply closed_sleep, Hc1| |done].
  eapply tracks_same_inputs; [|apply Hc1]. split_and!; [apply sleep_accepted|done|done].
Qed.

Lemma run_connected_finishes fuel : finishes (run_connected_vnc_session fuel).
Proof.
  intros c Hc. unfold run_connected_vnc_session. rewrite comp_bind_run.
  destruct (session_loop_ok fuel c Hc) as [r Hr]. destruct (live_loop I fuel c Hc) as [Hc1 _].
  rewrite Hr. destruct (session_loop fuel c) as [c1 r1]. cbn [fst snd] in *.
  destruct r as [result|]; [|by exists c1, None].
  rewrite comp_bind_run. destruct (shutdown_session_run c1 Hc1) as [He Hp].
  unfold attempt. destruct (shutdown_session c1) as [c2 [[]|e|]]; cbn [fst snd] in *; [| |done];
    by eexists c2, (Some _).
Qed.

Lemma shutdown_with_reason_run reason c :
  live I c → ∃ c' m, shutdown_with_reason reason c = (c', Ok m) ∧ ended c'.
Proof.
  intros Hc. unfold shutdown_with_reason. rewrite comp_bind_run.
  destruct (shutdown_session_run c Hc) as [He Hp]. unfold attempt.
  destruct (shutdown_session c) as [c2 [[]|e|]]; cbn [fst snd] in *; [| |done];
    by eexists c2, _.
Qed.

(** The clipboard a new session starts by sending. *)
Lemma live_clipboard clip :
  keeps_safe (live I) (E:=VncError)
    (match clip with
     | Some s => on_world (client_input (CopyTextBytes (wire_bytes s)))
     | None => mret ()
     end).
Proof. destruct clip; [by apply live_client_input|by apply live_pure]. Qed.

Lemma session_body_finishes fuel : finishes (session_body fuel).
Proof.
  intros c Hc. unfold session_body. rewrite comp_bind_run.
  assert (keeps_safe (live I) (request_initial_refresh (W:=W))) as Hreq.
  { by apply keeps_safe_map_err, live_client_input. }
  destruct (Hreq c Hc) as [Hc1 Hp1]. unfold attempt at 1 2 3.
  destruct (request_initial_refresh c) as [c1 [[]|e|]]; cbn [fst snd] in *; [| |done].
  - rewrite comp_bind_run. cbn [gets fst snd]. rewrite comp_bind_run.
    destruct (live_clipboard (latest_clipboard (s_input c1)) c1 Hc1) as [Hc2 Hp2].
    unfold attempt. destruct (match latest_clipboard (s_input c1) with
      | Some s => on_world (client_input (CopyTextBytes (wire_bytes s)))
      | None => mret () end c1) as [c2 [[]|e|]]; cbn [fst snd] in *; [| |done].
    + by apply run_connected_finishes.
    + rewrite comp_bind_run. cbn [gets fst snd]. rewrite comp_bind_run.
      destruct (shutdown_with_reason_run (vnc_error_display e) c2 Hc2) as (c3 & m & -> & He).
      by eexists c3, (Some _).
  - rewrite comp_bind_run.
    destruct (shutdown_with_reason_run e c1 Hc1) as (c3 & m & -> & He). cbn [fst snd].
    rewrite comp_bind_run. by eexists c3, (Some _).
Qed.
End ending.

(** ** Lemmas: the announcements *)

(** The reconnect announcements among the calls. *)
Definition reconnects (ls : list Label) : list RemoteDesktopReconnect :=
  omap (λ l, match l with LSend (Reconnecting r) _ => Some r | _ => None end) ls.

Lemma reconnects_snoc ls l : reconnects (ls ++ [l]) = reconnects ls ++ reconnects [l].
Proof. apply omap_app. Qed.

Section announcements.
Context `{VncWorld W}.

(** Calls that announce no reconnect. *)
Definition silent {E A} (m : comp (SessionCtx W) E A) : Prop :=
  ∀ rs, run_ensures (λ c, reconnects (s_out c) = rs) m (λ c _, reconnects (s_out c) = rs).

Lemma silent_bind {E A B} (m : comp (SessionCtx W) E A) (f : A → comp (SessionCtx W) E B) :
  silent m → (∀ a, silent (f a)) → silent (m ≫= f).
Proof. intros Hm Hf rs. apply run_ensures_bind; [apply Hm|intros a; apply Hf]. Qed.

Lemma silent_same {E A} (m : comp (SessionCtx W) E A) :
  (∀ c, s_out (m c).1 = s_out c) → silent m.
Proof. intros Hm rs c Hc. by rewrite Hm. Qed.

Lemma silent_attempt {E F A} (m : comp (SessionCtx W) E A) : silent m → silent (attempt (F:=F) m).
Proof. intros Hm rs c Hc. destruct (attempt_run (F:=F) m c) as [-> _]. by apply Hm. Qed.

Lemma silent_send {E} o :
  (∀ r, o ≠ Reconnecting r) → silent (out_send (E:=E) o).
Proof.
  intros Ho rs c Hc. simpl. rewrite reconnects_snoc, Hc.
  destruct o; try (by rewrite app_nil_r). destruct (Ho reconnect eq_refl).
Qed.

Lemma silent_event e : silent (handle_event e).
Proof.
  destruct e as [s| |r data|dst src| | | |t|bs|]; simpl; try by apply silent_same.
  - apply silent_bind; [|intros _; by apply silent_same].
    apply silent_bind; [by apply silent_same|intros _; by apply silent_send].
  - apply silent_same. intros c. unfold fb_patch_rect. rewrite comp_bind_run. cbn [gets fst snd].
    destruct (framebuffer _); [|done]. rewrite comp_bind_run. unfold lift_outcome.
    by destruct (patch_rgba_rect _ _ _ _ _ _).
  - apply silent_same. intros c. unfold fb_copy_rect. rewrite comp_bind_run. cbn [gets fst snd].
    destruct (framebuffer _); [|done]. rewrite comp_bind_run. unfold lift_outcome.
    by destruct (Framebuffer.copy_rect _ _ _ _ _ _ _).
  - by apply silent_send.
  - by apply silent_send.
  - destruct (decode_clipboard_text bs); [by apply silent_send|by apply silent_same].
Qed.

Lemma silent_poll : silent (poll_events (W:=W)).
Proof.
  apply silent_bind.
  - generalize 0. induction (S MAX_SERVER_EVENTS_PER_POLL) as [|fuel IH]; intros n;
      [by apply silent_same|]. simpl.
    destruct (should_poll_server_event n); [|by apply silent_same].
    apply silent_bind; [by apply silent_same|intros [e|]]; [|by apply silent_same].
    apply silent_bind; [by apply silent_same|intros t].
    apply silent_bind; [by apply silent_same|intros _].
    apply silent_bind; [apply silent_event|intros _; apply IH].
  - intros _. apply silent_bind; [by apply silent_same|intros f].
    destruct (framebuffer f); [|by apply silent_same].
    destruct (dirty_rects f); [by apply silent_same|].
    destruct (keyframe f).
    + apply silent_bind; [by apply silent_send|intros _; by apply silent_same].
    + apply silent_bind; [by apply silent_same|intros _].
      apply silent_bind; [by apply silent_same|intros bgra; by apply silent_send].
Qed.

Lemma silent_refresh : silent (refresh_if_needed (W:=W)).
Proof.
  apply silent_bind; [by apply silent_same|intros t].
  apply silent_bind; [by apply silent_same|intros s].
  destruct (session_refresh_action t s); try by apply silent_same.
  all: apply silent_bind; [by apply silent_same|intros _; by apply silent_same].
Qed.

Lemma silent_shutdown : silent (shutdown_session (W:=W)).
Proof.
  do 2 (apply silent_bind; [by apply silent_attempt, silent_same|intros ?]).
  destruct a as [e|[]], a0 as [e'|[]]; by apply silent_same.
Qed.

Lemma silent_with_reason reason : silent (shutdown_with_reason (W:=W) reason).
Proof.
  apply silent_bind; [apply silent_attempt, silent_shutdown|intros; by apply silent_same].
Qed.

Lemma silent_loop fuel : silent (session_loop (W:=W) fuel).
Proof.
  induction fuel as [|fuel IH]; [by apply silent_same|]. simpl.
  apply silent_bind.
  - apply silent_bind; [apply silent_attempt, silent_poll|intros [reason|[]]].
    { apply silent_bind; [by apply silent_same|by intros was; apply silent_same]. }
    apply silent_bind; [by apply silent_same|intros action].
    apply silent_bind; [by apply silent_same|intros was].
    destruct (session_result_from_action action was); [by apply silent_same|].
    apply silent_bind; [apply silent_attempt, silent_refresh|intros [reason|[]]];
      [|by apply silent_same].
    apply silent_bind; [by apply silent_same|by intros was'; apply silent_same].
  - intros [result|]; [by apply silent_same|].
    apply silent_bind; [by apply silent_same|by intros _].
Qed.

Lemma silent_body fuel : silent (session_body (W:=W) fuel).
Proof.
  apply silent_bind; [by apply silent_attempt, silent_same|intros [e|[]]].
  - apply silent_bind; [apply silent_with_reason|intros reason].
    apply silent_bind; [by apply silent_same|by intros was; apply silent_same].
  - apply silent_bind; [by apply silent_same|intros clip].
    apply silent_bind; [apply silent_attempt|intros [e|[]]].
    + destruct clip; by apply silent_same.
    + apply silent_bind; [by apply silent_same|intros was].
      apply silent_bind; [apply silent_with_reason|by intros reason; apply silent_same].
    + apply silent_bind; [apply silent_loop|intros [result|]]; [|by apply silent_same].
      apply silent_bind; [apply silent_attempt, silent_shutdown|].
      intros r. by apply silent_same.
Qed.

Lemma run_vnc_session_silent fuel options (b : BackendCtx W) :
  reconnects (b_out (run_vnc_session fuel options b).1) = reconnects (b_out b).
Proof.
  unfold run_vnc_session. simpl.
  destruct (connect_vnc options (b_world b)) as [w [u|e|]]; simpl.
  - set (c := open_session _).
    assert (reconnects (s_out c) = reconnects (b_out b)) as Hc.
    { subst c. unfold open_session. simpl. destruct (now w). simpl.
      by rewrite !reconnects_snoc, !app_nil_r. }
    pose proof (silent_body fuel _ c Hc) as Hb. by destruct (session_body fuel c).
  - unfold connect_error_result. destruct (is_terminal_connect_error e); simpl;
      by rewrite !reconnects_snoc, !app_nil_r.
  - by rewrite !reconnects_snoc, !app_nil_r.
Qed.

Lemma wait_loop_out fuel deadline (b : BackendCtx W) :
  b_out (wait_loop fuel deadline b).1 = b_out b.
Proof.
  revert b. induction fuel as [|fuel IH]; intros b; [done|]. cbn [wait_loop].
  assert (∀ n a b, b_out (handle_wait_loop n a b).1 = b_out b) as Hin.
  { clear. intros n. induction n as [|n IH]; intros a b; [done|]. simpl.
    destruct (input_try_recv (b_world b)) as [w' [[]| |]]; simpl; try done; rewrite ?IH; try done.
    all: by destruct (encode t). }
  unfold handle_wait_input. specialize (Hin MAX_RECONNECT_WAIT_INPUTS_PER_POLL WaitContinue b).
  destruct (handle_wait_loop _ _ b) as [b1 []]; simpl in Hin; [|done|done].
  destruct (now (b_world b1)) as [w2 t]. destruct (deadline <=? t)%N; [done|].
  by rewrite IH.
Qed.
End announcements.

(** ** Lemmas: manual results *)

(** A result is manual exactly when its reason says so. *)
Definition manual_reason (result : VncSessionResult) : Prop :=
  match result with
  | ResReconnect reason _ manual _ => manual = true ↔ reason = Manual
  | _ => True
  end.

Definition manual_if_some (r : option VncSessionResult) : Prop :=
  match r with Some result => manual_reason result | None => True end.

Section returns.
Context `{VncWorld W}.

Definition returns {E A} (Q : A → Prop) (m : comp (SessionCtx W) E A) : Prop :=
  ∀ c r, (m c).2 = Ok r → Q r.

Lemma returns_bind {E A B} (Q : B → Prop) (m : comp (SessionCtx W) E A)
    (f : A → comp (SessionCtx W) E B) :
  (∀ a, returns Q (f a)) → returns Q (m ≫= f).
Proof.
  intros Hf c r. rewrite comp_bind_run. destruct (m c) as [c' []]; simpl; [apply Hf|done|done].
Qed.

Lemma returns_after {E A B} (P : A → Prop) (Q : B → Prop) (m : comp (SessionCtx W) E A)
    (f : A → comp (SessionCtx W) E B) :
  returns P m → (∀ a, P a → returns Q (f a)) → returns Q (m ≫= f).
Proof.
  intros Hm Hf c r. rewrite comp_bind_run. specialize (Hm c).
  destruct (m c) as [c' []]; simpl in *; [apply Hf; by apply Hm|done|done].
Qed.

Lemma returns_ret {E A} (Q : A → Prop) a : Q a → returns (E:=E) Q (mret a).
Proof. by intros Ha c r [= <-]. Qed.

Lemma reconnect_reason_manual was : reconnect_reason was ≠ Manual.
Proof. by destruct was. Qed.

Lemma manual_automatic reason diagnostic was :
  reason ≠ Manual → manual_if_some (Some (reconnect_result reason diagnostic false was)).
Proof. intros Hr. split; done. Qed.
Hint Resolve reconnect_reason_manual manual_automatic : helper.

Lemma session_turn_manual : returns manual_if_some (session_turn (W:=W)).
Proof.
  apply returns_bind. intros [reason|[]].
  { apply returns_bind. intros was. apply returns_ret. auto with helper. }
  apply returns_bind. intros action. apply returns_bind. intros was.
  destruct action; simpl; try by apply returns_ret.
  - apply returns_bind. intros [reason|[]]; [|by apply returns_ret].
    apply returns_bind. intros was'. apply returns_ret. by apply manual_automatic.
  - apply returns_ret. apply manual_automatic, reconnect_reason_manual.
Qed.

Lemma session_loop_manual fuel : returns manual_if_some (session_loop (W:=W) fuel).
Proof.
  induction fuel as [|fuel IH]; [by apply returns_ret|]. simpl.
  eapply returns_after; [apply session_turn_manual|]. intros [result|] Hr.
  - by apply returns_ret.
  - apply returns_bind. by intros _.
Qed.

Lemma session_body_manual fuel : returns manual_if_some (session_body (W:=W) fuel).
Proof.
  apply returns_bind. intros [e|[]].
  - apply returns_bind. intros reason. apply returns_bind. intros was.
    apply returns_ret. by apply manual_automatic.
  - apply returns_bind. intros clip. apply returns_bind. intros [e|[]].
    + apply returns_bind. intros was. apply returns_bind. intros reason.
      apply returns_ret. apply manual_automatic, reconnect_reason_manual.
    + eapply returns_after; [apply session_loop_manual|].
      intros [result|] Hr; [|by apply returns_ret].
      apply returns_bind. intros [error|[]]; apply returns_ret; by destruct result.
Qed.

Lemma run_vnc_session_manual fuel options (b : BackendCtx W) r :
  (run_vnc_session fuel options b).2 = Ok r → manual_if_some r.
Proof.
  unfold run_vnc_session. simpl.
  destruct (connect_vnc options (b_world b)) as [w [u|e|]]; simpl.
  - pose proof (session_body_manual fuel (open_session
      (begin_generation_call (set_b_world w (b_status
        ("connecting to VNC " +:+ opt_destination options) b))))) as Hb.
    destruct (session_body fuel _) as [c res]. simpl in *. apply Hb.
  - unfold connect_error_result. destruct (is_terminal_connect_error e); simpl;
      intros [= <-]; [done|]. by apply manual_automatic.
  - done.
Qed.
End returns.

(** ** Properties *)

(** What may be announced after the previous countdown: none for a manual reconnect;
    otherwise one second, or the next step of 1, 2, 5, 10, 10, ... *)
Definition next_delay (d : N) : N :=
  match d with 1 => 2 | 2 => 5 | _ => 10 end%N.

Fixpoint backoff (previous : option N) (rs : list RemoteDesktopReconnect) : Prop :=
  match rs with
  | [] => True
  | r :: rs' =>
      match rec_delay_secs r with
      | None => rec_reason r = Manual
      | Some d => rec_reason r ≠ Manual ∧ (d = 1%N ∨ next_delay <$> previous = Some d)
      end ∧ backoff (rec_delay_secs r) rs'
  end.

Lemma reconnect_delay_big n : (3 <= n)%N → reconnect_delay n = 10%N.
Proof. destruct n as [|[p|[p|p|]|]]; intros Hn; try done; lia. Qed.

Lemma reconnect_delay_next n :
  (0 < n)%N → reconnect_delay n = next_delay (reconnect_delay (n - 1)).
Proof.
  intros Hn. destruct (decide (n <= 3)%N) as [Hle|Hgt].
  - assert (n = 1 ∨ n = 2 ∨ n = 3)%N as [->|[->| ->]] by lia; done.
  - by rewrite !reconnect_delay_big by lia.
Qed.

(** How the attempt counter relates to the last countdown. *)
Definition counts (attempt : N) (previous : option N) : Prop :=
  attempt = 0%N ∨ previous = Some (reconnect_delay (attempt - 1)).

Lemma backend_loop_backoff `{VncWorld W} fuel session_fuel options attempt previous
    (b : BackendCtx W) :
  counts attempt previous →
  ∃ rs, reconnects (b_out (backend_loop fuel session_fuel options attempt b).1) =
    reconnects (b_out b) ++ rs ∧ backoff previous rs.
Proof.
  revert attempt previous b. induction fuel as [|fuel IH]; intros attempt previous b Hcount; simpl.
  { exists []. by rewrite app_nil_r. }
  pose proof (run_vnc_session_silent session_fuel options b) as Hout.
  pose proof (run_vnc_session_manual session_fuel options b) as Hman.
  destruct (run_vnc_session session_fuel options b) as [b1 r1]. cbn [fst snd] in *.
  rewrite <-Hout. clear Hout b.
  assert (∃ rs, reconnects (b_out b1) = reconnects (b_out b1) ++ rs ∧ backoff previous rs) as Hstop.
  { exists []. by rewrite app_nil_r. }
  destruct r1 as [[[| |reason diagnostic manual was]|]|e|]; try exact Hstop.
  specialize (Hman _ eq_refl). simpl in Hman. destruct manual.
  - rewrite orb_true_r.
    destruct (IH 0%N None (send_reconnecting reason None b1)) as (rs & -> & Hrs); [by left|].
    exists (mk_reconnect reason None :: rs). simpl. rewrite reconnects_snoc, <-app_assoc.
    split; [done|]. split; [by apply Hman|done].
  - rewrite orb_false_r. set (n := if was then 0%N else attempt).
    assert (counts n previous) as Hn by (subst n; destruct was; [by left|done]).
    clearbody n.
    set (b2 := send_reconnecting reason (Some (reconnect_delay n)) b1).
    assert (rec_reason (mk_reconnect reason (Some (reconnect_delay n))) ≠ Manual ∧
      (reconnect_delay n = 1%N ∨ next_delay <$> previous = Some (reconnect_delay n))) as Hfirst.
    { split; [simpl; intros Hr; by apply Hman in Hr|].
      destruct Hn as [->| ->]; [by left|]. simpl.
      destruct (decide (n = 0%N)) as [->|Hn0]; [by left|right]. f_equal.
      symmetry. apply reconnect_delay_next. lia. }
    assert (∃ rs, reconnects (b_out b2) = reconnects (b_out b1) ++ rs ∧ backoff previous rs) as Hend.
    { exists [mk_reconnect reason (Some (reconnect_delay n))]. split; [apply reconnects_snoc|].
      by split. }
    unfold wait_before_reconnect.
    pose proof (wait_loop_out session_fuel ((now (b_world b2)).2 + reconnect_delay n * 1000)
      (set_b_world (now (b_world b2)).1 b2)) as Hwait.
    destruct (now (b_world b2)) as [w t]. cbn [fst snd] in *.
    destruct (wait_loop _ _ _) as [b3 [[]|]]; cbn [fst snd] in *; [|by rewrite Hwait..].
    destruct (IH (sat_add u64_max n 1) (Some (reconnect_delay n)) b3) as (rs & -> & Hrs).
    { right. f_equal. unfold sat_add. destruct (decide (n < u64_max)%N).
      - rewrite N.min_r by lia. f_equal. lia.
      - rewrite N.min_l by lia. destruct (decide (n = u64_max)) as [->|]; [done|].
        by rewrite !reconnect_delay_big by lia. }
    exists (mk_reconnect reason (Some (reconnect_delay n)) :: rs).
    rewrite Hwait. cbn [set_b_world b_out b2 send_reconnecting b_send].
    rewrite reconnects_snoc, <-app_assoc. split; [done|]. by split.
Qed.

Section theorems.
Context `{VncWorldLaws W}.

(** C7: a session always cleans up.  In a world whose server asks for no screen of the
  greatest size, a session that starts alive never panics and never fails with an
  error; if it has not finished within its fuel it is still alive (the framebuffer,
  the outputs and the held keys as C11 and C15 describe them); and if it has, it
  ended by releasing its inputs as C14 describes and closing the engine, so that it
  remembers no key and no button, whatever ended it. *)
Theorem session_cleans_up (I : W → Prop) fuel (c : SessionCtx W) :
ClosedWorld I → live I c →
∃ c' r, session_body fuel c = (c', Ok r) ∧ session_inv c' ∧
  match r with
  | None => live I c'
  | Some _ =>
      (∃ c1, live I c1 ∧
         accepted (ctx_world (s_input c')) = accepted (ctx_world (shutdown_inputs (s_input c1)).1)) ∧
      keyboard (s_input c') = [] ∧ buttons (pointer (s_input c')) = 0%N
  end.
Proof.
intros HI Hc. destruct (session_body_finishes I fuel c Hc) as (c' & r & -> & Hr).
exists c', r. split; [done|]. destruct r as [result|].
- split; [by eapply ended_session_inv|]. split; [|by eapply ended_released].
  destruct Hr as (c1 & w' & Hc1 & Hin & Hacc & _). exists c1. split; [done|].
  by rewrite Hin, <-Hacc.
- split; [apply Hr|done].
Qed.

(** The announced reconnects follow the schedule.  In every run of the backend,
  however its sessions and waits went, each announcement without a countdown is a
  manual reconnect, and each countdown is 1 second or the step after the previous
  one in 1, 2, 5, 10, 10, ...; after a manual reconnect the schedule starts over. *)
Theorem reconnect_backoff fuel session_fuel options (w : W) :
backoff None (reconnects (b_out (run_vnc_backend fuel session_fuel options w).1)).
Proof.
unfold run_vnc_backend.
destruct (backend_loop_backoff fuel session_fuel options 0 None (mk_bctx w None []))
  as (rs & -> & Hrs); [by left|done].
Qed.

(** A connection that the server refuses for good is not retried.  When the
  connection fails with a terminal error, the backend's whole output is the status
  line and one [ConnectionFailure], marked as an authentication failure exactly
  when the chain holds an authentication error (all of which are terminal), and the
  backend ends; any other connection error sends nothing more and ends the session
  with an automatic reconnect for a session error. *)
Theorem terminal_connect_error_stops fuel session_fuel options (w w' : W) error :
connect_vnc options w = (w', Err error) →
let status := LSend (Status ("connecting to VNC " +:+ opt_destination options)) true in
(chain_any is_authentication_error error = true → is_terminal_connect_error error = true) ∧
(is_terminal_connect_error error = true →
 run_vnc_backend (S fuel) session_fuel options w =
   (mk_bctx w' None [status; LSend (ConnectionFailure
      (if chain_any is_authentication_error error
       then "VNC authentication failed: " +:+ error_to_string error
       else error_to_string error)) true], Ok (Some ()))) ∧
(is_terminal_connect_error error = false →
 run_vnc_session session_fuel options (mk_bctx w None []) =
   (mk_bctx w' None [status],
    Ok (Some (ResReconnect SessionError (error_to_string error) false false)))).
Proof.
intros Hconn status. split_and!.
- unfold is_terminal_connect_error, chain_any. rewrite !existsb_exists.
  intros (cause & Hin & Hc). exists cause. split; [done|].
  destruct cause as [m|[]]; done.
- intros Hterm. unfold run_vnc_backend. cbn [backend_loop].
  unfold run_vnc_session. cbn [b_world b_status b_send]. rewrite Hconn.
  unfold connect_error_result. by rewrite Hterm.
- intros Hterm. unfold run_vnc_session. cbn [b_world b_status b_send]. rewrite Hconn.
  unfold connect_error_result. by rewrite Hterm.
Qed.
End theorems.

(** ** Witnesses *)

(** Every world of scripts whose remaining events are small. *)
#[export] Instance small_script_closed : ClosedWorld small_script.
Proof.
  split; [apply small_script_server| |done| |done].
  - intros e w Hw. simpl. unfold script_reply, small_script in *.
    by destruct (sc_replies w) as [|[] ?].
  - intros w Hw. simpl. unfold small_script in *. by destruct (sc_inputs w).
Qed.

Definition session_script (inputs : list TryRecv) (connects : list (outcome anyhow ())) : Script :=
  mk_script [] (((λ e, Ok (Some e)) <$>
    [SetResolution (mk_screen 2 1); RawImage (mk_rect 0 0 2 1) (red ++ blue)])) inputs connects 7 [].

Definition pressed_then_closed : SessionCtx Script :=
  mk_sctx (mk_ctx (session_script [Input (Key (KeySym 97) true); Input Close; Empty] []) None []
    pointer_default) (new_session 0) [].

Lemma session_cleans_up_witness :
  ∃ c', session_body 4 pressed_then_closed = (c', Ok (Some ResClosed)) ∧
    keyboard (s_input c') = [] ∧ session_inv c' ∧
    accepted (ctx_world (s_input c')) = [FullRefresh; KeyEvent 97 true; KeyEvent 97 false].
Proof.
  destruct (session_cleans_up small_script 4 pressed_then_closed) as (c' & r & Hrun & Hinv & Hr).
  - apply _.
  - split; [by repeat constructor|by split|].
    split; simpl; try done; [constructor|]. intros k. split; [by intros ?%not_elem_of_nil|done].
  - exists c'. vm_compute in Hrun. injection Hrun as Hc Hres. subst r c'.
    destruct Hr as (_ & Hk & _). split; [reflexivity|]. split; [exact Hk|]. split; [exact Hinv|].
    reflexivity.
Defined.

Definition demo_options : RemoteDesktopConnectionOptions := mk_options "host:5900" None None None.

Lemma terminal_connect_error_stops_witness :
  b_out (run_vnc_backend 1 1 demo_options (session_script [] [Err [CauseVnc WrongPassword]])).1 =
    [LSend (Status "connecting to VNC host:5900") true;
     LSend (ConnectionFailure "VNC authentication failed: vnc error") true].
Proof.
  destruct (terminal_connect_error_stops 0 1 demo_options
    (session_script [] [Err [CauseVnc WrongPassword]])
    (session_script [] []) [CauseVnc WrongPassword]) as (_ & Hstop & _); [reflexivity|].
  by rewrite (Hstop eq_refl).
Defined.
