(* ===== verification/Framing.v ===== *)
(** * Framing of helper events

    Both helpers write an event to the host as one line of JSON followed, for events
    that carry pixels, by the pixels as raw bytes; the line names their number.  The
    JSON library (serde_json) is the class [Json]: a printer and a parser with its two
    documented properties, that a printed value has no line break in it and that it
    parses back.  [Wire] is what an event type has to say about its headers, and
    [read_stream] is a reader of the format, the specification the writers of
    VncProtocol.v and RdpProtocol.v are checked against. *)

From S2P Require Import Prelude.

Definition newline : N := 10.

Class Json (H : Type) := {
  json_string : H → bytes;
  json_parse : bytes → option H;
}.

Class JsonLaws (H : Type) `{Json H} := {
  json_one_line h : newline ∉ json_string h;
  json_roundtrip h : json_parse (json_string h) = Some h;
}.

(** An event is a header and a payload whose length the header names. *)
Class Wire (E H : Type) := {
  header_of : E → H;
  payload_of : E → bytes;
  payload_len : H → nat;
  event_of : H → bytes → option E;
}.

Class WireLaws (E H : Type) `{Wire E H} := {
  wire_len e : payload_len (header_of e) = length (payload_of e);
  wire_rebuild e : event_of (header_of e) (payload_of e) = Some e;
}.

Section framing.
Context `{Wire E H} `{Json H}.

(** The bytes of one event. *)
Definition frame_event (e : E) : bytes :=
  json_string (header_of e) ++ [newline] ++ payload_of e.

(** The bytes before the first line break, and those after it. *)
Fixpoint split_line (bs : bytes) : option (bytes * bytes) :=
  match bs with
  | [] => None
  | b :: bs' =>
      if (b =? newline)%N then Some ([], bs')
      else '(l, r) ← split_line bs'; Some (b :: l, r)
  end.

Definition read_event (bs : bytes) : option (E * bytes) :=
  '(line, rest) ← split_line bs;
  h ← json_parse line;
  if payload_len h <=? length rest
  then e ← event_of h (take (payload_len h) rest); Some (e, drop (payload_len h) rest)
  else None.

(** Events one after the other until the input is used up. *)
Fixpoint read_stream (fuel : nat) (bs : bytes) : option (list E) :=
  match bs, fuel with
  | [], _ => Some []
  | _, 0 => None
  | _, S fuel' =>
      '(e, rest) ← read_event bs;
      es ← read_stream fuel' rest;
      Some (e :: es)
  end.

Context `{!WireLaws E H} `{!JsonLaws H}.

Lemma split_line_app l r : newline ∉ l → split_line (l ++ newline :: r) = Some (l, r).
Proof.
  induction l as [|b l IH]; intros Hl; [done|]. apply not_elem_of_cons in Hl as [Hb Hl].
  simpl. destruct (N.eqb_spec b newline); [done|]. by rewrite IH.
Qed.

Lemma read_frame_event e rest : read_event (frame_event e ++ rest) = Some (e, rest).
Proof.
  unfold read_event, frame_event. rewrite <-!app_assoc. cbn [app].
  rewrite split_line_app by apply json_one_line. simpl.
  rewrite json_roundtrip. simpl. rewrite wire_len, length_app.
  rewrite (proj2 (Nat.leb_le _ _)) by lia.
  rewrite take_app_length, drop_app_length, wire_rebuild. done.
Qed.

Lemma read_stream_frames es :
  read_stream (length es) (es ≫= frame_event) = Some es.
Proof.
  induction es as [|e es IH]; [done|]. cbn [mbind list_bind length].
  destruct (frame_event e ++ mbind frame_event es) as [|b bs] eqn:Hbs.
  - unfold frame_event in Hbs. by destruct (json_string (header_of e)).
  - simpl. rewrite <-Hbs, read_frame_event. simpl. by rewrite IH.
Qed.
End framing.

(** ** A printer for any countable type of headers

    A header is printed as the binary digits of its number. *)

Fixpoint print_positive (p : positive) : bytes :=
  match p with
  | xH => []
  | xO p => 0%N :: print_positive p
  | xI p => 1%N :: print_positive p
  end.

Fixpoint parse_positive (bs : bytes) : positive :=
  match bs with
  | [] => 1%positive
  | 0%N :: bs' => xO (parse_positive bs')
  | _ :: bs' => xI (parse_positive bs')
  end.

Lemma parse_print_positive p : parse_positive (print_positive p) = p.
Proof. induction p as [p IH|p IH|]; simpl; by rewrite ?IH. Qed.

Definition countable_json `{Countable H} : Json H := {|
  json_string h := print_positive (encode h);
  json_parse bs := decode (parse_positive bs);
|}.

Lemma countable_json_laws `{Countable H} : JsonLaws H (H0:=countable_json).
Proof.
  split; intros h; simpl.
  - induction (encode h) as [p IH|p IH|]; simpl; [| |apply not_elem_of_nil];
      apply not_elem_of_cons; by split.
  - by rewrite parse_print_positive, decode_encode.
Qed.
