(* ===== verification/VncProtocol.v ===== *)
(** * Requests and events of the VNC helper

    vnc-helper/src/protocol.rs and main.rs: the messages exchanged with the host over
    stdin and stdout, their framing, the translation to and from the session's own
    types, and the request loop of [run].  serde_json is the class [Json] of
    Framing.v; [decode] stands for [serde_json::from_str] on a trimmed line. *)

From S2P Require Import Prelude VncRuntime VncClient Framing.

(** ** protocol.rs *)

Inductive HelperMouseButton := HmLeft | HmMiddle | HmRight | HmX1 | HmX2.

Inductive HelperRequest :=
  | RqConnect (destination : string) (username password domain : option string) (width height : N)
  | RqResize (width height : N)
  | RqMouseMove (x y : N)
  | RqMouseButton (button : HelperMouseButton) (pressed : bool)
  | RqWheel (vertical : bool) (units : Z)
  | RqKey (code : N) (extended pressed : bool)
  | RqKeySym (keysym : N) (pressed : bool)
  | RqText (t : text)
  | RqClipboardText (t : text)
  | RqClipboardFiles (paths : list text)
  | RqClose.

Record ConnectRequest := mk_connect {
  cr_destination : string;
  cr_username : option string;
  cr_password : option string;
  cr_domain : option string;
  cr_width : N;
  cr_height : N;
}.

Inductive HelperReconnectReason := HrDisplayUpdate | HrSessionError | HrConnectionLost | HrManual.

Record HelperFrameRect := mk_helper_rect {
  hr_x : N; hr_y : N; hr_width : N; hr_height : N; hr_byte_len : N;
}.

Inductive HelperEvent :=
  | HeStatus (message : string)
  | HeConnected (width height : N)
  | HeFrameBgraBytes (width height : N) (bgra : bytes)
  | HeFrameBgraRects (width height : N) (rects : list HelperFrameRect) (bgra : bytes)
  | HeCursorDefault
  | HeCursorHidden
  | HeCursorPosition (x y : N)
  | HeCursorRgbaBytes (width height hotspot_x hotspot_y : N) (rgba : bytes)
  | HeClipboardText (t : text)
  | HeReconnecting (reason : HelperReconnectReason) (delay_secs : option N)
  | HeConnectionFailure (message : string)
  | HeTerminated (message : string).

(** What is written as JSON: the events without pixels, and the headers
    [HelperFrameBgraBytesHeader], [HelperFrameBgraRectsHeader] and
    [HelperCursorRgbaBytesHeader] of the others. *)
Inductive WireHeader :=
  | HdrEvent (event : HelperEvent)
  | HdrFrameBgraBytes (width height bgra_len : N)
  | HdrFrameBgraRects (width height : N) (rects : list HelperFrameRect) (bgra_len : N)
  | HdrCursorRgbaBytes (width height hotspot_x hotspot_y rgba_len : N).

Definition frame (width height : N) (bgra : bytes) : HelperEvent :=
  HeFrameBgraBytes width height bgra.

Definition connect_request (request : HelperRequest) : outcome anyhow ConnectRequest :=
  match request with
  | RqConnect destination username password domain width height =>
      Ok (mk_connect destination username password domain width height)
  | _ => Err [CauseMessage "first helper request must be Connect"]
  end.

Definition is_binary (event : HelperEvent) : bool :=
  match event with
  | HeFrameBgraBytes _ _ _ | HeFrameBgraRects _ _ _ _ | HeCursorRgbaBytes _ _ _ _ _ => true
  | _ => false
  end.

Section encode.
Context `{Json WireHeader}.

Definition encode_event_line (event : HelperEvent) : outcome anyhow bytes :=
  if is_binary event
  then Err [CauseMessage "binary image events must be written with write_event"]
  else Ok (json_string (HdrEvent event) ++ [newline]).

(** A writer is the bytes written so far. *)
Definition write_binary_event (writer : bytes) (header : WireHeader) (payload : bytes) : bytes :=
  let line := json_string header ++ [newline] in
  (writer ++ line) ++ payload.

Definition write_event (writer : bytes) (event : HelperEvent) : outcome anyhow bytes :=
  match event with
  | HeFrameBgraBytes width height bgra =>
      Ok (write_binary_event writer
        (HdrFrameBgraBytes width height (N.of_nat (length bgra))) bgra)
  | HeFrameBgraRects width height rects bgra =>
      Ok (write_binary_event writer
        (HdrFrameBgraRects width height rects (N.of_nat (length bgra))) bgra)
  | HeCursorRgbaBytes width height hotspot_x hotspot_y rgba =>
      Ok (write_binary_event writer
        (HdrCursorRgbaBytes width height hotspot_x hotspot_y (N.of_nat (length rgba))) rgba)
  | event => line ← encode_event_line event; Ok (writer ++ line)
  end.
End encode.

(** ** main.rs: translations *)

Definition connect_options (connect : ConnectRequest) : RemoteDesktopConnectionOptions :=
  mk_options (cr_destination connect) (cr_username connect) (cr_password connect)
    (cr_domain connect).

Definition mouse_button (button : HelperMouseButton) : RemoteMouseButton :=
  match button with
  | HmLeft => Left
  | HmMiddle => Middle
  | HmRight => Right
  | HmX1 => X1
  | HmX2 => X2
  end.

Definition scancode_value (code : N) (extended : bool) : N :=
  if extended then N.lor 0xe000 code else code.

Definition request_to_input (request : HelperRequest) : option RemoteDesktopInput :=
  match request with
  | RqConnect _ _ _ _ _ _ => None
  | RqResize width height => Some (Resize width height)
  | RqMouseMove x y => Some (MouseMove x y)
  | RqMouseButton button pressed => Some (MouseButton (mouse_button button) pressed)
  | RqWheel vertical units => Some (Wheel vertical units)
  | RqKey code extended pressed => Some (Key (Scancode (scancode_value code extended)) pressed)
  | RqKeySym keysym pressed => Some (Key (KeySym keysym) pressed)
  | RqText t => Some (Text t)
  | RqClipboardText t => Some (InClipboardText t)
  | RqClipboardFiles paths => Some (ClipboardFiles paths)
  | RqClose => Some Close
  end.

Definition helper_reconnect_reason (reason : RemoteDesktopReconnectReason)
    : HelperReconnectReason :=
  match reason with
  | DisplayUpdate => HrDisplayUpdate
  | SessionError => HrSessionError
  | ConnectionLost => HrConnectionLost
  | Manual => HrManual
  end.

Definition output_to_event (output : RemoteDesktopOutput) : HelperEvent :=
  match output with
  | Connected width height _ => HeConnected width height
  | Frame width height rgba => frame width height rgba
  | FrameBgraRects width height rects bgra =>
      HeFrameBgraRects width height
        ((λ rect, mk_helper_rect (fr_x rect) (fr_y rect) (fr_width rect) (fr_height rect)
            (fr_byte_len rect)) <$> rects) bgra
  | CursorDefault => HeCursorDefault
  | CursorHidden => HeCursorHidden
  | CursorPosition x y => HeCursorPosition x y
  | CursorBitmap cursor =>
      HeCursorRgbaBytes (cur_width cursor) (cur_height cursor) (cur_hotspot_x cursor)
        (cur_hotspot_y cursor) (cur_rgba cursor)
  | ClipboardText t => HeClipboardText t
  | Reconnecting reconnect =>
      HeReconnecting (helper_reconnect_reason (rec_reason reconnect)) (rec_delay_secs reconnect)
  | Status message => HeStatus message
  | ConnectionFailure message => HeConnectionFailure message
  | Terminated message => HeTerminated message
  end.

(** ** main.rs: the request loop *)

(** A line of stdin: read, or failed with an I/O error. *)
Abbreviation line_result := (anyhow + bytes)%type.

Section requests.
(** [protocol::decode_request_line]: serde_json on the line without its end. *)
Variable decode : bytes → anyhow + HelperRequest.

Definition read_connect_request (lines : list line_result)
    : outcome anyhow (ConnectRequest * list line_result) :=
  match lines with
  | [] => Err [CauseMessage "missing Connect request"]
  | inl error :: _ => Err error
  | inr line :: rest =>
      match decode line with
      | inl error => Err error
      | inr request => connect ← connect_request request; Ok (connect, rest)
      end
  end.

(** The loop of [run] over the lines after the first, over its variables: the inputs
    sent on the channel and the request error.  [capacity] is the number of inputs
    the session thread still takes before its end of the channel is gone. *)
Fixpoint request_loop (lines : list line_result) (capacity : nat)
    (sent : list RemoteDesktopInput) : list RemoteDesktopInput * option anyhow :=
  match lines with
  | [] => (sent, None)
  | inl error :: _ => (sent, Some error)
  | inr line :: rest =>
      match decode line with
      | inl error => (sent, Some error)
      | inr request =>
          let stop := match request with RqClose => true | _ => false end in
          match request_to_input request, capacity with
          | Some _, 0 => (sent, Some [CauseMessage "VNC input channel closed"])
          | Some input, S capacity' =>
              if stop then (sent ++ [input], None)
              else request_loop rest capacity' (sent ++ [input])
          | None, _ => if stop then (sent, None) else request_loop rest capacity sent
          end
      end
  end.

Definition combine_results (request_error : option anyhow) (vnc_result output_result : outcome anyhow ())
    : outcome anyhow () :=
  match request_error with
  | Some error => Err (CauseMessage "VNC helper request loop failed" :: error)
  | None => vnc_result;; output_result;; Ok ()
  end.

(** [join_worker]: the worker's error with its name, or its panic as an error. *)
Definition join_worker (result : outcome anyhow ()) (panic_message worker_name : string)
    : outcome anyhow () :=
  match result with
  | Ok _ => Ok ()
  | Err e => Err (CauseMessage (worker_name +:+ " returned an error") :: e)
  | Panic => Err [CauseMessage (worker_name +:+ " panicked: " +:+ panic_message)]
  end%string.
End requests.

(** ** Lemmas *)

#[export] Instance helper_wire : Wire HelperEvent WireHeader := {|
  header_of e :=
    match e with
    | HeFrameBgraBytes w h bgra => HdrFrameBgraBytes w h (N.of_nat (length bgra))
    | HeFrameBgraRects w h rects bgra => HdrFrameBgraRects w h rects (N.of_nat (length bgra))
    | HeCursorRgbaBytes w h x y rgba => HdrCursorRgbaBytes w h x y (N.of_nat (length rgba))
    | _ => HdrEvent e
    end;
  payload_of e :=
    match e with
    | HeFrameBgraBytes _ _ px | HeFrameBgraRects _ _ _ px | HeCursorRgbaBytes _ _ _ _ px => px
    | _ => []
    end;
  payload_len h :=
    match h with
    | HdrEvent _ => 0
    | HdrFrameBgraBytes _ _ n | HdrFrameBgraRects _ _ _ n | HdrCursorRgbaBytes _ _ _ _ n => usz n
    end;
  event_of h px :=
    match h with
    | HdrEvent e => if is_binary e then None else Some e
    | HdrFrameBgraBytes w h _ => Some (HeFrameBgraBytes w h px)
    | HdrFrameBgraRects w h rects _ => Some (HeFrameBgraRects w h rects px)
    | HdrCursorRgbaBytes w h x y _ => Some (HeCursorRgbaBytes w h x y px)
    end;
|}.

#[export] Instance helper_wire_laws : WireLaws HelperEvent WireHeader.
Proof. split; intros []; simpl; rewrite ?Nat2N.id; done. Qed.

Lemma write_event_frames `{Json WireHeader} writer e :
  write_event writer e = Ok (writer ++ frame_event e).
Proof.
  unfold frame_event.
  destruct e; simpl; unfold write_binary_event; rewrite <-?app_assoc; try done;
    by rewrite ?app_nil_r.
Qed.

(** Several events on one writer. *)
Fixpoint write_events `{Json WireHeader} (writer : bytes) (es : list HelperEvent)
    : outcome anyhow bytes :=
  match es with
  | [] => Ok writer
  | e :: es' => writer ← write_event writer e; write_events writer es'
  end.

Lemma write_events_frames `{Json WireHeader} writer es :
  write_events writer es = Ok (writer ++ (es ≫= frame_event)).
Proof.
  revert writer. induction es as [|e es IH]; intros writer; simpl.
  - by rewrite app_nil_r.
  - rewrite write_event_frames. simpl. unfold mbind, outcome_bind. rewrite IH.
    by rewrite <-app_assoc.
Qed.

(** The inputs a list of requests stands for, up to the first [Close]. *)
Fixpoint forwarded (requests : list HelperRequest) : list RemoteDesktopInput :=
  match requests with
  | [] => []
  | RqClose :: _ => [Close]
  | r :: rest => option_list (request_to_input r) ++ forwarded rest
  end.

(** ** Properties *)

(** The event stream can be read back.  Whatever events are written one after the
    other, no write fails, and a reader that takes a line of JSON and then as many
    payload bytes as the line says recovers exactly these events and nothing else,
    even when the pixels contain line breaks. *)
Theorem write_events_roundtrip `{JsonLaws WireHeader} es :
  ∃ bs, write_events [] es = Ok bs ∧ read_stream (length es) bs = Some es.
Proof.
  exists (es ≫= frame_event). split; [by rewrite write_events_frames|].
  apply read_stream_frames.
Qed.

(** The request loop forwards the host's requests faithfully and once.  If the
    lines are read and decode, and the session takes the inputs they stand for, the
    loop sends exactly these, in order, up to and including the first [Close], and
    reports no error; a second [Connect] is ignored.  If a line fails to be read or
    decode, the inputs of the lines before it have been sent, nothing after it is, and
    its error is the one [combine_results] returns, whatever the worker threads
    returned. *)
Theorem request_loop_forwards decode lines requests capacity :
  Forall2 (λ line request, ∃ bs, line = inr bs ∧ decode bs = inr request) lines requests →
  length (forwarded requests) ≤ capacity →
  request_loop decode lines capacity [] = (forwarded requests, None) ∧
  ∀ bad rest error vnc_result output_result,
    RqClose ∉ requests →
    (bad = inl error ∨ ∃ bs, bad = inr bs ∧ decode bs = inl error) →
    request_loop decode (lines ++ bad :: rest) capacity [] = (forwarded requests, Some error) ∧
    combine_results (request_loop decode (lines ++ bad :: rest) capacity []).2
      vnc_result output_result =
      Err (CauseMessage "VNC helper request loop failed" :: error).
Proof.
  intros Hlines Hcap.
  assert (∀ sent, request_loop decode lines capacity sent = (sent ++ forwarded requests, None)) as Hok.
  { revert capacity Hcap. induction Hlines as [|line r lines rs (bs & -> & Hr) _ IH];
      intros capacity Hcap sent; simpl.
    { by rewrite app_nil_r. }
    rewrite Hr. destruct r; simpl in *;
      try (destruct capacity as [|capacity]; [lia|]; try done; rewrite IH by lia;
        by rewrite <-app_assoc).
    by rewrite IH. }
  split; [apply Hok|]. intros bad rest error vnc_result output_result Hclose Hbad.
  assert (∀ sent, request_loop decode (lines ++ bad :: rest) capacity sent =
    (sent ++ forwarded requests, Some error)) as Herr.
  { clear Hok. revert capacity Hcap Hclose.
    induction Hlines as [|line r lines rs (bs & -> & Hr) _ IH];
      intros capacity Hcap Hclose sent; simpl.
    { rewrite app_nil_r. destruct Hbad as [->|(bs & -> & Hbs)]; [done|]. by rewrite Hbs. }
    apply not_elem_of_cons in Hclose as [Hne Hclose].
    rewrite Hr. destruct r; simpl in *; try done;
      try (destruct capacity as [|capacity]; [lia|]; rewrite IH by (done || lia);
        by rewrite <-app_assoc).
    by rewrite IH. }
  by rewrite Herr.
Qed.

(** ** Witnesses *)

(** A printer and a parser for the witnesses: headers are countable, so a header can be
    printed as the binary digits of its number. *)
#[export] Instance HelperReconnectReason_eq_dec : EqDecision HelperReconnectReason.
Proof. solve_decision. Defined.
#[export] Instance HelperFrameRect_eq_dec : EqDecision HelperFrameRect.
Proof. solve_decision. Defined.
#[export] Instance HelperEvent_eq_dec : EqDecision HelperEvent.
Proof. solve_decision. Defined.
#[export] Instance WireHeader_eq_dec : EqDecision WireHeader.
Proof. solve_decision. Defined.

Definition rect_numbers (rects : list HelperFrameRect) : list N :=
  rects ≫= λ r, [hr_x r; hr_y r; hr_width r; hr_height r; hr_byte_len r].

Fixpoint numbers_rect (ns : list N) : list HelperFrameRect :=
  match ns with
  | x :: y :: w :: h :: n :: rest => mk_helper_rect x y w h n :: numbers_rect rest
  | _ => []
  end.

Lemma numbers_rect_numbers rects : numbers_rect (rect_numbers rects) = rects.
Proof.
  induction rects as [|[] rects IH]; [done|].
  unfold rect_numbers in *. cbn [mbind list_bind app numbers_rect]. by rewrite IH.
Qed.

Definition reason_number (r : HelperReconnectReason) : N :=
  match r with HrDisplayUpdate => 0 | HrSessionError => 1 | HrConnectionLost => 2 | HrManual => 3 end%N.
Definition number_reason (n : N) : HelperReconnectReason :=
  match n with 0 => HrDisplayUpdate | 1 => HrSessionError | 2 => HrConnectionLost | _ => HrManual end%N.

(** A tag, a message, an optional number and three lists of numbers. *)
Abbreviation shape := (N * string * option N * list N * list N)%type.

Definition event_shape (e : HelperEvent) : shape :=
  match e with
  | HeStatus m => (0, m, None, [], [])
  | HeConnected w h => (1, EmptyString, None, [w; h], [])
  | HeFrameBgraBytes w h px => (2, EmptyString, None, w :: h :: px, [])
  | HeFrameBgraRects w h rects px => (3, EmptyString, None, w :: h :: px, rect_numbers rects)
  | HeCursorDefault => (4, EmptyString, None, [], [])
  | HeCursorHidden => (5, EmptyString, None, [], [])
  | HeCursorPosition x y => (6, EmptyString, None, [x; y], [])
  | HeCursorRgbaBytes w h x y px => (7, EmptyString, None, w :: h :: x :: y :: px, [])
  | HeClipboardText t => (8, EmptyString, None, t, [])
  | HeReconnecting r d => (9, EmptyString, d, [reason_number r], [])
  | HeConnectionFailure m => (10, m, None, [], [])
  | HeTerminated m => (11, m, None, [], [])
  end%N.

Definition shape_event (s : shape) : HelperEvent :=
  match s with
  | (0, m, _, _, _) => HeStatus m
  | (1, _, _, [w; h], _) => HeConnected w h
  | (2, _, _, w :: h :: px, _) => HeFrameBgraBytes w h px
  | (3, _, _, w :: h :: px, ns) => HeFrameBgraRects w h (numbers_rect ns) px
  | (4, _, _, _, _) => HeCursorDefault
  | (5, _, _, _, _) => HeCursorHidden
  | (6, _, _, [x; y], _) => HeCursorPosition x y
  | (7, _, _, w :: h :: x :: y :: px, _) => HeCursorRgbaBytes w h x y px
  | (8, _, _, t, _) => HeClipboardText t
  | (9, _, d, [r], _) => HeReconnecting (number_reason r) d
  | (10, m, _, _, _) => HeConnectionFailure m
  | (_, m, _, _, _) => HeTerminated m
  end%N.

#[export] Instance HelperEvent_countable : Countable HelperEvent.
Proof.
  apply (inj_countable' event_shape shape_event).
  intros []; simpl; rewrite ?numbers_rect_numbers; try done. by destruct reason.
Defined.

Abbreviation header_shape := (HelperEvent + (list N + (list N * list N) + list N))%type.

Definition header_to_shape (h : WireHeader) : header_shape :=
  match h with
  | HdrEvent e => inl e
  | HdrFrameBgraBytes w h n => inr (inl (inl [w; h; n]))
  | HdrFrameBgraRects w h rects n => inr (inl (inr ([w; h; n], rect_numbers rects)))
  | HdrCursorRgbaBytes w h x y n => inr (inr [w; h; x; y; n])
  end.

Definition shape_to_header (s : header_shape) : WireHeader :=
  match s with
  | inl e => HdrEvent e
  | inr (inl (inl [w; h; n])) => HdrFrameBgraBytes w h n
  | inr (inl (inr ([w; h; n], ns))) => HdrFrameBgraRects w h (numbers_rect ns) n
  | inr (inr [w; h; x; y; n]) => HdrCursorRgbaBytes w h x y n
  | _ => HdrEvent HeCursorDefault
  end.

#[export] Instance WireHeader_countable : Countable WireHeader.
Proof.
  apply (inj_countable' header_to_shape shape_to_header).
  intros []; simpl; rewrite ?numbers_rect_numbers; done.
Defined.

#[export] Instance demo_json : Json WireHeader := countable_json.
#[export] Instance demo_json_laws : JsonLaws WireHeader := countable_json_laws.

Lemma write_events_roundtrip_witness :
  let es := [HeConnected 2 1; HeFrameBgraBytes 1 1 [10; 10; 10; 10]%N; HeStatus "ready"] in
  ∃ bs, write_events [] es = Ok bs ∧ read_stream 3 bs = Some es.
Proof.
  exact (write_events_roundtrip
    [HeConnected 2 1; HeFrameBgraBytes 1 1 [10; 10; 10; 10]%N; HeStatus "ready"]).
Defined.

Lemma request_loop_forwards_witness :
  let decode (bs : bytes) : anyhow + HelperRequest :=
    match bs with
    | [1]%N => inr (RqMouseMove 3 4)
    | [2]%N => inr RqClose
    | _ => inl [CauseMessage "bad line"]
    end in
  request_loop decode [inr [1]; inr [2]; inr [1]]%N 5 [] = ([MouseMove 3 4; Close], None) ∧
  request_loop decode ([inr [1]] ++ inr [9] :: [inr [1]])%N 5 [] =
    ([MouseMove 3 4], Some [CauseMessage "bad line"]).
Proof.
  intros decode. split; [reflexivity|].
  apply (request_loop_forwards decode [inr [1]]%N [RqMouseMove 3 4] 5) with
    (vnc_result := Ok ()) (output_result := Panic).
  - constructor; [|constructor]. by exists [1]%N.
  - simpl. lia.
  - intros [?|?%not_elem_of_nil]%elem_of_cons; done.
  - right. by exists [9]%N.
Defined.
