(* ===== verification/RdpProtocol.v ===== *)
(** * Requests and events of the RDP helper

    rdp-helper/src/protocol.rs and the parts of main.rs and threading.rs that are not
    I/O: the messages exchanged with the host, their framing (checked against the
    reader of Framing.v), and how the results of the helper's workers are combined.
    An [anyhow::Error] is its outermost message. *)

From S2P Require Import Prelude Framing.

Abbreviation text := (list N) (only parsing).

(** ** protocol.rs *)

Inductive HelperMouseButton := BtnLeft | BtnMiddle | BtnRight | BtnX1 | BtnX2.

Record RemoteDesktopSharedFolder := mk_folder {
  folder_name : text; folder_path : text; folder_read_only : bool;
}.

Inductive HelperRequest :=
  | RqConnect (destination : string) (username password domain : option string)
      (width height scale_factor : N) (audio_playback audio_capture : bool)
      (shared_folders : list RemoteDesktopSharedFolder)
  | RqResize (width height scale_factor : N)
  | RqMouseMove (x y : N)
  | RqMouseButton (button : HelperMouseButton) (pressed : bool)
  | RqWheel (vertical : bool) (units : Z)
  | RqKey (code : N) (extended pressed : bool)
  | RqText (t : text)
  | RqClipboardText (t : text)
  | RqClipboardFiles (transfer_id : N) (paths : list text)
  | RqCancelClipboardTransfer (transfer_id : N)
  | RqClose.

Record ConnectRequest := mk_connect {
  cr_destination : string;
  cr_username : option string;
  cr_password : option string;
  cr_domain : option string;
  cr_width : N;
  cr_height : N;
  cr_scale_factor : N;
  cr_audio_playback : bool;
  cr_audio_capture : bool;
  cr_shared_folders : list RemoteDesktopSharedFolder;
}.

Definition default_scale_factor : N := 100.

Inductive HelperReconnectReason := DisplayUpdate | SessionError | ConnectionLost | Manual.

Record HelperFrameRect := mk_helper_rect {
  hr_x : N; hr_y : N; hr_width : N; hr_height : N; hr_byte_len : N;
}.

Inductive HelperEvent :=
  | Status (message : string)
  | Connected (width height : N)
  | FrameBgraBytes (width height : N) (bgra : bytes)
  | FrameBgraRects (width height : N) (rects : list HelperFrameRect) (bgra : bytes)
  | CursorDefault
  | CursorHidden
  | CursorPosition (x y : N)
  | CursorRgbaBytes (width height hotspot_x hotspot_y : N) (rgba : bytes)
  | ClipboardText (t : text)
  | ClipboardFilesReady (transfer_id : N) (paths : list text)
  | ClipboardTransferFailed (transfer_id : N) (message : string)
  | Reconnecting (reason : HelperReconnectReason) (delay_secs : option N)
  | ConnectionFailure (message : string)
  | Terminated (message : string).

#[export] Instance HelperReconnectReason_eq_dec : EqDecision HelperReconnectReason.
Proof. solve_decision. Defined.
#[export] Instance HelperFrameRect_eq_dec : EqDecision HelperFrameRect.
Proof. solve_decision. Defined.
#[export] Instance HelperEvent_eq_dec : EqDecision HelperEvent.
Proof. solve_decision. Defined.

(** What is written as JSON: the events without pixels and the three headers. *)
Inductive WireHeader :=
  | HdrEvent (event : HelperEvent)
  | HdrFrameBgraBytes (width height bgra_len : N)
  | HdrFrameBgraRects (width height : N) (rects : list HelperFrameRect) (bgra_len : N)
  | HdrCursorRgbaBytes (width height hotspot_x hotspot_y rgba_len : N).

Definition frame (width height : N) (bgra : bytes) : HelperEvent := FrameBgraBytes width height bgra.

Definition connect_request (request : HelperRequest) : outcome string ConnectRequest :=
  match request with
  | RqConnect destination username password domain width height scale_factor
      audio_playback audio_capture shared_folders =>
      Ok (mk_connect destination username password domain width height scale_factor
        audio_playback audio_capture shared_folders)
  | _ => Err "first helper request must be Connect"%string
  end.

Definition is_binary (event : HelperEvent) : bool :=
  match event with
  | FrameBgraBytes _ _ _ | FrameBgraRects _ _ _ _ | CursorRgbaBytes _ _ _ _ _ => true
  | _ => false
  end.

Section encode.
Context `{Json WireHeader}.

Definition encode_event_line (event : HelperEvent) : outcome string bytes :=
  if is_binary event
  then Err "binary image events must be written with write_event"%string
  else Ok (json_string (HdrEvent event) ++ [newline]).

(** A writer is the bytes written so far. *)
Definition write_event (writer : bytes) (event : HelperEvent) : outcome string bytes :=
  match event with
  | FrameBgraBytes width height bgra =>
      let header := HdrFrameBgraBytes width height (N.of_nat (length bgra)) in
      let line := json_string header ++ [newline] in
      Ok ((writer ++ line) ++ bgra)
  | FrameBgraRects width height rects bgra =>
      let header := HdrFrameBgraRects width height rects (N.of_nat (length bgra)) in
      let line := json_string header ++ [newline] in
      Ok ((writer ++ line) ++ bgra)
  | CursorRgbaBytes width height hotspot_x hotspot_y rgba =>
      let header := HdrCursorRgbaBytes width height hotspot_x hotspot_y (N.of_nat (length rgba)) in
      let line := json_string header ++ [newline] in
      Ok ((writer ++ line) ++ rgba)
  | event => line ← encode_event_line event; Ok (writer ++ line)
  end.
End encode.

(** ** main.rs and threading.rs *)

(** [combine_results]: every result is looked at, the first error is kept. *)
Fixpoint combine_loop (results : list (outcome string ())) (first_error : option string)
    : option string :=
  match results with
  | [] => first_error
  | Err error :: rest =>
      combine_loop rest (match first_error with None => Some error | _ => first_error end)
  | _ :: rest => combine_loop rest first_error
  end.

Definition combine_results (results : list (outcome string ())) : outcome string () :=
  match combine_loop results None with None => Ok () | Some error => Err error end.

(** [join_worker]: a panic of the worker becomes an error. *)
Definition join_worker (result : outcome string ()) (panic_message worker : string)
    : outcome string () :=
  match result with
  | Ok _ => Ok ()
  | Err _ => Err (worker +:+ " thread failed")
  | Panic => Err (worker +:+ " thread panicked: " +:+ panic_message)
  end%string.

(** ** Framing *)

#[export] Instance helper_wire : Wire HelperEvent WireHeader := {|
  header_of e :=
    match e with
    | FrameBgraBytes w h bgra => HdrFrameBgraBytes w h (N.of_nat (length bgra))
    | FrameBgraRects w h rects bgra => HdrFrameBgraRects w h rects (N.of_nat (length bgra))
    | CursorRgbaBytes w h x y rgba => HdrCursorRgbaBytes w h x y (N.of_nat (length rgba))
    | _ => HdrEvent e
    end;
  payload_of e :=
    match e with
    | FrameBgraBytes _ _ px | FrameBgraRects _ _ _ px | CursorRgbaBytes _ _ _ _ px => px
    | _ => []
    end;
  payload_len h :=
    match h with
    | HdrEvent _ => 0
    | HdrFrameBgraBytes _ _ n | HdrFrameBgraRects _ _ _ n | HdrCursorRgbaBytes _ _ _ _ n => usz n
    end;
  event_of h px :=
    match h with
    | HdrEvent e => if is_binary e then None else Some e
    | HdrFrameBgraBytes w h _ => Some (FrameBgraBytes w h px)
    | HdrFrameBgraRects w h rects _ => Some (FrameBgraRects w h rects px)
    | HdrCursorRgbaBytes w h x y _ => Some (CursorRgbaBytes w h x y px)
    end;
|}.

#[export] Instance helper_wire_laws : WireLaws HelperEvent WireHeader.
Proof. split; intros []; simpl; rewrite ?Nat2N.id; done. Qed.

(** [write_event] writes the frame of its event and nothing else. *)
Lemma helper_event_frames `{Json WireHeader} writer e :
  write_event writer e = Ok (writer ++ frame_event e).
Proof.
  unfold frame_event. destruct e; simpl; rewrite <-?app_assoc; try done; by rewrite ?app_nil_r.
Qed.

(** Events written one after the other to one writer. *)
Fixpoint write_all_events `{Json WireHeader} (writer : bytes) (es : list HelperEvent)
    : outcome string bytes :=
  match es with
  | [] => Ok writer
  | e :: rest => writer ← write_event writer e; write_all_events writer rest
  end.

Lemma write_all_events_frames `{Json WireHeader} writer es :
  write_all_events writer es = Ok (writer ++ (es ≫= frame_event)).
Proof.
  revert writer. induction es as [|e es IH]; intros writer; simpl; [by rewrite app_nil_r|].
  rewrite helper_event_frames. simpl. by rewrite IH, <-app_assoc.
Qed.

(** C8: the RDP event stream can be read back.  Whatever events the helper writes
    one after the other, no write fails, and a reader of header lines and counted
    payloads recovers exactly these events, also when pixels contain line breaks. *)
Theorem helper_events_roundtrip `{JsonLaws WireHeader} es :
  ∃ bs, write_all_events [] es = Ok bs ∧ read_stream (length es) bs = Some es.
Proof.
  exists (es ≫= frame_event). split; [by rewrite write_all_events_frames|].
  apply read_stream_frames.
Qed.

(** ** Witness

    A printer of headers, for a JSON instance: numbers and the texts of headers as
    a countable type. *)

#[export] Instance HelperReconnectReason_countable : Countable HelperReconnectReason.
Proof.
  apply (inj_countable'
    (λ r, match r with DisplayUpdate => 0 | SessionError => 1 | ConnectionLost => 2 | Manual => 3 end)
    (λ n, match n with 0 => DisplayUpdate | 1 => SessionError | 2 => ConnectionLost | _ => Manual end)).
  by intros [].
Defined.

#[export] Instance HelperFrameRect_countable : Countable HelperFrameRect.
Proof.
  apply (inj_countable'
    (λ r, (hr_x r, hr_y r, hr_width r, hr_height r, hr_byte_len r))
    (λ '(x, y, w, h, n), mk_helper_rect x y w h n)).
  by intros [].
Defined.

(** A tag, then every kind of payload an event may have. *)
Definition event_shape : Type :=
  nat * string * list N * list (list N) * list HelperFrameRect * HelperReconnectReason * option N.

Definition event_to_shape (e : HelperEvent) : event_shape :=
  match e with
  | Status m => (0, m, [], [], [], Manual, None)
  | Connected w h => (1, "", [w; h], [], [], Manual, None)
  | FrameBgraBytes w h px => (2, "", [w; h], [px], [], Manual, None)
  | FrameBgraRects w h rects px => (3, "", [w; h], [px], rects, Manual, None)
  | CursorDefault => (4, "", [], [], [], Manual, None)
  | CursorHidden => (5, "", [], [], [], Manual, None)
  | CursorPosition x y => (6, "", [x; y], [], [], Manual, None)
  | CursorRgbaBytes w h x y px => (7, "", [w; h; x; y], [px], [], Manual, None)
  | ClipboardText t => (8, "", [], [t], [], Manual, None)
  | ClipboardFilesReady id paths => (9, "", [id], paths, [], Manual, None)
  | ClipboardTransferFailed id m => (10, m, [id], [], [], Manual, None)
  | Reconnecting r d => (11, "", [], [], [], r, d)
  | ConnectionFailure m => (12, m, [], [], [], Manual, None)
  | Terminated m => (13, m, [], [], [], Manual, None)
  end%string.

Definition shape_to_event (s : event_shape) : HelperEvent :=
  match s with
  | (0, m, _, _, _, _, _) => Status m
  | (1, _, [w; h], _, _, _, _) => Connected w h
  | (2, _, [w; h], [px], _, _, _) => FrameBgraBytes w h px
  | (3, _, [w; h], [px], rects, _, _) => FrameBgraRects w h rects px
  | (4, _, _, _, _, _, _) => CursorDefault
  | (5, _, _, _, _, _, _) => CursorHidden
  | (6, _, [x; y], _, _, _, _) => CursorPosition x y
  | (7, _, [w; h; x; y], [px], _, _, _) => CursorRgbaBytes w h x y px
  | (8, _, _, [t], _, _, _) => ClipboardText t
  | (9, _, [id], paths, _, _, _) => ClipboardFilesReady id paths
  | (10, m, [id], _, _, _, _) => ClipboardTransferFailed id m
  | (11, _, _, _, _, r, d) => Reconnecting r d
  | (12, m, _, _, _, _, _) => ConnectionFailure m
  | (_, m, _, _, _, _, _) => Terminated m
  end.

#[export] Instance HelperEvent_countable : Countable HelperEvent.
Proof. apply (inj_countable' event_to_shape shape_to_event). by intros []. Defined.

#[export] Instance WireHeader_eq_dec : EqDecision WireHeader.
Proof. solve_decision. Defined.

#[export] Instance helper_header_countable : Countable WireHeader.
Proof.
  apply (inj_countable'
    (λ h, match h with
          | HdrEvent e => (0, e, [], [])
          | HdrFrameBgraBytes w h n => (1, CursorDefault, [w; h; n], [])
          | HdrFrameBgraRects w h rects n => (2, CursorDefault, [w; h; n], rects)
          | HdrCursorRgbaBytes w h x y n => (3, CursorDefault, [w; h; x; y; n], [])
          end)
    (λ s, match s with
          | (1, _, [w; h; n], _) => HdrFrameBgraBytes w h n
          | (2, _, [w; h; n], rects) => HdrFrameBgraRects w h rects n
          | (3, _, [w; h; x; y; n], _) => HdrCursorRgbaBytes w h x y n
          | (_, e, _, _) => HdrEvent e
          end)).
  by intros [].
Defined.

#[export] Instance helper_json : Json WireHeader := countable_json.
#[export] Instance helper_json_laws : JsonLaws WireHeader := countable_json_laws.

Lemma helper_events_roundtrip_witness :
  let es := [Connected 1 1; FrameBgraBytes 1 1 [10; 10; 10; 10]%N; Status "ready"] in
  ∃ bs, write_all_events [] es = Ok bs ∧ read_stream 3 bs = Some es.
Proof.
  exact (helper_events_roundtrip
    [Connected 1 1; FrameBgraBytes 1 1 [10; 10; 10; 10]%N; Status "ready"]).
Defined.
