(* ===== verification/RdpMailbox.v ===== *)
(** * The RDP output mailbox

    rdp-helper/src/output_mailbox.rs: the queue between the session and clipboard
    threads of the RDP helper and its writer thread.  Unlike the VNC mailbox it has
    no session gate: a [Reconnecting] event discards queued cursor events only, and
    the terminal events discard pending pictures as well.  A method runs under the
    mutex and is a function on [State]; the threads are the step relation [step]. *)

From S2P Require Import Prelude Viewer RdpProtocol.

(** ** State *)

Record State := mk_state {
  control : list HelperEvent;
  latest_frame : option HelperEvent;
  latest_delta : option HelperEvent;
  sender_count : N;
  receiver_alive : bool;
}.

Inductive MailboxClosed := mailbox_closed.

Inductive Notify := NotifyNone | NotifyOne | NotifyAll.

Definition output_mailbox : State := mk_state [] None None 1 true.

(** ** Queue helpers *)

Definition merge_deltas (previous next : HelperEvent) : HelperEvent :=
  match previous, next with
  | FrameBgraRects width height rects bgra,
    FrameBgraRects next_width next_height next_rects next_bgra =>
      if (width =? next_width)%N && (height =? next_height)%N
      then FrameBgraRects width height (rects ++ next_rects) (bgra ++ next_bgra)
      else next
  | _, next => next
  end.

Definition enqueue_control (control : list HelperEvent) (event : HelperEvent)
    : list HelperEvent :=
  match last control, event with
  | Some (CursorPosition _ _), CursorPosition next_x next_y =>
      removelast control ++ [CursorPosition next_x next_y]
  | Some (CursorRgbaBytes _ _ _ _ _), CursorRgbaBytes _ _ _ _ _ =>
      removelast control ++ [event]
  | _, event => control ++ [event]
  end.

Definition is_cursor (event : HelperEvent) : bool :=
  match event with
  | CursorDefault | CursorHidden | CursorPosition _ _ | CursorRgbaBytes _ _ _ _ _ => true
  | _ => false
  end.

(** [control.retain(|event| !matches!(event, ..))]. *)
Fixpoint discard_pending_cursor_events (control : list HelperEvent) : list HelperEvent :=
  match control with
  | [] => []
  | e :: rest =>
      if is_cursor e then discard_pending_cursor_events rest
      else e :: discard_pending_cursor_events rest
  end.

Definition with_control (st : State) (c : list HelperEvent) : State :=
  mk_state c (latest_frame st) (latest_delta st) (sender_count st) (receiver_alive st).

Definition with_pictures (st : State) (f d : option HelperEvent) : State :=
  mk_state (control st) f d (sender_count st) (receiver_alive st).

(** ** [OutputSender] *)

(** The match of [send], once the receiver is known to be alive. *)
Definition accept_event (event : HelperEvent) (st : State) : State :=
  match event with
  | FrameBgraBytes _ _ _ => with_pictures st (Some event) None
  | FrameBgraRects _ _ _ _ =>
      with_pictures st (latest_frame st)
        (Some match latest_delta st with
              | Some previous => merge_deltas previous event
              | None => event
              end)
  | ConnectionFailure _ | Terminated _ =>
      let st := with_pictures st None None in
      with_control st (discard_pending_cursor_events (control st) ++ [event])
  | Reconnecting _ _ =>
      with_control st (discard_pending_cursor_events (control st) ++ [event])
  | _ => with_control st (enqueue_control (control st) event)
  end.

Definition send (event : HelperEvent) (st : State)
    : State * Notify * outcome MailboxClosed () :=
  if receiver_alive st
  then (accept_event event st, NotifyOne, Ok ())
  else (st, NotifyNone, Err mailbox_closed).

Definition with_sender_count (st : State) (n : N) : State :=
  mk_state (control st) (latest_frame st) (latest_delta st) n (receiver_alive st).

Definition clone_sender (st : State) : State :=
  with_sender_count st (sender_count st + 1).

(** [saturating_sub(1)]: subtraction on [N] stops at zero. *)
Definition drop_sender (st : State) : State * Notify :=
  let st := with_sender_count st (sender_count st - 1) in
  (st, if (sender_count st =? 0)%N then NotifyAll else NotifyNone).

(** ** [OutputReceiver] *)

Inductive RecvPoll :=
  | Received (event : HelperEvent)
  | Closed
  | WouldWait.

(** One pass of the loop of [recv]. *)
Definition recv_poll (st : State) : State * RecvPoll :=
  match control st with
  | c :: rest => (with_control st rest, Received c)
  | [] =>
      match latest_frame st with
      | Some frame => (with_pictures st None (latest_delta st), Received frame)
      | None =>
          match latest_delta st with
          | Some delta => (with_pictures st None None, Received delta)
          | None => if (sender_count st =? 0)%N then (st, Closed) else (st, WouldWait)
          end
      end
  end.

Definition drop_receiver (st : State) : State * Notify :=
  (mk_state [] None None (sender_count st) false, NotifyAll).

(** ** Threads *)

Inductive Receiver := Running | Sleeping | Gone.

Record Config := mk_config { mailbox : State; receiver : Receiver }.

Definition initial : Config := mk_config output_mailbox Running.

Definition notified (n : Notify) (r : Receiver) : Receiver :=
  match n, r with
  | (NotifyOne | NotifyAll), Sleeping => Running
  | _, r => r
  end.

Arguments notified : simpl never.

Inductive Label :=
  | LSend (event : HelperEvent) (delivered : bool)
  | LClone
  | LDropSender
  | LRecv (event : HelperEvent)
  | LClosed
  | LSleep
  | LSpurious
  | LDropReceiver.

Inductive step : Config → Label → Config → Prop :=
  | step_send st r e st' n res :
      (0 < sender_count st)%N → send e st = (st', n, res) →
      step (mk_config st r) (LSend e (is_ok res)) (mk_config st' (notified n r))
  | step_clone st r :
      (0 < sender_count st)%N →
      step (mk_config st r) LClone (mk_config (clone_sender st) r)
  | step_drop_sender st r st' n :
      (0 < sender_count st)%N → drop_sender st = (st', n) →
      step (mk_config st r) LDropSender (mk_config st' (notified n r))
  | step_recv st st' e :
      recv_poll st = (st', Received e) →
      step (mk_config st Running) (LRecv e) (mk_config st' Running)
  | step_closed st st' :
      recv_poll st = (st', Closed) →
      step (mk_config st Running) LClosed (mk_config st' Running)
  | step_sleep st st' :
      recv_poll st = (st', WouldWait) →
      step (mk_config st Running) LSleep (mk_config st' Sleeping)
  | step_spurious st :
      step (mk_config st Sleeping) LSpurious (mk_config st Running)
  | step_drop_receiver st :
      step (mk_config st Running) LDropReceiver (mk_config (drop_receiver st).1 Gone).

(** An execution: the labels are in order of time. *)
Inductive run : Config → list Label → Config → Prop :=
  | run_nil c : run c [] c
  | run_snoc c ls c1 l c2 : run c ls c1 → step c1 l c2 → run c (ls ++ [l]) c2.

(** The step relation, executed. *)
Definition exec (c : Config) (l : Label) : option Config :=
  let '(mk_config st r) := c in
  match l, r with
  | LSend e delivered, _ =>
      let '(st', n, res) := send e st in
      if decide (0 < sender_count st ∧ is_ok res = delivered)%N
      then Some (mk_config st' (notified n r)) else None
  | LClone, _ =>
      if decide (0 < sender_count st)%N then Some (mk_config (clone_sender st) r) else None
  | LDropSender, _ =>
      if decide (0 < sender_count st)%N
      then Some (mk_config (drop_sender st).1 (notified (drop_sender st).2 r)) else None
  | LRecv e, Running =>
      match recv_poll st with
      | (st', Received e') => if decide (e = e') then Some (mk_config st' Running) else None
      | _ => None
      end
  | LClosed, Running =>
      match recv_poll st with (st', Closed) => Some (mk_config st' Running) | _ => None end
  | LSleep, Running =>
      match recv_poll st with (st', WouldWait) => Some (mk_config st' Sleeping) | _ => None end
  | LSpurious, Sleeping => Some (mk_config st Running)
  | LDropReceiver, Running => Some (mk_config (drop_receiver st).1 Gone)
  | _, _ => None
  end.

Lemma rdp_exec_step c l c' : exec c l = Some c' → step c l c'.
Proof.
  destruct c as [st r]. intros He. destruct l, r; simpl in He; try discriminate He;
    repeat (case_match; try discriminate He); injection He as <-; destruct_and?; subst;
    first [eapply step_send; eassumption|by apply step_clone
          
          |apply step_drop_sender; [done|unfold drop_sender; simpl; case_match; congruence]
          |by apply step_recv|by apply step_closed
          |by apply step_sleep|apply step_spurious|apply step_drop_receiver].
Qed.

Definition exec_all (c : Config) (ls : list Label) : option Config :=
  foldl (λ oc l, c ← oc; exec c l) (Some c) ls.

Lemma exec_all_none ls : foldl (λ oc l, c ← oc; exec c l) None ls = None.
Proof. by induction ls. Qed.

Lemma rdp_exec_all_run c ls c' : exec_all c ls = Some c' → run c ls c'.
Proof.
  unfold exec_all. revert c'. induction ls as [|l ls IH] using rev_ind; intros c'; simpl.
  - intros [= <-]. constructor.
  - rewrite foldl_app. simpl. destruct (foldl _ _ ls) as [c1|]; [|done].
    intros He. eapply run_snoc; [by apply IH|by apply rdp_exec_step].
Qed.

(** ** The picture an event carries *)

Definition pic_rect_of (r : HelperFrameRect) : pic_rect :=
  mk_pic_rect (hr_x r) (hr_y r) (hr_width r) (hr_height r) (hr_byte_len r).

#[export] Instance event_picture : PictureEvent HelperEvent := λ e,
  match e with
  | FrameBgraBytes w h px => WholeFrame w h px
  | FrameBgraRects w h rects px => Delta w h (pic_rect_of <$> rects) px
  | _ => NoPicture
  end.

Definition is_picture (e : HelperEvent) : bool :=
  match e with FrameBgraBytes _ _ _ | FrameBgraRects _ _ _ _ => true | _ => false end.

Definition is_terminal (e : HelperEvent) : bool :=
  match e with ConnectionFailure _ | Terminated _ => true | _ => false end.

(** ** Invariants *)

Definition pending (st : State) : Prop :=
  control st ≠ [] ∨ latest_frame st ≠ None ∨ latest_delta st ≠ None.

Record state_inv (st : State) : Prop := {
  inv_control : Forall (λ e, is_picture e = false) (control st);
  inv_frame : ∀ e, latest_frame st = Some e → ∃ w h px, e = FrameBgraBytes w h px;
  inv_delta : ∀ e, latest_delta st = Some e → ∃ w h rs px, e = FrameBgraRects w h rs px;
}.

Record config_inv (c : Config) : Prop := {
  inv_state : state_inv (mailbox c);
  inv_gone : receiver c = Gone ↔ receiver_alive (mailbox c) = false;
  inv_sleeping : receiver c = Sleeping → ¬ pending (mailbox c) ∧ sender_count (mailbox c) ≠ 0%N;
}.

Lemma enqueue_control_cases c e :
  enqueue_control c e = c ++ [e] ∨
  (∃ b, c = removelast c ++ [b] ∧ enqueue_control c e = removelast c ++ [e] ∧
     ((∃ x y x' y', b = CursorPosition x y ∧ e = CursorPosition x' y') ∨
      (∃ w h x y px w' h' x' y' px',
         b = CursorRgbaBytes w h x y px ∧ e = CursorRgbaBytes w' h' x' y' px'))).
Proof.
  unfold enqueue_control. destruct (last c) as [b|] eqn:Hlast; [|by left].
  destruct b, e; try (by left); right; eexists;
    (split; [by apply removelast_split|split; [done|]]); [left|right]; by eauto 20.
Qed.

Lemma rdp_enqueue_control_Forall (P : HelperEvent → Prop) c e :
  Forall P c → P e → Forall P (enqueue_control c e).
Proof.
  intros Hc He. destruct (enqueue_control_cases c e) as [->|(b & Hb & -> & _)];
    [|rewrite Hb in Hc; apply Forall_app in Hc as [Hc _]];
    apply Forall_app_2; try done; by apply Forall_singleton.
Qed.

Lemma rdp_discard_Forall (P : HelperEvent → Prop) c :
  Forall P c → Forall P (discard_pending_cursor_events c).
Proof. induction 1; simpl; [done|]. case_match; [done|]. by apply Forall_cons. Qed.

Lemma rdp_merge_deltas_rects d w h rs px :
  ∃ w' h' rs' px', merge_deltas d (FrameBgraRects w h rs px) = FrameBgraRects w' h' rs' px'.
Proof. destruct d; simpl; try by eauto 10. case_match; by eauto 10. Qed.

Lemma accept_event_inv e st : state_inv st → state_inv (accept_event e st).
Proof.
  intros [H1 H2 H3]. pose proof (rdp_discard_Forall _ _ H1).
  destruct e; simpl; split; simpl; try done;
    try (by apply rdp_enqueue_control_Forall); try (apply Forall_app_2; [done|by apply Forall_singleton]);
    intros ? [= <-]; eauto.
  destruct (latest_delta st); [apply rdp_merge_deltas_rects|eauto 10].
Qed.

Lemma rdp_recv_poll_inv st st' r : recv_poll st = (st', r) → state_inv st → state_inv st'.
Proof.
  destruct st as [c f d n a]. unfold recv_poll. simpl. intros Hr [H1 H2 H3].
  repeat case_match; simplify_eq; split; simpl in *; try done. by inversion H1.
Qed.

Lemma accept_event_alive e st : receiver_alive (accept_event e st) = receiver_alive st.
Proof. by destruct e. Qed.

Lemma rdp_recv_poll_frame st st' r :
  recv_poll st = (st', r) →
  receiver_alive st' = receiver_alive st ∧ sender_count st' = sender_count st.
Proof. unfold recv_poll. intros Hr. repeat case_match; by simplify_eq/=. Qed.

Lemma rdp_recv_poll_wait st st' :
  recv_poll st = (st', WouldWait) → st' = st ∧ ¬ pending st ∧ sender_count st ≠ 0%N.
Proof.
  unfold recv_poll, pending. intros Hr. repeat case_match; simplify_eq/=.
  bool_to_prop. naive_solver.
Qed.

Lemma rdp_notified_gone n r : notified n r = Gone ↔ r = Gone.
Proof. by destruct n, r. Qed.

Lemma notified_sleeping n r : notified n r = Sleeping → n = NotifyNone ∧ r = Sleeping.
Proof. by destruct n, r. Qed.

Lemma rdp_step_inv c l c' : step c l c' → config_inv c → config_inv c'.
Proof.
  intros Hstep [Hst Hgone Hsleep].
  destruct Hstep as [st r e st' n res Hn Hs|st r Hn|st r st' n Hn Hd|st st' e Hr|st st' Hr|st st' Hr|st|st];
    cbn [mailbox receiver] in *.
  - unfold send in Hs. destruct (receiver_alive st) eqn:Ha; simplify_eq.
    + split; cbn [mailbox receiver]; [by apply accept_event_inv| |by intros [? _]%notified_sleeping].
      by rewrite rdp_notified_gone, accept_event_alive, Ha.
    + split; cbn [mailbox receiver]; [done|by rewrite rdp_notified_gone, Ha|].
      by intros [_ ?]%notified_sleeping; apply Hsleep.
  - destruct Hst as [H1 H2 H3]. split; [by split|done|]. cbn [mailbox receiver].
    intros [Hp _]%Hsleep. split; [exact Hp|]. simpl. lia.
  - injection Hd as <- <-. destruct Hst as [H1 H2 H3].
    split; cbn [mailbox receiver]; [by split|by rewrite rdp_notified_gone|].
    intros [Hz Hr]%notified_sleeping. case_match; [done|]. bool_to_prop.
    split; [by apply Hsleep|done].
  - destruct (rdp_recv_poll_frame _ _ _ Hr) as [Ha _].
    split; simpl; [by eapply rdp_recv_poll_inv|by rewrite Ha|done].
  - destruct (rdp_recv_poll_frame _ _ _ Hr) as [Ha _].
    split; simpl; [by eapply rdp_recv_poll_inv|by rewrite Ha|done].
  - destruct (rdp_recv_poll_wait _ _ Hr) as (-> & Hp & Hs).
    split; simpl; [done| |done]. by rewrite <-Hgone.
  - split; simpl; [done| |done]. by rewrite <-Hgone.
  - split; simpl; [by split|done|done].
Qed.

Lemma rdp_run_inv ls c : run initial ls c → config_inv c.
Proof.
  intros Hrun. remember initial as c0 eqn:Hc0. revert Hc0.
  induction Hrun as [|c0 ls c1 l c2 Hrun IH Hstep]; intros ->.
  - split; [split| |]; simpl; try done; by constructor.
  - eauto using rdp_step_inv.
Qed.

(** A dropped receiver stays dropped. *)
Lemma rdp_step_gone c l c' : step c l c' → receiver c = Gone → receiver c' = Gone.
Proof. destruct 1; simpl; try done; intros ->; by apply rdp_notified_gone. Qed.

(** What the senders got delivered and what the receiver got, in order. *)
Definition sent (ls : list Label) : list HelperEvent :=
  omap (λ l, match l with LSend e true => Some e | _ => None end) ls.

Definition received (ls : list Label) : list HelperEvent :=
  omap (λ l, match l with LRecv e => Some e | _ => None end) ls.

Lemma sent_snoc ls l : sent (ls ++ [l]) = sent ls ++ sent [l].
Proof. apply omap_app. Qed.

Lemma received_snoc ls l : received (ls ++ [l]) = received ls ++ received [l].
Proof. apply omap_app. Qed.

(** ** Control events: in order, and the cursor they leave *)

(** The events that nothing discards. *)
Definition is_durable (e : HelperEvent) : bool := negb (is_picture e || is_cursor e).

Definition durable : list HelperEvent → list HelperEvent := filter (λ e, is_durable e = true).

(** The cursor of the host: the barriers reset it. *)
Record cursor := mk_cursor { appearance : option HelperEvent; position : option (N * N) }.

Definition no_cursor : cursor := mk_cursor None None.

Definition cursor_step (k : cursor) (e : HelperEvent) : cursor :=
  match e with
  | CursorDefault | CursorHidden | CursorRgbaBytes _ _ _ _ _ => mk_cursor (Some e) (position k)
  | CursorPosition x y => mk_cursor (appearance k) (Some (x, y))
  | Reconnecting _ _ | ConnectionFailure _ | Terminated _ => no_cursor
  | _ => k
  end.

Definition show_cursor (es : list HelperEvent) : cursor := foldl cursor_step no_cursor es.

Lemma rdp_durable_app l1 l2 : durable (l1 ++ l2) = durable l1 ++ durable l2.
Proof. apply filter_app. Qed.

Lemma durable_not e : is_durable e = false → durable [e] = [].
Proof. intros He. unfold durable. rewrite filter_cons_False; [done|by rewrite He]. Qed.

Lemma rdp_durable_discard c : durable (discard_pending_cursor_events c) = durable c.
Proof.
  induction c as [|e c IH]; simpl; [done|]. destruct (is_cursor e) eqn:Hc.
  - rewrite IH, (rdp_durable_app [e] c : durable (e :: c) = _), durable_not; [done|].
    unfold is_durable. by rewrite Hc, orb_true_r.
  - rewrite (rdp_durable_app [e] c : durable (e :: c) = _), <-IH. apply (rdp_durable_app [e]).
Qed.

Lemma rdp_durable_enqueue c e : durable (enqueue_control c e) = durable c ++ durable [e].
Proof.
  destruct (enqueue_control_cases c e) as [->|(b & Hb & -> & Hcase)]; [apply rdp_durable_app|].
  rewrite Hb at 2. rewrite !rdp_durable_app.
  destruct Hcase as [(? & ? & ? & ? & -> & ->)|(? & ? & ? & ? & ? & ? & ? & ? & ? & ? & -> & ->)];
    by rewrite !durable_not, !app_nil_r by done.
Qed.

Lemma rdp_durable_accept e st :
  durable (control (accept_event e st)) = durable (control st) ++ durable [e].
Proof.
  destruct e; cbn [accept_event with_control with_pictures control];
    rewrite ?rdp_durable_enqueue, ?rdp_durable_app, ?rdp_durable_discard; try done;
    rewrite durable_not by done; by rewrite app_nil_r.
Qed.

Lemma cursor_enqueue k c e :
  foldl cursor_step k (enqueue_control c e) = cursor_step (foldl cursor_step k c) e.
Proof.
  destruct (enqueue_control_cases c e) as [->|(b & Hb & -> & Hcase)];
    [by rewrite foldl_app|]. rewrite Hb at 2. rewrite !foldl_app. simpl.
  by destruct Hcase as [(? & ? & ? & ? & -> & ->)|(? & ? & ? & ? & ? & ? & ? & ? & ? & ? & -> & ->)].
Qed.

Lemma cursor_accept k e st :
  foldl cursor_step k (control (accept_event e st)) =
    cursor_step (foldl cursor_step k (control st)) e.
Proof. destruct e; simpl; rewrite ?cursor_enqueue, ?foldl_app; done. Qed.

Lemma recv_poll_control st st' r :
  state_inv st → recv_poll st = (st', r) →
  match r with
  | Received e => control st = e :: control st' ∨
                  (is_picture e = true ∧ control st = [] ∧ control st' = [])
  | _ => control st' = control st
  end.
Proof.
  destruct st as [c f d n a]. unfold recv_poll. simpl. intros [H1 H2 H3] Hr. simpl in *.
  repeat case_match; simplify_eq; simpl; auto.
  - destruct (H2 _ eq_refl) as (? & ? & ? & ->). by right.
  - destruct (H3 _ eq_refl) as (? & ? & ? & ? & ->). by right.
Qed.

(** Control events stay in one line: what was received, then what is queued. *)
Definition accounted (ls : list Label) (c : Config) : Prop :=
  durable (sent ls) = durable (received ls) ++ durable (control (mailbox c)) ∧
  show_cursor (received ls ++ control (mailbox c)) = show_cursor (sent ls).

Lemma accounted_unchanged ls l c c' :
  accounted ls c → sent [l] = [] → received [l] = [] →
  control (mailbox c') = control (mailbox c) → accounted (ls ++ [l]) c'.
Proof.
  intros [H1 H2] Hs Hr Hc. unfold accounted.
  by rewrite sent_snoc, received_snoc, Hs, Hr, Hc, !app_nil_r.
Qed.

Lemma accounted_recv ls st st' e r r' :
  state_inv st → recv_poll st = (st', Received e) →
  accounted ls (mk_config st r) → accounted (ls ++ [LRecv e]) (mk_config st' r').
Proof.
  intros Hst Hr [H1 H2]. pose proof (recv_poll_control _ _ _ Hst Hr) as Hc.
  unfold accounted. rewrite sent_snoc, received_snoc. simpl in *.
  rewrite app_nil_r, H1, <-H2, rdp_durable_app, <-!app_assoc.
  destruct Hc as [->|(He & -> & ->)]; split; try done.
  - f_equal. apply (rdp_durable_app [e]).
  - rewrite durable_not by (unfold is_durable; by rewrite He). done.
  - rewrite !app_nil_r. unfold show_cursor. rewrite foldl_app. by destruct e.
Qed.

Lemma step_accounted ls c l c' :
  step c l c' → config_inv c → receiver c' ≠ Gone →
  accounted ls c → accounted (ls ++ [l]) c'.
Proof.
  intros Hstep Hinv Hgone Hacc. pose proof (inv_state _ Hinv) as Hst.
  destruct Hstep as [st r e st' n res Hn Hs|st r Hn|st r st' n Hn Hd|st st' e Hr|st st' Hr|st st' Hr|st|st];
    cbn [mailbox receiver] in *.
  - unfold send in Hs. case_match; simplify_eq/=; [|by apply (accounted_unchanged _ _ _ _ Hacc)].
    destruct Hacc as [H1 H2]. unfold accounted. rewrite sent_snoc, received_snoc. simpl in *.
    rewrite rdp_durable_app, rdp_durable_accept, app_nil_r, H1, <-app_assoc. split; [done|].
    unfold show_cursor in *. rewrite !foldl_app in *. rewrite cursor_accept, H2. done.
  - by apply (accounted_unchanged _ _ _ _ Hacc).
  - injection Hd as <- <-. by apply (accounted_unchanged _ _ _ _ Hacc).
  - by eapply accounted_recv.
  - apply (accounted_unchanged _ _ _ _ Hacc); try done.
    exact (recv_poll_control _ _ _ Hst Hr).
  - apply (accounted_unchanged _ _ _ _ Hacc); try done.
    exact (recv_poll_control _ _ _ Hst Hr).
  - by apply (accounted_unchanged _ _ _ _ Hacc).
  - done.
Qed.

Lemma run_accounted ls c : run initial ls c → receiver c ≠ Gone → accounted ls c.
Proof.
  intros Hrun. remember initial as c0 eqn:Hc0. revert Hc0.
  induction Hrun as [|c0 ls c1 l c2 Hrun IH Hstep]; intros -> Hgone; [done|].
  eapply step_accounted; [done|by eapply rdp_run_inv|done|].
  apply IH; [done|]. intros Hg. by eapply Hgone, rdp_step_gone.
Qed.

(** Control events are delivered.  In every execution whose receiver is still
    there, the events that are neither pictures nor cursor events and were accepted
    are, in order, those received and then those queued; and whenever an event is
    pending or no sender is left, the receiver is not asleep, and its next poll does
    not wait. *)
Theorem control_events_delivered ls c :
  run initial ls c → receiver c ≠ Gone →
  durable (sent ls) = durable (received ls) ++ durable (control (mailbox c)) ∧
  (pending (mailbox c) ∨ sender_count (mailbox c) = 0%N →
   receiver c = Running ∧ (recv_poll (mailbox c)).2 ≠ WouldWait).
Proof.
  intros Hrun Hgone. split; [by apply run_accounted|]. intros Hp.
  pose proof (rdp_run_inv _ _ Hrun) as Hinv. split.
  - destruct (receiver c) eqn:Hr; [done| |done].
    destruct (inv_sleeping _ Hinv Hr). by destruct Hp.
  - destruct (recv_poll (mailbox c)) as [st' r] eqn:Hpoll. simpl. intros ->.
    destruct (rdp_recv_poll_wait _ _ Hpoll) as (_ & ? & ?). by destruct Hp.
Qed.

(** ** Pictures: the mailbox refines the direct line *)

Section pictures.
Context `{Viewer V}.

(** What a viewer on a direct line shows; [None] while nothing is promised. *)
Definition direct_event (d : option (V * (N * N))) (e : HelperEvent) : option (V * (N * N)) :=
  if is_terminal e then None else direct_picture d (picture_of e).

Definition direct_label (d : option (V * (N * N))) (l : Label) : option (V * (N * N)) :=
  match l with
  | LSend e true => direct_event d e
  | LDropReceiver => None
  | _ => d
  end.

Definition direct (ls : list Label) : option (V * (N * N)) := foldl direct_label None ls.

(** What the host shows after an execution. *)
Definition shown (ls : list Label) : option V := foldl view None (received ls).

Definition label_wf (l : Label) : Prop :=
  match l with LSend e _ => picture_wf (picture_of e) | _ => True end.

Definition play (v : option V) (e : option HelperEvent) : option V :=
  match e with Some e => view v e | None => v end.

(** What the host will show once the pending pictures are received. *)
Definition caught_up (st : State) (v : option V) : option V :=
  play (play v (latest_frame st)) (latest_delta st).

Record simulates (st : State) (v : option V) (d : option (V * (N * N))) : Prop := {
  sim_wf : ∀ e, latest_delta st = Some e → picture_wf (picture_of e);
  sim_screen : ∀ s dims, d = Some (s, dims) →
    caught_up st v = Some s ∧
    ∀ e, latest_delta st = Some e → picture_dims (picture_of e) = Some dims;
}.

Lemma rdp_merge_deltas_same w h r1 px1 r2 px2 :
  merge_deltas (FrameBgraRects w h r1 px1) (FrameBgraRects w h r2 px2) =
    FrameBgraRects w h (r1 ++ r2) (px1 ++ px2).
Proof. simpl. by rewrite !N.eqb_refl. Qed.

(** Merging deltas of one size is playing both. *)
Lemma rdp_view_merge_deltas v w h r1 px1 r2 px2 :
  picture_wf (picture_of (FrameBgraRects w h r1 px1)) →
  view v (merge_deltas (FrameBgraRects w h r1 px1) (FrameBgraRects w h r2 px2)) =
    view (view v (FrameBgraRects w h r1 px1)) (FrameBgraRects w h r2 px2).
Proof.
  intros Hwf. rewrite rdp_merge_deltas_same. unfold view, picture_of, event_picture.
  rewrite fmap_app. by apply view_delta_app.
Qed.

Lemma rdp_merge_deltas_wf d e :
  (∃ w h r px, d = FrameBgraRects w h r px) → (∃ w h r px, e = FrameBgraRects w h r px) →
  picture_wf (picture_of d) → picture_wf (picture_of e) →
  picture_wf (picture_of (merge_deltas d e)).
Proof.
  intros (w & h & r1 & px1 & ->) (w' & h' & r2 & px2 & ->) H1 H2.
  simpl merge_deltas. case_match; [|done]. unfold picture_of, event_picture, picture_wf in *.
  rewrite fmap_app, rect_bytes_app, length_app. lia.
Qed.

Lemma rdp_simulates_control st v d c : simulates st v d → simulates (with_control st c) v d.
Proof. intros [H1 H2]. by split. Qed.

Lemma rdp_simulates_delta st v d w h rs px :
  state_inv st → simulates st v d → picture_wf (picture_of (FrameBgraRects w h rs px)) →
  simulates (accept_event (FrameBgraRects w h rs px) st) v
    (direct_event d (FrameBgraRects w h rs px)).
Proof.
  intros Hst Hs Hwf. split; simpl.
  - intros e [= <-]. destruct (latest_delta st) as [p|] eqn:Hp; [|done].
    apply rdp_merge_deltas_wf; [by apply (inv_delta st Hst)|by eauto 10|by eapply sim_wf|done].
  - intros s dims Hscr. unfold direct_event in Hscr. simpl in Hscr.
    destruct d as [[s0 dims0]|]; [|done].
    destruct (decide (dims0 = (w, h))) as [->|]; [|done].
    injection Hscr as <- <-.
    destruct (sim_screen _ _ _ Hs s0 (w, h) eq_refl) as [Hcu Hdims].
    unfold caught_up in *. simpl. destruct (latest_delta st) as [p|] eqn:Hp.
    + destruct (inv_delta st Hst p Hp) as (w' & h' & r' & px' & ->).
      specialize (Hdims _ eq_refl). injection Hdims as -> ->.
      rewrite rdp_view_merge_deltas by (by eapply sim_wf). simpl in Hcu. rewrite Hcu.
      rewrite rdp_merge_deltas_same. split; [done|]. by intros ? [= <-].
    + simpl in Hcu. rewrite Hcu. split; [done|]. by intros ? [= <-].
Qed.

Lemma rdp_simulates_accept st v d e :
  state_inv st → simulates st v d → picture_wf (picture_of e) →
  simulates (accept_event e st) v (direct_event d e).
Proof.
  intros Hst Hs Hwf.
  destruct e; try (by apply rdp_simulates_delta); try (by apply rdp_simulates_control);
    split; simpl; try done.
  by intros s dims [= <- <-].
Qed.

Lemma rdp_simulates_recv st st' v d r :
  state_inv st → recv_poll st = (st', r) → simulates st v d →
  simulates st' (match r with Received e => view v e | _ => v end) d.
Proof.
  destruct st as [c f dl n a]. unfold recv_poll. cbn [control latest_frame latest_delta sender_count].
  intros [Hc _ _] Hr [H1 H2]. destruct c as [|e rest].
  - destruct f as [f|]; [|destruct dl as [dl|]].
    + injection Hr as <- <-. by split.
    + injection Hr as <- <-. split; [done|]. intros s dims Hd. split; [|done].
      by destruct (H2 s dims Hd).
    + by case_match; simplify_eq.
  - injection Hr as <- <-. simpl in Hc. inversion Hc; subst.
    assert (view v e = v) as -> by (by destruct e). by split.
Qed.

Lemma rdp_step_simulates c l c' v d :
  step c l c' → state_inv (mailbox c) → label_wf l → simulates (mailbox c) v d →
  simulates (mailbox c') (match l with LRecv e => view v e | _ => v end) (direct_label d l).
Proof.
  intros Hstep Hst Hl Hs.
  destruct Hstep as [st r e st' n res Hn Hsend|st r Hn|st r st' n Hn Hd|st st' e Hr|st st' Hr|st st' Hr|st|st];
    cbn [mailbox] in *.
  - unfold send in *. case_match; simplify_eq; [by apply rdp_simulates_accept|done].
  - destruct Hs as [H1 H2]. by split.
  - injection Hd as <- <-. destruct Hs as [H1 H2]. by split.
  - exact (rdp_simulates_recv _ _ _ _ _ Hst Hr Hs).
  - exact (rdp_simulates_recv _ _ _ _ _ Hst Hr Hs).
  - exact (rdp_simulates_recv _ _ _ _ _ Hst Hr Hs).
  - done.
  - by split.
Qed.

Lemma rdp_run_simulates ls c :
  run initial ls c → Forall label_wf ls → simulates (mailbox c) (shown ls) (direct ls).
Proof.
  intros Hrun. remember initial as c0 eqn:Hc0. revert Hc0.
  induction Hrun as [|c0 ls c1 l c2 Hrun IH Hstep]; intros -> Hwf.
  - by split.
  - apply Forall_app in Hwf as [Hls Hl]. rewrite Forall_singleton in Hl.
    pose proof (rdp_step_simulates _ _ _ _ _ Hstep (inv_state _ (rdp_run_inv _ _ Hrun)) Hl
      (IH eq_refl Hls)) as Hs.
    unfold shown, direct in *. rewrite received_snoc, !foldl_app.
    destruct l; exact Hs.
Qed.

(** C9: the mailbox is a faithful channel for pictures and the cursor.  In every
    execution whose deltas carry exactly the bytes of their rectangles and whose
    receiver is still there: once no picture is pending, the host shows what a host
    on a direct line shows, the last frame with every later delta painted on it;
    and once the queue is empty, the host has the cursor, shape and position, that
    the events sent leave, whichever cursor events were coalesced or discarded. *)
Theorem rdp_mailbox_refines_direct_line ls c :
  run initial ls c → Forall label_wf ls → receiver c ≠ Gone →
  (latest_frame (mailbox c) = None → latest_delta (mailbox c) = None →
   ∀ s dims, direct ls = Some (s, dims) → shown ls = Some s) ∧
  (control (mailbox c) = [] → show_cursor (received ls) = show_cursor (sent ls)).
Proof.
  intros Hrun Hwf Hgone. split.
  - intros Hf Hd s dims Hscr.
    destruct (sim_screen _ _ _ (rdp_run_simulates ls c Hrun Hwf) s dims Hscr) as [Hcu _].
    unfold caught_up in Hcu. by rewrite Hf, Hd in Hcu.
  - intros Hc. destruct (run_accounted ls c Hrun Hgone) as [_ Hk].
    by rewrite Hc, app_nil_r in Hk.
Qed.
End pictures.

(** ** Witnesses *)

(** A screen that remembers what it was asked to draw. *)
#[export] Instance log_viewer : Viewer (list (N * N * bytes)) := {|
  show_frame w h px := [(w, h, px)];
  paint v r px := v ++ [(pr_x r, pr_y r, px)];
|}.

Definition demo_rect (x : N) : HelperFrameRect := mk_helper_rect x 0 1 1 4.

Definition demo_labels : list Label :=
  [LSend (CursorPosition 1 1) true;
   LSend (FrameBgraBytes 2 1 [1; 1; 1; 1; 2; 2; 2; 2]%N) true;
   LSend (FrameBgraRects 2 1 [demo_rect 0] [7; 7; 7; 7]%N) true;
   LSend (CursorPosition 2 1) true;
   LSend (FrameBgraRects 2 1 [demo_rect 1] [8; 8; 8; 8]%N) true;
   LRecv (CursorPosition 2 1);
   LRecv (FrameBgraBytes 2 1 [1; 1; 1; 1; 2; 2; 2; 2]%N);
   LRecv (FrameBgraRects 2 1 [demo_rect 0; demo_rect 1] [7; 7; 7; 7; 8; 8; 8; 8]%N)].

Lemma rdp_mailbox_refines_direct_line_witness :
  shown demo_labels =
    Some [(2, 1, [1; 1; 1; 1; 2; 2; 2; 2]); (0, 0, [7; 7; 7; 7]); (1, 0, [8; 8; 8; 8])]%N ∧
  show_cursor (received demo_labels) = mk_cursor None (Some (2, 1)%N).
Proof.
  assert (∃ c, run initial demo_labels c ∧ receiver c ≠ Gone ∧ control (mailbox c) = [] ∧
    latest_frame (mailbox c) = None ∧ latest_delta (mailbox c) = None)
    as (c & Hrun & Hgone & Hc & Hf & Hd).
  { eexists. split; [apply rdp_exec_all_run; reflexivity|done]. }
  assert (Forall label_wf demo_labels) as Hwf by (repeat constructor).
  destruct (rdp_mailbox_refines_direct_line demo_labels c Hrun Hwf Hgone) as [Hs Hk].
  split; [apply (Hs Hf Hd _ (2, 1)%N); reflexivity|].
  rewrite (Hk Hc). reflexivity.
Defined.

Lemma control_events_delivered_witness :
  ∃ ls c, run initial ls c ∧ durable (sent ls) = [Status "a"; Status "b"] ∧
    durable (received ls) ++ durable (control (mailbox c)) = [Status "a"; Status "b"] ∧
    receiver c = Running.
Proof.
  set (ls := [LSleep; LSend (Status "a") true; LSend CursorHidden true;
              LSend (Status "b") true; LRecv (Status "a")]).
  assert (∃ c, run initial ls c ∧ receiver c ≠ Gone ∧ pending (mailbox c))
    as (c & Hrun & Hg & Hp).
  { eexists. split; [apply rdp_exec_all_run; reflexivity|split; [done|by left]]. }
  destruct (control_events_delivered ls c Hrun Hg) as [Hd Hr].
  exists ls, c. split_and!; [done|reflexivity| |].
  - rewrite <-Hd. reflexivity.
  - apply Hr. by left.
Defined.
