(* ===== verification/RdpOutput.v ===== *)
(** * From RDP session events to helper events

    rdp-helper/src/pixels.rs, rdp/output.rs (the mapper) and the output task of
    rdp.rs ([map_output_events] with its frame pacing).  The event type belongs to
    the RDP client library: [RdpOutputEvent] has the variants [map] matches
    exhaustively, and the error and reason values, which are only rendered, are
    parameters with their renderings.  Clock readings come from a function of the
    number of readings so far, deliveries from a function of the number of
    deliveries tried; [select!] is the environment's choice of an arm. *)

From S2P Require Import Prelude Viewer RdpProtocol RdpMailbox.

(** ** pixels.rs *)

(** [pixel.to_be_bytes()] of a [u32]. *)
Definition to_be_bytes (pixel : N) : N * N * N * N :=
  ((pixel / 16777216) `mod` 256, (pixel / 65536) `mod` 256, (pixel / 256) `mod` 256,
   pixel `mod` 256)%N.

Fixpoint rdp_u32_pixels_to_bgra (buffer : list N) : bytes :=
  match buffer with
  | [] => []
  | pixel :: rest =>
      let '(_, r, g, b) := to_be_bytes pixel in
      [b; g; r; 255%N] ++ rdp_u32_pixels_to_bgra rest
  end.

Example converts_ironrdp_pixels_to_bgra_for_gpui :
  rdp_u32_pixels_to_bgra [1122867; 11259375]%N =
    [51; 34; 17; 255; 239; 205; 171; 255]%N.
Proof. reflexivity. Qed.

Lemma rdp_u32_pixels_to_bgra_length buffer :
  length (rdp_u32_pixels_to_bgra buffer) = 4 * length buffer.
Proof. induction buffer; simpl in *; lia. Qed.

(** ** The session events *)

Record RdpImageRegion := mk_region { rg_x : N; rg_y : N; rg_width : N; rg_height : N }.

Record DecodedPointer := mk_pointer {
  dp_width : N; dp_height : N; dp_hotspot_x : N; dp_hotspot_y : N; dp_bitmap_data : bytes;
}.

Section mapper.
Context {FallbackReason ConnectorError DisconnectReason SessionErr : Type}.
Context (connector_report : ConnectorError → string).
Context (reason_text : DisconnectReason → string) (session_report : SessionErr → string).

Inductive RdpOutputEvent :=
  | SessionConnected
  | LoginComplete
  | PostLogonDisplayRedraw
  | MalformedBitmapDisplayRedraw
  | DisplayResizeFallback (reason : FallbackReason)
  | Image (buffer : list N) (width height : N)
  | ImageRegion (bgra : bytes) (width height : N) (region : RdpImageRegion)
  | SessionConnectionFailure (error : ConnectorError)
  | SessionTerminated (result : DisconnectReason + SessionErr)
  | PointerDefault
  | PointerHidden
  | PointerPosition (x y : N)
  | PointerBitmap (pointer : DecodedPointer).

(** ** rdp/output.rs *)

Record PendingCursor := mk_pending_cursor {
  pc_appearance : option HelperEvent;
  pc_position : option (N * N);
}.

Definition cleared_cursor : PendingCursor := mk_pending_cursor None None.

(** Only cursor events are recorded: the last case is a [debug_assert!]. *)
Definition record (pc : PendingCursor) (event : HelperEvent) : PendingCursor :=
  match event with
  | CursorPosition x y => mk_pending_cursor (pc_appearance pc) (Some (x, y))
  | CursorDefault | CursorHidden | CursorRgbaBytes _ _ _ _ _ =>
      mk_pending_cursor (Some event) (pc_position pc)
  | _ => pc
  end.

Definition append_to (pc : PendingCursor) (events : list HelperEvent)
    : PendingCursor * list HelperEvent :=
  let events :=
    match pc_appearance pc with Some appearance => events ++ [appearance] | None => events end in
  let events :=
    match pc_position pc with Some (x, y) => events ++ [CursorPosition x y] | None => events end in
  (mk_pending_cursor None None, events).

Definition clear (pc : PendingCursor) : PendingCursor := mk_pending_cursor None None.

Record RdpOutputMapper := mk_mapper {
  connected : bool;
  base_size : option (N * N);
  pending_cursor : PendingCursor;
}.

Definition default_mapper : RdpOutputMapper := mk_mapper false None cleared_cursor.

Definition reset_session (m : RdpOutputMapper) : RdpOutputMapper :=
  mk_mapper false None (clear (pending_cursor m)).

Definition map_cursor (m : RdpOutputMapper) (event : HelperEvent)
    : RdpOutputMapper * list HelperEvent :=
  if connected m then (m, [event])
  else (mk_mapper (connected m) (base_size m) (record (pending_cursor m) event), []).

(** [a.checked_mul(b)] at [usize]. *)
Definition checked_mul_usize (a b : N) : option N :=
  if (a * b <=? u64_max)%N then Some (a * b)%N else None.

(** The guard of an image region, for a mapper that is connected and has the
    region's frame size. *)
Definition region_malformed (bgra : bytes) (width height : N) (region : RdpImageRegion) : bool :=
  let expected_len :=
    pixels ← checked_mul_usize (rg_width region) (rg_height region);
    checked_mul_usize pixels 4 in
  let right := (rg_x region + rg_width region)%N in
  let bottom := (rg_y region + rg_height region)%N in
  (rg_width region =? 0)%N || (rg_height region =? 0)%N ||
  (width <? right)%N || (height <? bottom)%N ||
  negb (bool_decide (expected_len = Some (N.of_nat (length bgra)))).

Definition map_image (m : RdpOutputMapper) (buffer : list N) (width height : N)
    : RdpOutputMapper * list HelperEvent :=
  let '(pc, events) :=
    if connected m then (pending_cursor m, [])
    else append_to (pending_cursor m) [Connected width height] in
  (mk_mapper true (Some (width, height)) pc,
   events ++ [frame width height (rdp_u32_pixels_to_bgra buffer)]).

Definition map_region (m : RdpOutputMapper) (bgra : bytes) (width height : N)
    (region : RdpImageRegion) : list HelperEvent :=
  if negb (connected m) then []
  else if negb (bool_decide (base_size m = Some (width, height))) then []
  else if region_malformed bgra width height region then []
  else [FrameBgraRects width height
          [mk_helper_rect (rg_x region) (rg_y region) (rg_width region) (rg_height region)
             (N.of_nat (length bgra))] bgra].

Definition map (m : RdpOutputMapper) (event : RdpOutputEvent)
    : RdpOutputMapper * list HelperEvent :=
  match event with
  | SessionConnected | LoginComplete | PostLogonDisplayRedraw
  | MalformedBitmapDisplayRedraw => (m, [])
  | DisplayResizeFallback _ => (reset_session m, [Reconnecting DisplayUpdate None])
  | Image buffer width height => map_image m buffer width height
  | ImageRegion bgra width height region => (m, map_region m bgra width height region)
  | SessionConnectionFailure error =>
      (reset_session m, [ConnectionFailure (connector_report error)])
  | SessionTerminated result =>
      (reset_session m,
       [Terminated match result with
                   | inl reason => reason_text reason
                   | inr error => session_report error
                   end])
  | PointerDefault => map_cursor m CursorDefault
  | PointerHidden => map_cursor m CursorHidden
  | PointerPosition x y => map_cursor m (CursorPosition x y)
  | PointerBitmap pointer =>
      if (dp_width pointer =? 0)%N || (dp_height pointer =? 0)%N
      then map_cursor m CursorHidden
      else map_cursor m (CursorRgbaBytes (dp_width pointer) (dp_height pointer)
             (dp_hotspot_x pointer) (dp_hotspot_y pointer) (dp_bitmap_data pointer))
  end.

(** A sequence of events through one mapper. *)
Fixpoint map_all (m : RdpOutputMapper) (events : list RdpOutputEvent)
    : RdpOutputMapper * list HelperEvent :=
  match events with
  | [] => (m, [])
  | e :: rest =>
      let '(m, out) := map m e in
      let '(m, outs) := map_all m rest in
      (m, out ++ outs)
  end.

Lemma map_all_app m es1 es2 :
  map_all m (es1 ++ es2) =
    ((map_all (map_all m es1).1 es2).1, (map_all m es1).2 ++ (map_all (map_all m es1).1 es2).2).
Proof.
  revert m. induction es1 as [|e es1 IH]; intros m; simpl; [by destruct (map_all m es2)|].
  destruct (map m e) as [m1 out]. rewrite IH. destruct (map_all m1 es1) as [m2 outs]. simpl.
  by rewrite app_assoc.
Qed.

Lemma map_all_snoc m es e :
  map_all m (es ++ [e]) =
    ((map (map_all m es).1 e).1, (map_all m es).2 ++ (map (map_all m es).1 e).2).
Proof.
  rewrite map_all_app. simpl. destruct (map (map_all m es).1 e) as [m' out].
  simpl. by rewrite app_nil_r.
Qed.

(** ** What the host may rely on: the grammar of a session's events *)

Inductive phase :=
  | Offline
  | Starting (width height : N)
  | Live (width height : N).

Definition rect_ok (width height : N) (r : HelperFrameRect) (px : bytes) : bool :=
  (0 <? hr_width r)%N && (0 <? hr_height r)%N &&
  (hr_x r + hr_width r <=? width)%N && (hr_y r + hr_height r <=? height)%N &&
  (hr_byte_len r =? 4 * hr_width r * hr_height r)%N &&
  (hr_byte_len r =? N.of_nat (length px))%N.

(** One event against the grammar: a session starts with [Connected], then its
    cursor, then a complete frame of the announced size; afterwards come frames,
    rectangles inside the latest frame, and cursor events, until a barrier. *)
Definition phase_step (p : phase) (e : HelperEvent) : option phase :=
  match p, e with
  | _, (Reconnecting _ _ | ConnectionFailure _ | Terminated _) => Some Offline
  | Offline, Connected w h => Some (Starting w h)
  | (Starting _ _ | Live _ _), (CursorDefault | CursorHidden | CursorPosition _ _
                               | CursorRgbaBytes _ _ _ _ _) => Some p
  | Starting w h, FrameBgraBytes w' h' _ =>
      if (w =? w')%N && (h =? h')%N then Some (Live w h) else None
  | Live _ _, FrameBgraBytes w h _ => Some (Live w h)
  | Live w h, FrameBgraRects w' h' [r] px =>
      if (w =? w')%N && (h =? h')%N && rect_ok w h r px then Some (Live w h) else None
  | _, _ => None
  end.

Fixpoint check_grammar (p : phase) (es : list HelperEvent) : option phase :=
  match es with
  | [] => Some p
  | e :: rest => p' ← phase_step p e; check_grammar p' rest
  end.

Lemma check_grammar_app p es1 es2 :
  check_grammar p (es1 ++ es2) = (p' ← check_grammar p es1; check_grammar p' es2).
Proof.
  revert p. induction es1 as [|e es1 IH]; intros p; simpl; [done|].
  destruct (phase_step p e); simpl; [apply IH|done].
Qed.

(** The phase a mapper is in. *)
Definition in_phase (m : RdpOutputMapper) (p : phase) : Prop :=
  match p with
  | Offline => connected m = false
  | Starting _ _ => False
  | Live w h => connected m = true ∧ base_size m = Some (w, h)
  end.

Definition is_shape (e : HelperEvent) : bool :=
  match e with CursorDefault | CursorHidden | CursorRgbaBytes _ _ _ _ _ => true | _ => false end.

(** What is held back before [Connected] is a cursor shape. *)
Definition mapper_inv (m : RdpOutputMapper) : Prop :=
  ∀ e, pc_appearance (pending_cursor m) = Some e → is_shape e = true.

Lemma map_cursor_grammar m p e :
  is_cursor e = true → in_phase m p → mapper_inv m →
  check_grammar p (map_cursor m e).2 = Some p ∧ in_phase (map_cursor m e).1 p ∧
  mapper_inv (map_cursor m e).1.
Proof.
  intros He Hp Hinv. unfold map_cursor. destruct p as [|w h|w h]; simpl in Hp; [|done|].
  - rewrite Hp. split; [done|]. split; [done|]. intros e'. simpl.
    destruct e; try discriminate He; simpl; intros ?; simplify_eq; eauto.
  - destruct Hp as [Hc Hb]. rewrite Hc. split; [|by split].
    by destruct e.
Qed.

Lemma append_to_grammar pc w h :
  (∀ e, pc_appearance pc = Some e → is_shape e = true) →
  check_grammar Offline (append_to pc [Connected w h]).2 = Some (Starting w h).
Proof.
  intros Hpc. unfold append_to. destruct pc as [[a|] [[x y]|]]; simpl in *; try done;
    specialize (Hpc _ eq_refl); by destruct a.
Qed.

Lemma region_rect_ok bgra w h region :
  region_malformed bgra w h region = false →
  rect_ok w h (mk_helper_rect (rg_x region) (rg_y region) (rg_width region) (rg_height region)
                 (N.of_nat (length bgra))) bgra = true.
Proof.
  unfold region_malformed, rect_ok. intros Hr. bool_to_prop. simpl.
  unfold checked_mul_usize in Hr. destruct (_ <=? u64_max)%N; [|done]. simpl in Hr.
  destruct (_ <=? u64_max)%N; [|done]. injection Hr as Hr.
  rewrite !andb_true_iff, !N.ltb_lt, !N.leb_le, !N.eqb_eq. split_and!; lia.
Qed.

Lemma map_grammar m p e :
  in_phase m p → mapper_inv m →
  ∃ p', check_grammar p (map m e).2 = Some p' ∧ in_phase (map m e).1 p' ∧ mapper_inv (map m e).1.
Proof.
  intros Hp Hinv. destruct e as [| | | |?|buffer w h|bgra w h region|?|?| | |? ?|pointer]; simpl;
    try (by exists p); try (by exists Offline; destruct p);
    try (exists p; by apply map_cursor_grammar).
  - exists (Live w h). unfold map_image. destruct p as [|w0 h0|w0 h0]; simpl in Hp; [|done|].
    + rewrite Hp. pose proof (append_to_grammar (pending_cursor m) w h Hinv) as Hg.
      destruct (append_to (pending_cursor m) [Connected w h]) as [pc events] eqn:Ha.
      simpl in *. rewrite check_grammar_app, Hg. simpl. rewrite !N.eqb_refl.
      split; [done|]. split; [done|]. unfold append_to in Ha. by injection Ha as <- _.
    + destruct Hp as [Hc Hb]. rewrite Hc. by split.
  - unfold map_region. exists p.
    destruct (connected m) eqn:Hc; [|by split]. cbn [negb].
    destruct (bool_decide (base_size m = Some (w, h))) eqn:Hb; [|by split]. cbn [negb].
    bool_to_prop. destruct (region_malformed bgra w h region) eqn:Hr; [by split|].
    destruct p as [|w0 h0|w0 h0]; simpl in Hp; [congruence|done|].
    destruct Hp as [_ Hb']. rewrite Hb in Hb'. injection Hb' as <- <-.
    cbn [check_grammar phase_step]. rewrite !N.eqb_refl, region_rect_ok by done. by split.
  - exists p. destruct (_ || _); by apply map_cursor_grammar.
Qed.

Lemma map_all_grammar m p es :
  in_phase m p → mapper_inv m →
  ∃ p', check_grammar p (map_all m es).2 = Some p' ∧ in_phase (map_all m es).1 p'.
Proof.
  revert m p. induction es as [|e es IH]; intros m p Hp Hinv; simpl; [by exists p|].
  destruct (map_grammar m p e Hp Hinv) as (p1 & Hg & Hp1 & Hinv1).
  destruct (map m e) as [m1 out]. destruct (IH m1 p1 Hp1 Hinv1) as (p' & Hg' & Hp').
  destruct (map_all m1 es) as [m2 outs]. simpl in *. exists p'. split; [|done].
  by rewrite check_grammar_app, Hg.
Qed.

(** Whatever the session reports, the events mapped from it follow the
    session grammar: [Connected] comes once per session, before everything else of
    it, followed by the cursor and a complete frame of the announced size; every
    delta has one rectangle, of positive size, inside the latest complete frame,
    with exactly its bytes; and after a barrier nothing comes but the next
    [Connected] or another barrier. *)
Theorem mapped_events_grammar es :
  ∃ p, check_grammar Offline (map_all default_mapper es).2 = Some p ∧
    in_phase (map_all default_mapper es).1 p.
Proof. by apply map_all_grammar. Qed.

(** ** The cursor across the [Connected] barrier *)

(** The cursor event a session event stands for. *)
Definition pointer_event (e : RdpOutputEvent) : option HelperEvent :=
  match e with
  | PointerDefault => Some CursorDefault
  | PointerHidden => Some CursorHidden
  | PointerPosition x y => Some (CursorPosition x y)
  | PointerBitmap p =>
      Some (if (dp_width p =? 0)%N || (dp_height p =? 0)%N then CursorHidden
            else CursorRgbaBytes (dp_width p) (dp_height p) (dp_hotspot_x p) (dp_hotspot_y p)
                   (dp_bitmap_data p))
  | _ => None
  end.

(** The cursor the session has: its latest shape and its latest position. *)
Definition session_cursor_step (k : cursor) (e : RdpOutputEvent) : cursor :=
  match pointer_event e, e with
  | Some c, _ => cursor_step k c
  | None, (DisplayResizeFallback _ | SessionConnectionFailure _ | SessionTerminated _) => no_cursor
  | None, _ => k
  end.

Definition session_cursor (es : list RdpOutputEvent) : cursor :=
  foldl session_cursor_step no_cursor es.

(** [k] is the cursor of the host, [s] that of the session. *)
Definition cursor_rel (m : RdpOutputMapper) (k s : cursor) : Prop :=
  if connected m then k = s ∧ pending_cursor m = cleared_cursor
  else k = no_cursor ∧
       s = mk_cursor (pc_appearance (pending_cursor m)) (pc_position (pending_cursor m)).

Lemma map_cursor_rel m k s e :
  is_cursor e = true → cursor_rel m k s →
  cursor_rel (map_cursor m e).1 (foldl cursor_step k (map_cursor m e).2) (cursor_step s e).
Proof.
  unfold cursor_rel, map_cursor. intros He. destruct (connected m) eqn:Hc; simpl.
  - intros [-> Hp]. by rewrite Hc.
  - intros [-> ->]. split; [done|]. by destruct e.
Qed.

Lemma append_to_cursor pc w h :
  (∀ e, pc_appearance pc = Some e → is_shape e = true) →
  foldl cursor_step no_cursor (append_to pc [Connected w h]).2 =
    mk_cursor (pc_appearance pc) (pc_position pc).
Proof.
  intros Hpc. unfold append_to. destruct pc as [[a|] [[x y]|]]; simpl in *; try done;
    specialize (Hpc _ eq_refl); by destruct a.
Qed.

Lemma append_to_pc pc es : (append_to pc es).1 = cleared_cursor.
Proof. done. Qed.

Lemma map_cursor_rel_event m k s e :
  mapper_inv m → cursor_rel m k s →
  cursor_rel (map m e).1 (foldl cursor_step k (map m e).2) (session_cursor_step s e).
Proof.
  intros Hinv Hrel. pose proof Hrel as Hrel0. unfold cursor_rel in Hrel0.
  destruct e as [| | | |?|buffer w h|bgra w h region|?|?| | |? ?|pointer]; simpl; try done;
    try (by apply map_cursor_rel);
    try (unfold cursor_rel; simpl; done).
  - unfold map_image, session_cursor_step. simpl. destruct (connected m) eqn:Hc.
    + destruct Hrel0 as [-> Hp]. simpl. unfold cursor_rel. simpl. done.
    + destruct Hrel0 as [-> ->].
      pose proof (append_to_cursor (pending_cursor m) w h Hinv) as Ha.
      destruct (append_to (pending_cursor m) [Connected w h]) as [pc events] eqn:He.
      simpl. rewrite foldl_app. simpl in *. rewrite Ha. unfold cursor_rel. simpl.
      split; [done|]. by injection He as <- _.
  - unfold session_cursor_step, map_region. simpl. repeat case_match; exact Hrel.
  - unfold session_cursor_step. simpl.
    by destruct ((dp_width pointer =? 0) || _)%N; apply map_cursor_rel.
Qed.

Lemma map_all_cursor_rel m k s es p :
  in_phase m p → mapper_inv m → cursor_rel m k s →
  cursor_rel (map_all m es).1 (foldl cursor_step k (map_all m es).2)
    (foldl session_cursor_step s es).
Proof.
  revert m k s p. induction es as [|e es IH]; intros m k s p Hp Hinv Hrel; [done|].
  destruct (map_grammar m p e Hp Hinv) as (p1 & _ & Hp1 & Hinv1).
  pose proof (map_cursor_rel_event m k s e Hinv Hrel) as Hrel1. simpl.
  destruct (map m e) as [m1 out]. specialize (IH m1 _ _ p1 Hp1 Hinv1 Hrel1).
  destruct (map_all m1 es) as [m2 outs]. simpl in *. by rewrite foldl_app.
Qed.

(** No cursor state is lost or leaked across the [Connected] barrier.  Whenever
    the session has shown its first image the host has exactly the session's cursor,
    its latest shape and latest position since the last reset, including what the
    session reported before the image; while it has not, the host has none of it. *)
Theorem mapped_cursor_correct es :
  show_cursor (map_all default_mapper es).2 =
    if connected (map_all default_mapper es).1 then session_cursor es else no_cursor.
Proof.
  assert (cursor_rel (map_all default_mapper es).1 (show_cursor (map_all default_mapper es).2)
    (session_cursor es)) as Hrel by (by apply (map_all_cursor_rel _ _ _ _ Offline)).
  unfold cursor_rel in Hrel. destruct (connected _); by destruct Hrel.
Qed.
End mapper.
