(* ===== verification/RdpPacing.v ===== *)
(** * The paced output task of the RDP helper

    rdp.rs: [map_output_events] and what it is made of.  The task keeps at most one
    complete image back, until the session has been quiet for 4 ms or the image has
    waited 16 ms, and lets pointer events pass it; everything else flushes it first.
    Times are nanoseconds.  The environment chooses the arm of each [select!] and
    gives the clock readings and the fate of each delivery, by their number. *)

From S2P Require Import Prelude RdpProtocol RdpMailbox RdpOutput.

Definition FRAME_SETTLE_INTERVAL : N := 4000000.
Definition MAX_FRAME_PRESENTATION_LATENCY : N := 16000000.
Definition FRAME_PACING_LOG_INTERVAL : N := 1000000000.

(** The greatest [Duration]. *)
Definition duration_max : N := 18446744073709551615999999999.

(** ** [FramePresentationSchedule] *)

Record FramePresentationSchedule := mk_schedule {
  settle_deadline : option N;
  max_latency_deadline : option N;
}.

Definition default_schedule : FramePresentationSchedule := mk_schedule None None.

Definition record_image (s : FramePresentationSchedule) (now : N) : FramePresentationSchedule :=
  mk_schedule (Some (now + FRAME_SETTLE_INTERVAL)%N)
    (match max_latency_deadline s with
     | Some d => Some d
     | None => Some (now + MAX_FRAME_PRESENTATION_LATENCY)%N
     end).

Definition deadline (s : FramePresentationSchedule) : option N :=
  match settle_deadline s, max_latency_deadline s with
  | Some settle, Some max_latency => Some (N.min settle max_latency)
  | Some settle, None => Some settle
  | None, Some max_latency => Some max_latency
  | None, None => None
  end.

Definition is_due (s : FramePresentationSchedule) (now : N) : bool :=
  match deadline s with Some deadline => (deadline <=? now)%N | None => false end.

Definition clear_schedule (s : FramePresentationSchedule) : FramePresentationSchedule :=
  mk_schedule None None.

(** ** [FramePacingStats] *)

Record FramePacingStats := mk_stats {
  window_started_at : N;
  images_received : N;
  images_coalesced : N;
  images_presented : N;
  full_frames : N;
  delta_frames : N;
  dirty_rects : N;
  payload_bytes : N;
  mapper_elapsed : N;
}.

Definition new_stats (now : N) : FramePacingStats := mk_stats now 0 0 0 0 0 0 0 0.

Definition record_received (st : FramePacingStats) (coalesced : bool) : FramePacingStats :=
  mk_stats (window_started_at st) (sat_add u64_max (images_received st) 1)
    (sat_add u64_max (images_coalesced st) (if coalesced then 1 else 0))
    (images_presented st) (full_frames st) (delta_frames st) (dirty_rects st)
    (payload_bytes st) (mapper_elapsed st).

Definition record_presented (st : FramePacingStats) : FramePacingStats :=
  mk_stats (window_started_at st) (images_received st) (images_coalesced st)
    (sat_add u64_max (images_presented st) 1) (full_frames st) (delta_frames st)
    (dirty_rects st) (payload_bytes st) (mapper_elapsed st).

Definition add_mapper_elapsed (st : FramePacingStats) (elapsed : N) : FramePacingStats :=
  mk_stats (window_started_at st) (images_received st) (images_coalesced st)
    (images_presented st) (full_frames st) (delta_frames st) (dirty_rects st)
    (payload_bytes st) (sat_add duration_max (mapper_elapsed st) elapsed).

Definition record_helper_event (st : FramePacingStats) (event : HelperEvent) : FramePacingStats :=
  match event with
  | FrameBgraBytes _ _ bgra =>
      mk_stats (window_started_at st) (images_received st) (images_coalesced st)
        (images_presented st) (sat_add u64_max (full_frames st) 1) (delta_frames st)
        (dirty_rects st) (sat_add u64_max (payload_bytes st) (N.of_nat (length bgra)))
        (mapper_elapsed st)
  | FrameBgraRects _ _ rects bgra =>
      mk_stats (window_started_at st) (images_received st) (images_coalesced st)
        (images_presented st) (full_frames st) (sat_add u64_max (delta_frames st) 1)
        (sat_add u64_max (dirty_rects st) (N.of_nat (length rects)))
        (sat_add u64_max (payload_bytes st) (N.of_nat (length bgra))) (mapper_elapsed st)
  | _ => st
  end.

Definition record_helper_events (st : FramePacingStats) (events : list HelperEvent)
    : FramePacingStats := foldl record_helper_event st events.

Section task.
Context {FallbackReason ConnectorError DisconnectReason SessionErr : Type}.
Context (connector_report : ConnectorError → string).
Context (reason_text : DisconnectReason → string) (session_report : SessionErr → string).
(** The [n]-th reading of the clock, and whether the [n]-th delivery succeeds. *)
Context (clock : nat → N) (accepts : nat → bool).

Abbreviation event :=
  (@RdpOutputEvent FallbackReason ConnectorError DisconnectReason SessionErr) (only parsing).
Abbreviation map_event := (map connector_report reason_text session_report) (only parsing).

(** The local variables of the task, the clock readings and deliveries used up, and
    what was delivered. *)
Record task := mk_task {
  output_mapper : RdpOutputMapper;
  pending_image : option event;
  presentation_schedule : FramePresentationSchedule;
  pacing_stats : FramePacingStats;
  ticks : nat;
  sends : nat;
  published : list HelperEvent;
}.

Abbreviation act A := (comp task string A) (only parsing).

Definition now : act N := λ t,
  (mk_task (output_mapper t) (pending_image t) (presentation_schedule t) (pacing_stats t)
     (S (ticks t)) (sends t) (published t), Ok (clock (ticks t))).

Definition with_mapper (t : task) (m : RdpOutputMapper) : task :=
  mk_task m (pending_image t) (presentation_schedule t) (pacing_stats t) (ticks t) (sends t)
    (published t).

Definition with_pending (t : task) (p : option event) : task :=
  mk_task (output_mapper t) p (presentation_schedule t) (pacing_stats t) (ticks t) (sends t)
    (published t).

Definition with_schedule (t : task) (s : FramePresentationSchedule) : task :=
  mk_task (output_mapper t) (pending_image t) s (pacing_stats t) (ticks t) (sends t)
    (published t).

Definition with_stats (t : task) (st : FramePacingStats) : task :=
  mk_task (output_mapper t) (pending_image t) (presentation_schedule t) st (ticks t) (sends t)
    (published t).

(** [helper_output_tx.send(helper_event).context(..)?] *)
Definition send_helper_event (e : HelperEvent) : act () := λ t,
  let t' := mk_task (output_mapper t) (pending_image t) (presentation_schedule t)
              (pacing_stats t) (ticks t) (S (sends t))
              (if accepts (sends t) then published t ++ [e] else published t) in
  (t', if accepts (sends t) then Ok () else Err "RDP helper output receiver closed"%string).

Fixpoint send_all (events : list HelperEvent) : act () :=
  match events with
  | [] => mret ()
  | e :: rest => send_helper_event e;; send_all rest
  end.

Definition update (f : task → task) : act () := modify f.

Definition publish_output_event (e : event) : act () :=
  map_started_at ← now;
  m ← gets output_mapper;
  let '(m, helper_events) := map_event m e in
  update (λ t, with_mapper t m);;
  mapped_at ← now;
  update (λ t, with_stats t (add_mapper_elapsed (pacing_stats t) (mapped_at - map_started_at)));;
  update (λ t, with_stats t (record_helper_events (pacing_stats t) helper_events));;
  send_all helper_events.

Definition flush_pending_image : act () :=
  update (λ t, with_schedule t (clear_schedule (presentation_schedule t)));;
  taken ← gets pending_image;
  update (λ t, with_pending t None);;
  match taken with
  | None => mret ()
  | Some image =>
      update (λ t, with_stats t (record_presented (pacing_stats t)));;
      publish_output_event image
  end.

(** [maybe_log]: the log line itself is left out. *)
Definition maybe_log (force : bool) : act () :=
  current ← now;
  started ← gets (λ t, window_started_at (pacing_stats t));
  if negb force && (current - started <? FRAME_PACING_LOG_INTERVAL)%N then mret ()
  else
    restarted ← now;
    update (λ t, with_stats t (new_stats restarted)).

(** What [select!] found: an event or the end of the channel, or the deadline. *)
Inductive arm :=
  | ArmEvent (e : event)
  | ArmClosed
  | ArmDeadline.

Inductive turn_result := KeepGoing | Break.

Definition is_image (e : event) : bool := match e with Image _ _ _ => true | _ => false end.

Definition is_pointer (e : event) : bool :=
  match e with
  | PointerDefault | PointerHidden | PointerPosition _ _ | PointerBitmap _ => true
  | _ => false
  end.

Definition handle_output_event (e : event) : act () :=
  match e with
  | Image _ _ _ =>
      previous ← gets pending_image;
      update (λ t, with_pending t (Some e));;
      update (λ t, with_stats t
        (record_received (pacing_stats t) (match previous with Some _ => true | None => false end)));;
      at_ ← now;
      update (λ t, with_schedule t (record_image (presentation_schedule t) at_))
  | ImageRegion _ _ _ _ =>
      flush_pending_image;;
      update (λ t, with_stats t (record_received (pacing_stats t) false));;
      update (λ t, with_stats t (record_presented (pacing_stats t)));;
      publish_output_event e
  | PointerDefault | PointerHidden | PointerPosition _ _ | PointerBitmap _ =>
      publish_output_event e
  | _ =>
      flush_pending_image;;
      publish_output_event e
  end.

(** [if due { m }] *)
Definition when (due : bool) (m : act ()) : act () := if due then m else mret ().

(** After the [select!]. *)
Definition end_of_turn : act () :=
  at_ ← now;
  due ← gets (λ t, is_due (presentation_schedule t) at_);
  when due flush_pending_image;;
  maybe_log false.

(** One pass of the loop of [map_output_events]. *)
Definition turn (a : arm) : act turn_result :=
  match a with
  | ArmEvent e => handle_output_event e;; end_of_turn;; mret KeepGoing
  | ArmClosed => flush_pending_image;; maybe_log true;; mret Break
  | ArmDeadline => flush_pending_image;; end_of_turn;; mret KeepGoing
  end.

(** [map_output_events] over the arms its [select!]s take: a list of arms ends with
    the task still running ([KeepGoing]), or with the task done. *)
Fixpoint turns (arms : list arm) : act turn_result :=
  match arms with
  | [] => mret KeepGoing
  | a :: rest =>
      r ← turn a;
      match r with Break => mret Break | KeepGoing => turns rest end
  end.

Definition started : task :=
  mk_task default_mapper None default_schedule (new_stats (clock 0)) 1 0 [].

Definition map_output_events (arms : list arm) : task * outcome string turn_result :=
  turns arms started.

(** ** What each call does when it succeeds *)

Abbreviation mapped P := (map_all connector_report reason_text session_report default_mapper P)
  (only parsing).

Lemma send_all_ok es t t' :
  send_all es t = (t', Ok ()) →
  published t' = published t ++ es ∧ output_mapper t' = output_mapper t ∧
  pending_image t' = pending_image t ∧ presentation_schedule t' = presentation_schedule t ∧
  ticks t' = ticks t.
Proof.
  revert t. induction es as [|e es IH]; intros t; simpl.
  - intros [= <-]. by rewrite app_nil_r.
  - rewrite comp_bind_ok. intros (t1 & [] & Hs & Hr). unfold send_helper_event in Hs.
    destruct (accepts (sends t)); [|discriminate Hs]. injection Hs as <-.
    destruct (IH _ Hr) as (H1 & H2 & H3 & H4 & H5). simpl in *. rewrite H1, <-app_assoc. done.
Qed.

(** The delivered events and the mapper after one more event. *)
Definition publishes (t t' : task) (e : event) : Prop :=
  output_mapper t' = (map_event (output_mapper t) e).1 ∧
  published t' = published t ++ (map_event (output_mapper t) e).2.

Lemma publish_ok e t t' :
  publish_output_event e t = (t', Ok ()) →
  publishes t t' e ∧ pending_image t' = pending_image t ∧
  presentation_schedule t' = presentation_schedule t ∧ ticks t' = S (S (ticks t)).
Proof.
  unfold publish_output_event, publishes. intros H.
  apply comp_bind_ok in H as (t1 & s0 & H1 & H). unfold now in H1. injection H1 as <- <-.
  apply comp_bind_ok in H as (t2 & m0 & H2 & H). unfold gets in H2. injection H2 as <- <-.
  simpl in H. destruct (map_event (output_mapper t) e) as [m' hes].
  apply comp_bind_ok in H as (t3 & u3 & H3 & H). injection H3 as <- <-.
  apply comp_bind_ok in H as (t4 & s4 & H4 & H). injection H4 as <- <-.
  apply comp_bind_ok in H as (t5 & u5 & H5 & H). injection H5 as <- <-.
  apply comp_bind_ok in H as (t6 & u6 & H6 & H). injection H6 as <- <-.
  destruct (send_all_ok _ _ _ H) as (-> & -> & -> & -> & ->). done.
Qed.

Lemma flush_ok t t' :
  flush_pending_image t = (t', Ok ()) →
  pending_image t' = None ∧ presentation_schedule t' = default_schedule ∧ ticks t ≤ ticks t' ∧
  match pending_image t with
  | None => output_mapper t' = output_mapper t ∧ published t' = published t
  | Some image => publishes t t' image
  end.
Proof.
  unfold flush_pending_image. intros H.
  apply comp_bind_ok in H as (t1 & u1 & H1 & H). injection H1 as <- <-.
  apply comp_bind_ok in H as (t2 & taken & H2 & H). injection H2 as <- <-.
  apply comp_bind_ok in H as (t3 & u3 & H3 & H). injection H3 as <- <-.
  simpl in H. destruct (pending_image t) as [image|].
  - apply comp_bind_ok in H as (t4 & u4 & H4 & H). injection H4 as <- <-.
    destruct (publish_ok _ _ _ H) as ((Hm & Hp) & -> & -> & ->). simpl in *.
    split_and!; try done. lia.
  - by injection H as <-.
Qed.

Lemma maybe_log_ok force t t' r :
  maybe_log force t = (t', r) →
  r = Ok () ∧ output_mapper t' = output_mapper t ∧ published t' = published t ∧
  pending_image t' = pending_image t ∧ presentation_schedule t' = presentation_schedule t ∧
  ticks t < ticks t'.
Proof.
  unfold maybe_log, now, gets, update, modify, mbind, comp_bind. simpl.
  case_match; intros [= <- <-]; simpl; split_and!; try done; lia.
Qed.

(** ** Order *)

Definition nonimages : list event → list event := filter (λ e, is_image e = false).
Definition nonpointers : list event → list event := filter (λ e, is_pointer e = false).

Definition pending_list (t : task) : list event :=
  match pending_image t with Some i => [i] | None => [] end.

(** [coalesced es P]: [P] is [es] without some images that the next one replaces. *)
Inductive coalesced : list event → list event → Prop :=
  | coalesced_nil : coalesced [] []
  | coalesced_keep es P e : coalesced es P → coalesced (es ++ [e]) (P ++ [e])
  | coalesced_replace es P i j :
      coalesced es (P ++ [i]) → is_image i = true → is_image j = true →
      coalesced (es ++ [j]) (P ++ [j]).

(** The events presented so far, [P], against those received. *)
Record presents (es P : list event) (t : task) : Prop := {
  pr_mapper : output_mapper t = (mapped P).1;
  pr_published : published t = (mapped P).2;
  pr_nonimages : nonimages P = nonimages es;
  pr_coalesced : coalesced (nonpointers es) (nonpointers P ++ pending_list t);
  pr_pending : ∀ i, pending_image t = Some i → is_image i = true;
}.

Lemma image_not_pointer e : is_image e = true → is_pointer e = false.
Proof. by destruct e. Qed.

Lemma nonimages_snoc P e :
  nonimages (P ++ [e]) = nonimages P ++ (if is_image e then [] else [e]).
Proof.
  unfold nonimages. rewrite filter_app. f_equal.
  destruct (is_image e) eqn:He.
  - rewrite filter_cons_False; [done|by rewrite He].
  - by rewrite filter_cons_True.
Qed.

Lemma nonpointers_snoc P e :
  nonpointers (P ++ [e]) = nonpointers P ++ (if is_pointer e then [] else [e]).
Proof.
  unfold nonpointers. rewrite filter_app. f_equal.
  destruct (is_pointer e) eqn:He.
  - rewrite filter_cons_False; [done|by rewrite He].
  - by rewrite filter_cons_True.
Qed.

Lemma publishes_mapped P t t' e :
  output_mapper t = (mapped P).1 → published t = (mapped P).2 → publishes t t' e →
  output_mapper t' = (mapped (P ++ [e])).1 ∧ published t' = (mapped (P ++ [e])).2.
Proof. intros Hm Hp [-> ->]. rewrite map_all_snoc, Hm, Hp. done. Qed.

(** A pointer event passes the pending image; with none pending any event is next. *)
Lemma presents_publish es P t t' e :
  presents es P t → publishes t t' e → pending_image t' = pending_image t →
  is_image e = false → is_pointer e = true ∨ pending_image t = None →
  presents (es ++ [e]) (P ++ [e]) t'.
Proof.
  intros [H1 H2 H3 H4 H5] Hpub Hpend Hi He.
  destruct (publishes_mapped P t t' e H1 H2 Hpub) as [Hm Hp].
  split; [done|done| | |by rewrite Hpend].
  - by rewrite !nonimages_snoc, Hi, H3.
  - unfold pending_list in *. rewrite !nonpointers_snoc, Hpend.
    destruct (is_pointer e); [by rewrite !app_nil_r|].
    destruct He as [|He]; [done|]. rewrite He in *. rewrite app_nil_r in *.
    by apply coalesced_keep.
Qed.

Lemma presents_flush es P t t' :
  presents es P t → flush_pending_image t = (t', Ok ()) →
  ∃ P', presents es P' t' ∧ pending_image t' = None.
Proof.
  intros [H1 H2 H3 H4 H5] (Hnone & _ & _ & Hf)%flush_ok. unfold pending_list in H4.
  destruct (pending_image t) as [i|].
  - destruct (publishes_mapped P t t' i H1 H2 Hf) as [Hm Hp].
    specialize (H5 i eq_refl). exists (P ++ [i]). split; [|done].
    split; [done|done| | |by rewrite Hnone].
    + by rewrite nonimages_snoc, H5, app_nil_r.
    + unfold pending_list. rewrite Hnone, nonpointers_snoc, image_not_pointer, app_nil_r by done.
      done.
  - exists P. destruct Hf as [Hm Hp]. split; [|done].
    split; [by rewrite Hm|by rewrite Hp|done| |by rewrite Hnone].
    unfold pending_list. by rewrite Hnone.
Qed.

(** The fields a [presents] speaks of are unchanged. *)
Lemma presents_unchanged es P t t' :
  presents es P t → output_mapper t' = output_mapper t → published t' = published t →
  pending_image t' = pending_image t → presents es P t'.
Proof.
  intros [H1 H2 H3 H4 H5] Hm Hp Hi.
  split; [by rewrite Hm|by rewrite Hp|done|unfold pending_list; by rewrite Hi|by rewrite Hi].
Qed.

Lemma handle_image_ok e t t' :
  is_image e = true → handle_output_event e t = (t', Ok ()) →
  output_mapper t' = output_mapper t ∧ published t' = published t ∧
  pending_image t' = Some e ∧ ticks t' = S (ticks t) ∧
  presentation_schedule t' = record_image (presentation_schedule t) (clock (ticks t)).
Proof. destruct e; try done. intros _ [= <-]. done. Qed.

Lemma handle_pointer e :
  is_pointer e = true → handle_output_event e = publish_output_event e.
Proof. by destruct e. Qed.

Lemma handle_other_ok e t t' :
  is_image e = false → is_pointer e = false → handle_output_event e t = (t', Ok ()) →
  ∃ t1 t2, flush_pending_image t = (t1, Ok ()) ∧
    output_mapper t2 = output_mapper t1 ∧ published t2 = published t1 ∧
    pending_image t2 = pending_image t1 ∧
    presentation_schedule t2 = presentation_schedule t1 ∧ ticks t2 = ticks t1 ∧
    publish_output_event e t2 = (t', Ok ()).
Proof.
  destruct e as [| | | |?|? ? ?|bgra w h region|?|?| | |? ?|?]; try discriminate; intros _ _ H;
    cbn [handle_output_event] in H; apply comp_bind_ok in H as (t1 & [] & Hf & H);
    try (by exists t1, t1).
  apply comp_bind_ok in H as (t2 & u2 & H2 & H). injection H2 as <- <-.
  apply comp_bind_ok in H as (t3 & u3 & H3 & H). injection H3 as <- <-.
  exists t1. eexists. split_and!; [done| | | | | |exact H]; done.
Qed.

Lemma presents_event es P t t' e :
  presents es P t → handle_output_event e t = (t', Ok ()) →
  ∃ P', presents (es ++ [e]) P' t'.
Proof.
  intros Hpr Hh. destruct (is_image e) eqn:Hi; [|destruct (is_pointer e) eqn:Hp].
  - destruct (handle_image_ok _ _ _ Hi Hh) as (Hm & Hpub & Hpend & _).
    destruct Hpr as [H1 H2 H3 H4 H5]. exists P.
    split; [by rewrite Hm|by rewrite Hpub| | |].
    + by rewrite nonimages_snoc, Hi, app_nil_r.
    + unfold pending_list in *. rewrite nonpointers_snoc, image_not_pointer, Hpend by done.
      destruct (pending_image t) as [i|].
      * eapply coalesced_replace; [done|by apply H5|done].
      * rewrite app_nil_r in H4. by apply coalesced_keep.
    + rewrite Hpend. by intros ? [= <-].
  - rewrite handle_pointer in Hh by done.
    destruct (publish_ok _ _ _ Hh) as (Hpub & Hpend & _).
    exists (P ++ [e]). eapply presents_publish; eauto.
  - destruct (handle_other_ok _ _ _ Hi Hp Hh) as (t1 & t2 & Hf & Hm & Hpub & Hpe & _ & _ & Hl).
    destruct (presents_flush _ _ _ _ Hpr Hf) as (P1 & Hpr1 & Hnone).
    destruct (publish_ok _ _ _ Hl) as (Hpub' & Hpend' & _).
    exists (P1 ++ [e]). eapply presents_publish; [|done|done|done|right; congruence].
    by eapply presents_unchanged.
Qed.

(** ** Whole runs *)

(** The events a run receives: those before the channel ends. *)
Fixpoint received_events (arms : list arm) : list event :=
  match arms with
  | [] => []
  | ArmEvent e :: rest => e :: received_events rest
  | ArmDeadline :: rest => received_events rest
  | ArmClosed :: _ => []
  end.

Lemma presents_end_of_turn es P t t' :
  presents es P t → end_of_turn t = (t', Ok ()) → ∃ P', presents es P' t'.
Proof.
  intros Hpr H. unfold end_of_turn in H.
  apply comp_bind_ok in H as (t1 & at_ & H1 & H). injection H1 as <- <-.
  apply comp_bind_ok in H as (t2 & due & H2 & H). injection H2 as <- <-.
  apply comp_bind_ok in H as (t3 & [] & H3 & H).
  destruct (maybe_log_ok _ _ _ _ H) as (_ & Hm & Hp & Hi & _).
  assert (∃ P', presents es P' t3) as [P' HP'].
  { unfold when in H3. destruct (is_due _ _); [|injection H3 as <-; exists P; by destruct Hpr].
    refine (match presents_flush es P _ _ _ H3 with ex_intro _ P' (conj HP _) => ex_intro _ P' HP end).
    by destruct Hpr. }
  exists P'. by eapply presents_unchanged.
Qed.

Lemma presents_turns arms es P t t' r :
  presents es P t → turns arms t = (t', Ok r) →
  ∃ P', presents (es ++ received_events arms) P' t' ∧ (r = Break → pending_image t' = None).
Proof.
  revert es P t. induction arms as [|a arms IH]; intros es P t Hpr H; simpl in *.
  - injection H as <- <-. exists P. by rewrite app_nil_r.
  - apply comp_bind_ok in H as (t1 & r1 & H1 & H). destruct a as [e| |]; cbn [turn] in H1;
      apply comp_bind_ok in H1 as (t2 & [] & H2 & H1);
      apply comp_bind_ok in H1 as (t3 & u3 & H3 & H1); injection H1 as <- <-; cbn [mret] in H.
    + destruct u3. destruct (presents_event _ _ _ _ _ Hpr H2) as (P2 & Hpr2).
      destruct (presents_end_of_turn _ _ _ _ Hpr2 H3) as (P3 & Hpr3).
      rewrite (cons_middle e es), app_assoc. by eapply IH.
    + injection H as <- <-. destruct (presents_flush _ _ _ _ Hpr H2) as (P2 & Hpr2 & Hn).
      destruct (maybe_log_ok _ _ _ _ H3) as (_ & Hm & Hp & Hi & _).
      exists P2. rewrite app_nil_r. split; [by eapply presents_unchanged|by rewrite Hi].
    + destruct u3. destruct (presents_flush _ _ _ _ Hpr H2) as (P2 & Hpr2 & _).
      destruct (presents_end_of_turn _ _ _ _ Hpr2 H3) as (P3 & Hpr3). by eapply IH.
Qed.

(** *** A refused delivery is the only failure *)

Definition never_fails {A} (m : act A) : Prop := ∀ t, ∃ a, (m t).2 = Ok a.

Lemma never_fails_bind {A B} (m : act A) (f : A → act B) :
  never_fails m → (∀ a, never_fails (f a)) → never_fails (m ≫= f).
Proof. intros Hm Hf t. rewrite comp_bind_run. destruct (Hm t) as [a ->]. apply Hf. Qed.

Ltac no_fail :=
  repeat first [assumption
               |match goal with |- never_fails (_ ≫= _) => apply never_fails_bind; [|intros ?] end
               |match goal with |- never_fails (match ?x with _ => _ end) => destruct x end
               |solve [intros ?; eexists; reflexivity]].

Lemma publish_never_fails e : (∀ n, accepts n = true) → never_fails (publish_output_event e).
Proof.
  intros Hacc.
  assert (∀ es, never_fails (send_all es)) as Hall.
  { intros es. induction es as [|h es IH]; simpl; [by intros t; exists ()|].
    apply never_fails_bind; [|by intros _]. intros t. exists (). simpl. by rewrite Hacc. }
  unfold publish_output_event.
  apply never_fails_bind; [no_fail|intros s]. apply never_fails_bind; [no_fail|intros m].
  destruct (map_event m e) as [m' hes]. no_fail. apply Hall.
Qed.

Lemma flush_never_fails : (∀ n, accepts n = true) → never_fails flush_pending_image.
Proof.
  intros Hacc. unfold flush_pending_image. no_fail.
  by apply publish_never_fails.
Qed.

Lemma maybe_log_never_fails force : never_fails (maybe_log force).
Proof. intros t. destruct (maybe_log force t) as [t' r] eqn:Hm.
  destruct (maybe_log_ok _ _ _ _ Hm) as [-> _]. by exists (). Qed.

Lemma turns_never_fails arms : (∀ n, accepts n = true) → never_fails (turns arms).
Proof.
  intros Hacc. pose proof (flush_never_fails Hacc) as Hf.
  pose proof (λ e, publish_never_fails e Hacc) as Hp.
  assert (never_fails end_of_turn) as He.
  { unfold end_of_turn. unfold when; no_fail; apply maybe_log_never_fails. }
  assert (∀ e, never_fails (handle_output_event e)) as Hh.
  { intros []; cbn [handle_output_event]; no_fail; apply Hp. }
  induction arms as [|a arms IH]; simpl; [by intros t; exists KeepGoing|].
  apply never_fails_bind; [|by intros []; [|intros t; exists Break]].
  destruct a; cbn [turn]; no_fail; try apply Hh; apply maybe_log_never_fails.
Qed.

(** C10: the output task presents what the session reports.  A run ends in an error
    only when a delivery is refused; otherwise what it delivered is the mapping of a
    sequence [P] of presented events: every event other than an image is in [P], in
    the order received; images keep their place among all events but pointer events,
    and one is dropped, or still held back at the end of the run, only if the next
    event but pointer events is an image again; when the session's channel ends
    nothing is held back. *)
Theorem paced_output_order arms :
  ((∀ n, accepts n = true) → ∃ r, (map_output_events arms).2 = Ok r) ∧
  ∀ t r, map_output_events arms = (t, Ok r) →
    ∃ P, published t = (mapped P).2 ∧
      nonimages P = nonimages (received_events arms) ∧
      coalesced (nonpointers (received_events arms)) (nonpointers P ++ pending_list t) ∧
      (r = Break → pending_list t = []).
Proof.
  split; [intros Hacc; by apply turns_never_fails|]. intros t r Hrun.
  destruct (presents_turns arms [] [] started t r) as (P & [H1 H2 H3 H4 H5] & Hb);
    [by split; try done; constructor|done|].
  exists P. split_and!; [done..|]. intros Hr. unfold pending_list. by rewrite Hb.
Qed.

(** ** Latency *)

(** The pending burst began with an image that arrived when nothing was pending: its
    arrival is the clock reading [first]. *)
Definition burst (arms : list arm) (first : nat) : Prop :=
  ∃ before img after t, arms = before ++ ArmEvent img :: after ∧ is_image img = true ∧
    map_output_events before = (t, Ok KeepGoing) ∧ pending_image t = None ∧ first = ticks t.

(** The schedule is that of the pending burst, from its first to its last image. *)
Definition armed (arms : list arm) (t : task) (check_ : nat → nat → Prop) : Prop :=
  match pending_image t with
  | None => presentation_schedule t = default_schedule
  | Some _ => ∃ first last, first ≤ last < ticks t ∧ burst arms first ∧
      presentation_schedule t =
        mk_schedule (Some (clock last + FRAME_SETTLE_INTERVAL)%N)
          (Some (clock first + MAX_FRAME_PRESENTATION_LATENCY)%N) ∧
      check_ first last
  end.

Definition not_due (t : task) (first last : nat) : Prop :=
  ∃ check_, last < check_ < ticks t ∧
    (clock check_ < clock last + FRAME_SETTLE_INTERVAL)%N ∧
    (clock check_ < clock first + MAX_FRAME_PRESENTATION_LATENCY)%N.

Lemma burst_app arms arms' first : burst arms first → burst (arms ++ arms') first.
Proof.
  intros (b & i & a & t & -> & ?). exists b, i, (a ++ arms'), t. by rewrite <-app_assoc.
Qed.

Lemma armed_none arms t c :
  pending_image t = None → presentation_schedule t = default_schedule → armed arms t c.
Proof. unfold armed. by intros ->. Qed.

(** Nothing but time passes. *)
Lemma armed_later arms arms' t t' (c c' : nat → nat → Prop) :
  armed arms t c → pending_image t' = pending_image t →
  presentation_schedule t' = presentation_schedule t → ticks t ≤ ticks t' →
  (∀ f l, l < ticks t → c f l → c' f l) → armed (arms ++ arms') t' c'.
Proof.
  unfold armed. intros Ha -> -> Ht Hc. destruct (pending_image t); [|done].
  destruct Ha as (f & l & Hfl & Hb & Hs & Hch). exists f, l.
  split_and!; [lia..|by apply burst_app|done|]. apply Hc; [lia|done].
Qed.

Lemma armed_flush arms t t' c :
  flush_pending_image t = (t', Ok ()) → armed arms t' c.
Proof. intros (? & ? & _)%flush_ok. by apply armed_none. Qed.

Lemma armed_event arms t t' e :
  map_output_events arms = (t, Ok KeepGoing) → armed arms t (not_due t) →
  handle_output_event e t = (t', Ok ()) →
  armed (arms ++ [ArmEvent e]) t' (λ _ _, True).
Proof.
  intros Hrun Ha Hh. destruct (is_image e) eqn:Hi; [|destruct (is_pointer e) eqn:Hp].
  - destruct (handle_image_ok _ _ _ Hi Hh) as (_ & _ & Hpe & Ht & Hs).
    unfold armed in *. rewrite Hpe, Hs. unfold record_image.
    destruct (pending_image t) as [i|] eqn:Hpend.
    + destruct Ha as (f & l & Hfl & Hb & -> & _). exists f, (ticks t). rewrite Ht. simpl.
      split_and!; [lia..|by apply burst_app|done|done].
    + rewrite Ha. exists (ticks t), (ticks t). rewrite Ht. simpl.
      split_and!; [lia..| |done|done]. by exists arms, e, [], t.
  - rewrite handle_pointer in Hh by done. destruct (publish_ok _ _ _ Hh) as (_ & ? & ? & Ht).
    eapply armed_later; [done|done|done|lia|done].
  - destruct (handle_other_ok _ _ _ Hi Hp Hh) as (t1 & t2 & Hf & _ & _ & Hpe & Hs & _ & Hl).
    destruct (flush_ok _ _ Hf) as (Hnone & Hsch & _).
    destruct (publish_ok _ _ _ Hl) as (_ & Hpe' & Hs' & _). apply armed_none; congruence.
Qed.

(** Whatever is still pending at the end of a turn was not due. *)
Lemma armed_end_of_turn arms t t' :
  armed arms t (λ _ _, True) → end_of_turn t = (t', Ok ()) → armed arms t' (not_due t').
Proof.
  intros Ha H. unfold end_of_turn in H.
  apply comp_bind_ok in H as (t1 & at_ & H1 & H). injection H1 as <- <-.
  apply comp_bind_ok in H as (t2 & due & H2 & H). injection H2 as <- <-.
  apply comp_bind_ok in H as (t3 & [] & H3 & H).
  destruct (maybe_log_ok _ _ _ _ H) as (_ & _ & _ & Hi & Hs & Ht).
  unfold when in H3. simpl in H3. destruct (is_due _ _) eqn:Hdue.
  - destruct (flush_ok _ _ H3) as (? & ? & _). apply armed_none; congruence.
  - injection H3 as <-. simpl in *. unfold armed in *. rewrite Hi, Hs.
    destruct (pending_image t); [|done].
    destruct Ha as (f & l & Hfl & Hb & Hsch & _). exists f, l.
    split_and!; [lia..|done|done|]. exists (ticks t).
    unfold is_due, deadline in Hdue. rewrite Hsch in Hdue. simpl in Hdue. bool_to_prop.
    split_and!; lia.
Qed.

Lemma turns_snoc arms a t t' r :
  turns (arms ++ [a]) t = (t', Ok r) →
  (turns arms t = (t', Ok Break) ∧ r = Break) ∨
  (∃ t1, turns arms t = (t1, Ok KeepGoing) ∧ turn a t1 = (t', Ok r)).
Proof.
  revert t. induction arms as [|b arms IH]; intros t; simpl.
  - rewrite comp_bind_ok. intros (t1 & r1 & H1 & H2). right. exists t. split; [done|].
    destruct r1; injection H2 as <- <-; done.
  - rewrite comp_bind_ok. intros (t1 & [] & H1 & H2).
    + destruct (IH t1 H2) as [[Ht ->]|(t2 & Ht & Htu)]; [left|right; exists t2];
        (split; [|done]); rewrite comp_bind_ok; by eexists t1, KeepGoing.
    + left. injection H2 as <- <-. split; [|done]. rewrite comp_bind_ok. by exists t1, Break.
Qed.

Lemma armed_turns arms t r :
  map_output_events arms = (t, Ok r) → armed arms t (not_due t).
Proof.
  unfold map_output_events. revert t r.
  induction arms as [|a arms IH] using rev_ind; intros t r H; [by injection H as <- <-|].
  destruct (turns_snoc _ _ _ _ _ H) as [[Ht ->]|(t1 & Ht & Htu)].
  { eapply armed_later; [by apply (IH t Break)|done|done|lia|done]. }
  pose proof (IH _ _ Ht) as Ha. destruct a as [e| |]; cbn [turn] in Htu;
    apply comp_bind_ok in Htu as (t2 & [] & H2 & Htu);
    apply comp_bind_ok in Htu as (t3 & u3 & H3 & Htu); injection Htu as <- <-.
  - destruct u3. eapply armed_end_of_turn; [|done]. by eapply armed_event.
  - destruct (maybe_log_ok _ _ _ _ H3) as (_ & _ & _ & Hi & Hs & _).
    destruct (flush_ok _ _ H2) as (? & ? & _). apply armed_none; congruence.
  - destruct u3. eapply armed_end_of_turn; [|done]. by eapply armed_flush.
Qed.

(** No image is held back past its deadline.  If an image is pending after some
    turns, the burst it belongs to began with an image that arrived, at reading
    [first], when nothing was pending; and a later reading, in the last turn, was
    still less than 4 ms after the burst's last image and less than 16 ms after its
    first.  If none is pending, no deadline is set. *)
Theorem presentation_latency arms t r :
  map_output_events arms = (t, Ok r) →
  match pending_image t with
  | None => deadline (presentation_schedule t) = None
  | Some _ => ∃ first last check_, first ≤ last < check_ ∧ check_ < ticks t ∧
      burst arms first ∧
      (clock check_ < clock last + 4000000)%N ∧ (clock check_ < clock first + 16000000)%N ∧
      deadline (presentation_schedule t) =
        Some (N.min (clock last + 4000000) (clock first + 16000000))
  end.
Proof.
  intros Ha%armed_turns. unfold armed in Ha. destruct (pending_image t).
  - destruct Ha as (f & l & Hfl & Hb & Hs & c & Hc & H1 & H2). exists f, l, c. rewrite Hs.
    split_and!; [lia..|done|done|done|done].
  - by rewrite Ha.
Qed.
End task.

(** ** Witnesses *)

Definition demo_event : Type := @RdpOutputEvent () () () ().

Definition demo_arms : list (@arm () () () ()) :=
  [ArmEvent (Image [65536%N] 1 1); ArmEvent (PointerPosition 4 5);
   ArmEvent (Image [131072%N] 1 1)].

(** A reading every 10 microseconds. *)
Definition demo_clock (n : nat) : N := (N.of_nat n * 10000)%N.

Definition demo_report (_ : ()) : string := "".

Abbreviation demo_run arms :=
  (map_output_events demo_report demo_report demo_report demo_clock (λ _, true) arms)
  (only parsing).

(** [pointer_event_does_not_split_an_image_burst] of the source's tests. *)
Lemma paced_output_order_witness :
  ∃ t (P : list demo_event), demo_run (demo_arms ++ [ArmClosed]) = (t, Ok Break) ∧
    published t = [Connected 1 1; CursorPosition 4 5; FrameBgraBytes 1 1 [0; 0; 2; 255]%N] ∧
    published t = (map_all demo_report demo_report demo_report default_mapper P).2 ∧
    nonimages P = [PointerPosition 4 5].
Proof.
  assert (∃ t, demo_run (demo_arms ++ [ArmClosed]) = (t, Ok Break) ∧
    published t = [Connected 1 1; CursorPosition 4 5; FrameBgraBytes 1 1 [0; 0; 2; 255]%N])
    as (t & Hrun & Hpub) by (eexists; split; [vm_compute; reflexivity|reflexivity]).
  destruct (paced_output_order demo_report demo_report demo_report demo_clock (λ _, true)
    (demo_arms ++ [ArmClosed])) as [_ Hall].
  destruct (Hall t Break Hrun) as (P & HP & Hni & _).
  exists t, P. refine (conj Hrun (conj Hpub (conj HP _))).
  rewrite Hni. reflexivity.
Defined.

Lemma presentation_latency_witness :
  ∃ t, demo_run demo_arms = (t, Ok KeepGoing) ∧
    ∃ f l c, f ≤ l < c ∧ (demo_clock c < demo_clock f + 16000000)%N ∧
      deadline (presentation_schedule t) =
        Some (N.min (demo_clock l + 4000000) (demo_clock f + 16000000)).
Proof.
  assert (∃ t, demo_run demo_arms = (t, Ok KeepGoing) ∧
    pending_image t = Some (Image [131072%N] 1 1))
    as (t & Hrun & Hpend) by (eexists; split; [vm_compute; reflexivity|reflexivity]).
  exists t. split; [exact Hrun|].
  pose proof (presentation_latency demo_report demo_report demo_report demo_clock (λ _, true)
    demo_arms t KeepGoing Hrun) as Hlat. rewrite Hpend in Hlat.
  destruct Hlat as (f & l & c & Hflc & _ & _ & _ & Hc & Hd).
  exists f, l, c. refine (conj Hflc (conj Hc Hd)).
Defined.
