(* ===== verification/RdpInput.v ===== *)
(** * Input to the RDP session

    rdp-helper/src/rdp/input_sender.rs, rdp/input.rs and the request loop of main.rs.
    The session's bounded input queue is an oracle for the outcome of each
    reservation; the RDP library's input database (which keys, buttons and position
    it has told the server) is a type with its two operations; the clipboard is an
    interface ([ClipboardPort]), implemented in ClipBackend.v. *)

From S2P Require Import Prelude RdpProtocol.

(** ** What the session receives *)

Record MousePosition := mk_position { mp_x : N; mp_y : N }.

Inductive Scancode := from_u8 (extended : bool) (code : N).

Inductive MouseButton := MbLeft | MbMiddle | MbRight | MbX1 | MbX2.

Record WheelRotations := mk_wheel { is_vertical : bool; rotation_units : Z }.

Inductive Operation :=
  | MouseMove (position : MousePosition)
  | MouseButtonPressed (button : MouseButton)
  | MouseButtonReleased (button : MouseButton)
  | WheelRotation (rotations : WheelRotations)
  | KeyPressed (scancode : Scancode)
  | KeyReleased (scancode : Scancode)
  | UnicodeKeyPressed (character : N)
  | UnicodeKeyReleased (character : N).

#[export] Instance MousePosition_eq_dec : EqDecision MousePosition.
Proof. solve_decision. Defined.

(** The RDP library's [Database]. *)
Class InputDatabase (DB FP : Type) := {
  apply_operations : DB → list Operation → DB * list FP;
  release_all : DB → DB * list FP;
}.

(** What input handling calls of the clipboard. *)
Class ClipboardPort (K : Type) := {
  set_local_text : text → K → K * outcome string ();
  set_local_files : N → list text → K → K * outcome string ();
  cancel_transfer : N → K → K;
  report_transfer_failure : N → string → K → K;
  clipboard_shutdown : K → K;
}.

Inductive RdpInputEvent (FP : Type) :=
  | FastPath (events : list FP)
  | ResizeTo (width height scale_factor : N).
Arguments FastPath {FP} events.
Arguments ResizeTo {FP} width height scale_factor.

(** [sender.try_reserve()]. *)
Inductive Reservation := Permit | QueueFull | QueueClosed.

Inductive InputQueueStatus := Sent | Full.

Inductive RdpInputAction := Continue | Close.

(** An error, or a retry loop that is still running when its fuel is used up. *)
Inductive InputError := Failed (message : string) | StillWaiting.

Section input.
Context `{InputDatabase DB FP} `{ClipboardPort K}.
Context (reserve : nat → Reservation).

(** What the input thread can see and change: the reservations tried, what was put
    into the queue, and how often a graceful close was requested. *)
Record Context_ := mk_context {
  database : DB;
  pending_mouse_position : option MousePosition;
  clipboard : K;
  reservations : nat;
  queue : list (RdpInputEvent FP);
  close_requests : nat;
}.

Abbreviation act A := (comp Context_ InputError A) (only parsing).

Definition with_database (c : Context_) (d : DB) : Context_ :=
  mk_context d (pending_mouse_position c) (clipboard c) (reservations c) (queue c)
    (close_requests c).
Definition with_pending (c : Context_) (p : option MousePosition) : Context_ :=
  mk_context (database c) p (clipboard c) (reservations c) (queue c) (close_requests c).
Definition with_clipboard (c : Context_) (k : K) : Context_ :=
  mk_context (database c) (pending_mouse_position c) k (reservations c) (queue c)
    (close_requests c).

(** ** input_sender.rs *)

(** [build_event] may change the database, and runs only with a permit in hand. *)
Definition try_send_with (build_event : DB → DB * option (RdpInputEvent FP))
    : act InputQueueStatus := λ c,
  let c' := mk_context (database c) (pending_mouse_position c) (clipboard c)
              (S (reservations c)) (queue c) (close_requests c) in
  match reserve (reservations c) with
  | Permit =>
      let '(d, event) := build_event (database c) in
      (mk_context d (pending_mouse_position c) (clipboard c) (S (reservations c))
         (match event with Some e => queue c ++ [e] | None => queue c end) (close_requests c),
       Ok Sent)
  | QueueFull => (c', Ok Full)
  | QueueClosed => (c', Err (Failed "RDP input channel closed"))
  end.

Definition try_send (event : RdpInputEvent FP) : act InputQueueStatus :=
  try_send_with (λ d, (d, Some event)).

Definition request_graceful_close : act () := λ c,
  (mk_context (database c) (pending_mouse_position c) (clipboard c) (reservations c)
     (queue c) (S (close_requests c)), Ok ()).

(** ** input.rs *)

Definition fast_path_event (events : list FP) : option (RdpInputEvent FP) :=
  match events with [] => None | _ => Some (FastPath events) end.

Definition try_send_operations (operations : list Operation) : act InputQueueStatus :=
  try_send_with (λ d,
    let '(d, events) := apply_operations d operations in (d, fast_path_event events)).

(** The loop sleeps a millisecond between tries; [fuel] bounds the tries. *)
Fixpoint send_reliably (fuel : nat) (try : act InputQueueStatus) : act () :=
  match fuel with
  | 0 => throw StillWaiting
  | S fuel' =>
      status ← try;
      match status with
      | Sent => mret ()
      | Full => send_reliably fuel' try
      end
  end.

Context (fuel : nat).

Definition send_resize (width height scale_factor : N) : act () :=
  send_reliably fuel (try_send (ResizeTo width height scale_factor)).

Definition send_mouse_move (position : MousePosition) : act () :=
  modify (λ c, with_pending c (Some position));;
  status ← try_send_operations [MouseMove position];
  match status with
  | Sent => modify (λ c, with_pending c None)
  | Full => mret ()
  end.

Definition send_operations (operations : list Operation) : act () :=
  send_reliably fuel (try_send_operations operations).

Definition send_pointer_operation (operation : Operation) : act () :=
  pending ← gets pending_mouse_position;
  match pending with
  | Some position =>
      send_reliably fuel (try_send_operations [MouseMove position; operation]);;
      modify (λ c, with_pending c None)
  | None => send_operations [operation]
  end.

Fixpoint send_text (t : text) : act () :=
  match t with
  | [] => mret ()
  | character :: rest =>
      send_operations [UnicodeKeyPressed character; UnicodeKeyReleased character];;
      send_text rest
  end.

Definition mouse_button_operation (button : HelperMouseButton) (pressed : bool) : Operation :=
  let button :=
    match button with
    | BtnLeft => MbLeft | BtnMiddle => MbMiddle | BtnRight => MbRight
    | BtnX1 => MbX1 | BtnX2 => MbX2
    end in
  if pressed then MouseButtonPressed button else MouseButtonReleased button.

Definition key_operation (code : N) (extended pressed : bool) : outcome InputError Operation :=
  if (code <=? u8_max)%N
  then
    let scancode := from_u8 extended code in
    Ok (if pressed then KeyPressed scancode else KeyReleased scancode)
  else Err (Failed "RDP scancode must fit in u8").

(** A call into the clipboard. *)
Definition on_clipboard (f : K → K * outcome string ()) : act () := λ c,
  (with_clipboard c (f (clipboard c)).1, map_err Failed (f (clipboard c)).2).

Definition set_local_files_or_report (transfer_id : N) (paths : list text) : act () :=
  result ← attempt (on_clipboard (set_local_files transfer_id paths));
  match result with
  | inr _ => mret ()
  | inl _ =>
      modify (λ c, with_clipboard c
        (report_transfer_failure transfer_id "local clipboard transfer was rejected" (clipboard c)))
  end.

Definition apply_input_request (request : HelperRequest) : act RdpInputAction :=
  match request with
  | RqResize width height scale_factor =>
      modify (λ c, with_pending c None);;
      send_resize width height scale_factor;;
      mret Continue
  | RqMouseMove x y => send_mouse_move (mk_position x y);; mret Continue
  | RqMouseButton button pressed =>
      send_pointer_operation (mouse_button_operation button pressed);; mret Continue
  | RqWheel vertical units =>
      send_pointer_operation (WheelRotation (mk_wheel vertical units));; mret Continue
  | RqKey code extended pressed =>
      operation ← lift_outcome (key_operation code extended pressed);
      send_operations [operation];;
      mret Continue
  | RqText t => send_text t;; mret Continue
  | RqClipboardText t => on_clipboard (set_local_text t);; mret Continue
  | RqClipboardFiles transfer_id paths =>
      set_local_files_or_report transfer_id paths;; mret Continue
  | RqCancelClipboardTransfer transfer_id =>
      modify (λ c, with_clipboard c (cancel_transfer transfer_id (clipboard c)));;
      mret Continue
  | RqClose => mret Close
  | RqConnect _ _ _ _ _ _ _ _ _ _ =>
      throw (Failed "Connect request is only valid as the first message")
  end.

(** The result is that of the releases: a graceful close cannot fail. *)
Definition shutdown_inputs : act () :=
  released ← attempt (try_send_with (λ d,
    let '(d, events) := release_all d in (d, fast_path_event events)));
  closed ← attempt request_graceful_close;
  match released, closed with
  | inl error, _ => throw error
  | inr _, inl error => throw error
  | inr _, inr _ => mret ()
  end.

(** ** main.rs and rdp.rs *)

(** [process_input_requests]: a line is read and decoded, or it fails. *)
Fixpoint process_input_requests (lines : list (outcome string HelperRequest)) : act () :=
  match lines with
  | [] => mret ()
  | line :: rest =>
      request ← lift_outcome (map_err Failed line);
      action ← apply_input_request request;
      match action with
      | Close => mret ()
      | Continue => process_input_requests rest
      end
  end.

(** [RdpRuntime::shutdown]: a failure to release the inputs is only logged; dropping
    the sender and the clipboard lets the client thread, whose result is [joined],
    end. *)
Definition runtime_shutdown (joined : outcome string ()) : act () :=
  released ← attempt shutdown_inputs;
  match (released : InputError + ()) with _ => mret () end;;
  modify (λ c, with_clipboard c (clipboard_shutdown (clipboard c)));;
  lift_outcome (map_err Failed joined).

(** ** What reaches the session *)

(** One acquired permit: the operations given to the database, or a resize. *)
Inductive batch :=
  | Ops (operations : list Operation)
  | Resized (width height scale_factor : N).

Definition replay_batch (d : DB) (b : batch) : DB * list (RdpInputEvent FP) :=
  match b with
  | Ops operations =>
      let '(d, events) := apply_operations d operations in
      (d, match fast_path_event events with Some e => [e] | None => [] end)
  | Resized w h s => (d, [ResizeTo w h s])
  end.

Fixpoint replay (d : DB) (bs : list batch) : DB * list (RdpInputEvent FP) :=
  match bs with
  | [] => (d, [])
  | b :: rest =>
      let '(d, events) := replay_batch d b in
      let '(d, more) := replay d rest in (d, events ++ more)
  end.

Lemma replay_app d bs1 bs2 :
  replay d (bs1 ++ bs2) =
    ((replay (replay d bs1).1 bs2).1, (replay d bs1).2 ++ (replay (replay d bs1).1 bs2).2).
Proof.
  revert d. induction bs1 as [|b bs1 IH]; intros d; simpl; [by destruct (replay d bs2)|].
  destruct (replay_batch d b) as [d1 e1]. rewrite IH. destruct (replay d1 bs1) as [d2 e2].
  simpl. by rewrite app_assoc.
Qed.

(** From [c] to [c'], [bs] went through the database into the queue. *)
Definition adds (c c' : Context_) (bs : list batch) : Prop :=
  database c' = (replay (database c) bs).1 ∧ queue c' = queue c ++ (replay (database c) bs).2.

Lemma adds_nil c c' : database c' = database c → queue c' = queue c → adds c c' [].
Proof. intros Hd Hq. split; simpl; [done|]. by rewrite app_nil_r. Qed.

Lemma adds_app c c1 c2 bs1 bs2 : adds c c1 bs1 → adds c1 c2 bs2 → adds c c2 (bs1 ++ bs2).
Proof.
  intros [Hd1 Hq1] [Hd2 Hq2]. unfold adds. rewrite replay_app. simpl.
  rewrite Hd2, Hq2, Hq1, Hd1, app_assoc. done.
Qed.

(** ** Where the pointer is when an operation is applied *)

Inductive item :=
  | AtPosition (operation : Operation) (position : option MousePosition)
  | Plain (operation : Operation)
  | ResizeItem (width height scale_factor : N).

Definition operation_items (pos : option MousePosition) (op : Operation)
    : option MousePosition * list item :=
  match op with
  | MouseMove p => (Some p, [])
  | MouseButtonPressed _ | MouseButtonReleased _ | WheelRotation _ => (pos, [AtPosition op pos])
  | _ => (pos, [Plain op])
  end.

Fixpoint operations_items (pos : option MousePosition) (ops : list Operation)
    : option MousePosition * list item :=
  match ops with
  | [] => (pos, [])
  | op :: rest =>
      let '(pos, is1) := operation_items pos op in
      let '(pos, is2) := operations_items pos rest in (pos, is1 ++ is2)
  end.

(** A resize forgets the position: it belongs to the previous desktop size. *)
Fixpoint batches_items (pos : option MousePosition) (bs : list batch)
    : option MousePosition * list item :=
  match bs with
  | [] => (pos, [])
  | b :: rest =>
      let '(pos, is1) :=
        match b with
        | Ops ops => operations_items pos ops
        | Resized w h s => (None, [ResizeItem w h s])
        end in
      let '(pos, is2) := batches_items pos rest in (pos, is1 ++ is2)
  end.

(** What the host asked for: its operations, each with the position it last asked
    for since the last resize. *)
Definition request_items (pos : option MousePosition) (request : HelperRequest)
    : option MousePosition * list item :=
  match request with
  | RqResize w h s => (None, [ResizeItem w h s])
  | RqMouseMove x y => (Some (mk_position x y), [])
  | RqMouseButton button pressed =>
      (pos, [AtPosition (mouse_button_operation button pressed) pos])
  | RqWheel vertical units => (pos, [AtPosition (WheelRotation (mk_wheel vertical units)) pos])
  | RqKey code extended pressed =>
      (pos, [Plain (if pressed then KeyPressed (from_u8 extended code)
                    else KeyReleased (from_u8 extended code))])
  | RqText t => (pos, t ≫= λ c, [Plain (UnicodeKeyPressed c); Plain (UnicodeKeyReleased c)])
  | _ => (pos, [])
  end.

Fixpoint requests_items (pos : option MousePosition) (requests : list HelperRequest)
    : option MousePosition * list item :=
  match requests with
  | [] => (pos, [])
  | r :: rest =>
      let '(pos, is1) := request_items pos r in
      let '(pos, is2) := requests_items pos rest in (pos, is1 ++ is2)
  end.

(** The requests before the first [Close]. *)
Fixpoint handled (lines : list (outcome string HelperRequest)) : list HelperRequest :=
  match lines with
  | Ok RqClose :: _ => []
  | Ok r :: rest => r :: handled rest
  | _ => []
  end.

(** The two positions agree, up to a move that waits. *)
Definition in_step (c : Context_) (sent_pos asked_pos : option MousePosition) : Prop :=
  match pending_mouse_position c with
  | Some p => asked_pos = Some p
  | None => sent_pos = asked_pos
  end.

(** From [c] to [c'] the session got batches standing for [items]. *)
Definition delivers (c c' : Context_) (sent_pos asked_pos' : option MousePosition)
    (items : list item) : Prop :=
  ∃ bs sent_pos', adds c c' bs ∧ batches_items sent_pos bs = (sent_pos', items) ∧
    in_step c' sent_pos' asked_pos'.

(** What a [try] whose permit stands for batch [b] does. *)
Definition try_sends (try : act InputQueueStatus) (b : batch) : Prop :=
  ∀ c c' s, try c = (c', Ok s) →
    pending_mouse_position c' = pending_mouse_position c ∧
    adds c c' (match s with Sent => [b] | Full => [] end).

Lemma try_send_operations_sends ops : try_sends (try_send_operations ops) (Ops ops).
Proof.
  intros c c' s. unfold try_send_operations, try_send_with.
  destruct (reserve _); [|intros [= <- <-]; split; [done|by apply adds_nil]|done].
  destruct (apply_operations (database c) ops) as [d events] eqn:Hd.
  intros [= <- <-]. split; [done|]. unfold adds. simpl. rewrite Hd. simpl. split; [done|].
  destruct (fast_path_event events); by rewrite ?app_nil_r.
Qed.

Lemma try_send_resize_sends w h s : try_sends (try_send (ResizeTo w h s)) (Resized w h s).
Proof.
  intros c c' r. unfold try_send, try_send_with.
  destruct (reserve _); [intros [= <- <-]|intros [= <- <-]; split; [done|by apply adds_nil]|done].
  by split.
Qed.

Lemma send_reliably_sends n try b c c' :
  try_sends try b → send_reliably n try c = (c', Ok ()) →
  pending_mouse_position c' = pending_mouse_position c ∧ adds c c' [b].
Proof.
  intros Ht. revert c. induction n as [|n IH]; intros c; simpl; [done|].
  rewrite comp_bind_ok. intros (c1 & s & H1 & H2). destruct (Ht _ _ _ H1) as [Hp Ha].
  destruct s.
  - by injection H2 as <-.
  - destruct (IH _ H2) as [Hp2 Ha2]. split; [congruence|]. exact (adds_app _ _ _ [] _ Ha Ha2).
Qed.

Lemma in_step_none c p : pending_mouse_position c = None → in_step c p p.
Proof. unfold in_step. by intros ->. Qed.

(** A batch that leaves the pointer alone, sent with the pending move untouched. *)
Lemma send_operations_delivers ops c c' sp ap items :
  in_step c sp ap → (∀ p, operations_items p ops = (p, items)) →
  send_operations ops c = (c', Ok ()) → delivers c c' sp ap items.
Proof.
  intros Hin Hops Hs.
  destruct (send_reliably_sends _ _ _ _ _ (try_send_operations_sends ops) Hs) as [Hp Ha].
  exists [Ops ops], sp. split; [done|]. simpl. rewrite Hops, app_nil_r. split; [done|].
  unfold in_step. by rewrite Hp.
Qed.

Definition is_pointer_operation (op : Operation) : bool :=
  match op with
  | MouseButtonPressed _ | MouseButtonReleased _ | WheelRotation _ => true
  | _ => false
  end.

Lemma send_pointer_delivers op c c' sp ap :
  in_step c sp ap → is_pointer_operation op = true →
  send_pointer_operation op c = (c', Ok ()) →
  delivers c c' sp ap [AtPosition op ap].
Proof.
  unfold send_pointer_operation. intros Hin Hop Hs.
  assert (∀ p, operation_items p op = (p, [AtPosition op p])) as Hitems by (by destruct op).
  apply comp_bind_ok in Hs as (c1 & pending & H1 & Hs). injection H1 as <- <-.
  unfold in_step in Hin. destruct (pending_mouse_position c) as [p|] eqn:Hpend.
  - apply comp_bind_ok in Hs as (c2 & [] & H2 & Hs). injection Hs as <-.
    destruct (send_reliably_sends _ _ _ _ _ (try_send_operations_sends _) H2) as [Hp Ha].
    exists [Ops [MouseMove p; op]], (Some p). split; [exact Ha|]. simpl. rewrite Hitems. simpl.
    rewrite Hin. by split.
  - subst sp. destruct (send_reliably_sends _ _ _ _ _ (try_send_operations_sends _) Hs) as [Hp Ha].
    exists [Ops [op]], ap. split; [exact Ha|]. simpl. rewrite Hitems. simpl.
    split; [done|]. apply in_step_none. congruence.
Qed.

Lemma delivers_nil c c' sp ap :
  in_step c sp ap → database c' = database c → queue c' = queue c →
  pending_mouse_position c' = pending_mouse_position c → delivers c c' sp ap [].
Proof.
  intros Hin Hd Hq Hp. exists [], sp. split; [by apply adds_nil|]. split; [done|].
  unfold in_step. by rewrite Hp.
Qed.

Lemma batches_items_app sp bs1 bs2 :
  batches_items sp (bs1 ++ bs2) =
    ((batches_items (batches_items sp bs1).1 bs2).1,
     (batches_items sp bs1).2 ++ (batches_items (batches_items sp bs1).1 bs2).2).
Proof.
  revert sp. induction bs1 as [|b bs1 IH]; intros sp; simpl; [by destruct (batches_items sp bs2)|].
  destruct b as [ops|w h s]; [destruct (operations_items sp ops) as [p1 i1]|];
    rewrite IH; destruct (batches_items _ bs1) as [p2 i2]; simpl; by rewrite ?app_assoc.
Qed.

Lemma delivers_trans c c1 c2 sp ap1 ap2 is1 is2 :
  delivers c c1 sp ap1 is1 →
  (∀ sp1, in_step c1 sp1 ap1 → delivers c1 c2 sp1 ap2 is2) →
  delivers c c2 sp ap2 (is1 ++ is2).
Proof.
  intros (bs1 & sp1 & Ha1 & Hi1 & Hin1) H2. destruct (H2 _ Hin1) as (bs2 & sp2 & Ha2 & Hi2 & Hin2).
  exists (bs1 ++ bs2), sp2. split; [by eapply adds_app|].
  by rewrite batches_items_app, Hi1; simpl; rewrite Hi2.
Qed.

Lemma send_text_delivers t c c' sp ap :
  in_step c sp ap → send_text t c = (c', Ok ()) →
  delivers c c' sp ap (t ≫= λ c, [Plain (UnicodeKeyPressed c); Plain (UnicodeKeyReleased c)]).
Proof.
  revert c sp. induction t as [|ch t IH]; intros c sp Hin; simpl.
  - intros [= <-]. by apply delivers_nil.
  - rewrite comp_bind_ok. intros (c1 & [] & H1 & H2).
    apply (delivers_trans c c1 c' sp ap ap [Plain (UnicodeKeyPressed ch); Plain (UnicodeKeyReleased ch)]).
    + eapply send_operations_delivers; [exact Hin| |exact H1]. done.
    + intros sp1 Hin1. by eapply IH.
Qed.

Lemma send_mouse_move_delivers p c c' sp :
  send_mouse_move p c = (c', Ok ()) → delivers c c' sp (Some p) [].
Proof.
  unfold send_mouse_move. intros Hs.
  apply comp_bind_ok in Hs as (c1 & u & H1 & Hs). injection H1 as <- <-.
  apply comp_bind_ok in Hs as (c2 & s & H2 & Hs).
  destruct (try_send_operations_sends _ _ _ _ H2) as [Hp Ha]. destruct s.
  - injection Hs as <-. exists [Ops [MouseMove p]], (Some p). split; [exact Ha|]. by split.
  - injection Hs as <-. exists [], sp. split; [exact Ha|]. split; [done|].
    unfold in_step. by rewrite Hp.
Qed.

Lemma set_local_files_frame id paths c c' :
  set_local_files_or_report id paths c = (c', Ok ()) →
  database c' = database c ∧ queue c' = queue c ∧
  pending_mouse_position c' = pending_mouse_position c.
Proof.
  unfold set_local_files_or_report. rewrite comp_bind_ok. intros (c1 & r & H1 & H2).
  unfold attempt, on_clipboard in H1.
  destruct ((set_local_files id paths (clipboard c)).2); simplify_eq/=; try done;
    injection H2 as <-; done.
Qed.

Lemma apply_request_delivers r c c' sp ap a :
  in_step c sp ap → apply_input_request r c = (c', Ok a) →
  delivers c c' sp (request_items ap r).1 (request_items ap r).2 ∧
  (a = Close ↔ r = RqClose).
Proof.
  intros Hin Hr. destruct r as [| | | | |code extended pressed|t| | | |]; cbn [apply_input_request] in Hr;
    try (apply comp_bind_ok in Hr as (c1 & u1 & H1 & Hr)); try (match type of u1 with unit => destruct u1 end).
  - done.
  - apply comp_bind_ok in Hr as (c2 & [] & H2 & Hr). injection Hr as <- <-. split; [|done].
    injection H1 as <-.
    destruct (send_reliably_sends _ _ _ _ _ (try_send_resize_sends _ _ _) H2) as [Hp Ha].
    exists [Resized width height scale_factor], None. split; [exact Ha|].
    split; [done|]. by apply in_step_none.
  - injection Hr as <- <-. split; [|done]. by apply send_mouse_move_delivers.
  - injection Hr as <- <-. split; [|done]. apply send_pointer_delivers; try done. by destruct pressed.
  - injection Hr as <- <-. split; [|done]. by apply send_pointer_delivers.
  - apply comp_bind_ok in Hr as (c2 & [] & H2 & Hr). injection Hr as <- <-. split; [|done].
    unfold lift_outcome, key_operation in H1. destruct (code <=? u8_max)%N; [|discriminate H1].
    injection H1 as <- <-. eapply send_operations_delivers; [done| |done].
    intros p. by destruct pressed.
  - injection Hr as <- <-. split; [|done]. by apply send_text_delivers.
  - injection Hr as <- <-. split; [|done]. unfold on_clipboard in H1. injection H1 as <- _.
    by apply delivers_nil.
  - injection Hr as <- <-. split; [|done].
    destruct (set_local_files_frame _ _ _ _ H1) as (? & ? & ?). by apply delivers_nil.
  - injection H1 as <-. injection Hr as <- <-. split; [|done]. by apply delivers_nil.
  - injection Hr as <- <-. split; [|done]. by apply delivers_nil.
Qed.

Lemma process_delivers lines c c' sp ap :
  in_step c sp ap → process_input_requests lines c = (c', Ok ()) →
  delivers c c' sp (requests_items ap (handled lines)).1 (requests_items ap (handled lines)).2.
Proof.
  revert c sp ap. induction lines as [|line lines IH]; intros c sp ap Hin Hp; simpl in Hp.
  - injection Hp as <-. by apply delivers_nil.
  - apply comp_bind_ok in Hp as (c1 & r & H1 & Hp). destruct line as [r'| |]; try discriminate H1.
    injection H1 as <- <-. apply comp_bind_ok in Hp as (c2 & a & H2 & Hp).
    destruct (apply_request_delivers _ _ _ sp ap _ Hin H2) as [Hdel Ha].
    destruct a.
    + assert (handled (Ok r' :: lines) = r' :: handled lines) as ->.
      { by destruct r'. }
      simpl. destruct (request_items ap r') as [ap1 is1]. simpl in *.
      destruct (requests_items ap1 (handled lines)) as [ap2 is2] eqn:Hr.
      apply (delivers_trans _ _ _ _ _ _ _ _ Hdel). intros sp1 Hin1.
      specialize (IH c2 sp1 ap1 Hin1 Hp). by rewrite Hr in IH.
    + rewrite (proj1 Ha eq_refl) in *. simpl in *. by injection Hp as <-.
Qed.

(** ** Waiting ends when the queue drains *)

(** Among [fuel] reservations in a row one is not refused for want of room. *)
Definition drains : Prop := ∀ n, ∃ k, k < fuel ∧ reserve (n + k) ≠ QueueFull.

Definition finishes {A} (m : act A) : Prop := ∀ c, (m c).2 ≠ Err StillWaiting.

Lemma finishes_bind {A B} (m : act A) (f : A → act B) :
  finishes m → (∀ a, finishes (f a)) → finishes (m ≫= f).
Proof.
  intros Hm Hf c. rewrite comp_bind_run. specialize (Hm c).
  destruct (m c) as [c1 [a|e|]]; simpl in *; [apply Hf|congruence|done].
Qed.

Lemma send_reliably_finishes n k build c :
  k < n → reserve (reservations c + k) ≠ QueueFull →
  (send_reliably n (try_send_with build) c).2 ≠ Err StillWaiting.
Proof.
  revert k c. induction n as [|n IH]; intros k c Hk Hres; [lia|]. simpl.
  rewrite comp_bind_run. unfold try_send_with at 1 2 3.
  destruct (reserve (reservations c)) eqn:Hr; simpl; [|destruct k as [|k]|done].
  - by destruct (build (database c)).
  - by rewrite Nat.add_0_r in Hres.
  - apply (IH k); simpl; [lia|]. by rewrite <-Nat.add_succ_r.
Qed.

Lemma send_operations_finishes ops : drains → finishes (send_operations ops).
Proof.
  intros Hd c. destruct (Hd (reservations c)) as (k & Hk & Hr).
  by apply (send_reliably_finishes _ k).
Qed.

Lemma send_resize_finishes w h s : drains → finishes (send_resize w h s).
Proof.
  intros Hd c. destruct (Hd (reservations c)) as (k & Hk & Hr).
  by apply (send_reliably_finishes _ k).
Qed.

Lemma try_send_with_finishes build : finishes (try_send_with build).
Proof.
  intros c. unfold try_send_with. destruct (reserve _); [|done..].
  by destruct (build (database c)).
Qed.

Ltac finish :=
  repeat first
    [assumption
    |by apply send_operations_finishes|by apply send_resize_finishes
    |by apply try_send_with_finishes
    |match goal with
     | |- finishes (_ ≫= _) => apply finishes_bind; [|intros ?]
     | |- finishes (match ?x with _ => _ end) => destruct x
     end
    |solve [intros ?; discriminate]].

Lemma apply_request_finishes r : drains → finishes (apply_input_request r).
Proof.
  intros Hd. pose proof (λ ops, send_operations_finishes ops Hd) as Hops.
  assert (∀ op, finishes (send_pointer_operation op)) as Hptr.
  { intros op. unfold send_pointer_operation. finish. }
  assert (∀ t, finishes (send_text t)) as Htext.
  { intros t. induction t; simpl; finish. }
  destruct r; cbn [apply_input_request]; unfold send_mouse_move, set_local_files_or_report; finish;
    try apply Hptr; try apply Htext; try apply Hops; intros c;
    unfold attempt, on_clipboard, lift_outcome, key_operation; simpl;
    repeat (case_match; simplify_eq/=); try done.
  - by destruct ((set_local_text _ _).2).
Qed.

Lemma process_finishes lines : drains → finishes (process_input_requests lines).
Proof.
  intros Hd. induction lines as [|line lines IH]; simpl; [by intros c|].
  apply finishes_bind; [|intros r; apply finishes_bind; [by apply apply_request_finishes|]].
  - intros c. by destruct line.
  - intros []; [done|by intros c].
Qed.

(** Input reaches the session in order and at the position the host meant.
    When the request loop ends normally, what went through the input database into
    the queue stands for exactly the keys, texts, buttons, wheel turns and resizes of
    the requests before the first [Close], in order; each button press, release and
    wheel turn is applied at the position of the host's last mouse move since the
    last resize, whichever moves the full queue refused; and the loop never waits
    for ever if the queue keeps draining. *)
Theorem input_at_requested_position lines c :
  (drains → (process_input_requests lines c).2 ≠ Err StillWaiting) ∧
  ∀ c', process_input_requests lines c = (c', Ok ()) → pending_mouse_position c = None →
    ∃ bs, adds c c' bs ∧
      (batches_items None bs).2 = (requests_items None (handled lines)).2.
Proof.
  split; [intros Hd; by apply process_finishes|]. intros c' Hp Hnone.
  destruct (process_delivers lines c c' None None (in_step_none _ _ Hnone) Hp)
    as (bs & sp' & Ha & Hi & _).
  exists bs. by rewrite Hi.
Qed.

(** Shutting the input down does not wait.  It tries one reservation; with a
    permit it queues the releases of everything held (and nothing if nothing is
    held), otherwise it leaves queue and database alone; in every case it requests
    exactly one graceful close, and it fails only when the queue is closed. *)
Theorem shutdown_inputs_correct c :
  ∃ c', (shutdown_inputs c).1 = c' ∧
    reservations c' = S (reservations c) ∧ close_requests c' = S (close_requests c) ∧
    clipboard c' = clipboard c ∧
    (database c', queue c') =
      match reserve (reservations c) with
      | Permit =>
          ((release_all (database c)).1,
           queue c ++ match (release_all (database c)).2 with
                      | [] => []
                      | events => [FastPath events]
                      end)
      | _ => (database c, queue c)
      end ∧
    (shutdown_inputs c).2 =
      match reserve (reservations c) with
      | QueueClosed => Err (Failed "RDP input channel closed")
      | _ => Ok ()
      end.
Proof.
  unfold shutdown_inputs, attempt, try_send_with, mbind, comp_bind. eexists. split; [reflexivity|].
  destruct (reserve (reservations c)); simpl; [|by split_and!..].
  destruct (release_all (database c)) as [d events]. simpl. split_and!; try done.
  by destruct events; rewrite ?app_nil_r.
Qed.
End input.

(** ** Witness: the full queue of the source's tests *)

(** A database that passes every operation on. *)
#[export] Instance log_database : InputDatabase (list Operation) Operation := {|
  apply_operations d ops := (d ++ ops, ops);
  release_all d := ([], []);
|}.

#[export] Instance no_clipboard : ClipboardPort () := {|
  set_local_text _ k := (k, Ok ());
  set_local_files _ _ k := (k, Ok ());
  cancel_transfer _ k := k;
  report_transfer_failure _ _ k := k;
  clipboard_shutdown k := k;
|}.

(** The queue has room from the third reservation on. *)
Definition full_twice (n : nat) : Reservation :=
  match n with 0 | 1 => QueueFull | _ => Permit end.

Definition demo_lines : list (outcome string HelperRequest) :=
  [Ok (RqMouseMove 640 480); Ok (RqMouseMove 700 500); Ok (RqMouseButton BtnLeft true);
   Ok RqClose; Ok (RqText [97%N])].

Lemma input_at_requested_position_witness :
  ∃ c' : @Context_ (list Operation) Operation (),
    process_input_requests full_twice 5 demo_lines (mk_context [] None () 0 [] 0) = (c', Ok ()) ∧
    queue c' = [FastPath [MouseMove (mk_position 700 500); MouseButtonPressed MbLeft]] ∧
    ∃ bs : list batch, adds (mk_context [] None () 0 [] 0) c' bs ∧
      (batches_items None bs).2 =
        [AtPosition (MouseButtonPressed MbLeft) (Some (mk_position 700 500))].
Proof.
  eexists. split; [vm_compute; reflexivity|]. split; [reflexivity|].
  destruct (input_at_requested_position full_twice 5 demo_lines
    (mk_context ([] : list Operation) None () 0 [] 0)) as [_ Hall].
  destruct (Hall _ eq_refl eq_refl) as (bs & Ha & Hi). exists bs.
  split; [exact Ha|]. rewrite Hi. reflexivity.
Defined.
