(* ===== verification/ClipPath.v ===== *)
(** * Clipboard paths

    rdp-helper/src/clipboard/path.rs: the relative paths files are exchanged under,
    their validation and their wire form.  A text is its list of Unicode scalar
    values.  Lower-casing (a Unicode table) and the reserved device names of the RDP
    library are parameters; a [PathBuf] built from components is its components. *)

From S2P Require Import Prelude RdpProtocol.

Definition MAX_CLIPBOARD_ENTRY_COUNT : N := 10000.
Definition MAX_CLIPBOARD_DIRECTORY_DEPTH : nat := 32.
Definition MAX_SINGLE_FILE_BYTES : N := 16 * 1024 * 1024 * 1024.
Definition MAX_TOTAL_TRANSFER_BYTES : N := 64 * 1024 * 1024 * 1024.
Definition MAX_WIRE_PATH_UTF16_UNITS : nat := 259.

Definition backslash : N := 92.

(** Less, greater, colon, quotation mark, slash, backslash, bar, question mark, star. *)
Definition WINDOWS_INVALID_CHARACTERS : list N := [60; 62; 58; 34; 47; 92; 124; 63; 42]%N.

(** [char::is_control]: the category Cc. *)
Definition is_control (c : N) : bool := (c <=? 31)%N || ((127 <=? c)%N && (c <=? 159)%N).

(** [s.encode_utf16().count()]. *)
Fixpoint utf16_units (t : text) : nat :=
  match t with
  | [] => 0
  | c :: rest => (if (c <=? 65535)%N then 1 else 2) + utf16_units rest
  end.

(** The components joined by backslashes. *)
Fixpoint join (components : list text) : text :=
  match components with
  | [] => []
  | [c] => c
  | c :: rest => c ++ backslash :: join rest
  end.

(** The parts of a text between backslashes: [current] is the component read so far, reversed. *)
Fixpoint split_at_backslash (current : text) (t : text) : list text :=
  match t with
  | [] => [reverse current]
  | c :: rest =>
      if (c =? backslash)%N then reverse current :: split_at_backslash [] rest
      else split_at_backslash (c :: current) rest
  end.

(** What lies outside of the source: [str::to_lowercase] and the device names. *)
Class PathEnv := {
  to_lowercase : text → text;
  is_windows_device_name : text → bool;
}.

(** Lower-casing keeps letters letters: it neither makes a separator of a character
    nor deletes one. *)
Class PathEnvLaws `{PathEnv} := {
  to_lowercase_no_separator t : backslash ∉ t → backslash ∉ to_lowercase t;
  to_lowercase_nonempty t : t ≠ [] → to_lowercase t ≠ [];
}.

Section path.
Context `{PathEnv}.

(** ** Validation *)

Definition validate_component (component : text) : outcome string () :=
  ensure (negb (bool_decide (component = [])) && negb (bool_decide (component = [46%N])) &&
          negb (bool_decide (component = [46; 46]%N)))
    "clipboard path contains an invalid component"%string;;
  ensure (negb (bool_decide (last component = Some 32%N)) &&
          negb (bool_decide (last component = Some 46%N)))
    "clipboard path has an unsafe trailing character"%string;;
  ensure (negb (existsb is_control component))
    "clipboard path contains a control character"%string;;
  ensure (negb (existsb (λ c, bool_decide (c ∈ WINDOWS_INVALID_CHARACTERS)) component))
    "clipboard path contains a Windows-invalid character"%string;;
  ensure (negb (is_windows_device_name component))
    "clipboard path uses a reserved Windows device name"%string.

Fixpoint validate_each (components : list text) : outcome string () :=
  match components with
  | [] => Ok ()
  | c :: rest => validate_component c;; validate_each rest
  end.

Definition validate_components (components : list text) : outcome string () :=
  ensure (negb (bool_decide (components = []))) "clipboard path is empty"%string;;
  ensure (length components <=? MAX_CLIPBOARD_DIRECTORY_DEPTH)%nat
    "clipboard path exceeds the directory depth limit"%string;;
  validate_each components.

Definition split_wire_parent (parent : text) : outcome string (list text) :=
  ensure (negb (bool_decide (parent = []))) "clipboard parent path is empty"%string;;
  ensure (negb (bool_decide (47%N ∈ parent)))
    "clipboard parent path contains an invalid separator"%string;;
  validate_each (split_at_backslash [] parent);;
  Ok (split_at_backslash [] parent).

(** ** [RelativeClipboardPath] *)

Record RelativeClipboardPath := mk_relative { components : list text }.

Definition validate_wire_length (p : RelativeClipboardPath) : outcome string () :=
  ensure (utf16_units (join (components p)) <=? MAX_WIRE_PATH_UTF16_UNITS)%nat
    "clipboard path exceeds the RDP wire limit"%string.

Definition from_local_components (components : list text)
    : outcome string RelativeClipboardPath :=
  validate_components components;;
  let path := mk_relative components in
  validate_wire_length path;;
  Ok path.

Definition from_wire (name : text) (parent : option text)
    : outcome string RelativeClipboardPath :=
  components ← match parent with
               | Some parent => split_wire_parent parent
               | None => Ok []
               end;
  validate_component name;;
  from_local_components (components ++ [name]).

Definition name (p : RelativeClipboardPath) : text := default [] (last (components p)).

(** The components but the last: [len().saturating_sub(1)] of them. *)
Definition parent_components (p : RelativeClipboardPath) : list text :=
  take (length (components p) - 1) (components p).

Definition parent_wire_path (p : RelativeClipboardPath) : option text :=
  let parent := parent_components p in
  if decide (parent = []) then None else Some (join parent).

Definition as_path_buf (p : RelativeClipboardPath) : list text := components p.

Definition normalized_key (p : RelativeClipboardPath) : text :=
  join (to_lowercase <$> components p).

Definition parent_key (p : RelativeClipboardPath) : option text :=
  let parent := parent_components p in
  if decide (parent = []) then None else Some (join (to_lowercase <$> parent)).

Definition top_level_key (p : RelativeClipboardPath) : text :=
  default [] (to_lowercase <$> head (components p)).

Definition top_level_name (p : RelativeClipboardPath) : text := default [] (head (components p)).

Definition child (p : RelativeClipboardPath) (name : text)
    : outcome string RelativeClipboardPath :=
  from_local_components (components p ++ [name]).

(** ** Lemmas *)

Record component_ok (c : text) : Prop := {
  ok_nonempty : c ≠ [];
  ok_not_dot : c ≠ [46%N];
  ok_not_dotdot : c ≠ [46; 46]%N;
  ok_trailing : last c ≠ Some 32%N ∧ last c ≠ Some 46%N;
  ok_control : Forall (λ x, is_control x = false) c;
  ok_characters : Forall (λ x, x ∉ WINDOWS_INVALID_CHARACTERS) c;
  ok_device : is_windows_device_name c = false;
}.

Lemma existsb_Forall {A} (f : A → bool) l :
  existsb f l = false ↔ Forall (λ x, f x = false) l.
Proof.
  induction l as [|x l IH]; simpl; [done|].
  rewrite orb_false_iff, IH, Forall_cons. done.
Qed.

Lemma validate_component_ok c : validate_component c = Ok () ↔ component_ok c.
Proof.
  unfold validate_component. split.
  - intros Hv. inv_ok. unfold ensure in Hv. destruct (negb (is_windows_device_name c)) eqn:Hd; [|done].
    bool_to_prop. apply existsb_Forall in Hc1, Hc2. split; try done.
    eapply Forall_impl; [exact Hc2|]. intros x Hx. by apply bool_decide_eq_false in Hx.
  - intros [H1 H2 H3 [H4 H5] H6 H7 H8].
    rewrite ensure_true, ensure_true, ensure_true, ensure_true;
      [unfold ensure; by rewrite H8|..].
    + apply negb_true_iff, existsb_Forall. eapply Forall_impl; [exact H7|]. intros x Hx.
      by apply bool_decide_eq_false.
    + by apply negb_true_iff, existsb_Forall.
    + by rewrite !bool_decide_eq_false_2.
    + by rewrite !bool_decide_eq_false_2.
Qed.

Lemma validate_each_ok cs : validate_each cs = Ok () ↔ Forall component_ok cs.
Proof.
  induction cs as [|c cs IH]; simpl; [done|]. rewrite Forall_cons, <-IH, <-validate_component_ok.
  rewrite bind_ok. split; [intros ([] & ? & ?); done|intros [-> ?]; by exists ()].
Qed.

(** What a validated path is. *)
Record path_ok (cs : list text) : Prop := {
  path_nonempty : cs ≠ [];
  path_depth : length cs ≤ 32;
  path_components : Forall component_ok cs;
  path_length : utf16_units (join cs) ≤ 259;
}.

Lemma from_local_components_ok cs p :
  from_local_components cs = Ok p ↔ p = mk_relative cs ∧ path_ok cs.
Proof.
  unfold from_local_components, validate_components, validate_wire_length. split.
  - intros Hv. inv_ok. bool_to_prop. destruct x. apply validate_each_ok in Hx. by split.
  - intros [-> [H1 H2 H3 H4]]. rewrite bind_ok. exists (). split.
    + rewrite ensure_true, ensure_true; [by apply validate_each_ok| |].
      * by apply Nat.leb_le.
      * by rewrite bool_decide_eq_false_2.
    + rewrite ensure_true; [done|]. by apply Nat.leb_le.
Qed.

Lemma validate_component_no_panic c : validate_component c ≠ Panic.
Proof. unfold validate_component. no_panic_steps. Qed.

Lemma validate_each_no_panic cs : validate_each cs ≠ Panic.
Proof.
  induction cs as [|c cs IH]; simpl; [done|].
  apply bind_no_panic; [apply validate_component_no_panic|done].
Qed.

Lemma from_local_components_no_panic cs : from_local_components cs ≠ Panic.
Proof.
  pose proof (validate_each_no_panic cs).
  unfold from_local_components, validate_components, validate_wire_length. no_panic_steps.
Qed.

Lemma from_wire_no_panic n parent : from_wire n parent ≠ Panic.
Proof.
  unfold from_wire, split_wire_parent. apply bind_no_panic.
  - destruct parent as [parent|]; [|done].
    pose proof (validate_each_no_panic (split_at_backslash [] parent)). no_panic_steps.
  - intros cs. apply bind_no_panic; [apply validate_component_no_panic|].
    intros _. apply from_local_components_no_panic.
Qed.

(** ** The wire form *)

Lemma ok_no_separator c : component_ok c → (backslash ∉ c) ∧ (47%N ∉ c).
Proof.
  intros Hc. pose proof (ok_characters _ Hc) as Hf. rewrite Forall_forall in Hf.
  split; intros Hin; apply (Hf _ Hin); unfold WINDOWS_INVALID_CHARACTERS, backslash;
    rewrite !elem_of_cons; auto 10.
Qed.

Lemma split_no_separator current c rest :
  backslash ∉ c →
  split_at_backslash current (c ++ rest) = split_at_backslash (reverse c ++ current) rest.
Proof.
  revert current. induction c as [|x c IH]; intros current Hc; simpl; [done|].
  apply not_elem_of_cons in Hc as [Hx Hc].
  rewrite (proj2 (N.eqb_neq x backslash)) by done.
  rewrite IH, reverse_cons, <-app_assoc by done. done.
Qed.

Lemma split_join cs :
  cs ≠ [] → Forall (λ c, backslash ∉ c) cs → split_at_backslash [] (join cs) = cs.
Proof.
  intros Hne Hall. induction Hall as [|c cs Hc Hcs IH]; [done|].
  destruct cs as [|c' cs]; simpl.
  - rewrite <-(app_nil_r c) at 1. rewrite split_no_separator by done. simpl.
    by rewrite app_nil_r, reverse_involutive.
  - rewrite split_no_separator by done. simpl. rewrite app_nil_r, reverse_involutive.
    f_equal. by apply IH.
Qed.

Lemma split_nonempty current t : split_at_backslash current t ≠ [].
Proof. revert current. induction t as [|x t IH]; intros current; simpl; [done|]. by case_match. Qed.

Lemma join_split current t : join (split_at_backslash current t) = reverse current ++ t.
Proof.
  revert current. induction t as [|x t IH]; intros current; simpl; [by rewrite app_nil_r|].
  destruct (N.eqb_spec x backslash) as [->|Hx].
  - destruct (split_at_backslash [] t) as [|c cs] eqn:Hs; [by apply split_nonempty in Hs|].
    change (reverse current ++ backslash :: join (c :: cs) = reverse current ++ backslash :: t).
    by rewrite <-Hs, IH.
  - by rewrite IH, reverse_cons, <-app_assoc.
Qed.

Lemma join_nil cs : Forall (λ c, c ≠ []) cs → join cs = [] → cs = [].
Proof.
  destruct 1 as [|c [|c' cs]]; simpl; try done. by intros ?%app_eq_nil; destruct_and?.
Qed.

Lemma join_not_in x cs : x ≠ backslash → Forall (λ c, x ∉ c) cs → x ∉ join cs.
Proof.
  intros Hx. induction 1 as [|c cs Hc Hcs IH]; [apply not_elem_of_nil|].
  destruct cs as [|c' cs]; [done|].
  change (join (c :: c' :: cs)) with (c ++ backslash :: join (c' :: cs)).
  rewrite not_elem_of_app, not_elem_of_cons. done.
Qed.

Lemma components_ok_nonempty cs : Forall component_ok cs → Forall (λ c, c ≠ []) cs.
Proof. intros Hall. eapply Forall_impl; [exact Hall|]. intros c Hc. apply Hc. Qed.

Lemma components_ok_separator cs : Forall component_ok cs → Forall (λ c, backslash ∉ c) cs.
Proof. intros Hall. eapply Forall_impl; [exact Hall|]. intros c Hc. by apply ok_no_separator. Qed.

Lemma components_ok_slash cs : Forall component_ok cs → Forall (λ c, 47%N ∉ c) cs.
Proof. intros Hall. eapply Forall_impl; [exact Hall|]. intros c Hc. by apply ok_no_separator. Qed.

(** The wire parent of valid components is read back as those components. *)
Lemma split_wire_parent_join cs :
  cs ≠ [] → Forall component_ok cs → split_wire_parent (join cs) = Ok cs.
Proof.
  intros Hne Hok. unfold split_wire_parent.
  rewrite split_join by (try done; by apply components_ok_separator).
  rewrite (ensure_true (negb (bool_decide (join cs = [])))), ensure_true.
  - by rewrite (proj2 (validate_each_ok cs) Hok).
  - rewrite bool_decide_eq_false_2; [done|]. apply join_not_in; [done|].
    by apply components_ok_slash.
  - rewrite bool_decide_eq_false_2; [done|]. intros Hj. apply Hne, join_nil; [|done].
    by apply components_ok_nonempty.
Qed.

Lemma split_wire_parent_ok parent cs :
  split_wire_parent parent = Ok cs →
  cs ≠ [] ∧ Forall component_ok cs ∧ join cs = parent.
Proof.
  unfold split_wire_parent. intros Hs. inv_ok. destruct x. apply validate_each_ok in Hx.
  split; [apply split_nonempty|]. split; [done|]. by rewrite join_split.
Qed.

(** A non-empty list is its prefix and its last element. *)
Lemma parent_and_name cs :
  cs ≠ [] →
  cs = parent_components (mk_relative cs) ++ [name (mk_relative cs)].
Proof.
  intros Hne. destruct (last cs) as [l|] eqn:Hl; [|by apply last_None in Hl].
  apply last_Some in Hl as [l' ->]. unfold parent_components, name. cbn [components].
  rewrite last_snoc, length_app. simpl. f_equal.
  rewrite Nat.add_sub, take_app_length. done.
Qed.

(** What is sent for a valid path is read back as that path. *)
Lemma from_wire_components p : path_ok (components p) → from_wire (name p) (parent_wire_path p) = Ok p.
Proof.
  destruct p as [cs]. intros Hok. cbn [components] in Hok. pose proof Hok as [Hne _ Hall _].
  pose proof (parent_and_name cs Hne) as Hcs. rewrite Hcs in Hall.
  apply Forall_app in Hall as [Hpar Hname]. rewrite Forall_singleton in Hname.
  unfold from_wire, parent_wire_path. rewrite bind_ok.
  exists (parent_components (mk_relative cs)). split.
  - destruct (decide _) as [->|Hp]; [done|]. by apply split_wire_parent_join.
  - rewrite (proj2 (validate_component_ok _) Hname). cbn [mbind outcome_bind].
    rewrite <-Hcs. by apply from_local_components_ok.
Qed.

(** ** Keys *)

(** Two keys agree exactly when the components do, up to case. *)
Lemma key_components `{!PathEnvLaws} cs ds :
  cs ≠ [] → ds ≠ [] → Forall component_ok cs → Forall component_ok ds →
  join (to_lowercase <$> cs) = join (to_lowercase <$> ds) ↔
    to_lowercase <$> cs = to_lowercase <$> ds.
Proof.
  intros Hcs Hds Hokc Hokd. split; [|by intros ->]. intros Hj.
  assert (∀ es, es ≠ [] → Forall component_ok es →
    split_at_backslash [] (join (to_lowercase <$> es)) = to_lowercase <$> es) as Hs.
  { intros es Hne Hok. apply split_join; [by destruct es|].
    apply Forall_fmap. eapply Forall_impl; [exact Hok|]. intros c Hc.
    by apply to_lowercase_no_separator, ok_no_separator. }
  by rewrite <-(Hs cs), <-(Hs ds), Hj.
Qed.

(** Relative paths survive the wire.  A path built from local components is
    what the receiving side builds from the name and the parent that are sent for
    it; and whatever name and parent are received, a path accepted from them has
    exactly that name and that parent, between 1 and 32 components each of which is
    a plain file name (no separator, control or reserved character, not dots, no
    trailing space or dot, no device name), and at most 259 UTF-16 units. *)
Theorem path_wire_roundtrip :
  (∀ cs p, from_local_components cs = Ok p →
     from_wire (name p) (parent_wire_path p) = Ok p) ∧
  (∀ n parent p, from_wire n parent = Ok p →
     name p = n ∧ parent_wire_path p = parent ∧ path_ok (components p)).
Proof.
  split.
  - intros cs p [-> Hok]%from_local_components_ok. by apply from_wire_components.
  - intros n parent p Hw. unfold from_wire in Hw. apply bind_ok in Hw as (cs & Hpar & Hw).
    apply bind_ok in Hw as ([] & Hn & Hw). apply from_local_components_ok in Hw as [-> Hok].
    split; [unfold name; cbn [components]; by rewrite last_snoc|]. split; [|done].
    unfold parent_wire_path, parent_components. cbn [components].
    rewrite length_app. simpl. rewrite Nat.add_sub, take_app_length.
    destruct parent as [parent|].
    + destruct (split_wire_parent_ok _ _ Hpar) as (Hne & _ & Hj).
      by rewrite decide_False, Hj by done.
    + injection Hpar as <-. done.
Qed.
End path.

(** ** A concrete environment

    Lower-casing of the ASCII letters and the device names without extensions. *)

Definition ascii_lower (c : N) : N := if (65 <=? c)%N && (c <=? 90)%N then (c + 32)%N else c.

Definition ascii_env : PathEnv := {|
  to_lowercase t := ascii_lower <$> t;
  is_windows_device_name t :=
    bool_decide (ascii_lower <$> t ∈
      [[99; 111; 110]; [112; 114; 110]; [97; 117; 120]; [110; 117; 108]]%N);
|}.

Lemma ascii_env_laws : @PathEnvLaws ascii_env.
Proof.
  split; intros t Ht.
  - intros (c & Hc & Hin)%list_elem_of_fmap. apply Ht. unfold ascii_lower, backslash in *.
    destruct (_ && _) eqn:Hb; [bool_to_prop; lia|by rewrite Hc].
  - by destruct t.
Qed.

(** "dir\a.txt" *)
Definition demo_components : list text := [[100; 105; 114]; [97; 46; 116; 120; 116]]%N.

Lemma path_wire_roundtrip_witness :
  @from_wire ascii_env [97; 46; 116; 120; 116]%N (Some [100; 105; 114]%N) =
    Ok (mk_relative demo_components) ∧
  @path_ok ascii_env demo_components.
Proof.
  pose proof (@path_wire_roundtrip ascii_env) as [Hout Hin]. split.
  - apply (Hout demo_components (mk_relative demo_components)). vm_compute. reflexivity.
  - apply (Hin [97; 46; 116; 120; 116]%N (Some [100; 105; 114]%N) (mk_relative demo_components)).
    vm_compute. reflexivity.
Defined.
