(* ===== verification/ClipLayout.v ===== *)
(** * The layout of a remote file list

    rdp-helper/src/clipboard/remote_layout.rs: the descriptors a server announces are
    checked as a whole before anything is created, and turned into the directories,
    files and top-level names of the transfer. *)

From S2P Require Import Prelude RdpProtocol ClipPath.

(** The RDP library's [FileDescriptor]: the attribute bits are a [u32]. *)
Record FileDescriptor := mk_descriptor {
  fd_attributes : option N;
  fd_file_size : option N;
  fd_name : text;
  fd_relative_path : option text;
}.

(** The attribute bits of the RDP library. *)
Class FileAttributes := { ATTRIBUTE_DIRECTORY : N; ATTRIBUTE_ARCHIVE : N }.

Definition FILE_ATTRIBUTE_REPARSE_POINT : N := 1024.

Definition i32_max : N := 2147483647.

Record RemoteFile := mk_remote_file {
  descriptor_index : N;
  relative_path : list text;
  advertised_size : option N;
}.

Record RemoteClipboardLayout := mk_layout {
  directories : list (list text);
  files : list RemoteFile;
  top_level_names : list text;
}.

Section layout.
Context `{PathEnv} `{FileAttributes}.

Definition descriptor_path (descriptor : FileDescriptor) : outcome string RelativeClipboardPath :=
  from_wire (fd_name descriptor) (fd_relative_path descriptor).

Definition is_directory (descriptor : FileDescriptor) : outcome string bool :=
  let attributes := default 0%N (fd_attributes descriptor) in
  ensure (N.land attributes FILE_ATTRIBUTE_REPARSE_POINT =? 0)%N
    "remote clipboard contains a reparse point"%string;;
  Ok (N.land attributes ATTRIBUTE_DIRECTORY =? ATTRIBUTE_DIRECTORY)%N.

Definition validate_parent (path : RelativeClipboardPath) (hierarchy : gmap text bool)
    : outcome string () :=
  match parent_key path with
  | None => Ok ()
  | Some parent =>
      ensure (bool_decide (hierarchy !! parent = Some true))
        "remote clipboard hierarchy has a missing parent directory"%string
  end.

(** The running total is returned with the outcome. *)
Definition account_advertised_size (size : option N) (total : N) : outcome string N :=
  match size with
  | None => Ok total
  | Some size =>
      ensure (size <=? MAX_SINGLE_FILE_BYTES)%N
        "remote clipboard file exceeds the single-file limit"%string;;
      total ← of_option "remote clipboard transfer size overflow"%string
        (checked_add u64_max total size);
      ensure (total <=? MAX_TOTAL_TRANSFER_BYTES)%N
        "remote clipboard transfer exceeds the total size limit"%string;;
      Ok total
  end.

Definition add_to_layout (layout : RemoteClipboardLayout) (descriptor : FileDescriptor)
    (path : RelativeClipboardPath) (index : N) (directory : bool) (advertised_total : N)
    : outcome string (RemoteClipboardLayout * N) :=
  if directory
  then Ok (mk_layout (directories layout ++ [as_path_buf path]) (files layout)
             (top_level_names layout), advertised_total)
  else
    advertised_total ← account_advertised_size (fd_file_size descriptor) advertised_total;
    Ok (mk_layout (directories layout)
          (files layout ++ [mk_remote_file index (as_path_buf path) (fd_file_size descriptor)])
          (top_level_names layout), advertised_total).

(** The loop of [validate_descriptors], from descriptor [index] on. *)
Fixpoint validate_descriptors (index : N) (descriptors : list FileDescriptor)
    (hierarchy : gmap text bool) (top_levels : gset text) (advertised_total : N)
    (layout : RemoteClipboardLayout) : outcome string RemoteClipboardLayout :=
  match descriptors with
  | [] => Ok layout
  | descriptor :: rest =>
      path ← descriptor_path descriptor;
      directory ← is_directory descriptor;
      validate_parent path hierarchy;;
      let previous := hierarchy !! normalized_key path in
      let hierarchy := <[normalized_key path := directory]> hierarchy in
      ensure (bool_decide (previous = None)) "remote clipboard contains duplicate paths"%string;;
      let '(top_levels, layout) :=
        if decide (top_level_key path ∈ top_levels) then (top_levels, layout)
        else ({[top_level_key path]} ∪ top_levels,
              mk_layout (directories layout) (files layout)
                (top_level_names layout ++ [top_level_name path])) in
      descriptor_index ← (if (index <=? i32_max)%N then Ok index
                          else Err "out of range integral type conversion attempted"%string);
      added ← add_to_layout layout descriptor path descriptor_index directory advertised_total;
      validate_descriptors (index + 1) rest hierarchy top_levels added.2 added.1
  end.

Definition validate (descriptors : list FileDescriptor) : outcome string RemoteClipboardLayout :=
  ensure (negb (bool_decide (descriptors = []))) "remote clipboard file list is empty"%string;;
  ensure (N.of_nat (length descriptors) <=? MAX_CLIPBOARD_ENTRY_COUNT)%N
    "remote clipboard entry count exceeds the limit"%string;;
  validate_descriptors 0 descriptors ∅ ∅ 0 (mk_layout [] [] []).

(** ** Specification: what an acceptable list is and what it stands for *)

Record entry := mk_entry {
  e_path : RelativeClipboardPath;
  e_directory : bool;
  e_size : option N;
}.

Definition parses (d : FileDescriptor) (e : entry) : Prop :=
  descriptor_path d = Ok (e_path e) ∧ is_directory d = Ok (e_directory e) ∧
  e_size e = fd_file_size d.

Definition e_key (e : entry) : text := normalized_key (e_path e).

(** The bytes a file announces; a directory announces none. *)
Definition e_bytes (e : entry) : N :=
  if e_directory e then 0 else default 0%N (e_size e).

Definition total_bytes (es : list entry) : N := foldr (λ e n, (e_bytes e + n)%N) 0%N es.

(** An entry that may follow [before]: its parent is a directory announced earlier,
    its path, up to case, is new, and the sizes stay within the limits. *)
Record admissible (before : list entry) (e : entry) : Prop := {
  adm_parent k : parent_key (e_path e) = Some k →
    ∃ d, d ∈ before ∧ e_key d = k ∧ e_directory d = true;
  adm_new d : d ∈ before → e_key d ≠ e_key e;
  adm_single : (e_bytes e <= MAX_SINGLE_FILE_BYTES)%N;
  adm_total : (total_bytes before + e_bytes e <= MAX_TOTAL_TRANSFER_BYTES)%N;
}.

Fixpoint all_admissible (before es : list entry) : Prop :=
  match es with
  | [] => True
  | e :: rest => admissible before e ∧ all_admissible (before ++ [e]) rest
  end.

Definition entry_directories (es : list entry) : list (list text) :=
  omap (λ e, if e_directory e then Some (as_path_buf (e_path e)) else None) es.

(** The files with the position of their descriptor. *)
Fixpoint entry_files (index : N) (es : list entry) : list RemoteFile :=
  match es with
  | [] => []
  | e :: rest =>
      (if e_directory e then []
       else [mk_remote_file index (as_path_buf (e_path e)) (e_size e)]) ++
      entry_files (index + 1) rest
  end.

(** The first spelling of each top-level name. *)
Fixpoint entry_tops (seen : gset text) (es : list entry) : list text :=
  match es with
  | [] => []
  | e :: rest =>
      if decide (top_level_key (e_path e) ∈ seen) then entry_tops seen rest
      else top_level_name (e_path e) ::
             entry_tops ({[top_level_key (e_path e)]} ∪ seen) rest
  end.

Definition layout_of (es : list entry) : RemoteClipboardLayout :=
  mk_layout (entry_directories es) (entry_files 0 es) (entry_tops ∅ es).

(** ** The loop against the specification *)

(** The hash map holds the entries done so far. *)
Definition represents (done_ : list entry) (hierarchy : gmap text bool) : Prop :=
  ∀ k b, hierarchy !! k = Some b ↔ ∃ e, e ∈ done_ ∧ e_key e = k ∧ e_directory e = b.

Lemma represents_snoc done_ hierarchy e :
  represents done_ hierarchy → hierarchy !! e_key e = None →
  represents (done_ ++ [e]) (<[e_key e := e_directory e]> hierarchy).
Proof.
  intros Hrep Hnew k b. setoid_rewrite elem_of_app. setoid_rewrite list_elem_of_singleton.
  destruct (decide (k = e_key e)) as [->|Hk].
  - rewrite lookup_insert_eq. split.
    + intros [= <-]. exists e. auto.
    + intros (e' & [Hin| ->] & Hkey & <-); [|done]. exfalso.
      assert (hierarchy !! e_key e = Some (e_directory e')) by (apply Hrep; eauto). congruence.
  - rewrite lookup_insert_ne by done. rewrite (Hrep k b). split.
    + intros (e' & ? & ? & ?). exists e'. auto.
    + intros (e' & [?| ->] & ? & ?); [eauto|done].
Qed.

Lemma total_bytes_snoc es e : total_bytes (es ++ [e]) = (total_bytes es + e_bytes e)%N.
Proof.
  unfold total_bytes. induction es as [|e' es IH]; simpl; [lia|]. rewrite IH. lia.
Qed.

Lemma represents_new done_ hierarchy e :
  represents done_ hierarchy →
  hierarchy !! e_key e = None ↔ ∀ d, d ∈ done_ → e_key d ≠ e_key e.
Proof.
  intros Hrep. split.
  - intros Hn d Hd Hk. assert (hierarchy !! e_key e = Some (e_directory d)) by (apply Hrep; eauto).
    congruence.
  - intros Hd. destruct (hierarchy !! e_key e) as [b|] eqn:Hl; [|done].
    apply Hrep in Hl as (d & Hin & Hk & _). by destruct (Hd d).
Qed.

Lemma validate_parent_ok done_ hierarchy e :
  represents done_ hierarchy →
  validate_parent (e_path e) hierarchy = Ok () ↔
    ∀ k, parent_key (e_path e) = Some k →
      ∃ d, d ∈ done_ ∧ e_key d = k ∧ e_directory d = true.
Proof.
  intros Hrep. unfold validate_parent. destruct (parent_key (e_path e)) as [k|].
  - unfold ensure. case_bool_decide as Hk.
    + split; [|done]. intros _ k' [= <-]. by apply Hrep.
    + split; [done|]. intros Hall. destruct Hk. apply Hrep. by apply Hall.
  - by split.
Qed.

(** Sizes: within the limits the addition does not overflow. *)
Lemma account_ok size total total' :
  account_advertised_size size total = Ok total' ↔
    total' = (total + default 0 size)%N ∧
    (size = None ∨ (default 0 size <= MAX_SINGLE_FILE_BYTES)%N ∧
                   (total' <= MAX_TOTAL_TRANSFER_BYTES)%N).
Proof.
  unfold account_advertised_size. destruct size as [size|]; simpl.
  - unfold checked_add, MAX_SINGLE_FILE_BYTES, MAX_TOTAL_TRANSFER_BYTES. split.
    + intros Ha. inv_ok. unfold of_option in Hx. case_match; [|done]. simplify_eq.
      case_match; simplify_eq. bool_to_prop. split; [done|right; lia].
    + intros (-> & [?|[H1 H2]]); [done|].
      rewrite ensure_true by (apply N.leb_le; lia).
      rewrite (proj2 (N.leb_le (total + size) _)) by lia. cbn [of_option mbind outcome_bind].
      rewrite ensure_true by (apply N.leb_le; lia). done.
  - split; [intros [= <-]; split; [lia|by left]|]. intros [-> _]. f_equal. lia.
Qed.

Lemma entry_directories_app es1 es2 :
  entry_directories (es1 ++ es2) = entry_directories es1 ++ entry_directories es2.
Proof. apply omap_app. Qed.

Definition seen_with (tops : gset text) (e : entry) : gset text :=
  if decide (top_level_key (e_path e) ∈ tops) then tops
  else {[top_level_key (e_path e)]} ∪ tops.

(** What one entry adds to the layout. *)
Definition layout_with (index : N) (tops : gset text) (e : entry) (l : RemoteClipboardLayout)
    : RemoteClipboardLayout :=
  mk_layout
    (directories l ++ (if e_directory e then [as_path_buf (e_path e)] else []))
    (files l ++ (if e_directory e then []
                 else [mk_remote_file index (as_path_buf (e_path e)) (e_size e)]))
    (top_level_names l ++ (if decide (top_level_key (e_path e) ∈ tops) then []
                           else [top_level_name (e_path e)])).

Lemma add_to_layout_ok l d e index total r :
  e_size e = fd_file_size d → (total <= MAX_TOTAL_TRANSFER_BYTES)%N →
  add_to_layout l d (e_path e) index (e_directory e) total = Ok r ↔
    r = (mk_layout
           (directories l ++ (if e_directory e then [as_path_buf (e_path e)] else []))
           (files l ++ (if e_directory e then []
                        else [mk_remote_file index (as_path_buf (e_path e)) (e_size e)]))
           (top_level_names l), (total + e_bytes e)%N) ∧
    (e_bytes e <= MAX_SINGLE_FILE_BYTES)%N ∧ (total + e_bytes e <= MAX_TOTAL_TRANSFER_BYTES)%N.
Proof.
  intros Hs Htot. unfold add_to_layout, e_bytes. destruct (e_directory e).
  - rewrite app_nil_r, N.add_0_r. split; [intros [= <-]; split_and!; [done|lia..]|].
    intros [-> _]. done.
  - rewrite app_nil_r, Hs. rewrite bind_ok. setoid_rewrite account_ok. split.
    + intros (t & (-> & Hsz) & [= <-]). split; [done|]. destruct Hsz as [Hn|[H1 H2]]; [|done].
      rewrite Hn. simpl. unfold MAX_SINGLE_FILE_BYTES. lia.
    + intros (-> & H1 & H2). eexists. split; [|done]. split; [done|by right].
Qed.

(** One descriptor. *)
Lemma validate_step index d rest done_ hierarchy tops l r :
  represents done_ hierarchy → (index <= i32_max)%N →
  (total_bytes done_ <= MAX_TOTAL_TRANSFER_BYTES)%N →
  validate_descriptors index (d :: rest) hierarchy tops (total_bytes done_) l = Ok r ↔
    ∃ e, parses d e ∧ admissible done_ e ∧
      validate_descriptors (index + 1) rest (<[e_key e := e_directory e]> hierarchy)
        (seen_with tops e) (total_bytes (done_ ++ [e])) (layout_with index tops e l) = Ok r.
Proof.
  intros Hrep Hi Htot. cbn [validate_descriptors].
  rewrite (proj2 (N.leb_le index i32_max)) by done. split.
  - intros Hv. apply bind_ok in Hv as (p & Hp & Hv). apply bind_ok in Hv as (dir & Hd & Hv).
    apply bind_ok in Hv as ([] & Hpar & Hv). apply ensure_bind_ok in Hv as [Hnew Hv].
    bool_to_prop. set (e := mk_entry p dir (fd_file_size d)). exists e.
    assert (∃ l' added, add_to_layout l' d (e_path e) index (e_directory e) (total_bytes done_) =
      Ok added ∧ l' = mk_layout (directories l) (files l)
        (top_level_names (layout_with index tops e l)) ∧
      validate_descriptors (index + 1) rest (<[normalized_key p:=dir]> hierarchy)
        (seen_with tops e) added.2 added.1 = Ok r) as (l' & added & Hadd & -> & Hrest).
    { unfold seen_with, layout_with. simpl. destruct (decide _); simpl in Hv;
        apply bind_ok in Hv as (added & Ha & Hv); eexists _, added; split_and!; try done.
      rewrite app_nil_r. by destruct l. }
    apply add_to_layout_ok in Hadd as (-> & Hs1 & Hs2); [|done..].
    split; [done|]. split; [|by rewrite total_bytes_snoc].
    split; [|by apply (represents_new _ hierarchy)|done|done].
    by apply (validate_parent_ok _ hierarchy e).
  - intros (e & (Hp & Hd & Hs) & [Hpar Hnew Hs1 Hs2] & Hrest).
    rewrite Hp. cbn [mbind outcome_bind]. rewrite Hd. cbn [mbind outcome_bind].
    rewrite (proj2 (validate_parent_ok _ hierarchy e Hrep) Hpar). cbn [mbind outcome_bind].
    rewrite ensure_true.
    2: { apply bool_decide_eq_true. by apply (represents_new done_). }
    rewrite total_bytes_snoc in Hrest.
    unfold seen_with, layout_with in Hrest. destruct (decide _) as [Hin|Hin]; simpl;
      (erewrite (proj2 (add_to_layout_ok _ d e index _ _ Hs Htot));
       [|split; [reflexivity|done]]); simpl; [by rewrite app_nil_r in Hrest|done].
Qed.

Lemma entry_directories_cons e es :
  entry_directories (e :: es) =
    (if e_directory e then [as_path_buf (e_path e)] else []) ++ entry_directories es.
Proof. unfold entry_directories. simpl. by destruct (e_directory e). Qed.

Lemma validate_loop ds done_ hierarchy tops l r :
  represents done_ hierarchy → (N.of_nat (length done_ + length ds) <= i32_max)%N →
  (total_bytes done_ <= MAX_TOTAL_TRANSFER_BYTES)%N →
  validate_descriptors (N.of_nat (length done_)) ds hierarchy tops (total_bytes done_) l = Ok r ↔
    ∃ es, Forall2 parses ds es ∧ all_admissible done_ es ∧
      r = mk_layout (directories l ++ entry_directories es)
            (files l ++ entry_files (N.of_nat (length done_)) es)
            (top_level_names l ++ entry_tops tops es).
Proof.
  revert done_ hierarchy tops l. induction ds as [|d ds IH]; intros done_ hierarchy tops l Hrep Hlen Htot.
  - simpl. split.
    + intros [= <-]. exists []. simpl. rewrite !app_nil_r. by destruct l.
    + intros (es & Hall & _ & ->). inversion Hall. simpl. rewrite !app_nil_r. by destruct l.
  - simpl in Hlen. rewrite validate_step by (done || lia).
    assert (∀ e, admissible done_ e →
      validate_descriptors (N.of_nat (length done_) + 1) ds (<[e_key e:=e_directory e]> hierarchy)
        (seen_with tops e) (total_bytes (done_ ++ [e]))
        (layout_with (N.of_nat (length done_)) tops e l) = Ok r ↔
      ∃ es, Forall2 parses ds es ∧ all_admissible (done_ ++ [e]) es ∧
        r = mk_layout (directories l ++ entry_directories (e :: es))
              (files l ++ entry_files (N.of_nat (length done_)) (e :: es))
              (top_level_names l ++ entry_tops tops (e :: es))) as Hstep.
    { intros e [Hpar Hnew Hs1 Hs2].
      assert (N.of_nat (length done_) + 1 = N.of_nat (length (done_ ++ [e])))%N as Hl
        by (rewrite length_app; simpl; lia).
      rewrite Hl, IH.
      - rewrite <-Hl. setoid_rewrite entry_directories_cons. unfold layout_with, seen_with. simpl.
        setoid_rewrite <-app_assoc.
        destruct (decide _); [by setoid_rewrite (app_nil_l (entry_tops _ _))|done].
      - apply represents_snoc; [done|]. by apply (represents_new done_).
      - rewrite length_app. simpl. lia.
      - by rewrite total_bytes_snoc. }
    split.
    + intros (e & Hp & Ha & Hv). apply (Hstep e Ha) in Hv as (es & H1 & H2 & ->).
      exists (e :: es). split; [by constructor|]. split; [by split|done].
    + intros (es & Hall & Hadm & ->). inversion Hall as [|? e ? es' Hp Hps]; subst.
      destruct Hadm as [Ha Hadm]. exists e. split; [done|]. split; [done|].
      apply (Hstep e Ha). by exists es'.
Qed.

Lemma validate_ok ds layout :
  validate ds = Ok layout ↔
    ds ≠ [] ∧ (N.of_nat (length ds) <= 10000)%N ∧
    ∃ es, Forall2 parses ds es ∧ all_admissible [] es ∧ layout = layout_of es.
Proof.
  assert (represents [] ∅) as Hrep.
  { intros k b. rewrite lookup_empty. split; [done|]. by intros (e & ?%elem_of_nil & _). }
  pose proof (λ Hlen Htot, validate_loop ds [] ∅ ∅ (mk_layout [] [] []) layout Hrep Hlen Htot) as Hloop.
  unfold validate. rewrite !ensure_bind_ok. rewrite N.leb_le, negb_true_iff, bool_decide_eq_false.
  unfold MAX_CLIPBOARD_ENTRY_COUNT. split; intros (Hne & Hlen & Hv); (split; [done|]);
    (split; [done|]); apply Hloop; try done; unfold i32_max, MAX_TOTAL_TRANSFER_BYTES; simpl; lia.
Qed.

Lemma validate_descriptors_no_panic index ds hierarchy tops total l :
  validate_descriptors index ds hierarchy tops total l ≠ Panic.
Proof.
  revert index hierarchy tops total l. induction ds as [|d ds IH]; intros index hierarchy tops total l;
    [done|]. cbn [validate_descriptors]. unfold descriptor_path.
  apply bind_no_panic; [apply from_wire_no_panic|intros p].
  unfold is_directory, validate_parent, add_to_layout, account_advertised_size. no_panic_steps.
Qed.

Lemma validate_no_panic ds : validate ds ≠ Panic.
Proof.
  unfold validate. do 2 (apply bind_no_panic; [apply ensure_no_panic|intros _]).
  apply validate_descriptors_no_panic.
Qed.

(** The last entry of an acceptable list follows the others. *)
Lemma all_admissible_snoc before es e :
  all_admissible before (es ++ [e]) ↔ all_admissible before es ∧ admissible (before ++ es) e.
Proof.
  revert before. induction es as [|e' es IH]; intros before; simpl.
  - rewrite app_nil_r. naive_solver.
  - rewrite IH, <-app_assoc. simpl. naive_solver.
Qed.

(** ** The list in plain terms

    What the wire says, without the checks of the code: names and their parents, the bits of
    the attributes, and components that are the same up to case. *)

(** A unit for a character, and another one for each beyond the first 2^16. *)
Definition u16_units (t : text) : nat := length t + length (filter (λ c, 65536 <= c)%N t).

(** A name a file can have on both sides. *)
Record plain_name (nm : text) : Prop := {
  plain_not_dots : nm ≠ [] ∧ nm ≠ [46%N] ∧ nm ≠ [46; 46]%N;
  plain_end c : last nm = Some c → c ≠ 32%N ∧ c ≠ 46%N;
  plain_character c : c ∈ nm →
    (32 <= c)%N ∧ ¬ (127 <= c < 160)%N ∧ c ∉ [60; 62; 58; 34; 47; 92; 124; 63; 42]%N;
  plain_device : is_windows_device_name nm = false;
}.

(** A path of 1 to 32 plain names that, with separators between them, are at most 259
    UTF-16 units. *)
Record plain_path (names : list text) : Prop := {
  plain_depth : 1 ≤ length names ≤ 32;
  plain_names : Forall plain_name names;
  plain_units : sum_list (u16_units <$> names) + (length names - 1) ≤ 259;
}.

(** The names of a path, the last one apart, with separators between them. *)
Definition separated (parent : list text) : text :=
  match parent with
  | [] => []
  | nm :: rest => nm ++ flat_map (λ t, backslash :: t) rest
  end.

(** A descriptor announces an entry: its parent and its name make up a plain path, it is no
    reparse point (bit 10), and it is a directory when all the bits of that attribute are set. *)
Record announces (d : FileDescriptor) (e : entry) : Prop := {
  ann_path : ∃ parent, components (e_path e) = parent ++ [fd_name d] ∧
    fd_relative_path d = if decide (parent = []) then None else Some (separated parent);
  ann_plain : plain_path (components (e_path e));
  ann_no_reparse : N.testbit (default 0%N (fd_attributes d)) 10 = false;
  ann_directory : e_directory e = true ↔ ∀ i, N.testbit ATTRIBUTE_DIRECTORY i = true →
    N.testbit (default 0%N (fd_attributes d)) i = true;
  ann_size : e_size e = fd_file_size d;
}.

Definition same_names (names names' : list text) : Prop :=
  to_lowercase <$> names = to_lowercase <$> names'.

(** An entry in its place: its parent is a directory before it, no entry before it has its
    path, and the limits of 16 and 64 GiB. *)
Record in_place (before : list entry) (e : entry) : Prop := {
  place_parent parent nm : components (e_path e) = parent ++ [nm] → parent ≠ [] →
    ∃ d, d ∈ before ∧ same_names (components (e_path d)) parent ∧ e_directory d = true;
  place_new d : d ∈ before → ¬ same_names (components (e_path d)) (components (e_path e));
  place_single : (e_bytes e <= 17179869184)%N;
  place_total : (total_bytes before + e_bytes e <= 68719476736)%N;
}.

Fixpoint all_in_place (before es : list entry) : Prop :=
  match es with
  | [] => True
  | e :: rest => in_place before e ∧ all_in_place (before ++ [e]) rest
  end.

(** The top-level names, each in its first spelling. *)
Fixpoint first_spellings (seen : list text) (tops : list text) : list text :=
  match tops with
  | [] => []
  | nm :: rest =>
      if decide (to_lowercase nm ∈ to_lowercase <$> seen) then first_spellings seen rest
      else nm :: first_spellings (seen ++ [nm]) rest
  end.

Definition plain_layout (es : list entry) : RemoteClipboardLayout :=
  mk_layout
    (components ∘ e_path <$> filter (λ e, e_directory e = true) es)
    (entry_files 0 es)
    (first_spellings [] (es ≫= λ e, option_list (head (components (e_path e))))).

(** *** The code's checks against the plain terms *)

Lemma utf16_units_plain t : utf16_units t = u16_units t.
Proof.
  unfold u16_units. induction t as [|c t IH]; [done|]. cbn [utf16_units length].
  rewrite filter_cons, IH.
  destruct (N.leb_spec c 65535), (decide (65536 <= c)%N); cbn [length]; lia.
Qed.

Lemma u16_units_app t u : u16_units (t ++ u) = u16_units t + u16_units u.
Proof. unfold u16_units. rewrite filter_app, !length_app. lia. Qed.

Lemma join_units names :
  names ≠ [] → u16_units (join names) = sum_list (u16_units <$> names) + (length names - 1).
Proof.
  induction names as [|nm [|nm' names] IH]; intros Hne; [done|simpl; lia|].
  change (join (nm :: nm' :: names)) with (nm ++ [backslash] ++ join (nm' :: names)).
  rewrite !u16_units_app, IH by done. change (u16_units [backslash]) with 1.
  change (sum_list (u16_units <$> nm :: nm' :: names))
    with (u16_units nm + sum_list (u16_units <$> nm' :: names)).
  cbn [length]. lia.
Qed.

Lemma plain_name_ok nm : component_ok nm ↔ plain_name nm.
Proof.
  split.
  - intros [H1 H2 H3 [H4 H5] H6 H7 H8]. split; [done| |intros c Hc|done].
    + intros c Hc. rewrite Hc in H4, H5. split; congruence.
    + rewrite Forall_forall in H6, H7. specialize (H6 c Hc). unfold is_control in H6.
      rewrite orb_false_iff, andb_false_iff, !N.leb_gt in H6.
      split; [lia|]. split; [lia|by apply (H7 c)].
  - intros [(H1 & H2 & H3) H4 H5 H6]. split; try done.
    + split; intros Hl; by destruct (H4 _ Hl).
    + apply Forall_forall. intros c Hc. destruct (H5 c Hc) as (Hlow & Hhigh & _).
      unfold is_control. apply orb_false_iff. rewrite andb_false_iff, !N.leb_gt. lia.
    + apply Forall_forall. intros c Hc. by destruct (H5 c Hc) as (_ & _ & Hin).
Qed.

Lemma plain_path_ok names : path_ok names ↔ plain_path names.
Proof.
  split.
  - intros [Hne Hd Hn Hl]. rewrite utf16_units_plain, join_units in Hl by done. split; [|..|done].
    + destruct names; [done|]. simpl in *. lia.
    + eapply Forall_impl; [exact Hn|]. intros nm. apply plain_name_ok.
  - intros [Hd Hn Hl]. assert (names ≠ []) as Hne by (by destruct names; simpl in *; [lia|]).
    split; [done|lia| |].
    + eapply Forall_impl; [exact Hn|]. intros nm. apply plain_name_ok.
    + by rewrite utf16_units_plain, join_units.
Qed.

Lemma separated_join names : separated names = join names.
Proof.
  destruct names as [|nm names]; [done|]. revert nm.
  induction names as [|nm' names IH]; intros nm; [apply app_nil_r|].
  change (join (nm :: nm' :: names)) with (nm ++ backslash :: join (nm' :: names)).
  by rewrite <-IH.
Qed.

Lemma testbit_1024 i : N.testbit 1024 i = bool_decide (i = 10%N).
Proof.
  change 1024%N with (2 ^ 10)%N. rewrite N.pow2_bits_eqb.
  destruct (N.eqb_spec 10 i) as [<-|Hne]; [done|]. symmetry. by apply bool_decide_eq_false.
Qed.

Lemma no_reparse_bit a : (N.land a FILE_ATTRIBUTE_REPARSE_POINT =? 0)%N = negb (N.testbit a 10).
Proof.
  unfold FILE_ATTRIBUTE_REPARSE_POINT. destruct (N.testbit a 10) eqn:Hb; simpl.
  - apply N.eqb_neq. intros Hl. assert (N.testbit (N.land a 1024) 10 = true) as H10
      by (by rewrite N.land_spec, Hb). by rewrite Hl in H10.
  - apply N.eqb_eq, N.bits_inj_0. intros i. rewrite N.land_spec, testbit_1024.
    case_bool_decide as Hi; [by rewrite Hi, Hb|apply andb_false_r].
Qed.

Lemma contains_bits a b :
  (N.land a b =? b)%N = true ↔ ∀ i, N.testbit b i = true → N.testbit a i = true.
Proof.
  rewrite N.eqb_eq. split.
  - intros Hl i Hi. rewrite <-Hl, N.land_spec in Hi. by apply andb_true_iff in Hi as [? _].
  - intros Hall. apply N.bits_inj. intros i. rewrite N.land_spec.
    destruct (N.testbit b i) eqn:Hb; [by rewrite Hall|apply andb_false_r].
Qed.

Lemma descriptor_path_plain d p :
  descriptor_path d = Ok p ↔
  (∃ parent, components p = parent ++ [fd_name d] ∧
    fd_relative_path d = if decide (parent = []) then None else Some (separated parent)) ∧
  plain_path (components p).
Proof.
  unfold descriptor_path. rewrite <-plain_path_ok. split.
  - intros Hw. destruct path_wire_roundtrip as [_ Hin].
    destruct (Hin _ _ _ Hw) as (Hn & Hp & Hok). split; [|done].
    exists (parent_components p). rewrite <-Hn, <-Hp. unfold parent_wire_path. split.
    + destruct p as [cs]. by apply parent_and_name, Hok.
    + case_decide; by rewrite ?separated_join.
  - intros [(parent & Hcs & Hrel) Hok]. pose proof (from_wire_components p Hok) as Hw.
    unfold name, parent_wire_path, parent_components in Hw. rewrite Hcs in Hw.
    rewrite last_snoc, length_app in Hw. simpl in Hw. rewrite Nat.add_sub, take_app_length in Hw.
    by rewrite Hrel, separated_join.
Qed.

Lemma parses_announces d e : parses d e ↔ announces d e.
Proof.
  unfold parses, is_directory. rewrite descriptor_path_plain, ensure_bind_ok, no_reparse_bit.
  rewrite negb_true_iff. pose proof (contains_bits (default 0%N (fd_attributes d)) ATTRIBUTE_DIRECTORY) as Hc.
  split.
  - intros ([Hp Hok] & [Hr [= Hd]] & Hs). split; try done. by rewrite <-Hd.
  - intros [Hp Hok Hr Hd Hs]. split_and!; try done. f_equal. apply eq_true_iff_eq. by rewrite Hc, Hd.
Qed.

Section keys.
Context `{!PathEnvLaws}.

(** Paths of entries that parse have the same key when they are the same up to case. *)
Definition well_formed (e : entry) : Prop := path_ok (components (e_path e)).

Lemma e_key_same d e :
  well_formed d → well_formed e →
  e_key d = e_key e ↔ same_names (components (e_path d)) (components (e_path e)).
Proof. intros [Hd _ Hd' _] [He _ He' _]. by apply key_components. Qed.

Lemma admissible_in_place before e :
  Forall well_formed before → well_formed e → admissible before e ↔ in_place before e.
Proof.
  intros Hb He. rewrite Forall_forall in Hb.
  assert (∀ d, d ∈ before → e_key d = e_key e ↔ same_names (components (e_path d)) (components (e_path e)))
    as Hkey by (intros d Hd; apply e_key_same; auto).
  assert ((∀ k, parent_key (e_path e) = Some k →
      ∃ d, d ∈ before ∧ e_key d = k ∧ e_directory d = true) ↔
    (∀ parent nm, components (e_path e) = parent ++ [nm] → parent ≠ [] →
      ∃ d, d ∈ before ∧ same_names (components (e_path d)) parent ∧ e_directory d = true)) as Hparent.
  { destruct e as [[cs] dir size]. cbn [e_path components]. pose proof He as [Hne _ Hall _].
    cbn [e_path components] in *. pose proof (parent_and_name cs Hne) as Hcs.
    set (parent := parent_components (mk_relative cs)) in *. unfold parent_key. fold parent.
    assert (Forall component_ok parent) as Hparent
      by (rewrite Hcs in Hall; by apply Forall_app in Hall as [? _]).
    assert (∀ d, d ∈ before → parent ≠ [] →
      e_key d = join (to_lowercase <$> parent) ↔ same_names (components (e_path d)) parent) as Hk.
    { intros d Hd Hp. destruct (Hb d Hd) as [Hd1 _ Hd2 _]. by apply key_components. }
    split.
    - intros Hk' parent' nm Hcs' Hp'. rewrite Hcs in Hcs'. apply app_inj_2 in Hcs' as [<- _]; [|done].
      destruct (Hk' (join (to_lowercase <$> parent))) as (d & Hd & Hdk & Hdir);
        [by rewrite decide_False|]. exists d. split_and!; [done|by apply Hk|done].
    - intros Hp k. case_decide as Hd; [done|]. intros [= <-].
      destruct (Hp parent _ Hcs Hd) as (d & Hin & Hs & Hdir). exists d. split_and!; [done|by apply Hk|done]. }
  split.
  - intros [Hp Hn Hs1 Hs2]. split; [by apply Hparent| |done|done].
    intros d Hd Hs. by apply (Hn d Hd), Hkey.
  - intros [Hp Hn Hs1 Hs2]. split; [by apply Hparent| |done|done].
    intros d Hd Hs. by apply (Hn d Hd), Hkey.
Qed.

Lemma all_admissible_in_place before es :
  Forall well_formed before → Forall well_formed es →
  all_admissible before es ↔ all_in_place before es.
Proof.
  intros Hb Hes. revert before Hb. induction Hes as [|e es He _ IH]; intros before Hb; [done|].
  cbn [all_admissible all_in_place]. rewrite admissible_in_place, IH by done || (by apply Forall_app; auto).
  done.
Qed.

(** The loop's set of keys holds the spellings so far. *)
Lemma entry_tops_spellings tops seen es :
  Forall well_formed es → (∀ k, k ∈ tops ↔ k ∈ to_lowercase <$> seen) →
  entry_tops tops es =
    first_spellings seen (es ≫= λ e, option_list (head (components (e_path e)))).
Proof.
  intros Hes. revert tops seen. induction Hes as [|e es [Hne _ _ _] _ IH]; intros tops seen Hseen; [done|].
  destruct e as [[[|nm cs]] dir size]; [done|].
  rewrite bind_cons. cbn [entry_tops e_path components head].
  change (option_list (Some nm)) with [nm]. cbn [app first_spellings].
  change (top_level_key (mk_relative (nm :: cs))) with (to_lowercase nm).
  change (top_level_name (mk_relative (nm :: cs))) with nm.
  rewrite (decide_ext (to_lowercase nm ∈ tops) (to_lowercase nm ∈ to_lowercase <$> seen)) by apply Hseen.
  case_decide; [by apply IH|]. f_equal. apply IH. intros k.
  rewrite fmap_app, elem_of_app. change (to_lowercase <$> [nm]) with [to_lowercase nm].
  rewrite list_elem_of_singleton, elem_of_union, elem_of_singleton, Hseen. tauto.
Qed.

Lemma layout_of_plain es : Forall well_formed es → layout_of es = plain_layout es.
Proof.
  intros Hes. unfold layout_of, plain_layout. f_equal.
  - unfold entry_directories. clear Hes. induction es as [|e es IH]; [done|]. cbn [omap list_omap].
    rewrite filter_cons. destruct (e_directory e); [|by rewrite decide_False, IH by done].
    rewrite decide_True by done. by rewrite IH.
  - apply entry_tops_spellings; [done|]. intros k. by rewrite elem_of_empty, elem_of_nil.
Qed.

(** C11: the layout is accepted exactly when the whole list is acceptable.
    [validate] returns a layout precisely for the lists of 1 to 10,000 descriptors that
    announce entries (a plain path made of the parent and the name, no reparse point), in
    which every entry comes after its parent directory, no two paths are equal up to case,
    no file announces more than 16 GiB and all files together no more than 64 GiB; the layout
    is then the directories, the files with the positions of their descriptors, and the
    top-level names, each in its first spelling, in the order announced. *)
Theorem validate_correct ds layout :
  validate ds = Ok layout ↔
    ds ≠ [] ∧ (N.of_nat (length ds) <= 10000)%N ∧
    ∃ es, Forall2 announces ds es ∧ all_in_place [] es ∧ layout = plain_layout es.
Proof.
  rewrite validate_ok.
  assert (∀ es, Forall2 parses ds es ↔ Forall2 announces ds es) as Hann.
  { intros es. split; intros Hall; (eapply Forall2_impl; [exact Hall|]); intros d e; apply parses_announces. }
  assert (∀ es, Forall2 announces ds es → Forall well_formed es) as Hwf.
  { clear Hann. intros es. induction 1 as [|d e ds' es' Hd _ IH]; constructor; [|by apply IH].
    apply plain_path_ok, Hd. }
  split; intros (Hne & Hlen & es & Hes & Hadm & ->); (split; [done|]); (split; [done|]); exists es.
  - apply Hann in Hes. split; [done|]. split; [by apply all_admissible_in_place; auto|].
    by apply layout_of_plain, Hwf.
  - split; [by apply Hann|]. split; [by apply all_admissible_in_place; auto|].
    symmetry. by apply layout_of_plain, Hwf.
Qed.
End keys.
End layout.

(** ** A list *)

(** "dir" and "dir\a.txt" of 5 bytes. *)
Definition demo_attributes : FileAttributes :=
  {| ATTRIBUTE_DIRECTORY := 16; ATTRIBUTE_ARCHIVE := 32 |}.

Definition demo_descriptors : list FileDescriptor :=
  [mk_descriptor (Some 16%N) None [100; 105; 114]%N None;
   mk_descriptor (Some 32%N) (Some 5%N) [97; 46; 116; 120; 116]%N (Some [68; 73; 82]%N)].

Lemma validate_correct_witness :
  ∃ es, Forall2 (@announces ascii_env demo_attributes) demo_descriptors es ∧
    @all_in_place ascii_env [] es.
Proof.
  assert (@validate ascii_env demo_attributes demo_descriptors = Ok
    (mk_layout [[[100; 105; 114]%N]]
       [mk_remote_file 1 [[68; 73; 82]; [97; 46; 116; 120; 116]]%N (Some 5%N)] [[100; 105; 114]%N]))
    as Hv by (vm_compute; reflexivity).
  apply (proj1 (@validate_correct ascii_env demo_attributes ascii_env_laws demo_descriptors _)) in Hv
    as (_ & _ & es & Hes & Hplace & _).
  by exists es.
Defined.
