(* ===== verification/ClipFs.v ===== *)
(** * The operating system, as the clipboard uses it

    Paths ([OsPath]) and calls on a file-system state that may fail and may find
    anything ([FileSystem]): the interface of the clipboard files of the RDP helper.
    Nothing is assumed of it here.  [MemFs] is an implementation in memory, on which
    the hypotheses of the theorems about transfers hold. *)

From S2P Require Import Prelude RdpProtocol.

(** ** The operating system *)

Class OsPath (P : Type) := {
  path_from : text → P;
  is_absolute : P → bool;
  (** [path.file_name().and_then(to_str)] *)
  os_file_name : P → option text;
  (** [path.join(relative)], the relative path by its components *)
  join_path : P → list text → P;
  starts_with : P → P → bool;
  to_string_lossy : P → text;
}.

Record Metadata := mk_metadata {
  md_is_dir : bool;
  md_is_file : bool;
  md_is_symlink : bool;
  (** the reparse-point attribute, which only Windows has *)
  md_reparse : bool;
  md_len : N;
  (** in nanoseconds; [None] where the platform has no modification times *)
  md_modified : option N;
}.

(** A directory entry: its path and its name, when that is UTF-8. *)
Record DirEntry (P : Type) := mk_dir_entry { de_path : P; de_file_name : option text }.
Arguments mk_dir_entry {P}.
Arguments de_path {P}.
Arguments de_file_name {P}.

Class FileSystem (F P Handle : Type) := {
  symlink_metadata : P → comp F string Metadata;
  canonicalize : P → comp F string P;
  path_exists : P → F → F * bool;
  create_dir_all : P → comp F string ();
  create_dir : P → comp F string ();
  set_permissions : P → N → comp F string ();
  (** [tempfile::Builder::new().prefix(prefix).tempdir_in(root)], kept *)
  tempdir_in : P → text → comp F string P;
  remove_dir_all : P → comp F string ();
  (** the entries, each of which may have failed to be read *)
  read_dir : P → comp F string (list (outcome string (DirEntry P)));
  create_new : P → comp F string Handle;
  write_all : Handle → bytes → comp F string ();
  flush_file : Handle → comp F string ();
  open_file : P → comp F string Handle;
  file_len : Handle → comp F string N;
  seek_start : Handle → N → comp F string ();
  read_exact : Handle → nat → comp F string bytes;
  system_now : F → F * N;
}.

(** [call.context(message)] *)
Definition context {S A} (message : string) (m : comp S string A) : comp S string A :=
  map_err_comp (λ _, message) m.

(** [anyhow::ensure!] in a sequence of calls. *)
Definition require {S} (b : bool) (message : string) : comp S string () :=
  lift_outcome (ensure b message).

(** ** A file system in memory

    Paths are lists of components, all absolute; a handle is the path it was opened
    at; directories and files are kept apart. *)

Module MemFs.
Record fs := mk_fs {
  dirs : gset (list text);
  contents : gmap (list text) bytes;
  positions : gmap (list text) nat;
  clock : N;
}.

(** Everything up to the last [47]. *)
Fixpoint split_slash (current t : text) : list text :=
  match t with
  | [] => [reverse current]
  | c :: rest =>
      if (c =? 47)%N then reverse current :: split_slash [] rest
      else split_slash (c :: current) rest
  end.

#[export] Instance mem_path : OsPath (list text) := {|
  path_from t := List.filter (λ c, negb (bool_decide (c = []))) (split_slash [] t);
  is_absolute _ := true;
  os_file_name p := last p;
  join_path p rel := p ++ rel;
  starts_with p q := bool_decide (take (length q) p = q);
  to_string_lossy p := p ≫= λ c, 47%N :: c;
|}.

Definition metadata_of (p : list text) (f : fs) : outcome string Metadata :=
  if decide (p ∈ dirs f) then Ok (mk_metadata true false false false 0 (Some 0%N))
  else match contents f !! p with
       | Some data =>
           Ok (mk_metadata false true false false (N.of_nat (length data)) (Some 0%N))
       | None => Err "not found"%string
       end.

Definition with_dirs (f : fs) (ds : gset (list text)) : fs :=
  mk_fs ds (contents f) (positions f) (clock f).
Definition with_contents (f : fs) (p : list text) (data : bytes) : fs :=
  mk_fs (dirs f) (<[p := data]> (contents f)) (positions f) (clock f).
Definition with_position (f : fs) (p : list text) (n : nat) : fs :=
  mk_fs (dirs f) (contents f) (<[p := n]> (positions f)) (clock f).

Definition below (p q : list text) : bool := bool_decide (take (length p) q = p).

(** The random part of a temporary directory: [abc]. *)
Definition random_suffix : text := [97; 98; 99]%N.

(** The entries of a directory: the paths one component longer. *)
Definition entries_of (p : list text) (f : fs) : list (list text) :=
  List.filter (λ q, (length q =? S (length p))%nat && below p q)
    (elements (dirs f) ++ ((map_to_list (contents f)).*1)).

#[export] Instance mem_fs : FileSystem fs (list text) (list text) := {|
  symlink_metadata p := λ f, (f, metadata_of p f);
  canonicalize p := λ f, (f, match metadata_of p f with Ok _ => Ok p | Err e => Err e | Panic => Panic end);
  path_exists p := λ f, (f, is_ok (metadata_of p f));
  create_dir_all p := λ f, (with_dirs f ({[p]} ∪ dirs f), Ok ());
  create_dir p := λ f, (with_dirs f ({[p]} ∪ dirs f), Ok ());
  set_permissions _ _ := λ f, (f, Ok ());
  tempdir_in p prefix := λ f,
    let q := p ++ [prefix ++ random_suffix] in (with_dirs f ({[q]} ∪ dirs f), Ok q);
  remove_dir_all p := λ f,
    (mk_fs (filter (λ q, below p q = false) (dirs f))
       (filter (λ x, below p x.1 = false) (contents f)) (positions f) (clock f), Ok ());
  read_dir p := λ f,
    (f, Ok ((λ q, Ok (mk_dir_entry q (last q))) <$> entries_of p f));
  create_new p := λ f,
    match contents f !! p with
    | Some _ => (f, Err "exists"%string)
    | None => (with_contents f p [], Ok p)
    end;
  write_all p data := λ f,
    (with_contents f p (default [] (contents f !! p) ++ data), Ok ());
  flush_file _ := λ f, (f, Ok ());
  open_file p := λ f,
    match contents f !! p with
    | Some _ => (with_position f p 0, Ok p)
    | None => (f, Err "not found"%string)
    end;
  file_len p := λ f, (f, Ok (N.of_nat (length (default [] (contents f !! p)))));
  seek_start p n := λ f, (with_position f p (N.to_nat n), Ok ());
  read_exact p n := λ f,
    let data := drop (default 0 (positions f !! p)) (default [] (contents f !! p)) in
    (with_position f p (default 0 (positions f !! p) + n),
     if (n <=? length data)%nat then Ok (take n data) else Err "unexpected end of file"%string);
  system_now f := (f, clock f);
|}.

Definition empty : fs := mk_fs ∅ ∅ ∅ 0.
End MemFs.
