(* ===== verification/ClipStaging.v ===== *)
(** * The staging directories of remote transfers

    The file-system part of rdp-helper/src/clipboard/path.rs and
    rdp-helper/src/clipboard/staging.rs, over the operating system of ClipFs.v. *)

From S2P Require Import Prelude RdpProtocol ClipPath ClipFs.

Section staging.
Context `{OsPath P} `{!EqDecision P} `{FileSystem F P Handle} `{PathEnv}.

Abbreviation io A := (comp F string A) (only parsing).

(** ** path.rs *)

Definition is_link_or_reparse (metadata : Metadata) : bool :=
  md_is_symlink metadata || md_reparse metadata.

Definition ensure_not_link_or_reparse (path : P) : io Metadata :=
  metadata ← context "clipboard path metadata is unavailable" (symlink_metadata path);
  require (negb (is_link_or_reparse metadata))
    "clipboard path cannot be a link or reparse point";;
  mret metadata.

Definition utf8_file_name (path : P) : outcome string text :=
  of_option "clipboard path has no UTF-8 file name"%string (os_file_name path).

(** [names]: the set of the names so far, in lower case. *)
Fixpoint validate_top_levels (names : gset text) (paths : list P) : outcome string () :=
  match paths with
  | [] => Ok ()
  | path :: rest =>
      ensure (is_absolute path) "clipboard paths must be absolute"%string;;
      name ← utf8_file_name path;
      validate_component name;;
      ensure (negb (bool_decide (to_lowercase name ∈ names)))
        "clipboard paths contain duplicate top-level names"%string;;
      validate_top_levels ({[to_lowercase name]} ∪ names) rest
  end.

Definition validate_top_level_paths (paths : list P) : outcome string () :=
  validate_top_levels ∅ paths.

(** ** staging.rs *)

(** A day, in nanoseconds. *)
Definition STALE_TRANSFER_TTL : N := 24 * 60 * 60 * 1000000000.

(** [transfer-] *)
Definition TRANSFER_DIRECTORY_PREFIX : text :=
  [116; 114; 97; 110; 115; 102; 101; 114; 45]%N.

Definition dash : N := 45.

(** A digit of [{:x}]. *)
Definition hex_digit (n : N) : N := if (n <? 10)%N then (48 + n)%N else (87 + n)%N.

(** [k] hexadecimal digits, the most significant one first. *)
Fixpoint hex_digits (k : nat) (n : N) : text :=
  match k with
  | 0 => []
  | S k' => hex_digits k' (n / 16)%N ++ [hex_digit (n `mod` 16)%N]
  end.

(** [format!("transfer-{transfer_id:016x}-")]: a [u64] has at most 16 digits. *)
Definition transfer_prefix (transfer_id : N) : text :=
  TRANSFER_DIRECTORY_PREFIX ++ hex_digits 16 transfer_id ++ [dash].

Record TransferDirectory := mk_transfer_directory {
  root_canonical : P;
  td_path : P;
  retained : bool;
}.

(** Unix permissions; on other systems the call is compiled away, which a file
    system may model by a [set_permissions] that does nothing. *)
Definition protect_directory (path : P) : io () :=
  context "remote clipboard staging permissions could not be set" (set_permissions path 448%N).

Definition prepare_root (root : P) : io P :=
  require (is_absolute root) "remote clipboard staging root must be absolute";;
  present ← total (path_exists root);
  (match present with
   | true => mret ()
   | false =>
       context "remote clipboard staging root could not be created" (create_dir_all root)
   end);;
  metadata ← ensure_not_link_or_reparse root;
  require (md_is_dir metadata) "remote clipboard staging root is not a directory";;
  protect_directory root;;
  context "remote clipboard staging root cannot be canonicalized" (canonicalize root).

Definition verify_inside_root (path root_canonical : P) : io () :=
  metadata ← ensure_not_link_or_reparse path;
  require (md_is_dir metadata) "remote clipboard staging path is not a directory";;
  canonical ← context "remote clipboard staging path cannot be canonicalized"
    (canonicalize path);
  require (starts_with canonical root_canonical && negb (bool_decide (canonical = root_canonical)))
    "remote clipboard staging path escapes its root".

Definition create_transfer_directory (root : P) (transfer_id : N) : io TransferDirectory :=
  root_canonical ← prepare_root root;
  path ← context "remote clipboard staging directory could not be created"
    (tempdir_in root (transfer_prefix transfer_id));
  protect_directory path;;
  verify_inside_root path root_canonical;;
  mret (mk_transfer_directory root_canonical path false).

Definition retain (d : TransferDirectory) : TransferDirectory :=
  mk_transfer_directory (root_canonical d) (td_path d) true.

(** Nothing happens when a step fails: the result is not looked at. *)
Definition remove_transfer_directory (path root_canonical : P) : io () :=
  metadata ← attempt (symlink_metadata path);
  match (metadata : string + Metadata) with
  | inl _ => mret ()
  | inr metadata =>
      if negb (md_is_dir metadata) || is_link_or_reparse metadata then mret ()
      else
        canonical ← attempt (canonicalize path);
        match (canonical : string + P) with
        | inl _ => mret ()
        | inr canonical =>
            if starts_with canonical root_canonical && negb (bool_decide (canonical = root_canonical))
            then attempt (remove_dir_all path);; mret ()
            else mret ()
        end
  end.

(** [Drop for TransferDirectory]. *)
Definition drop_transfer_directory (d : TransferDirectory) : io () :=
  if retained d then mret () else remove_transfer_directory (td_path d) (root_canonical d).

Definition is_ascii_hexdigit (c : N) : bool :=
  ((48 <=? c) && (c <=? 57) || (65 <=? c) && (c <=? 70) || (97 <=? c) && (c <=? 102))%N.

Definition is_ascii_alphanumeric (c : N) : bool :=
  ((48 <=? c) && (c <=? 57) || (65 <=? c) && (c <=? 90) || (97 <=? c) && (c <=? 122))%N.

(** [name.strip_prefix(prefix)] *)
Fixpoint strip_prefix (prefix name : text) : option text :=
  match prefix, name with
  | [], rest => Some rest
  | c :: prefix, d :: rest => if (c =? d)%N then strip_prefix prefix rest else None
  | _ :: _, [] => None
  end.

(** [rest.split_once('-')] *)
Fixpoint split_once_dash (t : text) : option (text * text) :=
  match t with
  | [] => None
  | c :: rest =>
      if (c =? dash)%N then Some ([], rest)
      else '(a, b) ← split_once_dash rest; Some (c :: a, b)
  end.

(** The UTF-8 length of a text, which is what [str::len] counts. *)
Definition utf8_len (t : text) : nat :=
  foldr (λ c n, (if (c <? 128)%N then 1 else if (c <? 2048)%N then 2
                 else if (c <? 65536)%N then 3 else 4) + n) 0 t.

Definition valid_transfer_directory_name (name : text) : bool :=
  match strip_prefix TRANSFER_DIRECTORY_PREFIX name with
  | None => false
  | Some rest =>
      match split_once_dash rest with
      | None => false
      | Some (id, random) =>
          (utf8_len id =? 16)%nat && forallb is_ascii_hexdigit id &&
          negb (bool_decide (random = [])) && forallb is_ascii_alphanumeric random
      end
  end.

(** Reading the entry's metadata and the clock; a failure means not stale. *)
Definition is_stale_transfer (entry : DirEntry P) : io bool :=
  match de_file_name entry with
  | None => mret false
  | Some name =>
      if negb (valid_transfer_directory_name name) then mret false
      else
        metadata ← attempt (symlink_metadata (de_path entry));
        match (metadata : string + Metadata) with
        | inl _ => mret false
        | inr metadata =>
            if negb (md_is_dir metadata) || is_link_or_reparse metadata then mret false
            else match md_modified metadata with
                 | None => mret false
                 | Some modified =>
                     current ← total system_now;
                     mret ((modified <=? current)%N && (STALE_TRANSFER_TTL <=? current - modified)%N)
                 end
        end
  end.

Fixpoint cleanup_entries (root_canonical : P) (entries : list (outcome string (DirEntry P)))
    : io () :=
  match entries with
  | [] => mret ()
  | Ok entry :: rest =>
      stale ← is_stale_transfer entry;
      (match (stale : bool) with
       | true => remove_transfer_directory (de_path entry) root_canonical
       | false => mret ()
       end);;
      cleanup_entries root_canonical rest
  | _ :: rest => cleanup_entries root_canonical rest
  end.

Definition cleanup_stale_transfers (root : P) : io () :=
  prepared ← attempt (prepare_root root);
  match (prepared : string + P) with
  | inl _ => mret ()
  | inr root_canonical =>
      entries ← attempt (read_dir root);
      match (entries : string + list (outcome string (DirEntry P))) with
      | inl _ => mret ()
      | inr entries => cleanup_entries root_canonical entries
      end
  end.

(** ** Lemmas *)

Lemma strip_prefix_app prefix t : strip_prefix prefix (prefix ++ t) = Some t.
Proof. induction prefix as [|c prefix IH]; simpl; [done|]. by rewrite N.eqb_refl. Qed.

Lemma split_once_dash_app a b :
  Forall (λ c, c ≠ dash) a → split_once_dash (a ++ dash :: b) = Some (a, b).
Proof.
  induction 1 as [|c a Hc _ IH]; simpl; [done|].
  rewrite (proj2 (N.eqb_neq c dash)) by done. by rewrite IH.
Qed.

Lemma hex_digit_ok n : (n < 16)%N →
  is_ascii_hexdigit (hex_digit n) = true ∧ (hex_digit n < 128)%N ∧ hex_digit n ≠ dash.
Proof.
  intros Hn. unfold is_ascii_hexdigit, hex_digit, dash.
  destruct (N.ltb_spec n 10); rewrite !orb_true_iff, !andb_true_iff, !N.leb_le; lia.
Qed.

Lemma hex_digits_ok k n :
  utf8_len (hex_digits k n) = k ∧ forallb is_ascii_hexdigit (hex_digits k n) = true ∧
  Forall (λ c, c ≠ dash) (hex_digits k n).
Proof.
  revert n. induction k as [|k IH]; intros n; [done|]. simpl.
  destruct (IH (n / 16)%N) as (E1 & E2 & E3).
  destruct (hex_digit_ok (n `mod` 16)) as (E4 & E5 & E6); [by apply N.mod_lt|].
  unfold utf8_len in *. rewrite foldr_app, forallb_app, E2. simpl. rewrite E4.
  rewrite (proj2 (N.ltb_lt _ 128)) by done. split_and!; [|done|].
  - assert (∀ l m, foldr (λ c n, (if (c <? 128)%N then 1 else if (c <? 2048)%N then 2
      else if (c <? 65536)%N then 3 else 4) + n) m l = foldr (λ c n, (if (c <? 128)%N then 1
      else if (c <? 2048)%N then 2 else if (c <? 65536)%N then 3 else 4) + n) 0 l + m) as Hadd.
    { intros l m. induction l as [|c l IHl]; simpl; [done|]. rewrite IHl. lia. }
    rewrite Hadd, E1. lia.
  - apply Forall_app_2; [done|]. by apply Forall_singleton.
Qed.

Lemma transfer_name_valid transfer_id random :
  random ≠ [] → forallb is_ascii_alphanumeric random = true →
  valid_transfer_directory_name (transfer_prefix transfer_id ++ random) = true.
Proof.
  intros Hne Hal. unfold valid_transfer_directory_name, transfer_prefix.
  rewrite <-!app_assoc, strip_prefix_app. cbn [app].
  destruct (hex_digits_ok 16 transfer_id) as (E1 & E2 & E3).
  rewrite split_once_dash_app by done. rewrite E1, E2, Hal. simpl.
  by rewrite bool_decide_eq_false_2.
Qed.

(** Exactly the old plain directories with a transfer name are stale. *)
Lemma is_stale_transfer_true entry f f' :
  is_stale_transfer entry f = (f', Ok true) →
  ∃ name md f1 modified, de_file_name entry = Some name ∧
    valid_transfer_directory_name name = true ∧
    symlink_metadata (de_path entry) f = (f1, Ok md) ∧
    md_is_dir md = true ∧ is_link_or_reparse md = false ∧ md_modified md = Some modified ∧
    (modified + STALE_TRANSFER_TTL <= (system_now f1).2)%N.
Proof.
  unfold is_stale_transfer. destruct (de_file_name entry) as [name|]; [|done].
  destruct (valid_transfer_directory_name name) eqn:Hv; [|done]. cbn [negb].
  rewrite comp_bind_ok. intros (f1 & md & E1 & E2). unfold attempt in E1.
  destruct (symlink_metadata (de_path entry) f) as [f1' [md'|e|]] eqn:Hmd; simplify_eq; try done.
  destruct (md_is_dir md') eqn:Hd; [|done]. destruct (is_link_or_reparse md') eqn:Hl; [done|].
  simpl in E2. destruct (md_modified md') as [modified|] eqn:Hm; [|done].
  apply comp_bind_ok in E2 as (f2 & current & E3 & E4). injection E3 as <- <-.
  injection E4 as _ E4. bool_to_prop.
  exists name, md', f1, modified. split_and!; try done. lia.
Qed.

(** Stale cleanup finds what transfers leave behind, and nothing else.  The name
    of every directory created for a transfer, whatever its id and the random suffix,
    passes the cleanup's name check; and an entry is judged stale only if its name
    passes, it is a real directory (no link or reparse point) and its last change lies
    at least 24 hours back. *)
Theorem stale_cleanup_correct transfer_id random entry f f' :
  random ≠ [] → forallb is_ascii_alphanumeric random = true →
  valid_transfer_directory_name (transfer_prefix transfer_id ++ random) = true ∧
  (is_stale_transfer entry f = (f', Ok true) →
   ∃ name md f1 modified, de_file_name entry = Some name ∧
     valid_transfer_directory_name name = true ∧
     symlink_metadata (de_path entry) f = (f1, Ok md) ∧
     md_is_dir md = true ∧ is_link_or_reparse md = false ∧ md_modified md = Some modified ∧
     (modified + 24 * 60 * 60 * 1000000000 <= (system_now f1).2)%N).
Proof.
  intros Hne Hal. split; [by apply transfer_name_valid|]. apply is_stale_transfer_true.
Qed.
End staging.

(** ** Witness: a directory last changed two days ago, on the file system in memory *)

Import MemFs.

Lemma stale_cleanup_correct_witness :
  let name := transfer_prefix 7 ++ MemFs.random_suffix in
  let entry := mk_dir_entry [name] (Some name) in
  let f := MemFs.mk_fs {[ [name] ]} ∅ ∅ 172800000000000 in
  valid_transfer_directory_name name = true ∧
  is_stale_transfer entry f = (f, Ok true) ∧
  ∃ md, symlink_metadata [name] f = (f, Ok md) ∧ md_is_dir md = true.
Proof.
  intros name entry f.
  assert (is_stale_transfer entry f = (f, Ok true)) as Hrun by (vm_compute; reflexivity).
  destruct (stale_cleanup_correct 7 MemFs.random_suffix entry f f) as [Hv Hall];
    [discriminate|reflexivity|].
  destruct (Hall Hrun) as (n & md & f1 & m & Hn & _ & Hmd & Hd & _).
  split; [exact Hv|]. split; [exact Hrun|]. exists md. split; [|exact Hd].
  injection Hmd as <- <-. reflexivity.
Defined.
