(* ===== verification/ClipTransfer.v ===== *)
(** * Fetching remote files

    rdp-helper/src/clipboard/remote.rs: one transfer asks the server for the size of
    each announced file and then for its ranges, one request at a time, and writes
    the answers into a staging directory.  Unsigned subtraction and indexing panic
    where the code's would.  The server may answer anything. *)

From S2P Require Import Prelude RdpProtocol ClipPath ClipLayout ClipFs ClipStaging.

Definition REMOTE_FILE_CHUNK_BYTES : N := 1024 * 1024.
Definition SIZE_REQUEST_BYTES : N := 8.

(** The file-contents messages of the RDP library: [flags] is a bit set. *)
Record FileContentsRequest := mk_contents_request {
  rq_stream_id : N;
  rq_index : Z;
  rq_flags : N;
  rq_position : N;
  rq_requested_size : N;
  rq_data_id : option N;
}.

Record FileContentsResponse := mk_contents_response {
  rs_stream_id : N;
  rs_is_error : bool;
  rs_data : bytes;
}.

(** The library's constants, and its encoding of a size in a response. *)
Class ContentsWire := {
  FLAG_SIZE : N;
  FLAG_RANGE : N;
  validate_flags : N → outcome string ();
  data_as_size : bytes → option N;
  size_data : N → bytes;
}.

Inductive PendingRemoteRequestKind := KindSize | KindRange (requested : N).

Record PendingRemoteRequest := mk_pending { pr_stream_id : N; pr_kind : PendingRemoteRequestKind }.

Inductive RemoteTransferAction :=
  | Request (request : FileContentsRequest)
  | Ready (paths : list text)
  | Ignore.

Section transfer.
Context `{OsPath P} `{!EqDecision P} `{FileSystem F P Handle} `{PathEnv} `{ContentsWire}.

Record RemoteTransferSettings := mk_settings {
  st_transfer_id : N;
  st_staging_root : P;
  st_clip_data_id : option N;
}.

Record RemoteClipboardTransfer := mk_transfer {
  transfer_id : N;
  clip_data_id : option N;
  staging : @TransferDirectory P;
  transfer_files : list RemoteFile;
  transfer_top_levels : list text;
  current_file : nat;
  expected_size : option N;
  offset : N;
  accounted_bytes : N;
  output_file : option Handle;
  pending : option PendingRemoteRequest;
}.

Abbreviation io A := (comp F string A) (only parsing).
(** A method on the transfer that may call the file system. *)
Abbreviation act A := (comp (RemoteClipboardTransfer * F) string A) (only parsing).

Definition on_fs {A} (m : io A) : act A := zoom snd (λ f s, (s.1, f)) m.
Definition update (f : RemoteClipboardTransfer → RemoteClipboardTransfer) : act () :=
  modify (λ s, (f s.1, s.2)).
Definition look {A} (f : RemoteClipboardTransfer → A) : act A := gets (λ s, f s.1).

Definition with_staging (t : RemoteClipboardTransfer) (d : TransferDirectory) :=
  mk_transfer (transfer_id t) (clip_data_id t) d (transfer_files t) (transfer_top_levels t)
    (current_file t) (expected_size t) (offset t) (accounted_bytes t) (output_file t) (pending t).
Definition with_position (t : RemoteClipboardTransfer) (file : nat) (size : option N) (off : N) :=
  mk_transfer (transfer_id t) (clip_data_id t) (staging t) (transfer_files t)
    (transfer_top_levels t) file size off (accounted_bytes t) (output_file t) (pending t).
Definition with_accounted (t : RemoteClipboardTransfer) (n : N) :=
  mk_transfer (transfer_id t) (clip_data_id t) (staging t) (transfer_files t)
    (transfer_top_levels t) (current_file t) (expected_size t) (offset t) n (output_file t)
    (pending t).
Definition with_output (t : RemoteClipboardTransfer) (h : option Handle) :=
  mk_transfer (transfer_id t) (clip_data_id t) (staging t) (transfer_files t)
    (transfer_top_levels t) (current_file t) (expected_size t) (offset t) (accounted_bytes t) h
    (pending t).
Definition with_pending (t : RemoteClipboardTransfer) (p : option PendingRemoteRequest) :=
  mk_transfer (transfer_id t) (clip_data_id t) (staging t) (transfer_files t)
    (transfer_top_levels t) (current_file t) (expected_size t) (offset t) (accounted_bytes t)
    (output_file t) p.

(** ** Creation *)

Fixpoint create_directories (root : P) (directories : list (list text)) : io () :=
  match directories with
  | [] => mret ()
  | directory :: rest =>
      context "remote clipboard staging directory could not be created"
        (create_dir (join_path root directory));;
      create_directories root rest
  end.

Definition create_output_file (root : P) (relative : list text) : io Handle :=
  context "remote clipboard staging file could not be created"
    (create_new (join_path root relative)).

Definition new_transfer (layout : RemoteClipboardLayout) (settings : RemoteTransferSettings)
    (d : TransferDirectory) : RemoteClipboardTransfer :=
  mk_transfer (st_transfer_id settings) (st_clip_data_id settings) d (files layout)
    (top_level_names layout) 0 None 0 0 None None.

(** On an error the staging directory is dropped. *)
Definition create (layout : RemoteClipboardLayout) (settings : RemoteTransferSettings)
    : io RemoteClipboardTransfer :=
  d ← create_transfer_directory (st_staging_root settings) (st_transfer_id settings);
  created ← attempt (create_directories (td_path d) (directories layout));
  match (created : string + ()) with
  | inl error => drop_transfer_directory d;; throw error
  | inr _ => mret (new_transfer layout settings d)
  end.

(** ** Requests *)

(** [self.files[self.current_file]] *)
Definition index_file : act RemoteFile := λ s,
  (s, match transfer_files s.1 !! current_file s.1 with Some f => Ok f | None => Panic end).

Definition complete : act RemoteTransferAction :=
  update (λ t, with_staging t (retain (staging t)));;
  look (λ t, Ready
    ((λ name, to_string_lossy (join_path (td_path (staging t)) [name])) <$> transfer_top_levels t)).

Definition request_size (stream_id : N) : act RemoteTransferAction :=
  update (λ t, with_pending t (Some (mk_pending stream_id KindSize)));;
  file ← index_file;
  data_id ← look clip_data_id;
  mret (Request (mk_contents_request stream_id (Z.of_N (descriptor_index file)) FLAG_SIZE 0
    SIZE_REQUEST_BYTES data_id)).

(** [a - b] on [u64]: a panic, in a debug build, when it would be negative. *)
Definition checked_sub (a b : N) : outcome string N :=
  if (b <=? a)%N then Ok (a - b)%N else Panic.

Definition request_range (stream_id : N) : act RemoteTransferAction :=
  expected ← look expected_size;
  off ← look offset;
  remaining ← lift_outcome (checked_sub (default 0%N expected) off);
  let requested := N.min remaining REMOTE_FILE_CHUNK_BYTES in
  update (λ t, with_pending t (Some (mk_pending stream_id (KindRange requested))));;
  file ← index_file;
  data_id ← look clip_data_id;
  mret (Request (mk_contents_request stream_id (Z.of_N (descriptor_index file)) FLAG_RANGE off
    requested data_id)).

Definition start (stream_id : N) : act RemoteTransferAction :=
  fs ← look transfer_files;
  match (fs : list RemoteFile) with
  | [] => complete
  | _ => request_size stream_id
  end.

(** ** Responses *)

Definition current_remote_file : act RemoteFile := λ s,
  (s, of_option "remote clipboard file index is invalid"%string
        (transfer_files s.1 !! current_file s.1)).

(** The sum is stored before it is checked. *)
Definition account_size (size : N) : act () :=
  require (size <=? MAX_SINGLE_FILE_BYTES)%N "remote clipboard file exceeds the single-file limit";;
  accounted ← look accounted_bytes;
  total ← lift_outcome (of_option "remote clipboard transfer size overflow"%string
    (checked_add u64_max accounted size));
  update (λ t, with_accounted t total);;
  require (total <=? MAX_TOTAL_TRANSFER_BYTES)%N
    "remote clipboard transfer exceeds the total size limit".

Definition finish_file (next_stream_id : N) : act RemoteTransferAction :=
  handle ← look output_file;
  update (λ t, with_output t None);;
  (match (handle : option Handle) with
   | Some file => on_fs (flush_file file)
   | None => mret ()
   end);;
  update (λ t, with_position t (S (current_file t)) None 0);;
  finished ← look (λ t, current_file t =? length (transfer_files t))%nat;
  match (finished : bool) with
  | true => complete
  | false => request_size next_stream_id
  end.

Definition accept_size (response : FileContentsResponse) (next_stream_id : N)
    : act RemoteTransferAction :=
  size ← lift_outcome (of_option "remote clipboard size response is invalid"%string
    (data_as_size (rs_data response)));
  file ← current_remote_file;
  (match advertised_size file with
   | Some advertised => require (advertised =? size)%N "remote clipboard file size changed"
   | None => mret ()
   end);;
  account_size size;;
  d ← look staging;
  handle ← on_fs (create_output_file (td_path d) (relative_path file));
  update (λ t, with_output t (Some handle));;
  update (λ t, with_position t (current_file t) (Some size) 0);;
  match (size =? 0)%N with
  | true => finish_file next_stream_id
  | false => request_range next_stream_id
  end.

Definition accept_range (data : bytes) (requested : N) (next_stream_id : N)
    : act RemoteTransferAction :=
  size ← look expected_size;
  expected ← lift_outcome (of_option "remote clipboard file size is missing"%string size);
  require (negb (bool_decide (data = []))) "remote clipboard returned an empty file chunk";;
  require (N.of_nat (length data) <=? requested)%N
    "remote clipboard returned an oversized file chunk";;
  off ← look offset;
  next_offset ← lift_outcome (of_option "remote clipboard file offset overflow"%string
    (checked_add u64_max off (N.of_nat (length data))));
  require (next_offset <=? expected)%N "remote clipboard file exceeds its size";;
  output ← look output_file;
  handle ← lift_outcome (of_option "remote clipboard staging file is missing"%string output);
  on_fs (write_all handle data);;
  update (λ t, with_position t (current_file t) (expected_size t) next_offset);;
  match (next_offset =? expected)%N with
  | true => finish_file next_stream_id
  | false => request_range next_stream_id
  end.

Definition advance (response : FileContentsResponse) (next_stream_id : N)
    : act RemoteTransferAction :=
  waiting ← look pending;
  match (waiting : option PendingRemoteRequest) with
  | None => mret Ignore
  | Some waiting =>
      if negb (pr_stream_id waiting =? rs_stream_id response)%N then mret Ignore
      else
        update (λ t, with_pending t None);;
        require (negb (rs_is_error response)) "remote clipboard file request failed";;
        match pr_kind waiting with
        | KindSize => accept_size response next_stream_id
        | KindRange requested => accept_range (rs_data response) requested next_stream_id
        end
  end.

(** Dropping a transfer drops its staging directory (and closes its file). *)
Definition drop_transfer (t : RemoteClipboardTransfer) : io () :=
  drop_transfer_directory (staging t).

(** ** Safety, whatever the server answers *)

(** File calls return a result. *)
Class FilesReturn := {
  create_new_returns p f : (create_new (Handle:=Handle) p f).2 ≠ Panic;
  write_all_returns (h : Handle) data f : (write_all h data f).2 ≠ Panic;
  flush_returns (h : Handle) f : (flush_file h f).2 ≠ Panic;
}.

(** Between calls: what has been read fits the file, and the sums fit the limits. *)
Record within_limits (t : RemoteClipboardTransfer) : Prop := {
  wl_expected size : expected_size t = Some size →
    (offset t <= size)%N ∧ (size <= MAX_SINGLE_FILE_BYTES)%N;
  wl_accounted : (accounted_bytes t <= MAX_TOTAL_TRANSFER_BYTES)%N;
}.

(** The outstanding request belongs to the current file. *)
Definition outstanding_ok (t : RemoteClipboardTransfer) : Prop :=
  match pending t with
  | None => True
  | Some (mk_pending _ KindSize) => current_file t < length (transfer_files t)
  | Some (mk_pending _ (KindRange requested)) =>
      current_file t < length (transfer_files t) ∧
      ∃ size, expected_size t = Some size ∧ (offset t < size)%N ∧
        requested = N.min (size - offset t) REMOTE_FILE_CHUNK_BYTES
  end.

(** A request asks for the size, or for a range inside the size, of the current file. *)
Definition request_ok (t : RemoteClipboardTransfer) (q : FileContentsRequest) : Prop :=
  rq_data_id q = clip_data_id t ∧
  (∃ file, transfer_files t !! current_file t = Some file ∧ rq_index q = Z.of_N (descriptor_index file)) ∧
  ((pending t = Some (mk_pending (rq_stream_id q) KindSize) ∧
    rq_flags q = FLAG_SIZE ∧ rq_position q = 0%N ∧ rq_requested_size q = 8%N) ∨
   (pending t = Some (mk_pending (rq_stream_id q) (KindRange (rq_requested_size q))) ∧
    rq_flags q = FLAG_RANGE ∧ rq_position q = offset t ∧
    (0 < rq_requested_size q)%N ∧ (rq_requested_size q <= 1048576)%N ∧
    ∃ size, expected_size t = Some size ∧ (rq_position q + rq_requested_size q <= size)%N)).

Definition action_ok (t : RemoteClipboardTransfer) (a : RemoteTransferAction) : Prop :=
  match a with
  | Request q => request_ok t q
  | Ready paths => retained (staging t) = true ∧
      paths = (λ name, to_string_lossy (join_path (td_path (staging t)) [name])) <$>
                transfer_top_levels t
  | Ignore => True
  end.

Definition sound (s : RemoteClipboardTransfer * F) (a : RemoteTransferAction) : Prop :=
  within_limits s.1 ∧ outstanding_ok s.1 ∧ action_ok s.1 a.

Abbreviation steps P m := (safely P m (λ a s, sound s a)) (only parsing).

Lemma complete_safe : steps (λ s, within_limits s.1 ∧ outstanding_ok s.1) complete.
Proof.
  intros [t f] [[Hw1 Hw2] Ho]. split; [by split|]. split; [exact Ho|]. by split.
Qed.

Lemma request_size_safe sid :
  steps (λ s, within_limits s.1 ∧ current_file s.1 < length (transfer_files s.1))
    (request_size sid).
Proof.
  intros [t f] [[Hw1 Hw2] Hc]. simpl in *. unfold request_size, index_file.
  destruct (lookup_lt_is_Some_2 _ _ Hc) as [file Hf]. unfold mbind, comp_bind. simpl.
  rewrite Hf. split; [by split|]. split; [exact Hc|]. split; [done|].
  split; [by exists file|by left].
Qed.

Lemma request_range_safe sid :
  steps (λ s, within_limits s.1 ∧ current_file s.1 < length (transfer_files s.1) ∧
              ∃ size, expected_size s.1 = Some size ∧ (offset s.1 < size)%N)
    (request_range sid).
Proof.
  intros [t f] ([Hw1 Hw2] & Hc & size & Hs & Ho). simpl in *.
  destruct (lookup_lt_is_Some_2 _ _ Hc) as [file Hf].
  unfold request_range, index_file, mbind, comp_bind. simpl. rewrite Hs. simpl.
  unfold lift_outcome, checked_sub. rewrite (proj2 (N.leb_le (offset t) size)) by lia.
  simpl. rewrite Hf. split; [by split|]. simpl. unfold outstanding_ok. simpl.
  split; [split; [done|by exists size]|]. split; [done|]. split; [by exists file|].
  right. unfold REMOTE_FILE_CHUNK_BYTES. simpl. split_and!; try done; try lia.
  exists size. split; [done|]. lia.
Qed.

Lemma with_position_limits t n size off :
  within_limits t → (∀ z, size = Some z → (off <= z)%N ∧ (z <= MAX_SINGLE_FILE_BYTES)%N) →
  within_limits (with_position t n size off).
Proof. intros [Hw1 Hw2] Hs. by split. Qed.

Context `{!FilesReturn}.

(** A file call changes nothing of the transfer. *)
Lemma on_fs_safe {A} (m : io A) (Q : RemoteClipboardTransfer → Prop) :
  (∀ f, (m f).2 ≠ Panic) → safely (λ s, Q s.1) (on_fs m) (λ _ s, Q s.1).
Proof.
  intros Hm. apply safely_zoom. intros [t f] Hq. simpl. specialize (Hm f).
  destruct (m f) as [f' [a|e|]]; done.
Qed.

Lemma finish_file_safe sid :
  steps (λ s, within_limits s.1 ∧ current_file s.1 < length (transfer_files s.1) ∧
              pending s.1 = None) (finish_file sid).
Proof.
  set (Q t := within_limits t ∧ current_file t < length (transfer_files t) ∧ pending t = None).
  unfold finish_file.
  eapply safely_bind; [apply (safely_gets (λ s, Q s.1))|intros handle].
  eapply safely_bind; [apply (safely_modify _ _ (λ _ s, Q s.1))|intros []].
  { intros [t f] [_ (Hw & Hc & Hp)]. simpl in *. destruct Hw. by split_and!. }
  eapply safely_bind with (R := λ _ s, Q s.1).
  { destruct handle; [apply on_fs_safe, flush_returns|by apply safely_ret]. }
  intros []. eapply safely_bind; [apply (safely_modify _ _ (λ _ s, within_limits s.1 ∧
    pending s.1 = None ∧ current_file s.1 ≤ length (transfer_files s.1)))|intros []].
  { intros [t f] (Hw & Hc & Hp). simpl in *. split_and!; [by apply with_position_limits|done|lia]. }
  eapply safely_bind; [apply safely_gets|intros finished].
  destruct finished.
  - eapply safely_weaken; [apply complete_safe| |done]. intros [t f] (_ & Hw & Hp & _).
    split; [done|]. unfold outstanding_ok. simpl in *. by rewrite Hp.
  - eapply safely_weaken; [apply request_size_safe| |done]. intros [t f] (Hfin & Hw & Hp & Hc).
    simpl in *. split; [done|]. symmetry in Hfin. bool_to_prop. lia.
Qed.

Lemma require_safe {S} (Q : S → Prop) b message :
  safely Q (require b message) (λ _ s, b = true ∧ Q s).
Proof. intros s Hs. destruct b; simpl; [by split|done]. Qed.

(** The state between the parts of [advance]: no request is outstanding. *)
Definition idle (t : RemoteClipboardTransfer) : Prop :=
  within_limits t ∧ current_file t < length (transfer_files t) ∧ pending t = None.

Lemma account_size_safe size :
  safely (λ s, idle s.1) (account_size size)
    (λ _ s, (size <= MAX_SINGLE_FILE_BYTES)%N ∧ idle s.1).
Proof.
  intros [t f] ([Hw1 Hw2] & Hc & Hp). simpl in *. unfold account_size, mbind, comp_bind. simpl.
  destruct (N.leb_spec size MAX_SINGLE_FILE_BYTES) as [Hs|]; simpl; [|done].
  unfold lift_outcome, of_option. destruct (checked_add _ _ _) as [total|] eqn:Ha; simpl; [|done].
  destruct (N.leb_spec total MAX_TOTAL_TRANSFER_BYTES) as [Ht|]; simpl; [|done].
  split; [done|]. split; [by split|done].
Qed.

Lemma accept_size_safe response sid : steps (λ s, idle s.1) (accept_size response sid).
Proof.
  unfold accept_size.
  eapply safely_bind; [apply safely_lift; by destruct (data_as_size _)|intros size].
  eapply safely_bind with (R := λ _ s, idle s.1).
  { intros [t f] [_ (Hw & Hc & Hp)]. simpl in *. unfold current_remote_file. simpl.
    destruct (lookup_lt_is_Some_2 _ _ Hc) as [file ->]. simpl. done. }
  intros file. eapply safely_bind with (R := λ _ s, idle s.1).
  { destruct (advertised_size file); [|by apply safely_ret].
    eapply safely_weaken; [apply (require_safe (λ s, idle s.1))|done|]. by intros [] ? [_ ?]. }
  intros []. eapply safely_bind; [apply account_size_safe|intros []].
  apply safely_pure. intros Hsize.
  eapply safely_bind; [apply safely_gets|intros d].
  eapply safely_bind with (R := λ _ s, idle s.1).
  { eapply safely_weaken; [apply (on_fs_safe _ idle)|by intros s [_ ?]|done].
    intros f. unfold create_output_file, context, map_err_comp. simpl.
    pose proof (create_new_returns (join_path (td_path d) (relative_path file)) f) as Hn.
    by destruct (create_new _ f) as [? []]. }
  intros handle. eapply safely_bind; [apply (safely_modify _ _ (λ _ s, idle s.1))|intros []].
  { intros [t f] ([Hw1 Hw2] & Hc & Hp). split; [by split|done]. }
  eapply safely_bind; [apply (safely_modify _ _ (λ _ s, idle s.1 ∧
    expected_size s.1 = Some size ∧ offset s.1 = 0%N))|intros []].
  { intros [t f] (Hw & Hc & Hp). split; [|done]. split_and!; [|done..].
    apply with_position_limits; [done|]. intros z [= <-]. lia. }
  destruct (N.eqb_spec size 0) as [->|Hne].
  - eapply safely_weaken; [apply finish_file_safe|by intros ? [? _]|done].
  - eapply safely_weaken; [apply request_range_safe| |done].
    intros [t f] ((Hw & Hc & Hp) & He & Ho). simpl in *. split_and!; try done.
    exists size. split; [done|]. rewrite Ho. lia.
Qed.

Lemma accept_range_safe data requested sid :
  steps (λ s, idle s.1) (accept_range data requested sid).
Proof.
  unfold accept_range.
  eapply safely_bind; [apply safely_gets|intros size].
  eapply safely_bind; [apply safely_lift; by destruct size|intros expected].
  apply safely_pure. intros Hsize. destruct size as [size|]; [|done]. injection Hsize as ->.
  eapply safely_bind; [apply require_safe|intros []]. apply safely_pure. intros _.
  eapply safely_bind; [apply require_safe|intros []]. apply safely_pure. intros _.
  eapply safely_bind; [apply safely_gets|intros off].
  eapply safely_bind; [apply safely_lift; by destruct (checked_add _ _ _)|intros next_offset].
  apply safely_pure. intros _.
  eapply safely_bind; [apply require_safe|intros []]. apply safely_pure. intros Hle.
  eapply safely_bind; [apply safely_gets|intros output].
  eapply safely_bind; [apply safely_lift; by destruct output|intros handle].
  eapply safely_bind with (R := λ _ s, Some expected = expected_size s.1 ∧ idle s.1).
  { eapply safely_weaken;
      [apply (on_fs_safe _ (λ t, Some expected = expected_size t ∧ idle t)), write_all_returns| |done].
    by intros s (_ & _ & _ & ? & ?). }
  intros []. bool_to_prop.
  eapply safely_bind; [apply (safely_modify _ _ (λ _ s, idle s.1 ∧
    expected_size s.1 = Some expected ∧ offset s.1 = next_offset))|intros []].
  { intros [t f] (He & Hw & Hc & Hp). simpl in *. split; [|done]. split_and!; [|done..].
    apply with_position_limits; [done|]. intros z Hz. rewrite <-He in Hz. injection Hz as <-.
    split; [done|]. by eapply wl_expected. }
  destruct (N.eqb_spec next_offset expected) as [->|Hne].
  - eapply safely_weaken; [apply finish_file_safe|by intros ? [? _]|done].
  - eapply safely_weaken; [apply request_range_safe| |done].
    intros [t f] ((Hw & Hc & Hp) & He & Ho). simpl in *. split_and!; try done.
    exists expected. split; [done|]. rewrite Ho. lia.
Qed.

Lemma advance_safe response sid :
  steps (λ s, within_limits s.1 ∧ outstanding_ok s.1) (advance response sid).
Proof.
  unfold advance. eapply safely_bind; [apply safely_gets|intros waiting].
  destruct waiting as [waiting|].
  2: { apply safely_ret. intros s (_ & ? & ?). by split. }
  destruct (negb _); [apply safely_ret; intros s (_ & ? & ?); by split|].
  eapply safely_bind; [apply (safely_modify _ _ (λ _ s, idle s.1))|intros []].
  { intros [t f] (Hp & [Hw1 Hw2] & Ho). simpl in *. split; [by split|]. split; [|done].
    unfold outstanding_ok in Ho. rewrite <-Hp in Ho. simpl.
    destruct waiting as [? []]; [done|by destruct Ho]. }
  eapply safely_bind; [apply require_safe|intros []]. apply safely_pure. intros _.
  destruct (pr_kind waiting); [apply accept_size_safe|apply accept_range_safe].
Qed.

(** Whatever is called, a transfer keeps its id. *)
Definition keeps_id {A} (m : act A) : Prop :=
  ∀ id, run_ensures (λ s, transfer_id s.1 = id) m (λ s _, transfer_id s.1 = id).

Lemma keeps_id_bind {A B} (m : act A) (k : A → act B) :
  keeps_id m → (∀ a, keeps_id (k a)) → keeps_id (m ≫= k).
Proof. intros Hm Hk id. apply run_ensures_bind; [apply Hm|intros a; apply Hk]. Qed.

Ltac keep_id :=
  repeat first
    [apply keeps_id_bind; [|intros ?]
    |match goal with |- context [match ?x with _ => _ end] => destruct x end
    |by intros ? [? ?]].

Lemma complete_keeps_id : keeps_id complete.
Proof. unfold complete, update, look. keep_id. Qed.

Lemma request_size_keeps_id sid : keeps_id (request_size sid).
Proof. unfold request_size, index_file, update, look. keep_id. Qed.

Lemma request_range_keeps_id sid : keeps_id (request_range sid).
Proof. unfold request_range, index_file, update, look, lift_outcome. keep_id. Qed.

Lemma finish_file_keeps_id sid : keeps_id (finish_file sid).
Proof.
  unfold finish_file, update, look, on_fs, zoom.
  pose proof complete_keeps_id. pose proof (request_size_keeps_id sid). by keep_id.
Qed.

Lemma start_keeps_id sid : keeps_id (start sid).
Proof.
  unfold start, look. pose proof complete_keeps_id. pose proof (request_size_keeps_id sid).
  by keep_id.
Qed.

Lemma advance_keeps_id response sid : keeps_id (advance response sid).
Proof.
  unfold advance, accept_size, accept_range, account_size, current_remote_file, update, look,
    on_fs, zoom, require, lift_outcome.
  pose proof (finish_file_keeps_id sid). pose proof (request_range_keeps_id sid). by keep_id.
Qed.

(** A conversation: the transfer starts, and then takes responses, whatever they are
    and whatever else happens to the file system in between. *)
Inductive talk (layout : RemoteClipboardLayout) (settings : RemoteTransferSettings)
    (d : TransferDirectory) : RemoteClipboardTransfer * F → RemoteTransferAction → Prop :=
  | talk_start f sid s a :
      start sid (new_transfer layout settings d, f) = (s, Ok a) → talk layout settings d s a
  | talk_next t f a response sid f' s' a' :
      talk layout settings d (t, f) a →
      advance response sid (t, f') = (s', Ok a') → talk layout settings d s' a'.

Lemma start_safe sid :
  steps (λ s, within_limits s.1 ∧ pending s.1 = None ∧ current_file s.1 = 0) (start sid).
Proof.
  unfold start. eapply safely_bind; [apply safely_gets|intros fs]. destruct fs as [|file fs].
  - eapply safely_weaken; [apply complete_safe| |done]. intros [t f] (_ & Hw & Hp & _).
    simpl in *. split; [done|]. unfold outstanding_ok. by rewrite Hp.
  - eapply safely_weaken; [apply request_size_safe| |done]. intros [t f] (Hf & Hw & Hp & Hc).
    simpl in *. split; [done|]. rewrite Hc, <-Hf. simpl. lia.
Qed.

Lemma talk_sound layout settings d s a : talk layout settings d s a → sound s a.
Proof.
  induction 1 as [f sid s a Hs|t f a r sid f' s' a' _ IH Ha].
  - refine (safely_ok _ _ (λ a s, sound s a) _ _ _ (start_safe sid) _ Hs).
    split; [split; [done|]|done]. unfold MAX_TOTAL_TRANSFER_BYTES. simpl. lia.
  - destruct IH as (Hw & Ho & _). 
    by refine (safely_ok _ _ (λ a s, sound s a) _ _ _ (advance_safe r sid) _ Ha).
Qed.

(** C12: a hostile server cannot lead a transfer astray.  In every conversation,
    whatever the responses and the file system do as long as file calls return: no
    response makes the transfer panic; each request it makes is for the size of the
    current file, or for a non-empty range of at most 1 MiB that lies inside the size
    the server gave, which is at most 16 GiB; the accounted bytes stay within 64 GiB;
    a response to another request than the outstanding one changes nothing; and files
    are reported ready only with the directory kept. *)
Theorem transfer_conversation_safe layout settings d t f a :
  talk layout settings d (t, f) a →
  action_ok t a ∧ (accounted_bytes t <= 68719476736)%N ∧
  (∀ size, expected_size t = Some size → (offset t <= size)%N ∧ (size <= 17179869184)%N) ∧
  ∀ response sid f',
    (advance response sid (t, f')).2 ≠ Panic ∧
    ((∀ w, pending t = Some w → pr_stream_id w ≠ rs_stream_id response) →
     advance response sid (t, f') = ((t, f'), Ok Ignore)).
Proof.
  intros (Hw & Ho & Ha)%talk_sound. simpl in *. pose proof Hw as [Hw1 Hw2].
  split; [done|]. split; [done|]. split; [done|]. intros response sid f'. split.
  - pose proof (advance_safe response sid (t, f') (conj Hw Ho)) as Hs. intros Hp.
    by rewrite Hp in Hs.
  - intros Hother. unfold advance, mbind, comp_bind. simpl.
    destruct (pending t) as [w|] eqn:Hpend; [|done].
    rewrite (proj2 (N.eqb_neq _ _)) by (by apply Hother). done.
Qed.

(** ** Completion, with a server that answers *)

(** A file system on which the calls a transfer needs succeed: [stored] is what a
    path holds, [writable] where files can be created. *)
Class StoreLaws (stored : F → P → option bytes) (handle_path : Handle → P)
    (writable : P → Prop) := {
  store_create p f : writable p → stored f p = None →
    ∃ f' h, create_new p f = (f', Ok h) ∧ handle_path h = p ∧ stored f' p = Some [] ∧
      ∀ q, q ≠ p → stored f' q = stored f q;
  store_write h data f old : stored f (handle_path h) = Some old →
    ∃ f', write_all h data f = (f', Ok ()) ∧
      stored f' (handle_path h) = Some (old ++ data) ∧
      ∀ q, q ≠ handle_path h → stored f' q = stored f q;
  store_flush h f : ∃ f', flush_file h f = (f', Ok ()) ∧ ∀ q, stored f' q = stored f q;
}.

Class ContentsLaws := {
  flags_differ : FLAG_SIZE ≠ FLAG_RANGE;
  size_roundtrip n : (n <= u64_max)%N → data_as_size (size_data n) = Some n;
}.

Section completion.
Context `{!StoreLaws stored handle_path writable} `{!ContentsLaws}.
(** The content of each announced file, by its descriptor. *)
Context (source : N → bytes).

Abbreviation size_of file := (N.of_nat (length (source (descriptor_index file)))) (only parsing).

(** The server answers a size request with the size, and a range request inside the
    file with a non-empty part of the range from its start. *)
Definition answers (q : FileContentsRequest) (r : FileContentsResponse) : Prop :=
  rs_stream_id r = rq_stream_id q ∧ rs_is_error r = false ∧
  (rq_flags q = FLAG_SIZE →
   rs_data r = size_data (N.of_nat (length (source (Z.to_N (rq_index q)))))) ∧
  (rq_flags q = FLAG_RANGE →
   (0 < rq_requested_size q)%N →
   (rq_position q + rq_requested_size q <= N.of_nat (length (source (Z.to_N (rq_index q)))))%N →
   ∃ k, 0 < k ∧ (N.of_nat k <= rq_requested_size q)%N ∧
     rs_data r = take k (drop (N.to_nat (rq_position q)) (source (Z.to_N (rq_index q))))).

(** Requests go to the server, responses to the transfer, at most [fuel] times. *)
Fixpoint converse (fuel : nat) (server : FileContentsRequest → FileContentsResponse)
    (next_stream_id : nat → N) (a : RemoteTransferAction) : act RemoteTransferAction :=
  match fuel, a with
  | S fuel', Request q =>
      a' ← advance (server q) (next_stream_id fuel);
      converse fuel' server next_stream_id a'
  | _, a => mret a
  end.

Context (server : FileContentsRequest → FileContentsResponse) (next_stream_id : nat → N).
Context (Hserver : ∀ q, answers q (server q)).
Context (id : N) (clip : option N) (d : @TransferDirectory P) (fl : list RemoteFile)
  (tops : list text).

Abbreviation path_of file := (join_path (td_path d) (relative_path file)) (only parsing).

(** The transfer before the size of the file after [done_] is known, and inside it. *)
Definition asking_size (done_ : list RemoteFile) (accounted : N) (sid : N)
    : RemoteClipboardTransfer :=
  mk_transfer id clip d fl tops (length done_) None 0 accounted None
    (Some (mk_pending sid KindSize)).

Definition asking_range (done_ : list RemoteFile) (size off accounted : N) (h : Handle)
    (sid : N) : RemoteClipboardTransfer :=
  mk_transfer id clip d fl tops (length done_) (Some size) off accounted (Some h)
    (Some (mk_pending sid (KindRange (N.min (size - off) REMOTE_FILE_CHUNK_BYTES)))).

Definition size_question (file : RemoteFile) (sid : N) : FileContentsRequest :=
  mk_contents_request sid (Z.of_N (descriptor_index file)) FLAG_SIZE 0 SIZE_REQUEST_BYTES clip.

Definition range_question (file : RemoteFile) (size off sid : N) : FileContentsRequest :=
  mk_contents_request sid (Z.of_N (descriptor_index file)) FLAG_RANGE off
    (N.min (size - off) REMOTE_FILE_CHUNK_BYTES) clip.

Fixpoint sizes (files : list RemoteFile) : N :=
  match files with [] => 0 | file :: rest => (size_of file + sizes rest)%N end.

(** Files done hold their content, files to come do not exist yet. *)
Definition stores (done_ rest : list RemoteFile) (f : F) : Prop :=
  (∀ file, file ∈ done_ → stored f (path_of file) = Some (source (descriptor_index file))) ∧
  (∀ file, file ∈ rest → stored f (path_of file) = None).

(** What the announced files need to satisfy for the transfer to accept them. *)
Record fetchable : Prop := {
  ft_writable file : file ∈ fl → writable (path_of file);
  ft_distinct : NoDup ((λ file, path_of file) <$> fl);
  ft_advertised file n : file ∈ fl → advertised_size file = Some n → n = size_of file;
  ft_single file : file ∈ fl → (size_of file <= MAX_SINGLE_FILE_BYTES)%N;
  ft_total : (sizes fl <= MAX_TOTAL_TRANSFER_BYTES)%N;
}.

Context (Hfetch : fetchable).

Lemma sizes_app l1 l2 : sizes (l1 ++ l2) = (sizes l1 + sizes l2)%N.
Proof. induction l1 as [|x l1 IH]; simpl; [done|]. rewrite IH. lia. Qed.

Definition all_ready : RemoteClipboardTransfer → RemoteTransferAction → Prop := λ t a,
  a = Ready ((λ name, to_string_lossy (join_path (td_path d) [name])) <$> tops) ∧
  retained (staging t) = true ∧ transfer_files t = fl.

Lemma request_size_run t f sid file :
  transfer_files t !! current_file t = Some file →
  request_size sid (t, f) =
    ((with_pending t (Some (mk_pending sid KindSize)), f),
     Ok (Request (mk_contents_request sid (Z.of_N (descriptor_index file)) FLAG_SIZE 0
                    SIZE_REQUEST_BYTES (clip_data_id t)))).
Proof.
  intros Hf. unfold request_size, index_file, mbind, comp_bind. simpl. by rewrite Hf.
Qed.

Lemma request_range_run t f sid file size :
  transfer_files t !! current_file t = Some file →
  expected_size t = Some size → (offset t <= size)%N →
  request_range sid (t, f) =
    ((with_pending t (Some (mk_pending sid
        (KindRange (N.min (size - offset t) REMOTE_FILE_CHUNK_BYTES)))), f),
     Ok (Request (mk_contents_request sid (Z.of_N (descriptor_index file)) FLAG_RANGE (offset t)
                    (N.min (size - offset t) REMOTE_FILE_CHUNK_BYTES) (clip_data_id t)))).
Proof.
  intros Hf Hs Ho. unfold request_range, index_file, mbind, comp_bind. simpl. rewrite Hs. simpl.
  unfold lift_outcome, checked_sub. rewrite (proj2 (N.leb_le _ _)) by done. simpl. by rewrite Hf.
Qed.

(** After a file is finished: the next size question, or all is ready. *)
Lemma finish_file_next done_ file rest accounted h size off sid f :
  fl = done_ ++ file :: rest →
  stores (done_ ++ [file]) rest f →
  ∃ t' f' a,
    finish_file sid
      (mk_transfer id clip d fl tops (length done_) size off accounted h None, f) =
      ((t', f'), Ok a) ∧
    stores (done_ ++ [file]) rest f' ∧
    match rest with
    | [] => all_ready t' a
    | next :: _ => t' = asking_size (done_ ++ [file]) accounted sid ∧
                   a = Request (size_question next sid)
    end.
Proof.
  intros Hfl Hst. unfold finish_file, mbind, comp_bind. simpl.
  assert (∃ f', (match h with Some file0 => on_fs (flush_file file0) | None => mret () end)
    (with_output (mk_transfer id clip d fl tops (length done_) size off accounted h None) None, f) =
    ((with_output (mk_transfer id clip d fl tops (length done_) size off accounted h None) None, f'),
     Ok ()) ∧ stores (done_ ++ [file]) rest f') as (f' & Hfl' & Hst').
  { destruct h as [h|]; [|by exists f]. destruct (store_flush h f) as (f' & Hf & Hq).
    exists f'. unfold on_fs, zoom. simpl. rewrite Hf. split; [done|].
    destruct Hst as [Hs1 Hs2]. split; intros x Hx; rewrite Hq; auto. }
  assert (length fl = S (length done_ + length rest)) as Hlen
    by (rewrite Hfl, length_app; simpl; lia).
  rewrite Hfl'. simpl. rewrite Hlen.
  destruct rest as [|next rest].
  - rewrite Nat.add_0_r, Nat.eqb_refl. simpl.
    eexists _, f', _. split; [reflexivity|]. by split.
  - rewrite (proj2 (Nat.eqb_neq _ _)) by (simpl; lia). simpl.
    assert (fl !! S (length done_) = Some next) as Hnext.
    { rewrite Hfl. rewrite lookup_app_r by lia.
      replace (S (length done_) - length done_) with 1 by lia. done. }
    rewrite (request_size_run _ _ _ next) by exact Hnext.
    eexists _, f', _. split; [reflexivity|].
    split; [done|]. split; [|done]. unfold asking_size. rewrite length_app. simpl.
    by rewrite Nat.add_1_r.
Qed.

(** The paths of the files are distinct. *)
Lemma paths_distinct done_ file rest x :
  fl = done_ ++ file :: rest → x ∈ done_ ∨ x ∈ rest → path_of x ≠ path_of file.
Proof.
  intros Hfl Hx Heq. pose proof (ft_distinct Hfetch) as Hnd. rewrite Hfl, fmap_app in Hnd.
  apply NoDup_app in Hnd as (_ & Hd & Hr). apply NoDup_cons in Hr as [Hr _].
  destruct Hx as [Hx|Hx].
  - apply (Hd (path_of x)); [apply list_elem_of_fmap; by exists x|]. rewrite Heq. by left.
  - apply Hr. rewrite <-Heq. apply (list_elem_of_fmap (λ file, path_of file)). by exists x.
Qed.

Lemma stores_unchanged done_ rest f f' p :
  stores done_ rest f → (∀ q, q ≠ p → stored f' q = stored f q) →
  (∀ x, x ∈ done_ ∨ x ∈ rest → path_of x ≠ p) → stores done_ rest f'.
Proof.
  intros [Hs1 Hs2] Hq Hp.
  split; intros x Hx; rewrite Hq by (apply Hp; auto); auto.
Qed.

Lemma stores_finished done_ file rest f :
  stores done_ rest f → stored f (path_of file) = Some (source (descriptor_index file)) →
  stores (done_ ++ [file]) rest f.
Proof.
  intros [Hs1 Hs2] Hf. split; [|done]. intros x. rewrite elem_of_app, list_elem_of_singleton.
  intros [?| ->]; auto.
Qed.

Lemma current_lookup done_ file rest : fl = done_ ++ file :: rest → fl !! length done_ = Some file.
Proof. intros ->. rewrite lookup_app_r by lia. by rewrite Nat.sub_diag. Qed.

(** The file after [done_] is complete. *)
Definition finished (done_ : list RemoteFile) (file : RemoteFile) (rest : list RemoteFile)
    (sid : N) (t : RemoteClipboardTransfer) (f : F) (a : RemoteTransferAction) : Prop :=
  stores (done_ ++ [file]) rest f ∧
  match rest with
  | [] => all_ready t a
  | next :: _ => t = asking_size (done_ ++ [file]) (sizes (done_ ++ [file])) sid ∧
                 a = Request (size_question next sid)
  end.

(** The range from [off] on is asked for. *)
Definition fetching (done_ : list RemoteFile) (file : RemoteFile) (rest : list RemoteFile)
    (off sid : N) (t : RemoteClipboardTransfer) (f : F) (a : RemoteTransferAction) : Prop :=
  (off < size_of file)%N ∧ stores done_ rest f ∧
  ∃ h, t = asking_range done_ (size_of file) off (sizes (done_ ++ [file])) h sid ∧
    a = Request (range_question file (size_of file) off sid) ∧
    handle_path h = path_of file ∧
    stored f (path_of file) = Some (take (N.to_nat off) (source (descriptor_index file))).

Lemma account_size_run done_ file rest h p f :
  fl = done_ ++ file :: rest →
  account_size (size_of file)
    (mk_transfer id clip d fl tops (length done_) None 0 (sizes done_) h p, f) =
  ((mk_transfer id clip d fl tops (length done_) None 0 (sizes (done_ ++ [file])) h p, f), Ok ()).
Proof.
  intros Hfl. assert (file ∈ fl) as Hin by (rewrite Hfl; apply elem_of_app; right; left).
  pose proof (ft_single Hfetch file Hin) as Hsingle. pose proof (ft_total Hfetch) as Htotal.
  rewrite Hfl, sizes_app in Htotal. simpl in Htotal. rewrite sizes_app. simpl.
  unfold account_size, mbind, comp_bind. simpl.
  rewrite (proj2 (N.leb_le _ _)) by done. simpl. unfold lift_outcome, checked_add.
  rewrite (proj2 (N.leb_le _ u64_max))
    by (unfold MAX_TOTAL_TRANSFER_BYTES in *; simpl in *; lia). simpl.
  rewrite (proj2 (N.leb_le _ MAX_TOTAL_TRANSFER_BYTES)) by lia. simpl.
  unfold with_accounted. simpl. by rewrite N.add_0_r.
Qed.

Lemma size_step done_ file rest sid sid' f :
  fl = done_ ++ file :: rest → stores done_ (file :: rest) f →
  ∃ t' f' a,
    advance (server (size_question file sid)) sid' (asking_size done_ (sizes done_) sid, f) =
      ((t', f'), Ok a) ∧
    (finished done_ file rest sid' t' f' a ∨ fetching done_ file rest 0 sid' t' f' a).
Proof.
  intros Hfl Hst. assert (file ∈ fl) as Hin by (rewrite Hfl; apply elem_of_app; right; left).
  pose proof (ft_single Hfetch file Hin) as Hsingle.
  destruct (Hserver (size_question file sid)) as (Hsid & Herr & Hsize & _).
  specialize (Hsize eq_refl). cbn [rq_index size_question] in Hsize. rewrite N2Z.id in Hsize.
  simpl in Hsid, Hsize.
  unfold advance, mbind, comp_bind. simpl. rewrite Hsid, N.eqb_refl. simpl. rewrite Herr. simpl.
  unfold accept_size, mbind, comp_bind. rewrite Hsize.
  rewrite size_roundtrip by (unfold MAX_SINGLE_FILE_BYTES in Hsingle; lia). simpl.
  unfold current_remote_file. simpl. rewrite (current_lookup _ _ _ Hfl). simpl.
  assert (∀ s : RemoteClipboardTransfer * F,
    (match advertised_size file with
     | Some advertised => require (advertised =? size_of file)%N "remote clipboard file size changed"
     | None => mret ()
     end) s = (s, Ok ())) as Hadv.
  { intros s. destruct (advertised_size file) as [n|] eqn:Hn; [|done].
    rewrite (ft_advertised Hfetch file n Hin Hn), N.eqb_refl. done. }
  rewrite Hadv. unfold with_pending. simpl. rewrite (account_size_run _ _ _ _ _ _ Hfl). simpl.
  destruct Hst as [Hst1 Hst2].
  destruct (store_create (path_of file) f) as (f1 & h & Hc & Hh & Hnew & Hq);
    [by apply (ft_writable Hfetch)|apply Hst2; by left|].
  unfold on_fs, zoom, create_output_file, context, map_err_comp. simpl. rewrite Hc. simpl.
  assert (stores done_ rest f1) as Hst'.
  { apply (stores_unchanged _ _ f f1 (path_of file)); [|done|].
    - split; [done|]. intros x Hx. apply Hst2. by right.
    - intros x Hx. by eapply paths_distinct. }
  destruct (N.eqb_spec (size_of file) 0) as [Hz|Hnz].
  - assert (source (descriptor_index file) = []) as Hnil by (apply length_zero_iff_nil; lia).
    destruct (finish_file_next done_ file rest (sizes (done_ ++ [file])) (Some h) (Some (size_of file)) 0 sid' f1
      Hfl) as (t' & f' & a & Hrun & Hst'' & Hres).
    { apply stores_finished; [done|]. by rewrite Hnew, Hnil. }
    unfold with_position, with_output. simpl. rewrite Hz in *. rewrite Hrun.
    exists t', f', a. split; [done|]. left. by split.
  - unfold with_position, with_output. simpl.
    rewrite (request_range_run _ _ _ file (size_of file))
      by (done || (simpl; lia) || exact (current_lookup _ _ _ Hfl)).
    eexists _, f1, _. split; [reflexivity|]. right. split; [lia|]. split; [done|].
    exists h. split_and!; [done|done|done|]. by rewrite Hnew.
Qed.

Lemma range_step done_ file rest off sid sid' t f a :
  fl = done_ ++ file :: rest → fetching done_ file rest off sid t f a →
  ∃ q t' f' a', a = Request q ∧
    advance (server q) sid' (t, f) = ((t', f'), Ok a') ∧
    (finished done_ file rest sid' t' f' a' ∨
     ∃ k, (0 < k)%N ∧ fetching done_ file rest (off + k) sid' t' f' a').
Proof.
  intros Hfl (Hoff & Hst & h & -> & -> & Hh & Hsto).
  assert (file ∈ fl) as Hin by (rewrite Hfl; apply elem_of_app; right; left).
  pose proof (ft_single Hfetch file Hin) as Hsingle.
  destruct (Hserver (range_question file (size_of file) off sid)) as (Hsid & Herr & _ & Hrange).
  cbn [rq_index range_question] in Hrange. rewrite !N2Z.id in Hrange. simpl in Hsid, Hrange.
  destruct (Hrange eq_refl) as (k & Hk & Hkr & Hdata);
    [unfold REMOTE_FILE_CHUNK_BYTES; lia|lia|]. clear Hrange.
  set (data := rs_data (server (range_question file (size_of file) off sid))) in *.
  assert (length data = k) as Hlen.
  { rewrite Hdata, length_take, length_drop. lia. }
  exists (range_question file (size_of file) off sid).
  unfold advance, mbind, comp_bind. simpl. rewrite Hsid, N.eqb_refl. simpl. rewrite Herr. simpl.
  fold data. unfold accept_range, mbind, comp_bind. simpl.
  rewrite bool_decide_eq_false_2 by (intros ->; simpl in Hlen; lia). simpl.
  rewrite Hlen. rewrite (proj2 (N.leb_le _ _)) by lia. simpl.
  unfold lift_outcome, checked_add.
  rewrite (proj2 (N.leb_le _ u64_max)) by (unfold MAX_SINGLE_FILE_BYTES in Hsingle; lia). simpl.
  rewrite (proj2 (N.leb_le _ (size_of file))) by lia. simpl.
  destruct (store_write h data f (take (N.to_nat off) (source (descriptor_index file))))
    as (f1 & Hw & Hsto' & Hq); [by rewrite Hh|].
  unfold on_fs, zoom. simpl. rewrite Hw. simpl.
  assert (take (N.to_nat off) (source (descriptor_index file)) ++ data =
    take (N.to_nat (off + N.of_nat k)) (source (descriptor_index file))) as Hcat.
  { rewrite Hdata, take_take_drop. f_equal. lia. }
  assert (stores done_ rest f1) as Hst'.
  { apply (stores_unchanged _ _ f f1 (handle_path h)); [done|done|].
    intros x Hx. rewrite Hh. by eapply paths_distinct. }
  rewrite Hh in Hsto'. unfold with_position, with_pending. simpl.
  destruct (N.eqb_spec (off + N.of_nat k) (size_of file)) as [Heq|Hne].
  - destruct (finish_file_next done_ file rest (sizes (done_ ++ [file])) (Some h)
      (Some (size_of file)) (size_of file) sid' f1 Hfl) as (t' & f' & a & Hrun & Hst'' & Hres).
    { apply stores_finished; [done|]. rewrite Hsto', Hcat. f_equal. apply take_ge. lia. }
    rewrite Heq, Hrun. exists t', f', a. split; [done|]. split; [done|]. left. by split.
  - rewrite (request_range_run _ _ _ file (size_of file))
      by (done || (simpl; lia) || exact (current_lookup _ _ _ Hfl)).
    eexists _, f1, _. split; [done|]. split; [reflexivity|]. right. exists (N.of_nat k).
    split; [lia|]. split; [lia|]. split; [done|].
    exists h. split_and!; [done|done|done|]. by rewrite Hsto', Hcat.
Qed.

(** Responses still to come: one for the size of each file, and at most one for each
    byte. *)
Fixpoint responses_left (files : list RemoteFile) : nat :=
  match files with
  | [] => 0
  | file :: rest => S (length (source (descriptor_index file))) + responses_left rest
  end.

(** From action [a] on, the conversation completes within [n] responses. *)
Definition completes (n : nat) (a : RemoteTransferAction) (t : RemoteClipboardTransfer) (f : F)
    : Prop :=
  ∃ t' f' a', converse n server next_stream_id a (t, f) = ((t', f'), Ok a') ∧
    all_ready t' a' ∧ stores fl [] f'.

(** Once [file] is finished, the rest completes. *)
Definition goes_on (done_ : list RemoteFile) (file : RemoteFile) (rest : list RemoteFile) : Prop :=
  ∀ sid t f a n, finished done_ file rest sid t f a → responses_left rest ≤ n →
    completes n a t f.

(** A file being fetched, then the others: by induction on the bytes it still needs. *)
Lemma converse_range done_ file rest :
  fl = done_ ++ file :: rest → goes_on done_ file rest →
  ∀ m off sid t f a n, fetching done_ file rest off sid t f a →
    length (source (descriptor_index file)) - N.to_nat off ≤ m →
    m + responses_left rest ≤ n → completes n a t f.
Proof.
  intros Hfl Hrest m. induction m as [|m IH]; intros off sid t f a n Hfe Hm Hn.
  { destruct Hfe as [Ho _]. lia. }
  destruct n as [|n]; [lia|]. unfold completes.
  destruct (range_step done_ file rest off sid (next_stream_id (S n)) t f a Hfl Hfe)
    as (q & t' & f' & a' & -> & Hadv & Hnext).
  cbn [converse]. unfold mbind, comp_bind. rewrite Hadv.
  destruct Hnext as [Hfin|(k & Hk & Hfe')].
  - apply (Hrest _ _ _ _ _ Hfin). lia.
  - pose proof (proj1 Hfe) as Ho. apply (IH _ _ _ _ _ _ Hfe'); lia.
Qed.

(** The size of a file is asked for. *)
Lemma converse_size done_ file rest sid f n :
  fl = done_ ++ file :: rest → goes_on done_ file rest →
  stores done_ (file :: rest) f → responses_left (file :: rest) ≤ n →
  completes n (Request (size_question file sid)) (asking_size done_ (sizes done_) sid) f.
Proof.
  intros Hfl Hafter Hst Hn. simpl in Hn. destruct n as [|n]; [lia|].
  unfold completes. cbn [converse]. unfold mbind, comp_bind.
  destruct (size_step done_ file rest sid (next_stream_id (S n)) f Hfl Hst)
    as (t1 & f1 & a1 & Hadv & [Hf|Hf]); rewrite Hadv.
  - apply (Hafter _ _ _ _ _ Hf). lia.
  - eapply (converse_range done_ file rest Hfl Hafter); [exact Hf|reflexivity|simpl; lia].
Qed.

Lemma converse_files rest done_ file :
  fl = done_ ++ file :: rest →
  ∀ sid f n, stores done_ (file :: rest) f → responses_left (file :: rest) ≤ n →
    completes n (Request (size_question file sid)) (asking_size done_ (sizes done_) sid) f.
Proof.
  revert done_ file. induction rest as [|next rest IH]; intros done_ file Hfl sid f n Hst Hn;
    apply (converse_size done_ file _ sid f n Hfl); try done.
  - intros sid1 t1 f1 a1 n1 [Hst1 Hr] _. exists t1, f1, a1.
    split; [|split; [done|by rewrite Hfl]]. destruct Hr as [-> _]. by destruct n1.
  - intros sid1 t1 f1 a1 n1 (Hst1 & -> & ->) Hn1.
    apply (IH (done_ ++ [file]) next); [by rewrite <-app_assoc|done|done].
Qed.
End completion.

(** C13: a transfer completes and delivers the files.  With a server that answers
    requests (with whatever non-empty part of each range it likes), announced sizes
    that are right and within the limits, distinct new paths, and a file system on
    which the calls succeed, the conversation ends after at most one response for
    each file and one for each byte, with all top-level paths reported ready, the
    staging directory kept, and every file holding exactly the server's bytes. *)
Theorem transfer_completes `{!StoreLaws stored handle_path writable} `{!ContentsLaws}
    source server next_stream_id layout settings d f sid :
  (∀ q, answers source q (server q)) →
  fetchable (writable:=writable) source d (files layout) →
  (∀ file, file ∈ files layout → stored f (join_path (td_path d) (relative_path file)) = None) →
  ∃ t' f' ,
    (a ← start sid;
     converse (responses_left source (files layout)) server next_stream_id a)
      (new_transfer layout settings d, f) =
      ((t', f'), Ok (Ready ((λ name, to_string_lossy (join_path (td_path d) [name])) <$>
                              top_level_names layout))) ∧
    retained (staging t') = true ∧
    ∀ file, file ∈ files layout →
      stored f' (join_path (td_path d) (relative_path file)) =
        Some (source (descriptor_index file)).
Proof.
  intros Hserver Hfetch Hnone. unfold mbind, comp_bind.
  destruct (files layout) as [|file rest] eqn:Hfl.
  - unfold start, mbind, comp_bind. simpl. rewrite Hfl. simpl.
    eexists _, f. split; [reflexivity|]. split; [done|]. by intros ? ?%elem_of_nil.
  - unfold start, mbind, comp_bind. simpl. rewrite Hfl.
    rewrite (request_size_run _ _ _ file) by (simpl; by rewrite Hfl).
    destruct (converse_files source server next_stream_id Hserver (st_transfer_id settings)
      (st_clip_data_id settings) d (file :: rest) (top_level_names layout) Hfetch rest [] file
      eq_refl sid f (responses_left source (file :: rest)))
      as (t' & f' & a' & Hrun & (-> & Hret & _) & Hst & _); [|done|].
    { split; [by intros ? ?%elem_of_nil|done]. }
    assert (with_pending (new_transfer layout settings d) (Some (mk_pending sid KindSize)) =
      asking_size (st_transfer_id settings) (st_clip_data_id settings) d (file :: rest)
        (top_level_names layout) [] 0 sid) as ->
      by (unfold asking_size, with_pending, new_transfer; simpl; by rewrite Hfl).
    exists t', f'. split; [exact Hrun|]. by split.
Qed.
End transfer.

(** ** Witnesses: a transfer into the file system in memory *)

Import MemFs.

(** Little-endian bytes. *)
Fixpoint le_bytes (k : nat) (n : N) : bytes :=
  match k with 0 => [] | S k' => (n `mod` 256)%N :: le_bytes k' (n / 256)%N end.

Fixpoint le_value (bs : bytes) : N :=
  match bs with [] => 0 | b :: rest => (b + 256 * le_value rest)%N end.

Lemma le_roundtrip k n : (n < 256 ^ N.of_nat k)%N → le_value (le_bytes k n) = n.
Proof.
  revert n. induction k as [|k IH]; intros n Hn; simpl.
  - simpl in Hn. lia.
  - rewrite Nat2N.inj_succ, N.pow_succ_r' in Hn.
    rewrite IH by (apply N.Div0.div_lt_upper_bound; lia).
    pose proof (N.div_mod' n 256). lia.
Qed.

Definition demo_wire : ContentsWire := {|
  FLAG_SIZE := 1;
  FLAG_RANGE := 2;
  validate_flags n := if (n =? 1)%N || (n =? 2)%N then Ok () else Err "bad flags"%string;
  data_as_size bs := if length bs =? 8 then Some (le_value bs) else None;
  size_data n := le_bytes 8 n;
|}.

#[local] Existing Instance demo_wire.

Lemma demo_wire_laws : ContentsLaws.
Proof.
  split; [done|]. intros n Hn. cbn [data_as_size size_data demo_wire].
  change (length (le_bytes 8 n)) with 8. cbn [Nat.eqb]. f_equal. apply le_roundtrip.
  change (256 ^ N.of_nat 8)%N with 18446744073709551616%N. lia.
Qed.

Lemma mem_store_laws :
  StoreLaws (λ f p, contents f !! p) (λ h, h) (λ _, True).
Proof.
  split.
  - intros p f _ Hn. simpl in *. rewrite Hn. eexists _, p. split; [done|].
    simpl. split_and!; [done|by rewrite lookup_insert_eq|].
    intros q Hq. by rewrite lookup_insert_ne.
  - intros h data f old Ho. simpl in *. rewrite Ho. eexists. split; [done|]. simpl.
    split; [by rewrite lookup_insert_eq|]. intros q Hq. by rewrite lookup_insert_ne.
  - intros h f. by exists f.
Qed.

Lemma mem_files_return : FilesReturn (F:=fs) (P:=list text) (Handle:=list text).
Proof. split; intros; simpl; [by destruct (_ !! _)|done..]. Qed.

Definition demo_source (_ : N) : bytes := [1; 2; 3; 4; 5]%N.

(** A server that sends at most two bytes at a time. *)
Definition demo_server (q : FileContentsRequest) : FileContentsResponse :=
  mk_contents_response (rq_stream_id q) false
    (if (rq_flags q =? 1)%N then size_data (N.of_nat (length (demo_source (Z.to_N (rq_index q)))))
     else take (N.to_nat (N.min 2 (rq_requested_size q)))
            (drop (N.to_nat (rq_position q)) (demo_source (Z.to_N (rq_index q))))).

Lemma demo_server_answers q : answers demo_source q (demo_server q).
Proof.
  split; [done|]. split; [done|]. unfold demo_server. split.
  - intros Hf. simpl. rewrite Hf. done.
  - intros Hf Hr Hin. exists (N.to_nat (N.min 2 (rq_requested_size q))).
    split; [lia|]. split; [lia|]. simpl. rewrite Hf. done.
Qed.

Definition demo_layout : RemoteClipboardLayout :=
  mk_layout [] [mk_remote_file 0 [[97%N]] (Some 5%N)] [[97%N]].

Definition demo_settings : @RemoteTransferSettings (list text) := mk_settings 1 [] None.

Definition demo_directory : @TransferDirectory (list text) :=
  mk_transfer_directory [] [[116%N]] false.

Lemma transfer_completes_witness :
  ∃ t' f',
    (a ← start 1;
     converse (responses_left demo_source (files demo_layout)) demo_server (λ n, N.of_nat n + 1)%N a)
      (new_transfer demo_layout demo_settings demo_directory, empty) =
      ((t', f'), Ok (Ready [[47; 116; 47; 97]%N])) ∧
    contents f' !! [[116%N]; [97%N]] = Some [1; 2; 3; 4; 5]%N.
Proof.
  assert (fetchable (writable:=λ _, True) demo_source demo_directory
    (files demo_layout)) as Hfetch.
  { split.
    - done.
    - apply NoDup_singleton.
    - intros file n Hin%list_elem_of_singleton Hs. subst file. by injection Hs as <-.
    - intros file Hin%list_elem_of_singleton. subst file. vm_compute. discriminate.
    - vm_compute. discriminate. }
  destruct (@transfer_completes _ _ _ _ _ _ _ _ _ mem_store_laws demo_wire_laws
    demo_source demo_server (λ n, N.of_nat n + 1)%N demo_layout demo_settings demo_directory empty 1%N
    demo_server_answers Hfetch) as (t' & f' & Hrun & _ & Hst).
  { intros file _. reflexivity. }
  exists t', f'. split; [exact Hrun|].
  apply (Hst (mk_remote_file 0 [[97%N]] (Some 5%N))). apply list_elem_of_singleton. reflexivity.
Defined.

Lemma transfer_conversation_safe_witness :
  ∃ t f q, talk demo_layout demo_settings demo_directory (t, f) (Request q) ∧
    rq_requested_size q = 5%N ∧ action_ok t (Request q).
Proof.
  pose (s0 := (new_transfer (Handle:=list text) demo_layout demo_settings demo_directory, empty)).
  assert (∃ t1 f1 a1, start 1 s0 = ((t1, f1), Ok a1) ∧
    ∃ t f q, advance (demo_server (size_question None (mk_remote_file 0 [[97%N]] (Some 5%N)) 1)) 2
      (t1, f1) = ((t, f), Ok (Request q)) ∧ rq_requested_size q = 5%N)
    as (t1 & f1 & a1 & Hstart & t & f & q & Hadv & Hq).
  { eexists _, _, _. split; [reflexivity|]. eexists _, _, _. split; [vm_compute; reflexivity|done]. }
  assert (talk demo_layout demo_settings demo_directory (t, f) (Request q)) as Htalk.
  { eapply talk_next; [|exact Hadv]. eapply talk_start. exact Hstart. }
  exists t, f, q. split; [exact Htalk|]. split; [exact Hq|].
  exact (proj1 (@transfer_conversation_safe _ _ _ _ _ _ mem_files_return _ _ _ _ _ _ Htalk)).
Defined.
