(* ===== verification/ClipLocal.v ===== *)
(** * Offering local files

    rdp-helper/src/clipboard/local.rs: the trees below the paths the user copied are
    collected, depth first, into entries and the descriptors announced for them; and
    the server's requests for sizes and ranges are answered from the files, which must
    still be what was collected.  The loop over a tree has fuel: every round adds an
    entry, and the 10,001st round fails, so 10,001 rounds are enough. *)

From S2P Require Import Prelude RdpProtocol ClipPath ClipLayout ClipFs ClipStaging ClipTransfer.

Definition MAX_LOCAL_RESPONSE_CHUNK_BYTES : N := 4 * 1024 * 1024.
Definition SIZE_RESPONSE_BYTES : N := 8.

Inductive LocalClipboardEntryKind := File | Directory.

#[export] Instance LocalClipboardEntryKind_eq_dec : EqDecision LocalClipboardEntryKind.
Proof. solve_decision. Defined.

Section local.
Context `{OsPath P} `{!EqDecision P} `{FileSystem F P Handle} `{PathEnv} `{FileAttributes}
  `{ContentsWire}.
(** [children.sort_by_key(DirEntry::file_name)], in the order of the platform. *)
Context (sort_by_file_name : list (DirEntry P) → list (DirEntry P)).

Abbreviation io A := (comp F string A) (only parsing).

Record LocalClipboardEntry := mk_local_entry {
  source_path : P;
  canonical_path : P;
  le_relative : RelativeClipboardPath;
  le_kind : LocalClipboardEntryKind;
  le_size : N;
}.

Record LocalClipboardTransfer := mk_local_transfer {
  lt_transfer_id : N;
  lt_entries : list LocalClipboardEntry;
  lt_descriptors : list FileDescriptor;
}.

(** [usize::try_from(index)]: negative indices have no entry. *)
Definition local_entry_at (t : LocalClipboardTransfer) (index : Z) : option LocalClipboardEntry :=
  if (index <? 0)%Z then None else lt_entries t !! Z.to_nat index.

(** ** Collection *)

Definition build_entry (path : P) (relative : RelativeClipboardPath) : io LocalClipboardEntry :=
  metadata ← ensure_not_link_or_reparse path;
  kind ← lift_outcome
    (if md_is_file metadata then Ok File
     else if md_is_dir metadata then Ok Directory
     else Err "clipboard source has an unsupported file type"%string);
  canonical ← context "clipboard source cannot be canonicalized" (canonicalize path);
  mret (mk_local_entry path canonical relative kind (md_len metadata)).

Definition account_file (entry : LocalClipboardEntry) (total_bytes : N) : outcome string N :=
  match le_kind entry with
  | Directory => Ok total_bytes
  | File =>
      ensure (le_size entry <=? MAX_SINGLE_FILE_BYTES)%N
        "clipboard file exceeds the single-file limit"%string;;
      total ← of_option "clipboard transfer size overflow"%string
        (checked_add u64_max total_bytes (le_size entry));
      ensure (total <=? MAX_TOTAL_TRANSFER_BYTES)%N
        "clipboard transfer exceeds the total size limit"%string;;
      Ok total
  end.

(** [collect::<Result<Vec<_>, _>>()]: the first error, if any. *)
Fixpoint collect_results {A} (results : list (outcome string A)) : outcome string (list A) :=
  match results with
  | [] => Ok []
  | r :: rest => a ← r; l ← collect_results rest; Ok (a :: l)
  end.

(** The children, in the order they are pushed; the stack has its top first. *)
Fixpoint push_each (canonical_root : P) (relative : RelativeClipboardPath)
    (children : list (DirEntry P)) (pending : list (P * RelativeClipboardPath))
    : io (list (P * RelativeClipboardPath)) :=
  match children with
  | [] => mret pending
  | child_entry :: rest =>
      ensure_not_link_or_reparse (de_path child_entry);;
      name ← lift_outcome (of_option "clipboard path has a non-UTF-8 component"%string
        (de_file_name child_entry));
      child_relative ← lift_outcome (child relative name);
      canonical ← canonicalize (de_path child_entry);
      require (starts_with canonical canonical_root) "clipboard source escapes its root";;
      push_each canonical_root relative rest ((de_path child_entry, child_relative) :: pending)
  end.

Definition push_children (canonical_root directory : P) (relative : RelativeClipboardPath)
    (pending : list (P * RelativeClipboardPath)) : io (list (P * RelativeClipboardPath)) :=
  results ← read_dir directory;
  children ← lift_outcome (collect_results results);
  push_each canonical_root relative (reverse (sort_by_file_name children)) pending.

(** The loop of [collect_tree]. *)
Fixpoint tree_loop (fuel : nat) (canonical_root : P) (pending : list (P * RelativeClipboardPath))
    (entries : list LocalClipboardEntry) (total_bytes : N)
    : io (list LocalClipboardEntry * N) :=
  match pending with
  | [] => mret (entries, total_bytes)
  | (path, relative) :: pending =>
      match fuel with
      | 0 => lift_outcome Panic
      | S fuel =>
          require (N.of_nat (length entries) <? MAX_CLIPBOARD_ENTRY_COUNT)%N
            "clipboard entry count exceeds the limit";;
          entry ← build_entry path relative;
          total_bytes ← lift_outcome (account_file entry total_bytes);
          pending ← (match le_kind entry with
                     | Directory => push_children canonical_root path relative pending
                     | File => mret pending
                     end : io (list (P * RelativeClipboardPath)));
          tree_loop fuel canonical_root pending (entries ++ [entry]) total_bytes
      end
  end.

Definition tree_fuel : nat := N.to_nat 10001.

Definition collect_tree (root : P) (relative : RelativeClipboardPath)
    (entries : list LocalClipboardEntry) (total_bytes : N)
    : io (list LocalClipboardEntry * N) :=
  ensure_not_link_or_reparse root;;
  canonical_root ← context "clipboard source cannot be canonicalized" (canonicalize root);
  tree_loop tree_fuel canonical_root [(root, relative)] entries total_bytes.

Fixpoint collect_each (paths : list P) (entries : list LocalClipboardEntry) (total_bytes : N)
    : io (list LocalClipboardEntry) :=
  match paths with
  | [] => mret entries
  | top_level :: rest =>
      name ← lift_outcome (utf8_file_name top_level);
      relative ← lift_outcome (from_local_components [name]);
      collected ← collect_tree top_level relative entries total_bytes;
      collect_each rest (collected : list LocalClipboardEntry * N).1 collected.2
  end.

Definition collect_entries (paths : list P) : io (list LocalClipboardEntry) :=
  collect_each paths [] 0.

Definition entry_descriptor (entry : LocalClipboardEntry) : FileDescriptor :=
  mk_descriptor
    (Some match le_kind entry with File => ATTRIBUTE_ARCHIVE | Directory => ATTRIBUTE_DIRECTORY end)
    (match le_kind entry with File => Some (le_size entry) | Directory => None end)
    (name (le_relative entry))
    (parent_wire_path (le_relative entry)).

Definition collect (transfer_id : N) (paths : list text) : io LocalClipboardTransfer :=
  require (negb (transfer_id =? 0)%N) "clipboard transfer ID must not be zero";;
  let paths := path_from <$> paths in
  require (negb (bool_decide (paths = []))) "clipboard file list is empty";;
  lift_outcome (validate_top_level_paths paths);;
  entries ← collect_entries paths;
  mret (mk_local_transfer transfer_id entries (entry_descriptor <$> entries)).

(** ** Answering requests *)

Definition open_verified (entry : LocalClipboardEntry) : io Handle :=
  metadata ← ensure_not_link_or_reparse (source_path entry);
  require (md_is_file metadata) "clipboard source is no longer a file";;
  require (md_len metadata =? le_size entry)%N "clipboard source size changed";;
  canonical ← context "clipboard source path cannot be canonicalized"
    (canonicalize (source_path entry));
  require (bool_decide (canonical = canonical_path entry)) "clipboard source path changed";;
  file ← open_file (source_path entry);
  len ← file_len file;
  require (len =? le_size entry)%N "clipboard source size changed";;
  mret file.

Definition size_response (entry : LocalClipboardEntry) (request : FileContentsRequest)
    : io FileContentsResponse :=
  require ((rq_position request =? 0)%N && (rq_requested_size request =? SIZE_RESPONSE_BYTES)%N)
    "invalid clipboard file size request";;
  open_verified entry;;
  mret (mk_contents_response (rq_stream_id request) false (size_data (le_size entry))).

Definition range_response (entry : LocalClipboardEntry) (request : FileContentsRequest)
    : io FileContentsResponse :=
  require (0 <? rq_requested_size request)%N "clipboard file range is empty";;
  require (rq_position request <=? le_size entry)%N "clipboard range starts past end";;
  file ← open_verified entry;
  rest ← lift_outcome (checked_sub (le_size entry) (rq_position request));
  let amount := N.min (N.min (rq_requested_size request) MAX_LOCAL_RESPONSE_CHUNK_BYTES) rest in
  seek_start file (rq_position request);;
  data ← read_exact file (N.to_nat amount);
  mret (mk_contents_response (rq_stream_id request) false data).

(** [flags.contains(SIZE)] *)
Definition wants_size (request : FileContentsRequest) : bool :=
  (N.land (rq_flags request) FLAG_SIZE =? FLAG_SIZE)%N.

Definition read_entry (entry : LocalClipboardEntry) (request : FileContentsRequest)
    : io FileContentsResponse :=
  require (bool_decide (le_kind entry = File)) "clipboard directory contents cannot be streamed";;
  lift_outcome (validate_flags (rq_flags request));;
  if wants_size request then size_response entry request else range_response entry request.
(** ** What is offered *)

(** The attribute bits are separate, and none is the reparse-point bit. *)
Class FileAttributesLaws := {
  directory_is_directory : N.land ATTRIBUTE_DIRECTORY ATTRIBUTE_DIRECTORY = ATTRIBUTE_DIRECTORY;
  archive_no_directory : N.land ATTRIBUTE_ARCHIVE ATTRIBUTE_DIRECTORY ≠ ATTRIBUTE_DIRECTORY;
  directory_no_reparse : N.land ATTRIBUTE_DIRECTORY FILE_ATTRIBUTE_REPARSE_POINT = 0%N;
  archive_no_reparse : N.land ATTRIBUTE_ARCHIVE FILE_ATTRIBUTE_REPARSE_POINT = 0%N;
}.

(** File-system calls return a result, also for each directory entry. *)
Class ReadsReturn := {
  symlink_metadata_returns p f : (symlink_metadata p f).2 ≠ Panic;
  canonicalize_returns p f : (canonicalize p f).2 ≠ Panic;
  read_dir_returns p f : (read_dir p f).2 ≠ Panic;
  read_dir_entries_return p f f' l : read_dir p f = (f', Ok l) → Panic ∉ l;
  open_file_returns p f : (open_file p f).2 ≠ Panic;
  file_len_returns (h : Handle) f : (file_len h f).2 ≠ Panic;
  seek_start_returns (h : Handle) n f : (seek_start h n f).2 ≠ Panic;
  read_exact_returns (h : Handle) n f : (read_exact h n f).2 ≠ Panic;
}.

(** What the receiver of an entry's descriptor makes of it. *)
Definition announced (e : LocalClipboardEntry) : entry :=
  mk_entry (le_relative e) (bool_decide (le_kind e = Directory))
    (match le_kind e with File => Some (le_size e) | Directory => None end).

Definition parent_collected (before : list LocalClipboardEntry) (relative : RelativeClipboardPath)
    : Prop :=
  parent_components relative = [] ∨
  ∃ d, d ∈ before ∧ le_kind d = Directory ∧
    components (le_relative d) = parent_components relative.

(** A list of entries built one by one: every path is valid, every entry in a directory
    comes after that directory, and the sizes are within the limits. *)
Inductive collected : list LocalClipboardEntry → Prop :=
  | collected_nil : collected []
  | collected_snoc es e :
      collected es →
      path_ok (components (le_relative e)) →
      parent_collected es (le_relative e) →
      (e_bytes (announced e) <= MAX_SINGLE_FILE_BYTES)%N →
      (total_bytes (announced <$> es) + e_bytes (announced e) <= MAX_TOTAL_TRANSFER_BYTES)%N →
      collected (es ++ [e]).

Lemma descriptor_parses `{!FileAttributesLaws} e :
  path_ok (components (le_relative e)) → parses (entry_descriptor e) (announced e).
Proof.
  intros Hok. split_and!.
  - unfold descriptor_path. simpl. apply (from_wire_components _ Hok).
  - unfold is_directory, announced, entry_descriptor. simpl.
    destruct (le_kind e); simpl;
      rewrite ?directory_no_reparse, ?archive_no_reparse, ?directory_is_directory; simpl.
    + by rewrite (proj2 (N.eqb_neq _ _) archive_no_directory).
    + by rewrite N.eqb_refl.
  - unfold announced, entry_descriptor. simpl. by destruct (le_kind e).
Qed.

Lemma collected_parses `{!FileAttributesLaws} es :
  collected es → Forall2 parses (entry_descriptor <$> es) (announced <$> es).
Proof.
  induction 1 as [|es e _ IH Hok _ _ _]; [constructor|]. rewrite !fmap_app. simpl.
  apply Forall2_app; [done|]. constructor; [by apply descriptor_parses|constructor].
Qed.

Lemma collected_parent_admissible es e k :
  parent_collected es (le_relative e) → parent_key (le_relative e) = Some k →
  ∃ d, d ∈ announced <$> es ∧ e_key d = k ∧ e_directory d = true.
Proof.
  unfold parent_key. intros [Hnone|(d & Hin & Hdir & Hcs)] Hk.
  - by rewrite Hnone in Hk.
  - exists (announced d). split; [by apply list_elem_of_fmap_2|]. split.
    + unfold e_key, normalized_key. simpl. rewrite Hcs. by destruct (decide _); simplify_eq.
    + simpl. by apply bool_decide_eq_true.
Qed.

Lemma NoDup_snoc {A} (l : list A) x : NoDup (l ++ [x]) ↔ NoDup l ∧ x ∉ l.
Proof.
  rewrite NoDup_app. setoid_rewrite list_elem_of_singleton. split.
  - intros (Hl & Hx & _). split; [done|]. intros Hin. by apply (Hx x).
  - intros [Hl Hx]. split_and!; [done|by intros y Hy ->|apply NoDup_singleton].
Qed.

(** What is collected is acceptable as soon as no two paths are equal up to case. *)
Lemma collected_admissible es :
  collected es →
  all_admissible [] (announced <$> es) ↔ NoDup (normalized_key ∘ le_relative <$> es).
Proof.
  induction 1 as [|es e _ IH _ Hpar Hs1 Hs2].
  - split; [constructor|done].
  - rewrite !fmap_app. simpl. rewrite all_admissible_snoc, NoDup_snoc, IH. simpl.
    split; intros [Hes He]; (split; [done|]).
    + intros (d & Hk & Hd)%list_elem_of_fmap. destruct He as [_ Hnew _ _].
      apply (Hnew (announced d)); [by apply list_elem_of_fmap_2|]. unfold e_key. simpl in *. done.
    + split; [by intros; eapply collected_parent_admissible| |done|done].
      intros d (e' & -> & Hin)%list_elem_of_fmap Hk. apply He. apply list_elem_of_fmap.
      by exists e'.
Qed.

(** ** The collection *)

Context `{!ReadsReturn}.

Lemma context_returns {A} message (m : io A) f : (m f).2 ≠ Panic → (context message m f).2 ≠ Panic.
Proof. unfold context, map_err_comp. simpl. by destruct (m f).2. Qed.

Lemma call_safe {A} (m : io A) φ : (∀ f, (m f).2 ≠ Panic) → safely (λ _, φ) m (λ _ _, φ).
Proof. intros Hm f Hφ. specialize (Hm f). by destruct (m f).2. Qed.

Lemma ensure_not_link_safe path φ :
  safely (λ _, φ) (ensure_not_link_or_reparse path) (λ _ _, φ).
Proof.
  eapply safely_bind; [apply call_safe; intros f; apply context_returns, symlink_metadata_returns|].
  intros md. eapply safely_bind; [apply require_safe|]. intros []. apply safely_ret. by intros ? [].
Qed.

Lemma build_entry_safe path relative φ :
  safely (λ _, φ) (build_entry path relative) (λ e _, φ ∧ le_relative e = relative).
Proof.
  eapply safely_bind; [apply ensure_not_link_safe|intros md].
  eapply safely_bind; [apply safely_lift; by repeat case_match|intros kind].
  eapply safely_bind with (R := λ _ _, φ).
  { eapply safely_weaken; [apply (call_safe _ φ)|by intros ? []|done].
    intros f. apply context_returns, canonicalize_returns. }
  intros canonical. apply safely_ret. done.
Qed.

Lemma collect_results_no_panic {A} (l : list (outcome string A)) :
  Panic ∉ l → collect_results l ≠ Panic.
Proof.
  induction l as [|[a|e|] l IH]; simpl; intros Hl; try done.
  - apply not_elem_of_cons in Hl as [_ Hl]. specialize (IH Hl). by destruct (collect_results l).
  - by apply not_elem_of_cons in Hl as [[] _].
Qed.

(** What waits to be visited: valid paths below collected directories. *)
Definition waiting_ok (es : list LocalClipboardEntry) (pr : P * RelativeClipboardPath) : Prop :=
  path_ok (components pr.2) ∧ parent_collected es pr.2.

Lemma waiting_ok_mono es es' pr : waiting_ok es pr → waiting_ok (es ++ es') pr.
Proof.
  intros [Hok [Hp|(d & Hd & Hrest)]]; (split; [done|]); [by left|right].
  exists d. split; [|done]. apply elem_of_app. by left.
Qed.

Lemma child_waiting es e name relative :
  e ∈ es → le_kind e = Directory → child (le_relative e) name = Ok relative →
  components relative = components (le_relative e) ++ [name] ∧
  ∀ path, waiting_ok es (path, relative).
Proof.
  unfold child. intros He Hd [-> Hok]%from_local_components_ok. split; [done|]. intros path.
  split; [done|]. right. exists e. split_and!; [done..|].
  unfold parent_components. simpl. rewrite length_app. simpl. by rewrite Nat.add_sub, take_app_length.
Qed.

Lemma push_each_safe root e children es pending φ :
  e ∈ es → le_kind e = Directory → Forall (waiting_ok es) pending →
  safely (λ _, φ) (push_each root (le_relative e) children pending)
    (λ pending' _, φ ∧ Forall (waiting_ok es) pending').
Proof.
  intros He Hd. revert pending. induction children as [|c children IH]; intros pending Hp.
  - by apply safely_ret.
  - cbn [push_each]. eapply safely_bind; [apply ensure_not_link_safe|intros md].
    eapply safely_bind; [apply safely_lift; by destruct (de_file_name c)|intros nm].
    eapply safely_bind; [apply safely_lift|intros relative].
    { apply from_local_components_no_panic. }
    apply safely_pure. intros Hc. destruct (child_waiting _ _ _ _ He Hd Hc) as [_ Hw].
    eapply safely_bind with (R := λ _ _, φ).
    { eapply safely_weaken; [apply (call_safe _ φ), canonicalize_returns|by intros ? []|done]. }
    intros canonical. eapply safely_bind; [apply require_safe|intros []].
    eapply safely_weaken; [apply (IH ((de_path c, relative) :: pending))|by intros ? []|done].
    by constructor.
Qed.

Lemma push_children_safe root path e es pending φ :
  e ∈ es → le_kind e = Directory → Forall (waiting_ok es) pending →
  safely (λ _, φ) (push_children root path (le_relative e) pending)
    (λ pending' _, φ ∧ Forall (waiting_ok es) pending').
Proof.
  intros He Hd Hp. unfold push_children.
  eapply safely_bind with (R := λ l _, φ ∧ (Panic ∉ l)).
  { intros f Hφ. pose proof (read_dir_returns path f) as Hn.
    destruct (read_dir path f) as [f' [l|e'|]] eqn:Hr; simpl in *; [|done..].
    split; [done|]. by eapply read_dir_entries_return. }
  intros l. apply (safely_pre (λ _, (Panic ∉ l) ∧ φ)); [by intros ? []|].
  apply safely_pure. intros Hl.
  eapply safely_bind; [by apply safely_lift, collect_results_no_panic|intros children].
  apply safely_pure. intros _. by apply push_each_safe.
Qed.

Lemma account_file_ok e total total' :
  account_file e total = Ok total' → (total <= MAX_TOTAL_TRANSFER_BYTES)%N →
  total' = (total + e_bytes (announced e))%N ∧
  (e_bytes (announced e) <= MAX_SINGLE_FILE_BYTES)%N ∧ (total' <= MAX_TOTAL_TRANSFER_BYTES)%N.
Proof.
  unfold account_file, e_bytes, announced. destruct (le_kind e); simpl.
  - intros Ha _. inv_ok. bool_to_prop. destruct (checked_add _ _ _) as [n|] eqn:Hn; [|done].
    apply checked_add_Some in Hn as [-> _]. injection Hx as <-. done.
  - intros [= <-] Hb. unfold MAX_SINGLE_FILE_BYTES. lia.
Qed.

Lemma account_file_no_panic e total : account_file e total ≠ Panic.
Proof.
  unfold account_file, ensure, of_option. destruct (le_kind e); [|done].
  by repeat (case_match; simpl; try done).
Qed.

(** The entries and the running total of a collection so far. *)
Definition within_collection (es : list LocalClipboardEntry) (total : N) : Prop :=
  collected es ∧ (N.of_nat (length es) <= MAX_CLIPBOARD_ENTRY_COUNT)%N ∧
  total = total_bytes (announced <$> es) ∧ (total <= MAX_TOTAL_TRANSFER_BYTES)%N.

Lemma tree_loop_safe fuel root pending es total :
  within_collection es total → Forall (waiting_ok es) pending →
  (MAX_CLIPBOARD_ENTRY_COUNT < N.of_nat (fuel + length es))%N →
  safely (λ _, True) (tree_loop fuel root pending es total)
    (λ r _, within_collection r.1 r.2 ∧ length es ≤ length r.1 ∧
            (pending ≠ [] → length es < length r.1)).
Proof.
  revert pending es total. induction fuel as [|fuel IH]; intros [|[path relative] pending] es total
    Hes Hp Hfuel; try by (simpl; apply safely_ret).
  - destruct Hes as (_ & Hlen & _). simpl in Hfuel. lia.
  - cbn [tree_loop]. eapply safely_bind; [apply require_safe|intros []].
    apply safely_pure. intros Hlt. bool_to_prop.
    apply safely_weaken with (P := λ _, True)
      (Q := λ r _, within_collection r.1 r.2 ∧ length es < length r.1);
      [|done|intros r ? [? ?]; split_and!; [done|lia|done]].
    eapply safely_bind; [apply (build_entry_safe _ _ True)|intros e].
    apply (safely_pre (λ _, le_relative e = relative ∧ True)); [by intros ? []|].
    apply safely_pure. intros Hrel.
    eapply safely_bind; [apply safely_lift, account_file_no_panic|intros total'].
    apply safely_pure. intros Hacc.
    apply Forall_cons in Hp as [[Hok Hpar] Hp]. simpl in Hok, Hpar. rewrite <-Hrel in Hok, Hpar.
    assert (within_collection (es ++ [e]) total') as Hes'.
    { destruct Hes as (Hc & Hlen & Ht & Hb). apply account_file_ok in Hacc as (-> & Hs1 & Hs2); [|done].
      split_and!; [by subst; constructor| | |done]; [rewrite length_app; simpl; lia|].
      rewrite fmap_app. change (announced <$> [e]) with [announced e].
      by rewrite total_bytes_snoc, Ht. }
    assert (Forall (waiting_ok (es ++ [e])) pending) as Hp'.
    { eapply Forall_impl; [exact Hp|]. intros. by apply waiting_ok_mono. }
    eapply safely_bind with (R := λ pending' _, True ∧ Forall (waiting_ok (es ++ [e])) pending').
    { destruct (le_kind e) eqn:Hk; [by apply safely_ret|]. rewrite <-Hrel.
      apply push_children_safe; [apply elem_of_app; right; by apply list_elem_of_singleton|done..]. }
    intros pending'.
    apply (safely_pre (λ _, Forall (waiting_ok (es ++ [e])) pending' ∧ True)); [by intros ? []|].
    apply safely_pure. intros Hp''.
    eapply safely_weaken; [apply IH; [exact Hes'|exact Hp''|]|done|].
    + rewrite length_app. simpl. lia.
    + intros r ? (? & Hl & _). rewrite length_app in Hl. simpl in Hl. split; [done|lia].
Qed.

Lemma collect_tree_safe root relative es total :
  within_collection es total → path_ok (components relative) → parent_components relative = [] →
  safely (λ _, True) (collect_tree root relative es total)
    (λ r _, within_collection r.1 r.2 ∧ length es < length r.1).
Proof.
  intros Hes Hok Htop. unfold collect_tree.
  eapply safely_bind; [apply ensure_not_link_safe|intros md].
  eapply safely_bind with (R := λ _ _, True).
  { apply call_safe. intros f. apply context_returns, canonicalize_returns. }
  intros canonical. eapply safely_weaken; [apply (tree_loop_safe _ _ _ es total)|done|].
  - done.
  - apply Forall_singleton. split; [done|by left].
  - unfold tree_fuel, MAX_CLIPBOARD_ENTRY_COUNT. lia.
  - intros r ? (Hr & _ & Hl). split; [done|]. by apply Hl.
Qed.

Lemma collect_each_safe paths es total :
  within_collection es total →
  safely (λ _, True) (collect_each paths es total)
    (λ es' _, (∃ total', within_collection es' total') ∧ length es + length paths ≤ length es').
Proof.
  revert es total. induction paths as [|path paths IH]; intros es total Hes.
  - apply safely_ret. intros _ _. split; [by exists total|simpl; lia].
  - cbn [collect_each]. eapply safely_bind.
    { apply safely_lift. unfold utf8_file_name. by destruct (os_file_name path). }
    intros nm. apply safely_pure. intros _.
    eapply safely_bind; [apply safely_lift, from_local_components_no_panic|intros relative].
    apply safely_pure. intros [-> Hok]%from_local_components_ok.
    eapply safely_bind; [by apply collect_tree_safe|intros [es' total']].
    apply (safely_pre (λ _, (within_collection es' total' ∧ length es < length es') ∧ True));
      [by intros|]. apply safely_pure. intros [Hes' Hl]. simpl.
    eapply safely_weaken; [by apply IH|done|]. intros es'' ? [Hex Hlen]. split; [done|lia].
Qed.

Lemma validate_top_levels_no_panic names (paths : list P) : validate_top_levels names paths ≠ Panic.
Proof.
  revert names. induction paths as [|path paths IH]; intros names; simpl; [done|].
  unfold ensure at 1. destruct (is_absolute path); [|done]. unfold utf8_file_name.
  destruct (os_file_name path) as [nm|]; [|done]. simpl.
  pose proof (validate_component_no_panic nm). destruct (validate_component nm); [|done..].
  unfold ensure. simpl. by destruct (negb _); [apply IH|].
Qed.

Lemma collect_safe id paths :
  safely (λ _, True) (collect id paths)
    (λ t _, id ≠ 0%N ∧ lt_transfer_id t = id ∧ lt_descriptors t = entry_descriptor <$> lt_entries t ∧
            lt_entries t ≠ [] ∧ ∃ total, within_collection (lt_entries t) total).
Proof.
  unfold collect. eapply safely_bind; [apply require_safe|intros []].
  apply safely_pure. intros Hid. bool_to_prop.
  eapply safely_bind; [apply require_safe|intros []]. apply safely_pure. intros Hne. bool_to_prop.
  eapply safely_bind; [apply safely_lift, validate_top_levels_no_panic|intros []].
  apply safely_pure. intros _. eapply safely_bind.
  { apply (collect_each_safe _ [] 0). split; [constructor|]. done. }
  intros es. apply safely_ret. intros _ [Hex Hl]. simpl. split_and!; try done.
  intros ->. apply Hne. apply length_zero_iff_nil. simpl in Hl. lia.
Qed.

Lemma parses_functional d e1 e2 : parses d e1 → parses d e2 → e1 = e2.
Proof. destruct e1, e2. unfold parses. simpl. intros (?&?&?) (?&?&?). congruence. Qed.

Lemma Forall2_functional ds es1 es2 : Forall2 parses ds es1 → Forall2 parses ds es2 → es1 = es2.
Proof.
  intros Hall. revert es2. induction Hall as [|d e ds es Hd _ IH]; intros es2 Hall2.
  - by inversion Hall2.
  - inversion Hall2; subst. f_equal; [by eapply parses_functional|by apply IH].
Qed.

(** C14: What is offered is what the receiving side accepts.  Collecting local files
    never panics and never runs out of rounds, whatever the file system answers; and
    when it succeeds, the descriptors are read by the receiver as exactly the
    collected entries (path, kind and size), and the receiver accepts the list, with
    the layout those entries stand for, if and only if no two collected paths are equal
    up to case.  So the collected list is never empty, too long or too large, and no
    entry precedes its directory. *)
Theorem collect_offers_acceptable `{!FileAttributesLaws} id paths f :
  (collect id paths f).2 ≠ Panic ∧
  ∀ f' t, collect id paths f = (f', Ok t) →
    id ≠ 0%N ∧ lt_transfer_id t = id ∧
    Forall2 parses (lt_descriptors t) (announced <$> lt_entries t) ∧
    ∀ layout, validate (lt_descriptors t) = Ok layout ↔
      NoDup (normalized_key ∘ le_relative <$> lt_entries t) ∧
      layout = layout_of (announced <$> lt_entries t).
Proof.
  split.
  - intros Hp. pose proof (collect_safe id paths f I) as Hs. by rewrite Hp in Hs.
  - intros f' t Hrun. apply (safely_ok _ _ _ _ _ _ (collect_safe id paths)) in Hrun as
      (Hid & Ht & Hds & Hne & total & Hc & Hlen & _); [|done].
    pose proof (collected_parses _ Hc) as Hparse. rewrite Hds.
    split_and!; [done..|]. intros layout. rewrite validate_ok, <-collected_admissible by done. split.
    + intros (_ & _ & es & Hall & Hadm & ->). by rewrite (Forall2_functional _ _ _ Hparse Hall).
    + intros [Hadm ->]. split; [by intros ?%fmap_nil_inv|]. split; [by rewrite length_fmap|].
      by exists (announced <$> lt_entries t).
Qed.

(** ** Depth first

    While nothing changes in the file system, the loop with its stack lists each tree
    in preorder. *)

Class ReadsOnly := {
  symlink_metadata_keeps p f : (symlink_metadata p f).1 = f;
  canonicalize_keeps p f : (canonicalize p f).1 = f;
  read_dir_keeps p f : (read_dir p f).1 = f;
}.

(** The entries of the tree at [path]: the entry itself, then, for a directory, the
    trees of its children in the order of their names. *)
Inductive preorder (f : F) : P → RelativeClipboardPath → list LocalClipboardEntry → Prop :=
  | preorder_file path relative e :
      (build_entry path relative f).2 = Ok e → le_kind e = File →
      preorder f path relative [e]
  | preorder_directory path relative e children below :
      (build_entry path relative f).2 = Ok e → le_kind e = Directory →
      (read_dir path f).2 = Ok (Ok <$> children) →
      preorders f relative (sort_by_file_name children) below →
      preorder f path relative (e :: below)
with preorders (f : F) :
    RelativeClipboardPath → list (DirEntry P) → list LocalClipboardEntry → Prop :=
  | preorders_nil relative : preorders f relative [] []
  | preorders_cons relative c cs name child_relative below rest :
      de_file_name c = Some name → child relative name = Ok child_relative →
      preorder f (de_path c) child_relative below → preorders f relative cs rest →
      preorders f relative (c :: cs) (below ++ rest).

Context `{!ReadsOnly}.

Lemma collect_results_ok {A} (l : list (outcome string A)) children :
  collect_results l = Ok children → l = Ok <$> children.
Proof.
  revert children. induction l as [|[a|e|] l IH]; simpl; intros children Hc; try done.
  - by injection Hc as <-.
  - apply bind_ok in Hc as (rest & Hr & [= <-]). simpl. f_equal. by apply IH.
Qed.

(** A call that reads only. *)
Definition reads {A} (m : io A) : Prop := ∀ f, (m f).1 = f.

Lemma reads_bind {A B} (m : io A) (k : A → io B) : reads m → (∀ a, reads (k a)) → reads (m ≫= k).
Proof.
  intros Hm Hk f. rewrite comp_bind_run. specialize (Hm f).
  destruct (m f) as [f' [a|e|]]; simpl in *; subst; [apply Hk|done..].
Qed.

Lemma reads_lift {A} (r : outcome string A) : reads (lift_outcome r).
Proof. done. Qed.

Lemma ensure_not_link_reads path : reads (ensure_not_link_or_reparse path).
Proof.
  apply reads_bind; [intros f; apply symlink_metadata_keeps|intros md].
  by apply reads_bind; [apply reads_lift|].
Qed.

Lemma build_entry_reads path relative : reads (build_entry path relative).
Proof.
  apply reads_bind; [apply ensure_not_link_reads|intros md].
  apply reads_bind; [apply reads_lift|intros kind].
  apply reads_bind; [intros f; apply canonicalize_keeps|done].
Qed.

(** A reading step of a sequence that succeeded. *)
Lemma reads_bind_ok {A B} (m : io A) (k : A → io B) f f' b :
  reads m → (m ≫= k) f = (f', Ok b) → ∃ a, (m f).2 = Ok a ∧ k a f = (f', Ok b).
Proof.
  intros Hm (f1 & a & Hrun & Hk)%comp_bind_ok. specialize (Hm f). rewrite Hrun in Hm |- *.
  simpl in Hm. subst. by exists a.
Qed.

Lemma push_each_run root relative cs pending f f' pending' :
  push_each root relative cs pending f = (f', Ok pending') →
  f' = f ∧ ∃ added, pending' = reverse added ++ pending ∧
    Forall2 (λ c pr, pr.1 = de_path c ∧
      ∃ name, de_file_name c = Some name ∧ child relative name = Ok pr.2) cs added.
Proof.
  revert pending. induction cs as [|c cs IH]; intros pending Hrun.
  - injection Hrun as <- <-. split; [done|]. by exists [].
  - cbn [push_each] in Hrun.
    apply reads_bind_ok in Hrun as (md & _ & Hrun); [|apply ensure_not_link_reads].
    apply reads_bind_ok in Hrun as (nm & Hn & Hrun); [|apply reads_lift].
    apply reads_bind_ok in Hrun as (rel & Hrel & Hrun); [|apply reads_lift].
    apply reads_bind_ok in Hrun as (can & _ & Hrun); [|intros g; apply canonicalize_keeps].
    apply reads_bind_ok in Hrun as ([] & _ & Hrun); [|apply reads_lift].
    apply IH in Hrun as (-> & added & -> & Hall). split; [done|].
    exists ((de_path c, rel) :: added). split; [by rewrite reverse_cons, <-app_assoc|].
    constructor; [|done]. split; [done|]. exists nm. simpl in *.
    by destruct (de_file_name c); simplify_eq/=.
Qed.

Lemma preorders_of f relative cs prs parts :
  Forall2 (λ c pr, pr.1 = de_path c ∧
    ∃ name, de_file_name c = Some name ∧ child relative name = Ok pr.2) cs prs →
  Forall2 (λ pr l, preorder f pr.1 pr.2 l) prs parts →
  preorders f relative cs (concat parts).
Proof.
  intros Hall. revert parts. induction Hall as [|c [p rel] cs prs (Hp & nm & Hn & Hc) _ IH];
    intros parts Hparts; inversion Hparts as [|? l ? parts' Hl Hparts']; subst; [constructor|].
  simpl in *. subst p. econstructor; [exact Hn|exact Hc|exact Hl|by apply IH].
Qed.

Lemma push_children_run root path relative pending f f' pending' :
  push_children root path relative pending f = (f', Ok pending') →
  f' = f ∧ ∃ children prs, (read_dir path f).2 = Ok (Ok <$> children) ∧
    pending' = prs ++ pending ∧
    Forall2 (λ c pr, pr.1 = de_path c ∧
      ∃ name, de_file_name c = Some name ∧ child relative name = Ok pr.2)
      (sort_by_file_name children) prs.
Proof.
  unfold push_children. intros Hrun.
  apply reads_bind_ok in Hrun as (listing & Hl & Hrun); [|intros g; apply read_dir_keeps].
  apply reads_bind_ok in Hrun as (children & Hc & Hrun); [|apply reads_lift].
  apply push_each_run in Hrun as (-> & added & -> & Hall). split; [done|].
  exists children, (reverse added). simpl in Hc. rewrite Hl.
  split; [by rewrite (collect_results_ok _ _ Hc)|]. split; [done|].
  rewrite <-(reverse_involutive (sort_by_file_name children)). by apply Forall2_reverse.
Qed.

Lemma tree_loop_run fuel root pending es total f f' r :
  tree_loop fuel root pending es total f = (f', Ok r) →
  f' = f ∧ ∃ parts, Forall2 (λ pr l, preorder f pr.1 pr.2 l) pending parts ∧
    r.1 = es ++ concat parts.
Proof.
  revert pending es total. induction fuel as [|fuel IH]; intros [|[path relative] pending] es total;
    cbn [tree_loop]; try (intros [= <- <-]; split; [done|]; exists []; by rewrite app_nil_r);
    [done|].
  intros Hrun. apply reads_bind_ok in Hrun as ([] & _ & Hrun); [|apply reads_lift].
  apply reads_bind_ok in Hrun as (e & He & Hrun); [|apply build_entry_reads].
  apply reads_bind_ok in Hrun as (total' & _ & Hrun); [|apply reads_lift].
  destruct (le_kind e) eqn:Hk.
  - apply comp_bind_ok in Hrun as (? & ? & [= <- <-] & Hrun).
    apply IH in Hrun as (-> & parts & Hparts & Hes). split; [done|].
    exists ([e] :: parts). split; [constructor; [by constructor|done]|].
    by rewrite Hes, <-app_assoc.
  - apply comp_bind_ok in Hrun as (? & pending' & Hpush & Hrun).
    apply push_children_run in Hpush as (-> & children & prs & Hdir & -> & Hch).
    apply IH in Hrun as (-> & parts & Hparts & Hes). split; [done|].
    apply Forall2_app_inv_l in Hparts as (below & rest & Hbelow & Hrest & ->).
    exists ((e :: concat below) :: rest). split.
    + constructor; [|done]. apply (preorder_directory _ _ _ _ children); try done.
      by eapply preorders_of.
    + by rewrite Hes, concat_app, <-app_assoc.
Qed.

(** The trees of the copied paths, one after the other. *)
Inductive copied (f : F) : list P → list LocalClipboardEntry → Prop :=
  | copied_nil : copied f [] []
  | copied_cons path paths name tree rest :
      os_file_name path = Some name → preorder f path (mk_relative [name]) tree →
      copied f paths rest → copied f (path :: paths) (tree ++ rest).

Lemma collect_each_run paths es total f f' es' :
  collect_each paths es total f = (f', Ok es') →
  f' = f ∧ ∃ trees, copied f paths trees ∧ es' = es ++ trees.
Proof.
  revert es total. induction paths as [|path paths IH]; intros es total Hrun.
  - injection Hrun as <- <-. split; [done|]. exists []. split; [constructor|by rewrite app_nil_r].
  - cbn [collect_each] in Hrun.
    apply reads_bind_ok in Hrun as (nm & Hn & Hrun); [|apply reads_lift].
    apply reads_bind_ok in Hrun as (rel & Hrel & Hrun); [|apply reads_lift].
    apply from_local_components_ok in Hrel as [-> _].
    apply comp_bind_ok in Hrun as (f1 & r & Htree & Hrun). unfold collect_tree in Htree.
    apply reads_bind_ok in Htree as (md & _ & Htree); [|apply ensure_not_link_reads].
    apply reads_bind_ok in Htree as (canon & _ & Htree); [|intros g; apply canonicalize_keeps].
    apply tree_loop_run in Htree as (-> & parts & Hparts & Hr).
    inversion Hparts as [|? tree ? parts' Htree Hnil]; subst. inversion Hnil; subst.
    simpl in Htree, Hr. rewrite app_nil_r in Hr.
    apply IH in Hrun as (-> & trees & Htrees & ->). split; [done|].
    exists (tree ++ trees). rewrite Hr, <-app_assoc. split; [|done].
    apply (copied_cons _ _ _ nm); [|done..]. simpl in Hn. unfold utf8_file_name in Hn.
    by destruct (os_file_name path); simplify_eq/=.
Qed.

(** The collected entries are the copied trees in preorder.  While the file system
    does not change, a successful collection lists, for each copied path in turn, its
    entry and, when that is a directory, the trees of all its children in the order of
    their names, each under the directory's relative path: nothing is left out, and
    nothing else is listed. *)
Theorem collect_preorder id paths f f' t :
  collect id paths f = (f', Ok t) → f' = f ∧ copied f (path_from <$> paths) (lt_entries t).
Proof.
  unfold collect. intros Hrun.
  apply reads_bind_ok in Hrun as ([] & _ & Hrun); [|apply reads_lift].
  apply reads_bind_ok in Hrun as ([] & _ & Hrun); [|apply reads_lift].
  apply reads_bind_ok in Hrun as ([] & _ & Hrun); [|apply reads_lift].
  apply comp_bind_ok in Hrun as (f1 & es & Hes & [= <- <-]).
  apply collect_each_run in Hes as (-> & trees & Htrees & ->). done.
Qed.

(** ** Reading *)

(** Where a handle is positioned, [read_exact] reads that many bytes of the file. *)
Class ReadLaws (content : F → Handle → bytes) := {
  file_len_content h f f' n :
    file_len h f = (f', Ok n) → n = N.of_nat (length (content f h)) ∧ content f' h = content f h;
  seek_read h position f f1 f2 n data :
    seek_start h position f = (f1, Ok ()) → read_exact h n f1 = (f2, Ok data) →
    data = take n (drop (N.to_nat position) (content f h)) ∧ length data = n;
}.

(** A verified open: the file is what was collected, up to its bytes. *)
Lemma open_verified_ok entry f f' h `{!ReadLaws content} :
  open_verified entry f = (f', Ok h) → N.of_nat (length (content f' h)) = le_size entry.
Proof.
  unfold open_verified. intros Hrun.
  do 6 (apply comp_bind_ok in Hrun as (? & ? & _ & Hrun)).
  apply comp_bind_ok in Hrun as (f1 & len & Hlen & Hrun).
  apply comp_bind_ok in Hrun as (f2 & [] & Hreq & Hrun). injection Hrun as -> ->.
  unfold require, lift_outcome, ensure in Hreq. destruct (N.eqb_spec len (le_size entry)) as [Hl|];
    [|done]. injection Hreq as ->. by apply file_len_content in Hlen as [-> ->].
Qed.

Lemma take_min_drop {A} (l : list A) (a b n : N) :
  N.of_nat (length l) = n →
  take (N.to_nat (N.min a (n - b))) (drop (N.to_nat b) l) = take (N.to_nat a) (drop (N.to_nat b) l).
Proof.
  intros Hl. destruct (decide (a <= n - b)%N) as [Ha|Ha]; [by rewrite N.min_l|].
  rewrite N.min_r, !take_ge by (rewrite ?length_drop; lia). done.
Qed.

(** A response with [data] from the verified file. *)
Definition served (content : F → Handle → bytes) (entry : LocalClipboardEntry)
    (request : FileContentsRequest) (r : FileContentsResponse) (bs : bytes) : Prop :=
  rs_stream_id r = rq_stream_id request ∧ rs_is_error r = false ∧
  (∃ f0 f1 h, open_verified entry f0 = (f1, Ok h) ∧ bs = content f1 h) ∧
  N.of_nat (length bs) = le_size entry ∧
  if wants_size request then
    rq_position request = 0%N ∧ rq_requested_size request = 8%N ∧ rs_data r = size_data (le_size entry)
  else
    (0 < rq_requested_size request)%N ∧ (rq_position request <= le_size entry)%N ∧
    rs_data r = take (N.to_nat (N.min (rq_requested_size request) MAX_LOCAL_RESPONSE_CHUNK_BYTES))
                  (drop (N.to_nat (rq_position request)) bs).

Lemma require_ok {S} b message (s s' : S) : require b message s = (s', Ok ()) → b = true ∧ s' = s.
Proof. unfold require, lift_outcome, ensure. destruct b; [|done]. by intros [= <-]. Qed.

Lemma size_response_ok content `{!ReadLaws content} entry request f f' r :
  wants_size request = true → size_response entry request f = (f', Ok r) →
  ∃ bs, served content entry request r bs.
Proof.
  unfold size_response, served. intros -> Hrun.
  apply comp_bind_ok in Hrun as (f1 & [] & [Hc ->]%require_ok & Hrun).
  apply comp_bind_ok in Hrun as (f1 & h & Hopen & [= <- <-]).
  unfold SIZE_RESPONSE_BYTES in Hc. bool_to_prop.
  exists (content f1 h). simpl. split_and!; try done; [by exists f, f1, h|].
  by eapply open_verified_ok.
Qed.

Lemma range_response_ok content `{!ReadLaws content} entry request f f' r :
  wants_size request = false → range_response entry request f = (f', Ok r) →
  ∃ bs, served content entry request r bs.
Proof.
  unfold range_response, served. intros -> Hrun.
  apply comp_bind_ok in Hrun as (f1 & [] & [Hpos ->]%require_ok & Hrun).
  apply comp_bind_ok in Hrun as (f1 & [] & [Hpast ->]%require_ok & Hrun).
  apply comp_bind_ok in Hrun as (f1 & h & Hopen & Hrun).
  apply comp_bind_ok in Hrun as (? & rest & [= <- Hrest] & Hrun).
  apply comp_bind_ok in Hrun as (f2 & [] & Hseek & Hrun).
  apply comp_bind_ok in Hrun as (f3 & data & Hread & [= <- <-]).
  bool_to_prop. unfold checked_sub in Hrest.
  rewrite (proj2 (N.leb_le _ _) Hpast) in Hrest. injection Hrest as <-.
  destruct (seek_read _ _ _ _ _ _ _ Hseek Hread) as [Hdata _].
  pose proof (open_verified_ok _ _ _ _ Hopen) as Hlen. exists (content f1 h). simpl.
  split_and!; try done; [by exists f, f1, h|]. by rewrite Hdata, take_min_drop.
Qed.

Lemma served_answers content entry request r bs :
  N.land FLAG_RANGE FLAG_SIZE ≠ FLAG_SIZE →
  served content entry request r bs → answers (λ _, bs) request r.
Proof.
  unfold served, wants_size. intros Hflags (Hid & Herr & _ & Hlen & Hdata). split_and!; [done..| |].
  - intros Hf. rewrite Hf, N.land_diag, N.eqb_refl in Hdata. rewrite Hlen. apply Hdata.
  - intros Hf Hpos Hin. rewrite Hf, (proj2 (N.eqb_neq _ _)) in Hdata by done.
    destruct Hdata as (_ & _ & ->). eexists. split; [|split; [|done]];
      unfold MAX_LOCAL_RESPONSE_CHUNK_BYTES; lia.
Qed.

Lemma open_verified_safe entry φ :
  safely (λ _, φ) (open_verified entry) (λ _ _, φ).
Proof.
  unfold open_verified. eapply safely_bind; [apply ensure_not_link_safe|intros md].
  do 2 (eapply safely_bind; [apply require_safe|intros []]).
  eapply safely_bind with (R := λ _ _, φ).
  { eapply safely_weaken; [apply (call_safe _ φ)|by intros ? (? & ? & ?)|done].
    intros f. apply context_returns, canonicalize_returns. }
  intros canonical. eapply safely_bind; [apply require_safe|intros []].
  eapply safely_bind with (R := λ _ _, φ).
  { eapply safely_weaken; [apply (call_safe _ φ), open_file_returns|by intros ? []|done]. }
  intros h. eapply safely_bind; [apply call_safe, file_len_returns|intros len].
  eapply safely_bind; [apply require_safe|intros []]. apply safely_ret. by intros ? [].
Qed.

Lemma read_entry_safe entry request :
  validate_flags (rq_flags request) ≠ Panic →
  safely (λ _, True) (read_entry entry request) (λ _ _, True).
Proof.
  intros Hflags. unfold read_entry.
  eapply safely_bind; [apply require_safe|intros []]. apply safely_pure. intros _.
  eapply safely_bind; [by apply safely_lift|intros []]. apply safely_pure. intros _.
  destruct (wants_size request).
  - unfold size_response. eapply safely_bind; [apply require_safe|intros []].
    eapply safely_bind; [apply (safely_pre (λ _, True)); [done|apply open_verified_safe]|intros h].
    by apply safely_ret.
  - unfold range_response. eapply safely_bind; [apply require_safe|intros []].
    apply safely_pure. intros _. eapply safely_bind; [apply require_safe|intros []].
    apply safely_pure. intros Hpast. bool_to_prop.
    eapply safely_bind; [apply open_verified_safe|intros h].
    eapply safely_bind; [apply safely_lift|intros rest].
    { unfold checked_sub. by rewrite (proj2 (N.leb_le _ _) Hpast). }
    apply safely_pure. intros _.
    eapply safely_bind; [apply call_safe, seek_start_returns|intros []].
    eapply safely_bind; [apply call_safe, read_exact_returns|intros data]. by apply safely_ret.
Qed.

(** A local file is served faithfully.  Answering a contents request never panics;
    an answer is given only for a regular file whose size and resolved path are still
    those collected, carries the request's stream id and no error, and is the file's
    size, or the bytes at the requested position: as many as requested, up to 4 MiB and
    to the end of the file.  Any such answer is one the fetching side understands. *)
Theorem read_entry_correct content `{!ReadLaws content} entry request f :
  validate_flags (rq_flags request) ≠ Panic →
  N.land FLAG_RANGE FLAG_SIZE ≠ FLAG_SIZE →
  (read_entry entry request f).2 ≠ Panic ∧
  ∀ f' r, read_entry entry request f = (f', Ok r) →
    le_kind entry = File ∧
    ∃ bs, served content entry request r bs ∧ answers (λ _, bs) request r.
Proof.
  intros Hflags Hsep. split.
  { intros Hp. pose proof (read_entry_safe entry request Hflags f I) as Hs. by rewrite Hp in Hs. }
  intros f' r Hrun. unfold read_entry in Hrun.
  apply comp_bind_ok in Hrun as (f1 & [] & [Hk ->]%require_ok & Hrun). bool_to_prop.
  apply comp_bind_ok in Hrun as (f1 & [] & [= <- Hv] & Hrun).
  assert (∃ bs, served content entry request r bs) as [bs Hbs].
  { destruct (wants_size request) eqn:Hw; [by eapply size_response_ok|by eapply range_response_ok]. }
  split; [done|]. exists bs. split; [done|]. by eapply served_answers.
Qed.
End local.

(** ** Witnesses: two files in a directory, in memory *)

Import MemFs.

#[local] Existing Instances ascii_env demo_wire.

#[local] Instance demo_attributes : FileAttributes :=
  {| ATTRIBUTE_DIRECTORY := 16; ATTRIBUTE_ARCHIVE := 32 |}.

Lemma demo_attributes_laws : FileAttributesLaws.
Proof. by split. Qed.

Lemma mem_reads_return : ReadsReturn (F:=fs) (P:=list text) (Handle:=list text).
Proof.
  split; intros; simpl; try done.
  - unfold metadata_of. by repeat case_match.
  - unfold metadata_of. by repeat case_match.
  - simpl in *. simplify_eq. intros (q & Hq & _)%list_elem_of_fmap. done.
  - by case_match.
  - by case_match.
Qed.

Lemma mem_reads_only : ReadsOnly (F:=fs) (P:=list text) (Handle:=list text).
Proof. done. Qed.

Lemma mem_read_laws : ReadLaws (λ f h, default [] (contents f !! h)).
Proof.
  split; simpl.
  - by intros h f f' n [= <- <-].
  - intros h pos f f1 f2 n data [= <-]. simpl. rewrite lookup_insert_eq. simpl.
    case_match eqn:Hn; [|done]. intros [= <- <-]. bool_to_prop.
    rewrite length_take. split; [done|lia].
Qed.

#[local] Existing Instances demo_attributes_laws mem_reads_return mem_reads_only mem_read_laws.

(** [/d] holds [a], with three bytes, and [b], with one. *)
Definition demo_fs : fs :=
  mk_fs {[ [[100%N]] ]}
    (<[ [[100%N]; [97%N]] := [1; 2; 3]%N ]> (<[ [[100%N]; [98%N]] := [9]%N ]> ∅)) ∅ 0.

(** The listing in memory has [b] before [a]. *)
Abbreviation demo_collect :=
  (collect (F:=fs) (P:=list text) reverse 7 [[47; 100]%N]) (only parsing).

Definition demo_entry_d : LocalClipboardEntry :=
  mk_local_entry [[100%N]] [[100%N]] (mk_relative [[100%N]]) Directory 0.
Definition demo_entry_a : LocalClipboardEntry :=
  mk_local_entry [[100%N]; [97%N]] [[100%N]; [97%N]] (mk_relative [[100%N]; [97%N]]) File 3.
Definition demo_entry_b : LocalClipboardEntry :=
  mk_local_entry [[100%N]; [98%N]] [[100%N]; [98%N]] (mk_relative [[100%N]; [98%N]]) File 1.
Definition demo_entries : list LocalClipboardEntry := [demo_entry_d; demo_entry_a; demo_entry_b].

Definition demo_transfer : LocalClipboardTransfer :=
  mk_local_transfer 7 demo_entries (entry_descriptor <$> demo_entries).

Lemma demo_collect_run : demo_collect demo_fs = (demo_fs, Ok demo_transfer).
Proof. vm_compute. reflexivity. Qed.

Lemma collect_offers_acceptable_witness :
  demo_collect demo_fs = (demo_fs, Ok demo_transfer) ∧
  validate (lt_descriptors demo_transfer) = Ok (layout_of (announced <$> demo_entries)).
Proof.
  split; [exact demo_collect_run|].
  destruct (collect_offers_acceptable (F:=fs) (P:=list text) reverse 7 [[47; 100]%N]
    demo_fs) as [_ Hok].
  destruct (Hok _ _ demo_collect_run) as (_ & _ & _ & Hl). apply Hl. split; [|reflexivity].
  apply (bool_decide_unpack _). vm_compute. exact I.
Defined.

Lemma collect_preorder_witness :
  demo_collect demo_fs = (demo_fs, Ok demo_transfer) ∧
  copied reverse demo_fs [[[100%N]]] demo_entries.
Proof.
  split; [exact demo_collect_run|].
  exact (proj2 (collect_preorder (F:=fs) (P:=list text) reverse 7 [[47; 100]%N] demo_fs demo_fs
    demo_transfer demo_collect_run)).
Defined.

(** The two bytes from position 1 of [a]. *)
Definition demo_request : FileContentsRequest := mk_contents_request 5 1 2 1 8 None.

Lemma read_entry_correct_witness :
  ∃ f' r, read_entry (F:=fs) (Handle:=list text) demo_entry_a demo_request demo_fs = (f', Ok r) ∧
    rs_data r = [2; 3]%N ∧ ∃ bs, answers (λ _, bs) demo_request r.
Proof.
  destruct (read_entry (F:=fs) (Handle:=list text) demo_entry_a demo_request demo_fs)
    as [f' [r|e|]] eqn:Hrun; [|discriminate Hrun|discriminate Hrun].
  exists f', r. split; [reflexivity|].
  destruct (read_entry_correct (F:=fs) (P:=list text) _ demo_entry_a demo_request demo_fs) as [_ Hok]; [discriminate|discriminate|].
  destruct (Hok _ _ Hrun) as (_ & bs & _ & Ha). split; [|by exists bs].
  vm_compute in Hrun. injection Hrun as _ <-. reflexivity.
Defined.
