(* ===== verification/ClipBackend.v ===== *)
(** * The clipboard shared by the session and the input thread

    rdp-helper/src/clipboard.rs, clipboard/controller.rs, clipboard/backend.rs and
    clipboard/backend_remote.rs: the state behind a mutex, the calls of the input
    thread (the controller) and the callbacks of the session (the backend).  A call is
    a [proc]: what it does under one lock of the mutex, or by one call outside of it,
    is one atomic action, and the actions of the two threads interleave. *)

From S2P Require Import Prelude RdpProtocol RdpInput ClipPath ClipLayout ClipFs ClipStaging.
From S2P Require Import ClipTransfer ClipLocal.

(** ** Constants of clipboard.rs *)

(** [1 << 63] *)
Definition REMOTE_CLIPBOARD_TRANSFER_BIT : N := 9223372036854775808.
Definition LOCAL_CLIPBOARD_TRANSFER_MASK : N := REMOTE_CLIPBOARD_TRANSFER_BIT - 1.
Definition FIRST_SEQUENCE_ID : N := 1.

(** ** The RDP library's clipboard messages *)

Record ClipboardFormat := mk_format { cf_id : N; cf_name : option text }.

(** Format data, and the constants of the library. *)
Class FormatWire (FD : Type) := {
  CF_UNICODETEXT : N;
  FILE_LIST : text;
  new_unicode_string : text → FD;
  new_error : FD;
  fd_is_error : FD → bool;
  to_unicode_string : FD → option text;
}.

Inductive ClipboardMessage (FD : Type) :=
  | SendInitiateCopy (formats : list ClipboardFormat)
  | SendInitiateFileCopy (descriptors : list FileDescriptor)
  | SendInitiatePaste (format : N)
  | SendFormatData (response : FD)
  | SendFileContentsRequest (request : FileContentsRequest)
  | SendFileContentsResponse (response : FileContentsResponse).
Arguments SendInitiateCopy {FD} formats.
Arguments SendInitiateFileCopy {FD} descriptors.
Arguments SendInitiatePaste {FD} format.
Arguments SendFormatData {FD} response.
Arguments SendFileContentsRequest {FD} request.
Arguments SendFileContentsResponse {FD} response.

(** ** Calls as sequences of atomic actions *)

Inductive proc (W A : Type) : Type :=
  | Done (a : A)
  | Crashed
  | Atomic {B : Type} (action : W → W * B) (rest : B → proc W A).
Arguments Done {W A} a.
Arguments Crashed {W A}.
Arguments Atomic {W A B} action rest.

#[export] Instance proc_ret W : MRet (proc W) := λ A, Done.
#[export] Instance proc_bind W : MBind (proc W) :=
  fix go A B (f : A → proc W B) (p : proc W A) : proc W B :=
    match p with
    | Done a => f a
    | Crashed => Crashed
    | Atomic action rest => Atomic action (λ b, go A B f (rest b))
    end.

(** Without interference. *)
Fixpoint run {W A} (p : proc W A) (w : W) : W * outcome string A :=
  match p with
  | Done a => (w, Ok a)
  | Crashed => (w, Panic)
  | Atomic action rest => run (rest (action w).2) (action w).1
  end.

Section clipboard.
Context `{OsPath P} `{!EqDecision P} `{FileSystem F P Handle} `{PathEnv} `{FileAttributes}
  `{ContentsWire} `{FormatWire FD}.
Context (sort_by_file_name : list (DirEntry P) → list (DirEntry P)).
Context (staging_root : P).
(** Whether the session still takes the [n]th message sent to it. *)
Context (channel_open : nat → bool).

Abbreviation LocalTransfer := (@LocalClipboardTransfer P) (only parsing).
Abbreviation RemoteTransfer := (@RemoteClipboardTransfer P Handle) (only parsing).
(** The id of a transfer; [transfer_id] is the name of arguments below. *)
Abbreviation transfer_id_of := (@ClipTransfer.transfer_id P Handle) (only parsing).

(** ** controller.rs: the state *)

Record TextClipboardState := mk_clipboard_state {
  local_text : option text;
  local_files : option LocalTransfer;
  locked_local_files : gmap N LocalTransfer;
  pending_remote : option N;
  remote_transfer : option RemoteTransfer;
  waiting_remote_text : bool;
  next_remote_sequence : N;
  next_stream_id : N;
}.

Definition new_state : TextClipboardState :=
  mk_clipboard_state None None ∅ None None false FIRST_SEQUENCE_ID 1.

(** What both threads see: the state, the file system, the messages sent to the session
    and the events handed to the output mailbox. *)
Record World := mk_world {
  state : TextClipboardState;
  file_system : F;
  attempts : nat;
  messages : list (ClipboardMessage FD);
  events : list HelperEvent;
}.

Definition set_local (s : TextClipboardState) (t : option text) (fs : option LocalTransfer) :=
  mk_clipboard_state t fs (locked_local_files s) (pending_remote s) (remote_transfer s)
    (waiting_remote_text s) (next_remote_sequence s) (next_stream_id s).
Definition set_locked (s : TextClipboardState) (locks : gmap N LocalTransfer) :=
  mk_clipboard_state (local_text s) (local_files s) locks (pending_remote s) (remote_transfer s)
    (waiting_remote_text s) (next_remote_sequence s) (next_stream_id s).
Definition set_pending (s : TextClipboardState) (p : option N) :=
  mk_clipboard_state (local_text s) (local_files s) (locked_local_files s) p (remote_transfer s)
    (waiting_remote_text s) (next_remote_sequence s) (next_stream_id s).
Definition set_remote (s : TextClipboardState) (t : option RemoteTransfer) :=
  mk_clipboard_state (local_text s) (local_files s) (locked_local_files s) (pending_remote s) t
    (waiting_remote_text s) (next_remote_sequence s) (next_stream_id s).
Definition set_waiting (s : TextClipboardState) (b : bool) :=
  mk_clipboard_state (local_text s) (local_files s) (locked_local_files s) (pending_remote s)
    (remote_transfer s) b (next_remote_sequence s) (next_stream_id s).
Definition set_sequence (s : TextClipboardState) (n : N) :=
  mk_clipboard_state (local_text s) (local_files s) (locked_local_files s) (pending_remote s)
    (remote_transfer s) (waiting_remote_text s) n (next_stream_id s).
Definition set_stream (s : TextClipboardState) (n : N) :=
  mk_clipboard_state (local_text s) (local_files s) (locked_local_files s) (pending_remote s)
    (remote_transfer s) (waiting_remote_text s) (next_remote_sequence s) n.

(** The state under the lock, with the file system that drops may touch. *)
Abbreviation Locked := (TextClipboardState * F)%type (only parsing).
Abbreviation act A := (proc World A) (only parsing).

(** Dropping a transfer reports nothing. *)
Definition dropped (t : option RemoteTransfer) (f : F) : F :=
  match t with Some t => (drop_transfer t f).1 | None => f end.

(** [state.remote_transfer = t]: the transfer that was there is dropped. *)
Definition assign_remote (t : option RemoteTransfer) (s : Locked) : Locked :=
  (set_remote s.1 t, dropped (remote_transfer s.1) s.2).

Definition locked {A} (m : Locked → Locked * A) : act A :=
  Atomic (λ w, let r := m (state w, file_system w) in
               (mk_world r.1.1 r.1.2 (attempts w) (messages w) (events w), r.2)) Done.

Definition locked_ (m : Locked → Locked) : act () := locked (λ s, (m s, ())).

(** A call on the file system, outside of the lock. *)
Definition unlocked {A} (m : F → F * A) : act A :=
  Atomic (λ w, let r := m (file_system w) in
               (mk_world (state w) r.1 (attempts w) (messages w) (events w), r.2)) Done.

(** [output_tx.send(event)]: its result is at most logged. *)
Definition emit (event : HelperEvent) : act () :=
  Atomic (λ w, (mk_world (state w) (file_system w) (attempts w) (messages w)
                  (events w ++ [event]), ())) Done.

Definition sending (message : ClipboardMessage FD) (w : World) : World * outcome string () :=
  if channel_open (attempts w)
  then (mk_world (state w) (file_system w) (S (attempts w)) (messages w ++ [message]) (events w),
        Ok ())
  else (mk_world (state w) (file_system w) (S (attempts w)) (messages w) (events w),
        Err "RDP clipboard input channel closed"%string).

Definition send_clipboard (message : ClipboardMessage FD) : act (outcome string ()) :=
  Atomic (sending message) Done.

(** A failure is only logged. *)
Definition send_clipboard_or_warn (message : ClipboardMessage FD) : act () :=
  send_clipboard message;; mret ().

Definition reserve_remote_transfer (s : Locked) : Locked * N :=
  let s := assign_remote None s in
  let transfer_id := N.lor REMOTE_CLIPBOARD_TRANSFER_BIT (next_remote_sequence s.1) in
  let next := N.land (next_remote_sequence s.1 + 1) LOCAL_CLIPBOARD_TRANSFER_MASK in
  let next := if (next =? 0)%N then FIRST_SEQUENCE_ID else next in
  ((set_pending (set_sequence s.1 next) (Some transfer_id), s.2), transfer_id).

Definition allocate_stream_id (s : TextClipboardState) : TextClipboardState * N :=
  let next := wrap_add u32_max (next_stream_id s) 1 in
  (set_stream s (if (next =? 0)%N then 1%N else next), next_stream_id s).

Definition has_local_id (transfer_id : N) (t : LocalTransfer) : bool :=
  (lt_transfer_id t =? transfer_id)%N.

Definition cancel_local_transfer (transfer_id : N) (s : TextClipboardState)
    : TextClipboardState * bool :=
  let current_matches := match local_files s with
                         | Some t => has_local_id transfer_id t | None => false end in
  let s := if current_matches then set_local s (local_text s) None else s in
  let kept := filter (λ x, has_local_id transfer_id x.2 = false) (locked_local_files s) in
  (set_locked s kept,
   current_matches || negb (size (locked_local_files s) =? size kept)%nat).

Definition local_entry (s : TextClipboardState) (request : FileContentsRequest)
    : option (@LocalClipboardEntry P) :=
  t ← match rq_data_id request with
      | Some data_id => locked_local_files s !! data_id
      | None => local_files s
      end;
  local_entry_at t (rq_index request).

(** ** controller.rs: the calls of the input thread *)

Definition text_formats : list ClipboardFormat := [mk_format CF_UNICODETEXT None].

Definition set_local_text (t : text) : act (outcome string ()) :=
  locked_ (λ s, (set_local s.1 (Some t) None, s.2));;
  send_clipboard (SendInitiateCopy text_formats).

Definition set_local_files (transfer_id : N) (paths : list text) : act (outcome string ()) :=
  if negb (N.land transfer_id REMOTE_CLIPBOARD_TRANSFER_BIT =? 0)%N
  then mret (Err "local clipboard transfer ID uses the remote namespace"%string)
  else
    collected ← unlocked (collect sort_by_file_name transfer_id paths);
    match (collected : outcome string LocalTransfer) with
    | Ok transfer =>
        locked_ (λ s, (set_local s.1 None (Some transfer), s.2));;
        send_clipboard (SendInitiateFileCopy (lt_descriptors transfer))
    | Err e => mret (Err e)
    | Panic => Crashed
    end.

Definition remote_id_is (transfer_id : N) (s : TextClipboardState) : bool :=
  match remote_transfer s with
  | Some t => (transfer_id_of t =? transfer_id)%N
  | None => false
  end.

Definition cancel_transfer (transfer_id : N) : act bool :=
  locked (λ s,
    let '(st, cancelled) := cancel_local_transfer transfer_id s.1 in
    let '(st, cancelled) :=
      if decide (pending_remote st = Some transfer_id) then (set_pending st None, true)
      else (st, cancelled) in
    if remote_id_is transfer_id st then (assign_remote None (st, s.2), true)
    else ((st, s.2), cancelled)).

Definition report_transfer_failure (transfer_id : N) (message : string) : act () :=
  emit (ClipboardTransferFailed transfer_id message).

Definition shutdown : act () :=
  locked_ (λ s,
    let s := (set_pending (set_local s.1 None None) None, s.2) in
    let s := assign_remote None s in
    (set_locked (set_waiting s.1 false) ∅, s.2)).

(** ** backend.rs and backend_remote.rs: the callbacks of the session *)

Definition build_cliprdr_backend : act () :=
  locked_ (λ s,
    let s := assign_remote None (set_pending s.1 None, s.2) in
    (set_locked (set_waiting s.1 false) ∅, s.2)).

Definition send_local_text_response (format : N) : act () :=
  response ← (if (format =? CF_UNICODETEXT)%N
              then locked (λ s, (s, match local_text s.1 with
                                    | Some t => new_unicode_string t
                                    | None => new_error
                                    end))
              else mret new_error : act FD);
  send_clipboard_or_warn (SendFormatData response).

(** [FileContentsResponse::new_error]. *)
Definition contents_error (stream_id : N) : FileContentsResponse :=
  mk_contents_response stream_id true [].

Definition send_local_file_response (request : FileContentsRequest) : act () :=
  entry ← locked (λ s, (s, local_entry s.1 request));
  response ← (match (entry : option (@LocalClipboardEntry P)) with
              | None => mret (Ok (contents_error (rq_stream_id request)))
              | Some entry => unlocked (read_entry entry request)
              end : act (outcome string FileContentsResponse));
  match (response : outcome string FileContentsResponse) with
  | Ok response => send_clipboard_or_warn (SendFileContentsResponse response)
  | Err _ => send_clipboard_or_warn
               (SendFileContentsResponse (contents_error (rq_stream_id request)))
  | Panic => Crashed
  end.

Definition begin_remote_text (available_formats : list ClipboardFormat) : act () :=
  let unicode := existsb (λ f, cf_id f =? CF_UNICODETEXT)%N available_formats in
  locked_ (λ s,
    let s := assign_remote None (set_pending s.1 None, s.2) in
    (set_waiting s.1 unicode, s.2));;
  if unicode then send_clipboard_or_warn (SendInitiatePaste CF_UNICODETEXT) else mret ().

Definition is_file_list (format : ClipboardFormat) : bool :=
  bool_decide (cf_name format = Some FILE_LIST).

Definition begin_remote_copy (available_formats : list ClipboardFormat) : act () :=
  match List.find is_file_list available_formats with
  | Some format =>
      transfer_id ← locked (λ s, reserve_remote_transfer (set_waiting s.1 false, s.2));
      sent ← send_clipboard (SendInitiatePaste (cf_id format));
      match (sent : outcome string ()) with
      | Ok _ => mret ()
      | _ =>
          locked_ (λ s,
            if decide (pending_remote s.1 = Some transfer_id) then (set_pending s.1 None, s.2)
            else s);;
          emit (ClipboardTransferFailed transfer_id
            "RDP clipboard channel closed before the file transfer started")
      end
  | None => begin_remote_text available_formats
  end.

Definition dispatch_remote_result (transfer_id : N) (result : outcome string RemoteTransferAction)
    : act () :=
  match result with
  | Ok (Request request) =>
      sent ← send_clipboard (SendFileContentsRequest request);
      match (sent : outcome string ()) with
      | Ok _ => mret ()
      | _ =>
          locked_ (λ s, if remote_id_is transfer_id s.1 then assign_remote None s else s);;
          emit (ClipboardTransferFailed transfer_id
            "RDP clipboard channel closed during the file transfer")
      end
  | Ok (Ready paths) => emit (ClipboardFilesReady transfer_id paths)
  | Ok Ignore => mret ()
  | Err error => emit (ClipboardTransferFailed transfer_id error)
  | Panic => Crashed
  end.

(** A method of the transfer, on the file system. *)
Definition on_transfer {A} (m : comp (RemoteTransfer * F) string A) (t : RemoteTransfer) (f : F)
    : RemoteTransfer * F * outcome string A :=
  m (t, f).

(** [install_remote_transfer] under its lock: [None] when the id is no longer awaited. *)
Definition install_locked (transfer_id : N) (result : outcome string RemoteTransfer) (s : Locked)
    : Locked * option (outcome string RemoteTransferAction) :=
  if decide (pending_remote s.1 = Some transfer_id) then
    let st := set_pending s.1 None in
    match result with
    | Ok transfer =>
        let '(st, stream_id) := allocate_stream_id st in
        let '(transfer, f, action) := on_transfer (start stream_id) transfer s.2 in
        match action with
        | Ok (Request q) => (assign_remote (Some transfer) (st, f), Some (Ok (Request q)))
        | action => ((st, dropped (Some transfer) f), Some action)
        end
    | Err e => ((st, s.2), Some (Err e))
    | Panic => ((st, s.2), Some Panic)
    end
  else (s, None).

Definition install_remote_transfer (transfer_id : N) (result : outcome string RemoteTransfer)
    : act () :=
  action ← locked (install_locked transfer_id result);
  match (action : option (outcome string RemoteTransferAction)) with
  | Some action => dispatch_remote_result transfer_id action
  | None => match result with
            | Ok transfer => unlocked (λ f, (dropped (Some transfer) f, ()))
            | _ => mret ()
            end
  end.

(** [validate(files).and_then(create)] *)
Definition validate_and_create (files : list FileDescriptor) (transfer_id : N)
    (clip_data_id : option N) : comp F string RemoteTransfer :=
  layout ← lift_outcome (validate files);
  create layout (mk_settings transfer_id staging_root clip_data_id).

Definition receive_remote_files (files : list FileDescriptor) (clip_data_id : option N) : act () :=
  pending ← locked (λ s, (s, pending_remote s.1));
  match (pending : option N) with
  | None => mret ()
  | Some transfer_id =>
      result ← unlocked (validate_and_create files transfer_id clip_data_id);
      match (result : outcome string RemoteTransfer) with
      | Panic => Crashed
      | result => install_remote_transfer transfer_id result
      end
  end.

(** [advance_remote_transfer] under its lock; the last part is dropped at the end. *)
Definition advance_locked (response : FileContentsResponse) (s : Locked)
    : Locked * option (N * outcome string RemoteTransferAction * option RemoteTransfer) :=
  match remote_transfer s.1 with
  | None => (s, None)
  | Some transfer =>
      let id := transfer_id_of transfer in
      let '(st, stream_id) := allocate_stream_id (set_remote s.1 None) in
      let '(transfer, f, action) := on_transfer (advance response stream_id) transfer s.2 in
      match action with
      | Ok (Request _) | Ok Ignore =>
          (assign_remote (Some transfer) (st, f), Some (id, action, None))
      | _ => ((st, f), Some (id, action, Some transfer))
      end
  end.

Definition advance_remote_transfer (response : FileContentsResponse) : act () :=
  advanced ← locked (advance_locked response);
  match (advanced : option (N * outcome string RemoteTransferAction * option RemoteTransfer)) with
  | None => mret ()
  | Some (transfer_id, action, finished) =>
      dispatch_remote_result transfer_id action;;
      match finished with
      | Some t => unlocked (λ f, (dropped (Some t) f, ()))
      | None => mret ()
      end
  end.

Definition cancel_remote_locks (clip_data_ids : list N) : act () :=
  transfer_id ← locked (λ s,
    match remote_transfer s.1 with
    | Some t =>
        match clip_data_id t with
        | Some id =>
            if existsb (λ lock, lock =? id)%N clip_data_ids
            then (assign_remote None s, Some (transfer_id_of t)) else (s, None)
        | None => (s, None)
        end
    | None => (s, None)
    end);
  match (transfer_id : option N) with
  | Some transfer_id => emit (ClipboardTransferFailed transfer_id "remote clipboard snapshot expired")
  | None => mret ()
  end.

(** Text and emptiness are advertised under the lock, files after it. *)
Definition on_request_format_list : act () :=
  Atomic (λ w,
    match local_files (state w) with
    | Some transfer => (w, Some (lt_descriptors transfer))
    | None =>
        ((sending (SendInitiateCopy match local_text (state w) with
                                    | Some _ => text_formats
                                    | None => []
                                    end) w).1, None)
    end)
  (λ descriptors,
    match descriptors with
    | Some descriptors => send_clipboard_or_warn (SendInitiateFileCopy descriptors)
    | None => mret ()
    end).

Definition on_format_data_response (response : FD) : act () :=
  waiting ← locked (λ s, ((set_waiting s.1 false, s.2), waiting_remote_text s.1));
  if negb (waiting : bool) || fd_is_error response then mret ()
  else match to_unicode_string response with
       | Some t => emit (ClipboardText t)
       | None => mret ()
       end.

Definition on_lock (data_id : N) : act () :=
  locked_ (λ s, match local_files s.1 with
                | Some transfer =>
                    (set_locked s.1 (<[data_id := transfer]> (locked_local_files s.1)), s.2)
                | None => s
                end).

Definition on_unlock (data_id : N) : act () :=
  locked_ (λ s, (set_locked s.1 (delete data_id (locked_local_files s.1)), s.2)).

(** ** clipboard.rs: creation, and the interface to the input thread *)

Definition text_clipboard (f : F) : World :=
  mk_world new_state (cleanup_stale_transfers staging_root f).1 0 [] [].

(** A crash of a call is a panic of its caller. *)
Definition flatten {A} (r : World * outcome string (outcome string A)) : World * outcome string A :=
  (r.1, match r.2 with Ok a => a | Err e => Err e | Panic => Panic end).

#[export] Instance clipboard_port : ClipboardPort World := {|
  RdpInput.set_local_text t w := flatten (run (set_local_text t) w);
  RdpInput.set_local_files id paths w := flatten (run (set_local_files id paths) w);
  RdpInput.cancel_transfer id w := (run (cancel_transfer id) w).1;
  RdpInput.report_transfer_failure id message w := (run (report_transfer_failure id message) w).1;
  RdpInput.clipboard_shutdown w := (run shutdown w).1;
|}.
End clipboard.
