(* ===== verification/ClipThreads.v ===== *)
(** * The two threads of the clipboard

    The session's thread runs one callback of ClipBackend.v at a time, the input thread
    one call of the controller; their atomic actions interleave in any order.  An
    invariant of the shared state is kept by every action of the session's thread under
    any interference by the input thread (a rely-guarantee argument over [proc]). *)

From S2P Require Import Prelude RdpProtocol RdpInput ClipPath ClipLayout ClipFs ClipStaging.
From S2P Require Import ClipTransfer ClipLocal ClipBackend.

Create HintDb staging.

Section threads.
Context `{OsPath P} `{!EqDecision P} `{FileSystem F P Handle} `{PathEnv} `{FileAttributes}
  `{ContentsWire} `{FormatWire FD}.
Context (sort_by_file_name : list (DirEntry P) → list (DirEntry P)).
Context (staging_root : P) (channel_open : nat → bool).

Abbreviation W := (@World P F Handle FD) (only parsing).
Abbreviation act A := (proc W A) (only parsing).

(** ** Steps *)

Inductive SessionCall :=
  | BuildBackend
  | OnRequestFormatList
  | OnRemoteCopy (available_formats : list ClipboardFormat)
  | OnFormatDataRequest (format : N)
  | OnFormatDataResponse (response : FD)
  | OnFileContentsRequest (request : FileContentsRequest)
  | OnFileContentsResponse (response : FileContentsResponse)
  | OnLock (data_id : N)
  | OnUnlock (data_id : N)
  | OnRemoteFileList (files : list FileDescriptor) (clip_data_id : option N)
  | OnOutgoingLocksGone (clip_data_ids : list N).

Definition session (call : SessionCall) : act () :=
  match call with
  | BuildBackend => build_cliprdr_backend
  | OnRequestFormatList => on_request_format_list channel_open
  | OnRemoteCopy formats => begin_remote_copy channel_open formats
  | OnFormatDataRequest format => send_local_text_response channel_open format
  | OnFormatDataResponse response => on_format_data_response response
  | OnFileContentsRequest request => send_local_file_response channel_open request
  | OnFileContentsResponse response => advance_remote_transfer channel_open response
  | OnLock id => on_lock id
  | OnUnlock id => on_unlock id
  | OnRemoteFileList files clip => receive_remote_files staging_root channel_open files clip
  | OnOutgoingLocksGone ids => cancel_remote_locks ids
  end.

Inductive InputCall :=
  | SetLocalText (t : text)
  | SetLocalFiles (transfer_id : N) (paths : list text)
  | ReportFailure (transfer_id : N) (message : string)
  | Shutdown.

Definition input (call : InputCall) : act () :=
  match call with
  | SetLocalText t => set_local_text channel_open t;; mret ()
  | SetLocalFiles id paths => set_local_files sort_by_file_name channel_open id paths;; mret ()
  | ReportFailure id message => report_transfer_failure id message
  | Shutdown => shutdown
  end.

Definition remote_id (id : N) : Prop := (REMOTE_CLIPBOARD_TRANSFER_BIT <= id)%N.

(** Ids are [u64], and the host numbers its own transfers without the remote bit. *)
Definition own_numbering (call : InputCall) : Prop :=
  match call with
  | SetLocalFiles id _ => (id <= u64_max)%N
  | ReportFailure id _ => ¬ remote_id id
  | _ => True
  end.

(** [cancelled]: the ids for which [cancel_transfer] has answered [true]. *)
Record Threads := mk_threads {
  world : W;
  session_thread : act ();
  input_thread : act ();
  cancelled : list N;
}.

(** What can be reached with [n] callbacks of the session. *)
Inductive reachable (f : F) : nat → Threads → Prop :=
  | reach_start : reachable f 0 (mk_threads (text_clipboard staging_root f) (Done ()) (Done ()) [])
  | reach_session n w i c call :
      reachable f n (mk_threads w (Done ()) i c) →
      reachable f (S n) (mk_threads w (session call) i c)
  | reach_session_action n w i c B (action : W → W * B) rest :
      reachable f n (mk_threads w (Atomic action rest) i c) →
      reachable f n (mk_threads (action w).1 (rest (action w).2) i c)
  | reach_input n w s c call :
      own_numbering call →
      reachable f n (mk_threads w s (Done ()) c) →
      reachable f n (mk_threads w s (input call) c)
  | reach_input_action n w s c B (action : W → W * B) rest :
      reachable f n (mk_threads w s (Atomic action rest) c) →
      reachable f n (mk_threads (action w).1 s (rest (action w).2) c)
  | reach_cancel n w s c id w' b :
      reachable f n (mk_threads w s (Done ()) c) →
      run (cancel_transfer id) w = (w', Ok b) →
      reachable f n (mk_threads w' s (Done ()) (if b then id :: c else c)).

(** ** What is observed: the outcomes of remote transfers *)

Definition outcome_of (e : HelperEvent) : option N :=
  match e with
  | ClipboardFilesReady id _ | ClipboardTransferFailed id _ =>
      if (REMOTE_CLIPBOARD_TRANSFER_BIT <=? id)%N then Some id else None
  | _ => None
  end.

Definition outcomes (w : W) : list N := omap outcome_of (events w).

Definition ready_of (e : HelperEvent) : option N :=
  match e with ClipboardFilesReady id _ => Some id | _ => None end.

Definition readied (w : W) : list N := omap ready_of (events w).

(** The transfer the state waits for or runs. *)
Definition live (s : @TextClipboardState P Handle) (id : N) : Prop :=
  pending_remote s = Some id ∨
  ∃ t, remote_transfer s = Some t ∧ ClipTransfer.transfer_id t = id.

Definition reserved (s : @TextClipboardState P Handle) (id : N) : Prop :=
  ∃ k, (1 <= k)%N ∧ (k < next_remote_sequence s)%N ∧ id = (REMOTE_CLIPBOARD_TRANSFER_BIT + k)%N.

(** Transfers offered by the host have ids of its own. *)
Definition locals_ok (s : @TextClipboardState P Handle) : Prop :=
  (∀ t, local_files s = Some t → ¬ remote_id (lt_transfer_id t)) ∧
  (∀ d t, locked_local_files s !! d = Some t → ¬ remote_id (lt_transfer_id t)).

Record invariant (n : nat) (w : W) (c : list N) : Prop := {
  i_sequence : (1 <= next_remote_sequence (state w))%N ∧
               (next_remote_sequence (state w) <= N.of_nat n + 1)%N;
  i_outcomes : Forall (reserved (state w)) (outcomes w);
  i_once : NoDup (outcomes w);
  i_live id : live (state w) id → reserved (state w) id ∧ (id ∉ outcomes w) ∧ (id ∉ c);
  i_exclusive : pending_remote (state w) ≠ None → remote_transfer (state w) = None;
  i_sound t : remote_transfer (state w) = Some t → within_limits t ∧ outstanding_ok t;
  i_cancelled id : id ∈ c → remote_id id → reserved (state w) id;
  i_readied id : id ∈ readied w → reserved (state w) id ∧ (id ∉ c);
  i_locals : locals_ok (state w);
}.

(** ** Interference of the input thread *)

Record interferes (w w' : W) (c c' : list N) : Prop := {
  f_outcomes : outcomes w' = outcomes w;
  f_readied : readied w' = readied w;
  f_sequence : next_remote_sequence (state w') = next_remote_sequence (state w);
  f_pending : pending_remote (state w') = pending_remote (state w) ∨
              pending_remote (state w') = None;
  f_remote : remote_transfer (state w') = remote_transfer (state w) ∨
             remote_transfer (state w') = None;
  f_cancelled id : id ∈ c' → (id ∈ c) ∨ ¬ remote_id id ∨ (live (state w) id ∧ ¬ live (state w') id);
  f_kept id : id ∈ c → id ∈ c';
  f_locals : locals_ok (state w) → locals_ok (state w');
}.

Lemma live_interferes w w' c c' id : interferes w w' c c' → live (state w') id → live (state w) id.
Proof.
  intros [_ _ _ Hp Hr _ _ _] [Hid|(t & Ht & Hid)].
  - left. destruct Hp as [Hp|Hp]; congruence.
  - right. exists t. split; [|done]. destruct Hr; congruence.
Qed.

Lemma reserved_remote s id : reserved s id → remote_id id.
Proof. intros (k & _ & _ & ->). unfold remote_id. lia. Qed.

Lemma invariant_interferes n w w' c c' :
  interferes w w' c c' → invariant n w c → invariant n w' c'.
Proof.
  intros Hi. pose proof Hi as [Ho Hr Hs Hp Ht Hc Hk Hl].
  intros [I1 I2 I3 I4 I5 I6 I7 I8 I9].
  assert (∀ id, reserved (state w') id ↔ reserved (state w) id) as Hres
    by (intros id; unfold reserved; by rewrite Hs).
  split.
  - by rewrite Hs.
  - rewrite Ho. eapply Forall_impl; [exact I2|]. intros id. apply Hres.
  - by rewrite Ho.
  - intros id Hlive. pose proof (live_interferes _ _ _ _ _ Hi Hlive) as Hlive'.
    destruct (I4 id Hlive') as (H1' & H2' & H3'). rewrite Hres, Ho. split_and!; [done..|].
    intros [Hin|[Hrem|[_ Hn]]]%Hc; [done| |done]. by eapply Hrem, reserved_remote.
  - destruct Hp as [Hp|Hp]; rewrite Hp; [|done]. intros Hn. destruct Ht as [Ht|Ht]; [|done].
    rewrite Ht. by apply I5.
  - intros t. destruct Ht as [Ht|Ht]; rewrite Ht; [apply I6|done].
  - intros id Hin Hrem. rewrite Hres. apply Hc in Hin as [Hin|[?|[Hlive _]]]; [by apply I7|done|].
    by apply I4.
  - intros id Hin. rewrite Hr in Hin. rewrite Hres. destruct (I8 id Hin) as [H1' H2'].
    split; [done|]. intros [Hin'|[Hrem|[Hlive _]]]%Hc; [done| |].
    + by eapply Hrem, reserved_remote.
    + destruct (I4 id Hlive) as (_ & Hno & _). apply Hno. unfold outcomes, readied in *.
      apply list_elem_of_omap in Hin as (e & He & Hre). apply list_elem_of_omap. exists e.
      split; [done|]. destruct e; simplify_eq/=. apply reserved_remote in H1'.
      unfold remote_id in H1'. by rewrite (proj2 (N.leb_le _ _) H1').
  - by apply Hl.
Qed.

(** Every action of [p] interferes at most, and [p] does not crash. *)
Fixpoint input_ok {A} (p : act A) : Prop :=
  match p with
  | Done _ => True
  | Crashed => False
  | Atomic action rest =>
      ∀ w c, interferes w (action w).1 c c ∧ input_ok (rest (action w).2)
  end.

Lemma input_ok_bind {A B} (p : act A) (k : A → act B) :
  input_ok p → (∀ a, input_ok (k a)) → input_ok (p ≫= k).
Proof.
  intros Hp Hk. induction p as [a| |B' action rest IH]; simpl in *; [done|done|].
  intros w c. destruct (Hp w c) as [Hi Hr]. split; [done|]. by apply IH.
Qed.

Lemma interferes_refl w c : interferes w w c c.
Proof. split; auto. Qed.

(** An action that leaves the remote side of the state alone. *)
Lemma interferes_same (w w' : W) c :
  events w' = events w → next_remote_sequence (state w') = next_remote_sequence (state w) →
  (pending_remote (state w') = pending_remote (state w) ∨ pending_remote (state w') = None) →
  (remote_transfer (state w') = remote_transfer (state w) ∨ remote_transfer (state w') = None) →
  (locals_ok (state w) → locals_ok (state w')) → interferes w w' c c.
Proof.
  intros He Hs Hp Hr Hl. split; unfold outcomes, readied; rewrite ?He; auto.
Qed.

Lemma send_clipboard_input m : input_ok (send_clipboard channel_open m).
Proof.
  intros w c. split; [|done]. unfold sending. simpl. case_match; apply interferes_same; auto.
Qed.

Lemma land_bit_local id :
  (N.land id REMOTE_CLIPBOARD_TRANSFER_BIT =? 0)%N = true → (id <= u64_max)%N → ¬ remote_id id.
Proof.
  intros Hz%N.eqb_eq Hmax Hrem. unfold remote_id, REMOTE_CLIPBOARD_TRANSFER_BIT in *.
  assert (N.testbit id 63 = true) as Hbit.
  { rewrite N.testbit_eqb. change (2 ^ 63)%N with 9223372036854775808%N.
    rewrite <-(N.div_unique id 9223372036854775808 1 (id - 9223372036854775808)) by lia. done. }
  assert (N.testbit (N.land id 9223372036854775808) 63 = true) as Hb.
  { rewrite N.land_spec, Hbit. done. }
  by rewrite Hz in Hb.
Qed.

Context `{!ReadsReturn (F:=F) (P:=P) (Handle:=Handle)}.

Lemma set_local_files_input id paths :
  (id <= u64_max)%N → input_ok (set_local_files sort_by_file_name channel_open id paths).
Proof.
  intros Hmax. unfold set_local_files. destruct (_ =? _)%N eqn:Hbit; [|done]. simpl.
  intros w c. split; [apply interferes_same; auto|].
  pose proof (collect_safe sort_by_file_name id paths (file_system w) I) as Hs.
  destruct (collect _ _ _ _) as [f' [t|e|]]; simpl in *; [|done..].
  destruct Hs as (_ & Hid & _). intros w' c'. split; [|apply send_clipboard_input].
  apply interferes_same; simpl; auto. intros [_ Hl2]. split; [|done].
  intros t' [= <-]. rewrite Hid. by apply land_bit_local.
Qed.

(** A transfer of the host's is found under an id only if the id is the host's own. *)
Lemma cancel_local_ok id s :
  locals_ok s →
  let r := cancel_local_transfer id s in
  locals_ok r.1 ∧ next_remote_sequence r.1 = next_remote_sequence s ∧
  pending_remote r.1 = pending_remote s ∧ remote_transfer r.1 = remote_transfer s ∧
  (r.2 = true → ¬ remote_id id).
Proof.
  intros [Hl1 Hl2]. unfold cancel_local_transfer. simpl.
  set (matches := match local_files s with Some t => has_local_id id t | None => false end).
  split_and!; try (by destruct matches).
  - split; simpl.
    + intros t. destruct matches; simpl; [done|apply Hl1].
    + intros d t [Hd _]%map_lookup_filter_Some. destruct matches; by eapply Hl2.
  - intros [Hm|Hsize]%orb_true_iff Hrem.
    + unfold matches in Hm. destruct (local_files s) as [t|] eqn:Ht; [|done].
      apply N.eqb_eq in Hm. apply (Hl1 t eq_refl). by rewrite Hm.
    + apply negb_true_iff, Nat.eqb_neq in Hsize. apply Hsize. f_equal.
      symmetry. assert (locked_local_files (if matches then set_local s (local_text s) None else s) =
        locked_local_files s) as Heq by (by destruct matches). rewrite Heq.
      apply map_filter_id. intros d t Ht. apply N.eqb_neq. intros Hid.
      apply (Hl2 d t Ht). simpl in Hid. by rewrite Hid.
Qed.

Lemma input_call_ok call : own_numbering call → input_ok (input call).
Proof.
  destruct call as [t|id paths|id message|]; intros Hown; simpl.
  - intros w c. split; [|intros w' c'; split; [apply (send_clipboard_input _ w')|done]].
    apply interferes_same; simpl; auto. intros [_ Hl2]. by split.
  - by apply input_ok_bind; [apply set_local_files_input|].
  - intros w c. split; [|done].
    assert (outcome_of (ClipboardTransferFailed id message) = None) as Ho.
    { simpl in *. unfold remote_id in Hown. by rewrite (proj2 (N.leb_gt _ _)) by lia. }
    split; auto; unfold outcomes, readied; simpl; rewrite omap_app; simpl in *;
      rewrite ?Ho, app_nil_r; done.
  - intros w c. split; [|done]. apply interferes_same; simpl; auto. intros _. by split.
Qed.

(** Cancelling: [true] only if the id was the host's own or that of the live transfer,
    which is then gone. *)
Lemma cancel_interferes id w w' b c :
  run (cancel_transfer id) w = (w', Ok b) → locals_ok (state w) →
  interferes w w' c (if b then id :: c else c).
Proof.
  intros Hrun Hlocals.
  pose proof (cancel_local_ok id _ Hlocals) as Hc.
  unfold cancel_transfer, locked in Hrun. cbn [run fst snd] in Hrun.
  destruct (cancel_local_transfer id (state w)) as [s1 b1]. cbn [fst snd] in Hc.
  injection Hrun as <- <-.
  destruct Hc as (Hl & Hs & Hp & Hr & Hb). unfold remote_id_is.
  assert (∀ s2 : TextClipboardState, locals_ok s2 → next_remote_sequence s2 = next_remote_sequence (state w) →
    (pending_remote s2 = pending_remote (state w) ∨ pending_remote s2 = None) →
    (remote_transfer s2 = remote_transfer (state w) ∨ remote_transfer s2 = None) →
    ∀ f c', c' = c ∨ c' = id :: c ∧ (¬ remote_id id ∨ live (state w) id ∧ ¬ live s2 id) →
    interferes w (mk_world s2 f (attempts w) (messages w) (events w)) c c') as Hgen.
  { intros s2 Hl' Hs' Hp' Hr' f c' [->|[-> Hc']]; split; auto; simpl.
    - intros id' [->|Hin]%elem_of_cons; [|by left]. by right.
    - intros id' Hin. by right. }
  destruct (decide _) as [Hpend|Hpend]; simpl;
    (destruct (remote_transfer s1) as [t|] eqn:Ht; [destruct (N.eqb_spec (ClipTransfer.transfer_id t) id) as [Hid|Hid]|]);
    simpl; (apply Hgen; [exact Hl|simpl; auto..|]); simpl; rewrite ?Ht; auto;
    try (destruct b1; [|by left]; right; split; [done|]; left; by apply Hb);
    right; (split; [done|]); right; unfold live; simpl; rewrite <-?Hp, <-Hr; split;
    try (by left); try (by right; exists t); intros [?|(t' & ? & ?)]; simplify_eq/=.
Qed.

(** ** The session's thread: assertions and rules *)

Abbreviation assertion := (W → list N → Prop) (only parsing).

Definition stable (L : assertion) : Prop :=
  ∀ w w' c c', interferes w w' c c' → L w c → L w' c'.

(** From the invariant and [L], the rest of a call keeps the invariant and does not
    crash, whatever the input thread does in between. *)
Fixpoint session_ok (n : nat) {A} (p : act A) (L : assertion) : Prop :=
  match p with
  | Done _ => True
  | Crashed => False
  | Atomic action rest =>
      ∀ w c, invariant n w c → L w c →
        invariant n (action w).1 c ∧
        ∃ L', stable L' ∧ L' (action w).1 c ∧ session_ok n (rest (action w).2) L'
  end.

Definition no_assertion : assertion := λ _ _, True.

(** Reserved, and no outcome was reported. *)
Definition unreported (id : N) : assertion := λ w _, reserved (state w) id ∧ (id ∉ outcomes w).

(** The same, and the state no longer knows it. *)
Definition finished (id : N) : assertion := λ w c, unreported id w c ∧ ¬ live (state w) id.

(** The same, and it was not cancelled. *)
Definition completed (id : N) : assertion := λ w c, finished id w c ∧ (id ∉ c).

Lemma no_assertion_stable : stable no_assertion.
Proof. done. Qed.

Lemma unreported_stable id : stable (unreported id).
Proof.
  intros w w' c c' Hi [Hr Ho]. split.
  - unfold reserved in *. by rewrite (f_sequence _ _ _ _ Hi).
  - by rewrite (f_outcomes _ _ _ _ Hi).
Qed.

Lemma finished_stable id : stable (finished id).
Proof.
  intros w w' c c' Hi [Hu Hl]. split; [by eapply unreported_stable|].
  intros Hlive. apply Hl. by eapply live_interferes.
Qed.

Lemma completed_stable id : stable (completed id).
Proof.
  intros w w' c c' Hi [Hf Hc]. split; [by eapply finished_stable|].
  intros [?|[Hn|[Hl _]]]%(f_cancelled _ _ _ _ Hi); [done| |by apply Hf].
  destruct Hf as [[Hr _] _]. by apply Hn, (reserved_remote _ _ Hr).
Qed.

(** Interference by the session's own actions is harmless too. *)
Lemma session_ok_input n {A} (p : act A) : input_ok p → session_ok n p no_assertion.
Proof.
  induction p as [a| |B action rest IH]; simpl; [done..|].
  intros Hok w c Hinv _. destruct (Hok w c) as [Hi Hr].
  split; [by eapply invariant_interferes|]. exists no_assertion. split_and!; [done..|by apply IH].
Qed.

Lemma session_ok_weaken n {A} (p : act A) (L L' : assertion) :
  (∀ w c, L' w c → L w c) → session_ok n p L → session_ok n p L'.
Proof. destruct p; simpl; [done..|]. intros HL Hp w c Hinv Hw. apply Hp; auto. Qed.

Lemma session_ok_bind n {A B} (p : act A) (k : A → act B) L :
  session_ok n p L → (∀ a, session_ok n (k a) no_assertion) → session_ok n (p ≫= k) L.
Proof.
  intros Hp Hk. revert L Hp. induction p as [a| |B' action rest IH]; intros L; simpl.
  - intros _. by apply (session_ok_weaken _ _ no_assertion).
  - done.
  - intros Hp w c Hinv HL. destruct (Hp w c Hinv HL) as (Hinv' & L' & Hst & HL' & Hrest).
    split; [done|]. exists L'. split_and!; [done..|by apply IH].
Qed.

(** An action outside of the state keeps every stable assertion. *)
Lemma session_quiet n {A B} (action : W → W * B) (rest : B → act A) L :
  stable L → (∀ w c, interferes w (action w).1 c c) →
  (∀ w, session_ok n (rest (action w).2) L) → session_ok n (Atomic action rest) L.
Proof.
  intros Hst Hi Hrest w c Hinv HL. split; [by eapply invariant_interferes|].
  exists L. split_and!; [done|by eapply Hst|done].
Qed.

Lemma sending_interferes m w c : interferes w (sending channel_open m w).1 c c.
Proof. unfold sending. by case_match; apply interferes_same; auto. Qed.

(** Reporting the outcome of a finished transfer. *)
Lemma report_invariant n (w w' : W) c e id :
  invariant n w c → finished id w c → state w' = state w → events w' = events w ++ [e] →
  outcome_of e = Some id → (ready_of e = None ∨ ready_of e = Some id ∧ (id ∉ c)) →
  invariant n w' c.
Proof.
  intros [I1 I2 I3 I4 I5 I6 I7 I8 I9] [[Hr Ho] Hl] Hs He Hoe Hre.
  assert (outcomes w' = outcomes w ++ [id]) as Ho'.
  { unfold outcomes. rewrite He, omap_app. simpl. by rewrite Hoe. }
  assert (∀ x, x ∈ readied w' → x ∈ readied w ∨ (x = id ∧ (id ∉ c))) as Hr'.
  { intros x. unfold readied. rewrite He, omap_app, elem_of_app. intros [Hx|Hx]; [by left|].
    simpl in Hx. destruct Hre as [Hre|[Hre Hnc]]; rewrite Hre in Hx; [by apply elem_of_nil in Hx|].
    apply list_elem_of_singleton in Hx. by right. }
  split; rewrite ?Hs, ?Ho'; try done.
  - apply Forall_app_2; [done|by apply Forall_singleton].
  - apply NoDup_snoc. by split.
  - intros id' Hlive. destruct (I4 id' Hlive) as (H1' & H2' & H3'). split_and!; [done| |done].
    intros [Hin|Hin%list_elem_of_singleton]%elem_of_app; [done|]. by subst.
  - intros id' [Hin|[-> Hnc]]%Hr'; [by apply I8|done].
Qed.

Lemma outcome_reserved s id : reserved s id → (REMOTE_CLIPBOARD_TRANSFER_BIT <=? id)%N = true.
Proof. intros Hr. apply N.leb_le. apply (reserved_remote _ _ Hr). Qed.

Lemma emit_failed_ok n id message :
  session_ok n (emit (ClipboardTransferFailed id message) : act ()) (finished id).
Proof.
  intros w c Hinv Hf. split; [|exists no_assertion; by split_and!].
  eapply (report_invariant n w _ c _ id); try done; [|by left].
  destruct Hf as [[Hr _] _]. unfold outcome_of. by rewrite (outcome_reserved _ _ Hr).
Qed.

Lemma emit_ready_ok n id paths :
  session_ok n (emit (ClipboardFilesReady id paths) : act ()) (completed id).
Proof.
  intros w c Hinv [Hf Hc]. split; [|exists no_assertion; by split_and!].
  eapply (report_invariant n w _ c _ id); try done; [|by right].
  destruct Hf as [[Hr _] _]. unfold outcome_of. by rewrite (outcome_reserved _ _ Hr).
Qed.

(** An action that interferes at most, and establishes [L']. *)
Lemma session_clear n {A B} (action : W → W * B) (rest : B → act A) (L L' : assertion) :
  stable L' → (∀ w c, interferes w (action w).1 c c) →
  (∀ w c, invariant n w c → L w c → L' (action w).1 c) →
  (∀ w, session_ok n (rest (action w).2) L') → session_ok n (Atomic action rest) L.
Proof.
  intros Hst Hi HL Hrest w c Hinv Hw. split; [by eapply invariant_interferes|].
  exists L'. split_and!; [done|by apply HL|done].
Qed.

(** ** A new remote copy *)

Definition sequence_below (n : nat) : assertion := λ w _,
  (next_remote_sequence (state w) <= N.of_nat n)%N.

Lemma sequence_below_stable n : stable (sequence_below n).
Proof. intros w w' c c' Hi. unfold sequence_below. by rewrite (f_sequence _ _ _ _ Hi). Qed.

(** Below the last number, the sequence does not wrap. *)
Lemma next_sequence k :
  (1 <= k)%N → (k + 1 < REMOTE_CLIPBOARD_TRANSFER_BIT)%N →
  N.lor REMOTE_CLIPBOARD_TRANSFER_BIT k = (REMOTE_CLIPBOARD_TRANSFER_BIT + k)%N ∧
  N.land (k + 1) LOCAL_CLIPBOARD_TRANSFER_MASK = (k + 1)%N.
Proof.
  intros Hk Hlt. unfold LOCAL_CLIPBOARD_TRANSFER_MASK, REMOTE_CLIPBOARD_TRANSFER_BIT in *. split.
  - assert (N.land 9223372036854775808 k = 0)%N as Hl.
    { apply N.bits_inj_0. intros i. rewrite N.land_spec.
      change 9223372036854775808%N with (2 ^ 63)%N in *.
      destruct (decide (i = 63%N)) as [->|Hi]; [|by rewrite N.pow2_bits_false by done].
      rewrite N.pow2_bits_true. simpl. apply N.bits_above_log2. apply N.log2_lt_pow2; [lia|].
      change (2 ^ 63)%N with 9223372036854775808%N in *. lia. }
    rewrite <-N.lxor_lor, <-N.add_nocarry_lxor by done. done.
  - change (9223372036854775808 - 1)%N with (N.ones 63).
    rewrite N.land_ones. apply N.mod_small. change (2 ^ 63)%N with 9223372036854775808%N. lia.
Qed.

Lemma reserve_ok n (w : W) c f waiting :
  (N.of_nat n + 1 < REMOTE_CLIPBOARD_TRANSFER_BIT)%N →
  invariant n w c → sequence_below n w c →
  let r := reserve_remote_transfer (set_waiting (state w) waiting, f) in
  ∀ a m, let w' := mk_world r.1.1 r.1.2 a m (events w) in
  invariant n w' c ∧ unreported r.2 w' c.
Proof.
  intros Hn [I1 I2 I3 I4 I5 I6 I7 I8 I9] Hseq r a m w'. unfold sequence_below in Hseq.
  destruct (next_sequence (next_remote_sequence (state w))) as [Hor Hand]; [lia|lia|].
  assert (r.2 = REMOTE_CLIPBOARD_TRANSFER_BIT + next_remote_sequence (state w))%N as Hid by exact Hor.
  assert (next_remote_sequence (state w') = next_remote_sequence (state w) + 1)%N as Hs.
  { simpl. rewrite Hand. by rewrite (proj2 (N.eqb_neq _ _)) by lia. }
  assert (∀ id, reserved (state w) id → reserved (state w') id) as Hmono.
  { intros id (k & Hk1 & Hk2 & ->). exists k. rewrite Hs. split_and!; [done|lia|done]. }
  assert (reserved (state w') r.2) as Hnew.
  { exists (next_remote_sequence (state w)). rewrite Hs, Hid. split_and!; [lia|lia|done]. }
  assert (¬ reserved (state w) r.2) as Hold.
  { rewrite Hid. intros (k & Hk1 & Hk2 & Hk). lia. }
  assert (r.2 ∉ outcomes w) as Hout.
  { intros Hin. rewrite Forall_forall in I2. by apply Hold, I2. }
  split; [|by split]. split; try done.
  - rewrite Hs. lia.
  - eapply Forall_impl; [exact I2|done].
  - intros id [Hp|(t & Ht & _)]; [|done]. injection Hp as <-. split_and!; [done..|].
    intros Hin. apply Hold, I7; [done|]. by eapply reserved_remote.
  - intros id Hin Hrem. by apply Hmono, I7.
  - intros id Hin. destruct (I8 id Hin). auto.
Qed.

Lemma begin_remote_text_input formats : input_ok (begin_remote_text channel_open formats).
Proof.
  intros w c. split; [|case_match; [apply input_ok_bind; [apply send_clipboard_input|done]|done]].
  apply interferes_same; simpl; auto.
Qed.

(** Forgetting a transfer and reporting its failure. *)
Lemma forget_and_fail n id (forget : _ → _) message L :
  (∀ (w : W) c, interferes w (mk_world (forget (state w, file_system w)).1
    (forget (state w, file_system w)).2 (attempts w) (messages w) (events w)) c c) →
  (∀ (w : W) c, invariant n w c → L w c →
    unreported id w c ∧ ¬ live (forget (state w, file_system w)).1 id) →
  session_ok n (locked_ forget;; emit (ClipboardTransferFailed id message)) L.
Proof.
  intros Hi Hforget. apply (session_clear _ _ _ _ (finished id)).
  - apply finished_stable.
  - intros w c. apply Hi.
  - intros w c Hinv HL. destruct (Hforget w c Hinv HL) as [Hu Hl]. split; [|done].
    by apply (unreported_stable id _ _ c c (Hi w c)).
  - intros w. apply emit_failed_ok.
Qed.

(** The id is what the state waits for: nothing of it runs yet. *)
Definition waited (id : N) : assertion := λ w c,
  unreported id w c ∧ ∀ t, remote_transfer (state w) = Some t → ClipTransfer.transfer_id t ≠ id.

Lemma waited_stable id : stable (waited id).
Proof.
  intros w w' c c' Hi [Hu Hp]. split; [by eapply unreported_stable|].
  by destruct (f_remote _ _ _ _ Hi) as [->| ->].
Qed.

Lemma begin_remote_copy_ok n formats :
  (N.of_nat n + 1 < REMOTE_CLIPBOARD_TRANSFER_BIT)%N →
  session_ok n (begin_remote_copy channel_open formats) (sequence_below n).
Proof.
  intros Hn. unfold begin_remote_copy. destruct (List.find _ _) as [format|].
  2: { apply (session_ok_weaken _ _ no_assertion); [done|].
       apply session_ok_input, begin_remote_text_input. }
  intros w c Hinv Hseq.
  destruct (reserve_ok n w c (file_system w) false Hn Hinv Hseq (attempts w) (messages w))
    as [Hinv' Hunr].
  split; [exact Hinv'|]. exists (waited (reserve_remote_transfer
    (set_waiting (state w) false, file_system w)).2).
  split; [apply waited_stable|]. split; [by split|].
  cbn [snd]. set (id := (reserve_remote_transfer _).2).
  apply session_quiet; [apply waited_stable|apply sending_interferes|]. intros w1. cbn beta.
  destruct (sending _ _ w1).2 as [[]|e|]; [done| |]; apply forget_and_fail.
  1, 3: intros w' c'; case_decide; apply interferes_same; simpl; auto.
  all: intros w' c' _ [Hu Hp]; (split; [done|]); simpl; case_decide; intros [?|(t & Ht & Hid)];
    simpl in *; try done; by apply (Hp t).
Qed.

(** ** Dispatching *)

(** After the request for a file, the transfer runs, unless the request was not sent. *)
Definition requested (id : N) : assertion := λ w c,
  unreported id w c ∧ pending_remote (state w) ≠ Some id.

Lemma requested_stable id : stable (requested id).
Proof.
  intros w w' c c' Hi [Hu Hp]. split; [by eapply unreported_stable|].
  destruct (f_pending _ _ _ _ Hi) as [->| ->]; done.
Qed.

Definition dispatchable (id : N) (result : outcome string RemoteTransferAction) : assertion :=
  match result with
  | Ok (Request _) => requested id
  | Ok (Ready _) => completed id
  | Ok Ignore => no_assertion
  | Err _ => finished id
  | Panic => λ _ _, False
  end.

Lemma dispatchable_stable id result : stable (dispatchable id result).
Proof.
  destruct result as [[]|e|]; [apply requested_stable|apply completed_stable|
    apply no_assertion_stable|apply finished_stable|by intros w w' c c']. 
Qed.

Lemma remote_id_is_spec id (s : @TextClipboardState P Handle) t :
  remote_transfer s = Some t → ClipTransfer.transfer_id t = id → remote_id_is id s = true.
Proof. intros Ht <-. unfold remote_id_is. rewrite Ht. apply N.eqb_refl. Qed.

Lemma dispatch_ok n id result :
  result ≠ Panic →
  session_ok n (dispatch_remote_result channel_open id result) (dispatchable id result).
Proof.
  intros Hp. destruct result as [[request|paths|]|error|]; [|apply emit_ready_ok|done|
    apply emit_failed_ok|done].
  apply session_quiet; [apply requested_stable|apply sending_interferes|].
  intros w. cbn beta. destruct (sending _ _ w).2 as [[]|e|]; [done| |]; apply forget_and_fail.
  1, 3: intros w' c'; simpl; case_match; apply interferes_same; simpl; auto.
  all: intros w' c' _ [Hu Hpend]; (split; [done|]); simpl;
    destruct (remote_id_is id (state w')) eqn:Hid; intros [?|(t & Ht & Hid')]; simpl in *; try done.
  all: by rewrite (remote_id_is_spec id _ t Ht Hid') in Hid.
Qed.

(** ** Receiving a file list *)

(** The calls that prepare and remove a staging directory return. *)
Class StagingReturns := {
  create_dir_all_returns (p : P) (f : F) : (create_dir_all (Handle:=Handle) p f).2 ≠ Panic;
  create_dir_returns (p : P) (f : F) : (create_dir (Handle:=Handle) p f).2 ≠ Panic;
  set_permissions_returns (p : P) mode (f : F) :
    (set_permissions (Handle:=Handle) p mode f).2 ≠ Panic;
  tempdir_in_returns (p : P) prefix (f : F) :
    (tempdir_in (Handle:=Handle) p prefix f).2 ≠ Panic;
  remove_dir_all_returns (p : P) (f : F) : (remove_dir_all (Handle:=Handle) p f).2 ≠ Panic;
}.

Context `{!StagingReturns} `{!FilesReturn (F:=F) (P:=P) (Handle:=Handle)}.

Abbreviation io A := (comp F string A) (only parsing).

Definition returns {A} (m : io A) : Prop := ∀ f, (m f).2 ≠ Panic.

Lemma clip_returns_bind {A B} (m : io A) (k : A → io B) :
  returns m → (∀ a, returns (k a)) → returns (m ≫= k).
Proof.
  intros Hm Hk f. rewrite comp_bind_run. specialize (Hm f).
  destruct (m f) as [f' [a|e|]]; simpl in *; [apply Hk|done|done].
Qed.

Lemma returns_context {A} message (m : io A) : returns m → returns (context message m).
Proof. intros Hm f. by apply context_returns. Qed.

Lemma returns_attempt {A} (m : io A) : returns m → returns (attempt (F:=string) m).
Proof. intros Hm f. specialize (Hm f). unfold attempt. by destruct (m f) as [? []]. Qed.

Lemma returns_require b message : returns (require b message).
Proof. intros f. by destruct b. Qed.

Lemma clip_returns_ret {A} (a : A) : returns (mret a).
Proof. done. Qed.

Hint Resolve returns_require clip_returns_ret returns_context returns_attempt
  symlink_metadata_returns canonicalize_returns create_dir_all_returns create_dir_returns
  set_permissions_returns tempdir_in_returns remove_dir_all_returns : staging.

(** A sequence of calls that return. *)
Ltac returns_steps :=
  repeat first
    [apply clip_returns_bind; [|intros ?]
    |apply returns_context
    |apply returns_attempt
    |apply returns_require
    |match goal with |- context [match ?x with _ => _ end] => destruct x end
    |by intros ?; auto with staging
    |by intros ?].

Lemma remove_transfer_directory_returns path root :
  returns (remove_transfer_directory (P:=P) (F:=F) (Handle:=Handle) path root).
Proof. unfold remove_transfer_directory. returns_steps. Qed.

Lemma create_transfer_directory_returns root id :
  returns (create_transfer_directory (P:=P) (F:=F) (Handle:=Handle) root id).
Proof.
  unfold create_transfer_directory, prepare_root, verify_inside_root, protect_directory,
    ensure_not_link_or_reparse, total. returns_steps.
Qed.

Lemma create_returns layout settings :
  returns (create (P:=P) (F:=F) (Handle:=Handle) layout settings).
Proof.
  unfold create. apply clip_returns_bind; [apply create_transfer_directory_returns|intros d].
  apply clip_returns_bind; [apply returns_attempt|intros [e|]].
  - generalize (directories layout). induction l as [|dir l IH]; simpl; [done|].
    apply clip_returns_bind; [|done]. returns_steps.
  - apply clip_returns_bind; [|done]. unfold drop_transfer_directory.
    case_match; [done|apply remove_transfer_directory_returns].
  - done.
Qed.

Lemma create_ok layout settings f f' t :
  create (P:=P) (F:=F) (Handle:=Handle) layout settings f = (f', Ok t) →
  ∃ d, t = new_transfer layout settings d.
Proof.
  unfold create. intros (f1 & d & _ & Hrun)%comp_bind_ok.
  apply comp_bind_ok in Hrun as (f2 & [e|[]] & _ & Hrun).
  - by apply comp_bind_ok in Hrun as (f3 & [] & _ & Hrun).
  - exists d. by injection Hrun as _ <-.
Qed.

(** A state that differs in nothing the invariant speaks of but the transfer it runs. *)
Lemma invariant_install n (w w' : W) c t :
  invariant n w c → events w' = events w →
  next_remote_sequence (state w') = next_remote_sequence (state w) →
  pending_remote (state w') = None → remote_transfer (state w') = Some t →
  locals_ok (state w') → within_limits t → outstanding_ok t →
  reserved (state w) (ClipTransfer.transfer_id t) → (ClipTransfer.transfer_id t ∉ outcomes w) →
  (ClipTransfer.transfer_id t ∉ c) → invariant n w' c.
Proof.
  intros [I1 I2 I3 I4 I5 I6 I7 I8 I9] He Hs Hp Ht Hl Hw Ho Hr Hout Hc.
  assert (∀ id, reserved (state w') id ↔ reserved (state w) id) as Hres
    by (intros id; unfold reserved; by rewrite Hs).
  assert (outcomes w' = outcomes w) as Ho' by (unfold outcomes; by rewrite He).
  assert (readied w' = readied w) as Hr' by (unfold readied; by rewrite He).
  split; rewrite ?Hs, ?Ho'; try done.
  - eapply Forall_impl; [exact I2|]. intros id. apply Hres.
  - intros id. rewrite Hres. intros [Hid|(t' & Ht' & <-)]; [congruence|].
    rewrite Ht in Ht'. by injection Ht' as <-.
  - intros t'. rewrite Ht. by intros [= <-].
  - intros id Hin Hrem. rewrite Hres. by apply I7.
  - intros id Hin. rewrite Hres, Hr' in *. by apply I8.
Qed.

(** What a created transfer starts from. *)
Definition starts_fresh (id : N) (t : RemoteClipboardTransfer (P:=P) (Handle:=Handle)) : Prop :=
  ClipTransfer.transfer_id t = id ∧ within_limits t ∧ ClipTransfer.pending t = None ∧
  current_file t = 0.

Lemma start_run sid t (f : F) id :
  starts_fresh id t →
  let r := start sid (t, f) in
  r.2 ≠ Panic ∧ ClipTransfer.transfer_id r.1.1 = id ∧
  ∀ a, r.2 = Ok a → within_limits r.1.1 ∧ outstanding_ok r.1.1.
Proof.
  intros (Hid & Hw & Hp & Hc) r.
  pose proof (start_safe (F:=F) sid (t, f) (conj Hw (conj Hp Hc))) as Hs.
  pose proof (start_keeps_id (F:=F) sid id (t, f) Hid) as Hk. fold r in Hs, Hk.
  split_and!; [by intros Hpan; rewrite Hpan in Hs|exact Hk|].
  intros a Ha. rewrite Ha in Hs. by destruct Hs as (? & ? & _).
Qed.

(** What holds after a locked section with an action to dispatch. *)
Definition settled (n : nat) (c : list N) (id : N) (w' : W)
    (action : outcome string RemoteTransferAction) : Prop :=
  invariant n w' c ∧ action ≠ Panic ∧ dispatchable id action w' c.

Lemma install_settled n (w : W) c id result a m :
  invariant n w c → unreported id w c → result ≠ Panic →
  (∀ t, result = Ok t → starts_fresh id t) →
  let r := install_locked id result (state w, file_system w) in
  let w' := mk_world r.1.1 r.1.2 a m (events w) in
  match r.2 with
  | Some action => settled n c id w' action
  | None => invariant n w' c
  end.
Proof.
  intros Hinv Hu Hres Hfresh. unfold install_locked. cbn [fst snd].
  destruct (decide _) as [Hpend|];
    [|apply (invariant_interferes n w _ c c); [apply interferes_same; auto|done]].
  assert (remote_transfer (state w) = None) as Hnone.
  { apply (i_exclusive _ _ _ Hinv). by rewrite Hpend. }
  destruct (i_live _ _ _ Hinv id (or_introl Hpend)) as (Hr & Ho & Hc).
  assert (∀ (st : TextClipboardState) f, next_remote_sequence st = next_remote_sequence (state w) →
    pending_remote st = None → remote_transfer st = None → locals_ok st →
    invariant n (mk_world st f a m (events w)) c ∧
    completed id (mk_world st f a m (events w)) c) as Hgone.
  { intros st f Hs Hp Ht Hl.
    assert (interferes w (mk_world st f a m (events w)) c c) as Hi.
    { apply interferes_same; simpl; auto. }
    split; [by eapply invariant_interferes|]. split; [|done].
    split; [by eapply unreported_stable|]. intros [?|(t & ? & _)]; simpl in *; congruence. }
  pose proof (i_locals _ _ _ Hinv) as Hl. destruct result as [t|e|]; [| |done].
  2: { destruct (Hgone (set_pending (state w) None) (file_system w)) as [Hi' [Hf _]];
         [done..|]. split_and!; [exact Hi'|done|exact Hf]. }
  cbn [allocate_stream_id]. unfold on_transfer.
  set (st := set_stream (set_pending (state w) None) _).
  set (sid := next_stream_id _).
  destruct (start_run sid t (file_system w) id (Hfresh t eq_refl)) as (Hp & Hk & Hok).
  destruct (start sid (t, file_system w)) as [[t' f'] action]. simpl in Hp, Hk, Hok.
  destruct action as [[q|paths|]|e|]; [| | | |done].
  - destruct (Hok _ eq_refl) as [Hw' Ho']. unfold settled. cbn [fst snd].
    split_and!; [|done|split; [split; [exact Hr|exact Ho]|done]].
    apply (invariant_install n w _ c t'); simpl; try done; by rewrite Hk.
  - destruct (Hgone st (dropped (Some t') f')) as [Hi' Hcomp]; [done..|]. by split_and!.
  - destruct (Hgone st (dropped (Some t') f')) as [Hi' Hcomp]; [done..|]. by split_and!.
  - destruct (Hgone st (dropped (Some t') f')) as [Hi' [Hf _]]; [done..|]. by split_and!.
Qed.

Lemma quiet_drop n (t : RemoteClipboardTransfer (P:=P) (Handle:=Handle)) :
  session_ok n (unlocked (λ f, (dropped (Some t) f, ())) : act ()) no_assertion.
Proof.
  apply session_quiet; [done| |done]. intros w c. apply interferes_same; auto.
Qed.

Lemma install_remote_ok n id result :
  result ≠ Panic → (∀ t, result = Ok t → starts_fresh id t) →
  session_ok n (install_remote_transfer channel_open id result) (unreported id).
Proof.
  intros Hres Hfresh w c Hinv Hu. cbn [fst snd].
  pose proof (install_settled n w c id result (attempts w) (messages w) Hinv Hu Hres Hfresh) as Hs.
  cbn zeta in Hs. destruct (install_locked _ _ _).2 as [action|].
  - destruct Hs as (Hinv' & Hp & Hd). split; [exact Hinv'|].
    exists (dispatchable id action). split; [apply dispatchable_stable|]. split; [exact Hd|].
    by apply dispatch_ok.
  - split; [exact Hs|]. exists no_assertion. split; [done|]. split; [done|].
    cbn [mbind proc_bind]. destruct result; [apply quiet_drop|done..].
Qed.

Lemma receive_ok n files clip :
  session_ok n (receive_remote_files staging_root channel_open files clip) no_assertion.
Proof.
  intros w c Hinv _. cbn [fst snd]. split.
  { apply (invariant_interferes n w _ c c); [apply interferes_same; auto|done]. }
  destruct (pending_remote (state w)) as [id|] eqn:Hpend; [|by exists no_assertion].
  exists (unreported id). split; [apply unreported_stable|]. split.
  { destruct (i_live _ _ _ Hinv id (or_introl Hpend)) as (Hr & Ho & _). by split. }
  cbn [mbind proc_bind].
  apply session_quiet; [apply unreported_stable|intros w' c'; apply interferes_same; auto|].
  intros w'. cbn [fst snd]. set (made := validate_and_create _ _ _ _ _).
  assert (made.2 ≠ Panic ∧ ∀ t, made.2 = Ok t → starts_fresh id t) as [Hp Hfresh].
  { unfold made, validate_and_create. rewrite comp_bind_run. unfold lift_outcome. cbn [fst snd].
    pose proof (validate_no_panic files).
    destruct (validate files) as [layout|e|]; [|done..]. split; [apply create_returns|].
    intros t Ht. destruct (create _ _ _) as [f' r] eqn:Hrun. simpl in Ht. subst r.
    by apply create_ok in Hrun as [d ->]. }
  destruct made.2; [|by apply install_remote_ok..|done]. by apply install_remote_ok.
Qed.

Lemma advance_settled n (w : W) c response a m :
  invariant n w c →
  let r := advance_locked response (state w, file_system w) in
  let w' := mk_world r.1.1 r.1.2 a m (events w) in
  match r.2 with
  | Some (id, action, _) => settled n c id w' action
  | None => invariant n w' c
  end.
Proof.
  intros Hinv. unfold advance_locked. cbn [fst snd].
  destruct (remote_transfer (state w)) as [t|] eqn:Ht;
    [|apply (invariant_interferes n w _ c c); [apply interferes_same; auto|done]].
  destruct (i_sound _ _ _ Hinv t Ht) as [Hw Ho].
  destruct (i_live _ _ _ Hinv (ClipTransfer.transfer_id t)) as (Hr & Hout & Hc);
    [right; by exists t|].
  assert (pending_remote (state w) = None) as Hnone.
  { destruct (pending_remote (state w)) eqn:Hp; [|done].
    by rewrite (i_exclusive _ _ _ Hinv) in Ht by (by rewrite Hp). }
  pose proof (i_locals _ _ _ Hinv) as Hl.
  cbn [allocate_stream_id]. unfold on_transfer. set (st := set_stream (set_remote _ None) _).
  set (sid := next_stream_id _).
  pose proof (advance_safe (F:=F) response sid (t, file_system w) (conj Hw Ho)) as Hs.
  pose proof (advance_keeps_id (F:=F) response sid _ (t, file_system w) eq_refl) as Hk.
  destruct (advance response sid (t, file_system w)) as [[t' f'] action]. simpl in Hs, Hk.
  assert (settled n c (ClipTransfer.transfer_id t) (mk_world st f' a m (events w)) (Err "") ∧
    completed (ClipTransfer.transfer_id t) (mk_world st f' a m (events w)) c) as [Hset Hdone].
  { assert (interferes w (mk_world st f' a m (events w)) c c) as Hi.
    { apply interferes_same; simpl; auto. }
    assert (finished (ClipTransfer.transfer_id t) (mk_world st f' a m (events w)) c) as Hf.
    { split; [by apply (unreported_stable _ w _ c c)|].
      intros [Hp|(? & ? & _)]; simpl in *; congruence. }
    split; [|by split]. split_and!; [by eapply invariant_interferes|done|done]. }
  assert (∀ f, within_limits t' → outstanding_ok t' →
    invariant n (mk_world (set_remote st (Some t')) f a m (events w)) c) as Hput.
  { intros f Hw' Ho'. apply (invariant_install n w _ c t'); simpl; try done; by rewrite Hk. }
  destruct action as [[q|paths|]|e|]; cbn [fst snd]; [| | | |done].
  - destruct Hs as (Hw' & Ho' & _). split_and!; [by apply Hput|done|].
    split; [split; [exact Hr|exact Hout]|]. simpl. by rewrite Hnone.
  - destruct Hset as (Hi & _ & _). by split_and!.
  - destruct Hs as (Hw' & Ho' & _). split_and!; [by apply Hput|done|done].
  - destruct Hset as (Hi & _ & Hd). by split_and!.
Qed.

Lemma advance_remote_ok n response :
  session_ok n (advance_remote_transfer channel_open response) no_assertion.
Proof.
  intros w c Hinv _. cbn [fst snd].
  pose proof (advance_settled n w c response (attempts w) (messages w) Hinv) as Hs. cbn zeta in Hs.
  destruct (advance_locked _ _).2 as [[[id action] t]|].
  - destruct Hs as (Hinv' & Hp & Hd). split; [exact Hinv'|].
    exists (dispatchable id action). split; [apply dispatchable_stable|]. split; [exact Hd|].
    cbn [mbind proc_bind]. apply (session_ok_bind n (dispatch_remote_result _ id action)).
    + by apply dispatch_ok.
    + intros _. destruct t; [apply quiet_drop|done].
  - split; [exact Hs|]. by exists no_assertion.
Qed.

Lemma cancel_locks_ok n ids : session_ok n (cancel_remote_locks ids : act ()) no_assertion.
Proof.
  intros w c Hinv _. cbn [fst snd].
  assert (∀ f, invariant n (mk_world (state w) f (attempts w) (messages w) (events w)) c) as Hsame.
  { intros f. apply (invariant_interferes n w _ c c); [apply interferes_same; auto|done]. }
  destruct (remote_transfer (state w)) as [t|] eqn:Ht; [|by split; [|exists no_assertion]].
  destruct (clip_data_id t) as [data_id|]; [|by split; [|exists no_assertion]].
  destruct (existsb _ _); [|by split; [|exists no_assertion]].
  destruct (i_live _ _ _ Hinv (ClipTransfer.transfer_id t)) as (Hr & Ho & _); [right; by exists t|].
  set (w' := mk_world _ _ _ _ _).
  assert (interferes w w' c c) as Hi by (apply interferes_same; simpl; auto).
  split; [by eapply invariant_interferes|].
  exists (finished (ClipTransfer.transfer_id t)). split; [apply finished_stable|]. split.
  - split; [by apply (unreported_stable _ w _ c c)|]. intros [Hp|(? & ? & _)]; simpl in *; [|done].
    by rewrite (i_exclusive _ _ _ Hinv) in Ht by (by rewrite Hp).
  - apply emit_failed_ok.
Qed.

(** ** Every callback *)

Context (flags_checked : ∀ n, validate_flags n ≠ Panic).

(** A section on the host's side of the state. *)
Lemma locked_input {A B} (m : _ → _ * B) (rest : B → act A) :
  (∀ s f, next_remote_sequence (m (s, f)).1.1 = next_remote_sequence s ∧
     (pending_remote (m (s, f)).1.1 = pending_remote s ∨ pending_remote (m (s, f)).1.1 = None) ∧
     (remote_transfer (m (s, f)).1.1 = remote_transfer s ∨
      remote_transfer (m (s, f)).1.1 = None) ∧
     (locals_ok s → locals_ok (m (s, f)).1.1)) →
  (∀ b, input_ok (rest b)) → input_ok (locked m ≫= rest).
Proof.
  intros Hm Hrest w c. destruct (Hm (state w) (file_system w)) as (H1' & H2' & H3' & H4').
  split; [by apply interferes_same|apply Hrest].
Qed.

Lemma send_or_warn_input message : input_ok (send_clipboard_or_warn channel_open message).
Proof. by apply input_ok_bind; [apply send_clipboard_input|]. Qed.

Lemma read_entry_returns entry request : returns (read_entry (F:=F) (Handle:=Handle) entry request).
Proof.
  intros f Hp. pose proof (read_entry_safe entry request (flags_checked _) f I) as Hs.
  by rewrite Hp in Hs.
Qed.

Lemma file_response_input request : input_ok (send_local_file_response channel_open request).
Proof.
  apply locked_input; [by auto|]. intros [entry|]; [|apply send_or_warn_input].
  intros w c. cbn [fst snd]. split; [apply interferes_same; auto|].
  pose proof (read_entry_returns entry request (file_system w)) as Hr.
  destruct (read_entry entry request (file_system w)).2; [apply send_or_warn_input..|done].
Qed.

Lemma session_input call :
  match call with
  | BuildBackend | OnRequestFormatList | OnFormatDataRequest _ | OnFormatDataResponse _
  | OnFileContentsRequest _ | OnLock _ | OnUnlock _ => input_ok (session call)
  | _ => True
  end.
Proof.
  destruct call as [| |formats|format|response|request|response|id|id|files clip|ids]; try done.
  - intros w c. split; [|done]. apply interferes_same; simpl; auto. intros [Hl _]. by split.
  - intros w c. simpl. destruct (local_files (state w)).
    + split; [apply interferes_refl|apply send_or_warn_input].
    + split; [apply sending_interferes|done].
  - simpl. unfold send_local_text_response. destruct (format =? CF_UNICODETEXT)%N.
    + apply locked_input; [by auto|]. intros b. apply send_or_warn_input.
    + apply send_or_warn_input.
  - apply locked_input; [by auto|]. intros b. simpl. case_match; [done|].
    destruct (to_unicode_string response) as [t|]; [|done]. intros w c. split; [|done].
    split; auto; unfold outcomes, readied; simpl; rewrite omap_app; simpl; by rewrite app_nil_r.
  - apply file_response_input.
  - intros w c. split; [|done]. simpl. destruct (local_files (state w)) as [t|] eqn:Ht;
      apply interferes_same; simpl; auto. intros [Hl1 Hl2]. split; [done|]. simpl.
    intros d t'. rewrite lookup_insert_Some. intros [[_ <-]|[_ Hd]]; [by apply Hl1|by eapply Hl2].
  - intros w c. split; [|done]. apply interferes_same; simpl; auto. intros [Hl1 Hl2].
    split; [done|]. simpl. intros d t'. rewrite lookup_delete_Some. intros [_ Hd]. by eapply Hl2.
Qed.

Lemma session_call_ok n call :
  (N.of_nat n + 1 < REMOTE_CLIPBOARD_TRANSFER_BIT)%N →
  session_ok n (session call) (sequence_below n).
Proof.
  intros Hn. pose proof (session_input call) as Hin.
  destruct call as [| |formats|format|response|request|response|id|id|files clip|ids];
    try (apply (session_ok_weaken n _ no_assertion); [done|]; by apply session_ok_input).
  - by apply begin_remote_copy_ok.
  - apply (session_ok_weaken n _ no_assertion); [done|]. apply advance_remote_ok.
  - apply (session_ok_weaken n _ no_assertion); [done|]. apply receive_ok.
  - apply (session_ok_weaken n _ no_assertion); [done|]. apply cancel_locks_ok.
Qed.

(** ** Every interleaving *)

Record threads_inv (n : nat) (t : Threads) : Prop := {
  t_world : invariant n (world t) (cancelled t);
  t_session : ∃ L, stable L ∧ L (world t) (cancelled t) ∧ session_ok n (session_thread t) L;
  t_input : input_ok (input_thread t);
}.

Lemma invariant_start f : invariant 0 (text_clipboard staging_root f) [].
Proof.
  split; try done.
  - constructor.
  - by intros id [?|(? & ? & _)].
  - by intros id ?%elem_of_nil.
  - by intros id ?%elem_of_nil.
Qed.

Lemma invariant_mono n w c : invariant n w c → invariant (S n) w c.
Proof. intros [I1 I2 I3 I4 I5 I6 I7 I8 I9]. split; try done. lia. Qed.

Lemma clip_reachable_inv f n t :
  (N.of_nat n + 1 < REMOTE_CLIPBOARD_TRANSFER_BIT)%N → reachable f n t → threads_inv n t.
Proof.
  intros Hn Hr. induction Hr as [|n w i c call _ IH|n w i c B action rest _ IH|
    n w s c call Hown _ IH|n w s c B action rest _ IH|n w s c id w' b _ IH Hrun].
  - split; [apply invariant_start|by exists no_assertion|done].
  - destruct IH as [Hw _ Hi]; [lia|]. split; [by apply invariant_mono| |done].
    exists (sequence_below (S n)). split; [apply sequence_below_stable|].
    split; [|by apply session_call_ok]. simpl in *. pose proof (i_sequence _ _ _ Hw).
    unfold sequence_below. lia.
  - destruct (IH Hn) as [Hw (L & Hst & HL & Hok) Hi]. simpl in *.
    destruct (Hok w c Hw HL) as (Hw' & L' & Hst' & HL' & Hok').
    split; [done|by exists L'|done].
  - destruct (IH Hn) as [Hw Hs _]. split; [done|done|]. by apply input_call_ok.
  - destruct (IH Hn) as [Hw (L & Hst & HL & Hok) Hi]. simpl in *.
    destruct (Hi w c) as [Hint Hrest].
    split; [by eapply invariant_interferes| |done]. exists L. split_and!; [done|by eapply Hst|done].
  - destruct (IH Hn) as [Hw (L & Hst & HL & Hok) Hi]. simpl in *.
    pose proof (cancel_interferes id w w' b c Hrun (i_locals _ _ _ Hw)) as Hint.
    split; [by eapply invariant_interferes| |done]. exists L. split_and!; [done|by eapply Hst|done].
Qed.

(** C15: every remote transfer concludes at most once, in every interleaving of the
    session's thread with the input thread, whatever the server sends, whichever
    messages the session still takes and whatever the file system does as long as its
    calls return.  No transfer id is reported twice, whether as ready or as failed, and
    only ids that were given out are reported; a transfer that is awaited or running has
    not been reported; one whose cancellation was acknowledged is never reported ready;
    and neither thread panics. *)
Theorem remote_transfers_conclude_once f n t :
  reachable f n t → (N.of_nat n < 2 ^ 63 - 1)%N →
  NoDup (outcomes (world t)) ∧ Forall (reserved (state (world t))) (outcomes (world t)) ∧
  (∀ id, live (state (world t)) id → id ∉ outcomes (world t)) ∧
  (∀ id, id ∈ cancelled t → id ∉ readied (world t)) ∧
  session_thread t ≠ Crashed ∧ input_thread t ≠ Crashed.
Proof.
  intros Hr Hn. assert (N.of_nat n + 1 < REMOTE_CLIPBOARD_TRANSFER_BIT)%N as Hlt.
  { unfold REMOTE_CLIPBOARD_TRANSFER_BIT. change (2 ^ 63)%N with 9223372036854775808%N in Hn. lia. }
  destruct (clip_reachable_inv f n t Hlt Hr) as [[_ I2 I3 I4 _ _ _ I8 _] (L & _ & _ & Hs) Hi].
  split_and!; [done|done| | | |].
  - intros id Hl. by apply I4.
  - intros id Hc Hin. by destruct (I8 id Hin).
  - intros Hcr. by rewrite Hcr in Hs.
  - intros Hcr. by rewrite Hcr in Hi.
Qed.

(** A callback that runs without interference. *)
Lemma run_reachable f n w p i c w' :
  reachable f n (mk_threads w p i c) → run p w = (w', Ok ()) →
  reachable f n (mk_threads w' (Done ()) i c).
Proof.
  revert w. induction p as [[]| |B action rest IH]; simpl; intros w Hr Hrun; [|done|].
  - by injection Hrun as <-.
  - apply (IH (action w).2 (action w).1); [by apply reach_session_action|done].
Qed.
End threads.

(** ** Witness: a copied file list that cannot be asked for *)

Import MemFs.

#[local] Existing Instances ascii_env demo_wire demo_attributes mem_reads_return mem_files_return.

#[local] Instance demo_formats : FormatWire text := {|
  CF_UNICODETEXT := 13;
  FILE_LIST := [70%N];
  new_unicode_string t := t;
  new_error := [];
  fd_is_error t := bool_decide (t = []);
  to_unicode_string t := Some t;
|}.

#[local] Instance mem_staging_returns :
  StagingReturns (F:=fs) (P:=list text) (Handle:=list text).
Proof. split; intros; done. Qed.

Lemma demo_flags n : validate_flags n ≠ Panic.
Proof. simpl. by case_match. Qed.

Lemma remote_transfers_conclude_once_witness :
  ∃ w, reachable (F:=fs) (P:=list text) (Handle:=list text) reverse [] (λ _, false) empty 1
      (mk_threads w (Done ()) (Done ()) []) ∧
    outcomes w = [9223372036854775809%N] ∧ NoDup (outcomes w).
Proof.
  destruct (run (begin_remote_copy (F:=fs) (P:=list text) (Handle:=list text) (λ _, false)
    [mk_format 3 (Some [70%N])]) (text_clipboard [] empty)) as [w r] eqn:Hrun.
  assert (r = Ok ()) as -> by (vm_compute in Hrun; injection Hrun as _ <-; reflexivity).
  exists w.
  assert (reachable (F:=fs) (P:=list text) (Handle:=list text) reverse [] (λ _, false) empty 1
    (mk_threads w (Done ()) (Done ()) [])) as Hreach.
  { eapply run_reachable; [|exact Hrun].
    apply (reach_session _ _ _ _ 0 _ _ _ (OnRemoteCopy [mk_format 3 (Some [70%N])])).
    apply reach_start. }
  split; [exact Hreach|]. split.
  - vm_compute in Hrun. injection Hrun as <-. reflexivity.
  - apply (remote_transfers_conclude_once reverse [] (λ _, false) demo_flags empty 1 _ Hreach).
    reflexivity.
Defined.
