(* ===== verification/Text.v ===== *)
(** * Text

    What the extensions use of Rust's [str]: a text is the list of its characters, by
    code point. *)

From Stdlib Require Import Ascii.
From S2P Require Import Prelude.

(** A literal of the source. *)
Fixpoint lit (s : string) : list N :=
  match s with
  | EmptyString => []
  | String a rest => N_of_ascii a :: lit rest
  end.

#[global] Arguments lit _ : simpl never.

(** [char::is_whitespace]: the characters with the property White_Space. *)
Definition is_whitespace (c : N) : bool :=
  ((9 <=? c) && (c <=? 13) || (c =? 32) || (c =? 133) || (c =? 160) || (c =? 5760) ||
   (8192 <=? c) && (c <=? 8202) || (c =? 8232) || (c =? 8233) || (c =? 8239) || (c =? 8287) ||
   (c =? 12288))%N.

Fixpoint trim_start (t : list N) : list N :=
  match t with
  | c :: rest => if is_whitespace c then trim_start rest else t
  | [] => []
  end.

Definition trim_end (t : list N) : list N := reverse (trim_start (reverse t)).

(** [str::trim] *)
Definition trim (t : list N) : list N := trim_end (trim_start t).

(** The UTF-8 length of a character, and of a text, which is what [str::len] counts. *)
Definition char_len (c : N) : nat :=
  if (c <? 128)%N then 1 else if (c <? 2048)%N then 2 else if (c <? 65536)%N then 3 else 4.

Definition str_len (t : list N) : nat := foldr (λ c n, char_len c + n) 0 t.

(** [str::contains] of a character. *)
Definition has_char (c : N) (t : list N) : bool := existsb (N.eqb c) t.

(** [str::to_ascii_lowercase] *)
Definition ascii_lower (c : N) : N := if (65 <=? c)%N && (c <=? 90)%N then (c + 32)%N else c.
Definition to_ascii_lowercase (t : list N) : list N := ascii_lower <$> t.

(** [str::eq_ignore_ascii_case] *)
Definition eq_ignore_ascii_case (s t : list N) : bool :=
  bool_decide (to_ascii_lowercase s = to_ascii_lowercase t).

(** [str::strip_prefix] and [str::starts_with] *)
Fixpoint strip_prefix (prefix t : list N) : option (list N) :=
  match prefix, t with
  | [], rest => Some rest
  | c :: prefix, d :: rest => if (c =? d)%N then strip_prefix prefix rest else None
  | _ :: _, [] => None
  end.

Definition starts_with (prefix t : list N) : bool :=
  match strip_prefix prefix t with Some _ => true | None => false end.

(** [str::contains] of a text *)
Fixpoint contains (pattern t : list N) : bool :=
  starts_with pattern t ||
  match t with [] => false | _ :: rest => contains pattern rest end.

(** [str::split] at a character. *)
Fixpoint split_char (sep : N) (current t : list N) : list (list N) :=
  match t with
  | [] => [reverse current]
  | c :: rest =>
      if (c =? sep)%N then reverse current :: split_char sep [] rest
      else split_char sep (c :: current) rest
  end.

(** [str::lines]: a line ends with a line feed, or a carriage return and a line feed. *)
Definition line_of (current : list N) : list N :=
  reverse (match current with c :: rest => if (c =? 13)%N then rest else current | [] => [] end).

Fixpoint lines_from (current t : list N) : list (list N) :=
  match t with
  | [] => match current with [] => [] | _ => [reverse current] end
  | c :: rest =>
      if (c =? 10)%N then line_of current :: lines_from [] rest
      else lines_from (c :: current) rest
  end.

Definition lines (t : list N) : list (list N) := lines_from [] t.

(** [str::split_whitespace] *)
Definition word_of (current : list N) : list (list N) :=
  match current with [] => [] | _ => [reverse current] end.

Fixpoint words_from (current t : list N) : list (list N) :=
  match t with
  | [] => word_of current
  | c :: rest =>
      if is_whitespace c then word_of current ++ words_from [] rest
      else words_from (c :: current) rest
  end.

Definition split_whitespace (t : list N) : list (list N) := words_from [] t.

(** [str::split_once] at the first character that satisfies a test. *)
Fixpoint split_once_at (f : N → bool) (t : list N) : option (list N * list N) :=
  match t with
  | [] => None
  | c :: rest =>
      if f c then Some ([], rest)
      else match split_once_at f rest with
           | Some (before, after) => Some (c :: before, after)
           | None => None
           end
  end.

(** [str::split_once] at a text. *)
Fixpoint split_once (pattern t : list N) : option (list N * list N) :=
  match strip_prefix pattern t with
  | Some rest => Some ([], rest)
  | None =>
      match t with
      | [] => None
      | c :: rest =>
          match split_once pattern rest with
          | Some (before, after) => Some (c :: before, after)
          | None => None
          end
      end
  end.

(** [str::strip_suffix] *)
Definition strip_suffix (suffix t : list N) : option (list N) :=
  match strip_prefix (reverse suffix) (reverse t) with
  | Some rest => Some (reverse rest)
  | None => None
  end.

(** [n.to_string()] of an unsigned integer. *)
Fixpoint digits (fuel : nat) (n : N) (acc : list N) : list N :=
  match fuel with
  | 0 => acc
  | S fuel =>
      let acc := (48 + n `mod` 10)%N :: acc in
      if (n <? 10)%N then acc else digits fuel (n / 10) acc
  end.

Definition show_N (n : N) : list N := digits (S (N.to_nat (N.size n))) n [].

Definition is_digit (c : N) : bool := ((48 <=? c) && (c <=? 57))%N.

(** [str::parse] to an unsigned integer of at most [max]: an optional plus sign, digits. *)
Fixpoint parse_digits (max acc : N) (t : list N) : option N :=
  match t with
  | [] => Some acc
  | c :: rest =>
      let value := (acc * 10 + (c - 48))%N in
      if is_digit c && (value <=? max)%N then parse_digits max value rest else None
  end.

Definition parse_unsigned (max : N) (t : list N) : option N :=
  match match t with c :: rest => if (c =? 43)%N then rest else t | [] => [] end with
  | [] => None
  | digits => parse_digits max 0 digits
  end.

(** [str::to_ascii_uppercase] *)
Definition ascii_upper (c : N) : N := if (97 <=? c)%N && (c <=? 122)%N then (c - 32)%N else c.
Definition to_ascii_uppercase (t : list N) : list N := ascii_upper <$> t.

Definition one_of (names : list string) (t : list N) : bool :=
  existsb (λ name, bool_decide (t = lit name)) names.

(** [str::replace] of a text that is not empty: [skip] characters belong to the
    occurrence just replaced. *)
Fixpoint replace_from (pattern by_text : list N) (skip : nat) (t : list N) : list N :=
  match t with
  | [] => []
  | c :: rest =>
      match skip with
      | S skip => replace_from pattern by_text skip rest
      | 0 =>
          if starts_with pattern t
          then by_text ++ replace_from pattern by_text (length pattern - 1) rest
          else c :: replace_from pattern by_text 0 rest
      end
  end.

Definition replace (pattern by_text t : list N) : list N := replace_from pattern by_text 0 t.

(** [slice.join(separator)] *)
Definition join (separator : list N) (parts : list (list N)) : list N :=
  match parts with
  | [] => []
  | part :: rest => part ++ (rest ≫= λ p, separator ++ p)
  end.

(** [filter(|t| !t.trim().is_empty())] *)
Definition blank (t : list N) : bool := bool_decide (trim t = []).
Definition non_blank (t : option (list N)) : option (list N) :=
  match t with Some t => if blank t then None else Some t | None => None end.

(** ** Facts *)

Lemma trim_start_nonblank t c rest : trim_start t = c :: rest → is_whitespace c = false.
Proof.
  induction t as [|d t IH]; simpl; [done|]. destruct (is_whitespace d) eqn:Hd; [done|].
  by intros [= <- _].
Qed.

Lemma str_len_app s t : str_len (s ++ t) = str_len s + str_len t.
Proof. unfold str_len. induction s as [|c s IH]; simpl; [done|]. rewrite IH. lia. Qed.

Lemma str_len_length t : length t ≤ str_len t.
Proof.
  unfold str_len. induction t as [|c t IH]; simpl; [done|].
  assert (1 ≤ char_len c) by (unfold char_len; repeat case_match; lia). lia.
Qed.

Lemma digits_parse max fuel n acc :
  (n <= max)%N → (n < 2 ^ N.of_nat fuel)%N →
  ∃ ds, digits (S fuel) n acc = ds ++ acc ∧ ds ≠ [] ∧ Forall (λ c, is_digit c = true) ds ∧
    ∀ rest, parse_digits max 0 (ds ++ rest) = parse_digits max n rest.
Proof.
  revert n acc. induction fuel as [|fuel IH]; intros n acc Hn Hfuel.
  all: pose proof (N.mod_upper_bound n 10 ltac:(done)) as Hmod.
  all: assert (Hdigit : is_digit (48 + n `mod` 10) = true) by
    (unfold is_digit; apply andb_true_iff; split; apply N.leb_le; [apply N.le_add_r|lia]).
  all: assert (Hlast : (n < 10)%N → ∃ ds, [(48 + n `mod` 10)%N] ++ acc = ds ++ acc ∧ ds ≠ [] ∧
    Forall (λ c, is_digit c = true) ds ∧
    ∀ rest, parse_digits max 0 (ds ++ rest) = parse_digits max n rest).
  1,3: intros Hlt; exists [(48 + n `mod` 10)%N]; split_and!; [done|done|by constructor|];
    intros rest; cbn [app parse_digits]; rewrite Hdigit, N.mod_small by done;
    assert ((0 * 10 + (48 + n - 48))%N = n) as -> by (clear; lia); by rewrite (proj2 (N.leb_le n max)).
  all: cbn [digits]; destruct (N.ltb_spec n 10) as [Hlt|Hge]; [by apply Hlast|].
  - simpl in Hfuel. lia.
  - assert (Hdiv : (n / 10 < 2 ^ N.of_nat fuel)%N).
    { apply N.Div0.div_lt_upper_bound. rewrite Nat2N.inj_succ, N.pow_succ_r' in Hfuel.
      revert Hfuel. generalize (2 ^ N.of_nat fuel)%N. clear. lia. }
    destruct (IH (n / 10)%N ((48 + n `mod` 10)%N :: acc)) as (ds & Heq & Hne & Hds & Hparse);
      [clear -Hn; etrans; [apply N.div_le_upper_bound with (q := n); lia|done]|done|].
    cbn [digits] in Heq. exists (ds ++ [(48 + n `mod` 10)%N]). split_and!.
    + by rewrite Heq, <-app_assoc.
    + by destruct ds.
    + apply Forall_app. split; [done|by constructor].
    + intros rest. rewrite <-app_assoc, Hparse. cbn [app parse_digits]. rewrite Hdigit.
      replace (n / 10 * 10 + (48 + n `mod` 10 - 48))%N with n
        by (rewrite (N.div_mod n 10 ltac:(done)) at 1; revert Hmod; generalize (n / 10)%N (n `mod` 10)%N; clear; lia).
      by rewrite (proj2 (N.leb_le n max)).
Qed.

Lemma digits_show max n :
  (n <= max)%N →
  ∃ ds, show_N n = ds ∧ ds ≠ [] ∧ Forall (λ c, is_digit c = true) ds ∧
    parse_digits max 0 ds = Some n.
Proof.
  intros Hn. destruct (digits_parse max (N.to_nat (N.size n)) n []) as (ds & Heq & Hne & Hds & Hp);
    [done|rewrite N2Nat.id; apply N.size_gt|].
  exists ds. specialize (Hp []). rewrite !app_nil_r in *. by split_and!.
Qed.

Lemma show_N_digits n : show_N n ≠ [] ∧ Forall (λ c, is_digit c = true) (show_N n).
Proof. destruct (digits_show n n) as (ds & -> & ? & ? & _); [lia|done]. Qed.

(** Printing and parsing a number. *)
Lemma parse_show max n : (n <= max)%N → parse_unsigned max (show_N n) = Some n.
Proof.
  intros Hn. destruct (digits_show max n Hn) as (ds & Heq & Hne & Hds & Hparse).
  unfold parse_unsigned. rewrite Heq.
  destruct ds as [|c ds]; [done|]. inversion Hds as [|? ? Hc _]; subst.
  assert ((c =? 43)%N = false) as ->; [|done].
  unfold is_digit in Hc. apply andb_true_iff in Hc as [Hc _]. apply N.leb_le in Hc.
  apply N.eqb_neq. lia.
Qed.

(** A text without a feed is one line. *)
Lemma lines_from_app current t rest :
  Forall (λ c, c ≠ 10%N) t →
  lines_from current (t ++ 10%N :: rest) = line_of (reverse t ++ current) :: lines_from [] rest.
Proof.
  intros Ht. revert current. induction Ht as [|c t Hc Ht IH]; intros current; simpl; [done|].
  rewrite (proj2 (N.eqb_neq c 10) Hc), IH. by rewrite reverse_cons, <-app_assoc.
Qed.

Lemma line_of_plain t : last t ≠ Some 13%N → line_of (reverse t) = t.
Proof.
  intros Hlast. unfold line_of. destruct (reverse t) as [|c rest] eqn:Ht.
  - by rewrite <-(reverse_involutive t), Ht.
  - destruct (N.eqb_spec c 13) as [->|_]; [|by rewrite <-Ht, reverse_involutive].
    destruct Hlast. apply (f_equal reverse) in Ht. rewrite reverse_involutive, reverse_cons in Ht.
    by rewrite Ht, last_snoc.
Qed.

Lemma trim_plain t c d :
  head t = Some c → last t = Some d → is_whitespace c = false → is_whitespace d = false →
  trim t = t.
Proof.
  intros Hh Hl Hc Hd. destruct t as [|c' t]; [done|]. injection Hh as ->.
  unfold trim, trim_end. simpl. rewrite Hc.
  apply last_Some in Hl as [l' Hl]. rewrite Hl, reverse_snoc. simpl. rewrite Hd.
  by rewrite reverse_cons, reverse_involutive.
Qed.

(** [str::replace] of a character. *)
Lemma replace_char q by_text t :
  replace [q] by_text t = t ≫= λ c, if (c =? q)%N then by_text else [c].
Proof.
  unfold replace. induction t as [|c t IH]; [done|]. rewrite bind_cons.
  cbn [replace_from starts_with strip_prefix length Nat.sub]. unfold starts_with. cbn [strip_prefix].
  rewrite (N.eqb_sym q c). destruct (c =? q)%N; [|by rewrite IH].
  by rewrite IH.
Qed.

Lemma split_once_at_app f before c after :
  Forall (λ c, f c = false) before → f c = true →
  split_once_at f (before ++ c :: after) = Some (before, after).
Proof. intros Hb Hc. induction Hb as [|d before Hd _ IH]; simpl; [by rewrite Hc|]. by rewrite Hd, IH. Qed.
