(* ===== verification/TextSearch.v ===== *)
(** * Texts: searching, names and UTF-16

    More of Rust's [str] than Text.v has, and what the importers of connection settings
    (src/extensions/wasm) share: the last component of a path and the loop that makes an
    identifier of a text. *)

From S2P Require Import Prelude VncClipboard Text.

(** ** Searching in texts *)

Abbreviation text := (list N) (only parsing).

(** A literal in which a grave accent stands for a quotation mark. *)
Definition qlit (s : string) : text := (λ c, if (c =? 96)%N then 34%N else c) <$> lit s.

(** [str::find] of a text: the number of characters before its first occurrence. *)
Definition find (pattern t : text) : option nat := (λ p, length p.1) <$> split_once pattern t.

(** [str::find] of a character. *)
Definition find_char (f : N → bool) (t : text) : option nat :=
  (λ p, length p.1) <$> split_once_at f t.

Fixpoint trim_start_matches (f : N → bool) (t : text) : text :=
  match t with
  | c :: rest => if f c then trim_start_matches f rest else t
  | [] => []
  end.
Definition trim_end_matches (f : N → bool) (t : text) : text :=
  reverse (trim_start_matches f (reverse t)).
Definition trim_matches (f : N → bool) (t : text) : text :=
  trim_end_matches f (trim_start_matches f t).

(** ** Facts *)

Lemma strip_prefix_spec p (t rest : text) : strip_prefix p t = Some rest ↔ t = p ++ rest.
Proof.
  revert t. induction p as [|c p IH]; intros t; simpl; [split; congruence|].
  destruct t as [|d t]; [done|]. destruct (N.eqb_spec c d) as [->|Hne].
  - rewrite IH. split; congruence.
  - split; [done|]. congruence.
Qed.

Lemma prefix_stripped (p t : text) : strip_prefix p (p ++ t) = Some t.
Proof. by apply strip_prefix_spec. Qed.

(** What [str::split_once] gives is around the pattern. *)
Lemma split_once_spec p (t before after : text) :
  split_once p t = Some (before, after) → t = before ++ p ++ after.
Proof.
  revert before. induction t as [|c t IH]; intros before H; cbn [split_once] in H.
  - destruct (strip_prefix p []) eqn:E; simplify_eq. by apply strip_prefix_spec in E.
  - destruct (strip_prefix p (c :: t)) eqn:E; simplify_eq; [by apply strip_prefix_spec in E|].
    destruct (split_once p t) as [[b a]|]; [|done]. simplify_eq. by rewrite (IH b eq_refl).
Qed.

(** ** Importers: names *)

(** The last component, after the last slash or backslash. *)
Definition path_name (path : list N) : list N :=
  let name := match split_once_at (λ c, (c =? 47) || (c =? 92))%N (reverse path) with
              | Some (name, _) => name | None => reverse path end in
  reverse name.

Definition is_ascii_alphanumeric (c : N) : bool :=
  ((48 <=? c) && (c <=? 57) || (65 <=? c) && (c <=? 90) || (97 <=? c) && (c <=? 122))%N.

(** The loop of [slug]: what was written so far, in reverse, and whether it ends in a
    dash. *)
Definition slug_char (st : list N * bool) (c : N) : list N * bool :=
  let '(out, last_dash) := st in
  if is_ascii_alphanumeric c then (c :: out, false)
  else if negb last_dash && negb (bool_decide (out = [])) then (45%N :: out, true)
  else st.

Fixpoint drop_dashes (out : list N) : list N :=
  match out with
  | c :: rest => if (c =? 45)%N then drop_dashes rest else out
  | [] => []
  end.

(** ** UTF-16 *)

(** [str::encode_utf16] *)
Definition utf16_units (c : N) : list N :=
  if (c <? 65536)%N then [c]
  else [55296 + (c - 65536) / 1024; 56320 + (c - 65536) `mod` 1024]%N.

(** [char::decode_utf16], collected: [None] when a surrogate has no partner. *)
Fixpoint decode_utf16 (units : list N) : option (list N) :=
  match units with
  | [] => Some []
  | u :: rest =>
      if (55296 <=? u)%N && (u <=? 56319)%N then
        match rest with
        | l :: rest =>
            if (56320 <=? l)%N && (l <=? 57343)%N then
              cons (65536 + (u - 55296) * 1024 + (l - 56320))%N <$> decode_utf16 rest
            else None
        | [] => None
        end
      else if (56320 <=? u)%N && (u <=? 57343)%N then None
      else cons u <$> decode_utf16 rest
  end.

Lemma utf16_units_bound c : is_scalar c → Forall (λ u, u < 65536)%N (utf16_units c).
Proof.
  intros Hc. unfold utf16_units, is_scalar in *. destruct (N.ltb_spec c 65536) as [?|?]; [by constructor|].
  pose proof (N.mod_upper_bound (c - 65536) 1024 ltac:(done)).
  assert ((c - 65536) / 1024 < 1024)%N by (apply N.Div0.div_lt_upper_bound; lia).
  repeat constructor; lia.
Qed.

Lemma decode_utf16_char c units t :
  is_scalar c → decode_utf16 units = Some t → decode_utf16 (utf16_units c ++ units) = Some (c :: t).
Proof.
  intros Hc Hd. unfold utf16_units. destruct (N.ltb_spec c 65536) as [Hl|Hl].
  - cbn [app decode_utf16]. unfold is_scalar in Hc.
    destruct (N.leb_spec 55296 c), (N.leb_spec c 56319), (N.leb_spec 56320 c), (N.leb_spec c 57343);
      cbn [andb]; try lia; by rewrite Hd.
  - pose proof (N.mod_upper_bound (c - 65536) 1024 ltac:(done)).
    assert ((c - 65536) / 1024 < 1024)%N by (unfold is_scalar in Hc; apply N.Div0.div_lt_upper_bound; lia).
    pose proof (N.div_mod (c - 65536) 1024 ltac:(done)).
    generalize dependent ((c - 65536) / 1024)%N. generalize dependent ((c - 65536) `mod` 1024)%N.
    intros l Hlb h Hhb Heq. cbn [app decode_utf16].
    rewrite !(proj2 (N.leb_le _ _)) by lia. cbn [andb].
    rewrite Hd. cbn. do 2 f_equal. lia.
Qed.

(** Decoding the units of a text. *)
Lemma decode_utf16_units (t : list N) : Forall is_scalar t → decode_utf16 (t ≫= utf16_units) = Some t.
Proof.
  induction 1 as [|c t Hc _ IH]; [done|]. rewrite bind_cons. by apply decode_utf16_char.
Qed.

(** ** The order of texts *)

(** The order of strings is that of their characters. *)
Fixpoint text_compare (s t : text) : comparison :=
  match s, t with
  | [], [] => Eq
  | [], _ :: _ => Lt
  | _ :: _, [] => Gt
  | c :: s, d :: t => match (c ?= d)%N with Eq => text_compare s t | r => r end
  end.

(** [sort_by], which keeps the order of equals. *)
Fixpoint insert_by {A} (key : A → text) (x : A) (l : list A) : list A :=
  match l with
  | [] => [x]
  | y :: rest => match text_compare (key x) (key y) with Gt => y :: insert_by key x rest | _ => x :: l end
  end.

Definition sort_by {A} (key : A → text) (l : list A) : list A := foldr (insert_by key) [] l.

(** ** Texts without some characters *)

Definition without (cs : list N) (t : text) : Prop := Forall (λ c, c ∉ cs) t.

Lemma without_app cs s t : without cs (s ++ t) ↔ without cs s ∧ without cs t.
Proof. apply Forall_app. Qed.

Lemma without_test cs c t : c ∈ cs → without cs t → Forall (λ d, (c =? d)%N = false) t.
Proof.
  intros Hc Ht. eapply Forall_impl; [exact Ht|]. intros d Hd. apply N.eqb_neq. by intros ->.
Qed.

Lemma digits_without cs n : Forall (λ c, is_digit c = false) cs → without cs (show_N n).
Proof.
  intros Hcs. destruct (show_N_digits n) as [_ Hd]. eapply Forall_impl; [exact Hd|].
  intros c Hc Hin. rewrite Forall_forall in Hcs. specialize (Hcs c Hin). congruence.
Qed.

Lemma without_split cs c s t : c ∈ cs → without cs s → split_once_at (N.eqb c) (s ++ c :: t) = Some (s, t).
Proof. intros Hc Hs. apply split_once_at_app; [by eapply without_test|apply N.eqb_refl]. Qed.

Lemma without_no_split cs c s : c ∈ cs → without cs s → split_once_at (N.eqb c) s = None.
Proof.
  intros Hc Hs. pose proof (without_test _ _ _ Hc Hs) as Ht.
  induction Ht as [|d s Hd _ IH]; [done|]. cbn. rewrite Hd, IH; [done|]. by apply Forall_cons in Hs as [_ ?].
Qed.

Lemma without_weaken cs cs' t : cs' ⊆ cs → without cs t → without cs' t.
Proof. intros Hsub Ht. eapply Forall_impl; [exact Ht|]. intros c Hc Hin. by apply Hc, Hsub. Qed.

(** The last of some characters. *)
Lemma reverse_split c s t : without [c] t →
  split_once_at (N.eqb c) (reverse (s ++ c :: t)) = Some (reverse t, reverse s).
Proof.
  intros Ht. rewrite reverse_app, reverse_cons, <-app_assoc. apply (without_split [c]); [set_solver|].
  by apply Forall_reverse.
Qed.

(** A scheme before the separator of an address. *)
Lemma split_scheme (s rest : text) : without [58%N] s →
  split_once (lit "://") (s ++ lit "://" ++ rest) = Some (s, rest).
Proof.
  induction 1 as [|c s Hc _ IH]; [done|]. cbn [app split_once].
  assert (strip_prefix (lit "://") (c :: s ++ lit "://" ++ rest) = None) as ->.
  { change (lit "://") with [58; 47; 47]%N. cbn [strip_prefix].
    rewrite (proj2 (N.eqb_neq 58 c)); [done|set_solver]. }
  by rewrite IH.
Qed.

(** ** The bytes of a text *)

Lemma utf8_bytes c : is_scalar c → Forall (λ b, b < 256)%N (utf8_encode_char c).
Proof.
  intros Hc. unfold utf8_encode_char, is_scalar in *.
  pose proof (N.mod_lt c 64 ltac:(done)). pose proof (N.mod_lt (c / 64) 64 ltac:(done)).
  pose proof (N.mod_lt (c / 4096) 64 ltac:(done)).
  pose proof (N.Div0.mul_div_le c 64). pose proof (N.Div0.mul_div_le c 4096).
  pose proof (N.Div0.mul_div_le c 262144).
  repeat case_match; bool_to_prop; repeat constructor; lia.
Qed.

Lemma utf8_encode_bytes t : Forall is_scalar t → Forall (λ b, b < 256)%N (utf8_encode t).
Proof.
  unfold utf8_encode. induction 1 as [|c t Hc _ IH]; [constructor|]. rewrite bind_cons.
  apply Forall_app. split; [by apply utf8_bytes|done].
Qed.

Lemma ascii_utf8 t : Forall (λ c, c < 128)%N t → utf8_encode t = t.
Proof.
  induction 1 as [|c t Hc _ IH]; [done|]. unfold utf8_encode in *. rewrite bind_cons, IH.
  unfold utf8_encode_char. by rewrite (proj2 (N.ltb_lt _ _) Hc).
Qed.

(** ** What the characters of a text satisfy, those of its parts do *)

Create HintDb text.

Section characters.
Context (P : N → Prop).

Lemma all_reverse (t : text) : Forall P t → Forall P (reverse t).
Proof. by rewrite Forall_reverse. Qed.
Lemma all_take n (t : text) : Forall P t → Forall P (take n t).
Proof. apply Forall_take. Qed.
Lemma all_drop n (t : text) : Forall P t → Forall P (drop n t).
Proof. apply Forall_drop. Qed.
Lemma all_app (s t : text) : Forall P s → Forall P t → Forall P (s ++ t).
Proof. rewrite Forall_app. done. Qed.

#[local] Hint Resolve all_reverse all_take all_drop all_app : text.

Lemma all_trim_start_matches f (t : text) : Forall P t → Forall P (trim_start_matches f t).
Proof. induction 1 as [|c t ? ? IH]; simpl; [done|]. destruct (f c); [done|]. by constructor. Qed.
Lemma all_trim_start (t : text) : Forall P t → Forall P (trim_start t).
Proof. induction 1 as [|c t ? ? IH]; simpl; [done|]. destruct (is_whitespace c); [done|]. by constructor. Qed.

#[local] Hint Resolve all_trim_start_matches all_trim_start : text.

Lemma all_trim_end_matches f (t : text) : Forall P t → Forall P (trim_end_matches f t).
Proof. unfold trim_end_matches. auto with text. Qed.
Lemma all_trim_matches f (t : text) : Forall P t → Forall P (trim_matches f t).
Proof. unfold trim_matches, trim_end_matches. auto with text. Qed.
Lemma all_trim_end (t : text) : Forall P t → Forall P (trim_end t).
Proof. unfold trim_end. auto with text. Qed.
Lemma all_trim (t : text) : Forall P t → Forall P (trim t).
Proof. unfold trim, trim_end. auto with text. Qed.

Lemma all_strip_prefix p (t rest : text) : strip_prefix p t = Some rest → Forall P t → Forall P rest.
Proof.
  revert t. induction p as [|c p IH]; intros [|d t]; simpl; try done; try by intros [= ->].
  destruct (c =? d)%N; [|done]. intros H [_ Ht]%Forall_cons. by eapply IH.
Qed.

Lemma all_split_once_at f (t before after : text) :
  split_once_at f t = Some (before, after) → Forall P t → Forall P before ∧ Forall P after.
Proof.
  revert before. induction t as [|c t IH]; intros before; simpl; [done|].
  intros H [Hc Ht]%Forall_cons. destruct (f c); [by simplify_eq|].
  destruct (split_once_at f t) as [[b a]|]; [|done]. simplify_eq.
  destruct (IH b eq_refl Ht). by split; [constructor|].
Qed.

Lemma all_split_once p (t before after : text) :
  split_once p t = Some (before, after) → Forall P t → Forall P before ∧ Forall P after.
Proof.
  revert before. induction t as [|c t IH]; intros before H Ht; cbn [split_once] in H.
  - destruct (strip_prefix p []) eqn:E; simplify_eq. split; [done|]. by eapply all_strip_prefix.
  - destruct (strip_prefix p (c :: t)) eqn:E; simplify_eq.
    + split; [done|]. by eapply all_strip_prefix.
    + apply Forall_cons in Ht as [Hc Ht]. destruct (split_once p t) as [[b a]|]; [|done].
      simplify_eq. destruct (IH b eq_refl Ht). by split; [constructor|].
Qed.

Lemma all_split_char sep (current t : text) :
  Forall P current → Forall P t → Forall (Forall P) (split_char sep current t).
Proof.
  intros Hc Ht. revert current Hc. induction Ht as [|c t ? ? IH]; intros current Hc; simpl.
  - repeat constructor. auto with text.
  - destruct (c =? sep)%N; [constructor; auto with text|]. apply IH. by constructor.
Qed.
End characters.

#[export] Hint Resolve all_reverse all_take all_drop all_app all_trim_start_matches all_trim_start : text.

(** ** Trimmed texts *)

Lemma trim_start_suffix (t : text) : ∃ s, t = s ++ trim_start t.
Proof.
  induction t as [|c t [s IH]]; [by exists []|]. cbn [trim_start].
  destruct (is_whitespace c); [exists (c :: s); simpl; by rewrite <-IH|by exists []].
Qed.

Lemma trim_idempotent (t : text) : trim (trim t) = trim t.
Proof.
  unfold trim at 2 3. set (u := trim_start t).
  destruct (trim_start (reverse u)) as [|d v] eqn:Hv; [unfold trim_end; by rewrite Hv|].
  destruct (trim_start_suffix (reverse u)) as [s Hs]. rewrite Hv in Hs.
  apply (f_equal reverse) in Hs. rewrite reverse_involutive, reverse_app in Hs.
  assert (trim_end u = reverse (d :: v)) as -> by (unfold trim_end; by rewrite Hv).
  destruct (reverse (d :: v)) as [|c w] eqn:Hw; [done|].
  assert (∃ r, trim_start t = c :: r) as [r Hr].
  { fold u. exists (w ++ reverse s). by rewrite Hs. }
  apply (trim_plain _ c d); [done| |by eapply trim_start_nonblank|by eapply trim_start_nonblank].
  rewrite <-Hw, reverse_cons. apply last_snoc.
Qed.

Lemma trim_matches_none f (t : text) : Forall (λ c, f c = false) t → trim_matches f t = t.
Proof.
  assert (∀ u : text, Forall (λ c, f c = false) u → trim_start_matches f u = u) as Hstart.
  { intros u Hu. destruct Hu as [|c u Hc _]; [done|]. simpl. by rewrite Hc. }
  intros Ht. unfold trim_matches, trim_end_matches.
  rewrite (Hstart t Ht), Hstart by (by apply Forall_reverse). apply reverse_involutive.
Qed.

Lemma trim_no_space (t : text) : Forall (λ c, is_whitespace c = false) t → trim t = t.
Proof.
  intros Ht. destruct t as [|c t]; [done|].
  destruct (last (c :: t)) as [d|] eqn:Hd; [|by apply last_None in Hd].
  apply (trim_plain _ c d); [done|done| |].
  - by apply Forall_cons in Ht as [? _].
  - rewrite Forall_forall in Ht. apply Ht. by apply last_Some_elem_of.
Qed.

(** A number that is read is in its range. *)
Lemma parse_digits_bound max acc t n : parse_digits max acc t = Some n → (acc <= max)%N → (n <= max)%N.
Proof.
  revert acc. induction t as [|c t IH]; intros acc H Hacc; cbn [parse_digits] in H; [by injection H as <-|].
  destruct (is_digit c && _) eqn:E; [|done]. apply andb_true_iff in E as [_ E%N.leb_le]. by eapply IH.
Qed.

Lemma parse_unsigned_bound max t n : parse_unsigned max t = Some n → (n <= max)%N.
Proof.
  unfold parse_unsigned. intros H. repeat case_match; try done; eapply parse_digits_bound; try done; lia.
Qed.
