(* ===== verification/JsonValue.v ===== *)
(** * JSON values

    [serde_json::Value], as the extensions read and build it.  A number is one of the
    three cases serde_json keeps apart, a float by its 64 bits.  An object is the list
    of its members; the code only ever looks members up by name. *)

From S2P Require Import Prelude Text.

Inductive number : Type :=
  | PosInt (n : N)
  | NegInt (n : Z)
  | Float (bits : N).

Inductive Value : Type :=
  | Null
  | Bool (b : bool)
  | Number (n : number)
  | Str (s : list N)
  | Array (items : list Value)
  | Object (members : list (list N * Value)).

Fixpoint member (name : list N) (members : list (list N * Value)) : option Value :=
  match members with
  | [] => None
  | (key, value) :: rest => if bool_decide (key = name) then Some value else member name rest
  end.

(** [Value::get] of a name *)
Definition get (name : list N) (v : Value) : option Value :=
  match v with Object members => member name members | _ => None end.

(** [Value::pointer] along member names that are not numbers *)
Fixpoint pointer (path : list (list N)) (v : Value) : option Value :=
  match path with
  | [] => Some v
  | name :: rest => get name v ≫= pointer rest
  end.

Definition as_str (v : Value) : option (list N) :=
  match v with Str s => Some s | _ => None end.

Definition as_array (v : Value) : option (list Value) :=
  match v with Array items => Some items | _ => None end.

Definition is_object (v : Value) : bool :=
  match v with Object _ => true | _ => false end.

(** [json!] of an optional text or value *)
Definition opt_str (o : option (list N)) : Value := from_option Str Null o.
Definition opt_value (o : option Value) : Value := default Null o.

(** What serde derives for a type: from and to JSON, or an error message. *)
Class FromValue (T : Type) := from_value : Value → list N + T.
Class ToValue (T : Type) := to_value : T → list N + Value.

Lemma member_first name value rest : member name ((name, value) :: rest) = Some value.
Proof. simpl. by rewrite bool_decide_eq_true_2. Qed.

Lemma get_object name v value : get name v = Some value → is_object v = true.
Proof. by destruct v. Qed.
