(* ===== verification/EsClient.v ===== *)
(** * The Elasticsearch provider: errors, configuration and client

    composite/elasticsearch/src/error.rs, config.rs and client.rs.  The Elasticsearch
    SDK builds a request and returns a response or an error: a request is a value of
    [SdkRequest], and what the server answers is a function from requests.  Parsing of
    URLs and of JSON is a parameter, and so is the deserialisation of [OpenConfig],
    which is derived by serde. *)

From S2P Require Import Prelude Text JsonValue.

(** The codes of the protocol crate the provider uses, by name. *)
Inductive error_code : Type :=
  | METHOD_NOT_FOUND
  | INVALID_PARAMS
  | INTERNAL_ERROR
  | RESOURCE_CLOSED
  | RESOURCE_BUSY
  | REQUEST_CANCELLED
  | DATA_VALUE_OUT_OF_RANGE
  | DATA_INVALID_ENCODING
  | SERVER_INCOMPATIBLE
  | AUTH_FAILED
  | PERMISSION_DENIED
  | SQL_OBJECT_NOT_FOUND
  | IO_TIMEOUT
  | IO_CONNECTION_REFUSED
  | TLS_CERT_INVALID.

Record ProtocolError := { error_code_of : error_code; error_message : list N }.

Abbreviation result A := (outcome ProtocolError A) (only parsing).

(** ** error.rs *)

Definition boxed_error (code : error_code) (message : list N) : ProtocolError :=
  {| error_code_of := code; error_message := message |}.

Definition invalid_params (message : list N) : ProtocolError :=
  boxed_error INVALID_PARAMS message.

Definition resource_error : ProtocolError :=
  boxed_error RESOURCE_CLOSED (lit "Elasticsearch resource is not open").

Definition of_sum {A B} (f : A → ProtocolError) (r : A + B) : result B :=
  match r with inl a => Err (f a) | inr b => Ok b end.

Definition parse_params {T} `{FromValue T} (v : Value) : result T :=
  of_sum invalid_params (from_value v).

Definition serialize {T} `{ToValue T} (value : T) : result Value :=
  of_sum invalid_params (to_value value).

(** ** config.rs *)

(** [elasticsearch::http::Url] *)
Record Url := {
  scheme : list N; path : list N; query : option (list N); fragment : option (list N);
  url_text : list N
}.

(** [elasticsearch::auth::Credentials] *)
Inductive Credentials : Type :=
  | BasicAuth (username password : list N)
  | EncodedApiKey (encoded : list N)
  | BearerToken (token : list N).

Inductive AuthConfig : Type :=
  | AuthNone
  | AuthBasic (username password : list N)
  | AuthApiKey (encoded : list N)
  | AuthBearer (token : list N)
  | AuthCredentialRef (kind credential_ref : list N) (username : option (list N)).

Record OpenConfig := {
  url : list N;
  auth : AuthConfig;
  credential_ref : option (list N);
  auth_type : option (list N);
  username : option (list N);
  credential_refs : gmap (list N) (list N)
}.

Inductive PendingCredentials : Type :=
  | PendingNone
  | Direct (credentials : Credentials)
  | Reference (kind reference : list N) (username : option (list N)).

(** [ResourceOpenParams], as far as it is read. *)
Record ResourceOpenParams := { resource_type : list N; open_config : Value }.

Definition RESOURCE_TYPE : list N := lit "elasticsearch".

Definition reference (config : OpenConfig) (field : list N) (username : option (list N))
    : result PendingCredentials :=
  match credential_refs config !! field with
  | Some value =>
      if blank value
      then Err (invalid_params (lit "missing credential reference for `" ++ field ++ lit "`"))
      else Ok (Reference (default [] (auth_type config)) value username)
  | None => Err (invalid_params (lit "missing credential reference for `" ++ field ++ lit "`"))
  end.

Definition credentials_from_fields (config : OpenConfig) : result PendingCredentials :=
  let value := default (lit "none") (auth_type config) in
  if bool_decide (value = lit "none") then Ok PendingNone
  else if bool_decide (value = lit "api_key") then reference config (lit "api_key") None
  else if bool_decide (value = lit "basic")
       then reference config (lit "password") (username config)
  else if bool_decide (value = lit "bearer") then reference config (lit "token") None
  else Err (invalid_params (lit "unsupported authentication type `" ++ value ++ lit "`")).

(** The [match config.auth] of [parse_open_params] *)
Definition open_credentials (config : OpenConfig) : result PendingCredentials :=
  match auth config with
  | AuthNone =>
      match credential_ref config with
      | Some value =>
          if blank value then credentials_from_fields config
          else Ok (Reference (lit "api_key") value None)
      | None => credentials_from_fields config
      end
  | AuthBasic username password =>
      if bool_decide (username = []) || bool_decide (password = [])
      then Err (invalid_params (lit "basic authentication requires username and password"))
      else Ok (Direct (BasicAuth username password))
  | AuthApiKey encoded =>
      if blank encoded then Err (invalid_params (lit "API key must not be empty"))
      else Ok (Direct (EncodedApiKey encoded))
  | AuthBearer token =>
      if blank token then Err (invalid_params (lit "bearer token must not be empty"))
      else Ok (Direct (BearerToken token))
  | AuthCredentialRef kind credential_ref username =>
      if blank credential_ref
      then Err (invalid_params (lit "credential_ref must not be empty"))
      else Ok (Reference kind credential_ref username)
  end.

Section config.
(** [str::parse], with the text of its error. *)
Context (parse_url : list N → list N + Url).
Context `{FromValue ResourceOpenParams, FromValue OpenConfig}.

Definition endpoint (u : Url) : bool :=
  (bool_decide (scheme u = lit "http") || bool_decide (scheme u = lit "https")) &&
  bool_decide (path u = lit "/") && bool_decide (query u = None) &&
  bool_decide (fragment u = None).

Definition parse_open_params (params : Value) : result (list N * PendingCredentials) :=
  params ← parse_params (T:=ResourceOpenParams) params;
  _ ← ensure (bool_decide (resource_type params = RESOURCE_TYPE))
        (invalid_params (lit "resource type must be `" ++ RESOURCE_TYPE ++ lit "`"));
  config ← of_sum (λ error, invalid_params (lit "invalid Elasticsearch config: " ++ error))
             (from_value (T:=OpenConfig) (open_config params));
  u ← of_sum (λ _, invalid_params (lit "a valid `http` or `https` `url` is required"))
        (parse_url (trim (url config)));
  _ ← ensure (endpoint u)
        (invalid_params
           (lit "`url` must be an HTTP(S) endpoint without path, query, or fragment"));
  credentials ← open_credentials config;
  mret (url_text u, credentials).
End config.

Definition stored_credentials (kind : list N) (username : option (list N)) (secret : list N)
    : option Credentials :=
  if bool_decide (kind = lit "api_key") then Some (EncodedApiKey secret)
  else if bool_decide (kind = lit "bearer") then Some (BearerToken secret)
  else if bool_decide (kind = lit "basic")
       then username ← username; Some (BasicAuth username secret)
  else None.

(** ** client.rs *)

Definition MAX_HTTP_BODY_BYTES : N := 8 * 1024 * 1024.

(** The calls of the SDK, with the arguments the provider gives them. *)
Inductive SdkRequest : Type :=
  | Info
  | ClusterHealth
  | CatIndices (h : list (list N))
  | IndicesGet (index : list N)
  | IndicesGetMapping (index : list N)
  | Search (indices : list (list N)) (body : Value).

(** [elasticsearch::http::response::Response]; reading the body may fail. *)
Record Response := {
  status_code : N;
  content_length : option N;
  response_bytes : list N + bytes
}.

Definition index_name (params : Value) : result (list N) :=
  name ← of_option (invalid_params (lit "index name is required"))
           (name ← get (lit "name") params ≫= as_str;
            if bool_decide (trim name = []) then None else Some (trim name));
  if (256 <? str_len name) || has_char 47 name || has_char 63 name || has_char 35 name
  then Err (invalid_params (lit "invalid index name"))
  else Ok name.

Definition match_all : Value := Object [(lit "query", Object [(lit "match_all", Object [])])].

Definition simple_query (query : list N) : Value :=
  Object [(lit "query",
           Object [(lit "simple_query_string",
                    Object [(lit "query", Str query); (lit "fields", Array [Str (lit "*")])])])].

Definition search_body (params : Value) : result Value :=
  match get (lit "body") params with
  | Some body =>
      if is_object body then Ok body
      else Err (invalid_params (lit "search body must be a JSON object"))
  | None =>
      query ← of_option (invalid_params (lit "non-empty search query is required"))
                (query ← get (lit "query") params ≫= as_str;
                 if bool_decide (trim query = []) then None else Some (trim query));
      if bool_decide (query = lit "*") then Ok match_all else Ok (simple_query query)
  end.

(** [execute_search], up to the call of [send]: the SDK request it builds. *)
Definition search_indices (params : Value) : list (list N) :=
  match get (lit "indices") params ≫= as_array with
  | Some items => omap as_str items
  | None => []
  end.

Definition execute_search (params : Value) : SdkRequest :=
  Search (search_indices params)
    (match search_body params with Ok body => body | _ => match_all end).

(** The [match method_name] of [execute]. *)
Definition build_request (method_name : list N) (params : Value) : result SdkRequest :=
  if bool_decide (method_name = lit "elasticsearch/cluster/info") then Ok Info
  else if bool_decide (method_name = lit "elasticsearch/cluster/health") then Ok ClusterHealth
  else if bool_decide (method_name = lit "elasticsearch/index/list")
       then Ok (CatIndices [lit "index"; lit "health"; lit "docs.count"; lit "store.size"])
  else if bool_decide (method_name = lit "elasticsearch/index/get")
       then index ← index_name params; Ok (IndicesGet index)
  else if bool_decide (method_name = lit "elasticsearch/index/mapping")
       then index ← index_name params; Ok (IndicesGetMapping index)
  else if bool_decide (method_name = lit "elasticsearch/search")
       then Ok (execute_search params)
  else Err (boxed_error METHOD_NOT_FOUND
              (lit "unknown Elasticsearch method `" ++ method_name ++ lit "`")).

(** An SDK error is its text. *)
Definition map_client_error (message : list N) : ProtocolError :=
  let lower := to_ascii_lowercase message in
  let code := if contains (lit "timed out") lower then IO_TIMEOUT
              else if contains (lit "certificate") lower then TLS_CERT_INVALID
              else IO_CONNECTION_REFUSED in
  boxed_error code (lit "Elasticsearch SDK request failed: " ++ message).

Definition is_success (status : N) : bool := ((200 <=? status) && (status <? 300))%N.

Definition status_error (status : N) : error_code :=
  if (status =? 401)%N then AUTH_FAILED
  else if (status =? 403)%N then PERMISSION_DENIED
  else if (status =? 404)%N then SQL_OBJECT_NOT_FOUND
  else if ((status =? 408) || (status =? 504))%N then IO_TIMEOUT
  else IO_CONNECTION_REFUSED.

Definition too_large : ProtocolError :=
  boxed_error DATA_VALUE_OUT_OF_RANGE
    (lit "Elasticsearch response exceeds the provider limit").

Section client.
(** [serde_json::from_slice], and the rendering of a status such as [404 Not Found]. *)
Context (from_slice : bytes → option Value) (status_text : N → list N).

Definition response_json (response : Response) : result Value :=
  let status := status_code response in
  _ ← ensure (match content_length response with
              | Some length => (length <=? MAX_HTTP_BODY_BYTES)%N
              | None => true
              end) too_large;
  body ← of_sum map_client_error (response_bytes response);
  _ ← ensure (N.of_nat (length body) <=? MAX_HTTP_BODY_BYTES)%N too_large;
  value ← of_option (boxed_error DATA_INVALID_ENCODING
                       (lit "Elasticsearch returned invalid JSON")) (from_slice body);
  if is_success status then Ok value
  else
    let reason := default (lit "Elasticsearch request failed")
                    (pointer [lit "error"; lit "reason"] value ≫= as_str) in
    Err (boxed_error (status_error status)
           (lit "HTTP " ++ status_text status ++ lit ": " ++ reason)).

(** [send] is what the server behind the resource answers. *)
Definition execute (send : SdkRequest → list N + Response) (method_name : list N)
    (params : Value) : result Value :=
  request ← build_request method_name params;
  response ← of_sum map_client_error (send request);
  response_json response.

Definition validate_connection (send : SdkRequest → list N + Response) : result () :=
  value ← execute send (lit "elasticsearch/cluster/info") Null;
  version ← of_option (boxed_error DATA_INVALID_ENCODING
                         (lit "missing Elasticsearch version"))
              (pointer [lit "version"; lit "number"] value ≫= as_str);
  ensure (bool_decide (head (split_char 46 [] version) = Some (lit "9")))
    (boxed_error SERVER_INCOMPATIBLE
       (lit "Elasticsearch 9.x is required; server reported " ++ version)).
End client.

Section build.
(** [TransportBuilder::build] and [Elasticsearch::new]: an SDK client. *)
Context {Resource : Type} (parse_url : list N → list N + Url).
Context (build_transport : Url → option Credentials → list N + Resource).

Definition build_client (url : list N) (credentials : option Credentials) : result Resource :=
  u ← of_sum (λ error, invalid_params (lit "invalid Elasticsearch URL: " ++ error))
        (parse_url url);
  of_sum (boxed_error INTERNAL_ERROR) (build_transport u credentials).
End build.

Definition normalize_index (index : Value) : Value :=
  Object [(lit "name", opt_value (match get (lit "index") index with
                                  | Some name => Some name
                                  | None => get (lit "name") index
                                  end));
          (lit "health", opt_value (get (lit "health") index));
          (lit "docs", opt_value (get (lit "docs.count") index));
          (lit "size_bytes", opt_value (get (lit "store.size") index))].

Definition normalize_indices (value : Value) : Value :=
  match as_array value with
  | None => Object [(lit "indices", value)]
  | Some indices => Object [(lit "indices", Array (normalize_index <$> indices))]
  end.

Definition normalize_search (value : Value) : Value := Object [(lit "raw", value)].

Definition normalize_result (method_name : list N) (value : Value) : Value :=
  if bool_decide (method_name = lit "elasticsearch/index/list") then normalize_indices value
  else if bool_decide (method_name = lit "elasticsearch/index/get") then value
  else if bool_decide (method_name = lit "elasticsearch/search") then normalize_search value
  else value.

(** ** No call of the client panics *)

Lemma of_sum_no_panic {A B} (f : A → ProtocolError) (r : A + B) : of_sum f r ≠ Panic.
Proof. by destruct r. Qed.
#[export] Hint Resolve of_sum_no_panic : helper.

Lemma search_body_no_panic params : search_body params ≠ Panic.
Proof. unfold search_body. no_panic_steps. Qed.

Lemma index_name_no_panic params : index_name params ≠ Panic.
Proof. unfold index_name. no_panic_steps. Qed.
#[export] Hint Resolve search_body_no_panic index_name_no_panic : helper.

Lemma build_request_no_panic method_name params : build_request method_name params ≠ Panic.
Proof.
  unfold build_request. repeat case_bool_decide; try done; apply bind_no_panic; auto with helper;
    done.
Qed.
#[export] Hint Resolve build_request_no_panic : helper.

Lemma execute_no_panic from_slice status_text send method_name params :
  execute from_slice status_text send method_name params ≠ Panic.
Proof. unfold execute, response_json. no_panic_steps. Qed.
#[export] Hint Resolve execute_no_panic : helper.

Lemma validate_connection_no_panic from_slice status_text send :
  validate_connection from_slice status_text send ≠ Panic.
Proof. unfold validate_connection. no_panic_steps. Qed.

Lemma build_client_no_panic {R} parse_url build_transport url credentials :
  build_client (Resource:=R) parse_url build_transport url credentials ≠ Panic.
Proof. unfold build_client. no_panic_steps. Qed.

Lemma open_credentials_no_panic config : open_credentials config ≠ Panic.
Proof.
  unfold open_credentials, credentials_from_fields, reference.
  repeat (case_match || done).
Qed.
#[export] Hint Resolve validate_connection_no_panic build_client_no_panic
  open_credentials_no_panic : helper.

Lemma parse_open_params_no_panic parse_url `{FromValue ResourceOpenParams, FromValue OpenConfig}
    params : parse_open_params parse_url params ≠ Panic.
Proof. unfold parse_open_params, parse_params. no_panic_steps. Qed.
#[export] Hint Resolve parse_open_params_no_panic : helper.
