(* ===== verification/EsState.v ===== *)
(** * The Elasticsearch provider: resources, jobs, blobs and event streams

    composite/elasticsearch/src/state/{mod,blob,event,job}.rs.  A method of
    [ProviderState] runs in [Process], the provider's state with what its methods use
    of the process around it: the generator of identifiers and the spawned search
    workers.  A worker is its half of the two channels shared with a job: the result
    it has sent and whether it is still running, and whether the job has cancelled it
    (a dropped [oneshot::Sender] wakes the worker like a sent one). *)

From S2P Require Import Prelude Text JsonValue EsClient.

(** ** Messages of the protocol crate, as far as the provider reads or builds them *)

Inductive JobState : Type := Running | Succeeded | Failed | Cancelled.
#[export] Instance JobState_eq_dec : EqDecision JobState.
Proof. solve_decision. Defined.

Inductive ResultRef : Type :=
  | Inline (value : Value)
  | Blob (id : list N).

Record JobStartParams := {
  js_resource_id : option (list N); js_method : list N; js_params : Value
}.
Record JobStartResult := { js_job_id : list N; js_state : JobState }.

(** [effective_max_bytes()] and [effective_max_events()] by their values. *)
Record BlobReadParams := { br_blob_id : list N; effective_max_bytes : N }.
Record BlobReadResult := { br_data : list N; bytes_read : N; br_done : bool }.
Record EventOpenParams := {
  eo_kind : list N; eo_conn_id : option (list N); eo_capacity : option N
}.
Record EventReadParams := { er_stream_id : list N; effective_max_events : N }.
Record EventReadResult := { er_events : list Value; er_closed : bool; er_dropped_count : N }.

(** Constants and functions of the protocol crate, serde_json and base64. *)
Class EsProtocol := {
  ProgressPercent : Type;
  percent_100 : ProgressPercent;
  percent_u8 : ProgressPercent → N;
  job_state_json : JobState → Value;
  job_state_debug : JobState → list N;
  job_result_json : ResultRef → Value;
  should_stream_blob : N → bool;
  DEFAULT_EVENT_MAX_EVENTS : N;
  MAX_EVENT_MAX_EVENTS : N;
  to_vec : Value → list N + bytes;
  base64 : bytes → list N
}.

Record JobStatusResult `{EsProtocol} := {
  jr_job_id : list N; jr_state : JobState;
  jr_progress : option ProgressPercent; jr_message : option (list N)
}.

(** ** The state *)

Record ProviderBlob := {
  blob_resource : list N; blob_data : bytes; blob_offset : nat; blob_closed : bool
}.

Record ProviderEventStream := {
  stream_kind : list N; buffer : list Value; capacity : nat; dropped_count : N;
  stream_closed : bool
}.

(** [completion] and [cancellation] name the worker at the other end. *)
Record ProviderJob `{EsProtocol} := {
  job_resource : list N;
  job_state : JobState;
  progress_percent : option ProgressPercent;
  job_message : option (list N);
  job_result_ref : option ResultRef;
  completion : option nat;
  cancellation : option nat
}.

Record Worker (Resource : Type) := {
  worker_resource : Resource; worker_params : Value;
  sent : option (ProtocolError + Value); alive : bool; cancelled : bool
}.
Arguments worker_resource {_} _.
Arguments worker_params {_} _.
Arguments sent {_} _.
Arguments alive {_} _.
Arguments cancelled {_} _.

Record ProviderState `{EsProtocol} (Resource : Type) := {
  resources : gmap (list N) Resource;
  blobs : gmap (list N) ProviderBlob;
  jobs : gmap (list N) ProviderJob;
  event_streams : gmap (list N) ProviderEventStream;
  next_reverse_request_id : Z
}.
Arguments resources {_ _} _.
Arguments blobs {_ _} _.
Arguments jobs {_ _} _.
Arguments event_streams {_ _} _.
Arguments next_reverse_request_id {_ _} _.

Record Process `{EsProtocol} (Resource : Type) := {
  provider :> ProviderState Resource;
  uuid_draws : nat;
  workers : list (Worker Resource)
}.
Arguments provider {_ _} _.
Arguments uuid_draws {_ _} _.
Arguments workers {_ _} _.

Definition MAX_TOTAL_BLOB_BYTES : N := 32 * 1024 * 1024.
Definition MAX_EVENT_STREAMS : nat := 64.
Definition SEARCH_EVENT_KIND : list N := lit "elasticsearch/search/events".
Definition MAX_JOBS : nat := 64.

Section state.
Context `{EsProtocol} {Resource : Type}.
(** [Uuid::new_v4().to_string()], by the number of calls before it. *)
Context (new_v4 : nat → list N).

Abbreviation Process := (Process Resource).
Implicit Types (p : Process).

Definition on_resources (f : gmap (list N) Resource → gmap (list N) Resource) p : Process :=
  {| provider := {| resources := f (resources p); blobs := blobs p; jobs := jobs p;
       event_streams := event_streams p;
       next_reverse_request_id := next_reverse_request_id p |};
     uuid_draws := uuid_draws p; workers := workers p |}.
Definition on_blobs (f : gmap (list N) ProviderBlob → gmap (list N) ProviderBlob) p
    : Process :=
  {| provider := {| resources := resources p; blobs := f (blobs p); jobs := jobs p;
       event_streams := event_streams p;
       next_reverse_request_id := next_reverse_request_id p |};
     uuid_draws := uuid_draws p; workers := workers p |}.
Definition on_jobs (f : gmap (list N) ProviderJob → gmap (list N) ProviderJob) p : Process :=
  {| provider := {| resources := resources p; blobs := blobs p; jobs := f (jobs p);
       event_streams := event_streams p;
       next_reverse_request_id := next_reverse_request_id p |};
     uuid_draws := uuid_draws p; workers := workers p |}.
Definition on_streams
    (f : gmap (list N) ProviderEventStream → gmap (list N) ProviderEventStream) p : Process :=
  {| provider := {| resources := resources p; blobs := blobs p; jobs := jobs p;
       event_streams := f (event_streams p);
       next_reverse_request_id := next_reverse_request_id p |};
     uuid_draws := uuid_draws p; workers := workers p |}.
Definition on_workers (f : list (Worker Resource) → list (Worker Resource)) p : Process :=
  {| provider := provider p; uuid_draws := uuid_draws p; workers := f (workers p) |}.

(** [ProviderState::new()], before anything was spawned. *)
Definition new_process : Process :=
  {| provider := {| resources := ∅; blobs := ∅; jobs := ∅; event_streams := ∅;
       next_reverse_request_id := 1 |};
     uuid_draws := 0; workers := [] |}.

(** [Uuid::new_v4()] *)
Definition draw p : Process * list N :=
  ({| provider := provider p; uuid_draws := S (uuid_draws p); workers := workers p |},
   new_v4 (uuid_draws p)).

(** *** state/blob.rs *)

(** A sum in [usize]; it stays below 32 MiB ([provider_invariant] in EsRuns.v). *)
Definition blob_bytes (m : gmap (list N) ProviderBlob) : N :=
  map_fold (λ _ blob n, N.of_nat (length (blob_data blob)) + n)%N 0%N m.
Definition total_blob_bytes p : N := blob_bytes (blobs p).

Definition store_blob (resource_id : list N) (data : bytes) p : Process * option (list N) :=
  let len := N.of_nat (length data) in
  if ((MAX_TOTAL_BLOB_BYTES <? len) ||
      (MAX_TOTAL_BLOB_BYTES <? sat_add u64_max (total_blob_bytes p) len))%N
  then (p, None)
  else
    let '(p, uuid) := draw p in
    let blob_id := lit "es-blob-" ++ uuid in
    (on_blobs <[blob_id := {| blob_resource := resource_id; blob_data := data;
                              blob_offset := 0; blob_closed := false |}]> p,
     Some blob_id).

Definition blob_result (resource_id : list N) (value : Value)
    : comp Process ProtocolError ResultRef :=
  data ← lift_outcome (of_sum (λ error, invalid_params (lit "failed to encode result: " ++ error))
                         (to_vec value));
  if negb (should_stream_blob (N.of_nat (length data))) then mret (Inline value)
  else
    stored ← total (store_blob resource_id data);
    match stored with
    | None => throw (boxed_error DATA_VALUE_OUT_OF_RANGE
                       (lit "Elasticsearch result exceeds the provider blob budget"))
    | Some blob_id => mret (Blob blob_id)
    end.

Definition read_blob (params : BlobReadParams) : comp Process ProtocolError BlobReadResult :=
  λ p, match blobs p !! br_blob_id params with
  | None => (p, Err (boxed_error RESOURCE_CLOSED (lit "blob is closed or unknown")))
  | Some blob =>
      if blob_closed blob
      then (p, Err (boxed_error RESOURCE_CLOSED (lit "blob is closed")))
      else
        let len := length (blob_data blob) in
        let start := blob_offset blob `min` len in
        let stop := N.to_nat (sat_add u64_max (N.of_nat start) (effective_max_bytes params))
                      `min` len in
        let read := (N.of_nat (stop - start) `mod` (u32_max + 1))%N in
        let done := bool_decide (stop = len) && (0 <? read)%N in
        (on_blobs <[br_blob_id params :=
                      {| blob_resource := blob_resource blob; blob_data := blob_data blob;
                         blob_offset := stop; blob_closed := blob_closed blob |}]> p,
         data ← get_slice (blob_data blob) start stop;
         Ok {| br_data := base64 data; bytes_read := read; br_done := done |})
  end.

Definition close_blob (blob_id : list N) p : Process := on_blobs (delete blob_id) p.

Definition close_blobs_for_resource (resource_id : list N) p : Process :=
  on_blobs (filter (λ kv, blob_resource kv.2 ≠ resource_id)) p.

(** *** state/event.rs *)

Definition open_event_stream (params : EventOpenParams)
    : comp Process ProtocolError (list N) :=
  _ ← lift_outcome (ensure (bool_decide (eo_kind params = SEARCH_EVENT_KIND))
        (boxed_error METHOD_NOT_FOUND
           (lit "unknown Elasticsearch event stream `" ++ eo_kind params ++ lit "`")));
  _ ← lift_outcome (ensure (bool_decide (eo_conn_id params = None))
        (invalid_params (lit "Elasticsearch event streams are provider-global")));
  open ← gets (λ p : Process, resources p);
  _ ← lift_outcome (ensure (negb (bool_decide (open = ∅))) resource_error);
  streams ← gets (λ p : Process, event_streams p);
  _ ← lift_outcome (ensure (size streams <? MAX_EVENT_STREAMS)
        (boxed_error RESOURCE_BUSY (lit "Elasticsearch event stream limit reached")));
  uuid ← total draw;
  let stream_id := lit "es-stream-" ++ uuid in
  let wanted := default DEFAULT_EVENT_MAX_EVENTS (eo_capacity params) in
  _ ← modify (on_streams <[stream_id :=
        {| stream_kind := eo_kind params; buffer := [];
           capacity := N.to_nat (N.max 1 (N.min MAX_EVENT_MAX_EVENTS wanted));
           dropped_count := 0; stream_closed := false |}]>);
  mret stream_id.

Definition push (event : Value) (stream : ProviderEventStream) : ProviderEventStream :=
  if stream_closed stream then stream
  else
    let full := capacity stream <=? length (buffer stream) in
    {| stream_kind := stream_kind stream;
       buffer := (if full then tail (buffer stream) else buffer stream) ++ [event];
       capacity := capacity stream;
       dropped_count := if full then sat_add u64_max (dropped_count stream) 1
                        else dropped_count stream;
       stream_closed := stream_closed stream |}.

Definition push_event (stream_id : list N) (event : Value) p : Process :=
  on_streams (alter (push event) stream_id) p.

Definition broadcast_event (event : Value) p : Process :=
  let stream_ids :=
    (map_to_list (filter (λ kv, stream_kind kv.2 = SEARCH_EVENT_KIND) (event_streams p))).*1 in
  foldl (λ p stream_id, push_event stream_id event p) p stream_ids.

Definition read_event_stream (params : EventReadParams) p : Process * EventReadResult :=
  match event_streams p !! er_stream_id params with
  | None => (p, {| er_events := []; er_closed := true; er_dropped_count := 0 |})
  | Some stream =>
      let available := (N.of_nat (length (buffer stream)) `mod` (u32_max + 1))%N in
      let count := N.to_nat (N.min (effective_max_events params) available) in
      (on_streams <[er_stream_id params :=
         {| stream_kind := stream_kind stream; buffer := drop count (buffer stream);
            capacity := capacity stream; dropped_count := dropped_count stream;
            stream_closed := stream_closed stream |}]> p,
       {| er_events := take count (buffer stream); er_closed := stream_closed stream;
          er_dropped_count := dropped_count stream |})
  end.

Definition close_event_stream (stream_id : list N) p : Process :=
  on_streams (delete stream_id) p.

(** The event [emit_job_event] builds. *)
Definition job_event (job_id : list N) (job : ProviderJob) : Value :=
  Object [(lit "type", Str (lit "job/completed"));
          (lit "job_id", Str job_id);
          (lit "state", job_state_json (job_state job));
          (lit "progress_percent",
           from_option (λ percent, Number (PosInt (percent_u8 percent))) Null
             (progress_percent job));
          (lit "message", opt_str (job_message job));
          (lit "result", from_option job_result_json Null (job_result_ref job))].

Definition emit_job_event (job_id : list N) p : Process :=
  match jobs p !! job_id with
  | None => p
  | Some job => broadcast_event (job_event job_id job) p
  end.

(** *** state/job.rs *)

(** Sending on or dropping a [oneshot::Sender]: the worker's [select!] is woken. *)
Definition signal (handle : option nat) p : Process :=
  match handle with
  | None => p
  | Some c =>
      on_workers (alter (λ w, {| worker_resource := worker_resource w;
                                 worker_params := worker_params w; sent := sent w;
                                 alive := alive w; cancelled := true |}) c) p
  end.

(** The end of a [ProviderJob]: its channel ends are dropped. *)
Definition drop_job (job : ProviderJob) p : Process := signal (cancellation job) p.

(** [tokio::spawn] of the search of a job, with the channels it keeps the ends of. *)
Definition spawn_worker (resource : Resource) (params : Value) p : Process * nat :=
  (on_workers (λ ws, ws ++ [{| worker_resource := resource; worker_params := params;
                               sent := None; alive := true; cancelled := false |}]) p,
   length (workers p)).

(** The worker's [select!]: the search is over and its result sent, or the job woke it.
    Either way the task ends, and with it the sender. *)
Definition worker_sends (c : nat) (r : ProtocolError + Value) p : Process :=
  on_workers (alter (λ w, {| worker_resource := worker_resource w;
                             worker_params := worker_params w; sent := Some r;
                             alive := false; cancelled := cancelled w |}) c) p.
Definition worker_ends (c : nat) p : Process :=
  on_workers (alter (λ w, {| worker_resource := worker_resource w;
                             worker_params := worker_params w; sent := sent w;
                             alive := false; cancelled := cancelled w |}) c) p.

(** [jobs.insert]: a job found under the same name is dropped. *)
Definition insert_job (job_id : list N) (job : ProviderJob) p : Process :=
  let p' := match jobs p !! job_id with Some old => drop_job old p | None => p end in
  on_jobs <[job_id := job]> p'.

Definition start_job (params : JobStartParams) : comp Process ProtocolError JobStartResult :=
  resource_id ← lift_outcome (of_option resource_error (js_resource_id params));
  open ← gets (λ p : Process, resources p !! resource_id);
  resource ← lift_outcome (of_option resource_error open);
  _ ← lift_outcome (ensure (bool_decide (js_method params = lit "elasticsearch/search/async"))
        (boxed_error METHOD_NOT_FOUND
           (lit "unknown Elasticsearch job method `" ++ js_method params ++ lit "`")));
  running ← gets (λ p : Process, size (jobs p));
  _ ← lift_outcome (ensure (running <? MAX_JOBS)
        (boxed_error RESOURCE_BUSY (lit "Elasticsearch job limit reached")));
  _ ← lift_outcome (search_body (js_params params));
  uuid ← total draw;
  let job_id := lit "es-job-" ++ uuid in
  worker ← total (spawn_worker resource (js_params params));
  _ ← modify (insert_job job_id
        {| job_resource := resource_id; job_state := Running; progress_percent := None;
           job_message := Some (lit "search running"); job_result_ref := None;
           completion := Some worker; cancellation := Some worker |});
  mret {| js_job_id := job_id; js_state := Running |}.

Inductive TryRecv : Type :=
  | Received (result : ProtocolError + Value)
  | Empty
  | Disconnected.

(** [mpsc::Receiver::try_recv]: a message sent before the sender was dropped is
    still received. *)
Definition try_recv (c : nat) p : Process * TryRecv :=
  match workers p !! c with
  | None => (p, Disconnected)
  | Some w =>
      match sent w with
      | Some r =>
          (on_workers <[c := {| worker_resource := worker_resource w;
                                worker_params := worker_params w; sent := None;
                                alive := alive w; cancelled := cancelled w |}]> p,
           Received r)
      | None => (p, if alive w then Empty else Disconnected)
      end
  end.

(** The job's fields a transition sets. *)
Definition finish_job (state : JobState) (progress : option ProgressPercent)
    (message : list N) (result : option ResultRef) (job : ProviderJob) : ProviderJob :=
  {| job_resource := job_resource job; job_state := state; progress_percent := progress;
     job_message := Some message; job_result_ref := result;
     completion := completion job; cancellation := cancellation job |}.

Definition set_completion (c : option nat) (job : ProviderJob) : ProviderJob :=
  {| job_resource := job_resource job; job_state := job_state job;
     progress_percent := progress_percent job; job_message := job_message job;
     job_result_ref := job_result_ref job; completion := c;
     cancellation := cancellation job |}.

Definition fail_job (message : list N) (job : ProviderJob) : ProviderJob :=
  finish_job Failed None message None job.

Definition update_job (job_id : list N) (f : ProviderJob → ProviderJob) p : Process :=
  on_jobs (alter f job_id) p.

Definition complete_job (job_id : list N) (value : Value) p : Process * bool :=
  let value := normalize_search value in
  match jobs p !! job_id with
  | None => (p, false)
  | Some job =>
      match to_vec value with
      | inl error =>
          (update_job job_id
             (λ job, finish_job Failed (progress_percent job) error None job) p, true)
      | inr data =>
          let '(p, stored) :=
            if should_stream_blob (N.of_nat (length data)) then
              let '(p, blob_id) := store_blob (job_resource job) data p in (p, Blob <$> blob_id)
            else (p, Some (Inline value)) in
          match stored with
          | None =>
              (update_job job_id
                 (fail_job (lit "Elasticsearch job result exceeds the provider blob budget")) p,
               true)
          | Some result_ref =>
              (update_job job_id
                 (finish_job Succeeded (Some percent_100) (lit "search completed")
                    (Some result_ref)) p,
               true)
          end
      end
  end.

Definition poll_job (job_id : list N) p : Process * bool :=
  match jobs p !! job_id with
  | None => (p, false)
  | Some job =>
      if decide (job_state job ≠ Running) then (p, false) else
      match completion job with
      | None =>
          (update_job job_id
             (λ job, finish_job Failed (progress_percent job)
                       (lit "search worker is unavailable") (job_result_ref job) job) p, true)
      | Some c =>
          let '(p, received) := try_recv c (update_job job_id (set_completion None) p) in
          match received with
          | Received (inr value) => complete_job job_id value p
          | Received (inl error) =>
              (update_job job_id (fail_job (error_message error)) p, true)
          | Empty => (update_job job_id (set_completion (Some c)) p, false)
          | Disconnected =>
              (update_job job_id (fail_job (lit "search worker terminated")) p, true)
          end
      end
  end.

Definition job_closed : ProtocolError :=
  boxed_error RESOURCE_CLOSED (lit "job is closed or unknown").

Definition job_status (job_id : list N) : comp Process ProtocolError JobStatusResult :=
  found ← gets (λ p : Process, jobs p !! job_id);
  job ← lift_outcome (of_option job_closed found);
  mret {| jr_job_id := job_id; jr_state := job_state job;
          jr_progress := progress_percent job; jr_message := job_message job |}.

Definition cancel_job (job_id : list N) : comp Process ProtocolError bool := λ p,
  match jobs p !! job_id with
  | None => (p, Err job_closed)
  | Some job =>
      if decide (job_state job = Running) then
        let p := update_job job_id (λ job,
                   {| job_resource := job_resource job; job_state := Cancelled;
                      progress_percent := None;
                      job_message := Some (lit "search cancelled"); job_result_ref := None;
                      completion := None; cancellation := None |}) p in
        (signal (cancellation job) p, Ok true)
      else (p, Ok false)
  end.

Definition job_result (job_id : list N) : comp Process ProtocolError ResultRef :=
  found ← gets (λ p : Process, jobs p !! job_id);
  job ← lift_outcome (of_option job_closed found);
  match job_state job with
  | Succeeded =>
      lift_outcome (of_option (boxed_error INTERNAL_ERROR (lit "job result is unavailable"))
                      (job_result_ref job))
  | Running => throw (boxed_error RESOURCE_BUSY (lit "job result is not ready"))
  | Cancelled => throw (boxed_error REQUEST_CANCELLED (lit "job was cancelled"))
  | state =>
      throw (boxed_error INTERNAL_ERROR
               (lit "job failed with state `" ++ job_state_debug state ++ lit "`"))
  end.

Definition close_job_by_id (job_id : list N) p : Process :=
  match jobs p !! job_id with
  | None => p
  | Some job =>
      let p := on_jobs (delete job_id) p in
      let taken := bool_decide (job_state job = Running) in
      let p := if taken then signal (cancellation job) p else p in
      let p := match job_result_ref job with
               | Some (Blob id) => on_blobs (delete id) p
               | _ => p
               end in
      if taken then p else drop_job job p
  end.

Definition close_jobs_for_resource (resource_id : list N) p : Process :=
  let job_ids :=
    (map_to_list (filter (λ kv, job_resource kv.2 = resource_id) (jobs p))).*1 in
  foldl (λ p job_id, close_job_by_id job_id p) p job_ids.

(** *** state/mod.rs *)

(** The loop of [insert_resource], for at most [fuel] candidates. *)
Fixpoint fresh_resource_id (fuel : nat) p : Process * option (list N) :=
  match fuel with
  | 0 => (p, None)
  | S fuel =>
      let '(p, candidate) := draw p in
      match resources p !! candidate with
      | Some _ => fresh_resource_id fuel p
      | None => (p, Some candidate)
      end
  end.

(** One candidate more than there are resources; a loop that goes on is [Panic]. *)
Definition insert_resource (resource : Resource) : comp Process ProtocolError (list N) := λ p,
  match fresh_resource_id (S (size (resources p))) p with
  | (p, Some resource_id) => (on_resources <[resource_id := resource]> p, Ok resource_id)
  | (p, None) => (p, Panic)
  end.

Definition close_resource (resource_id : list N) p : Process * bool :=
  match resources p !! resource_id with
  | None => (p, false)
  | Some _ =>
      let p := on_resources (delete resource_id) p in
      let p := close_jobs_for_resource resource_id p in
      let p := close_blobs_for_resource resource_id p in
      (p, true)
  end.

(** Every job is dropped, in the order of the table. *)
Definition clear p : Process :=
  let p' := foldl (λ p job, drop_job job p) p (map_to_list (jobs p)).*2 in
  {| provider := {| resources := ∅; blobs := ∅; jobs := ∅; event_streams := ∅;
       next_reverse_request_id := next_reverse_request_id p |};
     uuid_draws := uuid_draws p'; workers := workers p' |}.
End state.
