(* ===== verification/EsServer.v ===== *)
(** * The Elasticsearch provider: the server

    composite/elasticsearch/src/server/{mod,lifecycle,resource,stream,task}.rs and
    ipc.rs.  The connection to the host is the list of messages still to be received
    (receiving fails when it is empty) and the list of those sent; whether a send
    succeeds is a function of how many were sent before.  A method name of the protocol
    crate is a constructor of [Method]. *)

From S2P Require Import Prelude VncClipboard Text JsonValue EsClient EsState.

Inductive Method : Type :=
  | INIT | SHUTDOWN
  | RESOURCE_OPEN | RESOURCE_PING | RESOURCE_INVOKE | RESOURCE_CLOSE
  | BLOB_OPEN | BLOB_READ | BLOB_CLOSE
  | JOB_START | JOB_STATUS | JOB_CANCEL | JOB_RESULT | JOB_CLOSE
  | EVENT_OPEN | EVENT_READ | EVENT_CLOSE
  | HOST_RESOLVE_SECRET
  | OtherMethod (name : list N).
#[export] Instance Method_eq_dec : EqDecision Method.
Proof. solve_decision. Defined.

Inductive RequestId : Type := IdNumber (n : Z) | IdString (s : list N).

Record Request := { rq_id : RequestId; rq_method : Method; rq_params : Value }.
Record RpcResponse := {
  rp_id : RequestId; rp_result : option Value; rp_error : option ProtocolError
}.
Inductive RpcMessage : Type :=
  | MRequest (request : Request)
  | MResponse (response : RpcResponse)
  | MOther (message : Value).

Record Ipc := { inbox : list RpcMessage; outbox : list RpcMessage }.

(** Parameters and results, as far as they are read or built. *)
Record ResourceInvokeParams := {
  ri_resource_id : list N; ri_method : list N; ri_params : Value
}.
Record InitResult := { init_version : list N; init_api : list N * list N;
                       init_methods : list Method }.
Record ResourceOpenResult := {
  ro_resource_id : list N; ro_capabilities : list (list N); ro_metadata : Value
}.
Record ResolveSecretParams := { secret_ref : list N }.
Record ResolveSecretResult := { secret_value : bytes }.

(** What serde derives for the messages; a type that is only read for an identifier is
    parsed to the identifier. *)
Class EsCodec `{EsProtocol} := {
  open_params :: FromValue ResourceOpenParams;
  config_params :: FromValue OpenConfig;
  ping_params : FromValue (list N);
  invoke_params :: FromValue ResourceInvokeParams;
  resource_close_params : FromValue (list N);
  blob_read_params :: FromValue BlobReadParams;
  blob_close_params : FromValue (list N);
  event_open_params :: FromValue EventOpenParams;
  event_read_params :: FromValue EventReadParams;
  event_close_params : FromValue (list N);
  job_start_params :: FromValue JobStartParams;
  job_status_params : FromValue (list N);
  job_cancel_params : FromValue (list N);
  job_result_params : FromValue (list N);
  job_close_params : FromValue (list N);
  secret_result :: FromValue ResolveSecretResult;
  init_value :: ToValue InitResult;
  open_value :: ToValue ResourceOpenResult;
  invoke_value : ToValue ResultRef;
  blob_read_value :: ToValue BlobReadResult;
  event_open_value : ToValue (list N);
  event_read_value :: ToValue EventReadResult;
  job_start_value :: ToValue JobStartResult;
  job_status_value :: ToValue JobStatusResult;
  job_result_value : ToValue ResultRef;
  secret_params :: ToValue ResolveSecretParams
}.

(** The rest of the process's environment. *)
Class EsEnv `{EsProtocol} (Resource : Type) := {
  new_v4 : nat → list N;
  parse_url : list N → list N + Url;
  build_transport : Url → option Credentials → list N + Resource;
  method_text : Method → list N;
  from_slice : bytes → option Value;
  status_text : N → list N;
  io_error : list N;
  provider_version : list N;
  writable : nat → bool
}.

Record Server `{EsProtocol} (Resource : Type) := {
  ipc : Ipc;
  process : Process Resource
}.
Arguments ipc {_ _} _.
Arguments process {_ _} _.

Section server.
Context `{EsCodec} {Resource : Type} `{!EsEnv Resource}.

Abbreviation Server := (Server Resource).
Abbreviation handler A := (comp Server ProtocolError A) (only parsing).

Definition on_state {A} (m : comp (Process Resource) ProtocolError A) : handler A :=
  zoom process (λ p s, {| ipc := ipc s; process := p |}) m.

(** [send_msg_async] and [recv_msg_async] *)
Definition send_msg (message : RpcMessage) (s : Server) : Server * bool :=
  if writable (length (outbox (ipc s)))
  then ({| ipc := {| inbox := inbox (ipc s); outbox := outbox (ipc s) ++ [message] |};
           process := process s |}, true)
  else (s, false).

Definition recv_msg (s : Server) : Server * option RpcMessage :=
  match inbox (ipc s) with
  | [] => (s, None)
  | message :: rest =>
      ({| ipc := {| inbox := rest; outbox := outbox (ipc s) |}; process := process s |},
       Some message)
  end.

(** *** ipc.rs *)

(** [next_id.fetch_add(1, SeqCst)] on an [AtomicI64] *)
Definition fetch_add : comp (Process Resource) ProtocolError Z := λ p,
  let id := next_reverse_request_id p in
  ({| provider := {| resources := resources p; blobs := blobs p; jobs := jobs p;
        event_streams := event_streams p;
        next_reverse_request_id :=
          if (id =? 2 ^ 63 - 1)%Z then (- 2 ^ 63)%Z else (id + 1)%Z |};
      uuid_draws := uuid_draws p; workers := workers p |}, Ok id).

Definition resolve_secret (reference : list N) : handler bytes :=
  id ← on_state fetch_add;
  params ← lift_outcome (of_sum invalid_params (to_value {| secret_ref := reference |}));
  sent ← total (send_msg (MRequest {| rq_id := IdNumber id;
                                      rq_method := HOST_RESOLVE_SECRET;
                                      rq_params := params |}));
  _ ← lift_outcome (ensure sent (boxed_error INTERNAL_ERROR
        (lit "failed to request secret resolution: " ++ io_error)));
  received ← total recv_msg;
  message ← lift_outcome (of_option (boxed_error INTERNAL_ERROR
              (lit "failed to receive secret resolution response: " ++ io_error)) received);
  match message with
  | MResponse response =>
      match rp_error response with
      | Some error => throw error
      | None =>
          value ← lift_outcome (of_option (boxed_error INTERNAL_ERROR
            (lit "secret resolution returned neither a result nor an error"))
            (rp_result response));
          result ← lift_outcome (parse_params (T:=ResolveSecretResult) value);
          mret (secret_value result)
      end
  | _ => throw (boxed_error INTERNAL_ERROR
           (lit "secret resolution returned an invalid RPC response"))
  end.

(** *** server/lifecycle.rs *)

Definition supported_methods : list Method :=
  [RESOURCE_OPEN; RESOURCE_PING; RESOURCE_INVOKE; RESOURCE_CLOSE; BLOB_READ; BLOB_CLOSE;
   JOB_START; JOB_STATUS; JOB_CANCEL; JOB_RESULT; JOB_CLOSE; EVENT_OPEN; EVENT_READ;
   EVENT_CLOSE].

Definition init : handler Value :=
  lift_outcome (serialize {| init_version := provider_version;
                             init_api := (lit "extension", lit "1.0");
                             init_methods := supported_methods |}).

Definition shutdown : handler Value := on_state (_ ← modify clear; mret Null).

(** *** server/resource.rs *)

Definition resolve_credentials (credentials : PendingCredentials)
    : handler (option Credentials) :=
  match credentials with
  | PendingNone => mret None
  | Direct credentials => mret (Some credentials)
  | Reference kind reference username =>
      secret ← resolve_secret reference;
      secret ← lift_outcome (of_option
                 (invalid_params (lit "Elasticsearch credential is not UTF-8"))
                 (utf8_decode secret));
      mret (Some (default (EncodedApiKey secret) (stored_credentials kind username secret)))
  end.

Definition capabilities : list (list N) :=
  [lit "elasticsearch/cluster/info"; lit "elasticsearch/cluster/health";
   lit "elasticsearch/index/list"; lit "elasticsearch/index/get";
   lit "elasticsearch/index/mapping"; lit "elasticsearch/search";
   lit "elasticsearch/search/async"; lit "elasticsearch/search/events"].

Definition metadata : Value :=
  Object [(lit "client", Str (lit "elasticsearch-rs"));
          (lit "client_version", Str (lit "9.1.0-alpha.1"));
          (lit "server_major", Number (PosInt 9));
          (lit "network", Bool true);
          (lit "operations", Str (lit "read-only"))].

(** [net] is what the servers behind the resources answer during the request. *)
Section request.
Context (net : Resource → SdkRequest → list N + Response).

Definition open (params : Value) : handler Value :=
  '(url, pending_credentials) ← lift_outcome (parse_open_params parse_url params);
  credentials ← resolve_credentials pending_credentials;
  resource ← lift_outcome (build_client parse_url build_transport url credentials);
  _ ← lift_outcome (validate_connection from_slice status_text (net resource));
  resource_id ← on_state (insert_resource new_v4 resource);
  lift_outcome (serialize {| ro_resource_id := resource_id;
                             ro_capabilities := capabilities; ro_metadata := metadata |}).

Definition ping (params : Value) : handler Value :=
  resource_id ← lift_outcome (parse_params (H:=ping_params) params);
  found ← gets (λ s : Server, resources (process s) !! resource_id);
  _ ← lift_outcome (of_option resource_error found);
  mret Null.

Definition invoke (params : Value) : handler Value :=
  params ← lift_outcome (parse_params (T:=ResourceInvokeParams) params);
  found ← gets (λ s : Server, resources (process s) !! ri_resource_id params);
  resource ← lift_outcome (of_option resource_error found);
  value ← lift_outcome (execute from_slice status_text (net resource) (ri_method params)
                          (ri_params params));
  result ← on_state (blob_result new_v4 (ri_resource_id params)
                       (normalize_result (ri_method params) value));
  lift_outcome (serialize (H:=invoke_value) result).

Definition close (params : Value) : handler Value :=
  resource_id ← lift_outcome (parse_params (H:=resource_close_params) params);
  closed ← on_state (total (close_resource resource_id));
  _ ← lift_outcome (ensure closed resource_error);
  mret Null.

(** *** server/stream.rs *)

Definition stream_read_blob (params : Value) : handler Value :=
  params ← lift_outcome (parse_params (T:=BlobReadParams) params);
  result ← on_state (read_blob params);
  lift_outcome (serialize result).

Definition stream_close_blob (params : Value) : handler Value :=
  blob_id ← lift_outcome (parse_params (H:=blob_close_params) params);
  _ ← on_state (modify (close_blob blob_id));
  mret Null.

Definition open_event (params : Value) : handler Value :=
  params ← lift_outcome (parse_params (T:=EventOpenParams) params);
  stream_id ← on_state (open_event_stream new_v4 params);
  lift_outcome (serialize (H:=event_open_value) stream_id).

Definition read_event (params : Value) : handler Value :=
  params ← lift_outcome (parse_params (T:=EventReadParams) params);
  result ← on_state (total (read_event_stream params));
  lift_outcome (serialize result).

Definition close_event (params : Value) : handler Value :=
  stream_id ← lift_outcome (parse_params (H:=event_close_params) params);
  _ ← on_state (modify (close_event_stream stream_id));
  mret Null.

(** *** server/task.rs *)

Definition start (params : Value) : handler Value :=
  params ← lift_outcome (parse_params (T:=JobStartParams) params);
  result ← on_state (start_job new_v4 params);
  lift_outcome (serialize result).

(** [if state.poll_job(id) { state.emit_job_event(id) }] *)
Definition poll_and_emit (job_id : list N) : comp (Process Resource) ProtocolError () :=
  changed ← total (poll_job new_v4 job_id);
  if changed : bool then modify (emit_job_event job_id) else mret ().

Definition status (params : Value) : handler Value :=
  job_id ← lift_outcome (parse_params (H:=job_status_params) params);
  _ ← on_state (poll_and_emit job_id);
  result ← on_state (job_status job_id);
  lift_outcome (serialize result).

Definition cancel (params : Value) : handler Value :=
  job_id ← lift_outcome (parse_params (H:=job_cancel_params) params);
  changed ← on_state (cancel_job job_id);
  _ ← on_state (if changed : bool then modify (emit_job_event job_id) else mret ());
  mret Null.

Definition task_result (params : Value) : handler Value :=
  job_id ← lift_outcome (parse_params (H:=job_result_params) params);
  _ ← on_state (poll_and_emit job_id);
  result ← on_state (job_result job_id);
  lift_outcome (serialize (H:=job_result_value) result).

Definition task_close (params : Value) : handler Value :=
  job_id ← lift_outcome (parse_params (H:=job_close_params) params);
  _ ← on_state (modify (close_job_by_id job_id));
  mret Null.

(** *** server/mod.rs *)

Definition dispatch (method_name : Method) (params : Value) : handler Value :=
  match method_name with
  | INIT => init
  | RESOURCE_OPEN => open params
  | RESOURCE_PING => ping params
  | RESOURCE_INVOKE => invoke params
  | RESOURCE_CLOSE => close params
  | BLOB_OPEN => throw (boxed_error METHOD_NOT_FOUND
                   (lit "Elasticsearch results are opened by resource invoke"))
  | BLOB_READ => stream_read_blob params
  | BLOB_CLOSE => stream_close_blob params
  | JOB_START => start params
  | JOB_STATUS => status params
  | JOB_CANCEL => cancel params
  | JOB_RESULT => task_result params
  | JOB_CLOSE => task_close params
  | EVENT_OPEN => open_event params
  | EVENT_READ => read_event params
  | EVENT_CLOSE => close_event params
  | SHUTDOWN => shutdown
  | HOST_RESOLVE_SECRET | OtherMethod _ => throw (boxed_error METHOD_NOT_FOUND
                   (lit "unknown method `" ++ method_text method_name ++ lit "`"))
  end.

(** A panicking handler ends the process: no response. *)
Definition handle_request (request : Request) (s : Server)
    : Server * option (RpcResponse * bool) :=
  let should_exit := bool_decide (rq_method request = SHUTDOWN) in
  match dispatch (rq_method request) (rq_params request) s with
  | (s, Ok result) =>
      (s, Some ({| rp_id := rq_id request; rp_result := Some result; rp_error := None |},
                should_exit))
  | (s, Err error) =>
      (s, Some ({| rp_id := rq_id request; rp_result := None; rp_error := Some error |},
                should_exit))
  | (s, Panic) => (s, None)
  end.
End request.

(** The loop of [serve]: every round receives a message, so a round more than there
    are messages is enough.  [nets] are the answers during each round. *)
Fixpoint serve_loop (rounds : nat) (nets : nat → Resource → SdkRequest → list N + Response)
    (s : Server) : Server :=
  match rounds with
  | 0 => s
  | S rounds =>
      match recv_msg s with
      | (s, None) => s
      | (s, Some (MRequest request)) =>
          match handle_request (nets rounds) request s with
          | (s, None) => s
          | (s, Some (response, should_exit)) =>
              let '(s, sent) := send_msg (MResponse response) s in
              if negb sent || should_exit then s else serve_loop rounds nets s
          end
      | (s, Some _) => serve_loop rounds nets s
      end
  end.

Definition serve (nets : nat → Resource → SdkRequest → list N + Response)
    (inputs : list RpcMessage) : Server :=
  serve_loop (S (length inputs)) nets
    {| ipc := {| inbox := inputs; outbox := [] |}; process := new_process |}.
End server.

(** ** An environment

    Concrete parameters on which the hypotheses of the theorems hold: a parser of the
    shapes the witnesses use, a counter for identifiers, and a server that answers
    every request with the same document. *)
Module EsDemo.
Definition demo_str (v : Value) : list N + list N :=
  match v with Str t => inr t | _ => inl (lit "text expected") end.

Definition demo_json (v : Value) : bytes :=
  match v with Object [(_, Str t)] => t | _ => lit "{raw}" end.

#[export] Instance demo_protocol : EsProtocol := {
  ProgressPercent := N;
  percent_100 := 100%N;
  percent_u8 := λ n, n;
  job_state_json := λ st, Str (match st with
    | Running => lit "running" | Succeeded => lit "succeeded"
    | Failed => lit "failed" | Cancelled => lit "cancelled" end);
  job_state_debug := λ _, lit "Failed";
  job_result_json := λ r, match r with Inline v => v | Blob id => Str id end;
  should_stream_blob := λ n, (3 <? n)%N;
  DEFAULT_EVENT_MAX_EVENTS := 2;
  MAX_EVENT_MAX_EVENTS := 8;
  to_vec := λ v, inr (demo_json v);
  base64 := λ b, b
}.

#[export] Instance demo_codec : EsCodec := {
  open_params := λ v, match v with
    | Array [Str ty; config] => inr {| resource_type := ty; open_config := config |}
    | _ => inl (lit "open") end;
  config_params := λ v, match v with
    | Str u => inr {| url := u; auth := AuthNone; credential_ref := None; auth_type := None;
                      username := None; credential_refs := ∅ |}
    | Array [Str u; Str r] =>
        inr {| url := u; auth := AuthNone; credential_ref := Some r; auth_type := None;
               username := None; credential_refs := ∅ |}
    | _ => inl (lit "config") end;
  ping_params := demo_str;
  invoke_params := λ v, match v with
    | Array [Str r; Str m; ps] => inr {| ri_resource_id := r; ri_method := m; ri_params := ps |}
    | _ => inl (lit "invoke") end;
  resource_close_params := demo_str;
  blob_read_params := λ v, match v with
    | Array [Str b; Number (PosInt n)] => inr {| br_blob_id := b; effective_max_bytes := n |}
    | _ => inl (lit "read") end;
  blob_close_params := demo_str;
  event_open_params := λ v, match v with
    | Str k => inr {| eo_kind := k; eo_conn_id := None; eo_capacity := None |}
    | _ => inl (lit "stream") end;
  event_read_params := λ v, match v with
    | Array [Str i; Number (PosInt n)] =>
        inr {| er_stream_id := i; effective_max_events := n |}
    | _ => inl (lit "events") end;
  event_close_params := demo_str;
  job_start_params := λ v, match v with
    | Array [Str r; Str m; ps] =>
        inr {| js_resource_id := Some r; js_method := m; js_params := ps |}
    | _ => inl (lit "job") end;
  job_status_params := demo_str;
  job_cancel_params := demo_str;
  job_result_params := demo_str;
  job_close_params := demo_str;
  secret_result := λ v, match v with Str t => inr {| secret_value := t |} | _ => inl [] end;
  init_value := λ _, inr Null;
  open_value := λ r, inr (Str (ro_resource_id r));
  invoke_value := λ r, inr (job_result_json r);
  blob_read_value := λ r, inr (Array [Str (br_data r); Bool (br_done r)]);
  event_open_value := λ i, inr (Str i);
  event_read_value := λ r, inr (Array (er_events r));
  job_start_value := λ r, inr (Str (js_job_id r));
  job_status_value := λ r, inr (job_state_json (jr_state r));
  job_result_value := λ r, inr (job_result_json r);
  secret_params := λ r, inr (Str (secret_ref r))
}.

#[export] Instance demo_env : EsEnv () := {
  new_v4 := λ n, [N.of_nat n];
  parse_url := λ t, inr {| scheme := lit "http"; path := lit "/"; query := None;
                           fragment := None; url_text := t |};
  build_transport := λ _ _, inr ();
  method_text := λ _, lit "method";
  from_slice := λ b, Some (Object [(lit "version", Object [(lit "number", Str b)])]);
  status_text := λ _, lit "status";
  io_error := lit "closed";
  provider_version := lit "0";
  writable := λ _, true
}.

#[export] Instance demo_uuid_inj : Inj (=) (=) (new_v4 (EsEnv:=demo_env)).
Proof. intros n m Hnm. simpl in Hnm. injection Hnm as Hnm. lia. Qed.

Definition demo_net (_ : ()) (_ : SdkRequest) : list N + Response :=
  inr {| status_code := 200; content_length := None; response_bytes := inr (lit "9.1.0") |}.

Definition demo_server : Server () :=
  {| ipc := {| inbox := []; outbox := [] |}; process := new_process |}.

Definition demo_open : Value := Array [Str (lit "elasticsearch"); Str (lit "http://es")].
Definition demo_search : Value := Object [(lit "query", Str (lit "*"))].

(** The requests one after the other. *)
Definition demo_requests (requests : list (Method * Value)) (s : Server ()) : Server () :=
  foldl (λ s '(m, params), (dispatch demo_net m params s).1) s requests.
End EsDemo.
