(* ===== verification/EsRuns.v ===== *)
(** * Runs of the Elasticsearch provider

    The server handles one request at a time while the search workers run beside it.  A
    handler meets a worker only where it receives from it, wakes it or spawns it, so a
    run is a sequence of requests and of steps of workers.  This file has the invariant
    of the provider's state and what clients see of jobs, blobs and event streams. *)

From S2P Require Import Prelude Text JsonValue EsClient EsState EsServer.

(** ** Blobs *)

Section blobs.
Implicit Types m : gmap (list N) ProviderBlob.

Lemma blob_bytes_insert m id blob :
  m !! id = None →
  blob_bytes (<[id := blob]> m) = (N.of_nat (length (blob_data blob)) + blob_bytes m)%N.
Proof. intros. unfold blob_bytes. rewrite map_fold_insert_L; [done|intros; lia|done]. Qed.

Lemma blob_bytes_delete m id blob :
  m !! id = Some blob →
  blob_bytes m = (N.of_nat (length (blob_data blob)) + blob_bytes (delete id m))%N.
Proof.
  intros Hid. rewrite <-(insert_delete_id m id blob Hid) at 1.
  by rewrite blob_bytes_insert by (apply lookup_delete_eq).
Qed.

Lemma blob_bytes_mono m m' : m ⊆ m' → (blob_bytes m <= blob_bytes m')%N.
Proof.
  revert m'. induction m as [|id blob m Hid IH] using map_ind; intros m' Hsub.
  { unfold blob_bytes at 1. rewrite map_fold_empty. lia. }
  rewrite blob_bytes_insert by done.
  rewrite (blob_bytes_delete m' id blob) by (eapply lookup_weaken; [apply lookup_insert_eq|done]).
  apply N.add_le_mono_l, IH.
  apply map_subseteq_spec. intros k b Hk.
  assert (k ≠ id) by (intros ->; congruence).
  rewrite lookup_delete_ne by done. eapply lookup_weaken; [|done].
  by rewrite lookup_insert_ne.
Qed.

Lemma blob_bytes_insert_le m id blob :
  (blob_bytes (<[id := blob]> m) <= N.of_nat (length (blob_data blob)) + blob_bytes m)%N.
Proof.
  rewrite <-insert_delete_eq, blob_bytes_insert by apply lookup_delete_eq.
  pose proof (blob_bytes_mono (delete id m) m (delete_subseteq _ _)). lia.
Qed.

(** Reading changes the position only. *)
Lemma blob_bytes_update m id blob blob' :
  m !! id = Some blob → blob_data blob' = blob_data blob →
  blob_bytes (<[id := blob']> m) = blob_bytes m.
Proof.
  intros Hid Hdata.
  rewrite <-insert_delete_eq, blob_bytes_insert by apply lookup_delete_eq.
  by rewrite Hdata, <-blob_bytes_delete.
Qed.

Definition blob_ok {R} (res : gmap (list N) R) (blob : ProviderBlob) : Prop :=
  is_Some (res !! blob_resource blob) ∧ blob_offset blob ≤ length (blob_data blob) ∧
  blob_closed blob = false.

Definition blobs_inv {R} (res : gmap (list N) R) m : Prop :=
  (blob_bytes m <= MAX_TOTAL_BLOB_BYTES)%N ∧ map_Forall (λ _, blob_ok res) m.

Lemma blobs_inv_subseteq {R} (res : gmap (list N) R) m m' :
  m' ⊆ m → blobs_inv res m → blobs_inv res m'.
Proof.
  intros Hsub [Hbytes Hok]. split; [pose proof (blob_bytes_mono _ _ Hsub); lia|].
  intros id blob Hid. by eapply Hok, lookup_weaken.
Qed.

Lemma blobs_inv_resources {R} (res res' : gmap (list N) R) m :
  dom res ⊆ dom res' → blobs_inv res m → blobs_inv res' m.
Proof.
  intros Hdom [Hbytes Hok]. split; [done|]. intros id blob Hid.
  destruct (Hok id blob Hid) as (Hres & ? & ?). split; [|done].
  apply elem_of_dom, Hdom, elem_of_dom, Hres.
Qed.

Lemma blobs_inv_close {R} (res : gmap (list N) R) m id :
  blobs_inv res m →
  blobs_inv (delete id res) (filter (λ kv, blob_resource kv.2 ≠ id) m).
Proof.
  intros [Hbytes Hok]. split.
  { pose proof (blob_bytes_mono _ _ (map_filter_subseteq (λ kv, blob_resource kv.2 ≠ id) m)).
    lia. }
  intros k blob [Hk Hne]%map_lookup_filter_Some. simpl in Hne.
  destruct (Hok k blob Hk) as (Hres & ? & ?). split; [|done].
  by rewrite lookup_delete_ne.
Qed.
End blobs.

(** ** Event streams *)

Section streams.
Context `{EsProtocol}.
Implicit Types m : gmap (list N) ProviderEventStream.

Definition stream_ok (s : ProviderEventStream) : Prop :=
  stream_kind s = SEARCH_EVENT_KIND ∧ 1 ≤ capacity s ∧ length (buffer s) ≤ capacity s ∧
  (N.of_nat (capacity s) <= N.max 1 MAX_EVENT_MAX_EVENTS)%N ∧ stream_closed s = false.

Definition streams_inv m : Prop :=
  size m ≤ MAX_EVENT_STREAMS ∧ map_Forall (λ _, stream_ok) m.

Lemma push_stream_ok event s : stream_ok s → stream_ok (push event s).
Proof.
  intros (Hkind & Hcap & Hlen & Hmax & Hopen). unfold push. rewrite Hopen.
  split_and!; simpl; try done. rewrite length_app. simpl.
  destruct (Nat.leb_spec (capacity s) (length (buffer s))); [|lia].
  destruct (buffer s); simpl in *; lia.
Qed.

Lemma push_open event s :
  stream_closed s = false → stream_closed (push event s) = false ∧
  capacity (push event s) = capacity s.
Proof. intros Hs. unfold push. by rewrite Hs. Qed.

Lemma foldl_alter {A} (f : A → A) (ks : list (list N)) (t : gmap (list N) A) i :
  NoDup ks →
  foldl (λ t k, alter f k t) t ks !! i =
    if decide (i ∈ ks) then f <$> t !! i else t !! i.
Proof.
  intros Hks. revert t. induction Hks as [|k ks Hk Hks IH]; intros t; cbn [foldl].
  { case_decide; [set_solver|done]. }
  rewrite IH. destruct (decide (i = k)) as [->|Hne].
  - rewrite lookup_alter_eq. repeat case_decide; set_solver.
  - rewrite lookup_alter_ne by done. repeat case_decide; set_solver.
Qed.

Lemma streams_inv_fmap m (f : ProviderEventStream → ProviderEventStream) :
  (∀ s, stream_ok s → stream_ok (f s)) → streams_inv m → streams_inv (f <$> m).
Proof.
  intros Hf [Hsize Hok]. split; [by rewrite map_size_fmap|].
  intros id s. rewrite lookup_fmap. intros (s0 & Hs0 & ->)%fmap_Some. eauto.
Qed.

Lemma streams_inv_insert m id s :
  size m < MAX_EVENT_STREAMS → stream_ok s → streams_inv m → streams_inv (<[id := s]> m).
Proof.
  intros Hlt Hs [Hsize Hok]. split; [rewrite map_size_insert; destruct (m !! id); simpl; lia|].
  by apply map_Forall_insert_2.
Qed.

Lemma streams_inv_update m id s s' :
  m !! id = Some s → stream_ok s' → streams_inv m → streams_inv (<[id := s']> m).
Proof.
  intros Hid Hs [Hsize Hok]. split; [by rewrite map_size_insert_Some|].
  by apply map_Forall_insert_2.
Qed.

Lemma streams_inv_delete m id : streams_inv m → streams_inv (delete id m).
Proof.
  intros [Hsize Hok]. split; [rewrite map_size_delete; destruct (m !! id); simpl; lia|].
  by apply map_Forall_delete.
Qed.
End streams.

(** ** Jobs and their workers *)

Section jobs.
Context `{EsProtocol} {R : Type}.
Implicit Types (res : gmap (list N) R) (m : gmap (list N) ProviderJob).
Implicit Types (ws : list (Worker R)).

Definition waiting (w : Worker R) : Prop := alive w = true ∧ cancelled w = false.

(** The shape of a job in each of its states. *)
Definition job_ok res ws (job : ProviderJob) : Prop :=
  is_Some (res !! job_resource job) ∧
  match job_state job with
  | Running =>
      progress_percent job = None ∧ job_result_ref job = None ∧
      ∃ c w, completion job = Some c ∧ cancellation job = Some c ∧
        ws !! c = Some w ∧ cancelled w = false
  | Succeeded =>
      completion job = None ∧ progress_percent job = Some percent_100 ∧
      is_Some (job_result_ref job)
  | Failed | Cancelled =>
      completion job = None ∧ progress_percent job = None ∧ job_result_ref job = None
  end.

(** A worker was given a search the provider had checked; it reports before it ends. *)
Definition worker_ok (w : Worker R) : Prop :=
  (∃ body, search_body (worker_params w) = Ok body) ∧ (is_Some (sent w) → alive w = false).

Definition running_with m (c : nat) : Prop :=
  ∃ id job, m !! id = Some job ∧ job_state job = Running ∧ cancellation job = Some c.

Record jobs_inv res m ws : Prop := {
  jobs_limit : size m ≤ MAX_JOBS;
  jobs_shape : map_Forall (λ _, job_ok res ws) m;
  jobs_handle : ∀ id job c, m !! id = Some job → cancellation job = Some c → c < length ws;
  jobs_separate : ∀ id id' job job' c, m !! id = Some job → m !! id' = Some job' →
    cancellation job = Some c → cancellation job' = Some c → id = id';
  workers_shape : Forall worker_ok ws;
  workers_owned : ∀ c w, ws !! c = Some w → waiting w → running_with m c
}.

(** What a handler or the runtime does to one worker. *)
Definition cancelled_worker (w : Worker R) : Worker R :=
  {| worker_resource := worker_resource w; worker_params := worker_params w;
     sent := sent w; alive := alive w; cancelled := true |}.

Lemma job_ok_running_other res ws job c f :
  job_ok res ws job → cancellation job ≠ Some c → job_ok res (alter f c ws) job.
Proof.
  intros [Hres Hshape] Hc. split; [done|].
  destruct (job_state job); [|done..].
  destruct Hshape as (Hp & Hr & c' & w & Hcomp & Hcanc & Hw & Hnc).
  split_and!; [done..|]. exists c', w. split_and!; [done..| |done].
  rewrite list_lookup_alter_ne; [done|]. intros ->. congruence.
Qed.

Lemma jobs_inv_running res m ws id job :
  jobs_inv res m ws → m !! id = Some job → job_state job = Running →
  progress_percent job = None ∧ job_result_ref job = None ∧
  ∃ c w, completion job = Some c ∧ cancellation job = Some c ∧
    ws !! c = Some w ∧ cancelled w = false.
Proof. intros Hi Hj Hr. destruct (jobs_shape _ _ _ Hi id job Hj) as [_ Hs]. by rewrite Hr in Hs. Qed.

(** [job] of state [Running] ends as [job'] while its worker [c] is changed by [f] to
    one nobody waits for. *)
Lemma jobs_inv_finish res m ws id job job' c f :
  jobs_inv res m ws → m !! id = Some job → cancellation job = Some c →
  job_ok res [] job' →
  (cancellation job' = None ∨ cancellation job' = Some c) →
  (∀ w, ws !! c = Some w → worker_ok w → worker_ok (f w) ∧ ¬ waiting (f w)) →
  jobs_inv res (<[id := job']> m) (alter f c ws).
Proof.
  intros Hi Hj Hc [Hres' Hshape'] Hcanc Hf. destruct Hi as [Hl Hs Hh Hsep Hw Ho].
  assert (Hother : ∀ id' j, id' ≠ id → m !! id' = Some j → cancellation j ≠ Some c).
  { intros id' j Hne Hj' Hc'. apply Hne. eapply Hsep; eauto. }
  split.
  - by rewrite map_size_insert_Some.
  - apply map_Forall_lookup. intros id' j. rewrite lookup_insert_Some.
    intros [[<- <-]|[Hne Hj']].
    + split; [done|]. destruct (job_state job'); try done.
      destruct Hshape' as (_ & _ & ? & ? & _ & _ & Hnil & _). by rewrite lookup_nil in Hnil.
    + apply job_ok_running_other; [by eapply Hs|]. eapply Hother; eauto.
  - intros id' j c'. rewrite length_alter, lookup_insert_Some.
    intros [[<- <-]|[Hne Hj']] Hc'; [|by eapply Hh].
    eapply Hh; [exact Hj|]. destruct Hcanc; congruence.
  - intros id1 id2 j1 j2 c'. rewrite !lookup_insert_Some.
    intros [[<- <-]|[Hne1 Hj1]] [[<- <-]|[Hne2 Hj2]] Hc1 Hc2; [done| | |by eapply Hsep].
    + destruct Hcanc; [congruence|]. exfalso. eapply Hother; [|exact Hj2|]; congruence.
    + destruct Hcanc; [congruence|]. exfalso. eapply Hother; [|exact Hj1|]; congruence.
  - apply Forall_lookup. intros i w. rewrite list_lookup_alter.
    destruct (decide (c = i)) as [<-|Hne]; simpl.
    + intros (w0 & Hw0 & ->)%fmap_Some. apply Hf; [done|]. by eapply Forall_lookup in Hw.
    + intros ?. by eapply Forall_lookup in Hw.
  - intros i w. destruct (decide (c = i)) as [<-|Hne].
    + rewrite list_lookup_alter_eq. intros (w0 & Hw0 & ->)%fmap_Some Hwait. exfalso.
      by eapply Hf; [exact Hw0|eapply Forall_lookup in Hw|].
    + rewrite list_lookup_alter_ne by done. intros Hi0 Hwait.
      destruct (Ho _ _ Hi0 Hwait) as (id' & j & Hj' & Hr & Hc').
      assert (id' ≠ id) by (intros ->; congruence).
      exists id', j. split; [|done]. by rewrite lookup_insert_ne.
Qed.

Definition signal_worker (handle : option nat) ws : list (Worker R) :=
  match handle with None => ws | Some c => alter cancelled_worker c ws end.

Lemma signal_worker_length handle ws : length (signal_worker handle ws) = length ws.
Proof. destruct handle; simpl; [apply length_alter|done]. Qed.

Lemma workers_ok_signal handle ws :
  Forall worker_ok ws → Forall worker_ok (signal_worker handle ws).
Proof.
  intros Hw. destruct handle as [c|]; [|done]. apply Forall_alter; [done|].
  by intros w Hc [Hp Hs].
Qed.

(** A job leaves the table and its worker is woken. *)
Lemma jobs_inv_remove res m ws id job :
  jobs_inv res m ws → m !! id = Some job →
  jobs_inv res (delete id m) (signal_worker (cancellation job) ws).
Proof.
  intros Hi Hj. destruct Hi as [Hl Hs Hh Hsep Hw Ho].
  assert (Hother : ∀ id' j c, id' ≠ id → m !! id' = Some j →
    cancellation job = Some c → cancellation j ≠ Some c).
  { intros id' j c Hne Hj' Hc Hc'. apply Hne. eapply Hsep; eauto. }
  split.
  - rewrite map_size_delete. destruct (m !! id); simpl; lia.
  - apply map_Forall_lookup. intros id' j. rewrite lookup_delete_Some. intros [Hne Hj'].
    destruct (cancellation job) as [c|] eqn:Hc; simpl; [|by eapply Hs].
    apply job_ok_running_other; [by eapply Hs|]. eapply Hother; eauto.
  - intros id' j c [_ Hj']%lookup_delete_Some. rewrite signal_worker_length. by eapply Hh.
  - intros id1 id2 j1 j2 c [_ ?]%lookup_delete_Some [_ ?]%lookup_delete_Some. by eapply Hsep.
  - by apply workers_ok_signal.
  - intros i w Hi0 Hwait.
    assert (∃ id' j, m !! id' = Some j ∧ job_state j = Running ∧ cancellation j = Some i ∧
              id' ≠ id) as (id' & j & Hj' & Hr & Hc' & Hne).
    { destruct (cancellation job) as [c|] eqn:Hc; simpl in Hi0.
      - destruct (decide (c = i)) as [<-|Hne].
        + rewrite list_lookup_alter_eq in Hi0. apply fmap_Some in Hi0 as (w0 & _ & ->).
          by destruct Hwait.
        + rewrite list_lookup_alter_ne in Hi0 by done.
          destruct (Ho _ _ Hi0 Hwait) as (id' & j & ? & ? & ?). exists id', j.
          split_and!; try done. intros ->. congruence.
      - destruct (Ho _ _ Hi0 Hwait) as (id' & j & ? & ? & ?). exists id', j.
        split_and!; try done. intros ->. congruence. }
    exists id', j. by rewrite lookup_delete_ne.
Qed.

(** A new job with its worker. *)
Lemma jobs_inv_spawn res m ws id job w :
  jobs_inv res m ws → m !! id = None → size m < MAX_JOBS → worker_ok w → waiting w →
  is_Some (res !! job_resource job) → job_state job = Running →
  progress_percent job = None → job_result_ref job = None →
  completion job = Some (length ws) → cancellation job = Some (length ws) →
  jobs_inv res (<[id := job]> m) (ws ++ [w]).
Proof.
  intros Hi Hid Hsize Hwok Hwait Hres Hrun Hp Hr Hcomp Hcanc.
  destruct Hi as [Hl Hs Hh Hsep Hw Ho].
  split.
  - rewrite map_size_insert_None by done. lia.
  - apply map_Forall_lookup. intros id' j. rewrite lookup_insert_Some.
    intros [[<- <-]|[Hne Hj]].
    + split; [done|]. rewrite Hrun. split_and!; [done..|].
      exists (length ws), w. split_and!; [done..| |apply Hwait].
      by rewrite lookup_app_r, Nat.sub_diag by lia.
    + destruct (Hs id' j Hj) as [Hres' Hshape]. split; [done|].
      destruct (job_state j); [|done..].
      destruct Hshape as (Hp' & Hr' & c' & w' & Hcomp' & Hcanc' & Hw' & Hnc).
      split_and!; [done..|]. exists c', w'. split_and!; [done..| |done].
      by apply lookup_app_l_Some.
  - intros id' j c. rewrite lookup_insert_Some, length_app. simpl.
    intros [[<- <-]|[_ Hj]] Hc; [rewrite Hcanc in Hc; injection Hc as <-; lia|].
    specialize (Hh _ _ _ Hj Hc). lia.
  - intros id1 id2 j1 j2 c. rewrite !lookup_insert_Some.
    intros [[<- <-]|[Hne1 Hj1]] [[<- <-]|[Hne2 Hj2]] Hc1 Hc2; [done| | |by eapply Hsep].
    + specialize (Hh _ _ _ Hj2 Hc2). rewrite Hcanc in Hc1. injection Hc1 as <-. lia.
    + specialize (Hh _ _ _ Hj1 Hc1). rewrite Hcanc in Hc2. injection Hc2 as <-. lia.
  - apply Forall_app. split; [done|]. by constructor.
  - intros c w' [Hc|[Hc Hw']]%lookup_app_Some Hwait'.
    + destruct (Ho _ _ Hc Hwait') as (id' & j & Hj & ? & ?). exists id', j.
      split; [|done]. rewrite lookup_insert_ne; [done|]. intros ->. congruence.
    + apply list_lookup_singleton_Some in Hw' as [Hz _].
      exists id, job. rewrite lookup_insert_eq. split_and!; [done..|].
      rewrite Hcanc. f_equal. lia.
Qed.

Lemma jobs_inv_resources res res' m ws :
  (∀ id job, m !! id = Some job → is_Some (res' !! job_resource job)) →
  jobs_inv res m ws → jobs_inv res' m ws.
Proof.
  intros Hres [Hl Hs Hh Hsep Hw Ho]. split; try done.
  intros id job Hj. split; [by eapply Hres|]. by destruct (Hs id job Hj).
Qed.

(** A worker's own step: it stays as it was asked for, and does not come back to life. *)
Lemma jobs_inv_worker res m ws c f :
  jobs_inv res m ws →
  (∀ w, worker_ok w → worker_ok (f w)) →
  (∀ w, cancelled (f w) = cancelled w ∧ (alive (f w) = true → alive w = true)) →
  jobs_inv res m (alter f c ws).
Proof.
  intros [Hl Hs Hh Hsep Hw Ho] Hok Hf. split; [done| | |done| |].
  - intros id job Hj. destruct (Hs id job Hj) as [Hres Hshape]. split; [done|].
    destruct (job_state job); [|done..].
    destruct Hshape as (Hp & Hr & c' & w & Hcomp & Hcanc & Hw' & Hnc).
    split_and!; [done..|].
    destruct (decide (c = c')) as [->|Hne].
    + exists c', (f w). rewrite list_lookup_alter_eq, Hw'. split_and!; [done..|].
      by rewrite (proj1 (Hf w)).
    + exists c', w. by rewrite list_lookup_alter_ne.
  - intros id job c'. rewrite length_alter. by eapply Hh.
  - apply Forall_alter; auto.
  - intros i w. destruct (decide (c = i)) as [<-|Hne].
    + rewrite list_lookup_alter_eq. intros (w0 & Hw0 & ->)%fmap_Some [Ha Hc].
      destruct (Hf w0) as [Hcanc Hal]. eapply Ho; [exact Hw0|]. split; [auto|congruence].
    + rewrite list_lookup_alter_ne by done. apply Ho.
Qed.

Lemma jobs_inv_empty res ws :
  Forall worker_ok ws → (∀ c w, ws !! c = Some w → ¬ waiting w) → jobs_inv res ∅ ws.
Proof.
  intros Hw Hno. split; try done.
  - rewrite map_size_empty. unfold MAX_JOBS. lia.
  - intros c w Hc Hwait. by destruct (Hno c w Hc).
Qed.
End jobs.

Lemma alter_insert_Some {A} (f : A → A) (k : list N) (t : gmap (list N) A) (x : A) :
  t !! k = Some x → alter f k t = <[k := f x]> t.
Proof.
  intros Hk. apply map_eq. intros i. destruct (decide (i = k)) as [->|Hne].
  - by rewrite lookup_alter_eq, lookup_insert_eq, Hk.
  - by rewrite lookup_alter_ne, lookup_insert_ne by done.
Qed.

Lemma sublist_elem {A} (x : A) (l k : list A) : l `sublist_of` k → x ∈ l → x ∈ k.
Proof. induction 1; set_solver. Qed.

Lemma sublist_filter {A} (P : A → Prop) `{!∀ x, Decision (P x)} (l k : list A) :
  l `sublist_of` k → filter P l `sublist_of` filter P k.
Proof.
  induction 1 as [|x l k _ IH|x l k _ IH]; [done|..]; rewrite !filter_cons; case_decide;
    auto using sublist_skip, sublist_cons.
Qed.

(** ** The operations of the state *)

Section operations.
Context `{EsProtocol} {Resource : Type} (new_v4 : nat → list N).
Abbreviation Process := (Process Resource).
Implicit Types p : Process.

Record provider_inv p : Prop := {
  inv_blobs : blobs_inv (resources p) (blobs p);
  inv_streams : streams_inv (event_streams p);
  inv_jobs : jobs_inv (resources p) (jobs p) (workers p)
}.

Definition to_search_streams (event : Value) (s : ProviderEventStream) : ProviderEventStream :=
  if decide (stream_kind s = SEARCH_EVENT_KIND) then push event s else s.

(** The order in which the table is walked does not matter. *)
Lemma broadcast_event_fmap event p :
  broadcast_event event p = on_streams (fmap (to_search_streams event)) p.
Proof.
  unfold broadcast_event.
  set (ks := (map_to_list _).*1).
  assert (Hfold : ∀ l (q : Process), foldl (λ q id, push_event id event q) q l =
            on_streams (λ t, foldl (λ t id, alter (push event) id t) t l) q).
  { induction l as [|k l IH]; intros q; simpl; [by destruct q as [[]]|]. by rewrite IH. }
  rewrite Hfold. unfold on_streams. f_equal. f_equal.
  apply map_eq. intros i. rewrite foldl_alter by apply NoDup_fst_map_to_list.
  rewrite lookup_fmap. unfold to_search_streams.
  destruct (event_streams p !! i) as [s|] eqn:Hi; [|by case_decide]. simpl.
  assert (i ∈ ks ↔ stream_kind s = SEARCH_EVENT_KIND) as Hks.
  { unfold ks. rewrite list_elem_of_fmap. split.
    - intros ([k s'] & -> & Hk%elem_of_map_to_list). simpl in *.
      apply map_lookup_filter_Some in Hk as [Hk Hkind]. simpl in *. congruence.
    - intros Hkind. exists (i, s). split; [done|]. apply elem_of_map_to_list.
      by apply map_lookup_filter_Some. }
  repeat case_decide; tauto.
Qed.

Lemma emit_job_event_inv job_id p : provider_inv p → provider_inv (emit_job_event job_id p).
Proof.
  intros [Hb Hs Hj]. unfold emit_job_event. destruct (jobs p !! job_id); [|by split].
  rewrite broadcast_event_fmap. split; [done| |done]. simpl.
  apply streams_inv_fmap; [|done]. intros s Hs0. unfold to_search_streams.
  case_decide; [by apply push_stream_ok|done].
Qed.

Lemma draw_fields p :
  let p' := (draw new_v4 p).1 in
  provider p' = provider p ∧ workers p' = workers p ∧ uuid_draws p' = S (uuid_draws p).
Proof. done. Qed.

Lemma store_blob_effect resource_id data p :
  is_Some (resources p !! resource_id) → blobs_inv (resources p) (blobs p) →
  ∃ bl n, uuid_draws p ≤ n ∧ blobs_inv (resources p) bl ∧
    (store_blob new_v4 resource_id data p).1 =
      {| provider := {| resources := resources p; blobs := bl; jobs := jobs p;
           event_streams := event_streams p;
           next_reverse_request_id := next_reverse_request_id p |};
         uuid_draws := n; workers := workers p |}.
Proof.
  intros Hres [Hbytes Hok]. unfold store_blob.
  destruct (_ || _)%N eqn:Hguard.
  { exists (blobs p), (uuid_draws p). split_and!; [done|done|]. by destruct p as [[]]. }
  apply orb_false_iff in Hguard as [_ Hguard]. apply N.ltb_ge in Hguard.
  simpl. eexists _, (S (uuid_draws p)). split; [lia|]. split; [|done]. split.
  - apply sat_add_exact in Hguard; [|done]. unfold total_blob_bytes in Hguard.
    etrans; [apply blob_bytes_insert_le|]. cbn [blob_data blobs provider]. lia.
  - apply map_Forall_insert_2; [|done]. split_and!; [done|simpl; lia|done].
Qed.

(** What is left of a job that has finished, in one of the states [ends]. *)
Record finished (ends : list JobState) (id : list N) (job : ProviderJob) p p' : Prop := {
  fin_job : ∃ job', jobs p' = <[id := job']> (jobs p) ∧ job_ok (resources p) [] job' ∧
    job_resource job' = job_resource job ∧
    (cancellation job' = None ∨ cancellation job' = cancellation job) ∧ job_state job' ∈ ends;
  fin_blobs : blobs_inv (resources p) (blobs p');
  fin_resources : resources p' = resources p;
  fin_streams : event_streams p' = event_streams p;
  fin_draws : uuid_draws p ≤ uuid_draws p'
}.

Lemma update_job_finished ends id job job' p f :
  jobs p !! id = Some job → f job = job' → blobs_inv (resources p) (blobs p) →
  job_ok (resources p) [] job' → job_resource job' = job_resource job →
  cancellation job' = None ∨ cancellation job' = cancellation job →
  job_state job' ∈ ends → finished ends id job p (update_job id f p).
Proof.
  intros Hj Hf Hb Hok Hres Hcanc. split; simpl; try done.
  exists job'. split_and!; try done. rewrite <-Hf. by apply alter_insert_Some.
Qed.

Lemma complete_job_effect id value job p :
  jobs p !! id = Some job → blobs_inv (resources p) (blobs p) →
  is_Some (resources p !! job_resource job) →
  completion job = None → progress_percent job = None →
  ∃ p', complete_job new_v4 id value p = (p', true) ∧
    finished [Succeeded; Failed] id job p p' ∧
    workers p' = workers p.
Proof.
  intros Hj Hb Hres Hcomp Hprog. unfold complete_job. rewrite Hj.
  destruct (to_vec (normalize_search value)) as [error|data].
  { eexists. split; [done|]. split; [|done].
    eapply update_job_finished; [done..| |done|by right|set_solver]. by split_and!. }
  destruct (should_stream_blob _).
  - pose proof (store_blob_effect (job_resource job) data p Hres Hb) as (bl & n & Hn & Hbl & Heq).
    destruct (store_blob new_v4 (job_resource job) data p) as [p1 o]. simpl in Heq. subst p1.
    destruct o as [blob_id|]; simpl; eexists; (split; [done|]); (split; [|done]).
    all: split; simpl; try done; try lia.
    all: eexists; split; [by eapply alter_insert_Some|]; split_and!; try done; simpl; first [by eauto|set_solver].
  - eexists. split; [done|]. split; [|done].
    eapply update_job_finished; [done..| |done|by right|set_solver]. split_and!; simpl; by eauto.
Qed.

(** Taking the receiver out of the job first changes nothing in the end. *)
Lemma finished_taken ends id job p p1 p' c :
  jobs p !! id = Some job →
  jobs p1 = alter (set_completion c) id (jobs p) → resources p1 = resources p →
  event_streams p1 = event_streams p → uuid_draws p1 = uuid_draws p →
  finished ends id (set_completion c job) p1 p' → finished ends id job p p'.
Proof.
  intros Hj Hjobs Hres Hstr Hdraws [(job' & Hjobs' & Hok & Hr & Hc & Hend) Hb Hres' Hstr' Hd].
  split; [|by rewrite <-Hres|congruence|congruence|lia].
  exists job'. rewrite <-Hres. split_and!; try done.
  by rewrite Hjobs', Hjobs, (alter_insert_Some _ _ _ _ Hj), insert_insert_eq.
Qed.

Definition settled (c : nat) (ws ws' : list (Worker Resource)) : Prop :=
  ∃ f, ws' = alter f c ws ∧
    ∀ w, ws !! c = Some w → worker_ok w → worker_ok (f w) ∧ ¬ waiting (f w).

Lemma settled_insert c w ws : worker_ok w → ¬ waiting w → settled c ws (<[c := w]> ws).
Proof. intros. exists (λ _, w). split; [apply list_insert_alter|done]. Qed.

Lemma finished_inv ends id job p p' c :
  provider_inv p → jobs p !! id = Some job → cancellation job = Some c →
  finished ends id job p p' → settled c (workers p) (workers p') → provider_inv p'.
Proof.
  intros [Hb Hs Hj] Hid Hc [(job' & Hjobs' & Hok & Hr & Hc' & _) Hb' Hres Hstr _] (f & Hw & Hf).
  split; [by rewrite Hres|by rewrite Hstr|]. rewrite Hres, Hjobs', Hw.
  eapply jobs_inv_finish; try done. by rewrite <-Hc.
Qed.

Lemma poll_job_effect id p :
  provider_inv p →
  poll_job new_v4 id p = (p, false) ∨
  ∃ job c p', poll_job new_v4 id p = (p', true) ∧ jobs p !! id = Some job ∧
    job_state job = Running ∧ cancellation job = Some c ∧
    finished [Succeeded; Failed] id job p p' ∧
    settled c (workers p) (workers p').
Proof.
  intros [Hb Hs Hj]. unfold poll_job.
  destruct (jobs p !! id) as [job|] eqn:Hid; [|by left].
  case_decide as Hrun; [by left|].
  destruct (jobs_inv_running _ _ _ _ _ Hj Hid Hrun)
    as (Hprog & Hres & c & w & Hcomp & Hcanc & Hw & Hnc).
  destruct (jobs_shape _ _ _ Hj id job Hid) as [Hopen _].
  pose proof (Forall_lookup_1 _ _ _ _ (workers_shape _ _ _ Hj) Hw) as [Hpar Hdead].
  rewrite Hcomp. unfold try_recv. cbn [workers update_job on_jobs]. rewrite Hw.
  set (p1 := update_job id (set_completion None) p).
  assert (Hj1 : jobs p1 !! id = Some (set_completion None job))
    by (simpl; by rewrite lookup_alter_eq, Hid).
  destruct (sent w) as [[error|value]|] eqn:Hsent.
  - right. eexists job, c, _. split; [reflexivity|]. split_and!; try done.
    + eapply (finished_taken _ _ _ _ (on_workers _ p1)); [done..|].
      eapply update_job_finished; first [by eauto|set_solver].
    + apply settled_insert; (split; [done|by intros []]) || by intros [Ha _]; simpl in Ha; rewrite Hdead in Ha by eauto.
  - set (p2 := on_workers _ p1).
    destruct (complete_job_effect id value (set_completion None job) p2)
      as (p' & Heq & Hfin & Hws); [done..|].
    right. exists job, c, p'. split; [done|]. split_and!; try done.
    + by eapply (finished_taken _ _ _ _ p2).
    + rewrite Hws. apply settled_insert; (split; [done|by intros []]) || by intros [Ha _]; simpl in Ha; rewrite Hdead in Ha by eauto.
  - destruct (alive w) eqn:Halive.
    + left. f_equal. unfold p1, update_job, on_jobs. simpl.
      rewrite (alter_insert_Some _ _ _ _ Hid), alter_insert_eq, insert_id;
        [by destruct p as [[]]|].
      rewrite Hid. f_equal. destruct job. simpl in *. by rewrite Hcomp.
    + right. eexists job, c, _. split; [reflexivity|]. split_and!; try done.
      * eapply (finished_taken _ _ _ _ p1); [done..|]. eapply update_job_finished; first [by eauto|set_solver].
      * exists (λ w, w). split; [simpl; by rewrite list_alter_id|].
        intros w' Hw' Hok. rewrite Hw in Hw'. injection Hw' as <-. split; [done|].
        intros [Ha _]. congruence.
Qed.

Lemma poll_job_inv id p : provider_inv p → provider_inv (poll_job new_v4 id p).1.
Proof.
  intros Hp. destruct (poll_job_effect id p Hp) as [->|(job & c & p' & -> & ? & ? & ? & ? & ?)];
    [done|]. by eapply finished_inv.
Qed.

Lemma cancel_job_effect id p :
  provider_inv p →
  match jobs p !! id with
  | None => cancel_job id p = (p, Err job_closed)
  | Some job =>
      if decide (job_state job = Running) then
        ∃ c p', cancel_job id p = (p', Ok true) ∧ cancellation job = Some c ∧
          finished [Cancelled] id job p p' ∧ settled c (workers p) (workers p')
      else cancel_job id p = (p, Ok false)
  end.
Proof.
  clear new_v4.
  intros [Hb Hs Hj]. unfold cancel_job.
  destruct (jobs p !! id) as [job|] eqn:Hid; [|done].
  destruct (decide (job_state job = Running)) as [Hrun|]; [|done].
  destruct (jobs_inv_running _ _ _ _ _ Hj Hid Hrun)
    as (_ & _ & c & w & _ & Hcanc & Hw & _).
  destruct (jobs_shape _ _ _ Hj id job Hid) as [Hopen _].
  rewrite Hcanc. eexists c, _. split; [reflexivity|]. split_and!; [done| |].
  - split; simpl; try done. eexists. split; [by eapply alter_insert_Some|].
    split_and!; first [by eauto|set_solver].
  - exists cancelled_worker. split; [done|]. intros w' _ [Hpar Hdead].
    split; [by split|]. by intros [_ Hc].
Qed.

Lemma cancel_job_inv id p : provider_inv p → provider_inv (cancel_job id p).1.
Proof.
  intros Hp. pose proof (cancel_job_effect id p Hp) as Heff.
  destruct (jobs p !! id) as [job|] eqn:Hid; [|by rewrite Heff].
  case_decide; [|by rewrite Heff].
  destruct Heff as (c & p' & -> & ? & ? & ?). by eapply finished_inv.
Qed.

Lemma close_job_by_id_effect id p :
  ∃ bl, bl ⊆ blobs p ∧
    close_job_by_id id p =
      {| provider := {| resources := resources p; blobs := bl; jobs := delete id (jobs p);
           event_streams := event_streams p;
           next_reverse_request_id := next_reverse_request_id p |};
         uuid_draws := uuid_draws p;
         workers := signal_worker (jobs p !! id ≫= cancellation) (workers p) |}.
Proof.
  unfold close_job_by_id. destruct (jobs p !! id) as [job|] eqn:Hid; simpl.
  - exists (match job_result_ref job with
            | Some (Blob b) => delete b (blobs p)
            | _ => blobs p
            end).
    split; [destruct (job_result_ref job) as [[]|]; [done|apply delete_subseteq|done]|].
    unfold drop_job, signal.
    destruct (bool_decide _), (job_result_ref job) as [[]|], (cancellation job); done.
  - exists (blobs p). split; [done|]. rewrite delete_id by done. by destruct p as [[]].
Qed.

Lemma close_job_by_id_jobs_inv res id p :
  jobs_inv res (jobs p) (workers p) →
  jobs_inv res (jobs (close_job_by_id id p)) (workers (close_job_by_id id p)).
Proof.
  intros Hj. destruct (close_job_by_id_effect id p) as (bl & _ & ->). simpl.
  destruct (jobs p !! id) as [job|] eqn:Hid; simpl; [by apply jobs_inv_remove|].
  by rewrite delete_id.
Qed.

Lemma close_job_by_id_inv id p : provider_inv p → provider_inv (close_job_by_id id p).
Proof.
  intros [Hb Hs Hj]. pose proof (close_job_by_id_jobs_inv _ id p Hj) as Hj'.
  destruct (close_job_by_id_effect id p) as (bl & Hbl & Heq). rewrite Heq in *.
  split; [by eapply blobs_inv_subseteq|done|done].
Qed.

Lemma close_jobs_effect l p res :
  let p' := foldl (λ p id, close_job_by_id id p) p l in
  (jobs_inv res (jobs p) (workers p) → jobs_inv res (jobs p') (workers p')) ∧
  (∀ id, jobs p' !! id = if decide (id ∈ l) then None else jobs p !! id) ∧
  blobs p' ⊆ blobs p ∧ resources p' = resources p ∧ event_streams p' = event_streams p ∧
  uuid_draws p' = uuid_draws p.
Proof.
  revert p. induction l as [|id l IH]; intros p; cbn [foldl].
  { by split_and!. }
  specialize (IH (close_job_by_id id p)). simpl in IH.
  destruct IH as (Hj & Hl & Hb & Hr & Hs & Hd).
  destruct (close_job_by_id_effect id p) as (bl & Hbl & Heq).
  pose proof (λ H, Hj (close_job_by_id_jobs_inv res id p H)) as Hj'.
  split; [done|]. rewrite Heq in *. simpl in *. split_and!; try done.
  - intros i. rewrite Hl, lookup_delete. repeat case_decide; set_solver.
  - by trans bl.
Qed.

Lemma close_resource_inv id p : provider_inv p → provider_inv (close_resource id p).1.
Proof.
  intros [Hb Hs Hj]. unfold close_resource.
  destruct (resources p !! id) as [r|]; [|by split]. simpl. unfold close_jobs_for_resource.
  set (p1 := on_resources (delete id) p). set (l := (map_to_list _).*1).
  destruct (close_jobs_effect l p1 (resources p)) as (Hj' & Hl & Hbl & Hr & Hstr & _).
  set (p2 := foldl _ _ _) in *. split; simpl.
  - rewrite Hr. apply blobs_inv_close. by eapply blobs_inv_subseteq.
  - by rewrite Hstr.
  - eapply jobs_inv_resources; [|by apply Hj']. intros k job Hk. rewrite Hr. simpl.
    rewrite Hl in Hk. case_decide as Hkl; [done|]. simpl in Hk.
    destruct (jobs_shape _ _ _ Hj k job Hk) as [Hres _].
    rewrite lookup_delete_ne; [done|]. intros Heq. apply Hkl. unfold l.
    apply list_elem_of_fmap. exists (k, job). split; [done|].
    apply elem_of_map_to_list, map_lookup_filter_Some. by split.
Qed.

Lemma drop_jobs_workers l p :
  let p' := foldl (λ p job, drop_job job p) p l in
  (Forall worker_ok (workers p) → Forall worker_ok (workers p')) ∧
  ∀ c w, workers p' !! c = Some w → waiting w →
    workers p !! c = Some w ∧ Forall (λ job, cancellation job ≠ Some c) l.
Proof.
  revert p. induction l as [|job l IH]; intros p; cbn [foldl]; [done|].
  specialize (IH (drop_job job p)). simpl in IH. destruct IH as [Hok Hw].
  assert (Hws : workers (drop_job job p) = signal_worker (cancellation job) (workers p))
    by (unfold drop_job, signal; by destruct (cancellation job)).
  rewrite Hws in *. split; [auto using workers_ok_signal|].
  intros c w Hc Hwait. destruct (Hw c w Hc Hwait) as [Hc' Hl].
  destruct (cancellation job) as [c'|] eqn:Hcanc; simpl in Hc'; [|by split; [|constructor; [congruence|]]].
  destruct (decide (c = c')) as [->|Hne].
  - rewrite list_lookup_alter_eq in Hc'. apply fmap_Some in Hc' as (w0 & _ & ->).
    by destruct Hwait.
  - rewrite list_lookup_alter_ne in Hc' by done. split; [done|]. constructor; [congruence|done].
Qed.

Lemma clear_inv p : provider_inv p → provider_inv (clear p).
Proof.
  intros [Hb Hs Hj]. unfold clear.
  destruct (drop_jobs_workers (map_to_list (jobs p)).*2 p) as [Hok Hw].
  split; simpl.
  - split; [done|apply map_Forall_empty].
  - split; [by rewrite map_size_empty; unfold MAX_EVENT_STREAMS; lia|apply map_Forall_empty].
  - apply jobs_inv_empty; [apply Hok, Hj|]. intros c w Hc Hwait.
    destruct (Hw c w Hc Hwait) as [Hc' Hl].
    destruct (workers_owned _ _ _ Hj c w Hc' Hwait) as (id & job & Hid & _ & Hcanc).
    rewrite Forall_forall in Hl. eapply Hl; [|exact Hcanc].
    apply list_elem_of_fmap. exists (id, job). split; [done|]. by apply elem_of_map_to_list.
Qed.

(** Starting a job either refuses and changes nothing, or adds a running job. *)
Lemma start_job_effect params p :
  (∃ e, start_job new_v4 params p = (p, Err e)) ∨
  ∃ rid resource body, js_resource_id params = Some rid ∧ resources p !! rid = Some resource ∧
    size (jobs p) < MAX_JOBS ∧ search_body (js_params params) = Ok body ∧
    start_job new_v4 params p =
      (insert_job (lit "es-job-" ++ new_v4 (uuid_draws p))
         {| job_resource := rid; job_state := Running; progress_percent := None;
            job_message := Some (lit "search running"); job_result_ref := None;
            completion := Some (length (workers p)); cancellation := Some (length (workers p)) |}
         (spawn_worker resource (js_params params) (draw new_v4 p).1).1,
       Ok {| js_job_id := lit "es-job-" ++ new_v4 (uuid_draws p); js_state := Running |}).
Proof.
  unfold start_job. rewrite lift_bind.
  destruct (js_resource_id params) as [rid|] eqn:Hrid; cbn [of_option]; [|by eauto].
  rewrite gets_bind, lift_bind.
  destruct (resources p !! rid) as [resource|] eqn:Hres; cbn [of_option]; [|by eauto].
  rewrite lift_bind. destruct (bool_decide _) eqn:Hmethod; cbn [ensure]; [|by eauto].
  rewrite gets_bind, lift_bind.
  destruct (Nat.ltb_spec (size (jobs p)) MAX_JOBS); cbn [ensure]; [|by eauto].
  rewrite lift_bind.
  destruct (search_body (js_params params)) as [body|e|] eqn:Hbody; [|by eauto|].
  - right. exists rid, resource, body. done.
  - by destruct (search_body_no_panic (js_params params)).
Qed.

Lemma insert_job_fields id job p :
  jobs (insert_job id job p) = <[id := job]> (jobs p) ∧
  workers (insert_job id job p) =
    signal_worker (jobs p !! id ≫= cancellation) (workers p) ∧
  resources (insert_job id job p) = resources p ∧ blobs (insert_job id job p) = blobs p ∧
  event_streams (insert_job id job p) = event_streams p ∧
  uuid_draws (insert_job id job p) = uuid_draws p.
Proof.
  unfold insert_job, drop_job, signal.
  by destruct (jobs p !! id) as [old|]; simpl; [destruct (cancellation old)|].
Qed.

Lemma start_job_inv params p : provider_inv p → provider_inv (start_job new_v4 params p).1.
Proof.
  intros [Hb Hs Hj].
  destruct (start_job_effect params p) as [[e ->]|(rid & r & body & _ & Hr & Hsize & Hbody & ->)];
    [by split|]. cbn [fst].
  match goal with |- context [insert_job ?i ?j ?q] => set (id := i); set (job := j); set (p1 := q) end.
  destruct (insert_job_fields id job p1) as (Hjobs & Hws & Hres & Hbl & Hstr & _).
  split; [by rewrite Hres, Hbl|by rewrite Hstr|]. rewrite Hres, Hjobs, Hws.
  rewrite <-insert_delete_eq. simpl.
  match goal with |- context [workers p ++ [?w0]] => set (w := w0) end.
  assert (Hw : signal_worker (jobs p !! id ≫= cancellation) (workers p ++ [w]) =
            signal_worker (jobs p !! id ≫= cancellation) (workers p) ++ [w]).
  { destruct (jobs p !! id) as [old|] eqn:Hold; simpl; [|done].
    destruct (cancellation old) as [c|] eqn:Hc; simpl; [|done].
    apply alter_app_l. by eapply Hj. }
  rewrite Hw.
  assert (Hlen : length (signal_worker (jobs p !! id ≫= cancellation) (workers p)) =
            length (workers p)) by apply signal_worker_length.
  apply jobs_inv_spawn; try done.
  - destruct (jobs p !! id) as [old|] eqn:Hold; simpl; [by apply jobs_inv_remove|].
    by rewrite delete_id.
  - apply lookup_delete_eq.
  - rewrite map_size_delete. destruct (jobs p !! id); simpl; lia.
  - split; [by eauto|]. by intros [].
  - by rewrite Hlen.
  - by rewrite Hlen.
Qed.

Lemma read_blob_safe params : keeps_safe provider_inv (read_blob params).
Proof.
  intros p [[Hbytes Hok] Hs Hj]. unfold read_blob.
  destruct (blobs p !! br_blob_id params) as [blob|] eqn:Hid; [|by split].
  destruct (Hok _ _ Hid) as (Hres & Hoff & Hopen). rewrite Hopen.
  set (stop := _ `min` length (blob_data blob)). split; [|].
  - split; [|done..]. simpl. split; [by rewrite (blob_bytes_update _ _ blob)|].
    apply map_Forall_insert_2; [|done]. split_and!; [done| |done]. simpl. lia.
  - pose proof (blob_bytes_delete _ _ _ Hid) as Hsum. unfold MAX_TOTAL_BLOB_BYTES in Hbytes.
    simpl. rewrite get_slice_ok; [done|unfold stop, sat_add; lia|unfold stop; lia].
Qed.

Lemma open_event_stream_effect params p :
  (∃ e, open_event_stream new_v4 params p = (p, Err e)) ∨
  (size (event_streams p) < MAX_EVENT_STREAMS ∧
   ∃ s, stream_ok s ∧ buffer s = [] ∧ dropped_count s = 0%N ∧
     let id := lit "es-stream-" ++ new_v4 (uuid_draws p) in
     open_event_stream new_v4 params p =
       (on_streams <[id := s]> (draw new_v4 p).1, Ok id)).
Proof.
  unfold open_event_stream. rewrite lift_bind.
  destruct (bool_decide (eo_kind params = _)) eqn:Hkind; cbn [ensure]; [|by eauto].
  rewrite lift_bind. destruct (bool_decide (eo_conn_id params = _)); cbn [ensure]; [|by eauto].
  rewrite gets_bind, lift_bind. destruct (negb _); cbn [ensure]; [|by eauto].
  rewrite gets_bind, lift_bind.
  destruct (Nat.ltb_spec (size (event_streams p)) MAX_EVENT_STREAMS); cbn [ensure];
    [|by eauto].
  right. split; [done|]. apply bool_decide_eq_true in Hkind.
  eexists. split; [|split; [|split; [|reflexivity]]]; [|done..].
  set (n := N.max 1 _). assert (1 <= n <= N.max 1 MAX_EVENT_MAX_EVENTS)%N by lia.
  split_and!; cbn [stream_kind capacity buffer stream_closed length]; [done|lia..|done].
Qed.

Lemma open_event_stream_safe params :
  keeps_safe provider_inv (open_event_stream new_v4 params).
Proof.
  intros p [Hb Hs Hj].
  destruct (open_event_stream_effect params p) as [[e ->]|(Hsize & s & Hok & _ & _ & Heq)];
    [by split|]. simpl in Heq. rewrite Heq. split; [|done].
  split; simpl; [done|by apply streams_inv_insert|done].
Qed.

Lemma read_event_stream_inv params p :
  provider_inv p → provider_inv (read_event_stream params p).1.
Proof.
  intros [Hb Hs Hj]. unfold read_event_stream.
  destruct (event_streams p !! er_stream_id params) as [s|] eqn:Hid; [|by split].
  destruct (proj2 Hs _ _ Hid) as (Hk & Hcap & Hlen & Hmax & Hopen).
  split; simpl; [done| |done]. apply (streams_inv_update _ _ s); [done| |done].
  split_and!; [done..| |done|done]. cbn [buffer capacity]. rewrite length_drop.
  set (count := N.to_nat _). lia.
Qed.

Lemma close_event_stream_inv id p : provider_inv p → provider_inv (close_event_stream id p).
Proof. intros [Hb Hs Hj]. split; simpl; [done|by apply streams_inv_delete|done]. Qed.

Lemma close_blob_inv id p : provider_inv p → provider_inv (close_blob id p).
Proof.
  intros [Hb Hs Hj]. split; simpl; [|done..]. by eapply blobs_inv_subseteq, Hb; apply delete_subseteq.
Qed.

Lemma fresh_resource_id_fields fuel p :
  let p' := (fresh_resource_id new_v4 fuel p).1 in
  provider p' = provider p ∧ workers p' = workers p ∧ uuid_draws p ≤ uuid_draws p'.
Proof.
  revert p. induction fuel as [|fuel IH]; intros p; simpl; [done|].
  destruct (resources p !! new_v4 (uuid_draws p)); [|simpl; split_and!; [done..|lia]].
  destruct (IH (draw new_v4 p).1) as (? & ? & ?). simpl in *. split_and!; [done..|lia].
Qed.

(** Identifiers do not repeat, so one of [size + 1] of them names no resource. *)
Lemma fresh_resource_id_returns `{!Inj (=) (=) new_v4} fuel p :
  (fresh_resource_id new_v4 fuel p).2 = None → fuel ≤ size (resources p).
Proof.
  intros Hnone.
  assert (Htaken : ∀ fuel p, (fresh_resource_id new_v4 fuel p).2 = None →
    ∀ i, i < fuel → is_Some (resources p !! new_v4 (uuid_draws p + i))).
  { clear. induction fuel as [|fuel IH]; intros p Hnone i Hi; [lia|]. simpl in Hnone.
    destruct (resources p !! new_v4 (uuid_draws p)) eqn:Htaken; [|done].
    destruct i as [|i]; [rewrite Nat.add_0_r; by eauto|].
    specialize (IH _ Hnone i). simpl in IH. rewrite Nat.add_succ_r. apply IH. lia. }
  specialize (Htaken fuel p Hnone).
  set (ids := (λ i, new_v4 (uuid_draws p + i)) <$> seq 0 fuel).
  assert (Hids : list_to_set ids ⊆ dom (resources p)).
  { intros id. rewrite elem_of_list_to_set. intros (i & -> & Hi%elem_of_seq)%list_elem_of_fmap.
    apply elem_of_dom, Htaken. lia. }
  apply subseteq_size in Hids. rewrite size_dom, size_list_to_set in Hids.
  - unfold ids in Hids. rewrite length_fmap, length_seq in Hids. done.
  - apply NoDup_fmap_2; [|apply NoDup_seq]. intros i j Hij. apply (inj new_v4) in Hij. lia.
Qed.

Lemma insert_resource_safe `{!Inj (=) (=) new_v4} r :
  keeps_safe provider_inv (insert_resource new_v4 r).
Proof.
  intros p [Hb Hs Hj]. unfold insert_resource.
  pose proof (fresh_resource_id_fields (S (size (resources p))) p) as (Hp & Hw & _).
  pose proof (fresh_resource_id_returns (S (size (resources p))) p) as Hret.
  destruct (fresh_resource_id _ _ p) as [p1 [rid|]]; simpl in *; [|specialize (Hret eq_refl); lia].
  split; [|done]. split; simpl; rewrite ?Hp, ?Hw.
  - eapply blobs_inv_resources, Hb. rewrite dom_insert. set_solver.
  - done.
  - eapply jobs_inv_resources, Hj. intros id job Hjob.
    destruct (jobs_shape _ _ _ Hj id job Hjob) as [Hres _].
    by apply lookup_insert_is_Some'; right.
Qed.

Lemma worker_step_inv c f p :
  (∀ w, worker_ok w → worker_ok (f w)) →
  (∀ w, cancelled (f w) = cancelled w ∧ (alive (f w) = true → alive w = true)) →
  provider_inv p → provider_inv (on_workers (alter f c) p).
Proof. intros Hok Hf [Hb Hs Hj]. split; simpl; [done..|by apply jobs_inv_worker]. Qed.
End operations.

(** ** Runs *)

Section runs.
Context `{EsCodec} {Resource : Type} `{!EsEnv Resource}.
Abbreviation Process := (Process Resource).
Abbreviation Server := (Server Resource).
Implicit Types (p : Process) (s : Server).

(** The events a request hands over: what [event/read] takes out of a stream. *)
Definition drained (method_name : Method) (params : Value) p : option (list N * list Value) :=
  match method_name, parse_params (T:=EventReadParams) params with
  | EVENT_READ, Ok params =>
      Some (er_stream_id params, er_events (read_event_stream params p).2)
  | _, _ => None
  end.

Definition note_drained (d : option (list N * list Value)) (seen : list N → list Value)
    : list N → list Value :=
  match d with
  | None => seen
  | Some (id, events) => λ i, if decide (i = id) then seen i ++ events else seen i
  end.

(** A run from the start of the process, with what was read from each stream.  A worker
    searches with the answers of some server, is woken, or dies. *)
Inductive run : Process → (list N → list Value) → Prop :=
  | run_new : run new_process (λ _, [])
  | run_request s seen net method_name params :
      run (process s) seen →
      run (process (dispatch net method_name params s).1)
        (note_drained (drained method_name params (process s)) seen)
  | run_worker_finds p seen c w net value :
      run p seen → workers p !! c = Some w → alive w = true →
      execute from_slice status_text (net (worker_resource w)) (lit "elasticsearch/search")
        (worker_params w) = Ok value →
      run (worker_sends c (inr value) p) seen
  | run_worker_fails p seen c w net error :
      run p seen → workers p !! c = Some w → alive w = true →
      execute from_slice status_text (net (worker_resource w)) (lit "elasticsearch/search")
        (worker_params w) = Err error →
      run (worker_sends c (inl error) p) seen
  | run_worker_ends p seen c :
      run p seen → run (worker_ends c p) seen.

(** *** The invariant *)

Lemma on_state_safe {A} (m : comp Process ProtocolError A) :
  keeps_safe provider_inv m → keeps_safe (λ s, provider_inv (process s)) (on_state m).
Proof. by apply keeps_safe_zoom. Qed.

Lemma ipc_safe {A} (m : Server → Server * A) :
  (∀ s, process (m s).1 = process s) →
  keeps_safe (E:=ProtocolError) (λ s, provider_inv (process s)) (total m).
Proof. intros Hm. apply keeps_safe_total. intros s. by rewrite Hm. Qed.

Lemma send_msg_process message s : process (send_msg message s).1 = process s.
Proof. unfold send_msg. by destruct (writable _). Qed.

Lemma recv_msg_process s : process (recv_msg s).1 = process s.
Proof. unfold recv_msg. by destruct (inbox _). Qed.

Lemma fetch_add_safe : keeps_safe (provider_inv (Resource:=Resource)) fetch_add.
Proof. intros p [Hb Hs Hj]. by split. Qed.

Lemma parse_params_no_panic {T} `{FromValue T} v : parse_params (T:=T) v ≠ Panic.
Proof. unfold parse_params. auto with helper. Qed.
Lemma serialize_no_panic {T} `{ToValue T} (v : T) : serialize v ≠ Panic.
Proof. unfold serialize. auto with helper. Qed.

Hint Resolve on_state_safe ipc_safe send_msg_process recv_msg_process fetch_add_safe
  parse_params_no_panic serialize_no_panic : helper.
Hint Resolve keeps_safe_modify keeps_safe_total : helper.
Hint Resolve start_job_inv poll_job_inv cancel_job_inv close_job_by_id_inv close_resource_inv
  clear_inv emit_job_event_inv read_event_stream_inv close_event_stream_inv close_blob_inv
  read_blob_safe open_event_stream_safe insert_resource_safe : helper.

Lemma resolve_credentials_safe credentials :
  keeps_safe (λ s, provider_inv (process s)) (resolve_credentials credentials).
Proof. unfold resolve_credentials, resolve_secret. keeps_safe_steps. Qed.

Lemma blob_result_inv resource_id value p :
  provider_inv p → is_Some (resources p !! resource_id) →
  provider_inv (blob_result new_v4 resource_id value p).1 ∧
  (blob_result new_v4 resource_id value p).2 ≠ Panic.
Proof.
  intros [Hb Hs Hj] Hres. unfold blob_result. rewrite lift_bind.
  destruct (of_sum _ _) as [data|e|] eqn:Hdata; [|done|by destruct (to_vec value)].
  destruct (negb _); [done|]. rewrite total_bind.
  destruct (store_blob_effect new_v4 resource_id data p Hres Hb) as (bl & n & _ & Hbl & Heq).
  destruct (store_blob new_v4 resource_id data p) as [p1 o]. simpl in *. subst p1.
  by destruct o.
Qed.

Lemma invoke_safe net params :
  keeps_safe (λ s, provider_inv (process s)) (invoke net params).
Proof.
  intros s Hs. unfold invoke. rewrite lift_bind.
  destruct (parse_params params) as [ps|e|] eqn:Hparse;
    [|done|by destruct (parse_params_no_panic (T:=ResourceInvokeParams) params)].
  rewrite gets_bind, lift_bind.
  destruct (resources (process s) !! ri_resource_id ps) as [r|] eqn:Hres; [|done].
  cbn [of_option]. rewrite lift_bind.
  pose proof (execute_no_panic from_slice status_text (net r) (ri_method ps) (ri_params ps)).
  destruct (execute _ _ _ _ _) as [value|e|]; [|done|done].
  destruct (blob_result_inv (ri_resource_id ps) (normalize_result (ri_method ps) value)
              (process s) Hs) as [Hinv Hnp]; [by eauto|].
  rewrite comp_bind_run. unfold on_state, zoom. simpl.
  destruct (blob_result _ _ _ _) as [p1 [a|e|]]; simpl in *; [|done|done].
  split; [done|]. apply serialize_no_panic.
Qed.

Lemma poll_and_emit_safe job_id :
  keeps_safe (provider_inv (Resource:=Resource)) (poll_and_emit job_id).
Proof. unfold poll_and_emit. keeps_safe_steps. Qed.

Lemma job_result_safe job_id : keeps_safe (provider_inv (Resource:=Resource)) (job_result job_id).
Proof. unfold job_result. keeps_safe_steps. Qed.

Lemma job_status_safe job_id : keeps_safe (provider_inv (Resource:=Resource)) (job_status job_id).
Proof. unfold job_status. keeps_safe_steps. Qed.

Lemma start_job_safe params : keeps_safe (provider_inv (Resource:=Resource)) (start_job new_v4 params).
Proof.
  intros p Hp. split; [by apply start_job_inv|].
  by destruct (start_job_effect new_v4 params p) as [[e ->]|(? & ? & ? & _ & _ & _ & _ & ->)].
Qed.

Lemma cancel_job_safe job_id : keeps_safe (provider_inv (Resource:=Resource)) (cancel_job job_id).
Proof.
  intros p Hp. split; [by apply cancel_job_inv|]. unfold cancel_job.
  destruct (jobs p !! job_id); [|done]. by case_decide.
Qed.

Hint Resolve resolve_credentials_safe invoke_safe poll_and_emit_safe job_result_safe
  job_status_safe start_job_safe cancel_job_safe : helper.

Lemma dispatch_safe `{!Inj (=) (=) new_v4} net method_name params :
  keeps_safe (λ s, provider_inv (process s)) (dispatch net method_name params).
Proof.
  destruct method_name; cbn [dispatch]; unfold init, shutdown, open, ping, close,
    stream_read_blob, stream_close_blob, open_event, read_event, close_event, start, status,
    cancel, task_result, task_close; keeps_safe_steps.
  all: apply on_state_safe; keeps_safe_steps.
Qed.

Lemma new_process_inv : provider_inv (new_process (Resource:=Resource)).
Proof.
  split.
  - split; [done|apply map_Forall_empty].
  - split; [|apply map_Forall_empty]. simpl. unfold MAX_EVENT_STREAMS.
    rewrite map_size_empty. lia.
  - by apply jobs_inv_empty.
Qed.

Lemma provider_run_inv `{!Inj (=) (=) new_v4} p seen : run p seen → provider_inv p.
Proof.
  induction 1; [apply new_process_inv|by apply dispatch_safe|..].
  all: unfold worker_sends, worker_ends; apply worker_step_inv; [|done|done].
  all: intros w0 [Hpar Hs]; split; [done|simpl; by eauto].
Qed.

(** *** Completion events *)

(** The job a completion event is about. *)
Definition event_job (event : Value) : option (list N) := get (lit "job_id") event ≫= as_str.

Lemma event_job_of job_id job : event_job (job_event job_id job) = Some job_id.
Proof. reflexivity. Qed.

Definition about (job_id : list N) (events : list Value) : list Value :=
  filter (λ event, event_job event = Some job_id) events.

(** What a stream has handed over and still holds. *)
Definition known p (seen : list N → list Value) (stream_id : list N) : list Value :=
  seen stream_id ++ default [] (buffer <$> event_streams p !! stream_id).

Definition job_name (k : nat) : list N := lit "es-job-" ++ new_v4 k.
Definition stream_name (k : nat) : list N := lit "es-stream-" ++ new_v4 k.

Record events_inv p (seen : list N → list Value) : Prop := {
  ev_jobs : ∀ id, is_Some (jobs p !! id) → ∃ k, k < uuid_draws p ∧ id = job_name k;
  ev_streams : ∀ id, is_Some (event_streams p !! id) → ∃ k, k < uuid_draws p ∧ id = stream_name k;
  ev_known : ∀ st event id, event ∈ known p seen st → event_job event = Some id →
    ∃ k, k < uuid_draws p ∧ id = job_name k;
  ev_once : ∀ st id, length (about id (known p seen st)) ≤ 1;
  ev_final : ∀ st event id job, event ∈ known p seen st → event_job event = Some id →
    jobs p !! id = Some job → event = job_event id job ∧ job_state job ≠ Running;
  ev_all : ∀ k k' stream job, event_streams p !! stream_name k = Some stream →
    dropped_count stream = 0%N → jobs p !! job_name k' = Some job →
    job_state job ≠ Running → k < k' →
    about (job_name k') (known p seen (stream_name k)) = [job_event (job_name k') job]
}.

(** Transitions that start, finish and emit nothing. *)
Definition quiet p p' : Prop :=
  jobs p' ⊆ jobs p ∧ event_streams p' ⊆ event_streams p ∧ uuid_draws p ≤ uuid_draws p'.

Lemma known_quiet p p' seen st :
  event_streams p' ⊆ event_streams p → known p' seen st `sublist_of` known p seen st.
Proof.
  intros Hsub. unfold known. apply sublist_app; [done|].
  destruct (event_streams p' !! st) as [s|] eqn:Hs; simpl; [|apply sublist_nil_l].
  by rewrite (lookup_weaken _ _ _ _ Hs Hsub).
Qed.

Lemma events_inv_quiet p p' seen : quiet p p' → events_inv p seen → events_inv p' seen.
Proof.
  intros (Hj & Hs & Hd) [Hjobs Hstreams Hknown Honce Hfinal Hall].
  assert (Hin : ∀ st event, event ∈ known p' seen st → event ∈ known p seen st).
  { intros st event. by apply sublist_elem, known_quiet. }
  split.
  - intros id [job Hid]. destruct (Hjobs id) as (k & ? & ->); [eexists; by eapply lookup_weaken|].
    exists k. split; [lia|done].
  - intros id [st Hid]. destruct (Hstreams id) as (k & ? & ->); [eexists; by eapply lookup_weaken|].
    exists k. split; [lia|done].
  - intros st event id Hev Hid. destruct (Hknown st event id) as (k & ? & ->); auto.
    exists k. split; [lia|done].
  - intros st id. etrans; [|apply (Honce st id)]. unfold about.
    by apply sublist_length, sublist_filter, known_quiet.
  - intros st event id job Hev Hid Hjob. eapply Hfinal; eauto using lookup_weaken.
  - intros k k' stream job Hst Hdrop Hjob Hrun Hk.
    pose proof (lookup_weaken _ _ _ _ Hst Hs) as Hst'.
    rewrite <-(Hall k k' stream job); eauto using lookup_weaken.
    unfold known. by rewrite Hst, Hst'.
Qed.

Lemma known_ne p p' seen seen' st :
  seen' st = seen st → event_streams p' !! st = event_streams p !! st →
  known p' seen' st = known p seen st.
Proof. unfold known. by intros -> ->. Qed.

Lemma about_sublist id l k : l `sublist_of` k → length (about id l) ≤ length (about id k).
Proof. intros. by apply sublist_length, sublist_filter. Qed.

Context `{!Inj (=) (=) new_v4}.

Lemma job_name_inj k k' : job_name k = job_name k' → k = k'.
Proof. unfold job_name. by intros ?%(inj (lit "es-job-" ++.))%(inj new_v4). Qed.

Lemma stream_name_inj k k' : stream_name k = stream_name k' → k = k'.
Proof. unfold stream_name. by intros ?%(inj (lit "es-stream-" ++.))%(inj new_v4). Qed.

Lemma events_inv_start p p' seen job :
  events_inv p seen → job_state job = Running →
  jobs p' = <[job_name (uuid_draws p) := job]> (jobs p) →
  event_streams p' = event_streams p → uuid_draws p' = S (uuid_draws p) →
  events_inv p' seen.
Proof.
  intros [Hjobs Hstreams Hknown Honce Hfinal Hall] Hrun Hj Hs Hd.
  assert (Hk : ∀ st, known p' seen st = known p seen st) by (intros; unfold known; by rewrite Hs).
  split.
  - intros id. rewrite Hj, Hd. intros [<-|Hid]%lookup_insert_is_Some'.
    + exists (uuid_draws p). split; [lia|done].
    + destruct (Hjobs id Hid) as (k & ? & ->). exists k. split; [lia|done].
  - intros id Hid. rewrite Hs in Hid. destruct (Hstreams id Hid) as (k & ? & ->).
    exists k. split; [lia|done].
  - intros st event id. rewrite Hk. intros Hev Hid.
    destruct (Hknown st event id Hev Hid) as (k & ? & ->). exists k. split; [lia|done].
  - intros st id. rewrite Hk. apply Honce.
  - intros st event id job0. rewrite Hk, Hj. intros Hev Hid.
    destruct (Hknown st event id Hev Hid) as (k & Hlt & ->).
    rewrite lookup_insert_ne; [by apply (Hfinal st)|]. intros ?%job_name_inj. lia.
  - intros k k' stream job0. rewrite Hk, Hs, Hj. intros Hst Hdrop Hjob Hrun0 Hlt.
    destruct (decide (k' = uuid_draws p)) as [->|Hne].
    + rewrite lookup_insert_eq in Hjob. congruence.
    + eapply Hall; eauto. rewrite lookup_insert_ne in Hjob; [done|].
      by intros ?%job_name_inj.
Qed.

Lemma events_inv_open p p' seen stream :
  events_inv p seen → buffer stream = [] → jobs p' = jobs p →
  event_streams p' = <[stream_name (uuid_draws p) := stream]> (event_streams p) →
  uuid_draws p' = S (uuid_draws p) → events_inv p' seen.
Proof.
  intros [Hjobs Hstreams Hknown Honce Hfinal Hall] Hbuf Hj Hs Hd.
  assert (Hk : ∀ st, known p' seen st `sublist_of` known p seen st).
  { intros st. unfold known. rewrite Hs. apply sublist_app; [done|].
    destruct (decide (st = stream_name (uuid_draws p))) as [->|Hne].
    - rewrite lookup_insert_eq. simpl. rewrite Hbuf. apply sublist_nil_l.
    - by rewrite lookup_insert_ne. }
  split.
  - intros id. rewrite Hj, Hd. intros Hid.
    destruct (Hjobs id Hid) as (k & ? & ->). exists k. split; [lia|done].
  - intros id. rewrite Hs, Hd. intros [<-|Hid]%lookup_insert_is_Some'.
    + exists (uuid_draws p). split; [lia|done].
    + destruct (Hstreams id Hid) as (k & ? & ->). exists k. split; [lia|done].
  - intros st event id Hev Hid. apply (sublist_elem _ _ _ (Hk st)) in Hev.
    destruct (Hknown st event id Hev Hid) as (k & ? & ->). exists k. split; [lia|done].
  - intros st id. pose proof (about_sublist id _ _ (Hk st)). specialize (Honce st id). lia.
  - intros st event id job Hev. rewrite Hj. apply (sublist_elem _ _ _ (Hk st)) in Hev.
    by apply (Hfinal st).
  - intros k k' stream0 job. rewrite Hs, Hj. intros Hst Hdrop Hjob Hrun Hlt.
    destruct (Hjobs (job_name k')) as (k0 & Hk0 & <-%job_name_inj); [by eauto|].
    assert (Hne : stream_name k ≠ stream_name (uuid_draws p)) by (intros ?%stream_name_inj; lia).
    rewrite lookup_insert_ne in Hst by done.
    rewrite (known_ne p p' seen seen); [by eapply Hall|done|].
    by rewrite Hs, lookup_insert_ne.
Qed.

Lemma events_inv_read p p' seen id stream stream' n :
  events_inv p seen → event_streams p !! id = Some stream →
  buffer stream' = drop n (buffer stream) → dropped_count stream' = dropped_count stream →
  jobs p' = jobs p → event_streams p' = <[id := stream']> (event_streams p) →
  uuid_draws p' = uuid_draws p →
  events_inv p' (note_drained (Some (id, take n (buffer stream))) seen).
Proof.
  intros [Hjobs Hstreams Hknown Honce Hfinal Hall] Hid Hbuf Hdrop Hj Hs Hd.
  assert (Hk : ∀ st, known p' (note_drained (Some (id, take n (buffer stream))) seen) st =
                     known p seen st).
  { intros st. unfold known. simpl. rewrite Hs. case_decide as Hst.
    - subst st. rewrite lookup_insert_eq, Hid. simpl. rewrite Hbuf, <-app_assoc.
      by rewrite take_drop.
    - by rewrite lookup_insert_ne. }
  split; try setoid_rewrite Hk; rewrite ?Hj, ?Hd; try done.
  - intros st. rewrite Hs. intros [<-|Hst]%lookup_insert_is_Some'; [|by apply Hstreams].
    apply Hstreams. by eauto.
  - intros k k' stream0 job. rewrite Hs. intros Hst Hdrop0 Hjob Hrun Hlt.
    destruct (decide (stream_name k = id)) as [<-|Hne].
    + rewrite lookup_insert_eq in Hst. injection Hst as <-. eapply Hall; eauto. congruence.
    + rewrite lookup_insert_ne in Hst by done. by eapply Hall.
Qed.

(** A finished job is announced to every stream. *)
Lemma events_inv_finish p p' seen id job job' :
  events_inv p seen → streams_inv (event_streams p) → jobs p !! id = Some job →
  job_state job = Running → job_state job' ≠ Running →
  jobs p' = <[id := job']> (jobs p) →
  event_streams p' = to_search_streams (job_event id job') <$> event_streams p →
  uuid_draws p ≤ uuid_draws p' → events_inv p' seen.
Proof.
  intros [Hjobs Hstreams Hknown Honce Hfinal Hall] [_ Hok] Hid Hrun Hrun' Hj Hs Hd.
  set (event := job_event id job') in *.
  assert (Hpush : ∀ st, event_streams p' !! st = push event <$> event_streams p !! st).
  { intros st. rewrite Hs, lookup_fmap. destruct (event_streams p !! st) as [s|] eqn:Hst; [|done].
    simpl. unfold to_search_streams. by rewrite decide_True by apply (Hok st s Hst). }
  assert (Hk : ∀ st, known p' seen st `sublist_of` known p seen st ++ [event]).
  { intros st. unfold known. rewrite Hpush, <-app_assoc. apply sublist_app; [done|].
    destruct (event_streams p !! st) as [s|] eqn:Hst; simpl; [|apply sublist_nil_l].
    unfold push. destruct (Hok st s Hst) as (_ & _ & _ & _ & ->). simpl.
    apply sublist_app; [|done]. destruct (_ <=? _); [|done].
    destruct (buffer s); simpl; [done|]. by apply sublist_cons. }
  assert (Hnone : ∀ st, about id (known p seen st) = []).
  { intros st. destruct (about id (known p seen st)) as [|e l] eqn:He; [done|].
    assert (e ∈ about id (known p seen st)) as [Hid' Hin]%list_elem_of_filter
      by (rewrite He; by left).
    by destruct (Hfinal st e id job Hin Hid' Hid). }
  assert (Hother : ∀ i, i ≠ id → about i [event] = []).
  { intros i Hi. unfold about. rewrite filter_cons_False; [done|].
    unfold event. rewrite event_job_of. congruence. }
  split.
  - intros i. rewrite Hj. intros Hi. destruct (Hjobs i) as (k & ? & ->).
    { apply lookup_insert_is_Some' in Hi as [<-|?]; by eauto. }
    exists k. split; [lia|done].
  - intros st. rewrite Hpush, fmap_is_Some. intros Hst.
    destruct (Hstreams st Hst) as (k & ? & ->). exists k. split; [lia|done].
  - intros st e i He Hi. apply (sublist_elem _ _ _ (Hk st)) in He.
    apply elem_of_app in He as [He| ->%list_elem_of_singleton].
    + destruct (Hknown st e i He Hi) as (k & ? & ->). exists k. split; [lia|done].
    + unfold event in Hi. rewrite event_job_of in Hi. injection Hi as <-.
      destruct (Hjobs id) as (k & ? & ->); [by eauto|]. exists k. split; [lia|done].
  - intros st i. pose proof (about_sublist i _ _ (Hk st)) as Hle.
    unfold about in Hle. rewrite filter_app, length_app in Hle. fold (about i) in Hle.
    destruct (decide (i = id)) as [->|Hne].
    + change (filter _ (known p seen st)) with (about id (known p seen st)) in Hle.
      rewrite Hnone in Hle. etrans; [exact Hle|]. simpl. etrans; [apply length_filter|]. done.
    + change (filter _ [event]) with (about i [event]) in Hle. rewrite Hother in Hle by done.
      specialize (Honce st i). unfold about in *. simpl in Hle. lia.
  - intros st e i job0 He Hi Hjob. rewrite Hj in Hjob.
    apply (sublist_elem _ _ _ (Hk st)) in He.
    apply elem_of_app in He as [He| ->%list_elem_of_singleton].
    + apply lookup_insert_Some in Hjob as [[<- <-]|[Hne Hjob]]; [|by apply (Hfinal st)].
      by destruct (Hfinal st e id job He Hi Hid).
    + unfold event in Hi. rewrite event_job_of in Hi. injection Hi as <-.
      rewrite lookup_insert_eq in Hjob. by injection Hjob as <-.
  - intros k k' stream' job0 Hst Hdrop Hjob Hrun0 Hlt. rewrite Hpush in Hst.
    apply fmap_Some in Hst as (s & Hst & ->).
    assert (Hs' : buffer (push event s) = buffer s ++ [event] ∧ dropped_count s = 0%N).
    { revert Hdrop. unfold push. destruct (Hok _ s Hst) as (_ & _ & _ & _ & ->). simpl.
      destruct (_ <=? _); [unfold sat_add; lia|done]. }
    destruct Hs' as [Hbuf Hdrop'].
    assert (Hknown' : known p' seen (stream_name k) = known p seen (stream_name k) ++ [event]).
    { unfold known. rewrite Hpush, Hst. simpl. by rewrite Hbuf, <-app_assoc. }
    rewrite Hknown'. unfold about. rewrite filter_app.
    rewrite Hj in Hjob. apply lookup_insert_Some in Hjob as [[Heq <-]|[Hne Hjob]].
    + rewrite <-Heq. change (filter _ (known p seen ?st)) with (about id (known p seen st)).
      rewrite Hnone. simpl. unfold event. by rewrite filter_cons_True by apply event_job_of.
    + change (filter _ [event]) with (about (job_name k') [event]). rewrite Hother by done.
      rewrite app_nil_r. by eapply Hall.
Qed.

(** *** Requests and events *)

#[local] Instance quiet_preorder : PreOrder quiet.
Proof.
  split; [by intros p; split_and!|].
  intros p1 p2 p3 (Hj & Hs & Hd) (Hj' & Hs' & Hd'). split_and!; [by trans (jobs p2)| |lia].
  by trans (event_streams p2).
Qed.

Definition moves {A} (m : comp Server ProtocolError A) : Prop :=
  ∀ s, quiet (process s) (process (m s).1).

Lemma moves_bind {A B} (m : comp Server ProtocolError A) (f : A → comp Server ProtocolError B) :
  moves m → (∀ a, moves (f a)) → moves (m ≫= f).
Proof.
  intros Hm Hf s. rewrite comp_bind_run. specialize (Hm s).
  destruct (m s) as [s' [a|e|]]; simpl in *; [|done|done]. etrans; [done|]. apply Hf.
Qed.

Lemma moves_pure {A} (r : Server → outcome ProtocolError A) : moves (λ s, (s, r s)).
Proof. by intros s. Qed.

Lemma moves_lift {A} (r : outcome ProtocolError A) : moves (lift_outcome r).
Proof. by intros s. Qed.

Lemma moves_on_state {A} (m : comp Process ProtocolError A) :
  (∀ p, quiet p (m p).1) → moves (on_state m).
Proof. intros Hm s. apply Hm. Qed.

Lemma moves_ipc {A} (m : Server → Server * A) :
  (∀ s, process (m s).1 = process s) → moves (total m).
Proof. intros Hm s. simpl. by rewrite Hm. Qed.

Lemma quiet_fetch_add p : quiet p (fetch_add p).1.
Proof. unfold quiet, fetch_add. simpl. split_and!; done. Qed.

Lemma quiet_workers f p : quiet p (on_workers f p).
Proof. by unfold quiet. Qed.

Lemma quiet_insert_resource r p : quiet p (insert_resource new_v4 r p).1.
Proof.
  unfold insert_resource.
  destruct (fresh_resource_id_fields new_v4 (S (size (resources p))) p) as (Hp & _ & Hd).
  destruct (fresh_resource_id _ _ p) as [p1 [rid|]]; simpl in *; split_and!; simpl; by rewrite ?Hp.
Qed.

Lemma quiet_blob_result rid v p : quiet p (blob_result new_v4 rid v p).1.
Proof.
  unfold blob_result. rewrite lift_bind. destruct (of_sum _ _); [|done..].
  destruct (negb _); [done|]. rewrite total_bind. unfold store_blob.
  destruct (_ || _)%N; simpl; [done|]. split_and!; simpl; [done..|lia].
Qed.

Lemma quiet_close_job id p : quiet p (close_job_by_id id p).
Proof.
  destruct (close_job_by_id_effect id p) as (bl & _ & ->). split_and!; simpl; [|done..].
  apply delete_subseteq.
Qed.

Lemma quiet_close_resource id p : quiet p (close_resource id p).1.
Proof.
  unfold close_resource. destruct (resources p !! id); [|done].
  unfold close_jobs_for_resource. simpl.
  match goal with |- context [foldl _ ?p1 ?l] =>
    destruct (close_jobs_effect l p1 ∅) as (_ & Hl & _ & _ & Hstr & Hd) end.
  split_and!; simpl; [|by rewrite Hstr|by rewrite Hd].
  apply map_subseteq_spec. intros i job. rewrite Hl. by case_decide.
Qed.

Lemma quiet_clear p : quiet p (clear p).
Proof.
  assert (Hd : ∀ l p, uuid_draws (foldl (λ p job, drop_job job p) p l) = uuid_draws p).
  { induction l as [|job l IH]; intros q; simpl; [done|]. rewrite IH.
    unfold drop_job, signal. by destruct (cancellation job). }
  split_and!; simpl; [apply map_empty_subseteq..|by rewrite Hd].
Qed.

Lemma quiet_read_blob params p : quiet p (read_blob params p).1.
Proof. unfold read_blob. by repeat case_match. Qed.

Lemma quiet_same {A} (r : Process → outcome ProtocolError A) p : quiet p (p, r p).1.
Proof. done. Qed.

Lemma moves_resolve credentials : moves (resolve_credentials credentials).
Proof.
  unfold resolve_credentials. destruct credentials; [apply moves_pure..|].
  unfold resolve_secret.
  repeat first [apply moves_bind; [|intros ?] |apply moves_pure |apply moves_lift
    |apply moves_on_state, quiet_fetch_add |apply moves_ipc; intros; apply send_msg_process
    |apply moves_ipc; intros; apply recv_msg_process
    |case_match].
Qed.

Lemma dispatch_quiet net method_name params :
  method_name ∉ [JOB_START; JOB_STATUS; JOB_CANCEL; JOB_RESULT; EVENT_OPEN; EVENT_READ] →
  moves (dispatch net method_name params).
Proof.
  intros Hm. destruct method_name; try set_solver; cbn [dispatch]; unfold init, shutdown,
    open, ping, invoke, close, stream_read_blob, stream_close_blob, close_event, task_close;
    repeat first [apply moves_bind; [|intros ?] |apply moves_pure |apply moves_lift
      |apply moves_resolve |case_match
      |apply moves_on_state; intros; simpl;
       first [apply quiet_insert_resource |apply quiet_blob_result |apply quiet_close_job
         |apply quiet_close_resource |apply quiet_clear |apply quiet_read_blob
         |split_and!; simpl; [done..] |split_and!; simpl; [done|apply delete_subseteq|done]]].
Qed.

Lemma on_state_bind {A B} (m : comp Process ProtocolError A)
    (f : A → comp Server ProtocolError B) s :
  (on_state m ≫= f) s =
    let s' := {| ipc := ipc s; process := (m (process s)).1 |} in
    match (m (process s)).2 with
    | Ok a => f a s'
    | Err e => (s', Err e)
    | Panic => (s', Panic)
    end.
Proof. rewrite comp_bind_run. unfold on_state, zoom. simpl. by destruct (m (process s)) as [? []]. Qed.

(** A finished job and the event announcing it, together. *)
Lemma emit_finished ends id job p p1 seen :
  provider_inv p → events_inv p seen → jobs p !! id = Some job → job_state job = Running →
  finished ends id job p p1 → events_inv (emit_job_event id p1) seen.
Proof.
  intros Hp Hev Hid Hrun [(job' & Hj & [_ Hok] & _) _ _ Hstr Hd].
  unfold emit_job_event. rewrite Hj, lookup_insert_eq, broadcast_event_fmap.
  eapply (events_inv_finish p); simpl; [done|apply Hp|done|done| |done|by rewrite Hstr|done].
  intros Hrun'. rewrite Hrun' in Hok.
  destruct Hok as (_ & _ & c & w & _ & _ & Hnil & _). by rewrite lookup_nil in Hnil.
Qed.

Lemma poll_and_emit_events id p seen :
  provider_inv p → events_inv p seen → events_inv (poll_and_emit id p).1 seen.
Proof.
  intros Hp Hev. unfold poll_and_emit. rewrite total_bind.
  destruct (poll_job_effect new_v4 id p Hp) as [->|(job & c & p1 & -> & Hid & Hrun & _ & Hfin & _)];
    [done|]. simpl. by eapply emit_finished.
Qed.

(** What a request reads before it reaches the state. *)
Lemma dispatch_events net method_name params s seen :
  provider_inv (process s) → events_inv (process s) seen →
  events_inv (process (dispatch net method_name params s).1)
    (note_drained (drained method_name params (process s)) seen).
Proof.
  intros Hp Hev.
  destruct (decide (method_name ∈ [JOB_START; JOB_STATUS; JOB_CANCEL; JOB_RESULT; EVENT_OPEN;
    EVENT_READ])) as [Hin|Hq].
  2:{ replace (drained method_name params (process s)) with (@None (list N * list Value))
        by (unfold drained; destruct method_name; try done; set_solver).
      by eapply events_inv_quiet, Hev; apply dispatch_quiet. }
  rewrite !elem_of_cons, elem_of_nil in Hin.
  destruct Hin as [->|[->|[->|[->|[->|[->|[]]]]]]]; cbn [dispatch drained note_drained].
  - unfold start. rewrite lift_bind. destruct (parse_params params) as [ps|e|]; [|done..].
    rewrite on_state_bind.
    destruct (start_job_effect new_v4 ps (process s)) as
      [[e ->]|(rid & r & body & _ & _ & _ & _ & ->)]; [done|].
    simpl. match goal with |- context [insert_job ?i ?j ?q] =>
      destruct (insert_job_fields i j q) as (Hj & _ & _ & _ & Hs & Hd) end.
    eapply (events_inv_start (process s)); [done| |exact Hj|exact Hs|exact Hd]. done.
  - unfold status. rewrite lift_bind. destruct (parse_params params) as [id|e|]; [|done..].
    rewrite on_state_bind.
    pose proof (poll_and_emit_events id (process s) seen Hp Hev) as Hev'.
    destruct (poll_and_emit id (process s)) as [p1 [[]|e|]]; simpl in *; [|done..].
    rewrite on_state_bind. unfold job_status. rewrite gets_bind, lift_bind.
    by destruct (of_option _ _).
  - unfold cancel. rewrite lift_bind. destruct (parse_params params) as [id|e|]; [|done..].
    rewrite on_state_bind. pose proof (cancel_job_effect id (process s) Hp) as Heff.
    destruct (jobs (process s) !! id) as [job|] eqn:Hid; [|by rewrite Heff].
    case_decide as Hrun; [|by rewrite Heff].
    destruct Heff as (c & p1 & -> & _ & Hfin & _). simpl. by eapply emit_finished.
  - unfold task_result. rewrite lift_bind. destruct (parse_params params) as [id|e|]; [|done..].
    rewrite on_state_bind.
    pose proof (poll_and_emit_events id (process s) seen Hp Hev) as Hev'.
    destruct (poll_and_emit id (process s)) as [p1 [[]|e|]]; simpl in *; [|done..].
    rewrite on_state_bind. unfold job_result. rewrite gets_bind, lift_bind.
    destruct (of_option _ _) as [job|e|]; [|done..]. simpl.
    destruct (job_state job); simpl; [done| |done..]. by destruct (of_option _ _).
  - unfold open_event. rewrite lift_bind. destruct (parse_params params) as [ps|e|]; [|done..].
    rewrite on_state_bind.
    destruct (open_event_stream_effect new_v4 ps (process s)) as
      [[e ->]|(_ & st & _ & Hbuf & _ & Heq)]; [done|].
    simpl in Heq. rewrite Heq. simpl. by eapply (events_inv_open (process s)).
  - unfold read_event. rewrite lift_bind.
    destruct (parse_params params) as [ps|e|]; [|done..]. rewrite on_state_bind. simpl.
    unfold read_event_stream.
    destruct (event_streams (process s) !! er_stream_id ps) as [st|] eqn:Hst; simpl.
    + eapply (events_inv_read (process s)); [done|exact Hst| | | |reflexivity|reflexivity]; done.
    + destruct Hev as [? ? ? ? ? ?].
      assert (Hk : ∀ i, (if decide (i = er_stream_id ps) then seen i ++ [] else seen i) = seen i).
      { intros i. case_decide; [apply app_nil_r|done]. }
      split; unfold known in *; try setoid_rewrite Hk; done.
Qed.

Lemma run_events p seen : run p seen → events_inv p seen.
Proof.
  induction 1.
  - split; simpl.
    + intros id. rewrite lookup_empty. by intros [].
    + intros id. rewrite lookup_empty. by intros [].
    + intros st event id. unfold known. simpl. rewrite lookup_empty. set_solver.
    + intros st id. unfold known. simpl. rewrite lookup_empty. simpl. lia.
    + intros st event id job _ _. by rewrite lookup_empty.
    + intros k k' stream job. by rewrite lookup_empty.
  - by apply dispatch_events; [eapply provider_run_inv|].
  - eapply events_inv_quiet; [apply quiet_workers|done].
  - eapply events_inv_quiet; [apply quiet_workers|done].
  - eapply events_inv_quiet; [apply quiet_workers|done].
Qed.

(** C16: in every reachable state of the provider its tables are bounded (64 jobs, 64
    event streams whose buffers fit their capacities, 32 MiB of blobs), every job and
    blob belongs to an open resource, every job has the shape of its state (only a
    running job has a channel, whose worker is not cancelled; only a succeeded one a
    result, at 100 %), every worker that is still searching and not told to stop has
    a running job waiting for it, and searches a body that was checked; and no request
    makes a handler panic or loop. *)
Theorem provider_invariant p seen :
  run p seen →
  (size (jobs p) ≤ 64 ∧ size (event_streams p) ≤ 64 ∧
   (total_blob_bytes p <= 32 * 1024 * 1024)%N) ∧
  (∀ id blob, blobs p !! id = Some blob →
     is_Some (resources p !! blob_resource blob) ∧
     blob_offset blob ≤ length (blob_data blob) ∧ blob_closed blob = false) ∧
  (∀ id stream, event_streams p !! id = Some stream →
     1 ≤ capacity stream ∧ length (buffer stream) ≤ capacity stream ∧
     stream_closed stream = false) ∧
  (∀ id job, jobs p !! id = Some job →
     is_Some (resources p !! job_resource job) ∧
     match job_state job with
     | Running => progress_percent job = None ∧ job_result_ref job = None ∧
         ∃ c w, completion job = Some c ∧ cancellation job = Some c ∧
           workers p !! c = Some w ∧ cancelled w = false
     | Succeeded => completion job = None ∧ progress_percent job = Some percent_100 ∧
         is_Some (job_result_ref job)
     | Failed | Cancelled =>
         completion job = None ∧ progress_percent job = None ∧ job_result_ref job = None
     end) ∧
  (∀ c w, workers p !! c = Some w →
     (∃ body, search_body (worker_params w) = Ok body ∧
        build_request (lit "elasticsearch/search") (worker_params w) =
          Ok (Search (search_indices (worker_params w)) body)) ∧
     (alive w = true → cancelled w = false →
        ∃ id job, jobs p !! id = Some job ∧ job_state job = Running ∧
          completion job = Some c)) ∧
  (∀ net method_name params s, process s = p →
     (dispatch net method_name params s).2 ≠ Panic).
Proof.
  intros Hrun. pose proof (provider_run_inv p seen Hrun) as Hp. destruct Hp as [[Hbytes Hblob] [Hsize Hstream] Hj].
  pose proof Hj as [Hl Hs Hh Hsep Hw Ho]. split_and!; try done.
  - intros id stream Hst. by destruct (Hstream id stream Hst) as (_ & ? & ? & _ & ?).
  - intros c w Hc. destruct (Forall_lookup_1 _ _ _ _ Hw Hc) as [[body Hbody] _]. split.
    + exists body. split; [done|]. unfold build_request, execute_search.
      by rewrite Hbody.
    + intros Ha Hnc. destruct (Ho c w Hc) as (id & job & Hid & Hrunning & Hcanc); [done|].
      exists id, job. split_and!; [done..|].
      destruct (jobs_inv_running _ _ _ _ _ Hj Hid Hrunning)
        as (_ & _ & c' & _ & Hcomp & Hcanc' & _). congruence.
  - intros net m params s <-. apply dispatch_safe. by eapply provider_run_inv.
Qed.

(** C17: over a whole run, each event stream hands over and holds at most one completion
    event for a job; while the job is in the table the event says what the job is, and
    there is none while it runs; and a stream opened before the job was started, with
    no event dropped, has exactly one once the job has finished. *)
Theorem job_completion_events p seen st :
  run p seen →
  (∀ id, length (about id (known p seen st)) ≤ 1) ∧
  (∀ event id job, event ∈ known p seen st → event_job event = Some id →
     jobs p !! id = Some job → event = job_event id job ∧ job_state job ≠ Running) ∧
  (∀ k k' stream job, st = stream_name k → event_streams p !! st = Some stream →
     dropped_count stream = 0%N → jobs p !! job_name k' = Some job → k < k' →
     job_state job ≠ Running →
     about (job_name k') (known p seen st) = [job_event (job_name k') job]).
Proof.
  intros Hrun. destruct (run_events p seen Hrun) as [_ _ _ Honce Hfinal Hall].
  split_and!; [apply Honce|apply Hfinal|].
  intros k k' stream job -> Hst Hdrop Hjob Hlt Hr. by eapply Hall.
Qed.
End runs.

(** A run that opens a resource and a stream, starts a search, collects its result and
    reads the event. *)
Import EsDemo.
Definition demo_before : Server () :=
  demo_requests [(RESOURCE_OPEN, demo_open); (EVENT_OPEN, Str SEARCH_EVENT_KIND);
    (JOB_START, Array [Str [0%N]; Str (lit "elasticsearch/search/async"); demo_search])]
    demo_server.
Definition demo_after : Server () :=
  demo_requests [(JOB_STATUS, Str (lit "es-job-" ++ [2%N]))]
    {| ipc := ipc demo_before;
       process := worker_sends 0 (inr (Object [(lit "version",
                    Object [(lit "number", Str (lit "9.1.0"))])])) (process demo_before) |}.

Lemma demo_run : run (process demo_after) (λ _, []).
Proof.
  eapply (run_request {| ipc := ipc demo_before; process := worker_sends 0 _ _ |} _ demo_net JOB_STATUS).
  eapply run_worker_finds with (w := {| worker_resource := ();
    worker_params := demo_search; sent := None; alive := true; cancelled := false |})
    (net := demo_net); [|by vm_compute..].
  eapply (run_request _ (λ _, []) demo_net JOB_START).
  eapply (run_request _ (λ _, []) demo_net EVENT_OPEN).
  eapply (run_request demo_server (λ _, []) demo_net RESOURCE_OPEN).
  apply run_new.
Qed.

Lemma provider_invariant_witness :
  size (jobs (process demo_after)) ≤ 64 ∧ total_blob_bytes (process demo_after) = 5%N.
Proof.
  split; [|by vm_compute].
  exact (proj1 (proj1 (provider_invariant _ _ demo_run))).
Defined.

Definition demo_job : ProviderJob :=
  {| job_resource := [0%N]; job_state := Succeeded; progress_percent := Some 100%N;
     job_message := Some (lit "search completed");
     job_result_ref := Some (Blob (lit "es-blob-" ++ [3%N])); completion := None;
     cancellation := Some 0 |}.
Definition demo_stream : ProviderEventStream :=
  {| stream_kind := SEARCH_EVENT_KIND; buffer := [job_event (job_name 2) demo_job];
     capacity := 2; dropped_count := 0; stream_closed := false |}.

Lemma demo_job_found : jobs (process demo_after) !! job_name 2 = Some demo_job.
Proof. by vm_compute. Qed.
Lemma demo_stream_found :
  event_streams (process demo_after) !! stream_name 1 = Some demo_stream.
Proof. by vm_compute. Qed.

Lemma job_completion_events_witness :
  about (job_name 2) (known (process demo_after) (λ _, []) (stream_name 1)) =
    [job_event (job_name 2) demo_job].
Proof.
  eapply (proj2 (proj2 (job_completion_events _ _ (stream_name 1) demo_run)) 1 2 demo_stream);
    [reflexivity|apply demo_stream_found|reflexivity|apply demo_job_found|lia|discriminate].
Defined.
