(* ===== verification/EsDelivery.v ===== *)
(** * What clients of the Elasticsearch provider receive

    Large results are read in pieces from a blob, and events from a bounded queue per
    stream.  Both are compared with what they stand for: the bytes stored, and the
    sequence of events broadcast since the stream was opened. *)

From S2P Require Import Prelude Text JsonValue EsClient EsState EsServer EsRuns.

Section blobs.
Context `{EsProtocol} {Resource : Type} (new_v4 : nat → list N).
Abbreviation Process := (Process Resource).
Implicit Types p : Process.

(** A client reading a blob with these sizes, one after the other. *)
Fixpoint read_blobs (id : list N) (sizes : list N)
    : comp Process ProtocolError (list BlobReadResult) :=
  match sizes with
  | [] => mret []
  | n :: sizes =>
      r ← read_blob {| br_blob_id := id; effective_max_bytes := n |};
      rs ← read_blobs id sizes;
      mret (r :: rs)
  end.

(** What it should receive while [data] is left. *)
Fixpoint pieces (sizes : list N) (data : bytes) : list bytes :=
  match sizes with
  | [] => []
  | n :: sizes => take (N.to_nat n) data :: pieces sizes (drop (N.to_nat n) data)
  end.

Fixpoint replies (sizes : list N) (data : bytes) : list BlobReadResult :=
  match sizes with
  | [] => []
  | n :: sizes =>
      {| br_data := base64 (take (N.to_nat n) data);
         bytes_read := N.of_nat (length (take (N.to_nat n) data));
         br_done := negb (bool_decide (data = [])) && (N.of_nat (length data) <=? n)%N |}
      :: replies sizes (drop (N.to_nat n) data)
  end.

Lemma read_blobs_replies id sizes p blob :
  blobs p !! id = Some blob → blob_closed blob = false →
  blob_offset blob ≤ length (blob_data blob) →
  (N.of_nat (length (blob_data blob)) <= u32_max)%N → Forall (λ n, n <= u32_max)%N sizes →
  ∃ p', read_blobs id sizes p = (p', Ok (replies sizes (drop (blob_offset blob) (blob_data blob)))).
Proof.
  intros Hid Hopen Hoff Hlen Hsizes. revert p blob Hid Hopen Hoff Hlen.
  induction Hsizes as [|n sizes Hn Hsizes IH]; intros p blob Hid Hopen Hoff Hlen; [by eexists|].
  cbn [read_blobs replies]. rewrite comp_bind_run.
  unfold read_blob. cbn [br_blob_id effective_max_bytes]. rewrite Hid, Hopen. cbn [fst snd].
  set (len := length (blob_data blob)) in *. set (o := blob_offset blob) in *.
  rewrite (Nat.min_l o len) by done.
  assert (Hstop : N.to_nat (sat_add u64_max (N.of_nat o) n) `min` len = (o + N.to_nat n) `min` len)
    by (unfold sat_add; lia).
  rewrite Hstop. set (stop := (o + N.to_nat n) `min` len).
  assert (Hle : o ≤ stop ≤ len) by (unfold stop; lia).
  rewrite get_slice_ok by lia. cbn [mbind outcome_bind].
  rewrite comp_bind_run.
  match goal with |- context [read_blobs id sizes ?q] =>
    destruct (IH q {| blob_resource := blob_resource blob; blob_data := blob_data blob;
                      blob_offset := stop; blob_closed := false |}) as [p' ->] end.
  { simpl. by rewrite lookup_insert_eq. }
  { done. } { simpl. fold len. lia. } { done. }
  cbn [fst snd blob_offset blob_data]. exists p'. unfold mret, comp_ret. f_equal. f_equal.
  assert (Htake : take (stop - o) (drop o (blob_data blob)) =
                  take (N.to_nat n) (drop o (blob_data blob))).
  { destruct (decide (o + N.to_nat n ≤ len)).
    - f_equal. unfold stop. lia.
    - rewrite !take_ge; [done|..]; rewrite length_drop; fold len; unfold stop; lia. }
  f_equal; [f_equal|].
  - by rewrite Htake.
  - rewrite length_take, length_drop. fold len. rewrite N.mod_small; unfold stop; lia.
  - rewrite N.mod_small by (unfold stop; lia).
    rewrite length_drop. fold len.
    destruct (decide (drop o (blob_data blob) = [])) as [He|He].
    + rewrite (bool_decide_eq_true_2 _ He). apply (f_equal length) in He.
      rewrite length_drop in He. fold len in He. simpl in He.
      replace (stop - o) with 0 by lia. by rewrite andb_false_r.
    + rewrite (bool_decide_eq_false_2 _ He).
      assert (o < len).
      { destruct (decide (o < len)); [done|]. destruct He. apply drop_ge. fold len. lia. }
      cbn [negb andb].
      destruct (N.leb_spec (N.of_nat (len - o)) n) as [Hge|Hlt].
      * rewrite bool_decide_eq_true_2 by (unfold stop; lia). cbn [andb].
        apply N.ltb_lt. unfold stop. lia.
      * rewrite bool_decide_eq_false_2 by (unfold stop; lia). done.
  - f_equal. rewrite drop_drop.
    destruct (decide (o + N.to_nat n ≤ len)).
    + f_equal. unfold stop. lia.
    + rewrite !drop_ge; [done|..]; fold len; unfold stop; lia.
Qed.

Definition total_size (sizes : list N) : N := foldr N.add 0%N sizes.

Lemma pieces_concat sizes data :
  concat (pieces sizes data) = take (N.to_nat (total_size sizes)) data.
Proof.
  revert data. induction sizes as [|n sizes IH]; intros data; [done|].
  cbn [pieces concat total_size foldr]. rewrite IH. fold (total_size sizes).
  rewrite N2Nat.inj_add. by rewrite take_take_drop.
Qed.

Lemma replies_data sizes data : br_data <$> replies sizes data = base64 <$> pieces sizes data.
Proof. revert data. induction sizes as [|n sizes IH]; intros data; simpl; [done|]. by rewrite IH. Qed.

Lemma replies_done_empty sizes : filter (λ r, br_done r = true) (replies sizes []) = [].
Proof.
  induction sizes as [|n sizes IH]; [done|]. cbn [replies]. rewrite drop_nil.
  rewrite filter_cons_False; [done|]. by simpl.
Qed.

Lemma replies_done sizes data :
  data ≠ [] → Forall (λ n, 1 <= n)%N sizes →
  length (filter (λ r, br_done r = true) (replies sizes data)) =
    if (N.of_nat (length data) <=? total_size sizes)%N then 1 else 0.
Proof.
  intros Hne Hsizes. revert data Hne.
  induction Hsizes as [|n sizes Hn Hsizes IH]; intros data Hne.
  { destruct data as [|b data]; [done|]. cbn [replies total_size foldr length].
    destruct (N.leb_spec (N.of_nat (S (length data))) 0); [lia|done]. }
  cbn [replies total_size foldr]. fold (total_size sizes).
  rewrite (bool_decide_eq_false_2 _ Hne). cbn [negb andb].
  destruct (N.leb_spec (N.of_nat (length data)) n) as [Hle|Hlt].
  - rewrite filter_cons_True by done. rewrite drop_ge by lia. rewrite replies_done_empty.
    destruct (N.leb_spec (N.of_nat (length data)) (n + total_size sizes)); [done|lia].
  - rewrite filter_cons_False by done. rewrite IH.
    + rewrite length_drop.
      destruct (N.leb_spec (N.of_nat (length data - N.to_nat n)) (total_size sizes)),
        (N.leb_spec (N.of_nat (length data)) (n + total_size sizes)); lia.
    + intros He. apply (f_equal length) in He. rewrite length_drop in He. simpl in He. lia.
Qed.

(** A result handed out as a blob is the encoded value: reading it in any sizes
    always succeeds, the pieces in order are the data from its start, each reply counts
    its bytes, and once the sizes add up to the data exactly one reply says it is done,
    and none does before. *)
Theorem blob_reads resource_id value p p1 id data sizes :
  blob_result new_v4 resource_id value p = (p1, Ok (Blob id)) → to_vec value = inr data →
  Forall (λ n, 1 <= n <= u32_max)%N sizes →
  ∃ p2 rs chunks, read_blobs id sizes p1 = (p2, Ok rs) ∧
    br_data <$> rs = base64 <$> chunks ∧ bytes_read <$> rs = (λ c, N.of_nat (length c)) <$> chunks ∧
    concat chunks = take (N.to_nat (total_size sizes)) data ∧
    (data ≠ [] → length (filter (λ r, br_done r = true) rs) =
       if (N.of_nat (length data) <=? total_size sizes)%N then 1 else 0).
Proof.
  intros Hblob Hdata Hsizes.
  unfold blob_result in Hblob. rewrite lift_bind, Hdata in Hblob. cbn [of_sum] in Hblob.
  destruct (negb _); [done|]. rewrite total_bind in Hblob. unfold store_blob in Hblob.
  destruct (_ || _)%N eqn:Hguard; [done|]. cbn [fst snd draw] in Hblob.
  injection Hblob as <- <-. bool_to_prop.
  destruct (read_blobs_replies (lit "es-blob-" ++ new_v4 (uuid_draws p)) sizes
    (on_blobs <[lit "es-blob-" ++ new_v4 (uuid_draws p) :=
       {| blob_resource := resource_id; blob_data := data; blob_offset := 0;
          blob_closed := false |}]> (draw new_v4 p).1)
    {| blob_resource := resource_id; blob_data := data; blob_offset := 0;
       blob_closed := false |}) as [p2 Heq].
  { simpl. by rewrite lookup_insert_eq. }
  { done. } { simpl. lia. }
  { unfold MAX_TOTAL_BLOB_BYTES in *. cbn [blob_data]. lia. }
  { eapply Forall_impl; [exact Hsizes|]. simpl. lia. }
  exists p2, (replies sizes data), (pieces sizes data). split_and!.
  - exact Heq.
  - apply replies_data.
  - clear. revert data. induction sizes as [|n sizes IH]; intros data; simpl; [done|]. by rewrite IH.
  - apply pieces_concat.
  - intros Hne. apply replies_done; [done|]. eapply Forall_impl; [exact Hsizes|]. simpl. lia.
Qed.
End blobs.

Import EsDemo.

Lemma blob_reads_witness :
  ∃ p2 rs, read_blobs (lit "es-blob-" ++ [0%N]) [2; 2; 9; 4]%N
             (blob_result (λ n, [N.of_nat n]) [7%N] Null (process demo_server)).1 = (p2, Ok rs) ∧
    concat (br_data <$> rs) = lit "{raw}" ∧ br_done <$> rs = [false; false; true; false].
Proof.
  destruct (blob_reads (λ n, [N.of_nat n]) [7%N] Null (process demo_server)
    (blob_result (λ n, [N.of_nat n]) [7%N] Null (process demo_server)).1
    (lit "es-blob-" ++ [0%N]) (lit "{raw}") [2; 2; 9; 4]%N)
    as (p2 & rs & chunks & Hreads & Hdata & _ & Hconcat & _);
    [by vm_compute|by vm_compute|by repeat constructor; vm_compute|].
  exists p2, rs. split; [exact Hreads|]. split.
  - rewrite Hdata. simpl. rewrite list_fmap_id. exact Hconcat.
  - vm_compute in Hreads. by injection Hreads as _ <-.
Defined.

(** ** Event streams *)

Section streams.
Context `{EsProtocol} {Resource : Type} (new_v4 : nat → list N).
Abbreviation Process := (Process Resource).
Implicit Types p : Process.

(** The life of a stream: events are broadcast, and some are read. *)
Inductive stream_op : Type :=
  | Emit (event : Value)
  | Drain (n : N).

Definition offered (ops : list stream_op) : list Value :=
  omap (λ op, match op with Emit event => Some event | Drain _ => None end) ops.

Fixpoint stream_run (id : list N) (ops : list stream_op) p : Process * list Value :=
  match ops with
  | [] => (p, [])
  | Emit event :: ops => stream_run id ops (broadcast_event event p)
  | Drain n :: ops =>
      let '(p, r) := read_event_stream {| er_stream_id := id; effective_max_events := n |} p in
      let '(p, events) := stream_run id ops p in
      (p, er_events r ++ events)
  end.

Lemma sublist_full {A} (l k : list A) : l `sublist_of` k → length k ≤ length l → l = k.
Proof.
  induction 1 as [|x l k Hsub IH|x l k Hsub IH]; simpl; intros Hlen; [done|f_equal; auto with lia|].
  apply sublist_length in Hsub. lia.
Qed.

(** [got] was read and [st] is what is left, after the events [es]. *)
Record queue_ok (st : ProviderEventStream) (got es : list Value) : Prop := {
  queue_sublist : got ++ buffer st `sublist_of` es;
  queue_suffix : buffer st `suffix_of` es;
  queue_count : dropped_count st =
    N.min u64_max (N.of_nat (length es - length (got ++ buffer st)))
}.

Lemma queue_ok_push st got es event :
  stream_ok st → queue_ok st got es → queue_ok (push event st) got (es ++ [event]).
Proof.
  intros (_ & Hcap & _ & _ & Hopen) [Hsub Hsuf Hcount]. unfold push. rewrite Hopen.
  pose proof (sublist_length _ _ Hsub) as Hlen. rewrite length_app in Hlen.
  destruct (Nat.leb_spec (capacity st) (length (buffer st))) as [Hfull|Hroom].
  - destruct (buffer st) as [|old rest] eqn:Hbuf; [simpl in Hfull; lia|].
    rewrite length_app in Hcount. simpl in *.
    split; simpl.
    + rewrite app_assoc. apply sublist_app; [|done]. etrans; [|exact Hsub].
      apply sublist_app; [done|]. by apply sublist_cons.
    + apply suffix_app. by eapply suffix_cons_l.
    + rewrite Hcount, !length_app. simpl. unfold sat_add. lia.
  - split; simpl.
    + rewrite app_assoc. by apply sublist_app.
    + by apply suffix_app.
    + rewrite Hcount, !length_app. simpl. f_equal. lia.
Qed.

Lemma stream_run_queue id ops p st got es :
  provider_inv p → event_streams p !! id = Some st → queue_ok st got es →
  ∃ st', event_streams (stream_run id ops p).1 !! id = Some st' ∧ stream_ok st' ∧
    capacity st' = capacity st ∧
    queue_ok st' (got ++ (stream_run id ops p).2) (es ++ offered ops).
Proof.
  revert p st got es. induction ops as [|[event|n] ops IH]; intros p st got es Hp Hid Hq.
  - exists st. simpl. rewrite !app_nil_r. split_and!; [done| |done|done].
    by eapply (proj2 (inv_streams _ Hp)).
  - pose proof (proj2 (inv_streams _ Hp) id st Hid) as Hok.
    cbn [stream_run]. rewrite broadcast_event_fmap.
    destruct (IH (on_streams (fmap (to_search_streams event)) p) (push event st) got
                (es ++ [event])) as (st' & ? & ? & Hcap & Hq').
    + destruct Hp as [? Hs ?]. split; simpl; [done| |done]. apply streams_inv_fmap; [|done].
      intros s Hs0. unfold to_search_streams. case_decide; [by apply push_stream_ok|done].
    + simpl. rewrite lookup_fmap, Hid. simpl. unfold to_search_streams.
      by rewrite decide_True by apply Hok.
    + by apply queue_ok_push.
    + exists st'. split_and!; [done|done| |].
      * rewrite Hcap. apply push_open, Hok.
      * replace (es ++ offered (Emit event :: ops)) with ((es ++ [event]) ++ offered ops)
          by (by rewrite <-app_assoc). done.
  - cbn [stream_run].
    pose proof (read_event_stream_inv {| er_stream_id := id; effective_max_events := n |} p Hp)
      as Hp'.
    unfold read_event_stream in *. cbn [er_stream_id] in *. rewrite Hid in *. cbn [fst] in Hp'.
    cbn [effective_max_events] in *.
    set (count := N.to_nat _) in *.
    match goal with |- context [stream_run id ops ?q] =>
      destruct (IH q {| stream_kind := stream_kind st; buffer := drop count (buffer st);
                        capacity := capacity st; dropped_count := dropped_count st;
                        stream_closed := stream_closed st |} (got ++ take count (buffer st)) es)
        as (st' & ? & ? & Hcap & Hq') end.
    + done.
    + simpl. by rewrite lookup_insert_eq.
    + destruct Hq as [Hsub Hsuf Hcount].
      assert (Heq : (got ++ take count (buffer st)) ++ drop count (buffer st) = got ++ buffer st)
        by (by rewrite <-app_assoc, take_drop).
      split; simpl; [by rewrite Heq| |by rewrite Heq].
      etrans; [|exact Hsuf]. exists (take count (buffer st)). by rewrite take_drop.
    + destruct (stream_run id ops _) as [p' events]. cbn [fst snd] in *.
      exists st'. split_and!; [done..|]. by rewrite app_assoc.
Qed.

(** C18: from the moment it is opened a stream refines a bounded queue: whatever is
    broadcast and read, in any order, the events read followed by those held are events
    broadcast, in that order and none twice; those held are the latest ones, at most the
    capacity; and the drop count is the number of events missing, up to its width, so
    that with a count of zero nothing is missing. *)
Theorem event_stream_queue params p p1 id ops :
  provider_inv p → open_event_stream new_v4 params p = (p1, Ok id) →
  ∃ st, event_streams (stream_run id ops p1).1 !! id = Some st ∧
    let got := (stream_run id ops p1).2 in
    got ++ buffer st `sublist_of` offered ops ∧ buffer st `suffix_of` offered ops ∧
    length (buffer st) ≤ capacity st ∧
    dropped_count st =
      N.min u64_max (N.of_nat (length (offered ops) - length (got ++ buffer st))) ∧
    (dropped_count st = 0%N → got ++ buffer st = offered ops).
Proof.
  intros Hp Hopen.
  destruct (open_event_stream_effect new_v4 params p) as [[e He]|(Hsize & st & Hok & Hbuf & Hdrop & Heq)];
    [by rewrite He in Hopen|].
  pose proof (open_event_stream_safe new_v4 params p Hp) as [Hp1 _].
  cbv zeta in Heq. generalize dependent (lit "es-stream-" ++ new_v4 (uuid_draws p)).
  intros sid Heq. rewrite Heq in *. injection Hopen as <- <-. simpl in Hp1.
  destruct (stream_run_queue sid ops _ st [] [] Hp1)
    as (st' & Hst' & Hok' & _ & [Hsub Hsuf Hcount]).
  { simpl. by rewrite lookup_insert_eq. }
  { split; rewrite Hbuf; [done|done|by rewrite Hdrop]. }
  rewrite ?app_nil_l in *. exists st'. split; [exact Hst'|]. split_and!; [done|done| |done|].
  - by destruct Hok' as (_ & _ & ? & _).
  - intros Hzero. rewrite Hzero in Hcount.
    eapply sublist_full; [exact Hsub|]. lia.
Qed.
End streams.

Definition demo_opened : Process () := process (demo_requests [(RESOURCE_OPEN, demo_open)] demo_server).
Definition demo_ops : list stream_op :=
  [Emit (Str [1%N]); Emit (Str [2%N]); Drain 1; Emit (Str [3%N]); Emit (Str [4%N]); Drain 5].

Lemma event_stream_queue_witness :
  ∃ p1 id st, open_event_stream new_v4 {| eo_kind := SEARCH_EVENT_KIND; eo_conn_id := None;
                                          eo_capacity := None |} demo_opened = (p1, Ok id) ∧
    (stream_run id demo_ops p1).2 = [Str [1%N]; Str [3%N]; Str [4%N]] ∧
    dropped_count st = 1%N ∧ length (buffer st) ≤ capacity st.
Proof.
  destruct (event_stream_queue new_v4
    {| eo_kind := SEARCH_EVENT_KIND; eo_conn_id := None; eo_capacity := None |} demo_opened
    (open_event_stream new_v4 {| eo_kind := SEARCH_EVENT_KIND; eo_conn_id := None;
                                 eo_capacity := None |} demo_opened).1
    (lit "es-stream-" ++ [1%N]) demo_ops) as (st & Hst & _ & _ & Hlen & _).
  - eapply provider_run_inv, (run_request demo_server (λ _, []) demo_net RESOURCE_OPEN), run_new.
  - by vm_compute.
  - eexists _, (lit "es-stream-" ++ [1%N]), st. split; [by vm_compute|].
    split; [by vm_compute|]. split; [|exact Hlen].
    vm_compute in Hst. by injection Hst as <-.
Defined.
