(* ===== verification/EsSession.v ===== *)
(** * The Elasticsearch provider's side of the connection

    Which requests are answered, and what a request that fails leaves behind. *)

From S2P Require Import Prelude Text JsonValue EsClient EsState EsServer EsRuns.

(** serde_json turns every result of the provider into JSON. *)
Class SerializeTotal `{EsCodec} := {
  open_serializes : ∀ x : ResourceOpenResult, is_ok (serialize x) = true;
  invoke_serializes : ∀ x, is_ok (serialize (H:=invoke_value) x) = true;
  blob_read_serializes : ∀ x : BlobReadResult, is_ok (serialize x) = true;
  event_open_serializes : ∀ x, is_ok (serialize (H:=event_open_value) x) = true;
  event_read_serializes : ∀ x : EventReadResult, is_ok (serialize x) = true;
  job_start_serializes : ∀ x : JobStartResult, is_ok (serialize x) = true;
  job_status_serializes : ∀ x : JobStatusResult, is_ok (serialize x) = true;
  job_result_serializes : ∀ x, is_ok (serialize (H:=job_result_value) x) = true
}.

Section errors.
Context `{EsCodec} {Resource : Type} `{!EsEnv Resource}.
Abbreviation Process := (Process Resource).
Abbreviation Server := (Server Resource).
Implicit Types (p : Process) (s : Server).

(** Everything but the counters of identifiers. *)
Definition same_tables p p' : Prop :=
  resources p' = resources p ∧ blobs p' = blobs p ∧ jobs p' = jobs p ∧
  event_streams p' = event_streams p ∧ workers p' = workers p.

Lemma same_tables_refl p : same_tables p p.
Proof. done. Qed.

Lemma same_tables_trans p1 p2 p3 : same_tables p1 p2 → same_tables p2 p3 → same_tables p1 p3.
Proof. intros (? & ? & ? & ? & ?) (? & ? & ? & ? & ?). split_and!; congruence. Qed.

(** A step that leaves the tables alone, and one that does so when it fails. *)
Definition keeps_tables {A} (m : comp Server ProtocolError A) : Prop :=
  ∀ s, same_tables (process s) (process (m s).1).
Definition fails_clean {A} (m : comp Server ProtocolError A) : Prop :=
  ∀ s, is_ok (m s).2 = false → same_tables (process s) (process (m s).1).
Definition succeeds {A} (m : comp Server ProtocolError A) : Prop :=
  ∀ s, is_ok (m s).2 = true.

Lemma keeps_fails_clean {A} (m : comp Server ProtocolError A) : keeps_tables m → fails_clean m.
Proof. by intros Hm s _. Qed.

Lemma fails_clean_bind {A B} (m : comp Server ProtocolError A)
    (f : A → comp Server ProtocolError B) :
  keeps_tables m → (∀ a, fails_clean (f a)) → fails_clean (m ≫= f).
Proof.
  intros Hm Hf s. rewrite comp_bind_run. specialize (Hm s).
  destruct (m s) as [s1 [a|e|]]; simpl in *; [|done|done].
  intros Herr. eapply same_tables_trans; [done|]. by apply Hf.
Qed.

Lemma fails_clean_then {A B} (m : comp Server ProtocolError A)
    (f : A → comp Server ProtocolError B) :
  fails_clean m → (∀ a, succeeds (f a)) → fails_clean (m ≫= f).
Proof.
  intros Hm Hf s. rewrite comp_bind_run. specialize (Hm s).
  destruct (m s) as [s1 [a|e|]]; simpl in *; [by rewrite Hf|by auto|by auto].
Qed.

Lemma keeps_tables_bind {A B} (m : comp Server ProtocolError A)
    (f : A → comp Server ProtocolError B) :
  keeps_tables m → (∀ a, keeps_tables (f a)) → keeps_tables (m ≫= f).
Proof.
  intros Hm Hf s. rewrite comp_bind_run. specialize (Hm s).
  destruct (m s) as [s1 [a|e|]]; simpl in *; [|done|done].
  eapply same_tables_trans; [done|apply Hf].
Qed.

Lemma keeps_tables_pure {A} (r : Server → outcome ProtocolError A) : keeps_tables (λ s, (s, r s)).
Proof. by intros s. Qed.

Lemma keeps_tables_ipc {A} (m : Server → Server * A) :
  (∀ s, process (m s).1 = process s) → keeps_tables (total m).
Proof. intros Hm s. simpl. by rewrite Hm. Qed.

Lemma keeps_tables_state {A} (m : comp Process ProtocolError A) :
  (∀ p, same_tables p (m p).1) → keeps_tables (on_state m).
Proof. intros Hm s. apply Hm. Qed.

Lemma fails_clean_state {A} (m : comp Process ProtocolError A) :
  (∀ p, is_ok (m p).2 = false → same_tables p (m p).1) → fails_clean (on_state m).
Proof. intros Hm s. apply Hm. Qed.

Lemma succeeds_lift {A} (r : outcome ProtocolError A) : is_ok r = true → succeeds (lift_outcome r).
Proof. by intros Hr s. Qed.

Lemma succeeds_state {A} (m : comp Process ProtocolError A) :
  (∀ p, is_ok (m p).2 = true) → succeeds (on_state m).
Proof. intros Hm s. apply Hm. Qed.

Lemma succeeds_bind {A B} (m : comp Server ProtocolError A)
    (f : A → comp Server ProtocolError B) :
  succeeds m → (∀ a, succeeds (f a)) → succeeds (m ≫= f).
Proof.
  intros Hm Hf s. rewrite comp_bind_run. specialize (Hm s).
  destruct (m s) as [s1 [a|e|]]; simpl in *; [apply Hf|done|done].
Qed.

Lemma fresh_same fuel p : same_tables p (fresh_resource_id new_v4 fuel p).1.
Proof.
  destruct (fresh_resource_id_fields new_v4 fuel p) as (Hp & Hw & _).
  unfold same_tables. by rewrite Hp, Hw.
Qed.

Lemma insert_resource_clean r p :
  is_ok (insert_resource new_v4 r p).2 = false → same_tables p (insert_resource new_v4 r p).1.
Proof.
  unfold insert_resource. pose proof (fresh_same (S (size (resources p))) p).
  destruct (fresh_resource_id _ _ p) as [p1 [rid|]]; [done|by intros _].
Qed.

Lemma blob_result_clean rid v p :
  is_ok (blob_result new_v4 rid v p).2 = false → same_tables p (blob_result new_v4 rid v p).1.
Proof.
  unfold blob_result. rewrite lift_bind. destruct (of_sum _ _); [|done..].
  destruct (negb _); [done|]. rewrite total_bind. unfold store_blob.
  by destruct (_ || _)%N.
Qed.

Lemma read_blob_clean params p :
  provider_inv p → is_ok (read_blob params p).2 = false → same_tables p (read_blob params p).1.
Proof.
  intros Hp. pose proof (read_blob_safe params p Hp) as [_ Hnp].
  unfold read_blob in *. destruct (blobs p !! _) as [blob|]; [|done].
  destruct (blob_closed blob); [done|]. simpl in *.
  unfold get_slice in *. by destruct ((_ <=? _) && (_ <=? length (blob_data blob))).
Qed.

Lemma start_job_clean params p :
  is_ok (start_job new_v4 params p).2 = false → same_tables p (start_job new_v4 params p).1.
Proof.
  by destruct (start_job_effect new_v4 params p) as [[e ->]|(? & ? & ? & _ & _ & _ & _ & ->)].
Qed.

Lemma open_event_stream_clean params p :
  is_ok (open_event_stream new_v4 params p).2 = false →
  same_tables p (open_event_stream new_v4 params p).1.
Proof.
  destruct (open_event_stream_effect new_v4 params p) as [[e ->]|(_ & st & _ & _ & _ & Heq)];
    [done|]. cbv zeta in Heq. by rewrite Heq.
Qed.

Lemma close_resource_clean id p :
  (close_resource id p).2 = false → same_tables p (close_resource id p).1.
Proof. unfold close_resource. by destruct (resources p !! id). Qed.

Lemma cancel_clean id p :
  is_ok (cancel_job id p).2 = false → same_tables p (cancel_job id p).1.
Proof. unfold cancel_job. destruct (jobs p !! id); [|done]. by case_decide. Qed.

Lemma resolve_credentials_clean credentials : keeps_tables (resolve_credentials credentials).
Proof.
  unfold resolve_credentials, resolve_secret. destruct credentials; [apply keeps_tables_pure..|].
  repeat first [apply keeps_tables_bind; [|intros ?] |apply keeps_tables_pure
    |apply keeps_tables_state; intros; split_and!; reflexivity
    |apply keeps_tables_ipc; intros; apply send_msg_process
    |apply keeps_tables_ipc; intros; apply recv_msg_process |case_match].
Qed.

Lemma status_clean params s :
  (∀ x : JobStatusResult, is_ok (serialize x) = true) → provider_inv (process s) →
  is_ok (status params s).2 = false → same_tables (process s) (process (status params s).1).
Proof.
  intros Hser Hp. unfold status. rewrite lift_bind.
  destruct (parse_params params) as [id|e|]; [|done..]. rewrite on_state_bind.
  unfold poll_and_emit. rewrite total_bind.
  destruct (poll_job_effect new_v4 id (process s) Hp)
    as [->|(job & c & p1 & -> & Hid & _ & _ & Hfin & _)]; simpl.
  - rewrite on_state_bind. unfold job_status. rewrite gets_bind, lift_bind. simpl.
    destruct (of_option _ _) as [job|e|]; simpl; [|done..]. by rewrite Hser.
  - rewrite on_state_bind. unfold job_status. rewrite gets_bind, lift_bind.
    destruct Hfin as [(job' & Hj & _) _ _ _ _]. simpl.
    replace (jobs (emit_job_event id p1) !! id) with (Some job'); [simpl; by rewrite Hser|].
    unfold emit_job_event. rewrite Hj, lookup_insert_eq, broadcast_event_fmap. simpl.
    by rewrite Hj, lookup_insert_eq.
Qed.

Lemma succeeds_clean {A} (m : comp Server ProtocolError A) : succeeds m → fails_clean m.
Proof. intros Hm s. by rewrite Hm. Qed.

Lemma keeps_tables_lift {A} (r : outcome ProtocolError A) : keeps_tables (lift_outcome r).
Proof. by intros s. Qed.

Lemma keeps_tables_gets {A} (f : Server → A) : keeps_tables (gets f).
Proof. by intros s. Qed.

Lemma succeeds_ret {A} (a : A) : succeeds (mret a).
Proof. by intros s. Qed.

Hint Resolve keeps_tables_pure keeps_tables_lift keeps_tables_gets resolve_credentials_clean : helper.
Hint Resolve keeps_fails_clean succeeds_lift succeeds_ret : helper.
Hint Resolve open_serializes invoke_serializes blob_read_serializes event_open_serializes
  event_read_serializes job_start_serializes job_status_serializes job_result_serializes : helper.

(** A handler checks first, then acts once, and what is left cannot fail. *)
Ltac succeeds_steps :=
  repeat first [solve [auto with helper] |apply succeeds_bind; [|intros ?]
    |apply succeeds_state; by repeat case_match].
Ltac clean_steps :=
  repeat first
    [apply fails_clean_then; [|solve [intros ?; succeeds_steps]]
    |apply fails_clean_bind; [solve [auto with helper]|intros ?]
    |solve [auto with helper]
    |case_match].

Lemma open_clean `{!SerializeTotal} net params : fails_clean (open net params).
Proof. unfold open. clean_steps. apply fails_clean_state, insert_resource_clean. Qed.

Lemma invoke_clean `{!SerializeTotal} net params : fails_clean (invoke net params).
Proof. unfold invoke. clean_steps. apply fails_clean_state, blob_result_clean. Qed.

Lemma start_clean `{!SerializeTotal} params : fails_clean (start params).
Proof. unfold start. clean_steps. apply fails_clean_state, start_job_clean. Qed.

Lemma open_event_clean `{!SerializeTotal} params : fails_clean (open_event params).
Proof. unfold open_event. clean_steps. apply fails_clean_state, open_event_stream_clean. Qed.

Lemma cancel_handler_clean params : fails_clean (cancel params).
Proof. unfold cancel. clean_steps. apply fails_clean_state, cancel_clean. Qed.

Lemma close_clean params : fails_clean (close params).
Proof.
  intros s. unfold close. rewrite lift_bind. destruct (parse_params params) as [id|e|]; [|done..].
  rewrite on_state_bind. simpl. rewrite lift_bind.
  pose proof (close_resource_clean id (process s)) as Hclean.
  destruct (close_resource id (process s)) as [p1 []]; simpl in *; [done|]. by intros _; apply Hclean.
Qed.

Lemma stream_read_blob_clean `{!SerializeTotal} params s :
  provider_inv (process s) → is_ok (stream_read_blob params s).2 = false →
  same_tables (process s) (process (stream_read_blob params s).1).
Proof.
  intros Hp. unfold stream_read_blob. rewrite lift_bind.
  destruct (parse_params params) as [ps|e|]; [|done..]. rewrite on_state_bind.
  pose proof (read_blob_clean ps (process s) Hp) as Hclean.
  destruct (read_blob ps (process s)) as [p1 [x|e|]]; simpl in *; [|auto..].
  by rewrite blob_read_serializes.
Qed.

Lemma read_event_clean `{!SerializeTotal} params : fails_clean (read_event params).
Proof. unfold read_event. clean_steps. Qed.

Lemma emit_search_streams id job' p :
  provider_inv p → jobs p !! id = Some job' →
  event_streams (emit_job_event id p) = push (job_event id job') <$> event_streams p ∧
  jobs (emit_job_event id p) = jobs p.
Proof.
  intros Hp Hj. unfold emit_job_event. rewrite Hj, broadcast_event_fmap. split; [|done].
  simpl. apply map_fmap_ext. intros i st Hst. unfold to_search_streams.
  rewrite decide_True; [done|]. by apply (proj2 (inv_streams _ Hp) i st Hst).
Qed.

(** C19: when a request fails, the tables of the provider are as they were, and no worker
    was touched.  The one exception is a request for the result of a running job that
    turns out to have failed: its outcome was collected and announced. *)
Theorem failed_requests_change_nothing `{!SerializeTotal} `{!Inj (=) (=) new_v4}
    p seen net method_name params s :
  run p seen → process s = p → is_ok (dispatch net method_name params s).2 = false →
  same_tables p (process (dispatch net method_name params s).1) ∨
  method_name = JOB_RESULT ∧ ∃ id job job',
    parse_params (H:=job_result_params) params = Ok id ∧
    jobs p !! id = Some job ∧ job_state job = Running ∧
    jobs (process (dispatch net method_name params s).1) = <[id := job']> (jobs p) ∧
    job_state job' = Failed ∧
    event_streams (process (dispatch net method_name params s).1) =
      push (job_event id job') <$> event_streams p.
Proof.
  intros Hrun Hs Hfail. pose proof (provider_run_inv p seen Hrun) as Hp. subst p.
  destruct (decide (method_name = JOB_RESULT)) as [->|Hne].
  - revert Hfail. cbn [dispatch]. unfold task_result. rewrite lift_bind.
    destruct (parse_params params) as [id|e|] eqn:Hparse; [|by left..].
    rewrite on_state_bind. unfold poll_and_emit. rewrite total_bind.
    destruct (poll_job_effect new_v4 id (process s) Hp)
      as [->|(job & c & p1 & -> & Hid & Hrunning & Hcanc & Hfin & Hset)]; cbn [fst snd].
    + intros _. left. simpl. rewrite on_state_bind. unfold job_result. rewrite gets_bind, lift_bind.
      simpl. destruct (of_option _ _) as [job|e|]; [|done..]. simpl.
      destruct (job_state job); simpl; [done| |done..]. by destruct (of_option _ _).
    + pose proof (finished_inv _ _ _ _ _ _ Hp Hid Hcanc Hfin Hset) as Hp1.
      destruct Hfin as [(job' & Hj & [_ Hok] & _ & _ & Hend) _ _ Hstr _].
      assert (Hj' : jobs p1 !! id = Some job') by (by rewrite Hj, lookup_insert_eq).
      destruct (emit_search_streams id job' p1 Hp1 Hj') as [Hstreams Hjobs].
      unfold modify. cbn [fst snd]. rewrite !on_state_bind. unfold job_result.
      rewrite !gets_bind, !lift_bind. cbn [fst snd process]. rewrite !Hjobs, !Hj'. cbn [of_option].
      rewrite !elem_of_cons, elem_of_nil in Hend. destruct Hend as [Hst|[Hst|[]]]; rewrite Hst in *.
      * destruct Hok as (_ & _ & r & ->). cbn [of_option]. simpl. by rewrite job_result_serializes.
      * intros _. right. split; [done|]. exists id, job, job'. simpl. split_and!; try done.
        { by rewrite Hjobs. } { by rewrite Hstreams, Hstr. }
  - left. destruct method_name; try done; cbn [dispatch] in *.
    + by apply open_clean.
    + revert Hfail. unfold ping. rewrite lift_bind. destruct (parse_params _) as [id|e|]; [|done..].
      rewrite gets_bind, lift_bind. by destruct (of_option _ _).
    + by apply invoke_clean.
    + by apply close_clean.
    + by apply stream_read_blob_clean.
    + revert Hfail. unfold stream_close_blob. rewrite lift_bind. by destruct (parse_params _).
    + by apply start_clean.
    + by apply status_clean; [apply job_status_serializes|..].
    + by apply cancel_handler_clean.
    + revert Hfail. unfold task_close. rewrite lift_bind. by destruct (parse_params _).
    + by apply open_event_clean.
    + by apply read_event_clean.
    + revert Hfail. unfold close_event. rewrite lift_bind. by destruct (parse_params _).
Qed.
End errors.

Import EsDemo.

#[export] Instance demo_serializes : SerializeTotal.
Proof. by split. Qed.

Lemma failed_requests_change_nothing_witness :
  ∃ e, (dispatch demo_net BLOB_READ (Array [Str (lit "gone"); Number (PosInt 5)]) demo_after).2 =
         Err e ∧ error_code_of e = RESOURCE_CLOSED ∧
  same_tables (process demo_after) (process (dispatch demo_net BLOB_READ
    (Array [Str (lit "gone"); Number (PosInt 5)]) demo_after).1).
Proof.
  eexists. split; [by vm_compute|]. split; [done|].
  destruct (failed_requests_change_nothing _ _ demo_net BLOB_READ
    (Array [Str (lit "gone"); Number (PosInt 5)]) demo_after demo_run) as [Hsame|[Hm _]];
    [done|by vm_compute|exact Hsame|discriminate Hm].
Defined.

(** ** Which requests are answered *)

Section answers.
Context `{EsCodec} {Resource : Type} `{!EsEnv Resource}.
Abbreviation Server := (Server Resource).
Implicit Types s : Server.

(** A request that makes the provider ask the host for a secret: it then takes the next
    message of the connection for the answer. *)
Definition asks_secret (request : Request) : bool :=
  bool_decide (rq_method request = RESOURCE_OPEN) &&
  match parse_open_params parse_url (rq_params request) with
  | Ok (_, Reference _ reference _) =>
      match to_value {| secret_ref := reference |} with inr _ => true | inl _ => false end
  | _ => false
  end.

(** The requests among the messages that get an answer. *)
Fixpoint answered (messages : list RpcMessage) : list RequestId :=
  match messages with
  | [] => []
  | MRequest request :: rest =>
      rq_id request ::
        (if bool_decide (rq_method request = SHUTDOWN) then []
         else if asks_secret request
              then match rest with [] => [] | _ :: rest => answered rest end
              else answered rest)
  | _ :: rest => answered rest
  end.

Definition responses (messages : list RpcMessage) : list RpcResponse :=
  omap (λ m, match m with MResponse r => Some r | _ => None end) messages.

(** A response carries a result or an error, and not both. *)
Definition well_formed (r : RpcResponse) : Prop :=
  (is_Some (rp_result r) ∧ rp_error r = None) ∨ (rp_result r = None ∧ is_Some (rp_error r)).

(** What a step does to the connection: it reads [n] messages, and writes requests. *)
Definition uses_ipc {A} (n : nat) (m : comp Server ProtocolError A) : Prop :=
  ∀ s, inbox (ipc (m s).1) = drop n (inbox (ipc s)) ∧
       responses (outbox (ipc (m s).1)) = responses (outbox (ipc s)).

Lemma uses_ipc_bind {A B} n (m : comp Server ProtocolError A)
    (f : A → comp Server ProtocolError B) :
  uses_ipc n m → (∀ a, uses_ipc 0 (f a)) → uses_ipc n (m ≫= f).
Proof.
  intros Hm Hf s. rewrite comp_bind_run. destruct (Hm s) as [Hi Ho].
  destruct (m s) as [s1 [a|e|]]; simpl in *; [|done|done].
  destruct (Hf a s1) as [Hi' Ho']. rewrite Hi', Ho', drop_0. done.
Qed.

Lemma uses_ipc_pure {A} (r : Server → outcome ProtocolError A) : uses_ipc 0 (λ s, (s, r s)).
Proof. by intros s. Qed.

Lemma uses_ipc_lift {A} (r : outcome ProtocolError A) : uses_ipc 0 (lift_outcome r).
Proof. by intros s. Qed.

Lemma uses_ipc_state {A} (m : comp (Process Resource) ProtocolError A) : uses_ipc 0 (on_state m).
Proof. by intros s. Qed.

Lemma resolve_secret_ipc reference s :
  (∀ n, writable n = true) →
  inbox (ipc (resolve_secret reference s).1) =
    match to_value {| secret_ref := reference |} with
    | inr _ => drop 1 (inbox (ipc s)) | inl _ => inbox (ipc s) end ∧
  responses (outbox (ipc (resolve_secret reference s).1)) = responses (outbox (ipc s)).
Proof.
  intros Hw. unfold resolve_secret. rewrite on_state_bind. simpl. rewrite lift_bind.
  destruct (to_value _) as [e|v]; simpl; [done|].
  rewrite total_bind. unfold send_msg. rewrite Hw. cbn [fst snd]. rewrite lift_bind. simpl.
  assert (responses (outbox (ipc s) ++ [MRequest {| rq_id := IdNumber (next_reverse_request_id
    (process s)); rq_method := HOST_RESOLVE_SECRET; rq_params := v |}]) =
    responses (outbox (ipc s))) as Ho.
  { unfold responses. rewrite omap_app. simpl. by rewrite app_nil_r. }
  rewrite total_bind. unfold recv_msg. cbn [fst snd ipc inbox outbox].
  destruct (inbox (ipc s)) as [|message rest]; cbn [fst snd]; rewrite lift_bind;
    cbn [of_option]; [done|].
  destruct message as [|response|]; [done| |done].
  destruct (rp_error response); [done|]. rewrite lift_bind.
  destruct (of_option _ _); [|done..]. rewrite lift_bind.
  by destruct (parse_params _).
Qed.

Hint Resolve uses_ipc_lift uses_ipc_state uses_ipc_pure : helper.
Ltac ipc_steps :=
  repeat first [solve [auto with helper] |apply uses_ipc_bind; [|intros ?]
    |apply uses_ipc_pure |case_match].

Lemma dispatch_uses_no_ipc net method_name params :
  method_name ≠ RESOURCE_OPEN → uses_ipc 0 (dispatch net method_name params).
Proof.
  intros Hm. destruct method_name; try done; cbn [dispatch]; unfold init, shutdown, ping,
    invoke, close, stream_read_blob, stream_close_blob, open_event, read_event, close_event,
    start, status, cancel, task_result, task_close; ipc_steps.
Qed.

Lemma open_tail_ipc net url credentials :
  uses_ipc 0 (
    resource ← lift_outcome (build_client parse_url build_transport url credentials);
    _ ← lift_outcome (validate_connection from_slice status_text (net resource));
    resource_id ← on_state (insert_resource new_v4 resource);
    lift_outcome (serialize {| ro_resource_id := resource_id;
                               ro_capabilities := capabilities; ro_metadata := metadata |})).
Proof. ipc_steps. Qed.

Lemma dispatch_ipc net request s :
  (∀ n, writable n = true) →
  inbox (ipc (dispatch net (rq_method request) (rq_params request) s).1) =
    (if asks_secret request then drop 1 (inbox (ipc s)) else inbox (ipc s)) ∧
  responses (outbox (ipc (dispatch net (rq_method request) (rq_params request) s).1)) =
    responses (outbox (ipc s)).
Proof.
  intros Hw. unfold asks_secret. case_bool_decide as Hm; simpl;
    [|by apply (dispatch_uses_no_ipc net _ (rq_params request))].
  rewrite Hm. cbn [dispatch]. unfold open. rewrite lift_bind.
  destruct (parse_open_params parse_url (rq_params request)) as [[url pending]|e|]; [|done..].
  rewrite comp_bind_run. unfold resolve_credentials.
  destruct pending as [|credentials|kind reference username].
  - apply (open_tail_ipc net url None).
  - apply (open_tail_ipc net url (Some credentials)).
  - rewrite comp_bind_run. destruct (resolve_secret_ipc reference s Hw) as [Hi Ho].
    assert (Hin : inbox (ipc (resolve_secret reference s).1) =
      if match to_value {| secret_ref := reference |} with inr _ => true | inl _ => false end
      then drop 1 (inbox (ipc s)) else inbox (ipc s)).
    { rewrite Hi. by destruct (to_value _). }
    destruct (resolve_secret reference s) as [s1 [secret|e|]]; [|done..]. cbn [fst snd] in *.
    rewrite lift_bind. destruct (of_option _ _) as [text|e|]; [|done..].
    cbn [mret comp_ret fst snd].
    match goal with |- context [build_client _ _ _ ?c] =>
      destruct (open_tail_ipc net url c s1) as [Hi' Ho'] end.
    rewrite drop_0 in Hi'. by rewrite Hi', Ho'.
Qed.

Context `{!Inj (=) (=) new_v4}.

Lemma serve_loop_answers rounds nets s :
  (∀ n, writable n = true) → provider_inv (process s) → length (inbox (ipc s)) < rounds →
  Forall well_formed (responses (outbox (ipc s))) →
  let s' := serve_loop rounds nets s in
  rp_id <$> responses (outbox (ipc s')) =
    (rp_id <$> responses (outbox (ipc s))) ++ answered (inbox (ipc s)) ∧
  Forall well_formed (responses (outbox (ipc s'))).
Proof.
  intros Hw. revert s. induction rounds as [|rounds IH]; intros s Hp Hlen Hwf; [lia|].
  cbn [serve_loop]. unfold recv_msg.
  destruct (inbox (ipc s)) as [|message rest] eqn:Hin.
  { simpl. by rewrite app_nil_r. }
  simpl in Hlen. destruct message as [request|response|other]; cbn [fst snd];
    [|by apply (IH {| ipc := {| inbox := rest; outbox := outbox (ipc s) |};
                      process := process s |}); simpl; [|lia|]..].
  unfold handle_request.
  set (s0 := {| ipc := {| inbox := rest; outbox := outbox (ipc s) |}; process := process s |}).
  destruct (dispatch_ipc (nets rounds) request s0 Hw) as [Hi Ho].
  destruct (dispatch_safe (nets rounds) (rq_method request) (rq_params request) s0 Hp)
    as [Hp1 Hnp].
  destruct (dispatch (nets rounds) (rq_method request) (rq_params request) s0) as [s1 r].
  subst s0. cbn [fst snd ipc inbox outbox process] in *.
  assert (Hstep : ∀ response, rp_id response = rq_id request → well_formed response →
    let s' := let '(s, sent) := send_msg (MResponse response) s1 in
      if negb sent || bool_decide (rq_method request = SHUTDOWN) then s
      else serve_loop rounds nets s in
    rp_id <$> responses (outbox (ipc s')) =
      (rp_id <$> responses (outbox (ipc s))) ++ answered (MRequest request :: rest) ∧
    Forall well_formed (responses (outbox (ipc s')))).
  { intros response Hid Hresp. unfold send_msg. rewrite Hw. cbn [negb orb].
    assert (Hout : responses (outbox (ipc s1) ++ [MResponse response]) =
      responses (outbox (ipc s)) ++ [response]).
    { unfold responses in *. rewrite omap_app, Ho. done. }
    cbn [answered]. case_bool_decide as Hm.
    - cbn [ipc outbox]. rewrite Hout, fmap_app. simpl. rewrite Hid. split; [done|].
      apply Forall_app; by split; [|constructor].
    - match goal with |- context [serve_loop rounds nets ?s2] => destruct (IH s2) as [IHo IHw] end.
      + done.
      + cbn [ipc inbox]. rewrite Hi. destruct (asks_secret request); [rewrite length_drop|]; lia.
      + cbn [ipc outbox]. rewrite Hout. apply Forall_app; by split; [|constructor].
      + split; [|done]. rewrite IHo. cbn [ipc outbox inbox]. rewrite Hout, fmap_app, Hi. simpl.
        rewrite Hid, <-app_assoc. do 2 f_equal.
        destruct (asks_secret request); [|done]. by destruct rest. }
  destruct r as [value|error|]; [| |done]; cbn [fst snd]; apply Hstep; try done.
  - left. by split; [eexists|].
  - right. by split; [|eexists].
Qed.

(** C20: while its messages can be written, the provider answers every request it takes
    from the connection up to the first shutdown: exactly once, in order, under the
    request's identifier, with a result or an error.  The message it takes while it
    waits for a secret is the one kind that goes unanswered, a request included. *)
Theorem requests_answered nets messages :
  (∀ n, writable n = true) →
  rp_id <$> responses (outbox (ipc (serve nets messages))) = answered messages ∧
  Forall well_formed (responses (outbox (ipc (serve nets messages)))).
Proof.
  intros Hw. unfold serve.
  apply (serve_loop_answers (S (length messages)) nets
    {| ipc := {| inbox := messages; outbox := [] |}; process := new_process |} Hw);
    simpl; [apply new_process_inv|lia|done].
Qed.
End answers.

(** A request that overtakes the host's answer to a secret goes unanswered: the second of
    these three gets no response. *)
Lemma requests_answered_witness :
  let request n method_name params :=
    MRequest {| rq_id := IdNumber n; rq_method := method_name; rq_params := params |} in
  rp_id <$> responses (outbox (ipc (serve (λ _, demo_net)
    [request 1%Z RESOURCE_OPEN (Array [Str (lit "elasticsearch");
       Array [Str (lit "http://es"); Str (lit "vault:es")]]);
     request 2%Z RESOURCE_PING (Str [0%N]);
     request 3%Z INIT Null]))) = [IdNumber 1; IdNumber 3].
Proof. exact (proj1 (requests_answered (λ _, demo_net) _ (λ _, eq_refl))). Defined.
