(* ===== verification/SshConfig.v ===== *)
(** * Importing OpenSSH hosts

    wasm/openssh-config-importer/src/openssh_config.rs: host blocks of configuration
    files and entries of known_hosts files become connection records.  Unicode
    lower-casing of a character is a parameter. *)

From S2P Require Import Prelude VncClipboard Text TextSearch JsonValue.

Record ImportWarning := { warning_code : list N; warning_message : list N }.

Inductive SshImportAuthMethod : Type :=
  | Password (password : option (list N))
  | PrivateKey (key_path : list N) (passphrase : option (list N))
  | PrivateKeyMaterial (private_key passphrase file_name_hint : option (list N))
  | Agent
  | AutoPublicKey.

Record SshImportRecord := {
  ssh_name : list N; ssh_host : list N; ssh_port : option N; ssh_username : list N;
  auth_method : SshImportAuthMethod; init_script : option (list N);
  jump_server : option Value; ssh_proxy : option Value
}.

Record ImportRecord := {
  record_id : list N; importer_id : list N; source_label : list N;
  source_id : option (list N); record_kind : list N; display_name : list N;
  record_database : option Value; record_ssh : option SshImportRecord;
  port_forwarding : option Value; password_status : list N;
  record_warnings : list ImportWarning
}.

Record HostBlock := {
  aliases : list (list N); host_name : option (list N); host_user : option (list N);
  host_port : option N; identity_file : option (list N)
}.

Record KnownHostEntry := { known_host : list N; known_port : N }.

(** ** Lines and words *)

Fixpoint strip_comment_from (quoted : bool) (line : list N) : list N :=
  match line with
  | [] => []
  | c :: rest =>
      if (c =? 34)%N then c :: strip_comment_from (negb quoted) rest
      else if (c =? 35)%N && negb quoted then []
      else c :: strip_comment_from quoted rest
  end.

Definition strip_comment (line : list N) : list N := strip_comment_from false line.

Definition unquote (value : list N) : list N :=
  let value := trim value in
  default value (strip_prefix [34%N] value ≫= strip_suffix [34%N]).

Definition split_words (value : list N) : list (list N) := unquote <$> split_whitespace value.

Definition split_directive (line : list N) : option (list N * list N) :=
  match split_once_at is_whitespace line with
  | Some (key, value) =>
      let key := trim key in let value := trim value in
      if bool_decide (key = []) || bool_decide (value = []) then None else Some (key, value)
  | None => None
  end.

(** ** Host blocks *)

Definition default_block (words : list (list N)) : HostBlock :=
  {| aliases := words; host_name := None; host_user := None; host_port := None;
     identity_file := None |}.

(** The [match] on a directive inside a block *)
Definition apply_directive (key value : list N) (b : HostBlock) : HostBlock :=
  let key := to_ascii_lowercase key in
  if bool_decide (key = lit "hostname") then
    {| aliases := aliases b; host_name := Some (unquote value); host_user := host_user b;
       host_port := host_port b; identity_file := identity_file b |}
  else if bool_decide (key = lit "user") then
    {| aliases := aliases b; host_name := host_name b; host_user := Some (unquote value);
       host_port := host_port b; identity_file := identity_file b |}
  else if bool_decide (key = lit "port") then
    {| aliases := aliases b; host_name := host_name b; host_user := host_user b;
       host_port := parse_unsigned u16_max (unquote value); identity_file := identity_file b |}
  else if bool_decide (key = lit "identityfile") then
    match identity_file b with
    | Some _ => b
    | None =>
        {| aliases := aliases b; host_name := host_name b; host_user := host_user b;
           host_port := host_port b; identity_file := Some (unquote value) |}
    end
  else b.

(** One line: the finished blocks and the one being read. *)
Definition parse_line (st : list HostBlock * option HostBlock) (raw_line : list N)
    : list HostBlock * option HostBlock :=
  let '(out, current) := st in
  let line := trim (strip_comment raw_line) in
  if bool_decide (line = []) then st else
  match split_directive line with
  | None => st
  | Some (key, value) =>
      if eq_ignore_ascii_case key (lit "host") then
        (out ++ option_list current, Some (default_block (split_words value)))
      else
        match current with
        | None => st
        | Some b => (out, Some (apply_directive key value b))
        end
  end.

Definition parse_blocks (text : list N) : list HostBlock :=
  let '(out, current) := foldl parse_line ([], None) (lines text) in
  out ++ option_list current.

Definition has_wildcard (t : list N) : bool := has_char 42 t || has_char 63 t || has_char 33 t.

Definition importable_aliases (names : list (list N)) : list (list N) :=
  filter (λ alias, has_wildcard alias = false ∧ alias ≠ []) names.

(** ** Known hosts *)

Definition parse_known_host_pattern (pattern : list N) : option KnownHostEntry :=
  let pattern := trim pattern in
  if bool_decide (pattern = []) || starts_with (lit "|") pattern || has_wildcard pattern
  then None
  else
    match strip_prefix (lit "[") pattern with
    | Some rest =>
        '(host, port) ← split_once (lit "]:") rest;
        port ← parse_unsigned u16_max port;
        if bool_decide (host = []) then None
        else Some {| known_host := host; known_port := port |}
    | None => Some {| known_host := pattern; known_port := 22 |}
    end.

Definition parse_known_hosts_line (raw_line : list N) : list KnownHostEntry :=
  let line := trim raw_line in
  if bool_decide (line = []) || starts_with (lit "#") line then []
  else
    match head (split_whitespace line) with
    | None => []
    | Some hosts =>
        if starts_with (lit "@") hosts then []
        else omap parse_known_host_pattern (split_char 44 [] hosts)
    end.

Definition parse_known_hosts (text : list N) : list KnownHostEntry :=
  lines text ≫= parse_known_hosts_line.

Definition is_known_hosts_path (path : list N) : bool :=
  eq_ignore_ascii_case (path_name path) (lit "known_hosts").

Definition endpoint_key (host : list N) (port : N) : list N :=
  to_ascii_lowercase host ++ lit ":" ++ show_N port.

Definition endpoint_display (host : list N) (port : N) : list N :=
  if (port =? 22)%N then host else host ++ lit ":" ++ show_N port.

(** ** Records *)

Section importer.
(** [char::to_lowercase] *)
Context (to_lowercase : N → list N).

Definition slug (value : list N) : list N :=
  let out := drop_dashes (foldl slug_char ([], false) (value ≫= to_lowercase)).1 in
  if bool_decide (out = []) then lit "host" else reverse out.

Definition ssh_record (id source_id name host : list N) (port : N) (user : list N)
    (auth : SshImportAuthMethod) : ImportRecord :=
  {| record_id := lit "openssh-config:" ++ id; importer_id := lit "openssh-config";
     source_label := lit "OpenSSH Config"; source_id := Some source_id;
     record_kind := lit "ssh"; display_name := name; record_database := None;
     record_ssh := Some {| ssh_name := name; ssh_host := host; ssh_port := Some port;
       ssh_username := user; auth_method := auth; init_script := None;
       jump_server := None; ssh_proxy := None |};
     port_forwarding := None; password_status := lit "unsupported"; record_warnings := [] |}.

Definition record_from_known_host (path : list N) (entry : KnownHostEntry) : ImportRecord :=
  let endpoint := endpoint_display (known_host entry) (known_port entry) in
  ssh_record (lit "known-hosts-" ++ slug endpoint) (path ++ lit ":" ++ endpoint) endpoint
    (known_host entry) (known_port entry) [] AutoPublicKey.

Definition record_from_alias (path : list N) (b : HostBlock) (alias : list N) : ImportRecord :=
  ssh_record (slug alias) (path ++ lit ":" ++ alias) alias
    (default alias (host_name b)) (default 22%N (host_port b)) (default [] (host_user b))
    (match identity_file b with Some key_path => PrivateKey key_path None | None => AutoPublicKey end).

(** The records so far, and the endpoints seen. *)
Definition preview_state : Type := list ImportRecord * gset (list N).

Definition add_known_host (path : list N) (st : preview_state) (entry : KnownHostEntry)
    : preview_state :=
  let key := endpoint_key (known_host entry) (known_port entry) in
  if decide (key ∈ st.2) then st
  else (st.1 ++ [record_from_known_host path entry], {[key]} ∪ st.2).

Definition add_alias (path : list N) (b : HostBlock) (st : preview_state) (alias : list N)
    : preview_state :=
  let key := endpoint_key (default alias (host_name b)) (default 22%N (host_port b)) in
  (st.1 ++ [record_from_alias path b alias], {[key]} ∪ st.2).

Definition preview_config (st : preview_state) (config : list N * bytes) : preview_state :=
  let '(path, bytes) := config in
  match utf8_decode bytes with
  | None => st
  | Some text =>
      if is_known_hosts_path path
      then foldl (add_known_host path) st (parse_known_hosts text)
      else foldl (λ st b, foldl (add_alias path b) st (importable_aliases (aliases b))) st
             (parse_blocks text)
  end.

Definition preview_records_from_configs (configs : list (list N * bytes))
    (include_passwords : bool) : list ImportRecord :=
  (foldl preview_config ([], ∅) configs).1.
End importer.

(** ** Slugs *)

(** The maximal runs of the characters that pass a test. *)
Definition run_of (current : list N) : list (list N) :=
  match current with [] => [] | _ => [reverse current] end.

Fixpoint runs_from (f : N → bool) (current t : list N) : list (list N) :=
  match t with
  | [] => run_of current
  | c :: rest =>
      if f c then runs_from f (c :: current) rest
      else run_of current ++ runs_from f [] rest
  end.

(** The runs joined by single dashes, or ["host"] when there is none. *)
Definition join_runs (runs : list (list N)) : list N :=
  match runs with [] => lit "host" | run :: runs => run ++ (runs ≫= λ r, 45%N :: r) end.

Definition slug_spec (to_lowercase : N → list N) (value : list N) : list N :=
  join_runs (runs_from is_ascii_alphanumeric [] (value ≫= to_lowercase)).

(** What the loop of [slug] has written once some runs are complete and [current] is being
    read. *)
Definition written (done : list (list N)) (current : list N) : list N :=
  current ++ reverse (done ≫= λ r, r ++ [45%N]).

Lemma written_snoc done run :
  written (done ++ [reverse run]) [] = 45%N :: written done run.
Proof.
  unfold written. rewrite bind_app, reverse_app. simpl.
  by rewrite app_nil_r, reverse_snoc, reverse_involutive.
Qed.

Lemma slug_loop t done current :
  Forall (λ r, r ≠ []) done → Forall (λ c, is_ascii_alphanumeric c = true) current →
  drop_dashes (foldl slug_char (written done current, bool_decide (current = [] ∧ done ≠ [])) t).1 =
  drop_dashes (written (done ++ runs_from is_ascii_alphanumeric current t) []).
Proof.
  revert done current. induction t as [|c t IH]; intros done current Hdone Hcur; cbn [foldl runs_from].
  - destruct current as [|d current]; simpl; [by rewrite app_nil_r|]. by rewrite written_snoc.
  - unfold slug_char at 2. destruct (is_ascii_alphanumeric c) eqn:Hc.
    + rewrite <-IH; [|done|by constructor]. rewrite (bool_decide_false (c :: current = [] ∧ _)) by (by intros []).
      done.
    + destruct current as [|d current]; cbn [run_of].
      * cbn [app]. destruct done as [|r done]; [by apply (IH [] [])|].
        rewrite bool_decide_true by done. cbn [negb andb]. rewrite <-IH by done.
        by rewrite bool_decide_true.
      * rewrite (app_assoc done), <-IH; [|apply Forall_app; split; [done|constructor; [|done]]|done].
        2: by rewrite reverse_cons; destruct (reverse current).
        rewrite written_snoc, (bool_decide_false (d :: current = [] ∧ _)) by (by intros []).
        rewrite (bool_decide_true ([] = [] ∧ _)) by (split; [done|by destruct done]). done.
Qed.

(** A run of alphanumerics that satisfy [P]. *)
Definition is_run (P : N → Prop) (run : list N) : Prop :=
  run ≠ [] ∧ Forall (λ c, is_ascii_alphanumeric c = true ∧ P c) run.

Lemma runs_shape (P : N → Prop) current t :
  Forall (λ c, is_ascii_alphanumeric c = true ∧ P c) current → Forall P t →
  Forall (is_run P) (runs_from is_ascii_alphanumeric current t).
Proof.
  assert (Hrun : ∀ current, Forall (λ c, is_ascii_alphanumeric c = true ∧ P c) current →
    Forall (is_run P) (run_of current)).
  { intros [|c cur] Hcur; simpl; constructor; [|done]. split; [|by apply Forall_reverse].
    rewrite reverse_cons. by destruct (reverse cur). }
  intros Hcur Ht. revert current Hcur.
  induction Ht as [|c t Hc _ IH]; intros current Hcur; simpl; [by apply Hrun|].
  destruct (is_ascii_alphanumeric c) eqn:Hf; [by apply IH; constructor|].
  apply Forall_app. split; [by apply Hrun|by apply IH].
Qed.

Lemma is_run_alnum P run : is_run P run → Forall (λ c, is_ascii_alphanumeric c = true) run.
Proof. intros [_ Hrun]. by eapply Forall_impl; [exact Hrun|]; intros ? []. Qed.

Lemma drop_written P runs :
  runs ≠ [] → Forall (is_run P) runs →
  reverse (drop_dashes (written runs [])) =
  join_runs runs.
Proof.
  unfold join_runs. intros Hne Hruns. destruct runs as [|run runs _] using rev_ind; [done|].
  apply Forall_app in Hruns as [_ [Hrun _]%Forall_cons].
  pose proof (is_run_alnum _ _ Hrun) as Halnum. destruct Hrun as [Hrun _].
  apply Forall_reverse in Halnum. rewrite <-(reverse_involutive run), written_snoc. simpl.
  assert (drop_dashes (written runs (reverse run)) = written runs (reverse run)) as ->.
  { destruct (reverse run) as [|c rest] eqn:Hr.
    { destruct Hrun. by rewrite <-(reverse_involutive run), Hr. }
    inversion_clear Halnum as [|?? Hc _]. unfold written. simpl.
    by destruct (N.eqb_spec c 45) as [->|]. }
  unfold written. rewrite reverse_app, !reverse_involutive. generalize run. clear. intros run.
  destruct runs as [|r runs]; simpl; [by rewrite app_nil_r|].
  revert r. induction runs as [|r' runs IH]; intros r; simpl.
  { by rewrite !app_nil_r, <-app_assoc. }
  specialize (IH r'). rewrite <-!app_assoc in *. simpl in *. do 2 f_equal. exact IH.
Qed.

Lemma slug_is_spec lower value : slug lower value = slug_spec lower value.
Proof.
  unfold slug, slug_spec. set (t := value ≫= lower).
  pose proof (slug_loop t [] [] ltac:(constructor) ltac:(constructor)) as Hloop.
  rewrite bool_decide_false in Hloop by (by intros []).
  change (written [] []) with (@nil N) in Hloop. rewrite Hloop. clear Hloop.
  pose proof (runs_shape (λ _, True) [] t ltac:(constructor) ltac:(by apply Forall_true)) as Hruns.
  cbn [app]. destruct (runs_from _ _ _) as [|run runs] eqn:Heq; [done|].
  pose proof (drop_written _ (run :: runs) ltac:(done) Hruns) as Hdrop.
  rewrite bool_decide_false; [done|].
  intros Hnil. rewrite Hnil in Hdrop. apply Forall_cons in Hruns as [[Hrun _] _].
  by destruct run.
Qed.

Lemma runs_app f current run t :
  Forall (λ c, f c = true) run →
  runs_from f current (run ++ t) = runs_from f (reverse run ++ current) t.
Proof.
  intros Hrun. revert current. induction Hrun as [|c run Hc _ IH]; intros current; [done|].
  simpl. by rewrite Hc, IH, reverse_cons, <-app_assoc.
Qed.

Lemma runs_join P runs :
  runs ≠ [] → Forall (is_run P) runs →
  runs_from is_ascii_alphanumeric [] (join_runs runs) = runs.
Proof.
  intros Hne Hruns. destruct runs as [|run runs]; [done|]. clear Hne. simpl.
  revert run Hruns. induction runs as [|r runs IH]; intros run [Hr Hruns]%Forall_cons; simpl.
  all: pose proof (is_run_alnum _ _ Hr) as Hf; destruct Hr as [Hrun _].
  all: rewrite runs_app, app_nil_r by done.
  all: assert (Hof : run_of (reverse run) = [run]) by
    (unfold run_of; destruct (reverse run) as [|c rest] eqn:Hr; rewrite <-?Hr, ?reverse_involutive;
      [destruct Hrun; by rewrite <-(reverse_involutive run), Hr|done]).
  - simpl. by rewrite Hof.
  - simpl. rewrite Hof. simpl. f_equal. by apply IH.
Qed.

Lemma join_runs_forall P runs : Forall (is_run P) runs → P 45%N → Forall P (lit "host") → Forall P (join_runs runs).
Proof.
  assert (Hrun : ∀ run, is_run P run → Forall P run).
  { intros run [_ Hr]. by eapply Forall_impl; [exact Hr|]; intros ? []. }
  intros Hruns Hdash Hhost. destruct Hruns as [|run runs Hr Hruns]; simpl; [done|].
  apply Forall_app. split; [by apply Hrun|]. apply Forall_bind.
  eapply Forall_impl; [exact Hruns|]. intros r ?. constructor; [done|by apply Hrun].
Qed.

Lemma ascii_lower_lower c : ascii_lower (ascii_lower c) = ascii_lower c.
Proof.
  unfold ascii_lower at 2 3. destruct (N.leb_spec 65 c), (N.leb_spec c 90); simpl.
  all: unfold ascii_lower; destruct (N.leb_spec 65 (c + 32)), (N.leb_spec (c + 32) 90),
    (N.leb_spec 65 c), (N.leb_spec c 90); simpl; lia.
Qed.

(** The slug of a name is the runs of ASCII letters and digits of its lower-cased text,
    joined by single dashes, or ["host"] if there are none: it is never empty, has no
    upper-case letter, and is its own slug. *)
Theorem slug_correct to_lowercase value
    (Hascii : ∀ c, (c < 128)%N → to_lowercase c = [ascii_lower c])
    (Hlower : ∀ c d, d ∈ to_lowercase c → ascii_lower d = d) :
  slug to_lowercase value = slug_spec to_lowercase value ∧
  (∃ runs, runs ≠ [] ∧ slug to_lowercase value = join_runs runs ∧
    Forall (is_run (λ c, ascii_lower c = c)) runs) ∧
  slug to_lowercase (slug to_lowercase value) = slug to_lowercase value.
Proof.
  rewrite !slug_is_spec. split; [done|].
  assert (∃ runs, runs ≠ [] ∧ slug_spec to_lowercase value = join_runs runs ∧
    Forall (is_run (λ c, ascii_lower c = c)) runs) as (runs & Hne & Heq & Hruns).
  { unfold slug_spec. set (t := value ≫= to_lowercase).
    pose proof (runs_shape (λ c, ascii_lower c = c) [] t ltac:(constructor)) as Hruns.
    destruct (runs_from _ _ _) as [|run runs] eqn:Hr.
    - exists [lit "host"]. split_and!; [done|by vm_compute|]. repeat constructor; by vm_compute.
    - exists (run :: runs). split_and!; [done|done|]. apply Hruns, Forall_bind, Forall_true.
      intros c. apply Forall_forall. intros d. apply Hlower. }
  split; [by exists runs|]. rewrite Heq. unfold slug_spec.
  assert (join_runs runs ≫= to_lowercase = join_runs runs) as ->; [|by erewrite runs_join].
  assert (Forall (λ c, to_lowercase c = [c]) (join_runs runs)) as Hid.
  { apply join_runs_forall; [|by apply Hascii|by repeat constructor; apply Hascii].
    eapply Forall_impl; [exact Hruns|]. intros r [? Hr]. split; [done|].
    eapply Forall_impl; [exact Hr|]. intros c [Hc Hl]. split; [done|].
    rewrite Hascii; [by rewrite Hl|]. unfold is_ascii_alphanumeric in Hc.
    rewrite !orb_true_iff, !andb_true_iff, !N.leb_le in Hc. lia. }
  clear Heq. induction Hid as [|c t Hc _ IH]; [done|]. by rewrite bind_cons, Hc, IH.
Qed.

Lemma slug_correct_witness :
  slug (λ c, [ascii_lower c]) (lit "[Port.Example]:2202") = lit "port-example-2202" ∧
  slug (λ c, [ascii_lower c]) (slug (λ c, [ascii_lower c]) (lit "[Port.Example]:2202")) =
    slug (λ c, [ascii_lower c]) (lit "[Port.Example]:2202").
Proof.
  split; [by vm_compute|]. apply (slug_correct (λ c, [ascii_lower c])); [done|].
  intros c d ->%list_elem_of_singleton. apply ascii_lower_lower.
Defined.

(** ** Previews *)

Definition entry_key (e : KnownHostEntry) : list N := endpoint_key (known_host e) (known_port e).

(** The endpoint a record connects to. *)
Definition record_key (r : ImportRecord) : option (list N) :=
  ssh ← record_ssh r; port ← ssh_port ssh; Some (endpoint_key (ssh_host ssh) port).

(** The endpoints seen are those of the records. *)
Definition seen_inv (st : preview_state) : Prop :=
  ∀ key, key ∈ st.2 ↔ Some key ∈ record_key <$> st.1.

Section preview.
Context (to_lowercase : N → list N).

Lemma add_known_hosts path entries st :
  seen_inv st →
  let st' := foldl (add_known_host to_lowercase path) st entries in
  seen_inv st' ∧
  ∃ fresh, st'.1 = st.1 ++ (record_from_known_host to_lowercase path <$> fresh) ∧
    fresh `sublist_of` entries ∧ NoDup (entry_key <$> fresh) ∧
    (∀ e, e ∈ fresh → Some (entry_key e) ∉ record_key <$> st.1) ∧
    (∀ e, e ∈ entries → Some (entry_key e) ∈ record_key <$> st'.1).
Proof.
  revert st. induction entries as [|e entries IH]; intros st Hinv; cbn [foldl].
  all: pose proof Hinv as Hseen; unfold seen_inv in Hseen.
  { split; [done|]. exists []. rewrite app_nil_r.
    split_and!; [done|done|constructor| |]; intros e He; by apply not_elem_of_nil in He. }
  unfold add_known_host at 2 4 6. fold (entry_key e).
  destruct (decide (entry_key e ∈ st.2)) as [Hin|Hin].
  - destruct (IH st Hinv) as (Hinv' & fresh & Heq & Hsub & Hnd & Hnew & Hall). split; [done|].
    exists fresh. split_and!; [done|by constructor|done|done|].
    intros e' [->|He']%elem_of_cons; [|by apply Hall]. apply Hseen in Hin.
    rewrite Heq, fmap_app, elem_of_app. by left.
  - set (st1 := (st.1 ++ [record_from_known_host to_lowercase path e], _)).
    assert (Hkeys : record_key <$> st1.1 = (record_key <$> st.1) ++ [Some (entry_key e)])
      by (unfold st1; cbn [fst]; by rewrite fmap_app).
    assert (seen_inv st1) as Hinv1.
    { intros key. rewrite Hkeys, elem_of_app, <-Hseen, list_elem_of_singleton.
      unfold st1. cbn [snd]. rewrite elem_of_union, elem_of_singleton.
      split; [intros [->|?]|intros [?|[= ->]]]; auto. }
    destruct (IH st1 Hinv1) as (Hinv' & fresh & Heq & Hsub & Hnd & Hnew & Hall). split; [done|].
    exists (e :: fresh). rewrite Heq. unfold st1 at 1. cbn [fst]. split_and!.
    + by rewrite <-app_assoc.
    + by constructor.
    + cbn. constructor; [|done]. intros (e' & Hkey & He')%list_elem_of_fmap.
      apply (Hnew _ He'). rewrite Hkeys, <-Hkey, elem_of_app, list_elem_of_singleton. by right.
    + intros e' [->|He']%elem_of_cons; [by rewrite <-Hseen|].
      intros Hold. apply (Hnew _ He'). rewrite Hkeys, elem_of_app. by left.
    + rewrite Heq in Hall. intros e' [->|He']%elem_of_cons; [|by apply Hall].
      rewrite fmap_app, Hkeys, !elem_of_app, list_elem_of_singleton. by left; right.
Qed.

Lemma add_aliases path b names st :
  seen_inv st →
  let st' := foldl (add_alias to_lowercase path b) st names in
  seen_inv st' ∧ st'.1 = st.1 ++ (record_from_alias to_lowercase path b <$> names).
Proof.
  revert st. induction names as [|n names IH]; intros st Hinv; simpl; [by rewrite app_nil_r|].
  destruct (IH (add_alias to_lowercase path b st n)) as [Hinv' ->].
  - intros key. unfold add_alias. cbn [fst snd]. specialize (Hinv key).
    rewrite fmap_app, elem_of_app, <-Hinv. simpl.
    rewrite list_elem_of_singleton, elem_of_union, elem_of_singleton.
    split; [intros [->|?]|intros [?|[= ->]]]; auto.
  - split; [done|]. unfold add_alias. cbn [fst]. by rewrite <-app_assoc.
Qed.

Lemma add_blocks path blocks st :
  seen_inv st →
  let st' := foldl (λ st b, foldl (add_alias to_lowercase path b) st (importable_aliases (aliases b)))
    st blocks in
  seen_inv st' ∧
  st'.1 = st.1 ++ (blocks ≫= λ b, record_from_alias to_lowercase path b <$> importable_aliases (aliases b)).
Proof.
  revert st. induction blocks as [|b blocks IH]; intros st Hinv; [by rewrite app_nil_r|].
  cbn [foldl]. destruct (add_aliases path b (importable_aliases (aliases b)) st Hinv) as [Hinv' Heq].
  destruct (IH _ Hinv') as [? ->]. split; [done|]. by rewrite Heq, bind_cons, <-app_assoc.
Qed.
Lemma preview_config_inv st config : seen_inv st → seen_inv (preview_config to_lowercase st config).
Proof.
  intros Hinv. destruct config as [path bytes]. unfold preview_config.
  destruct (utf8_decode bytes) as [text|]; [|done]. destruct (is_known_hosts_path path).
  - by apply add_known_hosts.
  - by apply add_blocks.
Qed.

Lemma preview_inv configs : seen_inv (foldl (preview_config to_lowercase) ([], ∅) configs).
Proof.
  induction configs as [|config configs IH] using rev_ind.
  - intros key. split; [intros Hkey|intros Hkey]; exfalso; [|by apply not_elem_of_nil in Hkey].
    by apply not_elem_of_empty in Hkey.
  - rewrite foldl_snoc. by apply preview_config_inv.
Qed.
End preview.

(** One more file only appends records: nothing if it is not UTF-8; for a configuration
    file the record of each importable alias of each host block, in order; for a known_hosts
    file one record for each endpoint that no record had yet, in the order of the entries,
    so that afterwards each entry's endpoint has a record. *)
Theorem preview_appends to_lowercase configs path bytes include_passwords :
  let preview configs := preview_records_from_configs to_lowercase configs include_passwords in
  let old := preview configs in
  let new := preview (configs ++ [(path, bytes)]) in
  match utf8_decode bytes with
  | None => new = old
  | Some text =>
      if is_known_hosts_path path then
        ∃ fresh, new = old ++ (record_from_known_host to_lowercase path <$> fresh) ∧
          fresh `sublist_of` parse_known_hosts text ∧ NoDup (entry_key <$> fresh) ∧
          (∀ e, e ∈ fresh → Some (entry_key e) ∉ record_key <$> old) ∧
          (∀ e, e ∈ parse_known_hosts text → Some (entry_key e) ∈ record_key <$> new)
      else
        new = old ++ (parse_blocks text ≫= λ b,
          record_from_alias to_lowercase path b <$> importable_aliases (aliases b))
  end.
Proof.
  cbv zeta. unfold preview_records_from_configs. rewrite foldl_snoc.
  pose proof (preview_inv to_lowercase configs) as Hinv.
  destruct (foldl _ _ configs) as [records seen]. unfold preview_config.
  destruct (utf8_decode bytes) as [text|]; [|done]. destruct (is_known_hosts_path path).
  - by apply add_known_hosts.
  - by apply add_blocks.
Qed.

(** ** Reading a written configuration *)

Definition quoted (value : list N) : list N := 34%N :: value ++ [34%N].

Definition print_directive (key value : list N) : list N :=
  lit "  " ++ key ++ 32%N :: quoted value.

Definition print_option (key : list N) (value : option (list N)) : list (list N) :=
  match value with Some value => [print_directive key value] | None => [] end.

Definition print_block (b : HostBlock) : list (list N) :=
  (lit "Host" ++ (aliases b ≫= λ a, 32%N :: a)) ::
  print_option (lit "HostName") (host_name b) ++ print_option (lit "User") (host_user b) ++
  print_option (lit "Port") (show_N <$> host_port b) ++
  print_option (lit "IdentityFile") (identity_file b).

Definition print_lines (ls : list (list N)) : list N := ls ≫= λ l, l ++ [10%N].

Definition print_config (blocks : list HostBlock) : list N := print_lines (blocks ≫= print_block).

(** What can be written: words as aliases, values without quotes or line feeds. *)
Definition is_word (a : list N) : Prop :=
  a ≠ [] ∧ Forall (λ c, is_whitespace c = false ∧ c ≠ 34%N ∧ c ≠ 35%N) a.
Definition is_value (v : list N) : Prop := Forall (λ c, c ≠ 34%N ∧ c ≠ 10%N) v.

Definition is_printable (b : HostBlock) : Prop :=
  aliases b ≠ [] ∧ Forall is_word (aliases b) ∧
  (∀ v, host_name b = Some v → is_value v) ∧ (∀ v, host_user b = Some v → is_value v) ∧
  (∀ p, host_port b = Some p → (p <= u16_max)%N) ∧ (∀ v, identity_file b = Some v → is_value v).

Lemma strip_plain quoted t rest :
  Forall (λ c, c ≠ 34%N ∧ c ≠ 35%N) t →
  strip_comment_from quoted (t ++ rest) = t ++ strip_comment_from quoted rest.
Proof.
  induction 1 as [|c t [Hq Hh] _ IH]; simpl; [done|].
  by rewrite (proj2 (N.eqb_neq _ _) Hq), (proj2 (N.eqb_neq _ _) Hh), IH.
Qed.

Lemma strip_quoted value : is_value value → strip_comment_from false (quoted value) = quoted value.
Proof.
  intros Hv. unfold quoted. simpl. f_equal.
  induction Hv as [|c v [Hq _] _ IH]; simpl; [done|].
  by rewrite (proj2 (N.eqb_neq _ _) Hq), andb_false_r, IH.
Qed.

Lemma trim_quoted value : trim (quoted value) = quoted value.
Proof. by apply (trim_plain _ 34%N 34%N); [|apply (last_snoc 34%N (34%N :: value))| |]. Qed.

Lemma unquote_quoted value : unquote (quoted value) = value.
Proof.
  unfold unquote. rewrite trim_quoted. unfold quoted. simpl.
  unfold strip_suffix. rewrite reverse_snoc. simpl. by rewrite reverse_involutive.
Qed.

Lemma trim_word a : is_word a → trim a = a.
Proof.
  intros [Hne Ha]. destruct a as [|c a]; [done|].
  destruct (last (c :: a)) as [d|] eqn:Hl; [|by apply last_None in Hl].
  pose proof (proj1 (Forall_forall _ _) Ha) as Hin.
  apply (trim_plain _ c d); [done|done|apply Hin; left|].
  apply Hin. apply last_Some in Hl as [l' ->]. apply elem_of_app. right. left.
Qed.

Lemma split_directive_spec key c value :
  is_word key → is_whitespace c = true → value ≠ [] → trim value = value →
  split_directive (key ++ c :: value) = Some (key, value).
Proof.
  intros Hkey Hc Hne Hv. unfold split_directive. destruct (Hkey) as [Hk Hchars].
  rewrite split_once_at_app; [|by eapply Forall_impl; [exact Hchars|]; intros ? []|done].
  rewrite trim_word, Hv by done. by rewrite !bool_decide_false.
Qed.

(** A line with a quoted value acts on the block being read. *)
Lemma parse_print_directive out b key value :
  is_word key → eq_ignore_ascii_case key (lit "host") = false → is_value value →
  parse_line (out, Some b) (print_directive key value) =
    (out, Some (apply_directive key (quoted value) b)).
Proof.
  intros Hkey Hhost Hv. unfold parse_line, strip_comment, print_directive.
  destruct (Hkey) as [Hne Hchars].
  assert (strip_comment_from false (lit "  " ++ key ++ 32%N :: quoted value) =
    lit "  " ++ key ++ 32%N :: quoted value) as ->.
  { rewrite strip_plain by (by repeat constructor).
    rewrite strip_plain by (by eapply Forall_impl; [exact Hchars|]; intros ? (_ & ? & ?)).
    cbn [strip_comment_from N.eqb Pos.eqb andb negb]. by rewrite strip_quoted. }
  assert (trim (lit "  " ++ key ++ 32%N :: quoted value) = key ++ 32%N :: quoted value) as ->.
  { change (trim (lit "  " ++ ?t)) with (trim t). destruct key as [|c key]; [done|].
    apply (trim_plain _ c 34%N); [done| |by apply Forall_cons in Hchars as [[? _] _]|done].
    unfold quoted. change ((c :: key) ++ 32%N :: 34%N :: value ++ [34%N]) with
      (c :: key ++ [32%N; 34%N] ++ value ++ [34%N]).
    by rewrite !app_assoc, app_comm_cons, last_snoc. }
  rewrite bool_decide_false by (by destruct key).
  rewrite split_directive_spec; [|done|done|done|apply trim_quoted]. by rewrite Hhost.
Qed.

Lemma words_from_app current a t :
  Forall (λ c, is_whitespace c = false) a →
  words_from current (a ++ t) = words_from (reverse a ++ current) t.
Proof.
  intros Ha. revert current. induction Ha as [|c a Hc _ IH]; intros current; [done|].
  simpl. by rewrite Hc, IH, reverse_cons, <-app_assoc.
Qed.

Lemma split_joined a names :
  Forall is_word (a :: names) → split_whitespace (a ++ (names ≫= λ n, 32%N :: n)) = a :: names.
Proof.
  unfold split_whitespace. revert a.
  induction names as [|n names IH]; intros a [[Hne Ha] Hnames]%Forall_cons.
  all: rewrite words_from_app, app_nil_r by (by eapply Forall_impl; [exact Ha|]; intros ? []).
  all: assert (Hw : word_of (reverse a) = [a]) by
    (unfold word_of; destruct (reverse a) as [|c rest] eqn:Hr; rewrite <-?Hr, ?reverse_involutive;
      [destruct Hne; by rewrite <-(reverse_involutive a), Hr|done]).
  - simpl. by rewrite Hw.
  - rewrite bind_cons. simpl. rewrite Hw. simpl. f_equal. by apply IH.
Qed.

Lemma unquote_word a : is_word a → unquote a = a.
Proof.
  intros Ha. unfold unquote. rewrite trim_word by done. destruct Ha as [Hne Ha].
  destruct Ha as [|c a (_ & Hc & _) _]; [done|].
  cbn [strip_prefix]. by rewrite (proj2 (N.eqb_neq 34 c)) by congruence.
Qed.

Lemma unquote_words names : Forall is_word names → unquote <$> names = names.
Proof. induction 1 as [|n names Hn _ IH]; [done|]. by rewrite fmap_cons, unquote_word, IH. Qed.

Lemma joined_plain names :
  Forall is_word names →
  Forall (λ c, c ≠ 34%N ∧ c ≠ 35%N ∧ c ≠ 10%N) (names ≫= λ n, 32%N :: n).
Proof.
  intros Hnames. apply Forall_bind. eapply Forall_impl; [exact Hnames|].
  intros n [_ Hn]. constructor; [done|]. eapply Forall_impl; [exact Hn|].
  intros c (Hc & ? & ?). split_and!; [done|done|]. by intros ->.
Qed.

Lemma joined_last names x :
  names ≠ [] → Forall is_word names →
  ∃ d, last (x ++ (names ≫= λ n, 32%N :: n)) = Some d ∧ is_whitespace d = false.
Proof.
  intros Hne Hnames. destruct names as [|a names _] using rev_ind; [done|].
  apply Forall_app in Hnames as [_ [[Ha Hchars] _]%Forall_cons].
  destruct a as [|d a _] using rev_ind; [done|].
  apply Forall_app in Hchars as [_ [[Hd _] _]%Forall_cons].
  exists d. split; [|done]. rewrite bind_app. simpl. rewrite app_nil_r, !app_assoc.
  by rewrite app_comm_cons, app_assoc, last_snoc.
Qed.

(** A host line finishes the block being read and starts one. *)
Lemma parse_print_host out current names :
  names ≠ [] → Forall is_word names →
  parse_line (out, current) (lit "Host" ++ (names ≫= λ n, 32%N :: n)) =
    (out ++ option_list current, Some (default_block names)).
Proof.
  intros Hne Hnames. unfold parse_line, strip_comment.
  pose proof (joined_plain names Hnames) as Hplain.
  set (line := lit "Host" ++ _).
  assert (strip_comment_from false line = line) as ->.
  { rewrite <-(app_nil_r line) at 1. rewrite strip_plain; [by rewrite app_nil_r|].
    apply Forall_app. split; [by repeat constructor|].
    eapply Forall_impl; [exact Hplain|]. by intros c (? & ? & ?). }
  destruct (joined_last names (lit "Host") Hne Hnames) as (d & Hlast & Hd).
  rewrite (trim_plain line 72 d) by done. rewrite bool_decide_false by done.
  destruct names as [|a names]; [done|]. unfold line. rewrite bind_cons.
  change (lit "Host" ++ (32%N :: a) ++ ?t) with (lit "Host" ++ 32%N :: a ++ t).
  rewrite split_directive_spec; [|split; [done|by repeat constructor]|done| |].
  - change (eq_ignore_ascii_case (lit "Host") (lit "host")) with true. cbv iota beta.
    unfold split_words. rewrite split_joined by done. by rewrite unquote_words.
  - apply Forall_cons in Hnames as [[Ha _] _]. by destruct a.
  - destruct (joined_last (a :: names) [] Hne Hnames) as (e & He & Hwe).
    apply Forall_cons in Hnames as [[Ha Hchars] _]. destruct Hchars as [|c a [Hc _] _]; [done|].
    apply (trim_plain _ c e); [done| |done|done]. by rewrite bind_cons in He.
Qed.

Lemma lines_print l ls :
  Forall (λ l, Forall (λ c, c ≠ 10%N) l ∧ last l ≠ Some 13%N) (l :: ls) →
  lines (print_lines (l :: ls)) = l :: lines (print_lines ls).
Proof.
  intros [[Hl Hcr] _]%Forall_cons. unfold print_lines. rewrite bind_cons, <-app_assoc. simpl.
  unfold lines. by rewrite lines_from_app, app_nil_r, line_of_plain.
Qed.

Lemma print_lines_lines ls :
  Forall (λ l, Forall (λ c, c ≠ 10%N) l ∧ last l ≠ Some 13%N) ls → lines (print_lines ls) = ls.
Proof.
  induction ls as [|l ls IH]; intros Hls; [done|].
  rewrite lines_print by done. f_equal. apply IH. by apply Forall_cons in Hls as [_ ?].
Qed.

Lemma show_value n : is_value (show_N n).
Proof.
  destruct (show_N_digits n) as [_ Hd]. eapply Forall_impl; [exact Hd|].
  intros c Hc. split; intros ->; by vm_compute in Hc.
Qed.

Lemma print_directive_line key value :
  is_word key → is_value value →
  Forall (λ c, c ≠ 10%N) (print_directive key value) ∧ last (print_directive key value) ≠ Some 13%N.
Proof.
  intros [_ Hkey] Hv. split.
  - unfold print_directive, quoted. rewrite !Forall_app, !Forall_cons, Forall_app.
    split_and!; [by repeat constructor| |done|done| |by repeat constructor].
    + eapply Forall_impl; [exact Hkey|]. by intros c (Hc & _) ->.
    + eapply Forall_impl; [exact Hv|]. by intros c [].
  - unfold print_directive, quoted.
    replace (lit "  " ++ key ++ 32%N :: 34%N :: value ++ [34%N]) with
      ((lit "  " ++ key ++ 32%N :: 34%N :: value) ++ [34%N]) by (by rewrite <-!app_assoc).
    by rewrite last_snoc.
Qed.

Lemma print_block_lines b :
  is_printable b → Forall (λ l, Forall (λ c, c ≠ 10%N) l ∧ last l ≠ Some 13%N) (print_block b).
Proof.
  intros (Hne & Hwords & Hh & Hu & _ & Hi). unfold print_block. constructor.
  { split.
    - apply Forall_app. split; [by repeat constructor|].
      eapply Forall_impl; [by apply joined_plain|]. by intros c (? & ? & ?).
    - destruct (joined_last (aliases b) (lit "Host") Hne Hwords) as (d & -> & Hd). by intros [= ->]. }
  assert (Hopt : ∀ key value, is_word key → (∀ v, value = Some v → is_value v) →
    Forall (λ l, Forall (λ c, c ≠ 10%N) l ∧ last l ≠ Some 13%N) (print_option key value)).
  { intros key [v|] Hkey Hv; simpl; [|done]. constructor; [|done]. by apply print_directive_line; [|apply Hv]. }
  assert (Hkeys : Forall is_word [lit "HostName"; lit "User"; lit "Port"; lit "IdentityFile"])
    by (by repeat constructor).
  repeat apply Forall_cons in Hkeys as [? Hkeys].
  rewrite !Forall_app. split_and!; apply Hopt; try done.
  intros v. destruct (host_port b); simpl; [|done]. intros [= <-]. apply show_value.
Qed.

Lemma parse_print_option out b key value :
  is_word key → eq_ignore_ascii_case key (lit "host") = false →
  (∀ v, value = Some v → is_value v) →
  foldl parse_line (out, Some b) (print_option key value) =
    (out, Some (match value with Some v => apply_directive key (quoted v) b | None => b end)).
Proof.
  intros Hkey Hhost Hv. destruct value as [v|]; [|done]. simpl.
  apply (parse_print_directive out b key v Hkey Hhost). by apply Hv.
Qed.

Lemma apply_hostname v b :
  apply_directive (lit "HostName") v b =
  {| aliases := aliases b; host_name := Some (unquote v); host_user := host_user b;
     host_port := host_port b; identity_file := identity_file b |}.
Proof. done. Qed.

Lemma apply_user v b :
  apply_directive (lit "User") v b =
  {| aliases := aliases b; host_name := host_name b; host_user := Some (unquote v);
     host_port := host_port b; identity_file := identity_file b |}.
Proof. done. Qed.

Lemma apply_port v b :
  apply_directive (lit "Port") v b =
  {| aliases := aliases b; host_name := host_name b; host_user := host_user b;
     host_port := parse_unsigned u16_max (unquote v); identity_file := identity_file b |}.
Proof. done. Qed.

Lemma apply_identityfile v b :
  identity_file b = None →
  apply_directive (lit "IdentityFile") v b =
  {| aliases := aliases b; host_name := host_name b; host_user := host_user b;
     host_port := host_port b; identity_file := Some (unquote v) |}.
Proof. intros Hi. unfold apply_directive. by rewrite Hi. Qed.

Lemma parse_print_block out current b :
  is_printable b → foldl parse_line (out, current) (print_block b) = (out ++ option_list current, Some b).
Proof.
  intros (Hne & Hwords & Hh & Hu & Hp & Hi).
  assert (Hport : ∀ v, show_N <$> host_port b = Some v → is_value v).
  { intros v. destruct (host_port b); simpl; [|done]. intros [= <-]. apply show_value. }
  unfold print_block. cbn [foldl]. rewrite parse_print_host by done. rewrite !foldl_app.
  rewrite !parse_print_option by (done || by split; [|repeat constructor]).
  do 2 f_equal. destruct b as [names h u p i]; cbn -[show_N lit] in *.
  destruct h, u, p as [p|], i; cbn -[apply_directive lit quoted show_N];
    rewrite ?apply_hostname, ?apply_user, ?apply_port, ?apply_identityfile; cbn -[quoted lit unquote show_N parse_unsigned];
    rewrite ?unquote_quoted, ?parse_show by (by apply Hp); done.
Qed.

(** C21: A configuration written with quoted values is read back: whatever host blocks with
    word aliases and values without quotes and line feeds (spaces and number signs
    included) are written, [parse_blocks] finds exactly these. *)
Theorem config_round_trip blocks (Hblocks : Forall is_printable blocks) :
  parse_blocks (print_config blocks) = blocks.
Proof.
  unfold parse_blocks, print_config. rewrite print_lines_lines.
  2: { apply Forall_bind. eapply Forall_impl; [exact Hblocks|]. apply print_block_lines. }
  assert (Hgen : ∀ out current,
    let '(out', current') := foldl parse_line (out, current) (blocks ≫= print_block) in
    out' ++ option_list current' = out ++ option_list current ++ blocks).
  { induction Hblocks as [|b blocks Hb _ IH]; intros out current; [by rewrite app_nil_r|].
    rewrite bind_cons, foldl_app, parse_print_block by done.
    specialize (IH (out ++ option_list current) (Some b)).
    destruct (foldl _ _ _) as [out' current']. rewrite IH. by rewrite <-app_assoc. }
  specialize (Hgen [] None). by destruct (foldl _ _ _).
Qed.

Lemma config_round_trip_witness :
  let blocks :=
    [{| aliases := [lit "prod"; lit "*.example"]; host_name := Some (lit " a # b ");
        host_user := None; host_port := Some 2202%N; identity_file := Some (lit "~/.ssh/id") |};
     default_block [lit "staging"]] in
  Forall is_printable blocks ∧ parse_blocks (print_config blocks) = blocks.
Proof.
  split; [|apply config_round_trip].
  all: repeat constructor; cbn in *; try done.
  all: intros v Hv; simplify_eq; repeat constructor; done.
Defined.


Example parses_host_entry :
  parse_blocks (lit "Host *" ++ [10%N] ++ lit "  ServerAliveInterval 30" ++ [10; 13; 10]%N ++
    lit "Host prod-api " ++ [34; 120; 34; 13; 10]%N ++ lit "  HostName " ++ [34%N] ++ lit "a # b" ++
    [34%N] ++ lit " # c" ++ [10%N] ++ lit "  Port 2202" ++ [10%N] ++ lit "  port 99999") =
  [{| aliases := [lit "*"]; host_name := None; host_user := None; host_port := None;
      identity_file := None |};
   {| aliases := [lit "prod-api"; lit "x"]; host_name := Some (lit "a # b"); host_user := None;
      host_port := None; identity_file := None |}].
Proof. by vm_compute. Qed.
