(* ===== verification/DuckValue.v ===== *)
(** * The DuckDB driver: values

    ipc/duckdb/src/value.rs: what the database returns becomes cells of the protocol, and
    bound parameters become database values.  The types of the duckdb and chrono crates
    are taken as far as they are read: a calendar date, a decimal and the debug form of
    the other value types are parameters or carried as their text.  A float is its bits. *)

From S2P Require Import Prelude VncClipboard Text JsonValue.

(** [extension_protocol::row::CellValue]; the items of an array as the JSON they
    serialise to. *)
Inductive CellValue : Type :=
  | CNull
  | CBool (value : bool)
  | CI64 (value : Z)
  | CU64 (value : N)
  | CF64 (value : N)
  | CDecimal (value : list N)
  | CText (value : list N)
  | CUuid (value : list N)
  | CDate (value : list N)
  | CTime (value : list N)
  | CDatetime (value : list N)
  | CDuration (value : list N)
  | CBytes (value : list N)
  | CJson (value : Value)
  | CArray (value : list Value)
  | CMap (value : list (list N * Value))
  | CGeo (value : list N)
  | CCustom (subtype raw : list N).

(** [extension_protocol::row::ColumnTypeKind] *)
Inductive ColumnTypeKind : Type :=
  | KBool | KI64 | KU64 | KF64 | KDecimal | KText | KBytes | KDate | KTime | KDatetime
  | KDuration | KUuid | KJson | KArray | KMap.

Record ColumnSpec := { column_name : list N; column_type : list N; column_kind : ColumnTypeKind }.

(** [duckdb::types::TimeUnit], [ValueRef] and [Value] *)
Inductive TimeUnit : Type := Second | Millisecond | Microsecond | Nanosecond.

Inductive ValueRef : Type :=
  | RNull
  | RBoolean (v : bool)
  | RTinyInt (v : Z) | RSmallInt (v : Z) | RInt (v : Z) | RBigInt (v : Z) | RHugeInt (v : Z)
  | RUTinyInt (v : N) | RUSmallInt (v : N) | RUInt (v : N) | RUBigInt (v : N)
  | RFloat (bits : N) | RDouble (bits : N)
  | RDecimal (text : list N)
  | RTimestamp (unit : TimeUnit) (value : Z)
  | RText (b : bytes)
  | RBlob (b : bytes)
  | RDate32 (days : Z)
  | RTime64 (unit : TimeUnit) (value : Z)
  | ROther (debug : list N).

Inductive DuckValue : Type :=
  | VNull
  | VBoolean (v : bool)
  | VBigInt (v : Z)
  | VUBigInt (v : N)
  | VDouble (bits : N)
  | VText (t : list N)
  | VBlob (b : bytes).

(** What the conversions use of other crates: base64, chrono, serde_json's printer, and
    the conversion of the time units of the duckdb crate. *)
Class ValueLib := {
  base64_encode : bytes → list N;
  base64_decode : list N → list N + bytes;
  f32_to_f64 : N → N;
  (** ["%Y-%m-%d %H:%M:%S"] of a number of seconds since 1970, if in range *)
  format_seconds : Z → option (list N);
  (** ["%Y-%m-%d"] of a number of days since 1970, if in range *)
  format_days : Z → option (list N);
  unit_debug : TimeUnit → list N;
  to_micros : TimeUnit → Z → Z;
  json_text : Value → list N
}.

(** [z.to_string()] *)
Definition show_Z (z : Z) : list N :=
  if (z <? 0)%Z then 45%N :: show_N (Z.to_N (- z)) else show_N (Z.to_N z).

(** [format!("{n:0width$}")] *)
Definition pad_zeros (width : nat) (n : N) : list N :=
  replicate (width - length (show_N n)) 48%N ++ show_N n.

Definition units_per_second (unit : TimeUnit) : Z :=
  match unit with
  | Second => 1 | Millisecond => 1000 | Microsecond => 1000000 | Nanosecond => 1000000000
  end%Z.

Definition split_epoch (unit : TimeUnit) (value : Z) : Z * N :=
  let nanos_per_second := units_per_second unit in
  let seconds := (value / nanos_per_second)%Z in
  let units := (value `mod` nanos_per_second)%Z in
  let nanos_per_unit := (1000000000 / nanos_per_second)%Z in
  (seconds, Z.to_N ((units * nanos_per_unit) `mod` 2 ^ 32)%Z).

Fixpoint drop_trailing_zeros (reversed : list N) : list N :=
  match reversed with
  | c :: rest => if (c =? 48)%N then drop_trailing_zeros rest else reversed
  | [] => []
  end.

Definition append_fraction (value : list N) (nanos : N) : list N :=
  if (nanos =? 0)%N then value
  else value ++ 46%N :: reverse (drop_trailing_zeros (reverse (pad_zeros 9 nanos))).

Section value.
Context `{ValueLib}.

Definition bytes_to_base64 (b : bytes) : list N := base64_encode b.

Definition format_timestamp (unit : TimeUnit) (value : Z) : list N :=
  let '(secs, nanos) := split_epoch unit value in
  match format_seconds secs with
  | Some datetime => append_fraction datetime nanos
  | None => lit "Timestamp(" ++ unit_debug unit ++ lit ", " ++ show_Z value ++ lit ")"
  end.

Definition format_date32 (days : Z) : list N :=
  match format_days days with
  | Some date => date
  | None => lit "Date32(" ++ show_Z days ++ lit ")"
  end.

Definition format_time64 (unit : TimeUnit) (value : Z) : list N :=
  let '(_, nanos) := split_epoch unit value in
  let seconds := (to_micros unit value / 1000000)%Z in
  let seconds_of_day := Z.to_N (seconds `mod` 86400)%Z in
  let hour := (seconds_of_day / 3600)%N in
  let minute := ((seconds_of_day `mod` 3600) / 60)%N in
  let second := (seconds_of_day `mod` 60)%N in
  append_fraction
    (pad_zeros 2 hour ++ lit ":" ++ pad_zeros 2 minute ++ lit ":" ++ pad_zeros 2 second) nanos.

Definition value_ref_to_cell (value : ValueRef) : CellValue :=
  match value with
  | RNull => CNull
  | RBoolean v => CBool v
  | RTinyInt v | RSmallInt v | RInt v | RBigInt v => CI64 v
  | RHugeInt v => CDecimal (show_Z v)
  | RUTinyInt v | RUSmallInt v | RUInt v | RUBigInt v => CU64 v
  | RFloat v => CF64 (f32_to_f64 v)
  | RDouble v => CF64 v
  | RDecimal v => CDecimal v
  | RTimestamp unit value => CDatetime (format_timestamp unit value)
  | RText b =>
      match utf8_decode b with
      | Some s => CText s
      | None => CBytes (bytes_to_base64 b)
      end
  | RBlob b => CBytes (bytes_to_base64 b)
  | RDate32 days => CDate (format_date32 days)
  | RTime64 unit value => CTime (format_time64 unit value)
  | ROther debug => CText debug
  end.

Definition cell_value_to_duckdb_value (cell : CellValue) : list N + DuckValue :=
  match cell with
  | CNull => inr VNull
  | CBool value => inr (VBoolean value)
  | CI64 value => inr (VBigInt value)
  | CU64 value => inr (VUBigInt value)
  | CF64 value => inr (VDouble value)
  | CDecimal value | CText value | CUuid value | CDate value | CTime value
  | CDatetime value | CDuration value => inr (VText value)
  | CBytes value =>
      match base64_decode value with
      | inl error => inl (lit "invalid base64 bytes parameter: " ++ error)
      | inr b => inr (VBlob b)
      end
  | CJson value => inr (VText (json_text value))
  | CArray value => inr (VText (json_text (Array value)))
  | CMap value => inr (VText (json_text (Object value)))
  | CGeo value => inr (VText value)
  | CCustom _ raw => inr (VText raw)
  end.
End value.

Definition map_column_type_kind (db_type : list N) : ColumnTypeKind :=
  let upper := to_ascii_uppercase db_type in
  let base := trim (default upper (head (split_char 40 [] upper))) in
  if one_of ["BOOL"; "BOOLEAN"; "BIT"] base then KBool
  else if one_of ["TINYINT"; "SMALLINT"; "INT"; "INTEGER"; "BIGINT"] base then KI64
  else if one_of ["UTINYINT"; "USMALLINT"; "UINT"; "UINTEGER"; "UBIGINT"] base then KU64
  else if one_of ["FLOAT"; "DOUBLE"; "REAL"] base then KF64
  else if one_of ["DECIMAL"; "NUMERIC"; "MONEY"; "HUGEINT"] base then KDecimal
  else if one_of ["VARCHAR"; "CHAR"; "TEXT"; "NVARCHAR"; "CHARACTER"; "STRING"] base then KText
  else if one_of ["BLOB"; "BYTEA"; "VARBINARY"; "BINARY"] base then KBytes
  else if one_of ["DATE"] base then KDate
  else if one_of ["TIME"] base then KTime
  else if one_of ["TIMESTAMP"; "TIMESTAMPTZ"; "DATETIME"] base then KDatetime
  else if one_of ["INTERVAL"] base then KDuration
  else if one_of ["UUID"] base then KUuid
  else if one_of ["JSON"; "JSONB"] base then KJson
  else if one_of ["LIST"; "ARRAY"] base then KArray
  else if one_of ["MAP"; "STRUCT"] base then KMap
  else KText.
