(* ===== verification/DuckState.v ===== *)
(** * The DuckDB driver: the state of a client

    ipc/duckdb/src/state.rs: connections with their cursors, export streams, imports and
    transactions.  The identifiers handed out are counters; a counter wraps around at
    2^64.  [Session] is the type of a database session and [Options] that of CSV options. *)

From S2P Require Import Prelude Text DuckValue.

Abbreviation text := (list N) (only parsing).
Abbreviation ConnId := N (only parsing).
Abbreviation CursorId := (list N) (only parsing).
Abbreviation StreamId := (list N) (only parsing).
Abbreviation ImportId := (list N) (only parsing).
Abbreviation TxId := (list N) (only parsing).

(** The error codes of the protocol crate the driver uses, by name. *)
Inductive ErrorCode : Type :=
  | METHOD_NOT_FOUND | INVALID_PARAMS | INTERNAL_ERROR | NOT_INITIALIZED
  | ALREADY_INITIALIZED | SERVER_INCOMPATIBLE | SERVER_CLOSED_CONNECTION
  | IO_CONNECTION_REFUSED | RESOURCE_CLOSED
  | UNKNOWN_CONN_ID | UNKNOWN_CURSOR_ID | UNKNOWN_TX_ID | UNKNOWN_IMPORT_ID
  | TX_ROLLBACK_REQUIRED | TX_NESTED_NOT_SUPPORTED | TX_ISOLATION_NOT_SUPPORTED
  | DATA_TYPE_MISMATCH
  | SQL_SYNTAX_ERROR | SQL_OBJECT_NOT_FOUND | SQL_OBJECT_ALREADY_EXISTS
  | SQL_UNKNOWN_TABLE | SQL_UNKNOWN_COLUMN | SQL_UNKNOWN_FUNCTION
  | SQL_UNIQUE_VIOLATION | SQL_NOT_NULL_VIOLATION | SQL_CHECK_VIOLATION
  | SQL_CONSTRAINT_VIOLATION.

(** [extension_protocol::data], as far as it is read. *)
Record CsvOptions := {
  delimiter : text; quote : text; header : bool; null_string : option text; encoding : text
}.

Record ImportOptions := {
  upsert : bool; on_conflict_columns : list text; disable_triggers : bool;
  track_failed_rows : bool; abort_on_failures : option N
}.

Record FailedRow := { row_index : N; failed_message : text; failed_code : ErrorCode }.

(** ** Cursors *)

Record CursorState := {
  cs_columns : list ColumnSpec; cs_conn_id : ConnId; cs_sql : text;
  cs_params : list CellValue; cs_next_row : N; cs_fetch_size : option N;
  cs_max_rows : option N; cs_done : bool
}.

Definition new_cursor (conn_id : ConnId) (columns : list ColumnSpec) (sql : text)
    (params : list CellValue) (fetch_size max_rows : option N) : CursorState :=
  {| cs_columns := columns; cs_conn_id := conn_id; cs_sql := sql; cs_params := params;
     cs_next_row := 0; cs_fetch_size := fetch_size; cs_max_rows := max_rows;
     cs_done := bool_decide (max_rows = Some 0%N) |}.

Definition remaining_max_rows (c : CursorState) : option N :=
  (λ max_rows, max_rows - cs_next_row c)%N <$> cs_max_rows c.

(** [CursorState::advance] *)
Definition advance (fetched : nat) (requested : N) (c : CursorState) : CursorState :=
  let next_row := sat_add u64_max (cs_next_row c) (N.of_nat fetched) in
  let remaining := (λ max_rows, max_rows - next_row)%N <$> cs_max_rows c in
  {| cs_columns := cs_columns c; cs_conn_id := cs_conn_id c; cs_sql := cs_sql c;
     cs_params := cs_params c; cs_next_row := next_row; cs_fetch_size := cs_fetch_size c;
     cs_max_rows := cs_max_rows c;
     cs_done := cs_done c || (N.of_nat fetched <? requested)%N ||
                bool_decide (remaining = Some 0%N) |}.

Definition cancel (c : CursorState) : CursorState :=
  {| cs_columns := cs_columns c; cs_conn_id := cs_conn_id c; cs_sql := cs_sql c;
     cs_params := cs_params c; cs_next_row := cs_next_row c;
     cs_fetch_size := cs_fetch_size c; cs_max_rows := cs_max_rows c; cs_done := true |}.

(** ** Export streams *)

Inductive ExportStreamFormat : Type :=
  | Csv (options : CsvOptions) (header_written : bool)
  | Ndjson.

Record ExportStreamState := {
  es_conn_id : ConnId; es_sql : text; es_columns : list text; es_format : ExportStreamFormat;
  es_next_row : N; es_max_rows : option N; es_done : bool; es_pending : bytes
}.

Definition new_stream (conn_id : ConnId) (sql : text) (columns : list text)
    (format : ExportStreamFormat) (max_rows : option N) : ExportStreamState :=
  {| es_conn_id := conn_id; es_sql := sql; es_columns := columns; es_format := format;
     es_next_row := 0; es_max_rows := max_rows;
     es_done := bool_decide (max_rows = Some 0%N); es_pending := [] |}.

Definition stream_remaining (s : ExportStreamState) : option N :=
  (λ max_rows, max_rows - es_next_row s)%N <$> es_max_rows s.

(** [ExportStreamState::advance] *)
Definition stream_advance (fetched : nat) (requested : N) (s : ExportStreamState)
    : ExportStreamState :=
  let next_row := sat_add u64_max (es_next_row s) (N.of_nat fetched) in
  let remaining := (λ max_rows, max_rows - next_row)%N <$> es_max_rows s in
  {| es_conn_id := es_conn_id s; es_sql := es_sql s; es_columns := es_columns s;
     es_format := es_format s; es_next_row := next_row; es_max_rows := es_max_rows s;
     es_done := es_done s || (N.of_nat fetched <? requested)%N ||
                bool_decide (remaining = Some 0%N);
     es_pending := es_pending s |}.

Definition with_pending (format : ExportStreamFormat) (pending : bytes)
    (s : ExportStreamState) : ExportStreamState :=
  {| es_conn_id := es_conn_id s; es_sql := es_sql s; es_columns := es_columns s;
     es_format := format; es_next_row := es_next_row s; es_max_rows := es_max_rows s;
     es_done := es_done s; es_pending := pending |}.

Definition append_pending (b : bytes) (s : ExportStreamState) : ExportStreamState :=
  with_pending (es_format s) (es_pending s ++ b) s.

Definition drain_pending (max_bytes : nat) (s : ExportStreamState) : ExportStreamState * bytes :=
  let n := max_bytes `min` length (es_pending s) in
  (with_pending (es_format s) (drop n (es_pending s)) s, take n (es_pending s)).

(** ** Imports *)

Record ImportState := {
  is_conn_id : ConnId; is_table_ref : text; is_columns : list text; is_options : ImportOptions;
  is_inserted : N; is_failed : list FailedRow; is_failed_count : N; is_next_row : N;
  is_started : N
}.

(** [started] is the clock reading at the call. *)
Definition new_import (conn_id : ConnId) (table_ref : text) (columns : list text)
    (options : ImportOptions) (started : N) : ImportState :=
  {| is_conn_id := conn_id; is_table_ref := table_ref; is_columns := columns;
     is_options := options; is_inserted := 0; is_failed := []; is_failed_count := 0;
     is_next_row := 0; is_started := started |}.

Definition record_inserted (i : ImportState) : ImportState :=
  {| is_conn_id := is_conn_id i; is_table_ref := is_table_ref i; is_columns := is_columns i;
     is_options := is_options i; is_inserted := sat_add u64_max (is_inserted i) 1;
     is_failed := is_failed i; is_failed_count := is_failed_count i;
     is_next_row := sat_add u64_max (is_next_row i) 1; is_started := is_started i |}.

Definition record_failed (message : text) (code : ErrorCode) (i : ImportState)
    : ImportState * option FailedRow :=
  let failed := {| row_index := is_next_row i; failed_message := message; failed_code := code |} in
  let tracked := track_failed_rows (is_options i) in
  ({| is_conn_id := is_conn_id i; is_table_ref := is_table_ref i; is_columns := is_columns i;
      is_options := is_options i; is_inserted := is_inserted i;
      is_failed := if tracked then is_failed i ++ [failed] else is_failed i;
      is_failed_count := sat_add u64_max (is_failed_count i) 1;
      is_next_row := sat_add u64_max (is_next_row i) 1; is_started := is_started i |},
   if tracked then Some failed else None).

(** ** The state of a client *)

Record ConnectionState (Session : Type) := {
  conns : gmap ConnId Session;
  cursors : gmap CursorId CursorState;
  streams : gmap StreamId ExportStreamState;
  imports : gmap ImportId ImportState;
  txs : gmap TxId ConnId;
  active_tx_by_conn : gmap ConnId TxId;
  next_conn_id : ConnId; next_cursor_id : N; next_import_id : N; next_tx_id : N
}.
Arguments Build_ConnectionState {_}.
Arguments conns {_} _.
Arguments cursors {_} _.
Arguments streams {_} _.
Arguments imports {_} _.
Arguments txs {_} _.
Arguments active_tx_by_conn {_} _.
Arguments next_conn_id {_} _.
Arguments next_cursor_id {_} _.
Arguments next_import_id {_} _.
Arguments next_tx_id {_} _.

Section state.
Context {Session : Type}.

Abbreviation State := (ConnectionState Session).

Definition new_state : State :=
  {| conns := ∅; cursors := ∅; streams := ∅; imports := ∅; txs := ∅; active_tx_by_conn := ∅;
     next_conn_id := 1; next_cursor_id := 1; next_import_id := 1; next_tx_id := 1 |}.

Definition with_conn (conn_id : ConnId) (session : Session) : State :=
  {| conns := {[conn_id := session]}; cursors := ∅; streams := ∅; imports := ∅; txs := ∅;
     active_tx_by_conn := ∅; next_conn_id := sat_add u64_max conn_id 1; next_cursor_id := 1;
     next_import_id := 1; next_tx_id := 1 |}.

(** Updates of one table. *)
Definition set_conns (m : gmap ConnId Session) (s : State) : State :=
  {| conns := m; cursors := cursors s; streams := streams s; imports := imports s;
     txs := txs s; active_tx_by_conn := active_tx_by_conn s; next_conn_id := next_conn_id s;
     next_cursor_id := next_cursor_id s; next_import_id := next_import_id s;
     next_tx_id := next_tx_id s |}.

Definition set_cursors (m : gmap CursorId CursorState) (s : State) : State :=
  {| conns := conns s; cursors := m; streams := streams s; imports := imports s;
     txs := txs s; active_tx_by_conn := active_tx_by_conn s; next_conn_id := next_conn_id s;
     next_cursor_id := next_cursor_id s; next_import_id := next_import_id s;
     next_tx_id := next_tx_id s |}.

Definition set_streams (m : gmap StreamId ExportStreamState) (s : State) : State :=
  {| conns := conns s; cursors := cursors s; streams := m; imports := imports s;
     txs := txs s; active_tx_by_conn := active_tx_by_conn s; next_conn_id := next_conn_id s;
     next_cursor_id := next_cursor_id s; next_import_id := next_import_id s;
     next_tx_id := next_tx_id s |}.

Definition set_imports (m : gmap ImportId ImportState) (s : State) : State :=
  {| conns := conns s; cursors := cursors s; streams := streams s; imports := m;
     txs := txs s; active_tx_by_conn := active_tx_by_conn s; next_conn_id := next_conn_id s;
     next_cursor_id := next_cursor_id s; next_import_id := next_import_id s;
     next_tx_id := next_tx_id s |}.

Definition set_txs (m : gmap TxId ConnId) (active : gmap ConnId TxId) (s : State) : State :=
  {| conns := conns s; cursors := cursors s; streams := streams s; imports := imports s;
     txs := m; active_tx_by_conn := active; next_conn_id := next_conn_id s;
     next_cursor_id := next_cursor_id s; next_import_id := next_import_id s;
     next_tx_id := next_tx_id s |}.

Definition open_conn (session : Session) (s : State) : State * ConnId :=
  let id := next_conn_id s in
  ({| conns := <[id := session]> (conns s); cursors := cursors s; streams := streams s;
      imports := imports s; txs := txs s; active_tx_by_conn := active_tx_by_conn s;
      next_conn_id := wrap_add u64_max id 1; next_cursor_id := next_cursor_id s;
      next_import_id := next_import_id s; next_tx_id := next_tx_id s |}, id).

Definition close_conn (id : ConnId) (s : State) : State * bool :=
  match conns s !! id with
  | None => (s, false)
  | Some _ =>
      let s := set_conns (delete id (conns s)) s in
      let s := set_streams (filter (λ '(_, stream), es_conn_id stream ≠ id) (streams s)) s in
      let s := set_imports (filter (λ '(_, i), is_conn_id i ≠ id) (imports s)) s in
      (match active_tx_by_conn s !! id with
       | Some tx_id => set_txs (delete tx_id (txs s)) (delete id (active_tx_by_conn s)) s
       | None => s
       end, true)
  end.

Definition open_cursor (cursor : CursorState) (s : State) : State * CursorId :=
  let id := lit "c-" ++ show_N (next_cursor_id s) in
  ({| conns := conns s; cursors := <[id := cursor]> (cursors s); streams := streams s;
      imports := imports s; txs := txs s; active_tx_by_conn := active_tx_by_conn s;
      next_conn_id := next_conn_id s; next_cursor_id := wrap_add u64_max (next_cursor_id s) 1;
      next_import_id := next_import_id s; next_tx_id := next_tx_id s |}, id).

Definition insert_cursor (id : CursorId) (cursor : CursorState) (s : State) : State :=
  set_cursors (<[id := cursor]> (cursors s)) s.

(** [remove_cursor] and [close_cursor] *)
Definition remove_cursor (id : CursorId) (s : State) : State * option CursorState :=
  (set_cursors (delete id (cursors s)) s, cursors s !! id).
Definition close_cursor (id : CursorId) (s : State) : State * bool :=
  (set_cursors (delete id (cursors s)) s, bool_decide (is_Some (cursors s !! id))).

Definition open_stream (id : StreamId) (stream : ExportStreamState) (s : State) : State :=
  set_streams (<[id := stream]> (streams s)) s.
Definition close_stream (id : StreamId) (s : State) : State * bool :=
  (set_streams (delete id (streams s)) s, bool_decide (is_Some (streams s !! id))).

Definition open_import (i : ImportState) (s : State) : State * ImportId :=
  let id := lit "i-" ++ show_N (next_import_id s) in
  ({| conns := conns s; cursors := cursors s; streams := streams s;
      imports := <[id := i]> (imports s); txs := txs s;
      active_tx_by_conn := active_tx_by_conn s; next_conn_id := next_conn_id s;
      next_cursor_id := next_cursor_id s;
      next_import_id := wrap_add u64_max (next_import_id s) 1; next_tx_id := next_tx_id s |}, id).
Definition remove_import (id : ImportId) (s : State) : State * option ImportState :=
  (set_imports (delete id (imports s)) s, imports s !! id).
Definition insert_import (id : ImportId) (i : ImportState) (s : State) : State :=
  set_imports (<[id := i]> (imports s)) s.

Definition begin_tx (conn_id : ConnId) (s : State) : State * option TxId :=
  match active_tx_by_conn s !! conn_id with
  | Some _ => (s, None)
  | None =>
      let tx_id := lit "tx-" ++ show_N (next_tx_id s) in
      ({| conns := conns s; cursors := cursors s; streams := streams s; imports := imports s;
          txs := <[tx_id := conn_id]> (txs s);
          active_tx_by_conn := <[conn_id := tx_id]> (active_tx_by_conn s);
          next_conn_id := next_conn_id s; next_cursor_id := next_cursor_id s;
          next_import_id := next_import_id s;
          next_tx_id := wrap_add u64_max (next_tx_id s) 1 |}, Some tx_id)
  end.

Definition tx_conn (tx_id : TxId) (s : State) : option ConnId := txs s !! tx_id.

Definition tx_matches_conn (tx_id : TxId) (conn_id : ConnId) (s : State) : bool :=
  bool_decide (tx_conn tx_id s = Some conn_id).

Definition has_active_tx (conn_id : ConnId) (s : State) : bool :=
  bool_decide (is_Some (active_tx_by_conn s !! conn_id)).

Definition close_tx (tx_id : TxId) (s : State) : State * option ConnId :=
  match txs s !! tx_id with
  | None => (s, None)
  | Some conn_id =>
      (set_txs (delete tx_id (txs s))
         (if bool_decide (active_tx_by_conn s !! conn_id = Some tx_id)
          then delete conn_id (active_tx_by_conn s) else active_tx_by_conn s) s,
       Some conn_id)
  end.
End state.
