(* ===== verification/DuckText.v ===== *)
(** * The DuckDB driver: SQL text and export formats

    The pure functions of ipc/duckdb/src/handlers.rs, data_import_support.rs,
    duckdb_session.rs and server.rs: errors, the SQL the driver builds, and the CSV and
    NDJSON lines of an export. *)

From S2P Require Import Prelude VncClipboard Text JsonValue DuckValue DuckState.

(** ** Errors *)

(** A [ProtocolError], with the chain of an error it was made from.  An [anyhow::Error]
    is the list of its messages, outermost first. *)
Record ProtocolError := {
  error_code_of : ErrorCode; error_message : text; error_chain : option (list text)
}.

Abbreviation result A := (outcome ProtocolError A) (only parsing).

Definition new_error (code : ErrorCode) (message : text) : ProtocolError :=
  {| error_code_of := code; error_message := message; error_chain := None |}.

Definition protocol_error_from_anyhow (code : ErrorCode) (chain : list text) : ProtocolError :=
  {| error_code_of := code; error_message := join (lit ": ") chain; error_chain := Some chain |}.

Definition missing_param (name : text) : ProtocolError :=
  new_error INVALID_PARAMS (lit "missing required parameter `" ++ name ++ lit "`").

Definition invalid_params (message : text) : ProtocolError := new_error INVALID_PARAMS message.

Definition params_deserialize_error (error : text) : ProtocolError :=
  new_error INVALID_PARAMS (lit "failed to deserialize params: " ++ error).

Definition unknown_conn (id : ConnId) : ProtocolError :=
  new_error UNKNOWN_CONN_ID (lit "unknown conn_id " ++ show_N id).
Definition unknown_cursor (id : text) : ProtocolError :=
  new_error UNKNOWN_CURSOR_ID (lit "unknown cursor_id `" ++ id ++ lit "`").
Definition unknown_stream (id : text) : ProtocolError :=
  new_error RESOURCE_CLOSED (lit "unknown stream_id `" ++ id ++ lit "`").
Definition unknown_tx (id : text) : ProtocolError :=
  new_error UNKNOWN_TX_ID (lit "unknown tx_id `" ++ id ++ lit "`").
Definition unknown_import (id : text) : ProtocolError :=
  new_error UNKNOWN_IMPORT_ID (lit "unknown import_id `" ++ id ++ lit "`").
Definition method_not_found (method_name : text) : ProtocolError :=
  new_error METHOD_NOT_FOUND
    (lit "method `" ++ method_name ++ lit "` is not implemented in DuckDB v2 driver").

Definition classify_duckdb_sql_error (message : text) : ErrorCode :=
  let lower := to_ascii_lowercase message in
  let has (s : string) := contains (lit s) lower in
  if has "table" && has "does not exist" then SQL_UNKNOWN_TABLE
  else if has "column" && has "does not exist" then SQL_UNKNOWN_COLUMN
  else if has "function" && has "does not exist" then SQL_UNKNOWN_FUNCTION
  else if has "duplicate key" || has "unique constraint" || has "primary key"
  then SQL_UNIQUE_VIOLATION
  else if has "not null constraint" || has "not-null constraint" then SQL_NOT_NULL_VIOLATION
  else if has "check constraint" then SQL_CHECK_VIOLATION
  else if has "constraint" then SQL_CONSTRAINT_VIOLATION
  else if has "already exists" then SQL_OBJECT_ALREADY_EXISTS
  else SQL_SYNTAX_ERROR.

(** An error of the duckdb crate is its message. *)
Definition duckdb_sql_error (error : text) : ProtocolError :=
  protocol_error_from_anyhow (classify_duckdb_sql_error error) [error].

(** ** SQL *)

Definition quote_sql_identifier (name : text) : text :=
  [34%N] ++ replace [34%N] [34; 34]%N name ++ [34%N].

(** The loop of [trimmed_query_sql], on the text in reverse: semicolons at the end, each
    followed by trimming. *)
Fixpoint strip_semicolons (fuel : nat) (trimmed : text) : text :=
  match fuel with
  | 0 => trimmed
  | S fuel =>
      match strip_suffix (lit ";") trimmed with
      | Some rest => strip_semicolons fuel (trim_end rest)
      | None => trimmed
      end
  end.

Definition trimmed_query_sql (sql : text) : text := strip_semicolons (S (length sql)) (trim sql).

Definition page_query_sql (sql : text) (limit offset : N) : text :=
  lit "SELECT * FROM (" ++ trimmed_query_sql sql ++ lit ") AS __navop_cursor_page LIMIT " ++
  show_N limit ++ lit " OFFSET " ++ show_N offset.

Definition LEGACY_DUCKDB_CATALOG : text := lit "main".

Definition is_default_catalog_reference (database current_catalog : text) : bool :=
  let database := trim database in
  bool_decide (database = []) || bool_decide (database = current_catalog) ||
  bool_decide (database = LEGACY_DUCKDB_CATALOG).

Definition is_duckdb_catalog_schema (schema : text) : bool :=
  one_of ["information_schema"; "pg_catalog"] (trim schema).

Definition should_include_internal_schema_objects (schema : option text) : bool :=
  from_option is_duckdb_catalog_schema false schema.

(** A query being built: its text and the values bound so far. *)
Definition query_parts : Type := text * list text.

Definition append_optional_filter (column : text) (value : option text) (q : query_parts)
    : query_parts :=
  match non_blank value with
  | Some value => (q.1 ++ lit " AND " ++ column ++ lit " = ?", q.2 ++ [value])
  | None => q
  end.

Definition append_duckdb_database_filter (value : option text) (column current_catalog : text)
    (q : query_parts) : query_parts :=
  match value with
  | Some value =>
      if is_default_catalog_reference value current_catalog then q
      else append_optional_filter column (Some value) q
  | None => q
  end.

Definition append_database_schema_filters (database schema : option text)
    (database_column schema_column current_catalog : text) (q : query_parts) : query_parts :=
  append_optional_filter schema_column schema
    (append_duckdb_database_filter database database_column current_catalog q).

(** *** Exports *)

(** [extension_protocol::data::DataFormat] *)
Inductive DataFormat : Type := FCsv | FJson | FNdjson | FOther (debug : text).

Record ExportParams := {
  ex_stream_id : StreamId; ex_conn_id : ConnId; ex_sql : option text; ex_table : option text;
  ex_schema : option text; ex_database : option text; ex_where_clause : option text;
  ex_include_columns : list text; ex_exclude_columns : list text; ex_format : DataFormat;
  ex_options : Value; ex_max_rows : option N
}.

Definition table_export_sql (params : ExportParams) (table : text) : text :=
  let table_name :=
    match ex_schema params with
    | Some schema =>
        if bool_decide (schema = []) then quote_sql_identifier table
        else quote_sql_identifier schema ++ lit "." ++ quote_sql_identifier table
    | None => quote_sql_identifier table
    end in
  lit "SELECT * FROM " ++ table_name ++
  match non_blank (ex_where_clause params) with
  | Some where_clause => lit " WHERE " ++ where_clause
  | None => []
  end.

Definition raw_export_sql (params : ExportParams) : result text :=
  let neither := Err (invalid_params (lit "data/export requires sql or table")) in
  match ex_sql params, ex_table params with
  | Some _, Some _ => Err (invalid_params (lit "data/export accepts either sql or table"))
  | Some sql, None => if blank sql then neither else Ok (trimmed_query_sql sql)
  | None, Some table => if blank table then neither else Ok (table_export_sql params table)
  | None, None => neither
  end.

Definition validate_export_database (database : option text) (current_catalog : text)
    : result () :=
  match database with
  | None => Ok ()
  | Some database =>
      if is_default_catalog_reference database current_catalog then Ok ()
      else Err (invalid_params (lit "DuckDB data/export only supports database `" ++
             current_catalog ++ lit "`, got `" ++ database ++ lit "`"))
  end.

(** [for column in columns { if !known.contains(column) { return Err(..) } }] *)
Fixpoint check_columns (known : list text) (error : text → ProtocolError) (columns : list text)
    : result () :=
  match columns with
  | [] => Ok ()
  | column :: rest =>
      if bool_decide (column ∈ known) then check_columns known error rest
      else Err (error column)
  end.

Definition selected_export_columns (raw_columns : list text) (params : ExportParams)
    : result (list text) :=
  let columns := if bool_decide (ex_include_columns params = []) then raw_columns
                 else ex_include_columns params in
  let columns := filter (λ column, column ∉ ex_exclude_columns params) columns in
  if bool_decide (columns = []) then Err (invalid_params (lit "data/export selected no columns"))
  else
    _ ← check_columns raw_columns
          (λ column, invalid_params (lit "unknown export column `" ++ column ++ lit "`")) columns;
    Ok columns.

Definition apply_export_projection (raw_sql : text) (columns : list text) : text :=
  lit "SELECT " ++ join (lit ", ") (quote_sql_identifier <$> columns) ++ lit " FROM (" ++
  raw_sql ++ lit ") AS __navop_export_source".

(** *** Imports *)

Record ImportBeginParams := {
  ib_conn_id : ConnId; ib_table : text; ib_schema : option text; ib_database : option text;
  ib_columns : list text; ib_format : DataFormat; ib_options : ImportOptions
}.

Definition validate_database (database : option text) : result () :=
  match database with
  | None => Ok ()
  | Some database =>
      if bool_decide (database = []) || bool_decide (database = lit "main") then Ok ()
      else Err (invalid_params
             (lit "DuckDB data/import only supports database `main`, got `" ++ database ++ lit "`"))
  end.

Definition validate_import_format (format : DataFormat) : result () :=
  match format with
  | FCsv | FJson | FNdjson => Ok ()
  | FOther other => Err (invalid_params
      (lit "DuckDB data/import does not support format `" ++ other ++ lit "` yet"))
  end.

Definition validate_import_options (options : ImportOptions) : result () :=
  if upsert options || negb (bool_decide (on_conflict_columns options = []))
  then Err (invalid_params (lit "DuckDB data/import upsert is not implemented yet"))
  else if disable_triggers options
  then Err (invalid_params
    (lit "DuckDB data/import cannot disable triggers because triggers are unsupported"))
  else Ok ().

Definition selected_import_columns (table_columns requested : list text) : result (list text) :=
  let columns := if bool_decide (requested = []) then table_columns else requested in
  _ ← check_columns table_columns (λ column, new_error SQL_UNKNOWN_COLUMN
        (lit "unknown import column `" ++ column ++ lit "`")) columns;
  Ok columns.

Definition qualified_table_ref (schema : option text) (table : text) : text :=
  match non_blank schema with
  | Some schema => quote_sql_identifier schema ++ lit "." ++ quote_sql_identifier table
  | None => quote_sql_identifier table
  end.

Definition insert_sql (i : ImportState) : text :=
  lit "INSERT INTO " ++ is_table_ref i ++ lit " (" ++
  join (lit ", ") (quote_sql_identifier <$> is_columns i) ++ lit ") VALUES (" ++
  join (lit ", ") ((λ _, lit "?") <$> is_columns i) ++ lit ")".

(** ** Export formats *)

Section format.
Context `{ValueLib}.

(** [serde_json::json!(x)] of a float: not a number and infinities are null. *)
Definition json_f64 (bits : N) : Value :=
  if (N.land (N.shiftr bits 52) 2047 =? 2047)%N then Null else Number (Float bits).

Definition json_i64 (z : Z) : Value :=
  if (z <? 0)%Z then Number (NegInt z) else Number (PosInt (Z.to_N z)).

Definition cell_to_json_value (cell : CellValue) : Value :=
  match cell with
  | CNull => Null
  | CBool value => Bool value
  | CI64 value => json_i64 value
  | CU64 value => Number (PosInt value)
  | CF64 value => json_f64 value
  | CJson value => value
  | CMap value => Object value
  | CArray value => Array value
  | CDecimal value | CText value | CUuid value | CDate value | CTime value
  | CDatetime value | CDuration value | CBytes value | CGeo value => Str value
  | CCustom subtype raw => Str (lit "custom:" ++ subtype ++ lit "(" ++ raw ++ lit ")")
  end.

Definition cell_to_csv_string (cell : CellValue) (options : CsvOptions) : text :=
  match cell_to_json_value cell with
  | Null => default (lit "\N") (null_string options)
  | Str value => value
  | other => json_text other
  end.

Definition cell_to_csv_field (cell : CellValue) (options : CsvOptions) : text * bool :=
  let is_null := match cell with CNull => true | _ => false end in
  let value := cell_to_csv_string cell options in
  let null_string := default (lit "\N") (null_string options) in
  (value, negb is_null && (bool_decide (value = []) || bool_decide (value = null_string))).

Definition csv_escape (value : text) (options : CsvOptions) (force_quote : bool) : text :=
  let needs_quote := force_quote || contains (delimiter options) value || has_char 10 value ||
                     has_char 13 value || contains (quote options) value in
  if needs_quote then
    quote options ++ replace (quote options) (quote options ++ quote options) value ++ quote options
  else value.

Definition csv_line (values : list (text * bool)) (options : CsvOptions) : text :=
  join (delimiter options) ((λ '(value, force_quote), csv_escape value options force_quote) <$> values)
  ++ [10%N].

Definition render_csv_rows (options : CsvOptions) (header_written : bool) (columns : list text)
    (rows : list (list CellValue)) : bool * bytes :=
  let with_header := header options && negb header_written in
  let out := if with_header then csv_line ((λ value, (value, false)) <$> columns) options else [] in
  let out := out ++ (rows ≫= λ row, csv_line ((λ cell, cell_to_csv_field cell options) <$> row) options) in
  (header_written || with_header, utf8_encode out).

(** [Map::insert]: a name that is there already keeps its place. *)
Fixpoint insert_member (name : text) (value : Value) (members : list (text * Value))
    : list (text * Value) :=
  match members with
  | [] => [(name, value)]
  | (key, old) :: rest =>
      if bool_decide (key = name) then (key, value) :: rest
      else (key, old) :: insert_member name value rest
  end.

Definition ndjson_object (columns : list text) (row : list CellValue) : Value :=
  Object (foldl (λ members '(column, cell), insert_member column (cell_to_json_value cell) members)
            [] (zip columns row)).

Definition render_ndjson_rows (columns : list text) (rows : list (list CellValue)) : bytes :=
  rows ≫= λ row, utf8_encode (json_text (ndjson_object columns row)) ++ [10%N].

Definition render_export_rows (format : ExportStreamFormat) (columns : list text)
    (rows : list (list CellValue)) : ExportStreamFormat * bytes :=
  match format with
  | Csv options header_written =>
      let '(header_written, out) := render_csv_rows options header_written columns rows in
      (Csv options header_written, out)
  | Ndjson => (Ndjson, render_ndjson_rows columns rows)
  end.
End format.

Section csv_options.
(** serde's reading of the options, and [CsvOptions::default()] *)
Context (parse_options : Value → text + CsvOptions) (default_options : CsvOptions).

Definition parse_csv_options (options : Value) : result CsvOptions :=
  options ← match options with
            | Null => Ok default_options
            | _ => match parse_options options with
                   | inl error => Err (params_deserialize_error error)
                   | inr options => Ok options
                   end
            end;
  if bool_decide (delimiter options = []) || bool_decide (quote options = [])
  then Err (invalid_params (lit "CSV delimiter and quote must not be empty"))
  else if negb (eq_ignore_ascii_case (encoding options) (lit "utf-8"))
  then Err (invalid_params (lit "DuckDB data/export only supports utf-8 CSV"))
  else Ok options.

Definition export_stream_format (format : DataFormat) (options : Value)
    : result ExportStreamFormat :=
  match format with
  | FCsv => options ← parse_csv_options options; Ok (Csv options false)
  | FNdjson => Ok Ndjson
  | FJson => Err (invalid_params (lit "DuckDB data/export does not support format `Json` yet"))
  | FOther other => Err (invalid_params
      (lit "DuckDB data/export does not support format `" ++ other ++ lit "` yet"))
  end.
End csv_options.

(** ** Function signatures *)

Definition trim_matches (c : N) (t : text) : text :=
  let trim_start_matches := fix go t := match t with
    | d :: rest => if (d =? c)%N then go rest else t
    | [] => []
    end in
  reverse (trim_start_matches (reverse (trim_start_matches t))).

(** The names of the arguments of a signature: between the first opening and the last
    closing parenthesis after it. *)
Definition duckdb_signature_args (signature : text) : list text :=
  match split_once_at (N.eqb 40) signature with
  | None => []
  | Some (_, rest) =>
      match split_once_at (N.eqb 41) (reverse rest) with
      | None => []
      | Some (_, inner) =>
          filter (λ item, item ≠ [] ∧ item ≠ lit "...")
            ((λ item, trim (trim_matches 93 (trim_matches 91 (trim item)))) <$>
             split_char 44 [] (reverse inner))
      end
  end.
