(* ===== verification/DuckServer.v ===== *)
(** * The DuckDB driver: the handlers

    ipc/duckdb/src/handlers.rs (all but the schema queries and the DDL builders, which
    have files of their own), data_import.rs, data_import_support.rs, duckdb_session.rs
    and driver.rs.  The database is the class [DuckDb]: what the duckdb crate's calls do
    to the databases of the process, and what they return; an error is its message.  The
    driver's state is that of the client together with the databases. *)

From S2P Require Import Prelude VncClipboard Text JsonValue DuckValue DuckState DuckText.

(** ** The database *)

(** The columns of a statement, and what iterating over its rows yields: rows, then
    possibly an error.  A cell that cannot be read is [None]. *)
Record StmtColumns := { stmt_names : list text; stmt_types : list text }.
Record Rows := {
  rows_columns : option StmtColumns;
  rows_cells : list (list (option ValueRef));
  rows_error : option text
}.

Class DuckDb := {
  Db : Type;
  Conn : Type;
  Stmt : Type;
  open_db : text → Db → Db * (text + Conn);
  prepare : Conn → text → Db → Db * (text + Stmt);
  query : Stmt → list DuckValue → Db → Db * (text + Rows);
  stmt_execute : Stmt → list DuckValue → Db → Db * (text + N);
  execute : Conn → text → list DuckValue → Db → Db * (text + N);
  (** [row.get(i)] as a [String], an [Option<String>], a [bool] and an [i64] *)
  from_sql_string : option ValueRef → text + text;
  from_sql_opt_string : option ValueRef → text + option text;
  from_sql_bool : option ValueRef → text + bool;
  from_sql_i64 : option ValueRef → text + Z
}.

(** ** Parameters and results, as far as they are read or built *)

Record DbConnectionConfig := {
  host : text; config_database : option text; extra_params : gmap text text
}.
Record ConnOpenParams := { driver_id : text; co_config : Value }.
Record ConnUseParams := { cu_conn_id : ConnId; cu_database : option text }.
Record QueryStartParams := {
  qs_conn_id : ConnId; qs_tx_id : option TxId; qs_sql : text; qs_params : list CellValue;
  qs_fetch_size : option N; qs_max_rows : option N
}.
Record CursorFetchParams := { cf_cursor_id : CursorId; cf_n : option N }.
Record ExecRunParams := {
  er_conn_id : ConnId; er_tx_id : option TxId; er_sql : text; er_params : list CellValue
}.
Record ExecBatchParams := {
  eb_conn_id : ConnId; eb_statements : list text; eb_in_transaction : bool;
  eb_stop_on_error : bool
}.
Inductive IsolationLevel : Type := DefaultLevel | OtherLevel (debug : text).
Record TxBeginParams := {
  tb_conn_id : ConnId; tb_read_only : bool; tb_deferrable : option bool;
  tb_isolation : option IsolationLevel
}.
Record TxRollbackParams := { tr_tx_id : TxId; to_savepoint : option text }.
Record StreamReadParams := { sr_stream_id : StreamId; sr_max_bytes : option N }.
Record ImportChunkParams := { ic_import_id : ImportId; ic_rows : list (list CellValue) }.

(** [None] is [ExecRunResult::default()] *)
Record ExecRunResult := { affected_rows : N }.
Record BatchError := { be_index : N; be_code : ErrorCode; be_message : text }.
Record ExecBatchResult := { results : list ExecRunResult; errors : list BatchError }.
Record ExportResult := { estimated_rows : option N; export_columns : list text;
                         export_format : DataFormat }.
Record StreamReadResult := { sr_data : text; sr_done : bool }.
Record ImportChunkResult := { chunk_inserted : N; chunk_failed : list FailedRow }.
Record ImportCommitResult := {
  commit_inserted : N; commit_failed : list FailedRow; elapsed_ms : N
}.

(** What serde derives for the messages; a type that is only read for an identifier is
    parsed to the identifier. *)
Class DuckCodec := {
  conn_open_params :: FromValue ConnOpenParams;
  config_params :: FromValue DbConnectionConfig;
  conn_close_params : FromValue ConnId;
  conn_ping_params : FromValue ConnId;
  conn_use_params :: FromValue ConnUseParams;
  query_start_params :: FromValue QueryStartParams;
  cursor_fetch_params :: FromValue CursorFetchParams;
  cursor_close_params : FromValue CursorId;
  cursor_cancel_params : FromValue CursorId;
  exec_run_params :: FromValue ExecRunParams;
  exec_batch_params :: FromValue ExecBatchParams;
  tx_begin_params :: FromValue TxBeginParams;
  tx_commit_params : FromValue TxId;
  tx_rollback_params :: FromValue TxRollbackParams;
  export_params :: FromValue ExportParams;
  csv_options :: FromValue CsvOptions;
  default_csv_options : CsvOptions;
  stream_read_params :: FromValue StreamReadParams;
  stream_close_params : FromValue StreamId;
  import_begin_params :: FromValue ImportBeginParams;
  import_chunk_params :: FromValue ImportChunkParams;
  import_commit_params : FromValue ImportId;
  import_abort_params : FromValue ImportId;
  exec_batch_value :: ToValue ExecBatchResult;
  tx_begin_value : ToValue TxId;
  export_value :: ToValue ExportResult;
  stream_read_value :: ToValue StreamReadResult;
  import_begin_value : ToValue ImportId;
  import_chunk_value :: ToValue ImportChunkResult;
  import_commit_value :: ToValue ImportCommitResult;
  column_value : ColumnSpec → Value;
  cell_json : CellValue → Value
}.

Definition parse_params {T} (H : FromValue T) (v : Value) : result T :=
  match H v with inl error => Err (params_deserialize_error error) | inr p => Ok p end.

Definition serialize {T} (H : ToValue T) (a : T) : result Value :=
  match H a with inl error => Err (params_deserialize_error error) | inr v => Ok v end.

Definition DEFAULT_CURSOR_FETCH_SIZE : N := 1000.
Definition MAX_CURSOR_FETCH_SIZE : N := 10000.
Definition DEFAULT_STREAM_READ_BYTES : N := 65536.
Definition MAX_STREAM_READ_BYTES : N := 1048576.
Definition EXPORT_FETCH_ROWS : N := 1000.

(** [DuckDbSession] *)
Record DuckDbSession `{DuckDb} := {
  session_config : option DbConnectionConfig; session_connection : option Conn
}.

Record Duck `{DuckDb} := { client : ConnectionState DuckDbSession; db : Db }.

Section handlers.
Context `{DuckDb, ValueLib, DuckCodec}.

Abbreviation handler A := (comp Duck ProtocolError A) (only parsing).
Abbreviation Client := (ConnectionState DuckDbSession) (only parsing).

Definition on_client {A} (m : Client → Client * A) : handler A := λ s,
  ({| client := (m (client s)).1; db := db s |}, Ok (m (client s)).2).

(** A call of the duckdb crate, with what becomes of its error. *)
Definition on_db {A} (error : text → ProtocolError) (m : Db → Db * (text + A)) : handler A :=
  λ s, ({| client := client s; db := (m (db s)).1 |},
        match (m (db s)).2 with inl e => Err (error e) | inr a => Ok a end).

Lemma on_client_bind {A B} (m : Client → Client * A) (f : A → handler B) s :
  (on_client m ≫= f) s = f (m (client s)).2 {| client := (m (client s)).1; db := db s |}.
Proof. done. Qed.

Lemma on_db_bind {A B} error (m : Db → Db * (text + A)) (f : A → handler B) s :
  (on_db error m ≫= f) s =
    match (m (db s)).2 with
    | inl e => ({| client := client s; db := (m (db s)).1 |}, Err (error e))
    | inr a => f a {| client := client s; db := (m (db s)).1 |}
    end.
Proof. unfold on_db, mbind, comp_bind. by destruct (m (db s)) as [d []]. Qed.

(** ** duckdb_session.rs *)

Definition database_path (config : DbConnectionConfig) : list text + text :=
  if negb (blank (host config)) then inr (host config)
  else match non_blank (config_database config) with
       | Some path => inr path
       | None =>
           match non_blank (extra_params config !! lit "path") with
           | Some path => inr path
           | None => inl [lit "database path is required for DuckDB"]
           end
       end.

(** [DuckDbSession::connect] on a new session *)
Definition connect (code : ErrorCode) (config : DbConnectionConfig) : handler DuckDbSession :=
  path ← lift_outcome (match database_path config with
                       | inl chain => Err (protocol_error_from_anyhow code chain)
                       | inr path => Ok path
                       end);
  conn ← on_db (λ e, protocol_error_from_anyhow code [lit "failed to open DuckDB database"; e])
           (open_db path);
  mret {| session_config := Some config; session_connection := Some conn |}.

Definition disconnect (session : DuckDbSession) : DuckDbSession :=
  {| session_config := None; session_connection := None |}.

Definition not_initialized : list text := [lit "DuckDB connection is not initialized"].

(** [session.connection().map_err(..)] *)
Definition connection (code : ErrorCode) (session : DuckDbSession) : result Conn :=
  of_option (protocol_error_from_anyhow code not_initialized) (session_connection session).

(** [state.get_conn(id).ok_or_else(..)?.connection().map_err(..)?] *)
Definition get_session (conn_id : ConnId) : handler DuckDbSession :=
  found ← gets (λ s, conns (client s) !! conn_id);
  lift_outcome (of_option (unknown_conn conn_id) found).

Definition get_connection (conn_id : ConnId) : handler Conn :=
  session ← get_session conn_id;
  lift_outcome (connection NOT_INITIALIZED session).

(** The first row of a statement without parameters, as a text. *)
Definition query_one_string (conn : Conn) (sql : text) (error : text → ProtocolError)
    : handler text :=
  stmt ← on_db error (prepare conn sql);
  rows ← on_db error (query stmt []);
  lift_outcome
    match rows_cells rows, rows_error rows with
    | row :: _, _ =>
        match from_sql_string (default None (row !! 0)) with
        | inl e => Err (error e)
        | inr t => Ok t
        end
    | [], Some e => Err (error e)
    | [], None => Err (error (lit "Query returned no rows"))
    end.

(** [current_database_name] *)
Definition current_database_name (conn : Conn) (error : text → ProtocolError) : handler text :=
  query_one_string conn (lit "SELECT current_database()") error.

Definition current_duckdb_catalog (session : DuckDbSession) : handler text :=
  conn ← lift_outcome (connection INTERNAL_ERROR session);
  current_database_name conn (λ e, protocol_error_from_anyhow INTERNAL_ERROR
                                     [lit "failed to read DuckDB current catalog"; e]).

Definition current_duckdb_catalog_from_connection (conn : Conn) : handler text :=
  current_database_name conn duckdb_sql_error.

(** ** Queries *)

Definition duckdb_params (params : list CellValue) : result (list DuckValue) :=
  (fix go params := match params with
   | [] => Ok []
   | cell :: rest =>
       match cell_value_to_duckdb_value cell with
       | inl e => Err (invalid_params (lit "invalid bound parameter: " ++ e))
       | inr value => values ← go rest; Ok (value :: values)
       end
   end) params.

(** [column_specs_from_statement] *)
Definition column_spec (columns : StmtColumns) (i : nat) (type_str : text) : ColumnSpec :=
  {| column_name := default (lit "col_" ++ show_N (N.of_nat i)) (stmt_names columns !! i);
     column_type := type_str; column_kind := map_column_type_kind type_str |}.

Definition column_specs_from_statement (columns : StmtColumns) : list ColumnSpec :=
  imap (column_spec columns) (stmt_types columns).

Definition run_statement (conn : Conn) (sql : text) (bound_params : list CellValue)
    : handler Rows :=
  stmt ← on_db duckdb_sql_error (prepare conn sql);
  params ← lift_outcome (duckdb_params bound_params);
  on_db duckdb_sql_error (query stmt params).

Definition prepare_query_columns (conn : Conn) (sql : text) (bound_params : list CellValue)
    : handler (list ColumnSpec) :=
  rows ← run_statement conn (page_query_sql sql 0 0) bound_params;
  mret (from_option column_specs_from_statement [] (rows_columns rows)).

(** The cells of a row: as many as the statement has columns. *)
Definition row_cells (columns : option StmtColumns) (row : list (option ValueRef))
    : list CellValue :=
  (λ i, from_option value_ref_to_cell CNull (default None (row !! i))) <$>
  seq 0 (from_option (λ c, length (stmt_types c)) 0 columns).

Definition run_query_page (conn : Conn) (sql : text) (bound_params : list CellValue)
    (limit offset : N) : handler (list (list CellValue)) :=
  rows ← run_statement conn (page_query_sql sql limit offset) bound_params;
  match rows_error rows with
  | Some e => throw (protocol_error_from_anyhow INTERNAL_ERROR [e])
  | None => mret (row_cells (rows_columns rows) <$> rows_cells rows)
  end.

(** The rows of a query, read one by one: the first error ends the iteration. *)
Fixpoint decode_rows {A} (decode : list (option ValueRef) → text + A)
    (error : text → ProtocolError) (rows : list (list (option ValueRef))) (failed : option text)
    : result (list A) :=
  match rows with
  | [] => match failed with Some e => Err (error e) | None => Ok [] end
  | row :: rest =>
      match decode row with
      | inl e => Err (error e)
      | inr a => rest ← decode_rows decode error rest failed; Ok (a :: rest)
      end
  end.

(** [row.get(i)] *)
Definition cell_at {A} (from_sql : option ValueRef → text + A) (i : nat)
    (row : list (option ValueRef)) : text + A :=
  from_sql (default None (row !! i)).

(** [let a = row.get(i)?; ..] *)
Definition read_cell {A B} (from_sql : option ValueRef → text + A) (i : nat)
    (row : list (option ValueRef)) (f : A → text + B) : text + B :=
  match cell_at from_sql i row with inl e => inl e | inr a => f a end.

Definition catalog_views_sql : text :=
  lit "SELECT view_name, schema_name FROM duckdb_views() " ++
  lit "WHERE schema_name IN ('information_schema', 'pg_catalog')".

Definition rewrite_current_catalog_system_table_references (conn : Conn) (sql : text)
    : handler text :=
  current_catalog ← current_duckdb_catalog_from_connection conn;
  let current_catalog_ref := quote_sql_identifier current_catalog in
  if negb (contains current_catalog_ref sql) then mret sql
  else
    rows ← run_statement conn catalog_views_sql [];
    views ← lift_outcome (decode_rows (λ row,
              read_cell from_sql_string 0 row (λ name,
              read_cell from_sql_string 1 row (λ schema, inr (name, schema))))
              duckdb_sql_error (rows_cells rows) (rows_error rows));
    mret (foldl (λ rewritten '(name, schema), replace (current_catalog_ref ++ lit "." ++ quote_sql_identifier name)
              (quote_sql_identifier schema ++ lit "." ++ quote_sql_identifier name) rewritten)
            sql views).

Definition prepare_query_columns_with_catalog_retry (conn : Conn) (sql : text)
    (bound_params : list CellValue) : handler (text * list ColumnSpec) :=
  first ← attempt (prepare_query_columns conn sql bound_params);
  match first with
  | inr columns => mret (sql, columns)
  | inl original_error =>
      rewritten_sql ← map_err_comp (λ _, original_error)
                        (rewrite_current_catalog_system_table_references conn sql);
      if bool_decide (rewritten_sql = sql) then throw original_error
      else
        columns ← map_err_comp (λ _, original_error)
                    (prepare_query_columns conn rewritten_sql bound_params);
        mret (rewritten_sql, columns)
  end.

Definition validate_tx_for_conn (conn_id : ConnId) (tx_id : option TxId) : handler () := λ s,
  (s, match tx_id with
      | Some tx_id =>
          if tx_matches_conn tx_id conn_id (client s) then Ok () else Err (unknown_tx tx_id)
      | None => Ok ()
      end).

(** ** Connections *)

Definition unsupported_driver (driver_id : text) : ProtocolError :=
  invalid_params (lit "unsupported driver_id `" ++ driver_id ++
    lit "` (this driver only handles `duckdb`)").

Definition open_session (params : Value) : handler DuckDbSession :=
  p ← lift_outcome (parse_params conn_open_params params);
  _ ← lift_outcome (ensure (bool_decide (driver_id p = lit "duckdb"))
                      (unsupported_driver (driver_id p)));
  cfg ← lift_outcome (parse_params config_params (co_config p));
  connect IO_CONNECTION_REFUSED cfg.

Definition server_info : Value :=
  Object [(lit "version", Str (lit "duckdb-bundled"));
          (lit "features", Array [Str (lit "embedded"); Str (lit "single_file")])].

Definition handle_conn_open (params : Value) : handler Value :=
  session ← open_session params;
  conn_id ← on_client (open_conn session);
  mret (Object [(lit "conn_id", Number (PosInt conn_id)); (lit "server_info", server_info)]).

Definition handle_conn_close (params : Value) : handler Value :=
  conn_id ← lift_outcome (parse_params conn_close_params params);
  closed ← on_client (close_conn conn_id);
  _ ← lift_outcome (ensure closed (unknown_conn conn_id));
  mret Null.

(** [latency] is what the clock says the call took. *)
Definition handle_conn_ping (latency : N) (params : Value) : handler Value :=
  conn_id ← lift_outcome (parse_params conn_ping_params params);
  session ← get_session conn_id;
  _ ← lift_outcome (connection SERVER_CLOSED_CONNECTION session);
  mret (Object [(lit "latency_ms", Number (PosInt latency))]).

Definition handle_conn_use (params : Value) : handler Value :=
  p ← lift_outcome (parse_params conn_use_params params);
  session ← get_session (cu_conn_id p);
  match cu_database p with
  | None => mret Null
  | Some database =>
      current_catalog ← current_duckdb_catalog session;
      _ ← lift_outcome (ensure (is_default_catalog_reference database current_catalog)
            (new_error SQL_OBJECT_NOT_FOUND
              (lit "DuckDB single-file connection only exposes database `" ++
               current_catalog ++ lit "`")));
      mret Null
  end.

(** ** Queries and cursors *)

Definition handle_query_start (params : Value) : handler Value :=
  p ← lift_outcome (parse_params query_start_params params);
  _ ← validate_tx_for_conn (qs_conn_id p) (qs_tx_id p);
  conn ← get_connection (qs_conn_id p);
  '(sql, columns) ← prepare_query_columns_with_catalog_retry conn (qs_sql p) (qs_params p);
  cursor_id ← on_client (open_cursor (new_cursor (qs_conn_id p) columns sql (qs_params p)
                                        (qs_fetch_size p) (qs_max_rows p)));
  mret (Object [(lit "cursor_id", Str cursor_id);
                (lit "columns", Array (column_value <$> columns));
                (lit "row_count_known", Bool false);
                (lit "row_count_estimate", Null)]).

Definition cursor_fetch_limit (cursor : CursorState) (requested : option N) : N :=
  if bool_decide (remaining_max_rows cursor = Some 0%N) then 0%N
  else
    let requested :=
      N.min MAX_CURSOR_FETCH_SIZE
        (match requested with
         | Some n => n
         | None =>
             match cs_fetch_size cursor with
             | Some n => if (0 <? n)%N then n else DEFAULT_CURSOR_FETCH_SIZE
             | None => DEFAULT_CURSOR_FETCH_SIZE
             end
         end) in
    match remaining_max_rows cursor with
    | Some remaining => N.min requested (N.min remaining u32_max)
    | None => requested
    end.

(** The cursor after the call, and its outcome. *)
Definition fetch_cursor_page (cursor : CursorState) (requested : option N)
    : Duck → Duck * (CursorState * result (list (list CellValue) * bool)) := λ s,
  if cs_done cursor then (s, (cursor, Ok ([], true)))
  else
    let limit := cursor_fetch_limit cursor requested in
    if (limit =? 0)%N then (s, (cursor, Ok ([], cs_done cursor)))
    else
      let '(s, r) :=
        (conn ← get_connection (cs_conn_id cursor);
         run_query_page conn (cs_sql cursor) (cs_params cursor) limit (cs_next_row cursor)) s in
      match r with
      | Ok rows =>
          let cursor := advance (length rows) limit cursor in
          (s, (cursor, Ok (rows, cs_done cursor)))
      | Err e => (s, (cursor, Err e))
      | Panic => (s, (cursor, Panic))
      end.

Definition rows_value (rows : list (list CellValue)) : Value :=
  Array ((λ row, Array (cell_json <$> row)) <$> rows).

Definition handle_cursor_fetch (params : Value) : handler Value :=
  p ← lift_outcome (parse_params cursor_fetch_params params);
  found ← on_client (remove_cursor (cf_cursor_id p));
  cursor ← lift_outcome (of_option (unknown_cursor (cf_cursor_id p)) found);
  '(cursor, fetch_result) ← total (fetch_cursor_page cursor (cf_n p));
  _ ← on_client (λ c, (insert_cursor (cf_cursor_id p) cursor c, ()));
  '(rows, done) ← lift_outcome fetch_result;
  mret (Object [(lit "rows", rows_value rows); (lit "done", Bool done)]).

Definition handle_cursor_close (params : Value) : handler Value :=
  cursor_id ← lift_outcome (parse_params cursor_close_params params);
  closed ← on_client (close_cursor cursor_id);
  _ ← lift_outcome (ensure closed (unknown_cursor cursor_id));
  mret Null.

Definition handle_cursor_cancel (params : Value) : handler Value :=
  cursor_id ← lift_outcome (parse_params cursor_cancel_params params);
  found ← gets (λ s, cursors (client s) !! cursor_id);
  cursor ← lift_outcome (of_option (unknown_cursor cursor_id) found);
  _ ← on_client (λ c, (set_cursors (<[cursor_id := cancel cursor]> (cursors c)) c, ()));
  mret Null.

Definition handle_exec_run (params : Value) : handler Value :=
  p ← lift_outcome (parse_params exec_run_params params);
  _ ← validate_tx_for_conn (er_conn_id p) (er_tx_id p);
  conn ← get_connection (er_conn_id p);
  values ← lift_outcome (duckdb_params (er_params p));
  affected ← on_db duckdb_sql_error (execute conn (er_sql p) values);
  mret (Object [(lit "affected_rows", Number (PosInt affected)); (lit "warnings", Array [])]).

Definition exec_statement (conn : Conn) (sql : text) : handler ExecRunResult :=
  affected ← on_db duckdb_sql_error (execute conn sql []);
  mret {| affected_rows := affected |}.

Definition exec_tx_control (conn : Conn) (command : text) : handler () :=
  _ ← on_db (λ e, protocol_error_from_anyhow TX_ROLLBACK_REQUIRED [e]) (execute conn command []);
  mret ().

(** The loop of [run_exec_batch] from statement [index] on. *)
Fixpoint exec_batch_from (conn : Conn) (index : nat) (statements : list text)
    (stop_on_error : bool) (acc : ExecBatchResult) : handler ExecBatchResult :=
  match statements with
  | [] => mret acc
  | sql :: rest =>
      r ← attempt (exec_statement conn sql);
      match r with
      | inr result =>
          exec_batch_from conn (S index) rest stop_on_error
            {| results := results acc ++ [result]; errors := errors acc |}
      | inl error =>
          let acc :=
            {| results := results acc ++ [{| affected_rows := 0 |}];
               errors := errors acc ++ [{| be_index := N.of_nat index `mod` (u32_max + 1);
                                           be_code := error_code_of error;
                                           be_message := error_message error |}] |} in
          if stop_on_error then mret acc
          else exec_batch_from conn (S index) rest stop_on_error acc
      end
  end.

Definition run_exec_batch (conn : Conn) (statements : list text) (stop_on_error : bool)
    : handler ExecBatchResult :=
  exec_batch_from conn 0 statements stop_on_error {| results := []; errors := [] |}.

Definition handle_exec_batch (params : Value) : handler Value :=
  p ← lift_outcome (parse_params exec_batch_params params);
  conn ← get_connection (eb_conn_id p);
  _ ← (if eb_in_transaction p then exec_tx_control conn (lit "BEGIN") else mret ());
  result ← run_exec_batch conn (eb_statements p) (eb_stop_on_error p);
  _ ← (if eb_in_transaction p
       then exec_tx_control conn
              (if bool_decide (length (errors result) = 0) then lit "COMMIT" else lit "ROLLBACK")
       else mret ());
  lift_outcome (serialize exec_batch_value result).

(** ** Transactions *)

Definition validate_tx_begin_options (p : TxBeginParams) : result () :=
  if tb_read_only p || default false (tb_deferrable p)
  then Err (new_error TX_ISOLATION_NOT_SUPPORTED
    (lit "DuckDB driver does not support read_only or deferrable transaction options"))
  else match tb_isolation p with
       | None | Some DefaultLevel => Ok ()
       | Some _ => Err (new_error TX_ISOLATION_NOT_SUPPORTED
           (lit "DuckDB driver does not support custom transaction isolation levels"))
       end.

Definition nested_tx : ProtocolError :=
  new_error TX_NESTED_NOT_SUPPORTED
    (lit "DuckDB driver supports one active transaction per connection").

Definition handle_tx_begin (params : Value) : handler Value :=
  p ← lift_outcome (parse_params tx_begin_params params);
  _ ← lift_outcome (validate_tx_begin_options p);
  active ← gets (λ s, has_active_tx (tb_conn_id p) (client s));
  _ ← lift_outcome (ensure (negb active) nested_tx);
  conn ← get_connection (tb_conn_id p);
  _ ← exec_tx_control conn (lit "BEGIN TRANSACTION");
  tx_id ← on_client (begin_tx (tb_conn_id p));
  tx_id ← lift_outcome (of_option nested_tx tx_id);
  lift_outcome (serialize tx_begin_value tx_id).

(** The common part of [handle_tx_commit] and [handle_tx_rollback]. *)
Definition end_tx (tx_id : TxId) (conn_id : ConnId) (command : text) : handler Value :=
  conn ← get_connection conn_id;
  _ ← exec_tx_control conn command;
  _ ← on_client (close_tx tx_id);
  mret Null.

Definition handle_tx_commit (params : Value) : handler Value :=
  tx_id ← lift_outcome (parse_params tx_commit_params params);
  found ← gets (λ s, tx_conn tx_id (client s));
  conn_id ← lift_outcome (of_option (unknown_tx tx_id) found);
  end_tx tx_id conn_id (lit "COMMIT").

Definition handle_tx_rollback (params : Value) : handler Value :=
  p ← lift_outcome (parse_params tx_rollback_params params);
  found ← gets (λ s, tx_conn (tr_tx_id p) (client s));
  conn_id ← lift_outcome (of_option (unknown_tx (tr_tx_id p)) found);
  _ ← lift_outcome (ensure (bool_decide (to_savepoint p = None))
        (new_error TX_NESTED_NOT_SUPPORTED (lit "DuckDB driver does not support savepoints")));
  end_tx (tr_tx_id p) conn_id (lit "ROLLBACK").

(** ** Exports *)

Definition build_export_sql (conn : Conn) (p : ExportParams) : handler (text * list text) :=
  current_catalog ← current_duckdb_catalog_from_connection conn;
  _ ← lift_outcome (validate_export_database (ex_database p) current_catalog);
  raw_sql ← lift_outcome (raw_export_sql p);
  raw_columns ← prepare_query_columns conn raw_sql [];
  columns ← lift_outcome (selected_export_columns (column_name <$> raw_columns) p);
  mret (apply_export_projection raw_sql columns, columns).

Definition handle_data_export (params : Value) : handler Value :=
  p ← lift_outcome (parse_params export_params params);
  _ ← lift_outcome (ensure (negb (blank (ex_stream_id p))) (missing_param (lit "stream_id")));
  conn ← get_connection (ex_conn_id p);
  '(sql, columns) ← build_export_sql conn p;
  format ← lift_outcome (export_stream_format csv_options default_csv_options (ex_format p)
                           (ex_options p));
  _ ← on_client (λ c, (open_stream (ex_stream_id p)
        (new_stream (ex_conn_id p) sql columns format (ex_max_rows p)) c, ()));
  lift_outcome (serialize export_value
    {| estimated_rows := ex_max_rows p; export_columns := columns; export_format := ex_format p |}).

Definition stream_read_limit (max_bytes : option N) : nat :=
  N.to_nat (N.min MAX_STREAM_READ_BYTES
    (match max_bytes with Some value => N.max 1 value | None => DEFAULT_STREAM_READ_BYTES end)).

Definition get_stream (stream_id : StreamId) : handler ExportStreamState :=
  found ← gets (λ s, streams (client s) !! stream_id);
  lift_outcome (of_option (unknown_stream stream_id) found).

(** The number of rows [stream_fetch_plan] asks for. *)
Definition stream_fetch_limit (stream : ExportStreamState) : N :=
  match stream_remaining stream with
  | Some remaining =>
      if (remaining =? 0)%N then 0%N else N.min EXPORT_FETCH_ROWS (N.min remaining u32_max)
  | None => EXPORT_FETCH_ROWS
  end.

Definition stream_fetch_plan (stream_id : StreamId) : handler (ConnId * text * N * N) :=
  stream ← get_stream stream_id;
  mret (es_conn_id stream, es_sql stream, es_next_row stream, stream_fetch_limit stream).

Definition fill_stream_buffer (stream_id : StreamId) : handler () :=
  '(conn_id, sql, offset, limit) ← stream_fetch_plan stream_id;
  conn ← get_connection conn_id;
  rows ← run_query_page conn sql [] limit offset;
  stream ← get_stream stream_id;
  let '(format, out) := render_export_rows (es_format stream) (es_columns stream) rows in
  let stream := append_pending out (with_pending format (es_pending stream) stream) in
  on_client (λ c, (open_stream stream_id (stream_advance (length rows) limit stream) c, ())).

Definition ensure_stream_buffered (stream_id : StreamId) : handler () :=
  stream ← get_stream stream_id;
  if negb (bool_decide (es_pending stream = [])) || es_done stream then mret ()
  else fill_stream_buffer stream_id.

Definition handle_stream_read (params : Value) : handler Value :=
  p ← lift_outcome (parse_params stream_read_params params);
  _ ← ensure_stream_buffered (sr_stream_id p);
  stream ← get_stream (sr_stream_id p);
  let '(stream, b) := drain_pending (stream_read_limit (sr_max_bytes p)) stream in
  _ ← on_client (λ c, (open_stream (sr_stream_id p) stream c, ()));
  lift_outcome (serialize stream_read_value
    {| sr_data := base64_encode b;
       sr_done := es_done stream && bool_decide (es_pending stream = []) |}).

Definition handle_stream_close (params : Value) : handler Value :=
  stream_id ← lift_outcome (parse_params stream_close_params params);
  closed ← on_client (close_stream stream_id);
  _ ← lift_outcome (ensure closed (unknown_stream stream_id));
  mret Null.

(** ** Imports *)

Definition validate_begin_params (p : ImportBeginParams) : handler () := λ s,
  (s, _ ← ensure (negb (blank (ib_table p))) (missing_param (lit "table"));
      _ ← validate_database (ib_database p);
      _ ← validate_import_format (ib_format p);
      _ ← validate_import_options (ib_options p);
      _ ← ensure (negb (has_active_tx (ib_conn_id p) (client s)))
            (new_error TX_NESTED_NOT_SUPPORTED
              (lit "DuckDB data/import cannot run inside an active wire transaction"));
      ensure (negb (existsb blank (ib_columns p)))
        (invalid_params (lit "data/import columns must not be empty"))).

Definition load_table_columns (conn : Conn) (schema : option text) (table : text)
    : handler (list text) :=
  let sql := lit "SELECT column_name FROM duckdb_columns() " ++
             lit "WHERE table_name = ? AND internal = FALSE" in
  let '(sql, values) :=
    match non_blank schema with
    | Some schema => (sql ++ lit " AND schema_name = ?", [table; schema])
    | None => (sql, [table])
    end in
  stmt ← on_db duckdb_sql_error (prepare conn (sql ++ lit " ORDER BY column_index"));
  rows ← on_db duckdb_sql_error (query stmt (VText <$> values));
  columns ← lift_outcome (decode_rows (cell_at from_sql_string 0) duckdb_sql_error
                            (rows_cells rows) (rows_error rows));
  _ ← lift_outcome (ensure (negb (bool_decide (length columns = 0)))
        (new_error SQL_UNKNOWN_TABLE (lit "unknown import table `" ++ table ++ lit "`")));
  mret columns.

Definition start_import_tx (p : ImportBeginParams) : handler (text * list text) :=
  conn ← get_connection (ib_conn_id p);
  table_columns ← load_table_columns conn (ib_schema p) (ib_table p);
  columns ← lift_outcome (selected_import_columns table_columns (ib_columns p));
  _ ← exec_tx_control conn (lit "BEGIN TRANSACTION");
  mret (qualified_table_ref (ib_schema p) (ib_table p), columns).

Definition exec_import_tx (conn_id : ConnId) (command : text) : handler () :=
  conn ← get_connection conn_id;
  exec_tx_control conn command.

(** [collect::<anyhow::Result<Vec<_>>>] *)
Fixpoint row_values (row : list CellValue) : text + list DuckValue :=
  match row with
  | [] => inr []
  | cell :: rest =>
      match cell_value_to_duckdb_value cell with
      | inl e => inl e
      | inr value =>
          match row_values rest with inl e => inl e | inr values => inr (value :: values) end
      end
  end.

(** The row is inserted, or recorded as failed. *)
Definition insert_row (stmt : Stmt) (i : ImportState) (row : list CellValue) (d : Db)
    : Db * (ImportState * (option FailedRow + ())) :=
  let fail message code :=
    let '(i, failed) := record_failed message code i in (i, inl failed) in
  if negb (bool_decide (length row = length (is_columns i))) then
    (d, fail (lit "expected " ++ show_N (N.of_nat (length (is_columns i))) ++ lit " values, got " ++
              show_N (N.of_nat (length row))) DATA_TYPE_MISMATCH)
  else
    match row_values row with
    | inl e => (d, fail (lit "invalid import row value: " ++ e) DATA_TYPE_MISMATCH)
    | inr values =>
        let '(d, r) := stmt_execute stmt values d in
        match r with
        | inr _ => (d, (record_inserted i, inr ()))
        | inl e => (d, let e := duckdb_sql_error e in fail (error_message e) (error_code_of e))
        end
    end.

Definition enforce_failure_threshold (i : ImportState) : result () :=
  match abort_on_failures (is_options i) with
  | Some limit =>
      if (limit <? is_failed_count i)%N
      then Err (new_error DATA_TYPE_MISMATCH
        (lit "data/import failure threshold exceeded; call data/import_abort to roll back"))
      else Ok ()
  | None => Ok ()
  end.

(** The loop of [run_import_chunk]. *)
Fixpoint insert_rows (stmt : Stmt) (rows : list (list CellValue)) (i : ImportState)
    (acc : ImportChunkResult) (d : Db) : Db * (ImportState * result ImportChunkResult) :=
  match rows with
  | [] => (d, (i, Ok acc))
  | row :: rest =>
      let '(d, (i, r)) := insert_row stmt i row d in
      let acc :=
        match r with
        | inr _ => {| chunk_inserted := sat_add u64_max (chunk_inserted acc) 1;
                      chunk_failed := chunk_failed acc |}
        | inl (Some failed) => {| chunk_inserted := chunk_inserted acc;
                                  chunk_failed := chunk_failed acc ++ [failed] |}
        | inl None => acc
        end in
      match enforce_failure_threshold i with
      | Ok _ => insert_rows stmt rest i acc d
      | Err e => (d, (i, Err e))
      | Panic => (d, (i, Panic))
      end
  end.

(** The import after the call, and its outcome. *)
Definition run_import_chunk (i : ImportState) (rows : list (list CellValue))
    : Duck → Duck * (ImportState * result ImportChunkResult) := λ s,
  let empty := {| chunk_inserted := 0; chunk_failed := [] |} in
  if bool_decide (length rows = 0) then (s, (i, Ok empty))
  else
    let '(s, r) :=
      (conn ← get_connection (is_conn_id i);
       on_db duckdb_sql_error (prepare conn (insert_sql i))) s in
    match r with
    | Ok stmt =>
        let '(d, (i, r)) := insert_rows stmt rows i empty (db s) in
        ({| client := client s; db := d |}, (i, r))
    | Err e => (s, (i, Err e))
    | Panic => (s, (i, Panic))
    end.

(** [now] is the clock reading at the call. *)
Definition handle_data_import_begin (now : N) (params : Value) : handler Value :=
  p ← lift_outcome (parse_params import_begin_params params);
  _ ← validate_begin_params p;
  '(table_ref, columns) ← start_import_tx p;
  import_id ← on_client (open_import (new_import (ib_conn_id p) table_ref columns (ib_options p) now));
  lift_outcome (serialize import_begin_value import_id).

Definition handle_data_import_chunk (params : Value) : handler Value :=
  p ← lift_outcome (parse_params import_chunk_params params);
  found ← on_client (remove_import (ic_import_id p));
  i ← lift_outcome (of_option (unknown_import (ic_import_id p)) found);
  '(i, result) ← total (run_import_chunk i (ic_rows p));
  _ ← on_client (λ c, (insert_import (ic_import_id p) i c, ()));
  result ← lift_outcome result;
  lift_outcome (serialize import_chunk_value result).

Definition handle_data_import_commit (now : N) (params : Value) : handler Value :=
  import_id ← lift_outcome (parse_params import_commit_params params);
  found ← on_client (remove_import import_id);
  i ← lift_outcome (of_option (unknown_import import_id) found);
  _ ← exec_import_tx (is_conn_id i) (lit "COMMIT");
  lift_outcome (serialize import_commit_value
    {| commit_inserted := is_inserted i; commit_failed := is_failed i;
       elapsed_ms := now - is_started i |}).

Definition handle_data_import_abort (params : Value) : handler Value :=
  import_id ← lift_outcome (parse_params import_abort_params params);
  found ← on_client (remove_import import_id);
  i ← lift_outcome (of_option (unknown_import import_id) found);
  _ ← exec_import_tx (is_conn_id i) (lit "ROLLBACK");
  mret Null.
End handlers.
