(* ===== verification/DuckDemo.v ===== *)
(** * A database to try the DuckDB driver on

    A small instance of the classes [ValueLib], [DuckDb] and [DuckCodec], on which the
    hypotheses of the driver's theorems are shown to hold together: a table of three rows,
    a transaction flag as the state of the database, and messages read from JSON. *)

From S2P Require Import Prelude VncClipboard Text JsonValue DuckValue DuckState DuckText DuckServer.

Module DuckDemo.

Definition values : ValueLib := {|
  base64_encode := λ b, b;
  base64_decode := λ t, inr t;
  f32_to_f64 := λ bits, bits;
  format_seconds := λ s, Some (show_Z s);
  format_days := λ s, Some (show_Z s);
  unit_debug := λ unit, [];
  to_micros := λ unit v, match unit with
    | Second => (v * 1000000)%Z | Millisecond => (v * 1000)%Z | Microsecond => v
    | Nanosecond => (v / 1000)%Z end;
  json_text := λ v, match v with Number (PosInt n) => show_N n | _ => lit "?" end
|}.

(** ** The database *)

Definition columns : StmtColumns := {| stmt_names := [lit "x"]; stmt_types := [lit "Int"] |}.
Definition table : list (list (option ValueRef)) :=
  [[Some (RInt 7)]; [Some (RText (lit "a,b"))]; [Some RNull]].

Definition answer (cols : StmtColumns) (rows : list (list (option ValueRef))) : Rows :=
  {| rows_columns := Some cols; rows_cells := rows; rows_error := None |}.

(** A page of the table, or the one-row answer of the other queries. *)
Definition run_query (sql : text) : Rows :=
  match split_once (lit " LIMIT ") sql with
  | Some (_, tail) =>
      match split_once (lit " OFFSET ") tail with
      | Some (limit, offset) =>
          match parse_unsigned u32_max limit, parse_unsigned u64_max offset with
          | Some limit, Some offset =>
              answer columns (take (N.to_nat limit) (drop (N.to_nat offset) table))
          | _, _ => answer columns []
          end
      | None => answer columns []
      end
  | None => answer columns [[Some (RText (lit "x"))]]
  end.

Definition control (sql : text) : option bool :=
  if one_of ["BEGIN"; "BEGIN TRANSACTION"] sql then Some true
  else if one_of ["COMMIT"; "ROLLBACK"] sql then Some false else None.

Definition run_execute (sql : text) (in_tx : bool) : bool * (text + N) :=
  match control sql with
  | Some begin =>
      if eqb begin in_tx then (in_tx, inl (lit "no such transaction state"))
      else (begin, inr 0%N)
  | None => (in_tx, inr 1%N)
  end.

Definition database : DuckDb := {|
  Db := bool;
  Conn := unit;
  Stmt := text;
  open_db := λ _ d, (d, inr tt);
  prepare := λ _ sql d, (d, inr sql);
  query := λ sql _ d, (d, inr (run_query sql));
  stmt_execute := λ _ _ d, (d, inr 1%N);
  execute := λ _ sql _ d, run_execute sql d;
  from_sql_string := λ v, match v with Some (RText t) => inr t | _ => inl (lit "not a text") end;
  from_sql_opt_string := λ v, match v with
    | Some (RText t) => inr (Some t) | Some RNull => inr None | _ => inl (lit "not a text") end;
  from_sql_bool := λ v, match v with Some (RBoolean b) => inr b | _ => inl (lit "not a bool") end;
  from_sql_i64 := λ v, match v with Some (RInt z) => inr z | _ => inl (lit "not an integer") end
|}.

(** ** Messages *)

Definition text_of (name : string) (v : Value) : text + text :=
  match get (lit name) v with Some (Str t) => inr t | _ => inl (lit name) end.

Definition number_of (name : string) (v : Value) : text + N :=
  match get (lit name) v with Some (Number (PosInt n)) => inr n | _ => inl (lit name) end.

Definition maybe {A} (r : text + A) : option A := match r with inr a => Some a | inl _ => None end.

Definition and_then {A B} (r : text + A) (f : A → text + B) : text + B :=
  match r with inl e => inl e | inr a => f a end.

Definition other {A} : FromValue A := λ _, inl (lit "not used").
Definition no_value {A} : ToValue A := λ _, inr Null.

Definition fetch (v : Value) : text + CursorFetchParams :=
  and_then (text_of "cursor_id" v) (λ id,
    inr {| cf_cursor_id := id; cf_n := maybe (number_of "n" v) |}).

Definition read_stream (v : Value) : text + StreamReadParams :=
  and_then (text_of "stream_id" v) (λ id,
    inr {| sr_stream_id := id; sr_max_bytes := maybe (number_of "max_bytes" v) |}).

Definition begin_import (v : Value) : text + ImportBeginParams :=
  and_then (number_of "conn_id" v) (λ id,
    inr {| ib_conn_id := id; ib_table := lit "t"; ib_schema := None; ib_database := None;
           ib_columns := []; ib_format := FCsv;
           ib_options := {| upsert := false; on_conflict_columns := [];
             disable_triggers := false; track_failed_rows := true; abort_on_failures := None |} |}).

Definition begin_tx (v : Value) : text + TxBeginParams :=
  and_then (number_of "conn_id" v) (λ id,
    inr {| tb_conn_id := id; tb_read_only := false; tb_deferrable := None; tb_isolation := None |}).

Definition rollback_tx (v : Value) : text + TxRollbackParams :=
  and_then (text_of "tx_id" v) (λ id, inr {| tr_tx_id := id; to_savepoint := None |}).

Definition messages : DuckCodec := {|
  conn_open_params := other; config_params := other; conn_close_params := number_of "conn_id";
  conn_ping_params := number_of "conn_id"; conn_use_params := other;
  query_start_params := other; cursor_fetch_params := fetch;
  cursor_close_params := text_of "cursor_id"; cursor_cancel_params := text_of "cursor_id";
  exec_run_params := other; exec_batch_params := other;
  tx_begin_params := begin_tx; tx_commit_params := text_of "tx_id";
  tx_rollback_params := rollback_tx;
  export_params := other; csv_options := other;
  default_csv_options := {| delimiter := lit ","; quote := [34%N]; header := true;
                            null_string := None; encoding := lit "utf-8" |};
  stream_read_params := read_stream; stream_close_params := text_of "stream_id";
  import_begin_params := begin_import; import_chunk_params := other;
  import_commit_params := text_of "import_id"; import_abort_params := text_of "import_id";
  exec_batch_value := no_value; tx_begin_value := λ id, inr (Str id);
  export_value := no_value;
  stream_read_value := λ r, inr (Object [(lit "data", Str (sr_data r)); (lit "done", Bool (sr_done r))]);
  import_begin_value := λ id, inr (Str id); import_chunk_value := no_value;
  import_commit_value := no_value;
  column_value := λ c, Str (column_name c);
  cell_json := λ c, Null
|}.

#[local] Existing Instances values database messages.

Definition session : DuckDbSession :=
  {| session_config := None; session_connection := Some tt |}.

Definition sql : text := lit "SELECT x FROM t;".

(** ** It gives pages *)

Lemma strip_prefix_own p r : strip_prefix p (p ++ r) = Some r.
Proof. induction p as [|c p IH]; [done|]. simpl. by rewrite N.eqb_refl. Qed.

Lemma split_once_digits p ds r :
  Forall (λ c, is_digit c = true) ds →
  split_once (32%N :: p) (ds ++ (32%N :: p) ++ r) = Some (ds, r).
Proof.
  induction 1 as [|c ds Hc _ IH].
  - cbn [app split_once strip_prefix]. by rewrite N.eqb_refl, strip_prefix_own.
  - cbn [app split_once strip_prefix].
    rewrite (proj2 (N.eqb_neq 32 c)); [|intros <-; by vm_compute in Hc].
    cbn [app] in IH. by rewrite IH.
Qed.

Lemma query_page limit offset :
  (limit <= u32_max)%N → (offset <= u64_max)%N →
  run_query (page_query_sql sql limit offset) =
    answer columns (take (N.to_nat limit) (drop (N.to_nat offset) table)).
Proof.
  intros Hl Ho. unfold run_query.
  assert (∃ before, split_once (lit " LIMIT ") (page_query_sql sql limit offset) =
    Some (before, show_N limit ++ lit " OFFSET " ++ show_N offset)) as (before & ->).
  { unfold page_query_sql. eexists. generalize (show_N limit ++ lit " OFFSET " ++ show_N offset).
    intros tail. lazy. reflexivity. }
  change (lit " OFFSET ") with (32%N :: lit "OFFSET ").
  rewrite split_once_digits by apply show_N_digits. by rewrite !parse_show.
Qed.
End DuckDemo.
