(* ===== verification/Delivery.v ===== *)
(** * Results handed out in parts

    What a cursor and an export stream have in common: requests take pieces off the front of
    a sequence until it is used up.  Used for both database drivers. *)

From S2P Require Import Prelude JsonValue.

(** The first [max_rows] of a list. *)
Definition limited {A} (max_rows : option N) (l : list A) : list A :=
  match max_rows with Some n => take (N.to_nat n) l | None => l end.

(** Requests of one method, one after the other. *)
Fixpoint run_calls {S E R : Type} (f : Value → comp S E R) (calls : list Value) (s : S)
    : S * list (outcome E R) :=
  match calls with
  | [] => (s, [])
  | v :: rest =>
      let '(s, r) := f v s in
      let '(s, rs) := run_calls f rest s in (s, r :: rs)
  end.

(** A sequence handed out in pieces: each request takes a piece off its front, and a
    response that is not the last takes something, if the request asks for something. *)
Section delivery.
Context {S E R A : Type} (f : Value → comp S E R)
  (respond : list A → bool → outcome E R) (Inv : S → list A → Prop)
  (valid asks : Value → Prop) (fits : Value → list A → Prop).
Context (Hstep : ∀ v s rest, valid v → Inv s rest →
  ∃ s' piece (final : bool) rest', f v s = (s', respond piece final) ∧ rest = piece ++ rest' ∧
    Inv s' rest' ∧ fits v piece ∧ (if final then rest' = [] else asks v → piece ≠ [])).

Lemma deliver_calls calls s rest :
  Inv s rest → Forall valid calls →
  ∃ pieces flags,
    (run_calls f calls s).2 = zip_with respond pieces flags ∧
    length flags = length pieces ∧ Forall2 fits calls pieces ∧
    mjoin pieces = take (length (mjoin pieces)) rest ∧
    (∀ i, flags !! i = Some true → mjoin (take (Datatypes.S i) pieces) = rest) ∧
    (Forall asks calls → length rest < length calls → last flags = Some true).
Proof using Hstep.
  intros HInv Hvalid. revert s rest HInv.
  induction Hvalid as [|v calls Hv _ IH]; intros s rest HInv.
  { exists [], []. simpl. split_and!; [done..|]. simpl. lia. }
  destruct (Hstep v s rest Hv HInv) as (s' & piece & final & rest' & Heq & -> & HInv' & Hfits & Hfinal).
  destruct (IH s' rest' HInv') as (pieces & flags & Hrun & Hlen & Hsizes & Hjoin & Hdone & Hend).
  exists (piece :: pieces), (final :: flags). cbn [run_calls]. rewrite Heq.
  destruct (run_calls f calls s') as [s2 rs] eqn:Hrs. cbn [snd] in *. split_and!.
  - simpl. by rewrite Hrun.
  - simpl. by rewrite Hlen.
  - by constructor.
  - simpl. rewrite length_app, take_app_add. by rewrite <-Hjoin.
  - intros [|i] Hi; simpl in Hi.
    + injection Hi as ->. simpl. by rewrite Hfinal.
    + rewrite firstn_cons. simpl. by rewrite (Hdone i Hi).
  - intros [Hasks Hrest]%Forall_cons Hlong. rewrite length_app in Hlong. simpl in Hlong.
    destruct calls as [|v' calls].
    + assert (flags = []) as -> by (inversion Hsizes; subst; by destruct flags).
      destruct final; [done|]. destruct piece; [by destruct Hfinal|simpl in *; lia].
    + assert (Hlast : last flags = Some true).
      { apply Hend; [done|]. destruct final; [subst rest'; simpl; lia|].
        destruct piece; [by destruct Hfinal|simpl in *; lia]. }
      by destruct flags.
Qed.
End delivery.

