(* ===== verification/DuckPaging.v ===== *)
(** * The DuckDB driver: results and exports in parts

    A cursor and an export stream run their query again for each page, with LIMIT and
    OFFSET.  While the database gives the query the same rows, what the host receives is
    the query's result: every row once, in order, up to the limit asked for.  An export
    renders its rows page by page and hands the bytes out in pieces of the sizes the host
    asks for: the pieces are the rendering of the query's result. *)

From S2P Require Import Prelude VncClipboard Text JsonValue DuckValue DuckState DuckText DuckServer DuckDemo Delivery.

(** ** The DuckDB driver: results page by page *)

Section paging.
Context `{DuckDb, ValueLib, DuckCodec}.

(** In state [d] the query has these rows, and LIMIT and OFFSET select among them. *)
Definition answers_pages (conn : Conn) (sql : text) (params : list CellValue)
    (columns : option StmtColumns) (rows : list (list (option ValueRef))) (d : Db) : Prop :=
  ∃ values, duckdb_params params = Ok values ∧
  ∀ limit offset : N, (limit <= u32_max)%N → (offset <= u64_max)%N → ∃ stmt,
    prepare conn (page_query_sql sql limit offset) d = (d, inr stmt) ∧
    query stmt values d = (d, inr {| rows_columns := columns;
      rows_cells := take (N.to_nat limit) (drop (N.to_nat offset) rows); rows_error := None |}).

Lemma run_query_page_answers conn sql params columns rows s limit offset :
  answers_pages conn sql params columns rows (db s) →
  (limit <= u32_max)%N → (offset <= u64_max)%N →
  run_query_page conn sql params limit offset s =
    (s, Ok (row_cells columns <$> take (N.to_nat limit) (drop (N.to_nat offset) rows))).
Proof.
  intros (values & Hvalues & Hpages) Hl Ho.
  destruct (Hpages limit offset Hl Ho) as (stmt & Hprep & Hquery).
  unfold run_query_page, run_statement. rewrite !comp_bind_run. unfold on_db at 1. simpl.
  destruct s as [c d]. simpl in *. rewrite Hprep. simpl. rewrite lift_bind, Hvalues.
  unfold on_db. simpl. rewrite Hquery. done.
Qed.

Lemma get_connection_open conn_id session conn s :
  conns (client s) !! conn_id = Some session → session_connection session = Some conn →
  get_connection conn_id s = (s, Ok conn).
Proof.
  intros Hs Hc. unfold get_connection, get_session. rewrite comp_bind_run, gets_bind, Hs. simpl.
  unfold connection. by rewrite Hc.
Qed.

Section cursor.
Context (conn_id : ConnId) (session : DuckDbSession) (conn : Conn) (sql : text)
  (params : list CellValue) (columns : option StmtColumns)
  (rows : list (list (option ValueRef))) (max_rows : option N) (id : CursorId).
Context (Hrows : (N.of_nat (length rows) < u64_max)%N).

(** What the host is to receive. *)
Definition cursor_rows : list (list CellValue) := row_cells columns <$> limited max_rows rows.

(** A cursor on the query from which the host has [k] rows. *)
Definition cursor_at (k : nat) (c : CursorState) : Prop :=
  cs_conn_id c = conn_id ∧ cs_sql c = sql ∧ cs_params c = params ∧ cs_max_rows c = max_rows ∧
  cs_next_row c = N.of_nat k ∧ k ≤ length cursor_rows ∧
  (if cs_done c then k = length cursor_rows else remaining_max_rows c ≠ Some 0%N).

Definition ready (s : Duck) : Prop :=
  conns (client s) !! conn_id = Some session ∧ session_connection session = Some conn ∧
  answers_pages conn sql params columns rows (db s).

Lemma length_cursor_rows :
  length cursor_rows = match max_rows with
                       | Some m => N.to_nat m `min` length rows | None => length rows end.
Proof. unfold cursor_rows. rewrite length_fmap. unfold limited. destruct max_rows; [|done]. by rewrite length_take. Qed.

(** The rows of a page within the limit are rows the host is to receive. *)
Lemma page_of_limited k n :
  (∀ m, max_rows = Some m → k + n ≤ N.to_nat m) →
  row_cells columns <$> take n (drop k rows) = take n (drop k cursor_rows).
Proof.
  clear Hrows. intros Hm. unfold cursor_rows. rewrite <-fmap_drop, <-fmap_take. f_equal. unfold limited.
  destruct max_rows as [m|]; [|done]. rewrite skipn_firstn_comm, take_take. f_equal.
  specialize (Hm m eq_refl). lia.
Qed.

Lemma cursor_fetch_limit_spec c requested k :
  cursor_at k c → cs_done c = false →
  let limit := cursor_fetch_limit c requested in
  (limit <= MAX_CURSOR_FETCH_SIZE)%N ∧ (∀ n, requested = Some n → (limit <= n)%N) ∧
  (∀ m, max_rows = Some m → k + N.to_nat limit ≤ N.to_nat m) ∧
  (requested ≠ Some 0%N → (0 < limit)%N).
Proof.
  intros (_ & _ & _ & Hmax & Hnext & _ & Hdone) Hnot. rewrite Hnot in Hdone.
  unfold cursor_fetch_limit. rewrite bool_decide_false by done.
  set (n := match requested with Some n => n | None => _ end).
  assert (Hn : requested ≠ Some 0%N → (0 < n)%N).
  { unfold n. destruct requested as [[|?]|]; [done|done|].
    intros _. destruct (cs_fetch_size c) as [[|?]|]; done. }
  assert (Hreq : ∀ n', requested = Some n' → n = n') by (by intros ? ->).
  clearbody n. unfold remaining_max_rows in *. rewrite Hmax, Hnext in *.
  unfold MAX_CURSOR_FETCH_SIZE.
  destruct max_rows as [m|]; simpl in *.
  - assert (m - N.of_nat k ≠ 0)%N by (intros E; by rewrite E in Hdone).
    split_and!; [lia| |intros ? [= <-]; lia|intros Hr%Hn; lia].
    intros n' Hn'. rewrite (Hreq n' Hn'). lia.
  - split_and!; [lia| |done|intros Hr%Hn; lia]. intros n' Hn'. rewrite (Hreq n' Hn'). lia.
Qed.

(** One fetch: a page of the rows not yet received, and the cursor behind it. *)
Lemma fetch_cursor_page_spec c requested k s :
  ready s → cursor_at k c →
  ∃ c' page,
    fetch_cursor_page c requested s = (s, (c', Ok (page, cs_done c'))) ∧
    page = take (length page) (drop k cursor_rows) ∧ cursor_at (k + length page) c' ∧
    length page ≤ N.to_nat MAX_CURSOR_FETCH_SIZE ∧
    (∀ n, requested = Some n → length page ≤ N.to_nat n) ∧
    (requested ≠ Some 0%N → page = [] → cs_done c' = true) ∧
    (cs_done c = true → page = [] ∧ c' = c).
Proof.
  intros (Hsess & Hconn & Hpages) Hc. unfold fetch_cursor_page.
  destruct (cs_done c) eqn:Hdone.
  { exists c, []. simpl. rewrite Nat.add_0_r, Hdone. split_and!; try done; lia. }
  destruct (cursor_fetch_limit_spec c requested k Hc Hdone) as (Hmax & Hreq & Hfit & Hpos).
  set (limit := cursor_fetch_limit c requested) in *.
  destruct (N.eqb_spec limit 0) as [Hz|Hz].
  { exists c, []. simpl. rewrite Nat.add_0_r, Hdone. split_and!; try done; try lia.
    intros Hr. specialize (Hpos Hr). lia. }
  destruct Hc as (Hid & Hsql & Hpar & Hmr & Hnext & Hk & Hnd). rewrite Hdone in Hnd.
  rewrite comp_bind_run, Hid, (get_connection_open _ _ _ _ Hsess Hconn). cbn [fst snd].
  rewrite Hsql, Hpar, Hnext, (run_query_page_answers _ _ _ _ _ _ _ _ Hpages), Nat2N.id.
  2: unfold MAX_CURSOR_FETCH_SIZE in Hmax; lia.
  2: pose proof length_cursor_rows; destruct max_rows; lia.
  rewrite page_of_limited by done.
  set (page := take (N.to_nat limit) (drop k cursor_rows)).
  assert (Hlen : length page = N.to_nat limit `min` (length cursor_rows - k))
    by (unfold page; by rewrite length_take, length_drop).
  exists (advance (length page) limit c), page. split_and!.
  - done.
  - unfold page at 1. rewrite Hlen. rewrite <-(length_drop cursor_rows k) at 1.
    rewrite <-take_take. f_equal. by rewrite firstn_all.
  - assert (Hnext' : sat_add u64_max (cs_next_row c) (N.of_nat (length page)) = N.of_nat (k + length page)).
    { pose proof length_cursor_rows as Hlr. rewrite Hnext. unfold sat_add. destruct max_rows; lia. }
    unfold cursor_at, advance, remaining_max_rows.
    cbn [cs_conn_id cs_sql cs_params cs_max_rows cs_next_row cs_done].
    rewrite Hmr, Hnext', Hdone. cbn [orb]. split_and!; [done..|lia|].
    destruct (N.ltb_spec (N.of_nat (length page)) limit) as [Hlt|Hge]; cbn [orb]; [lia|].
    case_bool_decide as Hrem; [|done]. pose proof length_cursor_rows as Hlr.
    destruct max_rows as [m|]; [|done]. injection Hrem as Hrem. lia.
  - lia.
  - intros n Hn. specialize (Hreq n Hn). lia.
  - intros Hr Hnil. rewrite Hnil. unfold advance. cbn [cs_done length].
    rewrite (proj2 (N.ltb_lt (N.of_nat 0) limit)) by lia. by rewrite orb_true_r.
  - done.
Qed.

Lemma handle_cursor_fetch_spec v requested c k s :
  cursor_fetch_params v = inr {| cf_cursor_id := id; cf_n := requested |} →
  ready s → cursors (client s) !! id = Some c → cursor_at k c →
  ∃ s' c' page,
    handle_cursor_fetch v s =
      (s', Ok (Object [(lit "rows", rows_value page); (lit "done", Bool (cs_done c'))])) ∧
    ready s' ∧ cursors (client s') !! id = Some c' ∧ cursor_at (k + length page) c' ∧
    page = take (length page) (drop k cursor_rows) ∧
    length page ≤ N.to_nat MAX_CURSOR_FETCH_SIZE ∧
    (∀ n, requested = Some n → length page ≤ N.to_nat n) ∧
    (requested ≠ Some 0%N → page = [] → cs_done c' = true).
Proof.
  intros Hv Hready Hfound Hc. unfold handle_cursor_fetch, parse_params. rewrite lift_bind, Hv.
  cbn [cf_cursor_id cf_n]. rewrite on_client_bind. unfold remove_cursor.
  cbn [fst snd]. rewrite Hfound, lift_bind. cbn [of_option].
  set (s1 := {| client := set_cursors (delete id (cursors (client s))) (client s); db := db s |}).
  assert (Hready1 : ready s1) by done.
  destruct (fetch_cursor_page_spec c requested k s1 Hready1 Hc)
    as (c' & page & Hfetch & Hpage & Hc' & Hmax & Hreq & Hpos & _).
  rewrite total_bind, Hfetch. cbn [fst snd]. rewrite on_client_bind. cbn [fst snd].
  eexists _, c', page. split_and!; [by rewrite lift_bind| |by apply lookup_insert_eq|done..].
  exact Hready.
Qed.
End cursor.

Definition page_response (page : list (list CellValue)) (done : bool) : result Value :=
  Ok (Object [(lit "rows", rows_value page); (lit "done", Bool done)]).

(** C22: While the query of a cursor has the same rows, the pages the host fetches, whatever
    sizes it asks for, are these rows in order, each once, up to the limit the cursor was
    opened with; a page has at most 10,000 rows and at most as many as asked for; a
    response that says done completes the result; and with sizes above zero one of the
    first [total + 1] responses does. *)
Theorem cursor_delivers_result s conn_id session conn specs sql params columns rows
    fetch_size max_rows id calls
    (Hrows : (N.of_nat (length rows) < u64_max)%N)
    (Hsession : conns (client s) !! conn_id = Some session)
    (Hconn : session_connection session = Some conn)
    (Hpages : answers_pages conn sql params columns rows (db s))
    (Hcursor : cursors (client s) !! id =
      Some (new_cursor conn_id specs sql params fetch_size max_rows))
    (Hcalls : Forall (λ v, ∃ n, cursor_fetch_params v = inr {| cf_cursor_id := id; cf_n := n |})
                calls) :
  let total := row_cells columns <$> limited max_rows rows in
  ∃ pages flags,
    (run_calls handle_cursor_fetch calls s).2 = zip_with page_response pages flags ∧
    length flags = length pages ∧
    Forall2 (λ v page, length page ≤ N.to_nat MAX_CURSOR_FETCH_SIZE ∧
      ∀ p n, cursor_fetch_params v = inr p → cf_n p = Some n → length page ≤ N.to_nat n)
      calls pages ∧
    mjoin pages = take (length (mjoin pages)) total ∧
    (∀ i, flags !! i = Some true → mjoin (take (S i) pages) = total) ∧
    (Forall (λ v, ∀ p, cursor_fetch_params v = inr p → cf_n p ≠ Some 0%N) calls →
     length total < length calls → last flags = Some true).
Proof.
  intros total.
  apply (deliver_calls handle_cursor_fetch page_response
    (λ s rest, ready conn_id session conn sql params columns rows s ∧ ∃ c k,
      cursors (client s) !! id = Some c ∧
      cursor_at conn_id sql params columns rows max_rows k c ∧ rest = drop k total)
    (λ v, ∃ n, cursor_fetch_params v = inr {| cf_cursor_id := id; cf_n := n |})).
  - intros v s1 rest (n & Hv) (Hready & c & k & Hfound & Hc & ->).
    destruct (handle_cursor_fetch_spec conn_id session conn sql params columns rows max_rows id
      Hrows v n c k s1 Hv Hready Hfound Hc)
      as (s' & c' & page & Heq & Hready' & Hfound' & Hc' & Hpage & Hmax & Hreq & Hpos).
    exists s', page, (cs_done c'), (drop (k + length page) total).
    split; [exact Heq|]. split.
    { fold total in Hpage. rewrite Hpage at 1. rewrite <-drop_drop. by rewrite firstn_skipn. }
    split; [split; [done|]; by exists c', (k + length page)|]. split.
    + split; [done|]. rewrite Hv. intros p n' [= <-]. apply Hreq.
    + destruct Hc' as (_ & _ & _ & _ & _ & _ & Hdone). destruct (cs_done c') eqn:Hd.
      * unfold total. by rewrite drop_ge by (by rewrite Hdone).
      * intros Hasks Hnil. specialize (Hpos (Hasks _ Hv) Hnil). done.
  - split; [by split_and!|].
    exists (new_cursor conn_id specs sql params fetch_size max_rows), 0. split_and!; [done| |done].
    unfold cursor_at. split_and!; [done..|lia|]. cbn [cs_done new_cursor].
    unfold remaining_max_rows. simpl. case_bool_decide as Hzero; [by subst max_rows|].
    destruct max_rows as [m|]; [|done]. simpl. intros [= Hm]. apply Hzero. f_equal. lia.
  - done.
Qed.
End paging.

Module PagingDemo.
Import DuckDemo.
#[local] Existing Instances values database messages.

Lemma demo_pages : answers_pages (tt : Conn) sql [] (Some columns) table (false : Db).
Proof.
  exists []. split; [done|]. intros limit offset Hl Ho.
  exists (page_query_sql sql limit offset). split; [done|].
  change (@query database) with (λ (sql : text) (_ : list DuckValue) (d : bool), (d, @inr text Rows (run_query sql))).
  cbn beta. by rewrite query_page.
Qed.

(** A client with a cursor on the table, at most two rows of it. *)
Definition start : Duck :=
  {| client := (open_cursor (new_cursor 1 [] sql [] None (Some 2%N)) (with_conn 1 session)).1;
     db := false |}.

Definition fetch_one : Value :=
  Object [(lit "cursor_id", Str (lit "c-1")); (lit "n", Number (PosInt 1))].
End PagingDemo.

Lemma cursor_delivers_result_witness :
  let calls := replicate 3 PagingDemo.fetch_one in
  ∃ pages flags,
    (run_calls
      (@handle_cursor_fetch DuckDemo.database DuckDemo.values DuckDemo.messages) calls
      PagingDemo.start).2 = zip_with (@page_response DuckDemo.messages) pages flags ∧
    mjoin pages = [[CI64 7]; [CText (lit "a,b")]] ∧ last flags = Some true.
Proof.
  intros calls.
  destruct (@cursor_delivers_result DuckDemo.database DuckDemo.values DuckDemo.messages
    PagingDemo.start 1 DuckDemo.session tt [] DuckDemo.sql [] (Some DuckDemo.columns) DuckDemo.table
    None (Some 2%N) (lit "c-1") calls)
    as (pages & flags & Hrun & Hlen & Hsizes & Hjoin & Hdone & Hlast).
  - done.
  - done.
  - done.
  - apply PagingDemo.demo_pages.
  - done.
  - repeat constructor; by exists (Some 1%N).
  - assert (last flags = Some true) as Hl.
    { apply Hlast; [|simpl; lia]. repeat constructor; intros p [= <-]; done. }
    exists pages, flags. split; [exact Hrun|]. split; [|done].
    rewrite last_lookup in Hl. specialize (Hdone _ Hl).
    rewrite firstn_all2 in Hdone; [exact Hdone|]. rewrite <-Hlen. lia.
Defined.

(** ** The DuckDB driver: exports *)

Section export.
Context `{DuckDb, ValueLib, DuckCodec}.

(** ** Rendering *)

Definition rendering (format : ExportStreamFormat) (columns : list text)
    (rows : list (list CellValue)) : bytes :=
  (render_export_rows format columns rows).2.

Definition format_after (format : ExportStreamFormat) (columns : list text)
    (rows : list (list CellValue)) : ExportStreamFormat :=
  (render_export_rows format columns rows).1.

Lemma utf8_encode_app s t : utf8_encode (s ++ t) = utf8_encode s ++ utf8_encode t.
Proof. apply bind_app. Qed.

(** Pages are rendered as the whole would be. *)
Lemma rendering_app format columns rows1 rows2 :
  rendering format columns (rows1 ++ rows2) =
    rendering format columns rows1 ++ rendering (format_after format columns rows1) columns rows2.
Proof.
  unfold rendering, format_after. destruct format as [options written|]; simpl.
  - assert (header options && negb (written || header options && negb written) = false) as ->
      by (by destruct (header options), written).
    by rewrite <-utf8_encode_app, bind_app, app_assoc.
  - unfold render_ndjson_rows. by rewrite bind_app.
Qed.

(** After a page nothing but rows is written. *)
Lemma rendering_after_nil format columns rows :
  rendering (format_after format columns rows) columns [] = [].
Proof.
  unfold rendering, format_after. destruct format as [options written|]; simpl; [|done].
  by destruct (header options), written.
Qed.

Lemma utf8_encode_nil t : utf8_encode t = [] → t = [].
Proof.
  destruct t as [|c t]; [done|]. unfold utf8_encode. rewrite bind_cons.
  unfold utf8_encode_char. repeat case_match; done.
Qed.

Lemma rendering_rows format columns rows : rows ≠ [] → rendering format columns rows ≠ [].
Proof.
  intros Hrows. destruct rows as [|row rows]; [done|]. unfold rendering.
  destruct format as [options written|]; simpl.
  - intros Hnil%utf8_encode_nil%app_nil. destruct Hnil as [_ Hnil%app_nil].
    destruct Hnil as [Hnil _]. unfold csv_line in Hnil. by apply app_nil in Hnil as [_ ?].
  - intros [Hnil _]%app_nil. by apply app_nil in Hnil as [_ ?].
Qed.

(** ** Reading a stream *)

Section stream.
Context (conn_id : ConnId) (session : DuckDbSession) (conn : Conn) (sql : text)
  (columns : option StmtColumns) (rows : list (list (option ValueRef)))
  (names : list text) (max_rows : option N) (id : StreamId).
Context (Hrows : (N.of_nat (length rows) < u64_max)%N).

Abbreviation total := (row_cells columns <$> limited max_rows rows).

(** A stream whose bytes still to be handed out are [rest]. *)
Definition stream_at (st : ExportStreamState) (rest : bytes) : Prop :=
  es_conn_id st = conn_id ∧ es_sql st = sql ∧ es_columns st = names ∧
  es_max_rows st = max_rows ∧
  if es_done st then rest = es_pending st
  else ∃ k, es_next_row st = N.of_nat k ∧ k ≤ length total ∧ stream_remaining st ≠ Some 0%N ∧
       rest = es_pending st ++ rendering (es_format st) names (drop k total).

Definition stream_ready (s : Duck) : Prop :=
  ready conn_id session conn sql [] columns rows s.

Lemma length_total :
  length total = match max_rows with
                 | Some m => N.to_nat m `min` length rows | None => length rows end.
Proof. rewrite length_fmap. unfold limited. destruct max_rows; [|done]. by rewrite length_take. Qed.

Lemma stream_fetch_limit_spec st rest :
  stream_at st rest → es_done st = false →
  let limit := stream_fetch_limit st in
  (0 < limit <= EXPORT_FETCH_ROWS)%N ∧
  (∀ m, max_rows = Some m → N.to_nat (es_next_row st) + N.to_nat limit ≤ N.to_nat m).
Proof.
  intros (_ & _ & _ & Hmax & Hst) Hdone. rewrite Hdone in Hst.
  destruct Hst as (k & Hnext & _ & Hrem & _). unfold stream_fetch_limit, stream_remaining in *.
  rewrite Hmax, Hnext in *. unfold EXPORT_FETCH_ROWS. destruct max_rows as [m|]; simpl in *.
  - destruct (N.eqb_spec (m - N.of_nat k) 0) as [Hz|Hz]; [by rewrite Hz in Hrem|].
    split; [lia|]. intros ? [= <-]. lia.
  - split; [lia|done].
Qed.

(** Filling the buffer renders the next page. *)
Lemma fill_stream_buffer_spec s st rest :
  stream_ready s → streams (client s) !! id = Some st → stream_at st rest →
  es_done st = false → es_pending st = [] →
  ∃ s' st', fill_stream_buffer id s = (s', Ok ()) ∧ stream_ready s' ∧
    streams (client s') !! id = Some st' ∧ stream_at st' rest ∧
    (es_done st' = true ∨ es_pending st' ≠ []).
Proof.
  intros Hready Hfound Hst Hdone Hpend.
  pose proof (stream_fetch_limit_spec st rest Hst Hdone) as [Hlimit Hfit].
  destruct Hready as (Hsess & Hconn & Hpages).
  destruct Hst as (Hid & Hsql & Hnames & Hmax & Hst). rewrite Hdone, Hpend in Hst.
  destruct Hst as (k & Hnext & Hk & Hrem & Hrest). simpl in Hrest.
  assert (Hget : get_stream id s = (s, Ok st)).
  { unfold get_stream. rewrite gets_bind, Hfound. done. }
  unfold fill_stream_buffer, stream_fetch_plan. rewrite comp_bind_run.
  rewrite (comp_bind_run (get_stream id)), Hget. cbn [fst snd].
  set (limit := stream_fetch_limit st) in *. unfold mret, comp_ret. cbn [fst snd].
  rewrite comp_bind_run, Hid, (get_connection_open _ _ _ _ Hsess Hconn). cbn [fst snd].
  pose proof length_total as Htotal.
  rewrite comp_bind_run, Hsql, (run_query_page_answers _ _ _ _ _ _ _ _ Hpages).
  2: unfold EXPORT_FETCH_ROWS in Hlimit; lia.
  2: destruct max_rows; lia.
  cbn [fst snd]. rewrite Hnext, Nat2N.id.
  rewrite (page_of_limited columns rows max_rows) by (intros m Hm; specialize (Hfit m Hm); lia).
  fold (cursor_rows columns rows max_rows) in *.
  set (page := take (N.to_nat limit) (drop k (cursor_rows columns rows max_rows))).
  assert (Hlen : length page = N.to_nat limit `min` (length (cursor_rows columns rows max_rows) - k))
    by (unfold page; by rewrite length_take, length_drop).
  rewrite comp_bind_run, Hget. cbn [fst snd].
  rewrite Hnames, (surjective_pairing (render_export_rows _ _ page)).
  fold (format_after (es_format st) names page). fold (rendering (es_format st) names page).
  set (st' := stream_advance _ _ _).
  assert (Hnext' : es_next_row st' = N.of_nat (k + length page)).
  { unfold st'. cbn -[sat_add]. rewrite Hnext. unfold sat_add.
    assert (Hle : length (cursor_rows columns rows max_rows) ≤ length rows)
      by (rewrite Htotal; clear; destruct max_rows; lia).
    lia. }
  assert (Hpend' : es_pending st' = rendering (es_format st) names page)
    by (unfold st'; simpl; by rewrite Hpend).
  assert (Hdone' : es_done st' = ((N.of_nat (length page) <? limit)%N ||
    bool_decide (stream_remaining st' = Some 0%N))).
  { unfold st', stream_remaining. cbn -[sat_add N.sub]. by rewrite Hdone, Hmax. }
  assert (Hsplit : drop k (cursor_rows columns rows max_rows) =
    page ++ drop (k + length page) (cursor_rows columns rows max_rows)).
  { assert (page = take (length page) (drop k (cursor_rows columns rows max_rows))) as Hp.
    { unfold page at 1. rewrite Hlen, <-(length_drop _ k), <-take_take. f_equal. by rewrite firstn_all. }
    rewrite Hp at 1. rewrite <-drop_drop. by rewrite firstn_skipn. }
  eexists _, st'. split; [done|]. split; [by split_and!|]. split; [by apply lookup_insert_eq|].
  assert (Hend : es_done st' = true → drop (k + length page) (cursor_rows columns rows max_rows) = []).
  { rewrite Hdone'. intros [Hlt|Hz]%orb_true_iff; apply drop_ge.
    - apply N.ltb_lt in Hlt. lia.
    - apply bool_decide_eq_true in Hz. unfold stream_remaining in Hz. rewrite Hnext' in Hz.
      unfold cursor_rows in *. rewrite Htotal. assert (es_max_rows st' = max_rows) as Hm by done.
      rewrite Hm in Hz. destruct max_rows as [m|]; [|done]. injection Hz as Hz. lia. }
  split.
  - unfold stream_at. split_and!; [done..|]. destruct (es_done st') eqn:Hd.
    + rewrite Hpend', Hrest. unfold cursor_rows in *. rewrite Hsplit, (Hend eq_refl).
      by rewrite app_nil_r.
    + exists (k + length page). split_and!; [done|fold (cursor_rows columns rows max_rows); lia| |].
      * symmetry in Hdone'. apply orb_false_iff in Hdone' as [_ Hr]. by apply bool_decide_eq_false in Hr.
      * rewrite Hpend', Hrest. unfold cursor_rows in *. by rewrite Hsplit, rendering_app.
  - destruct (es_done st') eqn:Hd; [by left|right]. rewrite Hpend'. apply rendering_rows.
    intros Hnil. rewrite Hnil in Hdone'. symmetry in Hdone'.
    apply orb_false_iff in Hdone' as [Hlt _]. apply N.ltb_ge in Hlt. simpl in Hlt. lia.
Qed.

Lemma ensure_stream_buffered_spec s st rest :
  stream_ready s → streams (client s) !! id = Some st → stream_at st rest →
  ∃ s' st', ensure_stream_buffered id s = (s', Ok ()) ∧ stream_ready s' ∧
    streams (client s') !! id = Some st' ∧ stream_at st' rest ∧
    (es_done st' = true ∨ es_pending st' ≠ []).
Proof.
  intros Hready Hfound Hst. unfold ensure_stream_buffered, get_stream.
  rewrite comp_bind_run, gets_bind, Hfound. cbn [lift_outcome of_option fst snd].
  destruct (es_done st) eqn:Hdone.
  { rewrite orb_true_r. exists s, st. rewrite Hdone. split_and!; try done; [by apply Hready..|by left]. }
  case_bool_decide as Hpend; cbn [negb orb].
  - by apply (fill_stream_buffer_spec s st rest).
  - exists s, st. split_and!; try done; [by apply Hready..|by right].
Qed.

Lemma drain_pending_spec n st rest :
  stream_at st rest → (es_done st = true ∨ es_pending st ≠ []) → 0 < n →
  let '(st', piece) := drain_pending n st in
  let rest' := drop (length piece) rest in
  rest = piece ++ rest' ∧ stream_at st' rest' ∧ length piece ≤ n ∧
  if es_done st' && bool_decide (es_pending st' = []) then rest' = [] else piece ≠ [].
Proof.
  intros (Hid & Hsql & Hnames & Hmax & Hst) Hfull Hn. unfold drain_pending.
  set (m := n `min` length (es_pending st)). set (p := es_pending st) in *.
  assert (Hlen : length (take m p) = m) by (rewrite length_take; unfold m; lia).
  rewrite Hlen. cbn [es_done es_pending with_pending].
  assert (Hrest : ∃ tail, rest = p ++ tail ∧
    (if es_done st then tail = [] else ∃ k, es_next_row st = N.of_nat k ∧ k ≤ length total ∧
       stream_remaining st ≠ Some 0%N ∧ tail = rendering (es_format st) names (drop k total))).
  { destruct (es_done st); [exists []; by rewrite app_nil_r|].
    destruct Hst as (k & Hk1 & Hk2 & Hk3 & ->). eexists. split; [done|]. by exists k. }
  destruct Hrest as (tail & -> & Htail).
  assert (Hdrop : drop m (p ++ tail) = drop m p ++ tail)
    by (rewrite drop_app_le; [done|unfold m; lia]).
  rewrite Hdrop. split_and!.
  - by rewrite app_assoc, firstn_skipn.
  - unfold stream_at. cbn [es_conn_id es_sql es_columns es_max_rows es_done es_pending with_pending].
    split_and!; [done..|]. destruct (es_done st).
    + by rewrite Htail, app_nil_r.
    + destruct Htail as (k & ? & ? & ? & ->). by exists k.
  - lia.
  - case_bool_decide as Hnil; [rewrite Hnil|]; cbn [app].
    + destruct (es_done st); cbn [andb]; [done|]. destruct Hfull as [|Hp]; [done|].
      intros Htake. apply Hp. by rewrite <-(firstn_skipn m p), Htake, Hnil.
    + rewrite andb_false_r. intros Htake. apply (f_equal length) in Htake. rewrite Hlen in Htake.
      destruct p as [|b p]; [by rewrite drop_nil in Hnil|]. unfold m in Htake. simpl in Htake. lia.
Qed.

Definition read_response (piece : bytes) (final : bool) : result Value :=
  serialize stream_read_value {| sr_data := base64_encode piece; sr_done := final |}.

Lemma handle_stream_read_spec v max_bytes s st rest :
  stream_read_params v = inr {| sr_stream_id := id; sr_max_bytes := max_bytes |} →
  stream_ready s → streams (client s) !! id = Some st → stream_at st rest →
  ∃ s' st' piece (final : bool),
    handle_stream_read v s = (s', read_response piece final) ∧ stream_ready s' ∧
    streams (client s') !! id = Some st' ∧ stream_at st' (drop (length piece) rest) ∧
    rest = piece ++ drop (length piece) rest ∧ length piece ≤ stream_read_limit max_bytes ∧
    if final then drop (length piece) rest = [] else piece ≠ [].
Proof.
  intros Hv Hready Hfound Hst. unfold handle_stream_read, parse_params. rewrite lift_bind, Hv.
  cbn [sr_stream_id sr_max_bytes].
  destruct (ensure_stream_buffered_spec s st rest Hready Hfound Hst)
    as (s1 & st1 & Heq & Hready1 & Hfound1 & Hst1 & Hfull).
  rewrite comp_bind_run, Heq. cbn [fst snd].
  unfold get_stream. rewrite comp_bind_run, gets_bind, Hfound1. cbn [lift_outcome of_option fst snd].
  assert (Hpos : 0 < stream_read_limit max_bytes).
  { unfold stream_read_limit, MAX_STREAM_READ_BYTES, DEFAULT_STREAM_READ_BYTES. destruct max_bytes; lia. }
  pose proof (drain_pending_spec _ st1 rest Hst1 Hfull Hpos) as Hdrain.
  destruct (drain_pending _ st1) as [st2 piece]. destruct Hdrain as (Hsplit & Hst2 & Hsize & Hfinal).
  rewrite on_client_bind. cbn [fst snd].
  eexists _, st2, piece, _. split; [done|]. split; [exact Hready1|].
  split; [by apply lookup_insert_eq|]. done.
Qed.
End stream.

(** While the query of an export stream has the same rows, the pieces the host reads are
    the rendering of these rows, in order and without gaps, whatever sizes it asks for; a
    piece is at most as long as asked for; a response that says done completes the
    rendering; and one of the first [length + 1] responses does. *)
Theorem export_delivers_rendering s conn_id session conn sql columns rows names format max_rows id calls
    (Hrows : (N.of_nat (length rows) < u64_max)%N)
    (Hsession : conns (client s) !! conn_id = Some session)
    (Hconn : session_connection session = Some conn)
    (Hpages : answers_pages conn sql [] columns rows (db s))
    (Hstream : streams (client s) !! id = Some (new_stream conn_id sql names format max_rows))
    (Hcalls : Forall (λ v, ∃ n, stream_read_params v = inr {| sr_stream_id := id; sr_max_bytes := n |})
                calls) :
  let whole := if bool_decide (max_rows = Some 0%N) then []
               else rendering format names (row_cells columns <$> limited max_rows rows) in
  ∃ pieces flags,
    (run_calls handle_stream_read calls s).2 = zip_with read_response pieces flags ∧
    length flags = length pieces ∧
    Forall2 (λ v piece, ∀ p, stream_read_params v = inr p →
      length piece ≤ stream_read_limit (sr_max_bytes p)) calls pieces ∧
    mjoin pieces = take (length (mjoin pieces)) whole ∧
    (∀ i, flags !! i = Some true → mjoin (take (S i) pieces) = whole) ∧
    (length whole < length calls → last flags = Some true).
Proof.
  intros whole.
  destruct (deliver_calls handle_stream_read read_response
    (λ s rest, ready conn_id session conn sql [] columns rows s ∧ ∃ st,
      streams (client s) !! id = Some st ∧ stream_at conn_id sql columns rows names max_rows st rest)
    (λ v, ∃ n, stream_read_params v = inr {| sr_stream_id := id; sr_max_bytes := n |})
    (λ _, True)
    (λ v piece, ∀ p, stream_read_params v = inr p →
       length piece ≤ stream_read_limit (sr_max_bytes p))) with calls s whole
    as (pieces & flags & Hrun & Hlen & Hsizes & Hjoin & Hdone & Hend).
  - intros v s1 rest (n & Hv) (Hready & st & Hfound & Hst).
    destruct (handle_stream_read_spec conn_id session conn sql columns rows names max_rows id
      Hrows v n s1 st rest Hv Hready Hfound Hst)
      as (s' & st' & piece & final & Heq & Hready' & Hfound' & Hst' & Hsplit & Hsize & Hfinal).
    exists s', piece, final, (drop (length piece) rest). split; [done|]. split; [done|].
    split; [split; [done|]; by exists st'|]. split.
    + rewrite Hv. by intros p [= <-].
    + by destruct final.
  - split; [by split_and!|]. eexists. split; [done|].
    unfold stream_at. split_and!; [done..|]. cbn [es_done new_stream es_pending es_format].
    unfold whole. case_bool_decide as Hzero; [done|].
    exists 0. split_and!; [done|lia| |done].
    unfold stream_remaining. cbn [es_max_rows es_next_row new_stream].
    destruct max_rows as [m|]; [|done]. simpl. intros [= Hm]. apply Hzero. f_equal. lia.
  - done.
  - exists pieces, flags. split_and!; try done. intros Hlong. apply Hend; [by apply Forall_true|done].
Qed.
End export.

Module ExportDemo.
Import DuckDemo.

Definition options : CsvOptions :=
  {| delimiter := lit ","; quote := [34%N]; header := true; null_string := None;
     encoding := lit "utf-8" |}.

(** A client with an export stream of the table. *)
Definition start : @Duck database :=
  {| client := open_stream (lit "s") (new_stream 1 sql [lit "x"] (Csv options false) None)
                 (with_conn 1 session);
     db := (false : @Db database) |}.

Definition read_five : Value :=
  Object [(lit "stream_id", Str (lit "s")); (lit "max_bytes", Number (PosInt 5))].
End ExportDemo.

Lemma export_delivers_rendering_witness :
  let calls := replicate 14 ExportDemo.read_five in
  ∃ pieces flags,
    (run_calls
      (@handle_stream_read DuckDemo.database DuckDemo.values DuckDemo.messages) calls
      ExportDemo.start).2 = zip_with (@read_response DuckDemo.values DuckDemo.messages) pieces flags ∧
    mjoin pieces = [120; 10; 55; 10; 34; 97; 44; 98; 34; 10; 92; 78; 10]%N ∧ last flags = Some true.
Proof.
  intros calls.
  destruct (@export_delivers_rendering DuckDemo.database DuckDemo.values DuckDemo.messages
    ExportDemo.start 1 DuckDemo.session tt DuckDemo.sql (Some DuckDemo.columns) DuckDemo.table
    [lit "x"] (Csv ExportDemo.options false) None (lit "s") calls)
    as (pieces & flags & Hrun & Hlen & Hsizes & Hjoin & Hdone & Hlast).
  - done.
  - done.
  - done.
  - apply PagingDemo.demo_pages.
  - done.
  - repeat constructor; by exists (Some 5%N).
  - assert (last flags = Some true) as Hl by (apply Hlast; vm_compute; lia).
    exists pieces, flags. split; [exact Hrun|]. split; [|done].
    rewrite last_lookup in Hl. specialize (Hdone _ Hl).
    rewrite firstn_all2 in Hdone; [exact Hdone|]. rewrite <-Hlen. lia.
Defined.
