(* ===== verification/DuckCsv.v ===== *)
(** * The DuckDB driver: reading a CSV export back

    A reader of CSV with one-character delimiters and quotes recovers the header and the
    cells of an export, and tells a null from a text that looks like one.  And an SQL
    identifier quoted by the driver is read back by a reader of quoted identifiers. *)

From S2P Require Import Prelude VncClipboard Text JsonValue DuckValue DuckState DuckText DuckServer DuckDemo.

(** ** Replacing one character *)

Definition double_char (q : N) (t : text) : text :=
  t ≫= λ c, if (c =? q)%N then [q; q] else [c].

Lemma contains_char c t : contains [c] t = has_char c t.
Proof.
  unfold has_char. induction t as [|d t IH]; [done|]. simpl. rewrite IH. unfold starts_with.
  simpl. by destruct (c =? d)%N.
Qed.

Lemma has_char_false c t : has_char c t = false ↔ Forall (λ d, d ≠ c) t.
Proof.
  unfold has_char. induction t as [|d t IH]; simpl; [done|].
  rewrite orb_false_iff, N.eqb_neq, Forall_cons, IH. split; intros []; split; auto.
Qed.

(** ** Quoted identifiers *)

(** The SQL reader of a quoted identifier: the name, and what follows it. *)
Fixpoint read_quoted_from (name t : text) : option (text * text) :=
  match t with
  | [] => None
  | c :: rest =>
      if (c =? 34)%N then
        match rest with
        | d :: rest' => if (d =? 34)%N then read_quoted_from (34%N :: name) rest'
                        else Some (reverse name, rest)
        | [] => Some (reverse name, [])
        end
      else read_quoted_from (c :: name) rest
  end.

Definition read_quoted (t : text) : option (text * text) :=
  match t with c :: rest => if (c =? 34)%N then read_quoted_from [] rest else None | [] => None end.

Lemma read_quoted_from_double name acc rest :
  head rest ≠ Some 34%N →
  read_quoted_from acc (double_char 34 name ++ 34%N :: rest) = Some (reverse acc ++ name, rest).
Proof.
  intros Hrest. revert acc. induction name as [|c name IH]; intros acc.
  - simpl. destruct rest as [|d rest]; [by rewrite app_nil_r|].
    destruct (N.eqb_spec d 34) as [->|]; [done|]. by rewrite app_nil_r.
  - unfold double_char in *. rewrite bind_cons. destruct (N.eqb_spec c 34) as [->|Hc].
    + cbn [app read_quoted_from N.eqb Pos.eqb]. rewrite IH, reverse_cons, <-app_assoc. done.
    + cbn [app read_quoted_from]. rewrite (proj2 (N.eqb_neq c 34) Hc), IH, reverse_cons, <-app_assoc.
      done.
Qed.

(** Whatever name is quoted, a reader of quoted identifiers finds exactly that name, and
    after it what follows in the statement: a name cannot end its own quotation. *)
Theorem quote_sql_identifier_read_back name rest (Hrest : head rest ≠ Some 34%N) :
  read_quoted (quote_sql_identifier name ++ rest) = Some (name, rest).
Proof.
  unfold quote_sql_identifier, read_quoted. rewrite replace_char.
  fold (double_char 34 name). cbn [app N.eqb Pos.eqb]. rewrite <-app_assoc. cbn [app].
  by rewrite read_quoted_from_double.
Qed.

Lemma quote_sql_identifier_read_back_witness :
  read_quoted (quote_sql_identifier [97; 34; 59]%N ++ lit " AS x") = Some ([97; 34; 59]%N, lit " AS x").
Proof. by apply quote_sql_identifier_read_back. Defined.

(** ** The reader of CSV *)

Inductive csv_mode : Type := FieldStart | Bare | Quoted | QuoteSeen.

(** A field is its text and whether it was quoted; [current] is the field being read, in
    reverse, and [fields] are those of the record before it. *)
Fixpoint csv_records (d q : N) (mode : csv_mode) (current : text) (fields : list (text * bool))
    (t : text) : option (list (list (text * bool))) :=
  match t with
  | [] =>
      match mode, fields with
      | FieldStart, [] => Some []
      | _, _ => None
      end
  | c :: rest =>
      let next (quoted : bool) :=
        csv_records d q FieldStart [] (fields ++ [(reverse current, quoted)]) rest in
      let finish (quoted : bool) :=
        cons (fields ++ [(reverse current, quoted)]) <$> csv_records d q FieldStart [] [] rest in
      match mode with
      | FieldStart =>
          if (c =? q)%N then csv_records d q Quoted current fields rest
          else if (c =? d)%N then next false
          else if (c =? 10)%N then finish false
          else csv_records d q Bare (c :: current) fields rest
      | Bare =>
          if (c =? d)%N then next false
          else if (c =? 10)%N then finish false
          else csv_records d q Bare (c :: current) fields rest
      | Quoted =>
          if (c =? q)%N then csv_records d q QuoteSeen current fields rest
          else csv_records d q Quoted (c :: current) fields rest
      | QuoteSeen =>
          if (c =? q)%N then csv_records d q Quoted (c :: current) fields rest
          else if (c =? d)%N then next true
          else if (c =? 10)%N then finish true
          else None
      end
  end.

Definition csv_read (d q : N) (t : text) : option (list (list (text * bool))) :=
  csv_records d q FieldStart [] [] t.

(** A field as a cell: an unquoted null string is a null. *)
Definition cell_of_field (null : text) (field : text * bool) : option text :=
  if negb field.2 && bool_decide (field.1 = null) then None else Some field.1.

Section csv.
Context (d q : N) (options : CsvOptions).
Context (Hd : delimiter options = [d]) (Hq : quote options = [q]) (Hdq : d ≠ q)
  (Hd10 : d ≠ 10%N) (Hq10 : q ≠ 10%N).

(** Whether [csv_escape] quotes. *)
Definition csv_quoted (value : text) (force : bool) : bool :=
  force || has_char d value || has_char 10 value || has_char 13 value || has_char q value.

Lemma csv_escape_spec value force :
  csv_escape value options force =
    if csv_quoted value force then q :: double_char q value ++ [q] else value.
Proof.
  unfold csv_escape, csv_quoted. rewrite Hd, Hq, !contains_char, replace_char. done.
Qed.

Lemma read_bare fields value current rest :
  Forall (λ c, c ≠ d ∧ c ≠ 10%N) value →
  csv_records d q Bare current fields (value ++ rest) =
    csv_records d q Bare (reverse value ++ current) fields rest.
Proof.
  clear. intros Hv. revert current. induction Hv as [|c value [Hcd Hc10] _ IH]; intros current; [done|].
  cbn [app csv_records]. rewrite (proj2 (N.eqb_neq _ _) Hcd), (proj2 (N.eqb_neq _ _) Hc10), IH.
  by rewrite reverse_cons, <-app_assoc.
Qed.

Lemma read_quoted_field fields value current rest :
  csv_records d q Quoted current fields (double_char q value ++ rest) =
    csv_records d q Quoted (reverse value ++ current) fields rest.
Proof.
  clear. revert current. induction value as [|c value IH]; intros current; [done|].
  unfold double_char in *. rewrite bind_cons. destruct (N.eqb_spec c q) as [->|Hc].
  - cbn [app csv_records]. rewrite !N.eqb_refl, IH.
    by rewrite reverse_cons, <-app_assoc.
  - cbn [app csv_records]. rewrite (proj2 (N.eqb_neq _ _) Hc), IH.
    by rewrite reverse_cons, <-app_assoc.
Qed.

(** What the end of a field does: [sep] is the delimiter or the line feed. *)
Definition after_field (fields : list (text * bool)) (field : text * bool) (sep : N) (rest : text)
    : option (list (list (text * bool))) :=
  if (sep =? d)%N then csv_records d q FieldStart [] (fields ++ [field]) rest
  else cons (fields ++ [field]) <$> csv_records d q FieldStart [] [] rest.

Lemma read_field fields value force sep rest :
  sep = d ∨ sep = 10%N →
  csv_records d q FieldStart [] fields (csv_escape value options force ++ sep :: rest) =
    after_field fields (value, csv_quoted value force) sep rest.
Proof.
  intros Hsep. assert (Hsq : sep ≠ q) by (by destruct Hsep as [->| ->]).
  rewrite csv_escape_spec. unfold after_field. destruct (csv_quoted value force) eqn:Hquoted.
  - cbn [app csv_records]. rewrite N.eqb_refl, <-app_assoc, read_quoted_field, app_nil_r.
    cbn [app csv_records]. rewrite N.eqb_refl. cbn [csv_records].
    rewrite (proj2 (N.eqb_neq _ _) Hsq), reverse_involutive.
    destruct (N.eqb_spec sep d) as [|Hsd]; [done|]. by destruct Hsep as [->| ->].
  - unfold csv_quoted in Hquoted. rewrite !orb_false_iff, !has_char_false in Hquoted.
    destruct Hquoted as [[[[_ Hvd] Hv10] _] Hvq].
    destruct value as [|c value].
    + cbn [app csv_records]. rewrite (proj2 (N.eqb_neq _ _) Hsq).
      destruct (N.eqb_spec sep d) as [|Hsd]; [done|]. by destruct Hsep as [->| ->].
    + inversion_clear Hvd as [|?? Hcd Hvd']. inversion_clear Hv10 as [|?? Hc10 Hv10'].
      inversion_clear Hvq as [|?? Hcq _].
      cbn [app csv_records]. rewrite (proj2 (N.eqb_neq _ _) Hcq), (proj2 (N.eqb_neq _ _) Hcd),
        (proj2 (N.eqb_neq _ _) Hc10).
      rewrite read_bare by (apply Forall_and; by split).
      cbn [csv_records]. rewrite reverse_app, reverse_involutive. cbn [reverse rev_append].
      destruct (N.eqb_spec sep d) as [|Hsd]; [done|]. by destruct Hsep as [->| ->].
Qed.

(** A line is one record. *)
Lemma read_line fields values rest :
  values ≠ [] →
  csv_records d q FieldStart [] fields (csv_line values options ++ rest) =
    cons (fields ++ ((λ '(value, force), (value, csv_quoted value force)) <$> values)) <$>
    csv_read d q rest.
Proof.
  unfold csv_line. rewrite Hd. revert fields.
  induction values as [|[value force] values IH]; intros fields Hne; [done|]. clear Hne.
  destruct values as [|[value' force'] values].
  - simpl. rewrite app_nil_r, <-app_assoc. cbn [app]. rewrite read_field by (by right).
    unfold after_field. by rewrite (proj2 (N.eqb_neq 10 d)) by done.
  - specialize (IH (fields ++ [(value, csv_quoted value force)]) ltac:(done)).
    cbn [fmap list_fmap join] in *. rewrite bind_cons. rewrite <-!app_assoc in *. cbn [app] in *.
    rewrite read_field by (by left). unfold after_field. rewrite N.eqb_refl.
    rewrite <-IH. done.
Qed.
End csv.

(** ** Exports *)

Section table.
Context `{ValueLib} (d q : N) (options : CsvOptions).
Context (Hd : delimiter options = [d]) (Hq : quote options = [q]) (Hdq : d ≠ q)
  (Hd10 : d ≠ 10%N) (Hq10 : q ≠ 10%N).

(** The texts an export writes for nulls. *)
Definition null_text : text := default (lit "\N") (null_string options).

(** The text of a cell, or none for a null. *)
Definition cell_text (cell : CellValue) : option text :=
  match cell with CNull => None | _ => Some (cell_to_csv_string cell options) end.

Definition record_of (values : list (text * bool)) : list (text * bool) :=
  map (λ '(value, force), (value, csv_quoted d q value force)) values.

Lemma read_lines (lines : list (list (text * bool))) rest :
  Forall (λ values, values ≠ []) lines →
  csv_read d q ((lines ≫= λ values, csv_line values options) ++ rest) =
    app (map record_of lines) <$> csv_read d q rest.
Proof using All.
  intros Hlines. induction Hlines as [|values lines Hv _ IH]; [by simpl; destruct (csv_read d q rest)|].
  rewrite bind_cons, <-app_assoc. unfold csv_read at 1.
  rewrite (read_line d q options Hd Hq Hdq Hd10 Hq10) by done. rewrite IH.
  by destruct (csv_read d q rest).
Qed.

Lemma null_text_unquoted :
  Forall (λ c, c ≠ d ∧ c ≠ q ∧ c ≠ 10%N ∧ c ≠ 13%N) null_text → csv_quoted d q null_text false = false.
Proof.
  intros Hnull. unfold csv_quoted. rewrite !orb_false_iff, !has_char_false.
  split_and!; [done|..]; eapply Forall_impl; try exact Hnull; by intros c (? & ? & ? & ?).
Qed.

(** A written cell is read as its text, and only a null as a null. *)
Lemma cell_read_back cell :
  Forall (λ c, c ≠ d ∧ c ≠ q ∧ c ≠ 10%N ∧ c ≠ 13%N) null_text →
  let '(value, force) := cell_to_csv_field cell options in
  cell_of_field null_text (value, csv_quoted d q value force) = cell_text cell.
Proof.
  intros Hnull. unfold cell_to_csv_field. fold null_text.
  destruct cell eqn:Hcell; unfold cell_of_field, cell_text; cbn [fst snd negb andb];
    [change (cell_to_csv_string CNull options) with null_text;
     by rewrite null_text_unquoted, bool_decide_true|..].
  all: match goal with |- context [cell_to_csv_string ?c options] =>
    generalize (cell_to_csv_string c options); intros shown end.
  all: case_bool_decide as Hempty; cbn [orb]; [done|].
  all: case_bool_decide as Heq; cbn [orb]; [done|].
  all: by rewrite ?andb_false_r.
Qed.
End table.

(** C23: A CSV export with a one-character delimiter and quote is read back: a CSV reader
    finds the column names in the header, if there is one, and then a record per row whose
    fields are the texts of the cells, an unquoted null string standing for a null and for
    nothing else.  The null string must need no quotes. *)
Theorem csv_round_trip `{ValueLib} d q options header_written columns rows
    (Hd : delimiter options = [d]) (Hq : quote options = [q]) (Hdq : d ≠ q)
    (Hd10 : d ≠ 10%N) (Hq10 : q ≠ 10%N)
    (Hnull : Forall (λ c, c ≠ d ∧ c ≠ q ∧ c ≠ 10%N ∧ c ≠ 13%N) (null_text options))
    (Hcolumns : columns ≠ []) (Hrows : Forall (λ row, row ≠ []) rows) :
  ∃ t heading records,
    (render_csv_rows options header_written columns rows).2 = utf8_encode t ∧
    csv_read d q t = Some (heading ++ records) ∧
    map (map fst) heading =
      (if header options && negb header_written then [columns] else []) ∧
    map (map (cell_of_field (null_text options))) records = map (map (cell_text options)) rows.
Proof.
  set (heading := if header options && negb header_written
                  then [(λ value, (value, false)) <$> columns] else [] : list (list (text * bool))).
  set (body := map (map (λ cell, cell_to_csv_field cell options)) rows).
  exists ((heading ++ body) ≫= λ values, csv_line values options),
    (map (record_of d q) heading), (map (record_of d q) body). split_and!.
  - unfold render_csv_rows. cbn [snd]. f_equal. rewrite bind_app. f_equal.
    + unfold heading. destruct (header options && negb header_written); [|done].
      simpl. by rewrite app_nil_r.
    + symmetry. apply list_fmap_bind.
  - rewrite <-(app_nil_r (_ ≫= _)), (read_lines d q options Hd Hq Hdq Hd10 Hq10).
    + simpl. by rewrite app_nil_r, map_app.
    + apply Forall_app. split.
      * unfold heading. case_match; [|done]. constructor; [|done]. by destruct columns.
      * apply Forall_fmap. eapply Forall_impl; [exact Hrows|]. by intros [|].
  - unfold heading. destruct (header options && negb header_written); [|done]. simpl. f_equal.
    clear. induction columns as [|c columns IH]; simpl; [done|]. by f_equal.
  - unfold body. rewrite !map_map. apply map_ext. intros row. unfold record_of.
    rewrite !map_map. apply map_ext. intros cell.
    pose proof (cell_read_back d q options cell Hnull) as Hcell.
    by destruct (cell_to_csv_field cell options).
Qed.

Lemma csv_round_trip_witness :
  let options := {| delimiter := [44%N]; quote := [34%N]; header := true; null_string := None;
                    encoding := lit "utf-8" |} in
  ∃ t heading records,
    (@render_csv_rows DuckDemo.values options false [lit "a"; lit "b"]
      [[CText (lit "1,2"); CNull]; [CText []; CText (lit "\N")]]).2 = utf8_encode t ∧
    csv_read 44 34 t = Some (heading ++ records) ∧ map (map fst) heading = [[lit "a"; lit "b"]] ∧
    map (map (cell_of_field (lit "\N"))) records =
      [[Some (lit "1,2"); None]; [Some []; Some (lit "\N")]].
Proof.
  intros options.
  apply (@csv_round_trip DuckDemo.values 44 34 options false [lit "a"; lit "b"]
    [[CText (lit "1,2"); CNull]; [CText []; CText (lit "\N")]]); try done.
  all: repeat constructor; done.
Defined.
