(* ===== verification/DuckBuiltins.v ===== *)
(** * The DuckDB driver: the built-in functions

    ipc/duckdb/src/builtin_functions.rs: the table behind [schema/functions], and facts
    about it that the code relies on or its reader expects. *)

From S2P Require Import Prelude Text.

Record DuckDbBuiltinFunction := {
  fn_name : string; fn_signature : string; fn_kind : string; fn_return_type : option string;
  fn_description : string
}.

Definition DUCKDB_BUILTIN_FUNCTIONS : list DuckDbBuiltinFunction :=
  [
   Build_DuckDbBuiltinFunction "abs" "abs(x)" "scalar" None
     "Absolute value";
   Build_DuckDbBuiltinFunction "acos" "acos(x)" "scalar" (Some "DOUBLE")
     "Arccosine";
   Build_DuckDbBuiltinFunction "acosh" "acosh(x)" "scalar" (Some "DOUBLE")
     "Inverse hyperbolic cosine";
   Build_DuckDbBuiltinFunction "age" "age(timestamp[, timestamp])" "scalar" (Some "INTERVAL")
     "Difference between timestamps";
   Build_DuckDbBuiltinFunction "alias" "alias(expr)" "scalar" (Some "VARCHAR")
     "Name of an expression";
   Build_DuckDbBuiltinFunction "any_value" "any_value(arg)" "aggregate" None
     "First non-NULL value";
   Build_DuckDbBuiltinFunction "approx_count_distinct" "approx_count_distinct(any)" "aggregate" (Some "BIGINT")
     "Approximate distinct count using HyperLogLog";
   Build_DuckDbBuiltinFunction "approx_quantile" "approx_quantile(x, pos)" "aggregate" None
     "Approximate quantile using T-Digest";
   Build_DuckDbBuiltinFunction "arbitrary" "arbitrary(arg)" "aggregate" None
     "First value including NULLs";
   Build_DuckDbBuiltinFunction "arg_max" "arg_max(arg, val)" "aggregate" None
     "arg value at maximum val";
   Build_DuckDbBuiltinFunction "arg_min" "arg_min(arg, val)" "aggregate" None
     "arg value at minimum val";
   Build_DuckDbBuiltinFunction "array_agg" "array_agg(arg)" "aggregate" (Some "LIST")
     "Collect values into a list";
   Build_DuckDbBuiltinFunction "ascii" "ascii(string)" "scalar" (Some "INTEGER")
     "Unicode codepoint of first character";
   Build_DuckDbBuiltinFunction "asin" "asin(x)" "scalar" (Some "DOUBLE")
     "Arcsine";
   Build_DuckDbBuiltinFunction "asinh" "asinh(x)" "scalar" (Some "DOUBLE")
     "Inverse hyperbolic sine";
   Build_DuckDbBuiltinFunction "atan" "atan(x)" "scalar" (Some "DOUBLE")
     "Arctangent";
   Build_DuckDbBuiltinFunction "atan2" "atan2(y, x)" "scalar" (Some "DOUBLE")
     "Two-argument arctangent";
   Build_DuckDbBuiltinFunction "atanh" "atanh(x)" "scalar" (Some "DOUBLE")
     "Inverse hyperbolic tangent";
   Build_DuckDbBuiltinFunction "avg" "avg(arg)" "aggregate" None
     "Average value";
   Build_DuckDbBuiltinFunction "bar" "bar(x, min, max, width)" "scalar" (Some "VARCHAR")
     "Draw a horizontal bar";
   Build_DuckDbBuiltinFunction "base64" "base64(blob)" "scalar" (Some "VARCHAR")
     "Base64 encode a blob";
   Build_DuckDbBuiltinFunction "bit_and" "bit_and(arg)" "aggregate" None
     "Bitwise AND aggregate";
   Build_DuckDbBuiltinFunction "bit_count" "bit_count(x)" "scalar" (Some "INTEGER")
     "Count set bits";
   Build_DuckDbBuiltinFunction "bit_length" "bit_length(string)" "scalar" (Some "BIGINT")
     "Length in bits";
   Build_DuckDbBuiltinFunction "bit_or" "bit_or(arg)" "aggregate" None
     "Bitwise OR aggregate";
   Build_DuckDbBuiltinFunction "bit_xor" "bit_xor(arg)" "aggregate" None
     "Bitwise XOR aggregate";
   Build_DuckDbBuiltinFunction "bool_and" "bool_and(arg)" "aggregate" (Some "BOOLEAN")
     "True if all inputs are true";
   Build_DuckDbBuiltinFunction "bool_or" "bool_or(arg)" "aggregate" (Some "BOOLEAN")
     "True if any input is true";
   Build_DuckDbBuiltinFunction "ceil" "ceil(x)" "scalar" None
     "Round up";
   Build_DuckDbBuiltinFunction "ceiling" "ceiling(x)" "scalar" None
     "Round up";
   Build_DuckDbBuiltinFunction "century" "century(ts)" "scalar" (Some "BIGINT")
     "Extract century";
   Build_DuckDbBuiltinFunction "chr" "chr(codepoint)" "scalar" (Some "VARCHAR")
     "Character from codepoint";
   Build_DuckDbBuiltinFunction "coalesce" "coalesce(val1, val2, ...)" "scalar" None
     "First non-NULL value";
   Build_DuckDbBuiltinFunction "concat" "concat(arg1, arg2, ...)" "scalar" (Some "VARCHAR")
     "Concatenate values";
   Build_DuckDbBuiltinFunction "concat_ws" "concat_ws(separator, arg1, arg2, ...)" "scalar" (Some "VARCHAR")
     "Concatenate with separator";
   Build_DuckDbBuiltinFunction "contains" "contains(string, search_string)" "scalar" (Some "BOOLEAN")
     "Whether string contains search string";
   Build_DuckDbBuiltinFunction "corr" "corr(y, x)" "aggregate" (Some "DOUBLE")
     "Correlation coefficient";
   Build_DuckDbBuiltinFunction "cos" "cos(x)" "scalar" (Some "DOUBLE")
     "Cosine";
   Build_DuckDbBuiltinFunction "cosh" "cosh(x)" "scalar" (Some "DOUBLE")
     "Hyperbolic cosine";
   Build_DuckDbBuiltinFunction "cot" "cot(x)" "scalar" (Some "DOUBLE")
     "Cotangent";
   Build_DuckDbBuiltinFunction "count" "count([arg])" "aggregate" (Some "BIGINT")
     "Count rows or values";
   Build_DuckDbBuiltinFunction "count_if" "count_if(condition)" "aggregate" (Some "BIGINT")
     "Count true values";
   Build_DuckDbBuiltinFunction "current_catalog" "current_catalog" "scalar" (Some "VARCHAR")
     "Current catalog";
   Build_DuckDbBuiltinFunction "current_database" "current_database()" "scalar" (Some "VARCHAR")
     "Current database/catalog";
   Build_DuckDbBuiltinFunction "current_date" "current_date" "scalar" (Some "DATE")
     "Current date";
   Build_DuckDbBuiltinFunction "current_localtime" "current_localtime()" "scalar" (Some "TIME")
     "Current local time";
   Build_DuckDbBuiltinFunction "current_localtimestamp" "current_localtimestamp()" "scalar" (Some "TIMESTAMP")
     "Current local timestamp";
   Build_DuckDbBuiltinFunction "current_query" "current_query()" "scalar" (Some "VARCHAR")
     "Current query text";
   Build_DuckDbBuiltinFunction "current_schema" "current_schema()" "scalar" (Some "VARCHAR")
     "Current schema";
   Build_DuckDbBuiltinFunction "current_schemas" "current_schemas(boolean)" "scalar" (Some "LIST")
     "Current schemas";
   Build_DuckDbBuiltinFunction "current_setting" "current_setting(name)" "scalar" (Some "VARCHAR")
     "Current setting value";
   Build_DuckDbBuiltinFunction "current_timestamp" "current_timestamp" "scalar" (Some "TIMESTAMP WITH TIME ZONE")
     "Current timestamp";
   Build_DuckDbBuiltinFunction "current_user" "current_user" "scalar" (Some "VARCHAR")
     "Current user";
   Build_DuckDbBuiltinFunction "date_diff" "date_diff(part, startdate, enddate)" "scalar" (Some "BIGINT")
     "Boundary count between dates";
   Build_DuckDbBuiltinFunction "date_part" "date_part(part, date)" "scalar" (Some "BIGINT")
     "Extract date part";
   Build_DuckDbBuiltinFunction "date_sub" "date_sub(part, startdate, enddate)" "scalar" (Some "BIGINT")
     "Signed interval difference";
   Build_DuckDbBuiltinFunction "date_trunc" "date_trunc(part, date)" "scalar" None
     "Truncate date/time to part";
   Build_DuckDbBuiltinFunction "day" "day(ts)" "scalar" (Some "BIGINT")
     "Extract day";
   Build_DuckDbBuiltinFunction "dayname" "dayname(date)" "scalar" (Some "VARCHAR")
     "Day name";
   Build_DuckDbBuiltinFunction "dayofmonth" "dayofmonth(ts)" "scalar" (Some "BIGINT")
     "Extract day of month";
   Build_DuckDbBuiltinFunction "dayofweek" "dayofweek(ts)" "scalar" (Some "BIGINT")
     "Extract day of week";
   Build_DuckDbBuiltinFunction "dayofyear" "dayofyear(ts)" "scalar" (Some "BIGINT")
     "Extract day of year";
   Build_DuckDbBuiltinFunction "decade" "decade(ts)" "scalar" (Some "BIGINT")
     "Extract decade";
   Build_DuckDbBuiltinFunction "degrees" "degrees(x)" "scalar" (Some "DOUBLE")
     "Radians to degrees";
   Build_DuckDbBuiltinFunction "epoch" "epoch(ts)" "scalar" (Some "DOUBLE")
     "Seconds since epoch";
   Build_DuckDbBuiltinFunction "epoch_ms" "epoch_ms(ts)" "scalar" (Some "BIGINT")
     "Milliseconds since epoch";
   Build_DuckDbBuiltinFunction "epoch_ns" "epoch_ns(ts)" "scalar" (Some "BIGINT")
     "Nanoseconds since epoch";
   Build_DuckDbBuiltinFunction "epoch_us" "epoch_us(ts)" "scalar" (Some "BIGINT")
     "Microseconds since epoch";
   Build_DuckDbBuiltinFunction "error" "error(message)" "scalar" None
     "Throw an error";
   Build_DuckDbBuiltinFunction "even" "even(x)" "scalar" None
     "Round away from zero to next even number";
   Build_DuckDbBuiltinFunction "exp" "exp(x)" "scalar" (Some "DOUBLE")
     "e raised to x";
   Build_DuckDbBuiltinFunction "factorial" "factorial(x)" "scalar" (Some "HUGEINT")
     "Factorial";
   Build_DuckDbBuiltinFunction "fdiv" "fdiv(x, y)" "scalar" (Some "DOUBLE")
     "Floating-point division";
   Build_DuckDbBuiltinFunction "filter" "filter(list, lambda)" "scalar" (Some "LIST")
     "Filter list elements";
   Build_DuckDbBuiltinFunction "first" "first(arg)" "aggregate" None
     "First value";
   Build_DuckDbBuiltinFunction "floor" "floor(x)" "scalar" None
     "Round down";
   Build_DuckDbBuiltinFunction "format" "format(format, ...)" "scalar" (Some "VARCHAR")
     "Format string";
   Build_DuckDbBuiltinFunction "from_base64" "from_base64(string)" "scalar" (Some "BLOB")
     "Decode base64";
   Build_DuckDbBuiltinFunction "from_hex" "from_hex(string)" "scalar" (Some "BLOB")
     "Decode hexadecimal";
   Build_DuckDbBuiltinFunction "gen_random_uuid" "gen_random_uuid()" "scalar" (Some "UUID")
     "Random UUID";
   Build_DuckDbBuiltinFunction "greatest" "greatest(arg1, arg2, ...)" "scalar" None
     "Greatest value";
   Build_DuckDbBuiltinFunction "histogram" "histogram(arg)" "aggregate" (Some "MAP")
     "Histogram aggregate";
   Build_DuckDbBuiltinFunction "hour" "hour(ts)" "scalar" (Some "BIGINT")
     "Extract hour";
   Build_DuckDbBuiltinFunction "ifnull" "ifnull(arg1, arg2)" "scalar" None
     "Return arg2 when arg1 is NULL";
   Build_DuckDbBuiltinFunction "instr" "instr(string, search_string)" "scalar" (Some "BIGINT")
     "Position of substring";
   Build_DuckDbBuiltinFunction "isfinite" "isfinite(x)" "scalar" (Some "BOOLEAN")
     "Whether value is finite";
   Build_DuckDbBuiltinFunction "isinf" "isinf(x)" "scalar" (Some "BOOLEAN")
     "Whether value is infinite";
   Build_DuckDbBuiltinFunction "isnan" "isnan(x)" "scalar" (Some "BOOLEAN")
     "Whether value is NaN";
   Build_DuckDbBuiltinFunction "json_array" "json_array(...)" "scalar" (Some "JSON")
     "Create a JSON array";
   Build_DuckDbBuiltinFunction "json_extract" "json_extract(json, path)" "scalar" (Some "JSON")
     "Extract JSON at path";
   Build_DuckDbBuiltinFunction "json_extract_string" "json_extract_string(json, path)" "scalar" (Some "VARCHAR")
     "Extract JSON string at path";
   Build_DuckDbBuiltinFunction "json_keys" "json_keys(json[, path])" "scalar" (Some "LIST")
     "JSON object keys";
   Build_DuckDbBuiltinFunction "json_type" "json_type(json[, path])" "scalar" (Some "VARCHAR")
     "JSON value type";
   Build_DuckDbBuiltinFunction "last" "last(arg)" "aggregate" None
     "Last value";
   Build_DuckDbBuiltinFunction "lcase" "lcase(string)" "scalar" (Some "VARCHAR")
     "Lowercase string";
   Build_DuckDbBuiltinFunction "least" "least(arg1, arg2, ...)" "scalar" None
     "Least value";
   Build_DuckDbBuiltinFunction "left" "left(string, count)" "scalar" (Some "VARCHAR")
     "Leftmost characters";
   Build_DuckDbBuiltinFunction "len" "len(string)" "scalar" (Some "BIGINT")
     "Length";
   Build_DuckDbBuiltinFunction "length" "length(string)" "scalar" (Some "BIGINT")
     "Length";
   Build_DuckDbBuiltinFunction "levenshtein" "levenshtein(s1, s2)" "scalar" (Some "BIGINT")
     "Levenshtein distance";
   Build_DuckDbBuiltinFunction "list" "list(arg)" "aggregate" (Some "LIST")
     "Collect values into a list";
   Build_DuckDbBuiltinFunction "list_aggregate" "list_aggregate(list, function_name)" "scalar" None
     "Apply aggregate to list";
   Build_DuckDbBuiltinFunction "list_append" "list_append(list, element)" "scalar" (Some "LIST")
     "Append element to list";
   Build_DuckDbBuiltinFunction "list_concat" "list_concat(list1, list2)" "scalar" (Some "LIST")
     "Concatenate lists";
   Build_DuckDbBuiltinFunction "list_contains" "list_contains(list, element)" "scalar" (Some "BOOLEAN")
     "Whether list contains element";
   Build_DuckDbBuiltinFunction "list_distinct" "list_distinct(list)" "scalar" (Some "LIST")
     "Distinct list values";
   Build_DuckDbBuiltinFunction "list_extract" "list_extract(list, index)" "scalar" None
     "Extract list element";
   Build_DuckDbBuiltinFunction "list_filter" "list_filter(list, lambda)" "scalar" (Some "LIST")
     "Filter list with lambda";
   Build_DuckDbBuiltinFunction "list_has" "list_has(list, element)" "scalar" (Some "BOOLEAN")
     "Whether list has element";
   Build_DuckDbBuiltinFunction "list_indexof" "list_indexof(list, element)" "scalar" (Some "INTEGER")
     "Index of element in list";
   Build_DuckDbBuiltinFunction "list_pack" "list_pack(arg1, arg2, ...)" "scalar" (Some "LIST")
     "Create a list";
   Build_DuckDbBuiltinFunction "list_position" "list_position(list, element)" "scalar" (Some "INTEGER")
     "Position of element in list";
   Build_DuckDbBuiltinFunction "list_resize" "list_resize(list, size[, value])" "scalar" (Some "LIST")
     "Resize list";
   Build_DuckDbBuiltinFunction "list_reverse_sort" "list_reverse_sort(list)" "scalar" (Some "LIST")
     "Sort list descending";
   Build_DuckDbBuiltinFunction "list_slice" "list_slice(list, begin, end)" "scalar" (Some "LIST")
     "Slice list";
   Build_DuckDbBuiltinFunction "list_sort" "list_sort(list)" "scalar" (Some "LIST")
     "Sort list";
   Build_DuckDbBuiltinFunction "list_transform" "list_transform(list, lambda)" "scalar" (Some "LIST")
     "Transform list with lambda";
   Build_DuckDbBuiltinFunction "list_unique" "list_unique(list)" "scalar" (Some "BIGINT")
     "Number of unique list values";
   Build_DuckDbBuiltinFunction "ln" "ln(x)" "scalar" (Some "DOUBLE")
     "Natural logarithm";
   Build_DuckDbBuiltinFunction "log" "log(x)" "scalar" (Some "DOUBLE")
     "Base-10 logarithm";
   Build_DuckDbBuiltinFunction "log10" "log10(x)" "scalar" (Some "DOUBLE")
     "Base-10 logarithm";
   Build_DuckDbBuiltinFunction "log2" "log2(x)" "scalar" (Some "DOUBLE")
     "Base-2 logarithm";
   Build_DuckDbBuiltinFunction "lower" "lower(string)" "scalar" (Some "VARCHAR")
     "Converts string to lower case";
   Build_DuckDbBuiltinFunction "lpad" "lpad(string, count[, character])" "scalar" (Some "VARCHAR")
     "Pad string on the left";
   Build_DuckDbBuiltinFunction "ltrim" "ltrim(string[, characters])" "scalar" (Some "VARCHAR")
     "Trim characters from left side";
   Build_DuckDbBuiltinFunction "make_date" "make_date(year, month, day)" "scalar" (Some "DATE")
     "Construct a date";
   Build_DuckDbBuiltinFunction "make_time" "make_time(hour, minute, second)" "scalar" (Some "TIME")
     "Construct a time";
   Build_DuckDbBuiltinFunction "make_timestamp" "make_timestamp(year, month, day, hour, minute, second)" "scalar" (Some "TIMESTAMP")
     "Construct a timestamp";
   Build_DuckDbBuiltinFunction "max" "max(arg)" "aggregate" None
     "Maximum value";
   Build_DuckDbBuiltinFunction "md5" "md5(string)" "scalar" (Some "VARCHAR")
     "MD5 hash";
   Build_DuckDbBuiltinFunction "mean" "mean(arg)" "aggregate" None
     "Average value";
   Build_DuckDbBuiltinFunction "median" "median(arg)" "aggregate" None
     "Median value";
   Build_DuckDbBuiltinFunction "microsecond" "microsecond(ts)" "scalar" (Some "BIGINT")
     "Extract microsecond";
   Build_DuckDbBuiltinFunction "millisecond" "millisecond(ts)" "scalar" (Some "BIGINT")
     "Extract millisecond";
   Build_DuckDbBuiltinFunction "min" "min(arg)" "aggregate" None
     "Minimum value";
   Build_DuckDbBuiltinFunction "minute" "minute(ts)" "scalar" (Some "BIGINT")
     "Extract minute";
   Build_DuckDbBuiltinFunction "mode" "mode(arg)" "aggregate" None
     "Most frequent value";
   Build_DuckDbBuiltinFunction "month" "month(ts)" "scalar" (Some "BIGINT")
     "Extract month";
   Build_DuckDbBuiltinFunction "monthname" "monthname(date)" "scalar" (Some "VARCHAR")
     "Month name";
   Build_DuckDbBuiltinFunction "nextafter" "nextafter(x, y)" "scalar" (Some "DOUBLE")
     "Next representable value";
   Build_DuckDbBuiltinFunction "now" "now()" "scalar" (Some "TIMESTAMP WITH TIME ZONE")
     "Current timestamp";
   Build_DuckDbBuiltinFunction "nullif" "nullif(a, b)" "scalar" None
     "NULL if arguments are equal";
   Build_DuckDbBuiltinFunction "parse_dirname" "parse_dirname(path)" "scalar" (Some "VARCHAR")
     "Directory name from path";
   Build_DuckDbBuiltinFunction "parse_dirpath" "parse_dirpath(path)" "scalar" (Some "VARCHAR")
     "Directory path from path";
   Build_DuckDbBuiltinFunction "parse_filename" "parse_filename(path)" "scalar" (Some "VARCHAR")
     "File name from path";
   Build_DuckDbBuiltinFunction "pi" "pi()" "scalar" (Some "DOUBLE")
     "Pi constant";
   Build_DuckDbBuiltinFunction "pow" "pow(x, y)" "scalar" (Some "DOUBLE")
     "Power";
   Build_DuckDbBuiltinFunction "power" "power(x, y)" "scalar" (Some "DOUBLE")
     "Power";
   Build_DuckDbBuiltinFunction "prefix" "prefix(string, search_string)" "scalar" (Some "BOOLEAN")
     "Whether string starts with search string";
   Build_DuckDbBuiltinFunction "printf" "printf(format, ...)" "scalar" (Some "VARCHAR")
     "Printf-style format";
   Build_DuckDbBuiltinFunction "product" "product(arg)" "aggregate" None
     "Product aggregate";
   Build_DuckDbBuiltinFunction "quantile_cont" "quantile_cont(x, pos)" "aggregate" None
     "Continuous quantile";
   Build_DuckDbBuiltinFunction "quantile_disc" "quantile_disc(x, pos)" "aggregate" None
     "Discrete quantile";
   Build_DuckDbBuiltinFunction "radians" "radians(x)" "scalar" (Some "DOUBLE")
     "Degrees to radians";
   Build_DuckDbBuiltinFunction "random" "random()" "scalar" (Some "DOUBLE")
     "Random value in [0, 1)";
   Build_DuckDbBuiltinFunction "range" "range([start,] stop[, step])" "table" (Some "TABLE")
     "Generate a range";
   Build_DuckDbBuiltinFunction "regexp_escape" "regexp_escape(string)" "scalar" (Some "VARCHAR")
     "Escape regular expression characters";
   Build_DuckDbBuiltinFunction "regexp_extract" "regexp_extract(string, regex[, group])" "scalar" (Some "VARCHAR")
     "Extract regex group";
   Build_DuckDbBuiltinFunction "regexp_extract_all" "regexp_extract_all(string, regex[, group])" "scalar" (Some "LIST")
     "Extract all regex matches";
   Build_DuckDbBuiltinFunction "regexp_full_match" "regexp_full_match(string, regex)" "scalar" (Some "BOOLEAN")
     "Whether regex fully matches";
   Build_DuckDbBuiltinFunction "regexp_matches" "regexp_matches(string, regex)" "scalar" (Some "BOOLEAN")
     "Whether regex matches";
   Build_DuckDbBuiltinFunction "regexp_replace" "regexp_replace(string, regex, replacement)" "scalar" (Some "VARCHAR")
     "Replace regex match";
   Build_DuckDbBuiltinFunction "repeat" "repeat(string, count)" "scalar" (Some "VARCHAR")
     "Repeat string";
   Build_DuckDbBuiltinFunction "replace" "replace(string, source, target)" "scalar" (Some "VARCHAR")
     "Replace substring";
   Build_DuckDbBuiltinFunction "reverse" "reverse(string)" "scalar" (Some "VARCHAR")
     "Reverse string";
   Build_DuckDbBuiltinFunction "right" "right(string, count)" "scalar" (Some "VARCHAR")
     "Rightmost characters";
   Build_DuckDbBuiltinFunction "round" "round(x[, s])" "scalar" None
     "Round number";
   Build_DuckDbBuiltinFunction "row_to_json" "row_to_json(row)" "scalar" (Some "JSON")
     "Convert row to JSON";
   Build_DuckDbBuiltinFunction "rpad" "rpad(string, count[, character])" "scalar" (Some "VARCHAR")
     "Pad string on the right";
   Build_DuckDbBuiltinFunction "rtrim" "rtrim(string[, characters])" "scalar" (Some "VARCHAR")
     "Trim characters from right side";
   Build_DuckDbBuiltinFunction "second" "second(ts)" "scalar" (Some "BIGINT")
     "Extract second";
   Build_DuckDbBuiltinFunction "sha1" "sha1(string)" "scalar" (Some "VARCHAR")
     "SHA1 hash";
   Build_DuckDbBuiltinFunction "sha256" "sha256(string)" "scalar" (Some "VARCHAR")
     "SHA256 hash";
   Build_DuckDbBuiltinFunction "sign" "sign(x)" "scalar" None
     "Sign of number";
   Build_DuckDbBuiltinFunction "sin" "sin(x)" "scalar" (Some "DOUBLE")
     "Sine";
   Build_DuckDbBuiltinFunction "sinh" "sinh(x)" "scalar" (Some "DOUBLE")
     "Hyperbolic sine";
   Build_DuckDbBuiltinFunction "sqrt" "sqrt(x)" "scalar" (Some "DOUBLE")
     "Square root";
   Build_DuckDbBuiltinFunction "starts_with" "starts_with(string, search_string)" "scalar" (Some "BOOLEAN")
     "Whether string starts with search string";
   Build_DuckDbBuiltinFunction "stats" "stats(expr)" "scalar" (Some "VARCHAR")
     "Statistics for expression";
   Build_DuckDbBuiltinFunction "str_split" "str_split(string, separator)" "scalar" (Some "LIST")
     "Split string";
   Build_DuckDbBuiltinFunction "strftime" "strftime(date, format)" "scalar" (Some "VARCHAR")
     "Format date/time";
   Build_DuckDbBuiltinFunction "string_agg" "string_agg(arg[, sep])" "aggregate" (Some "VARCHAR")
     "Concatenate aggregate";
   Build_DuckDbBuiltinFunction "string_split" "string_split(string, separator)" "scalar" (Some "LIST")
     "Split string";
   Build_DuckDbBuiltinFunction "strip_accents" "strip_accents(string)" "scalar" (Some "VARCHAR")
     "Strip accents";
   Build_DuckDbBuiltinFunction "strpos" "strpos(string, search_string)" "scalar" (Some "BIGINT")
     "Position of substring";
   Build_DuckDbBuiltinFunction "strptime" "strptime(text, format)" "scalar" (Some "TIMESTAMP")
     "Parse timestamp";
   Build_DuckDbBuiltinFunction "substr" "substr(string, start[, length])" "scalar" (Some "VARCHAR")
     "Substring";
   Build_DuckDbBuiltinFunction "substring" "substring(string, start[, length])" "scalar" (Some "VARCHAR")
     "Substring";
   Build_DuckDbBuiltinFunction "suffix" "suffix(string, search_string)" "scalar" (Some "BOOLEAN")
     "Whether string ends with search string";
   Build_DuckDbBuiltinFunction "sum" "sum(arg)" "aggregate" None
     "Sum aggregate";
   Build_DuckDbBuiltinFunction "tan" "tan(x)" "scalar" (Some "DOUBLE")
     "Tangent";
   Build_DuckDbBuiltinFunction "tanh" "tanh(x)" "scalar" (Some "DOUBLE")
     "Hyperbolic tangent";
   Build_DuckDbBuiltinFunction "time_bucket" "time_bucket(bucket_width, timestamp[, origin])" "scalar" None
     "Truncate timestamp to time bucket";
   Build_DuckDbBuiltinFunction "timezone" "timezone(zone, timestamp)" "scalar" None
     "Convert or extract timezone";
   Build_DuckDbBuiltinFunction "to_base" "to_base(number, radix[, min_length])" "scalar" (Some "VARCHAR")
     "Convert number to base";
   Build_DuckDbBuiltinFunction "to_base64" "to_base64(blob)" "scalar" (Some "VARCHAR")
     "Base64 encode blob";
   Build_DuckDbBuiltinFunction "to_binary" "to_binary(value)" "scalar" (Some "VARCHAR")
     "Binary representation";
   Build_DuckDbBuiltinFunction "to_days" "to_days(integer)" "scalar" (Some "INTERVAL")
     "Construct day interval";
   Build_DuckDbBuiltinFunction "to_hex" "to_hex(value)" "scalar" (Some "VARCHAR")
     "Hexadecimal representation";
   Build_DuckDbBuiltinFunction "to_json" "to_json(value)" "scalar" (Some "JSON")
     "Convert value to JSON";
   Build_DuckDbBuiltinFunction "to_months" "to_months(integer)" "scalar" (Some "INTERVAL")
     "Construct month interval";
   Build_DuckDbBuiltinFunction "to_seconds" "to_seconds(double)" "scalar" (Some "INTERVAL")
     "Construct second interval";
   Build_DuckDbBuiltinFunction "to_timestamp" "to_timestamp(sec)" "scalar" (Some "TIMESTAMP WITH TIME ZONE")
     "Seconds since epoch to timestamp";
   Build_DuckDbBuiltinFunction "translate" "translate(string, from, to)" "scalar" (Some "VARCHAR")
     "Translate characters";
   Build_DuckDbBuiltinFunction "trim" "trim(string[, characters])" "scalar" (Some "VARCHAR")
     "Trim characters";
   Build_DuckDbBuiltinFunction "trunc" "trunc(x[, s])" "scalar" None
     "Truncate number";
   Build_DuckDbBuiltinFunction "try_strptime" "try_strptime(text, format)" "scalar" (Some "TIMESTAMP")
     "Parse timestamp, returning NULL on failure";
   Build_DuckDbBuiltinFunction "typeof" "typeof(expression)" "scalar" (Some "VARCHAR")
     "Type name of expression";
   Build_DuckDbBuiltinFunction "ucase" "ucase(string)" "scalar" (Some "VARCHAR")
     "Uppercase string";
   Build_DuckDbBuiltinFunction "unhex" "unhex(value)" "scalar" (Some "BLOB")
     "Decode hexadecimal";
   Build_DuckDbBuiltinFunction "unicode" "unicode(string)" "scalar" (Some "INTEGER")
     "Unicode codepoint";
   Build_DuckDbBuiltinFunction "unnest" "unnest(list)" "table" (Some "TABLE")
     "Unnest a list";
   Build_DuckDbBuiltinFunction "upper" "upper(string)" "scalar" (Some "VARCHAR")
     "Converts string to upper case";
   Build_DuckDbBuiltinFunction "url_decode" "url_decode(string)" "scalar" (Some "VARCHAR")
     "Decode URL percent encoding";
   Build_DuckDbBuiltinFunction "url_encode" "url_encode(string)" "scalar" (Some "VARCHAR")
     "Encode URL percent encoding";
   Build_DuckDbBuiltinFunction "uuid" "uuid()" "scalar" (Some "UUID")
     "Random UUID v4";
   Build_DuckDbBuiltinFunction "uuidv4" "uuidv4()" "scalar" (Some "UUID")
     "Random UUID v4";
   Build_DuckDbBuiltinFunction "uuidv7" "uuidv7()" "scalar" (Some "UUID")
     "Random UUID v7";
   Build_DuckDbBuiltinFunction "var_pop" "var_pop(x)" "aggregate" (Some "DOUBLE")
     "Population variance";
   Build_DuckDbBuiltinFunction "var_samp" "var_samp(x)" "aggregate" (Some "DOUBLE")
     "Sample variance";
   Build_DuckDbBuiltinFunction "variance" "variance(x)" "aggregate" (Some "DOUBLE")
     "Sample variance";
   Build_DuckDbBuiltinFunction "version" "version()" "scalar" (Some "VARCHAR")
     "DuckDB version";
   Build_DuckDbBuiltinFunction "week" "week(ts)" "scalar" (Some "BIGINT")
     "Extract week";
   Build_DuckDbBuiltinFunction "weekday" "weekday(ts)" "scalar" (Some "BIGINT")
     "Extract weekday";
   Build_DuckDbBuiltinFunction "year" "year(ts)" "scalar" (Some "BIGINT")
     "Extract year";
   Build_DuckDbBuiltinFunction "yearweek" "yearweek(ts)" "scalar" (Some "BIGINT")
     "Extract year-week"
  ]%string.
