(* ===== verification/DdlSpec.v ===== *)
(** * Table changes

    What the DDL builders of the database drivers share: the messages of
    [extension_protocol::ddl] as far as they are read, the statements that alter a table,
    and what a database does with them.  A table is its comment and its columns with their
    comments; a statement that names a column the table does not have, or adds one it has,
    fails. *)

From S2P Require Import Prelude Text.

Abbreviation text := (list N) (only parsing).

(** ** Messages *)

Record ColumnSpec := {
  col_name : text; type_str : text; nullable : bool; col_default : option text;
  is_primary : bool; is_unique : bool; auto_increment : bool; col_comment : text
}.

Record IndexSpec := {
  index_name : text; index_columns : list text; index_is_unique : bool;
  index_kind : option text; index_where_clause : option text
}.

Record ForeignKeySpec := {
  fk_name : text; from_columns : list text; to_table : text; to_columns : list text;
  on_delete : option text; on_update : option text
}.

Record TableSpec := {
  table_name : text; table_schema : option text; table_database : option text;
  table_columns : list ColumnSpec; primary_key : list text; indexes : list IndexSpec;
  foreign_keys : list ForeignKeySpec; table_comment : text
}.

Record CreateTableOptions := {
  temporary : bool; if_not_exists : bool; with_indexes : bool; with_comments : bool;
  with_foreign_keys : bool
}.
Record BuildCreateTableParams := { ct_spec : TableSpec; ct_options : CreateTableOptions }.
Record BuildCreateTableResult := { ct_sql : text; ct_statements : list text }.

(** [extension_protocol::schema::ObjectKind] *)
Inductive ObjectKind : Type :=
  | TableKind | ViewKind | MaterializedViewKind | IndexKind | SequenceKind | FunctionKind
  | ProcedureKind | TriggerKind | TypeKind | OtherKind (debug : text).
#[export] Instance ObjectKind_eq_dec : EqDecision ObjectKind.
Proof. solve_decision. Defined.

Record BuildDropParams := {
  drop_kind : ObjectKind; drop_database : option text; drop_schema : option text;
  drop_name : text; drop_if_exists : bool; drop_cascade : bool
}.

Inductive DdlBuildOp : Type :=
  | CreateDatabase | DropDatabase | CreateTable | AlterTable | DropTable | DropView
  | CreateSchema | DropSchema | RenameTable | TruncateTable | ColumnDefinition
  | OtherOp (debug : text).

(** The name of an operation in [Debug] form. *)
Definition op_debug (op : DdlBuildOp) : text :=
  match op with
  | CreateDatabase => lit "CreateDatabase" | DropDatabase => lit "DropDatabase"
  | CreateTable => lit "CreateTable" | AlterTable => lit "AlterTable"
  | DropTable => lit "DropTable" | DropView => lit "DropView"
  | CreateSchema => lit "CreateSchema" | DropSchema => lit "DropSchema"
  | RenameTable => lit "RenameTable" | TruncateTable => lit "TruncateTable"
  | ColumnDefinition => lit "ColumnDefinition" | OtherOp debug => debug
  end.

Record BuildDdlResult := { ddl_statements : list text; ddl_warnings : list text }.
Record BuildAlterTableResult := {
  alter_statements : list text; rollback_statements : list text; alter_warnings : list text
}.

Record ColumnRenameSpec := { old_name : text; new_name : text }.
Record BuildAlterTableParams := {
  from_spec : TableSpec; to_spec : TableSpec; column_renames : list ColumnRenameSpec;
  allow_destructive : bool; with_rollback : bool
}.

(** ** Quoting *)

Definition quote_identifier (value : text) : text :=
  [34%N] ++ replace [34%N] [34; 34]%N value ++ [34%N].

Definition quote_literal (value : text) : text := lit "'" ++ replace (lit "'") (lit "''") value ++ lit "'".

(** ** Statements that alter a table *)

Inductive AlterStatement : Type :=
  | RenameColumn (old new : text)
  | AddColumn (name definition : text)
  | DropColumn (name : text)
  | CommentOnTable (comment : text)
  | CommentOnColumn (name comment : text).

(** [table] is the qualified and quoted name of the table. *)
Definition alter_sql (table : text) (statement : AlterStatement) : text :=
  match statement with
  | RenameColumn old new =>
      lit "ALTER TABLE " ++ table ++ lit " RENAME COLUMN " ++ quote_identifier old ++
      lit " TO " ++ quote_identifier new
  | AddColumn _ definition => lit "ALTER TABLE " ++ table ++ lit " ADD COLUMN " ++ definition
  | DropColumn name => lit "ALTER TABLE " ++ table ++ lit " DROP COLUMN " ++ quote_identifier name
  | CommentOnTable comment =>
      lit "COMMENT ON TABLE " ++ table ++ lit " IS " ++ quote_literal comment
  | CommentOnColumn name comment =>
      lit "COMMENT ON COLUMN " ++ table ++ lit "." ++ quote_identifier name ++ lit " IS " ++
      quote_literal comment
  end.

(** ** What a database does *)

Record Table := { comment_of : text; columns_of : gmap text text }.

Definition set_columns (m : gmap text text) (t : Table) : Table :=
  {| comment_of := comment_of t; columns_of := m |}.

Definition execute (statement : AlterStatement) (t : Table) : option Table :=
  let m := columns_of t in
  match statement with
  | RenameColumn old new =>
      comment ← m !! old;
      match m !! new with
      | Some _ => None
      | None => Some (set_columns (<[new := comment]> (delete old m)) t)
      end
  | AddColumn name _ =>
      match m !! name with
      | Some _ => None
      | None => Some (set_columns (<[name := []]> m) t)
      end
  | DropColumn name => _ ← m !! name; Some (set_columns (delete name m) t)
  | CommentOnTable comment => Some {| comment_of := comment; columns_of := m |}
  | CommentOnColumn name comment =>
      _ ← m !! name; Some (set_columns (<[name := comment]> m) t)
  end.

(** The statements in order; a failure ends the script. *)
Fixpoint execute_all (statements : list AlterStatement) (t : Table) : option Table :=
  match statements with
  | [] => Some t
  | statement :: rest => execute statement t ≫= execute_all rest
  end.

Lemma execute_all_app s1 s2 t : execute_all (s1 ++ s2) t = execute_all s1 t ≫= execute_all s2.
Proof.
  revert t. induction s1 as [|s s1 IH]; intros t; [done|]. simpl.
  destruct (execute s t) as [t'|]; [|done]. simpl. apply IH.
Qed.

(** The table a specification describes. *)
Definition table_of (spec : TableSpec) : Table :=
  {| comment_of := table_comment spec;
     columns_of := list_to_map ((λ c, (col_name c, col_comment c)) <$> table_columns spec) |}.

Definition names (spec : TableSpec) : list text := col_name <$> table_columns spec.

(** [columns.iter().all(|c| c.name != name)], negated *)
Definition has_column (name : text) (columns : list ColumnSpec) : bool :=
  existsb (λ c, bool_decide (col_name c = name)) columns.

(** The column of a name in a [HashMap] collected from the columns: the last one wins. *)
Fixpoint column_named (name : text) (columns : list ColumnSpec) : option ColumnSpec :=
  match columns with
  | [] => None
  | c :: rest =>
      match column_named name rest with
      | Some c => Some c
      | None => if bool_decide (col_name c = name) then Some c else None
      end
  end.

(** ** Comments *)

(** One column of [diff_comments]: the statement for it, and the one that undoes it. *)
Definition diff_column (from : list ColumnSpec) (column : ColumnSpec)
    : option (AlterStatement * AlterStatement) :=
  if bool_decide (col_name column = []) then None
  else
    match column_named (col_name column) from with
    | None => None
    | Some old =>
        if bool_decide (col_comment old = col_comment column) then None
        else Some (CommentOnColumn (col_name column) (col_comment column),
                   CommentOnColumn (col_name column) (col_comment old))
    end.

Definition diff_table (from to : TableSpec) : list (AlterStatement * AlterStatement) :=
  if bool_decide (table_comment from = table_comment to) then []
  else [(CommentOnTable (table_comment to), CommentOnTable (table_comment from))].

(** The statements of [diff_comments], each with the one inserted at the front of the
    rollback. *)
Definition diff_comments (from to : TableSpec) : list (AlterStatement * AlterStatement) :=
  diff_table from to ++ omap (diff_column (table_columns from)) (table_columns to).

(** Statements pushed at the end, and their inverses inserted at the front. *)
Definition forward (steps : list (AlterStatement * AlterStatement)) : list AlterStatement :=
  fst <$> steps.
Definition backward (steps : list (AlterStatement * AlterStatement)) : list AlterStatement :=
  reverse (snd <$> steps).

(** The statements for a column that is not the target of a rename and that the table does
    not have; its comment is not part of its definition. *)
Definition add_statements (definition : ColumnSpec → text) (p : BuildAlterTableParams)
    (column : ColumnSpec) : list AlterStatement :=
  if bool_decide (col_name column ∈ (new_name <$> column_renames p)) then []
  else if has_column (col_name column) (table_columns (from_spec p)) then []
  else AddColumn (col_name column) (definition column) ::
       (if blank (col_comment column) then []
        else [CommentOnColumn (col_name column) (col_comment column)]).

(** The statements that drop a column, unless it was renamed. *)
Definition drop_statements (p : BuildAlterTableParams) (column : ColumnSpec) : list AlterStatement :=
  if bool_decide (col_name column ∈ old_name <$> column_renames p) then []
  else if has_column (col_name column) (table_columns (to_spec p)) then []
  else [DropColumn (col_name column)].

(** ** Facts *)

Lemma has_column_true name columns : has_column name columns = true ↔ name ∈ (col_name <$> columns).
Proof.
  unfold has_column. rewrite existsb_exists, list_elem_of_fmap.
  split; intros (c & H1 & H2); exists c.
  - apply bool_decide_eq_true in H2. split; [done|by apply list_elem_of_In].
  - split; [by apply list_elem_of_In|]. by apply bool_decide_eq_true.
Qed.

Lemma has_column_false name columns : has_column name columns = false ↔ name ∉ (col_name <$> columns).
Proof. rewrite <-has_column_true. by destruct (has_column name columns). Qed.

Lemma column_named_in name columns c :
  column_named name columns = Some c → c ∈ columns ∧ col_name c = name.
Proof.
  induction columns as [|c' columns IH]; simpl; [done|].
  destruct (column_named name columns) as [c''|].
  - intros [= ->]. destruct IH; [done|]. split; [by right|done].
  - case_bool_decide; [|done]. intros [= ->]. split; [left|done].
Qed.

Lemma column_named_none name columns : column_named name columns = None ↔ name ∉ (col_name <$> columns).
Proof.
  induction columns as [|c columns IH]; [split; [intros _; apply not_elem_of_nil|done]|].
  rewrite fmap_cons, not_elem_of_cons, <-IH. cbn [column_named].
  destruct (column_named name columns); [naive_solver|]. case_bool_decide; naive_solver.
Qed.

Lemma table_of_lookup spec name :
  NoDup (names spec) →
  columns_of (table_of spec) !! name = col_comment <$> column_named name (table_columns spec).
Proof.
  unfold names, table_of. cbn [columns_of]. induction (table_columns spec) as [|c columns IH]; [done|].
  rewrite !fmap_cons, list_to_map_cons. intros [Hc Hnd]%NoDup_cons. cbn [column_named].
  destruct (decide (col_name c = name)) as [<-|Hne].
  - rewrite lookup_insert_eq. apply column_named_none in Hc. rewrite Hc. by rewrite bool_decide_true.
  - rewrite lookup_insert_ne, IH by done.
    destruct (column_named name columns); [done|]. by rewrite bool_decide_false.
Qed.

Lemma set_columns_same t : set_columns (columns_of t) t = t.
Proof. by destruct t. Qed.

Lemma set_columns_set m m' t : set_columns m (set_columns m' t) = set_columns m t.
Proof. done. Qed.

(** Statements that each concern a column of their own, whose state they find and leave as
    told. *)
Section pointwise.
Context {X : Type} (f : X → list AlterStatement) (key : X → text) (before after : X → option text).

Definition acts_on (x : X) : Prop :=
  ∀ t, columns_of t !! key x = before x →
  execute_all (f x) t = Some (set_columns (partial_alter (λ _, after x) (key x) (columns_of t)) t).

Lemma execute_pointwise xs t :
  NoDup (key <$> xs) → (∀ x, x ∈ xs → acts_on x) →
  (∀ x, x ∈ xs → columns_of t !! key x = before x) →
  ∃ m, execute_all (xs ≫= f) t = Some (set_columns m t) ∧
    (∀ x, x ∈ xs → m !! key x = after x) ∧
    (∀ n, n ∉ key <$> xs → m !! n = columns_of t !! n).
Proof.
  revert t. induction xs as [|x xs IH]; intros t Hnd Hact Hbefore.
  { exists (columns_of t). rewrite set_columns_same. split_and!; [done| |done].
    intros x Hx. by apply not_elem_of_nil in Hx. }
  rewrite fmap_cons in Hnd. apply NoDup_cons in Hnd as [Hx Hnd].
  rewrite bind_cons, execute_all_app.
  rewrite (Hact x ltac:(left) t (Hbefore x ltac:(left))). cbn [mbind option_bind].
  set (t1 := set_columns _ t).
  assert (Hother : ∀ y, y ∈ xs → key y ≠ key x).
  { intros y Hy Heq. apply Hx. rewrite <-Heq. by apply list_elem_of_fmap_2. }
  destruct (IH t1 Hnd) as (m & Hexec & Hin & Hout).
  - intros y Hy. apply Hact. by right.
  - intros y Hy. unfold t1. cbn [columns_of set_columns].
    rewrite lookup_partial_alter_ne by (by apply not_eq_sym, Hother). apply Hbefore. by right.
  - exists m. split_and!; [done| |].
    + intros y [->|Hy]%elem_of_cons; [|by apply Hin]. rewrite Hout by done. unfold t1.
      cbn [columns_of set_columns]. by rewrite lookup_partial_alter_eq.
    + intros n. rewrite fmap_cons, not_elem_of_cons. intros [Hne Hn]. rewrite Hout by done.
      unfold t1. cbn [columns_of set_columns]. by rewrite lookup_partial_alter_ne.
Qed.
End pointwise.

(** A column that is left alone. *)
Lemma acts_on_nothing {X} (f : X → list AlterStatement) key before after x :
  f x = [] → after x = before x → acts_on f key before after x.
Proof.
  intros Hf Ha t Ht. rewrite Hf. simpl. f_equal. destruct t as [comment m]. unfold set_columns. simpl in *.
  f_equal. apply map_eq. intros n. destruct (decide (n = key x)) as [->|Hn].
  - by rewrite lookup_partial_alter_eq, Ha.
  - by rewrite lookup_partial_alter_ne.
Qed.

(** ** Renaming *)

(** Renames of distinct columns to distinct new names. *)
Definition renames_ok (renames : list ColumnRenameSpec) (m : gmap text text) : Prop :=
  NoDup (old_name <$> renames) ∧ NoDup (new_name <$> renames) ∧
  (∀ r, r ∈ renames → is_Some (m !! old_name r) ∧ m !! new_name r = None).

Definition rename_statements (renames : list ColumnRenameSpec) : list AlterStatement :=
  (λ r, RenameColumn (old_name r) (new_name r)) <$> renames.

Lemma execute_renames renames t :
  renames_ok renames (columns_of t) →
  ∃ m, execute_all (rename_statements renames) t = Some (set_columns m t) ∧
    (∀ r, r ∈ renames → m !! new_name r = columns_of t !! old_name r) ∧
    (∀ r, r ∈ renames → m !! old_name r = None) ∧
    (∀ n, n ∉ (old_name <$> renames) → n ∉ (new_name <$> renames) → m !! n = columns_of t !! n).
Proof.
  revert t. induction renames as [|r renames IH]; intros t (Hold & Hnew & Hr).
  { exists (columns_of t). rewrite set_columns_same.
    split_and!; [done|by intros r ?%not_elem_of_nil..|done]. }
  rewrite fmap_cons in Hold, Hnew. apply NoDup_cons in Hold as [Hold1 Hold].
  apply NoDup_cons in Hnew as [Hnew1 Hnew].
  destruct (Hr r ltac:(left)) as [[comment Hc] Hfree].
  unfold rename_statements. rewrite fmap_cons. cbn [execute_all execute].
  rewrite Hc. cbn [mbind option_bind]. rewrite Hfree. cbn [mbind option_bind].
  set (t1 := set_columns _ t).
  assert (Hne : ∀ r', r' ∈ renames →
    old_name r' ≠ old_name r ∧ new_name r' ≠ new_name r ∧ old_name r' ≠ new_name r ∧
    new_name r' ≠ old_name r).
  { intros r' Hr'. destruct (Hr r' ltac:(by right)) as [[c' Hc'] Hfree']. split_and!.
    - intros E. apply Hold1. rewrite <-E. by apply list_elem_of_fmap_2.
    - intros E. apply Hnew1. rewrite <-E. by apply list_elem_of_fmap_2.
    - intros E. by rewrite E, Hfree in Hc'.
    - intros E. by rewrite E, Hc in Hfree'. }
  destruct (IH t1) as (m & Hexec & Hmnew & Hmold & Hmother).
  { split_and!; [done..|]. intros r' Hr'. unfold t1. cbn [columns_of set_columns].
    destruct (Hne r' Hr') as (? & ? & ? & ?).
    rewrite !lookup_insert_ne, !lookup_delete_ne by done. apply Hr. by right. }
  assert (Hnn : old_name r ≠ new_name r) by (intros E; by rewrite <-E, Hc in Hfree).
  exists m. split_and!; [done|..].
  - intros r' [->|Hr']%elem_of_cons.
    + rewrite Hmother; [unfold t1; cbn [columns_of set_columns]; by rewrite lookup_insert_eq| |done].
      intros (r' & E & Hr')%list_elem_of_fmap. destruct (Hne r' Hr') as (_ & _ & Hx & _). by rewrite <-E in Hx.
    + rewrite (Hmnew r' Hr'). unfold t1. cbn [columns_of set_columns].
      destruct (Hne r' Hr') as (? & ? & ? & ?). by rewrite lookup_insert_ne, lookup_delete_ne.
  - intros r' [->|Hr']%elem_of_cons; [|by apply Hmold].
    rewrite Hmother; [unfold t1; cbn [columns_of set_columns];
      by rewrite lookup_insert_ne, lookup_delete_eq|done|].
    intros (r' & E & Hr')%list_elem_of_fmap. destruct (Hne r' Hr') as (_ & _ & _ & Hx). by rewrite <-E in Hx.
  - intros n. rewrite !fmap_cons, !not_elem_of_cons. intros [? ?] [? ?].
    rewrite Hmother by done. unfold t1. cbn [columns_of set_columns].
    by rewrite lookup_insert_ne, lookup_delete_ne.
Qed.

(** ** Changes of comments *)

Lemma execute_diff_table from to t :
  execute_all (forward (diff_table from to)) t =
    Some (if bool_decide (table_comment from = table_comment to) then t
          else {| comment_of := table_comment to; columns_of := columns_of t |}).
Proof. unfold diff_table. by case_bool_decide. Qed.

(** The columns of both specifications whose comments differ get the new comment. *)
Lemma diff_column_acts from c old :
  col_name c ≠ [] → column_named (col_name c) from = Some old →
  acts_on (λ c, forward (option_list (diff_column from c))) col_name
    (λ _, Some (col_comment old)) (λ _, Some (col_comment c)) c.
Proof.
  intros Hne Hold t Ht. unfold diff_column. rewrite bool_decide_false, Hold by done.
  case_bool_decide as Heq.
  - simpl. f_equal. rewrite <-(set_columns_same t) at 1. f_equal. rewrite <-Heq, <-Ht.
    symmetry. apply map_eq. intros n. destruct (decide (n = col_name c)) as [->|Hn].
    + by rewrite lookup_partial_alter_eq.
    + by rewrite lookup_partial_alter_ne.
  - simpl. by rewrite Ht.
Qed.

Lemma forward_omap {A} (f : A → option (AlterStatement * AlterStatement)) l :
  forward (omap f l) = l ≫= λ a, forward (option_list (f a)).
Proof.
  unfold forward. induction l as [|a l IH]; [done|]. rewrite bind_cons. cbn [omap list_omap].
  destruct (f a); simpl; by rewrite <-IH.
Qed.

(** ** What a change is to do *)

(** The column a name is the new name of. *)
Fixpoint renamed_from (name : text) (renames : list ColumnRenameSpec) : option text :=
  match renames with
  | [] => None
  | r :: rest => if bool_decide (new_name r = name) then Some (old_name r) else renamed_from name rest
  end.

(** A change in which names are unique and not empty, and a rename takes a column that is
    not to be there any more to one that was not there. *)
Record valid_change (p : BuildAlterTableParams) : Prop := {
  from_names : NoDup (names (from_spec p));
  to_names : NoDup (names (to_spec p));
  to_not_empty : [] ∉ names (to_spec p);
  old_names : NoDup (old_name <$> column_renames p);
  new_names : NoDup (new_name <$> column_renames p);
  renames_apply : ∀ r, r ∈ column_renames p →
    old_name r ∈ names (from_spec p) ∧ (old_name r ∉ names (to_spec p)) ∧
    new_name r ∈ names (to_spec p) ∧ (new_name r ∉ names (from_spec p)) ∧
    blank (old_name r) = false ∧ blank (new_name r) = false
}.

(** The comment of a column of the table after the change, if the column is there.  A renamed
    column keeps its comment; a column that is neither in the new specification nor renamed
    stays unless the change may be destructive. *)
Definition expected (p : BuildAlterTableParams) (name : text) : option text :=
  match column_named name (table_columns (to_spec p)) with
  | Some c =>
      match renamed_from name (column_renames p) with
      | Some old => col_comment <$> column_named old (table_columns (from_spec p))
      | None =>
          Some (if has_column name (table_columns (from_spec p)) then col_comment c
                else if blank (col_comment c) then [] else col_comment c)
      end
  | None =>
      if allow_destructive p || bool_decide (name ∈ (old_name <$> column_renames p)) then None
      else col_comment <$> column_named name (table_columns (from_spec p))
  end.

Lemma renamed_from_some name renames old :
  renamed_from name renames = Some old → ∃ r, r ∈ renames ∧ new_name r = name ∧ old_name r = old.
Proof.
  induction renames as [|r renames IH]; simpl; [done|]. case_bool_decide.
  - intros [= <-]. exists r. split_and!; [left|done..].
  - intros (r' & ? & ? & ?)%IH. exists r'. split_and!; [by right|done..].
Qed.

Lemma renamed_from_none name renames : renamed_from name renames = None ↔ name ∉ (new_name <$> renames).
Proof.
  induction renames as [|r renames IH]; simpl; [split; [intros _; apply not_elem_of_nil|done]|].
  rewrite not_elem_of_cons, <-IH. case_bool_decide; naive_solver.
Qed.

(** Names that are in a specification, and not. *)
Lemma column_named_some name columns :
  name ∈ (col_name <$> columns) → ∃ c, column_named name columns = Some c ∧ c ∈ columns ∧ col_name c = name.
Proof.
  intros Hin. destruct (column_named name columns) as [c|] eqn:Hc.
  - exists c. split; [done|]. by apply column_named_in.
  - by apply column_named_none in Hc.
Qed.

Lemma column_named_unique columns c :
  NoDup (col_name <$> columns) → c ∈ columns → column_named (col_name c) columns = Some c.
Proof.
  induction columns as [|c' columns IH]; [intros _ ?%not_elem_of_nil; done|].
  rewrite fmap_cons. intros [Hc' Hnd]%NoDup_cons [->|Hc]%elem_of_cons; cbn [column_named].
  - apply column_named_none in Hc'. by rewrite Hc', bool_decide_true.
  - by rewrite IH.
Qed.

Section change.
Context (p : BuildAlterTableParams) (Hvalid : valid_change p).

Abbreviation from := (table_columns (from_spec p)).
Abbreviation to := (table_columns (to_spec p)).
Abbreviation old_table := (columns_of (table_of (from_spec p))).

Lemma old_lookup name : old_table !! name = col_comment <$> column_named name from.
Proof. apply table_of_lookup, Hvalid. Qed.

Lemma old_lookup_in name : is_Some (old_table !! name) ↔ name ∈ names (from_spec p).
Proof.
  rewrite old_lookup, fmap_is_Some. unfold names. split.
  - intros [c Hc]. apply dec_stable. intros Hnot. apply column_named_none in Hnot. by rewrite Hnot in Hc.
  - intros (c & -> & _)%column_named_some. by eexists.
Qed.

Lemma renames_ok_old : renames_ok (column_renames p) old_table.
Proof.
  split_and!; [apply Hvalid..|]. intros r Hr.
  destruct (renames_apply p Hvalid r Hr) as (Ho & _ & _ & Hn & _).
  split; [by apply old_lookup_in|]. apply eq_None_not_Some. by rewrite old_lookup_in.
Qed.

(** The columns after the renames. *)
Definition renamed_columns (m : gmap text text) : Prop :=
  (∀ r, r ∈ column_renames p → m !! new_name r = old_table !! old_name r) ∧
  (∀ r, r ∈ column_renames p → m !! old_name r = None) ∧
  (∀ n, n ∉ (old_name <$> column_renames p) → n ∉ (new_name <$> column_renames p) →
    m !! n = old_table !! n).

(** A column of both specifications is not renamed. *)
Lemma kept_not_renamed name :
  name ∈ names (from_spec p) → name ∈ names (to_spec p) →
  (name ∉ old_name <$> column_renames p) ∧ (name ∉ new_name <$> column_renames p).
Proof.
  intros Hf Ht. split; intros (r & -> & Hr)%list_elem_of_fmap;
    by destruct (renames_apply p Hvalid r Hr) as (? & ? & ? & ? & _).
Qed.

(** Neither there before nor the target of a rename: not there after the renames. *)
Lemma added_is_new m name :
  renamed_columns m → name ∉ names (from_spec p) → name ∉ (new_name <$> column_renames p) →
  m !! name = None.
Proof.
  intros (_ & _ & Hother) Hf Hn. rewrite Hother; [|intros (r & -> & Hr)%list_elem_of_fmap|done].
  - apply eq_None_not_Some. by rewrite old_lookup_in.
  - by destruct (renames_apply p Hvalid r Hr) as (? & _).
Qed.

(** What the table has for a column once the additions are through. *)
Definition after_add (m : gmap text text) (c : ColumnSpec) : option text :=
  if bool_decide (col_name c ∈ (new_name <$> column_renames p)) ||
     has_column (col_name c) from
  then m !! col_name c else Some (if blank (col_comment c) then [] else col_comment c).

Lemma add_statements_act (definition : ColumnSpec → text) (m : gmap text text) c :
  renamed_columns m →
  acts_on (add_statements definition p) col_name (λ c, m !! col_name c) (after_add m) c.
Proof.
  intros Hm. destruct (decide (add_statements definition p c = [])) as [Hnil|Hadd].
  - apply acts_on_nothing; [done|]. unfold after_add. unfold add_statements in Hnil.
    case_bool_decide; [done|]. by destruct (has_column _ _).
  - intros t Ht. unfold add_statements, after_add in *. case_bool_decide as Hnew; [done|].
    destruct (has_column _ _) eqn:Hhas; [done|]. cbn [orb].
    rewrite (added_is_new m) in Ht by (done || by apply has_column_false).
    cbn [execute_all execute]. rewrite Ht. cbn [mbind option_bind].
    destruct (blank (col_comment c)); [done|]. cbn [execute_all execute columns_of set_columns].
    rewrite lookup_insert_eq. cbn [mbind option_bind]. rewrite set_columns_set. f_equal. f_equal.
    apply map_eq. intros n. destruct (decide (n = col_name c)) as [->|Hn].
    + by rewrite lookup_insert_eq, lookup_partial_alter_eq.
    + by rewrite !lookup_insert_ne, lookup_partial_alter_ne.
Qed.

Lemma execute_adds (definition : ColumnSpec → text) (m : gmap text text) t :
  renamed_columns m → columns_of t = m →
  ∃ m2, execute_all (to ≫= add_statements definition p) t = Some (set_columns m2 t) ∧
    (∀ c, c ∈ to → m2 !! col_name c = after_add m c) ∧
    (∀ n, n ∉ names (to_spec p) → m2 !! n = m !! n).
Proof.
  intros Hm Ht.
  destruct (execute_pointwise (add_statements definition p) col_name (λ c, m !! col_name c)
    (after_add m) to t) as (m2 & Hexec & Hin & Hout).
  - apply Hvalid.
  - intros c _. by apply add_statements_act.
  - intros c _. by rewrite Ht.
  - rewrite Ht in Hout. by exists m2.
Qed.

(** What the columns are after renames, additions, drops and changed comments. *)
Lemma final_columns (m1 m2 m3 m4 : gmap text text) :
  renamed_columns m1 →
  (∀ c, c ∈ to → m2 !! col_name c =
    if bool_decide (col_name c ∈ (new_name <$> column_renames p)) || has_column (col_name c) from
    then m1 !! col_name c else Some (if blank (col_comment c) then [] else col_comment c)) →
  (∀ n, n ∉ names (to_spec p) → m2 !! n = m1 !! n) →
  (∀ n, m3 !! n =
    if allow_destructive p && negb (bool_decide (n ∈ names (to_spec p))) then None else m2 !! n) →
  (∀ c, c ∈ to → m4 !! col_name c =
    if has_column (col_name c) from then Some (col_comment c) else m3 !! col_name c) →
  (∀ n, n ∉ names (to_spec p) → m4 !! n = m3 !! n) →
  ∀ n, m4 !! n = expected p n.
Proof.
  intros (Hr1 & Hr2 & Hr3) H2 H2' H3 H4 H4' n. unfold expected.
  destruct (column_named n to) as [c|] eqn:Hc.
  - apply column_named_in in Hc as [Hin <-].
    assert (Hto : col_name c ∈ names (to_spec p)) by (by apply list_elem_of_fmap_2).
    rewrite H4, H3, H2 by done. rewrite (bool_decide_true (_ ∈ names _)) by done. rewrite andb_false_r.
    destruct (renamed_from _ _) as [old|] eqn:Hren.
    + apply renamed_from_some in Hren as (r & Hr & Hnew & <-).
      destruct (renames_apply p Hvalid r Hr) as (_ & _ & _ & Hnf & _). rewrite Hnew in Hnf.
      rewrite (proj2 (has_column_false _ _) Hnf), orb_false_r.
      rewrite bool_decide_true by (rewrite <-Hnew; by apply list_elem_of_fmap_2).
      rewrite <-Hnew, Hr1 by done. apply old_lookup.
    + apply renamed_from_none in Hren. rewrite (bool_decide_false _ Hren). cbn [orb].
      by destruct (has_column (col_name c) from).
  - apply column_named_none in Hc. rewrite H4', H3 by done.
    rewrite (bool_decide_false (n ∈ names _)) by done. rewrite andb_true_r.
    destruct (allow_destructive p); [done|]. cbn [orb]. rewrite H2' by done.
    case_bool_decide as Hold.
    + apply list_elem_of_fmap in Hold as (r & -> & Hr). by apply Hr2.
    + rewrite Hr3; [apply old_lookup|done|]. intros (r & -> & Hr)%list_elem_of_fmap.
      by destruct (renames_apply p Hvalid r Hr) as (_ & _ & ? & _).
Qed.

(** The statements for the comments, on columns that are there as before. *)
Lemma execute_diff_comments m t :
  (∀ c, c ∈ to → col_name c ∈ names (from_spec p) → m !! col_name c = old_table !! col_name c) →
  comment_of t = table_comment (from_spec p) → columns_of t = m →
  ∃ m', execute_all (forward (diff_comments (from_spec p) (to_spec p))) t =
      Some {| comment_of := table_comment (to_spec p); columns_of := m' |} ∧
    (∀ c, c ∈ to → m' !! col_name c =
      if has_column (col_name c) from then Some (col_comment c) else m !! col_name c) ∧
    (∀ n, n ∉ names (to_spec p) → m' !! n = m !! n).
Proof.
  intros Hkept Hcomment Hm. unfold diff_comments, forward. rewrite fmap_app.
  fold (forward (diff_table (from_spec p) (to_spec p))).
  fold (forward (omap (diff_column from) to)). rewrite execute_all_app, execute_diff_table.
  cbn [mbind option_bind]. rewrite forward_omap.
  assert (∃ t1, (if bool_decide (table_comment (from_spec p) = table_comment (to_spec p)) then t
    else {| comment_of := table_comment (to_spec p); columns_of := columns_of t |}) = t1 ∧
    comment_of t1 = table_comment (to_spec p) ∧ columns_of t1 = m) as (t1 & -> & Hc1 & Hm1).
  { eexists. split; [done|]. case_bool_decide; [|done]. split; [congruence|done]. }
  destruct (execute_pointwise (λ c, forward (option_list (diff_column from c))) col_name
    (λ c, m !! col_name c)
    (λ c, if has_column (col_name c) from then Some (col_comment c) else m !! col_name c) to t1)
    as (m' & Hexec & Hin & Hout).
  - apply Hvalid.
  - intros c Hc. destruct (has_column (col_name c) from) eqn:Hhas.
    + pose proof Hhas as Hhas'. apply has_column_true in Hhas'.
      destruct (column_named_some _ _ Hhas') as (old & Hold & _ & _).
      assert (Hne : col_name c ≠ []).
      { intros E. apply (to_not_empty p Hvalid). rewrite <-E. by apply list_elem_of_fmap_2. }
      intros t2 Ht2. rewrite Hhas. apply (diff_column_acts from c old Hne Hold).
      by rewrite Ht2, (Hkept c Hc Hhas'), old_lookup, Hold.
    + assert (column_named (col_name c) from = None) as Hnone
        by (by apply column_named_none, has_column_false).
      apply acts_on_nothing.
      * unfold diff_column. rewrite Hnone. by case_bool_decide.
      * by rewrite Hhas.
  - intros c Hc. by rewrite Hm1.
  - exists m'. rewrite Hexec. split_and!; [|done|]. 
    + f_equal. unfold set_columns. by rewrite Hc1.
    + intros n Hn. by rewrite Hout, Hm1.
Qed.
Definition after_drop (m : gmap text text) (c : ColumnSpec) : option text :=
  if bool_decide (col_name c ∈ old_name <$> column_renames p) ||
     has_column (col_name c) to
  then m !! col_name c else None.

Lemma drop_statements_act (m : gmap text text) c :
  is_Some (m !! col_name c) ∨ drop_statements p c = [] →
  acts_on (drop_statements p) col_name (λ c, m !! col_name c) (after_drop m) c.
Proof.
  intros Hm. destruct (decide (drop_statements p c = [])) as [Hnil|Hdrop].
  - apply acts_on_nothing; [done|]. unfold after_drop. unfold drop_statements in Hnil.
    case_bool_decide; [done|]. by destruct (has_column _ _).
  - destruct Hm as [[x Hx]|]; [|done]. intros t Ht. unfold drop_statements, after_drop in *.
    case_bool_decide; [done|]. destruct (has_column _ _); [done|]. cbn [orb].
    cbn [execute_all execute]. rewrite Ht, Hx. done.
Qed.

(** A column a change drops is one the table has. *)
Lemma dropped_is_there (m1 m2 : gmap text text) c :
  renamed_columns m1 → (∀ n, n ∉ names (to_spec p) → m2 !! n = m1 !! n) →
  c ∈ from → is_Some (m2 !! col_name c) ∨ drop_statements p c = [].
Proof.
  intros (_ & _ & Hother) H2 Hc. unfold drop_statements. case_bool_decide as Hold; [by right|].
  destruct (has_column _ _) eqn:Hhas; [by right|]. left. apply has_column_false in Hhas.
  rewrite H2, Hother; [|done| |done].
  - apply old_lookup_in. by apply list_elem_of_fmap_2.
  - intros (r & E & Hr)%list_elem_of_fmap. destruct (renames_apply p Hvalid r Hr) as (_ & _ & ? & _).
    rewrite E in Hhas. done.
Qed.

Lemma execute_drops (m1 m2 : gmap text text) t :
  renamed_columns m1 → (∀ n, n ∉ names (to_spec p) → m2 !! n = m1 !! n) → columns_of t = m2 →
  ∃ m3, execute_all (if allow_destructive p then from ≫= drop_statements p
                     else []) t = Some (set_columns m3 t) ∧
    ∀ n, m3 !! n =
      if allow_destructive p && negb (bool_decide (n ∈ names (to_spec p))) then None else m2 !! n.
Proof.
  intros Hm1 H2 Ht. destruct (allow_destructive p); [|by exists m2; subst m2; rewrite set_columns_same].
  destruct (execute_pointwise (drop_statements p) col_name (λ c, m2 !! col_name c) (after_drop m2)
    from t) as (m3 & Hexec & Hin & Hout).
  - apply Hvalid.
  - intros c Hc. apply drop_statements_act. by apply (dropped_is_there m1).
  - intros c Hc. by rewrite Ht.
  - exists m3. split; [done|]. intros n. cbn [andb].
    destruct (decide (n ∈ names (from_spec p))) as [(c & -> & Hc)%list_elem_of_fmap|Hf].
    + rewrite (Hin c Hc). unfold after_drop. case_bool_decide as Hold.
      * apply list_elem_of_fmap in Hold as (r & E & Hr).
        destruct (renames_apply p Hvalid r Hr) as (_ & Hto & _). rewrite E.
        rewrite bool_decide_false by done. cbn [orb negb]. rewrite H2 by done. by apply Hm1.
      * cbn [orb]. destruct (has_column _ _) eqn:Hhas.
        -- apply has_column_true in Hhas. by rewrite bool_decide_true.
        -- apply has_column_false in Hhas. by rewrite bool_decide_false.
    + rewrite Hout, Ht by done. case_bool_decide as Hto; cbn [negb]; [done|].
      rewrite H2 by done. destruct Hm1 as (_ & _ & Hother). rewrite Hother.
      * apply eq_None_not_Some. by rewrite old_lookup_in.
      * intros (r & -> & Hr)%list_elem_of_fmap. by destruct (renames_apply p Hvalid r Hr) as (? & _).
      * intros (r & -> & Hr)%list_elem_of_fmap. by destruct (renames_apply p Hvalid r Hr) as (_ & _ & ? & _).
Qed.

(** The statements of a change, but for the comments. *)
Definition column_script (definition : ColumnSpec → text) : list AlterStatement :=
  rename_statements (column_renames p) ++ (to ≫= add_statements definition p) ++
  (if allow_destructive p then from ≫= drop_statements p else []).

Lemma execute_column_script definition :
  ∃ m, execute_all (column_script definition) (table_of (from_spec p)) =
      Some (set_columns m (table_of (from_spec p))) ∧
    (∀ c, c ∈ to → col_name c ∈ names (from_spec p) → m !! col_name c = old_table !! col_name c) ∧
    (∀ m' : gmap text text, (∀ c, c ∈ to → m' !! col_name c =
        if has_column (col_name c) from then Some (col_comment c) else m !! col_name c) →
      (∀ n, n ∉ names (to_spec p) → m' !! n = m !! n) →
      ∀ n, m' !! n = expected p n).
Proof.
  unfold column_script. rewrite execute_all_app.
  destruct (execute_renames _ _ renames_ok_old) as (m1 & -> & Hm1).
  cbn [mbind option_bind]. rewrite execute_all_app.
  destruct (execute_adds definition m1 (set_columns m1 (table_of (from_spec p))))
    as (m2 & -> & H2 & H2'); [done..|].
  cbn [mbind option_bind]. rewrite set_columns_set.
  destruct (execute_drops m1 m2 (set_columns m2 (table_of (from_spec p))))
    as (m3 & -> & H3); [done..|].
  rewrite set_columns_set. exists m3. split_and!; [done| |].
  - intros c Hc Hf. rewrite H3.
    assert (Hto : col_name c ∈ names (to_spec p)) by (by apply list_elem_of_fmap_2).
    rewrite (bool_decide_true (_ ∈ names _)) by done. cbn [negb]. rewrite andb_false_r, H2 by done.
    unfold after_add. rewrite (proj2 (has_column_true _ _) Hf), orb_true_r.
    destruct (kept_not_renamed _ Hf Hto). by apply Hm1.
  - intros m4 H4 H4'. by apply (final_columns m1 m2 m3 m4).
Qed.

(** All the statements of a change. *)
Lemma execute_change definition :
  ∃ t, execute_all (rename_statements (column_renames p) ++ (to ≫= add_statements definition p) ++
      (if allow_destructive p then from ≫= drop_statements p else []) ++
      forward (diff_comments (from_spec p) (to_spec p))) (table_of (from_spec p)) = Some t ∧
    comment_of t = table_comment (to_spec p) ∧ ∀ n, columns_of t !! n = expected p n.
Proof.
  rewrite !(assoc_L (++)), <-(assoc_L (++) (rename_statements _)). fold (column_script definition).
  rewrite execute_all_app. destruct (execute_column_script definition) as (m & -> & Hkept & Hfinal).
  cbn [mbind option_bind].
  destruct (execute_diff_comments m (set_columns m (table_of (from_spec p))))
    as (m4 & -> & H4 & H4'); [done..|].
  eexists. split_and!; [done|done|]. by apply Hfinal.
Qed.
End change.

(** ** Undoing *)

(** Statements, and those that go to the front of the rollback with them. *)
Abbreviation step := (list AlterStatement * list AlterStatement)%type (only parsing).

Definition script (steps : list step) : list AlterStatement := steps ≫= fst.
Fixpoint rollback (steps : list step) : list AlterStatement :=
  match steps with [] => [] | s :: rest => rollback rest ++ s.2 end.

Lemma script_app s1 s2 : script (s1 ++ s2) = script s1 ++ script s2.
Proof. unfold script. apply bind_app. Qed.

Lemma rollback_app s1 s2 : rollback (s1 ++ s2) = rollback s2 ++ rollback s1.
Proof.
  induction s1 as [|s s1 IH]; simpl; [by rewrite app_nil_r|]. by rewrite IH, (assoc_L (++)).
Qed.

(** Steps that lead from one table to another, each undone by its own statements. *)
Inductive undoable : list step → Table → Table → Prop :=
  | undoable_nil t : undoable [] t t
  | undoable_cons s rest t t1 t2 :
      execute_all s.1 t = Some t1 → execute_all s.2 t1 = Some t → undoable rest t1 t2 →
      undoable (s :: rest) t t2.

Lemma undoable_app s1 s2 t t1 t2 : undoable s1 t t1 → undoable s2 t1 t2 → undoable (s1 ++ s2) t t2.
Proof. induction 1; intros; [done|]. econstructor; eauto. Qed.

Lemma undoable_rollback steps t t' : undoable steps t t' → execute_all (rollback steps) t' = Some t.
Proof.
  induction 1 as [|s rest t t1 t2 Hdo Hundo _ IH]; [done|]. cbn [rollback].
  by rewrite execute_all_app, IH.
Qed.

(** Steps whose statements are undone wherever they succeed. *)
Definition reversible (s : step) : Prop :=
  ∀ t t', execute_all s.1 t = Some t' → execute_all s.2 t' = Some t.

Lemma reversible_undoable steps t t' :
  Forall reversible steps → execute_all (script steps) t = Some t' → undoable steps t t'.
Proof.
  intros Hall. revert t. induction Hall as [|s rest Hs _ IH]; intros t; [intros [= ->]; constructor|].
  unfold script. rewrite bind_cons, execute_all_app.
  destruct (execute_all s.1 t) as [t1|] eqn:Ht1; [|done]. cbn [mbind option_bind]. intros Hrest.
  econstructor; eauto.
Qed.

Lemma insert_back (m : gmap text text) n c : m !! n = Some c → <[n := c]> m = m.
Proof. apply insert_id. Qed.

Lemma reversible_rename old new : reversible ([RenameColumn old new], [RenameColumn new old]).
Proof.
  intros [c m] t'. cbn [fst snd execute_all execute columns_of].
  destruct (m !! old) as [comment|] eqn:Ho; [|done]. cbn [mbind option_bind].
  destruct (m !! new) eqn:Hn; [done|]. intros [= <-]. cbn [columns_of set_columns].
  rewrite lookup_insert_eq. cbn [mbind option_bind].
  rewrite lookup_insert_ne, lookup_delete_eq by (intros ->; congruence). cbn [mbind option_bind].
  f_equal. unfold set_columns. cbn [comment_of]. f_equal.
  rewrite delete_insert_id by (rewrite lookup_delete_ne by (intros ->; congruence); done).
  by rewrite insert_delete_id.
Qed.

Lemma reversible_add name definition comments :
  comments = [] ∨ (∃ comment, comments = [CommentOnColumn name comment]) →
  reversible (AddColumn name definition :: comments, [DropColumn name]).
Proof.
  intros Hcomments [c m] t'. cbn [fst snd execute_all execute columns_of].
  destruct (m !! name) eqn:Hn; [done|]. cbn [mbind option_bind].
  destruct Hcomments as [->|[comment ->]]; cbn [execute_all execute columns_of set_columns].
  - intros [= <-]. cbn [columns_of set_columns]. rewrite lookup_insert_eq. cbn [mbind option_bind].
    f_equal. unfold set_columns. cbn [comment_of]. f_equal. by rewrite delete_insert_id.
  - rewrite lookup_insert_eq. cbn [mbind option_bind]. intros [= <-]. cbn [columns_of set_columns].
    rewrite lookup_insert_eq. cbn [mbind option_bind].
    f_equal. unfold set_columns. cbn [comment_of]. f_equal.
    by rewrite insert_insert_eq, delete_insert_id.
Qed.

(** The statements for the comments, each undone by the old comment. *)
Definition single (s : AlterStatement * AlterStatement) : step := ([s.1], [s.2]).

Lemma script_single l : script (single <$> l) = forward l.
Proof. induction l as [|s l IH]; [done|]. cbn. f_equal. apply IH. Qed.

Lemma rollback_single l : rollback (single <$> l) = backward l.
Proof.
  unfold backward. induction l as [|s l IH]; [done|]. rewrite !fmap_cons, reverse_cons. cbn [rollback].
  by rewrite IH.
Qed.

Lemma column_comments_undoable from cs t t' :
  NoDup (col_name <$> cs) →
  (∀ c old, c ∈ cs → column_named (col_name c) from = Some old →
    columns_of t !! col_name c = Some (col_comment old)) →
  execute_all (forward (omap (diff_column from) cs)) t = Some t' →
  undoable (single <$> omap (diff_column from) cs) t t'.
Proof.
  revert t. induction cs as [|c cs IH]; intros t Hnd Hold; [intros [= ->]; constructor|].
  rewrite fmap_cons in Hnd. apply NoDup_cons in Hnd as [Hc Hnd]. cbn [omap list_omap].
  destruct (diff_column from c) as [[s u]|] eqn:Hdiff.
  2: { apply IH; [done|]. intros c' old' Hc'. apply Hold. by right. }
  unfold diff_column in Hdiff. case_bool_decide; [done|].
  destruct (column_named (col_name c) from) as [old|] eqn:Hnamed; [|done].
  case_bool_decide; [done|]. injection Hdiff as <- <-.
  pose proof (Hold c old ltac:(left) Hnamed) as Ht.
  unfold forward. rewrite !fmap_cons. cbn [fst execute_all execute]. rewrite Ht. cbn [mbind option_bind].
  intros Hrest. econstructor.
  - cbn [fst single execute_all execute]. by rewrite Ht.
  - cbn [snd single execute_all execute columns_of set_columns]. rewrite lookup_insert_eq.
    cbn [mbind option_bind]. f_equal. destruct t as [comment m]. unfold set_columns. cbn [comment_of].
    f_equal. by rewrite insert_insert_eq, insert_id.
  - apply IH; [done| |done]. intros c' old' Hc' Hnamed'. cbn [columns_of set_columns].
    rewrite lookup_insert_ne; [by apply Hold; [right|]|].
    intros E. apply Hc. rewrite E. by apply list_elem_of_fmap_2.
Qed.

Lemma comments_undoable p t t' :
  valid_change p → comment_of t = table_comment (from_spec p) →
  (∀ c, c ∈ table_columns (to_spec p) → col_name c ∈ names (from_spec p) →
    columns_of t !! col_name c = columns_of (table_of (from_spec p)) !! col_name c) →
  execute_all (forward (diff_comments (from_spec p) (to_spec p))) t = Some t' →
  undoable (single <$> diff_comments (from_spec p) (to_spec p)) t t'.
Proof.
  intros Hvalid Hcomment Hkept. unfold diff_comments. rewrite fmap_app. unfold forward at 1.
  rewrite fmap_app, execute_all_app.
  fold (forward (diff_table (from_spec p) (to_spec p))).
  fold (forward (omap (diff_column (table_columns (from_spec p))) (table_columns (to_spec p)))).
  rewrite execute_diff_table. cbn [mbind option_bind].
  assert (∀ t1, columns_of t1 = columns_of t →
    execute_all (forward (omap (diff_column (table_columns (from_spec p))) (table_columns (to_spec p)))) t1
      = Some t' →
    undoable (single <$> omap (diff_column (table_columns (from_spec p))) (table_columns (to_spec p))) t1 t')
    as Hcols.
  { intros t1 Ht1. apply column_comments_undoable; [apply Hvalid|]. intros c old Hc Hnamed.
    assert (col_name c ∈ names (from_spec p)) as Hin.
    { apply column_named_in in Hnamed as [Hold <-]. by apply list_elem_of_fmap_2. }
    by rewrite Ht1, (Hkept c Hc Hin), table_of_lookup, Hnamed by apply Hvalid. }
  unfold diff_table. case_bool_decide as Heq; [by apply Hcols|]. intros Hrest.
  econstructor; [done| |by apply Hcols].
  cbn. f_equal. rewrite <-Hcomment. by destruct t.
Qed.

(** ** A change *)

(** A table whose column [a] gets another comment and whose column [b] is renamed, with a
    column dropped and one added. *)
Definition demo_column (name comment : string) : ColumnSpec :=
  {| col_name := lit name; type_str := lit "INTEGER"; nullable := true; col_default := None;
     is_primary := false; is_unique := false; auto_increment := false; col_comment := lit comment |}.
Definition demo_spec (columns : list ColumnSpec) (comment : string) : TableSpec :=
  {| table_name := lit "t"; table_schema := None; table_database := None; table_columns := columns;
     primary_key := []; indexes := []; foreign_keys := []; table_comment := lit comment |}.
Definition demo_change (destructive : bool) : BuildAlterTableParams :=
  {| from_spec := demo_spec [demo_column "a" "x"; demo_column "b" "y"; demo_column "c" ""] "old";
     to_spec := demo_spec [demo_column "d" ""; demo_column "a" "z"; demo_column "e" "w"] "new";
     column_renames := [{| old_name := lit "b"; new_name := lit "d" |}];
     allow_destructive := destructive; with_rollback := true |}.

Lemma demo_change_valid destructive : valid_change (demo_change destructive).
Proof.
  destruct destructive; split; try (apply (bool_decide_unpack _); vm_compute; exact I).
  all: intros r [->|[]%not_elem_of_nil]%elem_of_cons;
    apply (bool_decide_unpack _); vm_compute; exact I.
Defined.
