(* ===== verification/DuckSchema.v ===== *)
(** * The DuckDB driver: schema queries

    The [schema/*] handlers of ipc/duckdb/src/handlers.rs: each builds a query on the
    catalog, with the filters the host asked for bound as parameters, and reads its rows.
    What serde derives for the result types is a parameter. *)

From S2P Require Import Prelude Text JsonValue DuckValue DuckState DuckText DuckServer DuckBuiltins DdlSpec.

(** ** Parameters and results *)

Record ObjectsParams := {
  ob_conn_id : ConnId; ob_database : option text; ob_schema : option text;
  ob_kinds : list ObjectKind
}.
(** [ViewsParams], and [ColumnsParams], [IndexesParams], [ChecksParams] with a table *)
Record ViewsParams := {
  vw_conn_id : ConnId; vw_database : option text; vw_schema : option text
}.
Record TableParams := {
  tp_conn_id : ConnId; tp_database : option text; tp_schema : option text; tp_table : text
}.

Record DatabaseInfo := { db_name : text; db_comment : text }.
Record SchemaInfo := { sc_name : text; sc_owner : option text; sc_comment : text }.
Record ObjectInfo := {
  oi_name : text; oi_kind : ObjectKind; oi_schema : option text; oi_comment : text
}.
Record ColumnInfo := {
  ci_ordinal : N; ci_name : text; ci_type_str : text; ci_raw_type : option text;
  ci_nullable : bool; ci_default : option text; ci_comment : text
}.
Record ViewInfo := { vi_name : text; vi_kind : ObjectKind; vi_definition_sql : text; vi_comment : text }.
Record IndexInfo := {
  ii_name : text; ii_table : text; ii_columns : list text; ii_kind : option text;
  ii_is_unique : bool; ii_is_primary : bool
}.
Record CheckInfo := { ck_name : text; ck_table : text; ck_definition : text }.
Record FunctionInfo := {
  fi_name : text; fi_return_type : option text; fi_args : list text; fi_language : option text;
  fi_comment : text; fi_extra : Value
}.

Record ObjectViewParams := {
  ov_conn_id : ConnId; ov_view : text; ov_database : option text; ov_schema : option text;
  ov_table : option text
}.
Record ObjectViewColumn := {
  vc_key : text; vc_name : text; vc_width_px : N; vc_align : option text
}.
Record ObjectView := {
  view_title : text; view_columns : list ObjectViewColumn; view_rows : list (list text)
}.

(** What serde derives for the messages. *)
Class SchemaCodec := {
  databases_params : FromValue ConnId;
  schemas_params : FromValue ConnId;
  objects_params :: FromValue ObjectsParams;
  views_params :: FromValue ViewsParams;
  columns_params : FromValue TableParams;
  indexes_params : FromValue TableParams;
  checks_params : FromValue TableParams;
  functions_params : FromValue ConnId;
  object_view_params :: FromValue ObjectViewParams;
  database_value : DatabaseInfo → Value;
  schemas_value :: ToValue (list SchemaInfo);
  objects_value :: ToValue (list ObjectInfo);
  columns_value :: ToValue (list ColumnInfo);
  views_value :: ToValue (list ViewInfo);
  indexes_value :: ToValue (list IndexInfo);
  checks_value :: ToValue (list CheckInfo);
  functions_value :: ToValue (list FunctionInfo);
  object_view_value :: ToValue ObjectView;
  databases_read :: FromValue (list DatabaseInfo);
  schemas_read :: FromValue (list SchemaInfo);
  objects_read :: FromValue (list ObjectInfo);
  columns_read :: FromValue (list ColumnInfo);
  views_read :: FromValue (list ViewInfo);
  indexes_read :: FromValue (list IndexInfo);
  functions_read :: FromValue (list FunctionInfo);
  kind_text : ObjectKind → text
}.

Section schema.
Context `{DuckDb, SchemaCodec}.

Abbreviation handler A := (comp Duck ProtocolError A) (only parsing).

Definition internal (code : ErrorCode) (e : text) : ProtocolError :=
  protocol_error_from_anyhow code [e].

(** [conn.prepare(sql)], [stmt.query_map(values, decode)] and the loop over its rows *)
Definition query_infos {A} (conn : Conn) (prepare_code : ErrorCode) (q : query_parts)
    (decode : list (option ValueRef) → text + A) : handler (list A) :=
  stmt ← on_db (internal prepare_code) (prepare conn q.1);
  rows ← on_db (internal INTERNAL_ERROR) (query stmt (VText <$> q.2));
  lift_outcome (decode_rows decode (internal INTERNAL_ERROR) (rows_cells rows) (rows_error rows)).

(** The session's connection and its current catalog. *)
Definition catalog_of (conn_id : ConnId) : handler (Conn * text) :=
  session ← get_session conn_id;
  conn ← lift_outcome (connection NOT_INITIALIZED session);
  current_catalog ← current_duckdb_catalog session;
  mret (conn, current_catalog).

Definition handle_schema_databases (params : Value) : handler Value :=
  conn_id ← lift_outcome (parse_params databases_params params);
  session ← get_session conn_id;
  current_catalog ← current_duckdb_catalog session;
  mret (Array [database_value {| db_name := current_catalog; db_comment := [] |}]).

Definition handle_schema_schemas (params : Value) : handler Value :=
  conn_id ← lift_outcome (parse_params schemas_params params);
  conn ← get_connection conn_id;
  out ← query_infos conn SQL_SYNTAX_ERROR
    (lit "SELECT DISTINCT schema_name FROM information_schema.schemata ORDER BY schema_name", [])
    (λ row, read_cell from_sql_string 0 row (λ name,
      inr {| sc_name := name; sc_owner := None; sc_comment := [] |}));
  lift_outcome (serialize schemas_value out).

(** *** Objects *)

Definition not_internal : text := lit " AND internal = FALSE AND temporary = FALSE".

Definition add_text (t : text) (q : query_parts) : query_parts := (q.1 ++ t, q.2).

Definition tables_query (database schema : option text) (current_catalog : text) : query_parts :=
  let q :=
    if should_include_internal_schema_objects schema
    then (lit "SELECT view_name AS table_name, schema_name, comment FROM duckdb_views() WHERE 1=1", [])
    else (lit "SELECT table_name, schema_name, comment FROM duckdb_tables() WHERE 1=1" ++
          not_internal, []) in
  add_text (lit " ORDER BY schema_name, table_name")
    (append_database_schema_filters database schema (lit "database_name") (lit "schema_name")
       current_catalog q).

Definition views_query (select : text) (database schema : option text) (current_catalog : text)
    : query_parts :=
  let q := (select ++ if should_include_internal_schema_objects schema then [] else not_internal, []) in
  add_text (lit " ORDER BY schema_name, view_name")
    (append_database_schema_filters database schema (lit "database_name") (lit "schema_name")
       current_catalog q).

Definition object_info (kind : ObjectKind) (row : list (option ValueRef)) : text + ObjectInfo :=
  read_cell from_sql_string 0 row (λ name,
  read_cell from_sql_opt_string 1 row (λ schema,
  read_cell from_sql_opt_string 2 row (λ comment,
    inr {| oi_name := name; oi_kind := kind; oi_schema := schema; oi_comment := default [] comment |}))).

(** Whether tables, and whether views, are listed. *)
Definition lists_tables (p : ObjectsParams) : bool :=
  bool_decide (ob_kinds p = []) || bool_decide (TableKind ∈ ob_kinds p).

Definition lists_views (p : ObjectsParams) : bool :=
  (bool_decide (ob_kinds p = []) || bool_decide (ViewKind ∈ ob_kinds p)) &&
  negb (should_include_internal_schema_objects (ob_schema p) && lists_tables p).

Definition handle_schema_objects (params : Value) : handler Value :=
  p ← lift_outcome (parse_params objects_params params);
  '(conn, current_catalog) ← catalog_of (ob_conn_id p);
  tables ← (if lists_tables p
            then query_infos conn INTERNAL_ERROR
                   (tables_query (ob_database p) (ob_schema p) current_catalog) (object_info TableKind)
            else mret []);
  views ← (if lists_views p
           then query_infos conn INTERNAL_ERROR
                  (views_query (lit "SELECT view_name, schema_name, comment FROM duckdb_views() WHERE 1=1")
                     (ob_database p) (ob_schema p) current_catalog) (object_info ViewKind)
           else mret []);
  lift_outcome (serialize objects_value (tables ++ views)).

(** *** Columns, views, indexes, checks *)

Definition columns_query (p : TableParams) (current_catalog : text) : query_parts :=
  let sql := lit "SELECT column_index, column_name, data_type, is_nullable, column_default, comment " ++
             lit "FROM duckdb_columns() WHERE table_name = ?" in
  let sql := if should_include_internal_schema_objects (tp_schema p) then sql
             else sql ++ lit " AND internal = FALSE" in
  add_text (lit " ORDER BY column_index")
    (append_database_schema_filters (tp_database p) (tp_schema p) (lit "database_name")
       (lit "schema_name") current_catalog (sql, [tp_table p])).

(** [ordinal as u32] *)
Definition as_u32 (z : Z) : N := Z.to_N (z `mod` 2 ^ 32)%Z.

Definition column_info (row : list (option ValueRef)) : text + ColumnInfo :=
  read_cell from_sql_i64 0 row (λ ordinal,
  read_cell from_sql_string 1 row (λ name,
  read_cell from_sql_string 2 row (λ type_str,
  read_cell from_sql_bool 3 row (λ nullable,
  read_cell from_sql_opt_string 4 row (λ column_default,
  read_cell from_sql_opt_string 5 row (λ comment,
    inr {| ci_ordinal := as_u32 ordinal; ci_name := name; ci_type_str := type_str;
           ci_raw_type := Some type_str; ci_nullable := nullable; ci_default := column_default;
           ci_comment := default [] comment |})))))).

Definition handle_schema_columns (params : Value) : handler Value :=
  p ← lift_outcome (parse_params columns_params params);
  _ ← lift_outcome (ensure (negb (blank (tp_table p))) (missing_param (lit "table")));
  '(conn, current_catalog) ← catalog_of (tp_conn_id p);
  out ← query_infos conn INTERNAL_ERROR (columns_query p current_catalog) column_info;
  lift_outcome (serialize columns_value out).

Definition handle_schema_views (params : Value) : handler Value :=
  p ← lift_outcome (parse_params views_params params);
  '(conn, current_catalog) ← catalog_of (vw_conn_id p);
  out ← query_infos conn INTERNAL_ERROR
    (views_query (lit "SELECT view_name, sql FROM duckdb_views() WHERE 1=1")
       (vw_database p) (vw_schema p) current_catalog)
    (λ row, read_cell from_sql_string 0 row (λ name,
            read_cell from_sql_opt_string 1 row (λ sql,
              inr {| vi_name := name; vi_kind := ViewKind; vi_definition_sql := default [] sql;
                     vi_comment := [] |})));
  lift_outcome (serialize views_value out).

Definition indexes_query (p : TableParams) (current_catalog : text) : query_parts :=
  add_text (lit " ORDER BY index_name")
    (append_database_schema_filters (tp_database p) (tp_schema p) (lit "database_name")
       (lit "schema_name") current_catalog
       (lit "SELECT index_name, table_name, is_unique FROM duckdb_indexes() " ++
        lit "WHERE table_name = ?", [tp_table p])).

Definition handle_schema_indexes (params : Value) : handler Value :=
  p ← lift_outcome (parse_params indexes_params params);
  _ ← lift_outcome (ensure (negb (blank (tp_table p))) (missing_param (lit "table")));
  '(conn, current_catalog) ← catalog_of (tp_conn_id p);
  out ← query_infos conn INTERNAL_ERROR (indexes_query p current_catalog)
    (λ row, read_cell from_sql_string 0 row (λ name,
            read_cell from_sql_string 1 row (λ table,
            read_cell from_sql_bool 2 row (λ is_unique,
              inr {| ii_name := name; ii_table := table; ii_columns := [];
                     ii_kind := Some (lit "art"); ii_is_unique := is_unique;
                     ii_is_primary := false |}))));
  lift_outcome (serialize indexes_value out).

Definition checks_query (p : TableParams) : query_parts :=
  let sql := lit "SELECT tc.constraint_name, tc.table_name, cc.check_clause " ++
    lit "FROM information_schema.table_constraints AS tc " ++
    lit "JOIN information_schema.check_constraints AS cc " ++
    lit "ON tc.constraint_catalog = cc.constraint_catalog " ++
    lit "AND tc.constraint_schema = cc.constraint_schema " ++
    lit "AND tc.constraint_name = cc.constraint_name " ++
    lit "WHERE tc.constraint_type = 'CHECK' AND tc.table_name = ?" in
  add_text (lit " ORDER BY tc.constraint_name")
    (append_optional_filter (lit "tc.table_schema") (tp_schema p) (sql, [tp_table p])).

Definition handle_schema_checks (params : Value) : handler Value :=
  p ← lift_outcome (parse_params checks_params params);
  _ ← lift_outcome (ensure (negb (blank (tp_table p))) (missing_param (lit "table")));
  conn ← get_connection (tp_conn_id p);
  out ← query_infos conn INTERNAL_ERROR (checks_query p)
    (λ row, read_cell from_sql_string 0 row (λ name,
            read_cell from_sql_string 1 row (λ table,
            read_cell from_sql_string 2 row (λ definition,
              inr {| ck_name := name; ck_table := table; ck_definition := definition |}))));
  lift_outcome (serialize checks_value out).

Definition function_info (f : DuckDbBuiltinFunction) : FunctionInfo :=
  {| fi_name := lit (fn_name f); fi_return_type := lit <$> fn_return_type f;
     fi_args := duckdb_signature_args (lit (fn_signature f)); fi_language := Some (lit "duckdb");
     fi_comment := lit (fn_description f);
     fi_extra := Object [(lit "kind", Str (lit (fn_kind f))); (lit "builtin", Bool true);
                         (lit "signature", Str (lit (fn_signature f)))] |}.

Definition handle_schema_functions (params : Value) : handler Value :=
  conn_id ← lift_outcome (parse_params functions_params params);
  _ ← get_session conn_id;
  lift_outcome (serialize functions_value (function_info <$> DUCKDB_BUILTIN_FUNCTIONS)).

(** *** Object views *)

Definition object_view_column (key name : string) (width_px : N) (align : option string)
    : ObjectViewColumn :=
  {| vc_key := lit key; vc_name := lit name; vc_width_px := width_px; vc_align := lit <$> align |}.

(** The rows another handler answers with, read back from JSON. *)
Definition rows_from {A} (H : FromValue (list A)) (handler : comp Duck ProtocolError Value)
    : comp Duck ProtocolError (list A) :=
  value ← handler;
  lift_outcome (parse_params H value).

Definition bool_text (b : bool) : text := lit (if b then "true" else "false").

Definition conn_params (p : ObjectViewParams) (rest : list (text * Value)) : Value :=
  Object ((lit "conn_id", Number (PosInt (ov_conn_id p))) :: rest).
Definition scope_params (p : ObjectViewParams) (rest : list (text * Value)) : Value :=
  conn_params p ((lit "database", opt_str (ov_database p)) ::
                 (lit "schema", opt_str (ov_schema p)) :: rest).

Definition object_view_from_objects (p : ObjectViewParams) (title : text) (kind : ObjectKind)
    : handler ObjectView :=
  rows ← rows_from objects_read
    (handle_schema_objects (scope_params p [(lit "kinds", Array [Str (kind_text kind)])]));
  mret {| view_title := title;
          view_columns := [object_view_column "name" "Name" 220 None;
                           object_view_column "comment" "Comment" 260 None];
          view_rows := (λ row, [oi_name row; oi_comment row]) <$> rows |}.

Definition databases_view (p : ObjectViewParams) : handler ObjectView :=
  rows ← rows_from databases_read (handle_schema_databases (conn_params p []));
  mret {| view_title := lit "Databases";
          view_columns := [object_view_column "name" "Name" 220 None;
                           object_view_column "comment" "Comment" 260 None];
          view_rows := (λ row, [db_name row; db_comment row]) <$> rows |}.

Definition schemas_view (p : ObjectViewParams) : handler ObjectView :=
  rows ← rows_from schemas_read (handle_schema_schemas
    (conn_params p [(lit "database", Str (default [] (ov_database p)))]));
  mret {| view_title := lit "Schemas";
          view_columns := [object_view_column "name" "Name" 220 None;
                           object_view_column "owner" "Owner" 160 None;
                           object_view_column "comment" "Comment" 260 None];
          view_rows := (λ row, [sc_name row; default [] (sc_owner row); sc_comment row]) <$> rows |}.

Definition views_view (p : ObjectViewParams) : handler ObjectView :=
  rows ← rows_from views_read (handle_schema_views (scope_params p []));
  mret {| view_title := lit "Views";
          view_columns := [object_view_column "name" "Name" 220 None;
                           object_view_column "kind" "Kind" 140 None;
                           object_view_column "comment" "Comment" 260 None];
          view_rows := (λ row, [vi_name row; kind_text (vi_kind row); vi_comment row]) <$> rows |}.

Definition table_scope (p : ObjectViewParams) : Value :=
  scope_params p [(lit "table", Str (default [] (ov_table p)))].

Definition columns_view (p : ObjectViewParams) : handler ObjectView :=
  rows ← rows_from columns_read (handle_schema_columns (table_scope p));
  mret {| view_title := lit "Columns";
          view_columns := [object_view_column "name" "Field" 220 None;
                           object_view_column "type" "Type" 160 None;
                           object_view_column "nullable" "Null?" 72 (Some "right"%string);
                           object_view_column "default" "Default" 180 None;
                           object_view_column "comment" "Comment" 260 None];
          view_rows := (λ row, [ci_name row; ci_type_str row; bool_text (ci_nullable row);
                                default [] (ci_default row); ci_comment row]) <$> rows |}.

Definition indexes_view (p : ObjectViewParams) : handler ObjectView :=
  rows ← rows_from indexes_read (handle_schema_indexes (table_scope p));
  mret {| view_title := lit "Indexes";
          view_columns := [object_view_column "name" "Name" 220 None;
                           object_view_column "columns" "Columns" 220 None;
                           object_view_column "unique" "Unique?" 90 (Some "right"%string);
                           object_view_column "primary" "Primary?" 90 (Some "right"%string);
                           object_view_column "type" "Type" 140 None];
          view_rows := (λ row, [ii_name row; join (lit ", ") (ii_columns row);
                                bool_text (ii_is_unique row); bool_text (ii_is_primary row);
                                default [] (ii_kind row)]) <$> rows |}.

Definition functions_view (p : ObjectViewParams) : handler ObjectView :=
  rows ← rows_from functions_read (handle_schema_functions (scope_params p []));
  mret {| view_title := lit "Functions";
          view_columns := [object_view_column "name" "Name" 220 None;
                           object_view_column "returns" "Returns" 160 None;
                           object_view_column "language" "Language" 120 None;
                           object_view_column "comment" "Comment" 260 None];
          view_rows := (λ row, [fi_name row; default [] (fi_return_type row);
                                default [] (fi_language row); fi_comment row]) <$> rows |}.

Definition handle_schema_object_view (params : Value) : handler Value :=
  p ← lift_outcome (parse_params object_view_params params);
  let view := ov_view p in
  result ←
    (if bool_decide (view = lit "databases") then databases_view p
     else if bool_decide (view = lit "schemas") then schemas_view p
     else if bool_decide (view = lit "tables")
          then object_view_from_objects p (lit "Tables") TableKind
     else if bool_decide (view = lit "views") then views_view p
     else if bool_decide (view = lit "columns") then columns_view p
     else if bool_decide (view = lit "indexes") then indexes_view p
     else if bool_decide (view = lit "functions") then functions_view p
     else throw (new_error METHOD_NOT_FOUND (lit "unsupported object view: " ++ view)));
  lift_outcome (serialize object_view_value result).
End schema.
