(* ===== verification/DuckDdl.v ===== *)
(** * The DuckDB driver: DDL

    ipc/duckdb/src/ddl.rs: the statements that create, alter and drop tables, views and
    schemas.  A changed table is described by its specification before and after; the
    theorem says that executing the statements turns one into the other. *)

From S2P Require Import Prelude Text JsonValue DdlSpec.

(** ** Names and columns *)

Definition qualified_name (schema : option text) (name : text) : text :=
  match non_blank schema with
  | Some schema => quote_identifier schema ++ lit "." ++ quote_identifier name
  | None => quote_identifier name
  end.

Definition table_reference (spec : TableSpec) : text :=
  qualified_name (table_schema spec) (table_name spec).

Definition join_quoted (values : list text) : text := join (lit ", ") (quote_identifier <$> values).

Definition sanitize_type (value : text) : text :=
  if blank value then lit "VARCHAR" else trim value.

Definition has_inline_primary_key (columns : list ColumnSpec) : bool := existsb is_primary columns.

Definition column_definition (column : ColumnSpec) : text :=
  quote_identifier (col_name column) ++ lit " " ++ sanitize_type (type_str column) ++
  (if nullable column then [] else lit " NOT NULL") ++
  (match col_default column with Some d => lit " DEFAULT " ++ d | None => [] end) ++
  (if is_primary column then lit " PRIMARY KEY"
   else if is_unique column then lit " UNIQUE" else []).

Definition index_sql (table : text) (index : IndexSpec) : text :=
  lit "CREATE " ++ (if index_is_unique index then lit "UNIQUE " else []) ++ lit "INDEX " ++
  quote_identifier (index_name index) ++ lit " ON " ++ table ++ lit " (" ++
  join_quoted (index_columns index) ++ lit ")".

(** ** Creating *)

(** [append_comment_statements] *)
Definition comment_statements (spec : TableSpec) : list AlterStatement :=
  (if blank (table_comment spec) then [] else [CommentOnTable (table_comment spec)]) ++
  (table_columns spec ≫= λ column,
     if blank (col_comment column) then []
     else [CommentOnColumn (col_name column) (col_comment column)]).

Definition build_create_table (p : BuildCreateTableParams) : BuildCreateTableResult :=
  let spec := ct_spec p in
  let options := ct_options p in
  let table := table_reference spec in
  let parts := (column_definition <$> table_columns spec) ++
    (if negb (bool_decide (primary_key spec = [])) && negb (has_inline_primary_key (table_columns spec))
     then [lit "PRIMARY KEY (" ++ join_quoted (primary_key spec) ++ lit ")"] else []) in
  let prefix := if temporary options then lit "CREATE TEMP TABLE" else lit "CREATE TABLE" in
  let sql := prefix ++ (if if_not_exists options then lit " IF NOT EXISTS" else []) ++ lit " " ++
             table ++ lit " (" ++ join (lit ", ") parts ++ lit ")" in
  {| ct_sql := sql;
     ct_statements := sql ::
       (if with_indexes options then index_sql table <$> indexes spec else []) ++
       (if with_comments options then alter_sql table <$> comment_statements spec else []) |}.

(** ** Altering *)

Definition rename_statement (rename : ColumnRenameSpec) : option AlterStatement :=
  if negb (bool_decide (old_name rename = new_name rename)) &&
     negb (blank (old_name rename)) && negb (blank (new_name rename))
  then Some (RenameColumn (old_name rename) (new_name rename)) else None.

(** The statements of [build_alter_table], in order. *)
Definition alter_script (p : BuildAlterTableParams) : list AlterStatement :=
  omap rename_statement (column_renames p) ++
  (table_columns (to_spec p) ≫= add_statements column_definition p) ++
  (if allow_destructive p then table_columns (from_spec p) ≫= drop_statements p else []) ++
  forward (diff_comments (from_spec p) (to_spec p)).

Definition rollback_script (p : BuildAlterTableParams) : list AlterStatement :=
  if with_rollback p then backward (diff_comments (from_spec p) (to_spec p)) else [].

Definition build_alter_table (p : BuildAlterTableParams) : BuildAlterTableResult :=
  let table := table_reference (to_spec p) in
  {| alter_statements := alter_sql table <$> alter_script p;
     rollback_statements := alter_sql table <$> rollback_script p;
     alter_warnings := [] |}.

(** ** Dropping, and the other operations *)

Definition build_drop (p : BuildDropParams) : text :=
  lit "DROP " ++
  (match drop_kind p with ViewKind | MaterializedViewKind => lit "VIEW" | _ => lit "TABLE" end) ++
  (if drop_if_exists p then lit " IF EXISTS" else []) ++ lit " " ++
  qualified_name (drop_schema p) (drop_name p) ++
  (if drop_cascade p then lit " CASCADE" else []).

Record SchemaDdlPayload := {
  sp_name : option text; sp_schema : option text; sp_schema_name : option text;
  sp_if_not_exists : bool; sp_if_exists : bool; sp_cascade : bool
}.
Record RenameTablePayload := {
  rt_schema : option text; rt_name : option text; rt_old_name : option text;
  rt_table : option text; rt_new_name : option text; rt_to : option text
}.
Record TableDdlPayload := { td_schema : option text; td_name : option text; td_table : option text }.

(** The first candidate that is there and not blank. *)
Definition required_identifier (field : text) (candidates : list (option text)) : text + text :=
  match head (filter (λ value, blank value = false) (omap id candidates)) with
  | Some value => inr value
  | None => inl (field ++ lit " is required")
  end.

(** [?] on results whose errors are messages. *)
Definition and_then {A B} (r : text + A) (f : A → text + B) : text + B :=
  match r with inl e => inl e | inr a => f a end.

Section build.
(** What serde derives for the payloads. *)
Context `{FromValue BuildCreateTableParams, FromValue BuildAlterTableParams,
  FromValue BuildDropParams, FromValue SchemaDdlPayload, FromValue RenameTablePayload,
  FromValue TableDdlPayload, FromValue ColumnSpec}.
(** A kind as the JSON it serialises to. *)
Context (kind_value : ObjectKind → Value).

Definition schema_of (payload : SchemaDdlPayload) : text + text :=
  required_identifier (lit "schema") [sp_name payload; sp_schema payload; sp_schema_name payload].

Definition build_create_schema (payload : Value) : text + text :=
  and_then (from_value payload) (λ payload,
  and_then (schema_of payload) (λ schema,
    inr (lit "CREATE SCHEMA" ++ (if sp_if_not_exists payload then lit " IF NOT EXISTS" else []) ++
         lit " " ++ quote_identifier schema))).

Definition build_drop_schema (payload : Value) : text + text :=
  and_then (from_value payload) (λ payload,
  and_then (schema_of payload) (λ schema,
    inr (lit "DROP SCHEMA" ++ (if sp_if_exists payload then lit " IF EXISTS" else []) ++ lit " " ++
         quote_identifier schema ++ (if sp_cascade payload then lit " CASCADE" else [])))).

Definition build_rename_table (payload : Value) : text + text :=
  and_then (from_value payload) (λ payload,
  and_then (required_identifier (lit "table") [rt_name payload; rt_old_name payload; rt_table payload])
    (λ old_name,
  and_then (required_identifier (lit "new_name") [rt_new_name payload; rt_to payload]) (λ new_name,
    inr (lit "ALTER TABLE " ++ qualified_name (rt_schema payload) old_name ++ lit " RENAME TO " ++
         quote_identifier new_name)))).

Definition build_truncate_table (payload : Value) : text + text :=
  and_then (from_value payload) (λ payload,
  and_then (required_identifier (lit "table") [td_name payload; td_table payload]) (λ table,
    inr (lit "TRUNCATE TABLE " ++ qualified_name (td_schema payload) table))).

(** [object.insert]: a member that is there already is replaced. *)
Definition insert_member (name : text) (value : Value) (members : list (text * Value))
    : list (text * Value) :=
  filter (λ m, m.1 ≠ name) members ++ [(name, value)].

Definition decode_drop_payload (payload : Value) (kind : ObjectKind) : text + BuildDropParams :=
  from_value match payload with
             | Object members => Object (insert_member (lit "kind") (kind_value kind) members)
             | other => other
             end.

Definition single_statement (sql : text) : BuildDdlResult :=
  {| ddl_statements := [sql]; ddl_warnings := [] |}.

Definition build_ddl (op : DdlBuildOp) (payload : Value) : text + BuildDdlResult :=
  match op with
  | CreateTable =>
      and_then (from_value payload) (λ p,
        inr {| ddl_statements := ct_statements (build_create_table p); ddl_warnings := [] |})
  | AlterTable =>
      and_then (from_value payload) (λ p,
        let result := build_alter_table p in
        inr {| ddl_statements := alter_statements result; ddl_warnings := alter_warnings result |})
  | DropTable =>
      and_then (decode_drop_payload payload TableKind) (λ p, inr (single_statement (build_drop p)))
  | DropView =>
      and_then (decode_drop_payload payload ViewKind) (λ p, inr (single_statement (build_drop p)))
  | CreateSchema => and_then (build_create_schema payload) (λ sql, inr (single_statement sql))
  | DropSchema => and_then (build_drop_schema payload) (λ sql, inr (single_statement sql))
  | RenameTable => and_then (build_rename_table payload) (λ sql, inr (single_statement sql))
  | TruncateTable => and_then (build_truncate_table payload) (λ sql, inr (single_statement sql))
  | ColumnDefinition =>
      and_then (from_value payload) (λ column, inr (single_statement (column_definition column)))
  | CreateDatabase | DropDatabase | OtherOp _ =>
      inl (lit "ddl/build op `" ++ op_debug op ++ lit "` is not implemented for DuckDB")
  end.
End build.

(** ** The change of a table *)

Section change.
Context (p : BuildAlterTableParams) (Hvalid : valid_change p).

Lemma rename_script : omap rename_statement (column_renames p) = rename_statements (column_renames p).
Proof.
  assert (∀ renames, renames ⊆ column_renames p →
    omap rename_statement renames = rename_statements renames) as H; [|by apply H].
  induction renames as [|r renames IH]; intros Hsub; [done|].
  destruct (renames_apply p Hvalid r ltac:(apply Hsub; left)) as (Ho & _ & _ & Hn & Hbo & Hbn).
  cbn [omap list_omap]. unfold rename_statement at 1. rewrite Hbo, Hbn.
  rewrite bool_decide_false by (intros E; by rewrite E in Ho). cbn [negb andb].
  rewrite IH by (intros x ?; apply Hsub; by right). done.
Qed.

End change.

(** C24: executing the statements of a table change on the table of the old specification
    succeeds, gives the table the new comment, and leaves every column as the change is to
    leave it: added, renamed with its comment, dropped only when the change may be
    destructive, and with the new comment where both specifications have it. *)
Theorem table_change_executes (p : BuildAlterTableParams) (Hvalid : valid_change p) :
  ∃ t, execute_all (alter_script p) (table_of (from_spec p)) = Some t ∧
    comment_of t = table_comment (to_spec p) ∧
    ∀ name, columns_of t !! name = expected p name.
Proof.
  unfold alter_script. rewrite (rename_script p Hvalid). by apply execute_change.
Qed.

Lemma table_change_executes_witness :
  length (alter_script (demo_change true)) = 6 ∧
  ∃ t, execute_all (alter_script (demo_change true)) (table_of (from_spec (demo_change true))) = Some t ∧
    comment_of t = lit "new" ∧ ∀ name, columns_of t !! name = expected (demo_change true) name.
Proof.
  split; [vm_compute; reflexivity|].
  apply (table_change_executes (demo_change true) (demo_change_valid true)).
Defined.
