(* ===== verification/GaussDdl.v ===== *)
(** * The openGauss driver: DDL

    ipc/opengauss/src/ddl.rs: the statements that create, alter and drop tables and other
    objects.  A change keeps a rollback: the statements that undo it go to its front as the
    change's statements are made.  The theorems say that a change that is not destructive
    turns the old table into the new one and that its rollback turns it back, and that a
    destructive change with a rename fails. *)

From S2P Require Import Prelude Text JsonValue DdlSpec.

(** ** Names *)

(** [.iter().filter(not blank).map(quote_identifier)] *)
Definition quoted (values : list text) : list text :=
  quote_identifier <$> filter (λ value, blank value = false) values.

Definition qualified_name (database schema : option text) (name : text) : text :=
  join (lit ".") (quoted (omap id [database; schema; Some name])).

Definition quote_list (values : list text) : text := join (lit ", ") (quoted values).

Definition spec_name (spec : TableSpec) : text :=
  qualified_name (table_database spec) (table_schema spec) (table_name spec).

(** Every error is one of invalid parameters, told by its message. *)
Definition and_then {A B} (r : text + A) (f : A → text + B) : text + B :=
  match r with inl e => inl e | inr a => f a end.

(** [?] in a loop over [values]: the first error ends it. *)
Fixpoint collect {A B} (f : A → text + B) (values : list A) : text + list B :=
  match values with
  | [] => inr []
  | a :: rest => and_then (f a) (λ b, and_then (collect f rest) (λ bs, inr (b :: bs)))
  end.

(** ** Columns and keys *)

Definition column_definition (column : ColumnSpec) : text + text :=
  if blank (col_name column) then inl (lit "column name is required")
  else if blank (type_str column)
  then inl (lit "column `" ++ col_name column ++ lit "` type is required")
  else inr (join (lit " ")
    ([quote_identifier (col_name column); type_str column] ++
     (if auto_increment column then [lit "GENERATED BY DEFAULT AS IDENTITY"] else []) ++
     (if nullable column then [] else [lit "NOT NULL"]) ++
     (match non_blank (col_default column) with
      | Some default => [lit "DEFAULT"; default]
      | None => []
      end) ++
     (if is_unique column && negb (is_primary column) then [lit "UNIQUE"] else []))).

(** [on_delete.replace('_', " ").to_ascii_uppercase()] *)
Definition referential_action (action : text) : text :=
  to_ascii_uppercase (replace (lit "_") (lit " ") action).

Definition foreign_key_definition (fk : ForeignKeySpec) : text :=
  join (lit " ")
    ((if blank (fk_name fk) then [] else [lit "CONSTRAINT"; quote_identifier (fk_name fk)]) ++
     [lit "FOREIGN KEY"; lit "(" ++ quote_list (from_columns fk) ++ lit ")"; lit "REFERENCES";
      quote_identifier (to_table fk); lit "(" ++ quote_list (to_columns fk) ++ lit ")"] ++
     (match non_blank (on_delete fk) with
      | Some action => [lit "ON DELETE"; referential_action action]
      | None => []
      end) ++
     (match non_blank (on_update fk) with
      | Some action => [lit "ON UPDATE"; referential_action action]
      | None => []
      end)).

(** ** Creating *)

Definition index_statements (spec : TableSpec) (index : IndexSpec) : list text :=
  if bool_decide (index_columns index = []) then []
  else
    [lit "CREATE " ++ (if index_is_unique index then lit "UNIQUE " else []) ++ lit "INDEX " ++
     quote_identifier (index_name index) ++ lit " ON " ++ spec_name spec ++
     (match non_blank (index_kind index) with Some kind => lit " USING " ++ kind | None => [] end) ++
     lit " (" ++ quote_list (index_columns index) ++ lit ")" ++
     (match non_blank (index_where_clause index) with
      | Some clause => lit " WHERE " ++ clause
      | None => []
      end)].

Definition comment_statements (spec : TableSpec) : list AlterStatement :=
  (if blank (table_comment spec) then [] else [CommentOnTable (table_comment spec)]) ++
  (table_columns spec ≫= λ column,
     if blank (col_comment column) then []
     else [CommentOnColumn (col_name column) (col_comment column)]).

Definition build_create_table (p : BuildCreateTableParams) : text + BuildCreateTableResult :=
  let spec := ct_spec p in
  let options := ct_options p in
  if blank (table_name spec) then inl (lit "create table requires table name")
  else if bool_decide (table_columns spec = [])
  then inl (lit "create table requires at least one column")
  else
    and_then (collect column_definition (table_columns spec)) (λ columns,
      let inline_pk := col_name <$> filter (λ c, is_primary c = true) (table_columns spec) in
      let pk := if bool_decide (primary_key spec = []) then inline_pk else primary_key spec in
      let defs := columns ++
        (if bool_decide (pk = []) then [] else [lit "PRIMARY KEY (" ++ quote_list pk ++ lit ")"]) ++
        (if with_foreign_keys options then foreign_key_definition <$> foreign_keys spec else []) in
      let head := [lit "CREATE"] ++ (if temporary options then [lit "TEMPORARY"] else []) ++
        [lit "TABLE"] ++ (if if_not_exists options then [lit "IF NOT EXISTS"] else []) in
      let sql := join (lit " ") head ++ lit " " ++ spec_name spec ++ lit " (" ++
                 join (lit ", ") defs ++ lit ")" in
      inr {| ct_sql := sql;
             ct_statements := sql ::
               (if with_indexes options then indexes spec ≫= index_statements spec else []) ++
               (if with_comments options
                then alter_sql (spec_name spec) <$> comment_statements spec else []) |}).

(** ** Altering *)

Definition rename_step (rename : ColumnRenameSpec) : list step :=
  if blank (old_name rename) || blank (new_name rename) then []
  else [([RenameColumn (old_name rename) (new_name rename)],
         [RenameColumn (new_name rename) (old_name rename)])].

Definition add_step (p : BuildAlterTableParams) (column : ColumnSpec) : text + list step :=
  if bool_decide (col_name column ∈ new_name <$> column_renames p) ||
     has_column (col_name column) (table_columns (from_spec p))
  then inr []
  else
    and_then (column_definition column) (λ definition,
      inr [(AddColumn (col_name column) definition ::
              (if blank (col_comment column) then []
               else [CommentOnColumn (col_name column) (col_comment column)]),
            [DropColumn (col_name column)])]).

(** The columns that are dropped, with no way back. *)
Definition dropped (p : BuildAlterTableParams) : list text :=
  if allow_destructive p
  then col_name <$> filter (λ c, has_column (col_name c) (table_columns (to_spec p)) = false)
         (table_columns (from_spec p))
  else [].

Definition alter_steps (p : BuildAlterTableParams) : text + list step :=
  and_then (collect (add_step p) (table_columns (to_spec p))) (λ adds,
    inr ((column_renames p ≫= rename_step) ++ concat adds ++
         ((λ name, ([DropColumn name], [])) <$> dropped p) ++
         (single <$> diff_comments (from_spec p) (to_spec p)))).

(** The specification the table's name is taken from. *)
Definition altered (p : BuildAlterTableParams) : TableSpec :=
  if blank (table_name (to_spec p)) then from_spec p else to_spec p.

Definition build_alter_table (p : BuildAlterTableParams) : text + BuildAlterTableResult :=
  let table := altered p in
  if blank (table_name table) then inl (lit "alter table requires table name")
  else
    and_then (alter_steps p) (λ steps,
      inr {| alter_statements := alter_sql (spec_name table) <$> script steps;
             rollback_statements :=
               if with_rollback p then alter_sql (spec_name table) <$> rollback steps else [];
             alter_warnings := (λ name, lit "drop column may lose data: " ++ name) <$> dropped p |}).

(** ** Dropping *)

(** [None]: a kind that cannot be dropped. *)
Definition drop_keyword (kind : ObjectKind) : option text :=
  match kind with
  | TableKind => Some (lit "TABLE") | ViewKind => Some (lit "VIEW")
  | MaterializedViewKind => Some (lit "MATERIALIZED VIEW") | IndexKind => Some (lit "INDEX")
  | SequenceKind => Some (lit "SEQUENCE") | FunctionKind => Some (lit "FUNCTION")
  | ProcedureKind => Some (lit "PROCEDURE") | TriggerKind => Some (lit "TRIGGER")
  | TypeKind => Some (lit "TYPE") | OtherKind _ => None
  end.

Definition kind_debug (kind : ObjectKind) : text :=
  match kind with OtherKind debug => debug | _ => [] end.

Definition build_drop (p : BuildDropParams) : text + text :=
  if blank (drop_name p) then inl (lit "drop requires object name")
  else
    match drop_keyword (drop_kind p) with
    | None => inl (lit "unsupported drop kind `" ++ kind_debug (drop_kind p) ++ lit "`")
    | Some kind =>
        inr (lit "DROP " ++ kind ++ (if drop_if_exists p then lit " IF EXISTS" else []) ++ lit " " ++
             qualified_name (drop_database p) (drop_schema p) (drop_name p) ++
             (if drop_cascade p then lit " CASCADE" else []))
    end.

Definition as_kind (kind : ObjectKind) (p : BuildDropParams) : BuildDropParams :=
  {| drop_kind := kind; drop_database := drop_database p; drop_schema := drop_schema p;
     drop_name := drop_name p; drop_if_exists := drop_if_exists p; drop_cascade := drop_cascade p |}.

Definition database_name_from_payload (payload : Value) : text + text :=
  let database_name := default [] (get (lit "database_name") payload ≫= as_str) in
  let name := default [] (get (lit "name") payload ≫= as_str) in
  if negb (blank database_name) then inr (trim database_name)
  else if negb (blank name) then inr (trim name)
  else inl (lit "database name is required").

(** ** The requests *)

Record BuildDdlParams := { ddl_op : DdlBuildOp; ddl_payload : Value }.

Section requests.
(** What serde derives for the messages, and the options a request does not give. *)
Context `{FromValue BuildDdlParams, FromValue TableSpec, FromValue BuildCreateTableParams,
  FromValue BuildAlterTableParams, FromValue BuildDropParams}.
Context `{ToValue BuildDdlResult, ToValue BuildCreateTableResult, ToValue BuildAlterTableResult,
  ToValue text}.
Context (default_options : CreateTableOptions).

Definition params_deserialize_error (e : text) : text := lit "failed to deserialize params: " ++ e.

Definition decode {T} `{FromValue T} (params : Value) : text + T :=
  match from_value params with inl e => inl (params_deserialize_error e) | inr v => inr v end.
Definition encode {T} `{ToValue T} (result : T) : text + Value :=
  match to_value result with inl e => inl (params_deserialize_error e) | inr v => inr v end.

Definition one_statement (sql : text) : text + BuildDdlResult :=
  inr {| ddl_statements := [sql]; ddl_warnings := [] |}.

Definition handle_ddl_build (params : Value) : text + Value :=
  and_then (decode params) (λ p,
  and_then
    match ddl_op p with
    | CreateDatabase =>
        and_then (database_name_from_payload (ddl_payload p)) (λ name,
          one_statement (lit "CREATE DATABASE " ++ quote_identifier name))
    | DropDatabase =>
        and_then (database_name_from_payload (ddl_payload p)) (λ name,
          one_statement (lit "DROP DATABASE " ++ quote_identifier name))
    | CreateTable =>
        and_then (decode (ddl_payload p)) (λ spec,
        and_then (build_create_table {| ct_spec := spec; ct_options := default_options |}) (λ create,
          inr {| ddl_statements := ct_statements create; ddl_warnings := [] |}))
    | AlterTable =>
        and_then (decode (ddl_payload p)) (λ alter,
        and_then (build_alter_table alter) (λ alter,
          inr {| ddl_statements := alter_statements alter; ddl_warnings := alter_warnings alter |}))
    | DropTable =>
        and_then (decode (ddl_payload p)) (λ drop,
        and_then (build_drop (as_kind TableKind drop)) one_statement)
    | DropView =>
        and_then (decode (ddl_payload p)) (λ drop,
        and_then (build_drop (as_kind ViewKind drop)) one_statement)
    | other => inl (lit "unsupported OpenGauss ddl/build op `" ++ op_debug other ++ lit "`")
    end encode).

Definition handle_ddl_build_create_table (params : Value) : text + Value :=
  and_then (decode params) (λ p, and_then (build_create_table p) encode).
Definition handle_ddl_build_alter_table (params : Value) : text + Value :=
  and_then (decode params) (λ p, and_then (build_alter_table p) encode).
Definition handle_ddl_build_drop (params : Value) : text + Value :=
  and_then (decode params) (λ p, and_then (build_drop p) encode).
End requests.

(** ** Facts *)

Lemma and_then_inr {A B} (r : text + A) (f : A → text + B) b :
  and_then r f = inr b → ∃ a, r = inr a ∧ f a = inr b.
Proof. destruct r as [e|a]; [done|]. intros H. by exists a. Qed.

(** The definition of a column that has one. *)
Definition definition_of (column : ColumnSpec) : text :=
  match column_definition column with inr d => d | inl _ => [] end.

Lemma add_step_statements p column steps :
  add_step p column = inr steps →
  script steps = add_statements definition_of p column ∧ Forall reversible steps.
Proof.
  unfold add_step, add_statements. case_bool_decide; cbn [orb].
  { intros [= <-]. by split. }
  destruct (has_column _ _). { intros [= <-]. by split. }
  intros (definition & Hdef & [= <-])%and_then_inr. unfold definition_of. rewrite Hdef.
  split.
  - unfold script. rewrite bind_cons. by rewrite app_nil_r.
  - apply Forall_singleton, reversible_add. destruct (blank _); eauto.
Qed.

Lemma adds_statements p columns adds :
  collect (add_step p) columns = inr adds →
  script (concat adds) = (columns ≫= add_statements definition_of p) ∧
  Forall reversible (concat adds).
Proof.
  revert adds. induction columns as [|c columns IH]; intros adds; [intros [= <-]; by split|].
  intros (steps & Hsteps & (rest & Hrest & [= <-])%and_then_inr)%and_then_inr.
  apply add_step_statements in Hsteps as [Hs1 Hs2]. apply IH in Hrest as [Hr1 Hr2].
  cbn [concat]. rewrite script_app, bind_cons, Hs1, Hr1. split; [done|]. by apply Forall_app.
Qed.

Lemma renames_statements p :
  valid_change p →
  script (column_renames p ≫= rename_step) = rename_statements (column_renames p) ∧
  Forall reversible (column_renames p ≫= rename_step).
Proof.
  intros Hvalid.
  assert (∀ renames, renames ⊆ column_renames p →
    script (renames ≫= rename_step) = rename_statements renames ∧
    Forall reversible (renames ≫= rename_step)) as H; [|by apply H].
  induction renames as [|r renames IH]; intros Hsub; [done|].
  destruct (renames_apply p Hvalid r ltac:(apply Hsub; left)) as (_ & _ & _ & _ & Hbo & Hbn).
  destruct IH as [IH1 IH2]; [intros x ?; apply Hsub; by right|].
  rewrite bind_cons, script_app. unfold rename_step at 1 3. rewrite Hbo, Hbn. cbn [orb]. split.
  - unfold rename_statements. rewrite fmap_cons. cbn. f_equal. apply IH1.
  - apply Forall_app. split; [|done]. apply Forall_singleton, reversible_rename.
Qed.

(** Without renames, the drops are those of the columns not renamed. *)
Lemma drops_statements p :
  allow_destructive p = false ∨ column_renames p = [] →
  script ((λ name, ([DropColumn name], [])) <$> dropped p) =
    (if allow_destructive p then table_columns (from_spec p) ≫= drop_statements p else []).
Proof.
  unfold dropped. intros [->| Hrenames]; [done|]. destruct (allow_destructive p); [|done].
  unfold drop_statements. rewrite Hrenames.
  induction (table_columns (from_spec p)) as [|c columns IH]; [done|].
  rewrite filter_cons, bind_cons. rewrite (bool_decide_false (_ ∈ _)) by apply not_elem_of_nil.
  case_decide as Hhas.
  - rewrite Hhas. unfold script. rewrite !fmap_cons, bind_cons. cbn [fst app]. f_equal. apply IH.
  - destruct (has_column _ _); [|done]. apply IH.
Qed.

Lemma alter_steps_shape p steps :
  alter_steps p = inr steps → ∃ adds,
    collect (add_step p) (table_columns (to_spec p)) = inr adds ∧
    steps = (column_renames p ≫= rename_step) ++ concat adds ++
      ((λ name, ([DropColumn name], [])) <$> dropped p) ++
      (single <$> diff_comments (from_spec p) (to_spec p)).
Proof. intros (adds & Hadds & [= <-])%and_then_inr. by exists adds. Qed.

Lemma alter_steps_script p steps :
  valid_change p → alter_steps p = inr steps →
  allow_destructive p = false ∨ column_renames p = [] →
  script steps = rename_statements (column_renames p) ++
    (table_columns (to_spec p) ≫= add_statements definition_of p) ++
    (if allow_destructive p then table_columns (from_spec p) ≫= drop_statements p else []) ++
    forward (diff_comments (from_spec p) (to_spec p)).
Proof.
  intros Hvalid (adds & Hadds & ->)%alter_steps_shape Hrenames.
  rewrite !script_app, script_single, (drops_statements p Hrenames).
  destruct (renames_statements p Hvalid) as [-> _]. by destruct (adds_statements _ _ _ Hadds) as [-> _].
Qed.

(** A change that drops nothing is undone by its rollback. *)
Lemma alter_steps_undoable p steps t :
  valid_change p → alter_steps p = inr steps → allow_destructive p = false →
  execute_all (script steps) (table_of (from_spec p)) = Some t →
  undoable steps (table_of (from_spec p)) t.
Proof.
  intros Hvalid Hsteps Hsafe Hexec.
  rewrite (alter_steps_script p steps Hvalid Hsteps (or_introl Hsafe)) in Hexec.
  apply alter_steps_shape in Hsteps as (adds & Hadds & ->).
  unfold dropped. rewrite Hsafe. cbn [fmap list_fmap app].
  destruct (renames_statements p Hvalid) as [Hr1 Hr2].
  destruct (adds_statements _ _ _ Hadds) as [Ha1 Ha2].
  destruct (execute_column_script p Hvalid definition_of) as (m & Hcolumns & Hkept & _).
  unfold column_script in Hcolumns. rewrite Hsafe, app_nil_r in Hcolumns.
  rewrite Hsafe in Hexec. cbn [app] in Hexec. rewrite (assoc_L (++)) in Hexec.
  rewrite execute_all_app, Hcolumns in Hexec. cbn [mbind option_bind] in Hexec.
  rewrite (assoc_L (++)). eapply undoable_app.
  - apply reversible_undoable; [by apply Forall_app|]. by rewrite script_app, Hr1, Ha1.
  - by apply comments_undoable.
Qed.

(** Statements that drop columns fail when one of the columns is not there. *)
Lemma drop_missing names name t :
  name ∈ names → columns_of t !! name = None →
  execute_all (script ((λ name, ([DropColumn name], [])) <$> names)) t = None.
Proof.
  revert t. induction names as [|n names IH]; intros t; [by intros ?%not_elem_of_nil|].
  unfold script. rewrite fmap_cons, bind_cons. cbn [fst app execute_all execute].
  intros [<-|Hin]%elem_of_cons Hnone; [by rewrite Hnone|].
  destruct (columns_of t !! n); [|done]. cbn [mbind option_bind]. apply IH; [done|].
  cbn [columns_of set_columns]. destruct (decide (n = name)) as [->|Hne].
  - apply lookup_delete_eq.
  - by rewrite lookup_delete_ne.
Qed.

(** C25: a table change whose statements are made, and that is not both destructive and
    renaming, executes on the table of the old specification and leaves the table and every
    column as the change is to leave them; and when it is not destructive, executing the
    rollback statements afterwards gives back the old table. *)
Theorem alter_table_rolls_back (p : BuildAlterTableParams) (steps : list step)
    (Hvalid : valid_change p) (Hsteps : alter_steps p = inr steps)
    (Hdrops : allow_destructive p = false ∨ column_renames p = []) :
  ∃ t, execute_all (script steps) (table_of (from_spec p)) = Some t ∧
    comment_of t = table_comment (to_spec p) ∧
    (∀ name, columns_of t !! name = expected p name) ∧
    (allow_destructive p = false → execute_all (rollback steps) t = Some (table_of (from_spec p))).
Proof.
  destruct (execute_change p Hvalid definition_of) as (t & Hexec & Hcomment & Hcolumns).
  rewrite <-(alter_steps_script p steps) in Hexec by done.
  exists t. split_and!; [done..|]. intros Hsafe. by eapply undoable_rollback, alter_steps_undoable.
Qed.

Definition steps_of (p : BuildAlterTableParams) : list step :=
  match alter_steps p with inr steps => steps | inl _ => [] end.

Lemma alter_table_rolls_back_witness :
  length (rollback (steps_of (demo_change false))) = 4 ∧
  ∃ t, execute_all (script (steps_of (demo_change false))) (table_of (from_spec (demo_change false))) = Some t ∧
    comment_of t = lit "new" ∧
    (∀ name, columns_of t !! name = expected (demo_change false) name) ∧
    (false = false →
     execute_all (rollback (steps_of (demo_change false))) t = Some (table_of (from_spec (demo_change false)))).
Proof.
  split; [vm_compute; reflexivity|].
  apply (alter_table_rolls_back (demo_change false) (steps_of (demo_change false)));
    [apply demo_change_valid|vm_compute; reflexivity|left; reflexivity].
Defined.

(** A destructive change with a rename fails: the old name of the renamed column is among
    the columns it drops, and by then the table has no such column. *)
Theorem destructive_rename_fails (p : BuildAlterTableParams) (steps : list step)
    (Hvalid : valid_change p) (Hsteps : alter_steps p = inr steps)
    (Hdestructive : allow_destructive p = true) (Hrenames : column_renames p ≠ []) :
  execute_all (script steps) (table_of (from_spec p)) = None.
Proof.
  apply alter_steps_shape in Hsteps as (adds & Hadds & ->). rewrite !script_app.
  destruct (renames_statements p Hvalid) as [-> _]. destruct (adds_statements _ _ _ Hadds) as [-> _].
  rewrite !execute_all_app.
  destruct (execute_renames _ _ (renames_ok_old p Hvalid)) as (m1 & -> & Hm1).
  cbn [mbind option_bind]. rewrite execute_all_app.
  destruct (execute_adds p Hvalid definition_of m1 (set_columns m1 (table_of (from_spec p))))
    as (m2 & -> & _ & H2); [done..|].
  cbn [mbind option_bind]. rewrite execute_all_app.
  destruct (column_renames p) as [|r renames] eqn:Hr; [done|].
  assert (r ∈ column_renames p) as Hin by (rewrite Hr; left).
  destruct (renames_apply p Hvalid r Hin) as (Hfrom & Hto & _).
  rewrite (drop_missing (dropped p) (old_name r)); [done| |].
  - unfold dropped. rewrite Hdestructive.
    apply list_elem_of_fmap in Hfrom as (c & Hname & Hc). rewrite Hname. apply list_elem_of_fmap_2.
    apply list_elem_of_filter. split; [|done]. apply has_column_false. by rewrite <-Hname.
  - cbn [columns_of set_columns]. rewrite H2 by done. destruct Hm1 as (_ & Hgone & _).
    apply Hgone. left.
Qed.

Lemma destructive_rename_fails_witness :
  execute_all (script (steps_of (demo_change true))) (table_of (from_spec (demo_change true))) = None.
Proof.
  apply (destructive_rename_fails (demo_change true) (steps_of (demo_change true)));
    [apply demo_change_valid|vm_compute; reflexivity|reflexivity|discriminate].
Defined.
