(* ===== verification/DuckDriver.v ===== *)
(** * The DuckDB driver: the driver of a connection

    ipc/duckdb/src/driver.rs and the lifecycle of handlers.rs: what the driver answers to
    [init], how it opens connections, and which handler a method of an open connection goes
    to.  The driver runtime, a dependency, owns the threads, numbers the requests and calls
    [open_connection] and [call]. *)

From S2P Require Import Prelude VncClipboard Text JsonValue DuckValue DuckState DuckText DuckServer DdlSpec DuckSchema DuckDdl.

(** ** Methods *)

(** The constants of [extension_protocol::method] and [SCHEMA_OBJECT_VIEW]; any other
    name. *)
Inductive Method : Type :=
  | PING | SHUTDOWN | CONN_TEST | CONN_OPEN | CONN_CLOSE | CONN_PING | CONN_USE
  | QUERY_START | CURSOR_FETCH | CURSOR_CLOSE | CURSOR_CANCEL | EXEC_RUN | EXEC_BATCH
  | TX_BEGIN | TX_COMMIT | TX_ROLLBACK
  | DATA_EXPORT | DATA_IMPORT_BEGIN | DATA_IMPORT_CHUNK | DATA_IMPORT_COMMIT | DATA_IMPORT_ABORT
  | STREAM_READ | STREAM_CLOSE | SCHEMA_OBJECT_VIEW
  | SCHEMA_DATABASES | SCHEMA_SCHEMAS | SCHEMA_OBJECTS | SCHEMA_COLUMNS | SCHEMA_VIEWS
  | SCHEMA_INDEXES | SCHEMA_CHECKS | SCHEMA_FUNCTIONS
  | DDL_BUILD | DDL_BUILD_CREATE_TABLE | DDL_BUILD_ALTER_TABLE | DDL_BUILD_DROP
  | OtherMethod (name : text).

Definition declared_methods : list Method :=
  [PING; SHUTDOWN; CONN_TEST; CONN_OPEN; CONN_CLOSE; CONN_PING; CONN_USE; QUERY_START;
   CURSOR_FETCH; CURSOR_CLOSE; CURSOR_CANCEL; EXEC_RUN; EXEC_BATCH; TX_BEGIN; TX_COMMIT;
   TX_ROLLBACK; DATA_EXPORT; DATA_IMPORT_BEGIN; DATA_IMPORT_CHUNK; DATA_IMPORT_COMMIT;
   DATA_IMPORT_ABORT; STREAM_READ; STREAM_CLOSE; SCHEMA_OBJECT_VIEW; SCHEMA_DATABASES;
   SCHEMA_SCHEMAS; SCHEMA_OBJECTS; SCHEMA_COLUMNS; SCHEMA_VIEWS; SCHEMA_INDEXES; SCHEMA_CHECKS;
   SCHEMA_FUNCTIONS; DDL_BUILD; DDL_BUILD_CREATE_TABLE; DDL_BUILD_ALTER_TABLE; DDL_BUILD_DROP].

(** ** Messages *)

Inductive Capability : Type :=
  | RICH_ERRORS | DDL_BUILDER | SERVER_CURSOR | BATCH_EXEC | TRANSACTIONS | DATA_PIPE.

Record InitResult := {
  init_version : text; init_apis : list (text * text); init_features : list Capability;
  init_drivers : list text; init_methods : list Method
}.

(** [extension_protocol::ddl::BuildDdlParams] *)
Record BuildDdlParams := { ddl_op : DdlBuildOp; ddl_payload : Value }.

(** What serde derives for the messages of the lifecycle and of the DDL builders, the names
    of the methods, and the versions of the semver crate. *)
Class DriverCodec := {
  host_version : FromValue text;
  shutdown_params : FromValue ();
  init_value :: ToValue InitResult;
  method_text : Method → text;
  create_table_params :: FromValue BuildCreateTableParams;
  alter_table_params :: FromValue BuildAlterTableParams;
  drop_params :: FromValue BuildDropParams;
  ddl_params :: FromValue BuildDdlParams;
  schema_payload :: FromValue SchemaDdlPayload;
  rename_payload :: FromValue RenameTablePayload;
  table_payload :: FromValue TableDdlPayload;
  column_payload :: FromValue DdlSpec.ColumnSpec;
  kind_value : ObjectKind → Value;
  create_table_value :: ToValue BuildCreateTableResult;
  alter_table_value :: ToValue BuildAlterTableResult;
  drop_value : ToValue text;
  ddl_value :: ToValue BuildDdlResult;
  Version : Type;
  parse_version : text → text + Version;
  at_least : text → Version → bool;
  show_version : Version → text;
  debug_text : text → text;
  package_version : text
}.

Definition MINIMUM_HOST_VERSION : text := lit "0.10.0".

(** The driver: whether it was initialised, and the next number of a connection. *)
Record DuckDbDriver := { initialized : bool; next_connection : ConnId }.
Definition new_driver : DuckDbDriver := {| initialized := false; next_connection := 1 |}.

Section driver.
Context `{DuckDb, ValueLib, DuckCodec, SchemaCodec, DriverCodec}.

Abbreviation handler A := (comp Duck ProtocolError A) (only parsing).

(** ** Lifecycle *)

Definition ensure_compatible_host (host_version : text) : result () :=
  let requires := lit "this driver requires Navop >= " ++ MINIMUM_HOST_VERSION in
  match parse_version host_version with
  | inl error =>
      Err (new_error SERVER_INCOMPATIBLE
        (requires ++ lit "; invalid host version " ++ debug_text host_version ++ lit ": " ++ error))
  | inr current =>
      if at_least MINIMUM_HOST_VERSION current then Ok ()
      else Err (new_error SERVER_INCOMPATIBLE
        (requires ++ lit "; current host version is " ++ show_version current ++
         lit ". Please upgrade Navop"))
  end.

Definition init_result : InitResult :=
  {| init_version := package_version; init_apis := [(lit "database", lit "1.0")];
     init_features := [RICH_ERRORS; DDL_BUILDER; SERVER_CURSOR; BATCH_EXEC; TRANSACTIONS; DATA_PIPE];
     init_drivers := [lit "duckdb"]; init_methods := declared_methods |}.

Definition handle_init (params : Value) : comp DuckDbDriver ProtocolError Value :=
  version ← lift_outcome (parse_params host_version params);
  _ ← lift_outcome (ensure_compatible_host version);
  already ← gets initialized;
  _ ← lift_outcome (ensure (negb already)
        (new_error ALREADY_INITIALIZED (lit "driver already initialized")));
  _ ← modify (λ d, {| initialized := true; next_connection := next_connection d |});
  lift_outcome (serialize init_value init_result).

Definition handle_shutdown (params : Value) : result Value :=
  _ ← parse_params shutdown_params params; Ok Null.

(** [latency] is what the clock says the call took. *)
Definition handle_conn_test (latency : N) (params : Value) : handler Value :=
  session ← open_session params;
  _ ← lift_outcome (connection SERVER_CLOSED_CONNECTION session);
  mret (Object [(lit "ok", Bool true); (lit "server_version", Str (lit "duckdb-bundled"));
                (lit "warnings", Array []); (lit "latency_ms", Number (PosInt latency))]).

(** The number, the answer and the state of a connection that was opened. *)
Definition open_connection (params : Value) (d : DuckDbDriver) (databases : Db)
    : DuckDbDriver * Db * result (ConnId * Value * ConnectionState DuckDbSession) :=
  let '(s, r) := open_session params {| client := new_state; db := databases |} in
  match r with
  | Ok session =>
      let conn_id := next_connection d in
      ({| initialized := initialized d; next_connection := wrap_add u64_max conn_id 1 |}, db s,
       Ok (conn_id,
           Object [(lit "conn_id", Number (PosInt conn_id)); (lit "server_info", server_info)],
           with_conn conn_id session))
  | Err e => (d, db s, Err e)
  | Panic => (d, db s, Panic)
  end.

(** ** DDL *)

Definition handle_ddl_build_create_table (params : Value) : result Value :=
  p ← parse_params create_table_params params;
  serialize create_table_value (build_create_table p).

Definition handle_ddl_build (params : Value) : result Value :=
  p ← parse_params ddl_params params;
  match build_ddl kind_value (ddl_op p) (ddl_payload p) with
  | inl message => Err (invalid_params message)
  | inr result => serialize ddl_value result
  end.

Definition handle_ddl_build_alter_table (params : Value) : result Value :=
  p ← parse_params alter_table_params params;
  serialize alter_table_value (build_alter_table p).

Definition handle_ddl_build_drop (params : Value) : result Value :=
  p ← parse_params drop_params params;
  serialize drop_value (build_drop p).

(** ** Dispatch *)

Definition call_connless (latency : N) (method_name : Method) (params : Value) : handler Value :=
  match method_name with
  | CONN_TEST => handle_conn_test latency params
  | DDL_BUILD => lift_outcome (handle_ddl_build params)
  | DDL_BUILD_CREATE_TABLE => lift_outcome (handle_ddl_build_create_table params)
  | DDL_BUILD_ALTER_TABLE => lift_outcome (handle_ddl_build_alter_table params)
  | DDL_BUILD_DROP => lift_outcome (handle_ddl_build_drop params)
  | other => throw (method_not_found (method_text other))
  end.

(** [now] is the clock reading at the call and [latency] what a ping took. *)
Definition call (now latency : N) (method_name : Method) (params : Value) : handler Value :=
  match method_name with
  | CONN_PING => handle_conn_ping latency params
  | CONN_USE => handle_conn_use params
  | QUERY_START => handle_query_start params
  | CURSOR_FETCH => handle_cursor_fetch params
  | CURSOR_CLOSE => handle_cursor_close params
  | CURSOR_CANCEL => handle_cursor_cancel params
  | EXEC_RUN => handle_exec_run params
  | EXEC_BATCH => handle_exec_batch params
  | TX_BEGIN => handle_tx_begin params
  | TX_COMMIT => handle_tx_commit params
  | TX_ROLLBACK => handle_tx_rollback params
  | DATA_EXPORT => handle_data_export params
  | DATA_IMPORT_BEGIN => handle_data_import_begin now params
  | DATA_IMPORT_CHUNK => handle_data_import_chunk params
  | DATA_IMPORT_COMMIT => handle_data_import_commit now params
  | DATA_IMPORT_ABORT => handle_data_import_abort params
  | STREAM_READ => handle_stream_read params
  | STREAM_CLOSE => handle_stream_close params
  | SCHEMA_DATABASES => handle_schema_databases params
  | SCHEMA_SCHEMAS => handle_schema_schemas params
  | SCHEMA_OBJECTS => handle_schema_objects params
  | SCHEMA_OBJECT_VIEW => handle_schema_object_view params
  | SCHEMA_COLUMNS => handle_schema_columns params
  | SCHEMA_VIEWS => handle_schema_views params
  | SCHEMA_INDEXES => handle_schema_indexes params
  | SCHEMA_CHECKS => handle_schema_checks params
  | SCHEMA_FUNCTIONS => handle_schema_functions params
  | DDL_BUILD => lift_outcome (handle_ddl_build params)
  | DDL_BUILD_CREATE_TABLE => lift_outcome (handle_ddl_build_create_table params)
  | DDL_BUILD_ALTER_TABLE => lift_outcome (handle_ddl_build_alter_table params)
  | DDL_BUILD_DROP => lift_outcome (handle_ddl_build_drop params)
  | other => throw (method_not_found (method_text other))
  end.

(** [DuckDbConnection::close] *)
Definition close (conn_id : ConnId) (s : ConnectionState DuckDbSession)
    : ConnectionState DuckDbSession :=
  set_conns (alter disconnect conn_id (conns s)) s.
End driver.
