(* ===== verification/DuckTx.v ===== *)
(** * The DuckDB driver: transactions

    Who a transaction of a connection belongs to.  The laws of [TxLaws] say what the
    database does with transactions; a state machine with the phases [Idle], [InTx] and
    [Importing] abstracts the driver's tables and the database, and every call of the driver
    is one of its moves. *)

From S2P Require Import Prelude VncClipboard Text TextSearch JsonValue DuckValue DuckState DuckText DuckServer DuckDemo DdlSpec DuckSchema DuckDdl DuckDriver.

Create HintDb driver_sql.
Create HintDb keeps.

(** ** Texts of one statement *)

Definition no_semicolon (sql : text) : bool := negb (has_char 59 sql).

(** What a text is made of before and among its quoted identifiers. *)
Definition plain_sql (c : N) : bool :=
  ((65 <=? c) && (c <=? 90) || (97 <=? c) && (c <=? 122))%N ||
  one_of [" "; "("; ")"; "*"; ","; "."; "?"; "_"] [c].

(** No semicolon ends a statement in the text: from its beginning, or inside a quoted
    identifier, the text is plain or quoted up to a point after which there is none. *)
Fixpoint one_statement (quoted : bool) (sql : text) : bool :=
  match sql with
  | [] => negb quoted
  | c :: rest =>
      if quoted then one_statement (negb (c =? 34)%N) rest
      else no_semicolon sql ||
           (if (c =? 34)%N then one_statement true rest
            else plain_sql c && one_statement false rest)
  end.

(** One SELECT or INSERT statement. *)
Definition single_query (sql : text) : bool :=
  (starts_with (lit "SELECT ") sql || starts_with (lit "INSERT INTO ") sql) &&
  one_statement false sql.

Lemma no_semicolon_Forall t : no_semicolon t = true ↔ Forall (λ c, c ≠ 59%N) t.
Proof.
  unfold no_semicolon, has_char. rewrite negb_true_iff.
  induction t as [|c t IH]; [by split|]. cbn [existsb]. rewrite orb_false_iff, IH, Forall_cons, N.eqb_neq.
  naive_solver.
Qed.

Lemma no_semicolon_app t u : no_semicolon (t ++ u) = no_semicolon t && no_semicolon u.
Proof. unfold no_semicolon, has_char. by rewrite existsb_app, negb_orb. Qed.

Lemma no_semicolon_cons c t : no_semicolon (c :: t) = negb (59 =? c)%N && no_semicolon t.
Proof. unfold no_semicolon, has_char. cbn [existsb]. by rewrite negb_orb. Qed.

Lemma one_statement_none t : no_semicolon t = true → one_statement false t = true.
Proof. destruct t as [|c t]; [done|]. intros Ht. cbn [one_statement]. by rewrite Ht. Qed.

(** Plain characters before, and no semicolon after. *)
Lemma one_statement_plain p t :
  forallb plain_sql p = true → one_statement false t = true → one_statement false (p ++ t) = true.
Proof.
  intros Hp Ht. induction p as [|c p IH]; [done|]. cbn [forallb] in Hp.
  apply andb_true_iff in Hp as [Hc Hp]. cbn [app one_statement]. rewrite Hc, IH by done.
  destruct (N.eqb_spec c 34) as [->|]; [discriminate Hc|]. apply orb_true_r.
Qed.

Lemma one_statement_after q t u :
  one_statement q t = true → no_semicolon u = true → one_statement q (t ++ u) = true.
Proof.
  intros Ht Hu. revert q Ht. induction t as [|c t IH]; intros q Ht.
  - destruct q; [done|]. by apply one_statement_none.
  - cbn [app one_statement] in *. destruct q; [by apply IH|].
    apply orb_true_iff in Ht as [Ht|Ht]; apply orb_true_iff.
    + left. change (c :: t ++ u) with ((c :: t) ++ u). by rewrite no_semicolon_app, Ht, Hu.
    + right. destruct (c =? 34)%N; [by apply IH|]. apply andb_true_iff in Ht as [-> Ht]. by apply IH.
Qed.

(** A quoted identifier between them. *)
Lemma one_statement_quoted name t :
  one_statement false t = true → one_statement false (quote_sql_identifier name ++ t) = true.
Proof.
  intros Ht. unfold quote_sql_identifier. rewrite replace_char.
  rewrite <-!app_assoc. cbn [app one_statement].
  apply orb_true_iff. right. rewrite N.eqb_refl.
  induction name as [|c name IH]; [exact Ht|]. rewrite bind_cons, <-app_assoc.
  destruct (N.eqb_spec c 34) as [->|Hc]; cbn [app one_statement].
  - change (negb (34 =? 34)%N) with false. cbn iota. apply orb_true_iff. right. exact IH.
  - by rewrite (proj2 (N.eqb_neq c 34) Hc).
Qed.

Lemma one_statement_identifiers names t :
  one_statement false t = true →
  one_statement false (join (lit ", ") (quote_sql_identifier <$> names) ++ t) = true.
Proof.
  intros Ht. destruct names as [|nm names]; [done|]. rewrite fmap_cons. unfold join.
  rewrite <-app_assoc. apply one_statement_quoted.
  induction names as [|nm' names IH]; [done|]. rewrite fmap_cons, bind_cons, <-!app_assoc.
  apply one_statement_plain; [done|]. by apply one_statement_quoted.
Qed.

(** A part without what is around it, where that is white space or semicolons. *)
Lemma one_statement_without_end q t w :
  Forall (λ c, c ≠ 34%N) w → one_statement q (t ++ w) = true → one_statement q t = true.
Proof.
  intros Hw. revert q. induction t as [|c t IH]; intros q Ht.
  - destruct q; [|done]. exfalso. cbn [app] in Ht. induction Hw as [|c w Hc _ IHw]; [done|].
    cbn [one_statement] in Ht. by rewrite (proj2 (N.eqb_neq c 34) Hc) in Ht.
  - cbn [app one_statement] in *. destruct q; [by apply IH|].
    apply orb_true_iff in Ht as [Ht|Ht]; apply orb_true_iff.
    + left. change (c :: t ++ w) with ((c :: t) ++ w) in Ht. rewrite no_semicolon_app in Ht.
      by apply andb_true_iff in Ht as [? _].
    + right. destruct (c =? 34)%N; [by apply IH|]. apply andb_true_iff in Ht as [-> Ht]. by apply IH.
Qed.

Lemma one_statement_without_start w t :
  Forall (λ c, c ≠ 34%N) w → one_statement false (w ++ t) = true → one_statement false t = true.
Proof.
  induction 1 as [|c w Hc _ IH]; [done|]. cbn [app one_statement].
  rewrite (proj2 (N.eqb_neq c 34) Hc). intros [Hn|[_ Ht]%andb_true_iff]%orb_true_iff; [|by apply IH].
  change (c :: w ++ t) with ((c :: w) ++ t) in Hn. rewrite no_semicolon_app in Hn.
  apply andb_true_iff in Hn as [_ Hn]. by apply one_statement_none.
Qed.

Lemma trim_start_space t : ∃ w, t = w ++ trim_start t ∧ Forall (λ c, c ≠ 34%N) w.
Proof.
  induction t as [|c t (w & Ht & Hw)]; [by exists []|]. cbn [trim_start].
  destruct (is_whitespace c) eqn:Hc; [|by exists []]. exists (c :: w). split; [simpl; by rewrite <-Ht|].
  constructor; [|done]. by intros ->.
Qed.

Lemma trim_end_space t : ∃ w, t = trim_end t ++ w ∧ Forall (λ c, c ≠ 34%N) w.
Proof.
  destruct (trim_start_space (reverse t)) as (w & Ht & Hw). exists (reverse w). split.
  - unfold trim_end. by rewrite <-reverse_app, <-Ht, reverse_involutive.
  - by apply Forall_reverse.
Qed.

Lemma trimmed_one_statement sql :
  one_statement false sql = true → one_statement false (trimmed_query_sql sql) = true.
Proof.
  intros Hsql. unfold trimmed_query_sql.
  assert (∀ t, one_statement false t = true → one_statement false (trim_end t) = true) as Hend.
  { intros t Ht. destruct (trim_end_space t) as (w & Heq & Hw). rewrite Heq in Ht.
    by apply one_statement_without_end in Ht. }
  assert (one_statement false (trim sql) = true) as Ht.
  { apply Hend. destruct (trim_start_space sql) as (w & Heq & Hw). rewrite Heq in Hsql.
    by apply one_statement_without_start in Hsql. }
  generalize (S (length sql)). intros fuel. revert Ht. generalize (trim sql).
  induction fuel as [|fuel IH]; intros t Ht; [done|]. cbn [strip_semicolons].
  destruct (strip_suffix (lit ";") t) as [rest|] eqn:Hs; [|done]. apply IH, Hend.
  unfold strip_suffix in Hs. destruct (strip_prefix _ _) as [u|] eqn:Hu; [|done]. injection Hs as <-.
  apply strip_prefix_spec in Hu. apply (f_equal reverse) in Hu.
  rewrite reverse_involutive, reverse_app in Hu. subst t. apply one_statement_without_end in Ht; [done|].
  by repeat constructor.
Qed.

Lemma no_semicolon_digits n : no_semicolon (show_N n) = true.
Proof.
  apply no_semicolon_Forall. eapply Forall_impl; [apply show_N_digits|]. by intros c Hc ->.
Qed.

(** A page of a text of one statement is one query. *)
Lemma page_single_query sql limit offset :
  one_statement false sql = true → single_query (page_query_sql sql limit offset) = true.
Proof.
  intros Hsql. unfold single_query, page_query_sql. apply andb_true_iff. split; [done|].
  apply one_statement_plain; [done|]. apply one_statement_after; [by apply trimmed_one_statement|].
  by rewrite !no_semicolon_app, !no_semicolon_digits.
Qed.

Lemma insert_single_query i :
  (∃ schema table, is_table_ref i = qualified_table_ref schema table) →
  single_query (insert_sql i) = true.
Proof.
  intros (schema & table & Hi). unfold single_query, insert_sql. apply andb_true_iff. split; [done|].
  apply one_statement_plain; [done|].
  assert (∀ t, one_statement false t = true → one_statement false (is_table_ref i ++ t) = true) as Href.
  { intros t Ht. rewrite Hi. unfold qualified_table_ref. destruct (non_blank schema).
    - rewrite <-!app_assoc. apply one_statement_quoted, one_statement_plain; [done|].
      by apply one_statement_quoted.
    - by apply one_statement_quoted. }
  apply Href, one_statement_plain; [done|]. apply one_statement_identifiers, one_statement_none.
  rewrite !no_semicolon_app. cbn. rewrite andb_true_r.
  destruct (is_columns i) as [|nm names]; [done|]. rewrite fmap_cons. unfold join.
  rewrite no_semicolon_app. cbn. induction names as [|nm' names IH]; [done|].
  rewrite fmap_cons, bind_cons, no_semicolon_app. exact IH.
Qed.

(** A text the driver prepares itself, with none of the host's in it. *)
Definition driver_sql (sql : text) : bool := starts_with (lit "SELECT ") sql && no_semicolon sql.

Lemma driver_single_query sql : driver_sql sql = true → single_query sql = true.
Proof.
  unfold driver_sql, single_query. intros [-> Hsql]%andb_true_iff. by rewrite one_statement_none.
Qed.

Lemma starts_with_app (prefix t u : text) :
  starts_with prefix t = true → starts_with prefix (t ++ u) = true.
Proof.
  unfold starts_with. revert t. induction prefix as [|c prefix IH]; intros t; [done|].
  destruct t as [|d t]; simpl; [done|]. destruct (c =? d)%N; [apply IH|done].
Qed.

Lemma driver_sql_app t u :
  driver_sql t = true → no_semicolon u = true → driver_sql (t ++ u) = true.
Proof.
  unfold driver_sql. rewrite no_semicolon_app. intros [Ht ->]%andb_true_iff ->.
  by rewrite starts_with_app.
Qed.

Lemma driver_sql_optional column value q :
  no_semicolon column = true →
  driver_sql q.1 = true → driver_sql (append_optional_filter column value q).1 = true.
Proof.
  intros Hc Hq. unfold append_optional_filter. destruct (non_blank value); [|done].
  apply driver_sql_app; [done|]. by rewrite !no_semicolon_app, Hc.
Qed.

Lemma driver_sql_catalog database schema c1 c2 catalog q order :
  no_semicolon c1 = true → no_semicolon c2 = true → no_semicolon order = true →
  driver_sql q.1 = true →
  driver_sql (add_text order (append_database_schema_filters database schema c1 c2 catalog q)).1 = true.
Proof.
  intros H1 H2 Ho Hq. apply driver_sql_app; [|done].
  unfold append_database_schema_filters, append_duckdb_database_filter.
  apply driver_sql_optional; [done|]. destruct database; [|done].
  destruct (is_default_catalog_reference _ _); [done|]. by apply driver_sql_optional.
Qed.

Lemma driver_tables_query database schema catalog :
  driver_sql (tables_query database schema catalog).1 = true.
Proof.
  apply driver_sql_catalog; [done..|]. by destruct (should_include_internal_schema_objects schema).
Qed.
Lemma driver_views_query select database schema catalog :
  driver_sql select = true → driver_sql (views_query select database schema catalog).1 = true.
Proof.
  intros. apply driver_sql_catalog; [done..|]. apply driver_sql_app; [done|].
  by destruct (should_include_internal_schema_objects schema).
Qed.
Lemma driver_columns_query p catalog : driver_sql (columns_query p catalog).1 = true.
Proof. apply driver_sql_catalog; [done..|]. by destruct (should_include_internal_schema_objects _). Qed.
Lemma driver_indexes_query p catalog : driver_sql (indexes_query p catalog).1 = true.
Proof. by apply driver_sql_catalog. Qed.
Lemma driver_checks_query p : driver_sql (checks_query p).1 = true.
Proof. apply driver_sql_app; [by apply driver_sql_optional|done]. Qed.
#[export] Hint Resolve driver_tables_query driver_views_query driver_columns_query
  driver_indexes_query driver_checks_query : driver_sql.

(** Transactions of a connection as DuckDB has them: there is at most one; preparing and
    running a single SELECT or INSERT, or executing a text without transaction control, neither
    begins nor ends one; BEGIN fails when there is one; after COMMIT and ROLLBACK, failed or
    not, there is none; and they fail when there was none.  And a query has the rows its
    condition says: the views of the system catalog are in two schemas. *)
Class TxLaws `{DuckDb} := {
  in_tx : Conn → Db → bool;
  (** no BEGIN, COMMIT or ROLLBACK in the text *)
  no_control : text → bool;
  prepare_tx conn sql d : single_query sql = true → in_tx conn (prepare conn sql d).1 = in_tx conn d;
  query_tx conn sql d stmt params d' :
    single_query sql = true → (prepare conn sql d).2 = inr stmt →
    in_tx conn (query stmt params d').1 = in_tx conn d';
  stmt_execute_tx conn sql d stmt params d' :
    single_query sql = true → (prepare conn sql d).2 = inr stmt →
    in_tx conn (stmt_execute stmt params d').1 = in_tx conn d';
  catalog_schemas conn d stmt d' rows row schema :
    (prepare conn catalog_views_sql d).2 = inr stmt → (query stmt [] d').2 = inr rows →
    row ∈ rows_cells rows → from_sql_string (default None (row !! 1)) = inr schema →
    schema = lit "information_schema" ∨ schema = lit "pg_catalog";
  execute_tx conn sql params d :
    no_control sql = true → in_tx conn (DuckServer.execute conn sql params d).1 = in_tx conn d;
  begin_in_tx conn command d :
    command = lit "BEGIN" ∨ command = lit "BEGIN TRANSACTION" → in_tx conn d = true →
    in_tx conn (DuckServer.execute conn command [] d).1 = true ∧ ∃ e, (DuckServer.execute conn command [] d).2 = inl e;
  begin_tx_law conn command d :
    command = lit "BEGIN" ∨ command = lit "BEGIN TRANSACTION" → in_tx conn d = false →
    in_tx conn (DuckServer.execute conn command [] d).1 =
      match (DuckServer.execute conn command [] d).2 with inl _ => false | inr _ => true end;
  end_tx_law conn command d :
    command = lit "COMMIT" ∨ command = lit "ROLLBACK" →
    in_tx conn (DuckServer.execute conn command [] d).1 = false;
  end_no_tx conn command d :
    command = lit "COMMIT" ∨ command = lit "ROLLBACK" → in_tx conn d = false →
    ∃ e, (DuckServer.execute conn command [] d).2 = inl e
}.

(** A request, with the clock readings its handler takes. *)
Abbreviation request := (N * N * Method * Value)%type (only parsing).

(** ** The abstract machine *)

Inductive phase : Type := Idle | InTx (tx : TxId) | Importing (id : ImportId).
#[export] Instance phase_eq_dec : EqDecision phase.
Proof. solve_decision. Defined.

(** What a method can do to the phase. *)
Inductive moves : Method → phase → phase → Prop :=
  | moves_stay m ph : moves m ph ph
  | moves_begin tx : moves TX_BEGIN Idle (InTx tx)
  | moves_commit tx : moves TX_COMMIT (InTx tx) Idle
  | moves_rollback tx : moves TX_ROLLBACK (InTx tx) Idle
  | moves_import_begin id : moves DATA_IMPORT_BEGIN Idle (Importing id)
  | moves_import_commit id : moves DATA_IMPORT_COMMIT (Importing id) Idle
  | moves_import_abort id : moves DATA_IMPORT_ABORT (Importing id) Idle.

Section tx.
Context `{TxLaws, ValueLib, DuckCodec, SchemaCodec, DriverCodec}.
Context (conn_id : ConnId) (conn : Conn).

Abbreviation handler A := (comp Duck ProtocolError A) (only parsing).

(** What the phase depends on. *)
Record View := {
  v_conns : gmap ConnId DuckDbSession; v_txs : gmap TxId ConnId;
  v_active : gmap ConnId TxId; v_imports : gmap ImportId ImportState; v_in_tx : bool
}.
Definition view (s : Duck) : View :=
  {| v_conns := conns (client s); v_txs := txs (client s); v_active := active_tx_by_conn (client s);
     v_imports := imports (client s); v_in_tx := in_tx conn (db s) |}.

Definition one_connection (v : View) : Prop :=
  ∃ session, v_conns v = {[conn_id := session]} ∧ session_connection session = Some conn.

(** ** Calls that change nothing of the view *)

Section view.
Context (v : View) (Hone : one_connection v).

Definition keeps {A} (m : handler A) : Prop := ∀ s, view s = v → view (m s).1 = v.

Lemma keeps_bind {A B} (m : handler A) (f : A → handler B) :
  keeps m → (∀ a, keeps (f a)) → keeps (m ≫= f).
Proof.
  intros Hm Hf s Hs. rewrite comp_bind_run. specialize (Hm s Hs).
  destruct (m s) as [s' []]; simpl in *; [by apply Hf|done|done].
Qed.

Lemma keeps_ret {A} (a : A) : keeps (mret a).
Proof. by intros s. Qed.
Lemma keeps_lift {A} (r : result A) : keeps (lift_outcome r).
Proof. by intros s. Qed.
Lemma keeps_gets {A} (f : Duck → A) : keeps (gets f).
Proof. by intros s. Qed.
Lemma keeps_throw {A} e : keeps (A:=A) (throw e).
Proof. by intros s. Qed.

Lemma keeps_attempt {A} (m : handler A) : keeps m → keeps (attempt m).
Proof. intros Hm s Hs. specialize (Hm s Hs). unfold attempt. by destruct (m s) as [s' []]. Qed.
Lemma keeps_map_err {A} f (m : handler A) : keeps m → keeps (map_err_comp f m).
Proof. intros Hm s Hs. specialize (Hm s Hs). unfold map_err_comp. by destruct (m s) as [s' []]. Qed.

(** A change of the cursors or the streams. *)
Lemma keeps_client {A} (m : ConnectionState DuckDbSession → ConnectionState DuckDbSession * A) :
  (∀ c, conns (m c).1 = conns c ∧ txs (m c).1 = txs c ∧
    active_tx_by_conn (m c).1 = active_tx_by_conn c ∧ imports (m c).1 = imports c) →
  keeps (on_client m).
Proof.
  intros Hm s Hs. rewrite <-Hs. unfold view, on_client. cbn [fst client db].
  destruct (Hm (client s)) as (-> & -> & -> & ->). done.
Qed.

Lemma keeps_db {A} error (m : Db → Db * (text + A)) :
  (∀ d, in_tx conn (m d).1 = in_tx conn d) → keeps (on_db error m).
Proof. intros Hm s Hs. rewrite <-Hs. unfold view, on_db. cbn [fst client db]. by rewrite Hm. Qed.

(** The session of a connection, when it is the one there is. *)
Lemma get_session_run id s :
  view s = v → ∃ session, session_connection session = Some conn ∧
    get_session id s = (s, if decide (id = conn_id) then Ok session else Err (unknown_conn id)).
Proof.
  intros Hs. destruct Hone as (session & Hconns & Hconn). exists session. split; [done|].
  unfold get_session. rewrite gets_bind.
  assert (conns (client s) = {[conn_id := session]}) as -> by (by rewrite <-Hconns, <-Hs).
  destruct (decide (id = conn_id)) as [->|Hne].
  - by rewrite lookup_singleton_eq.
  - by rewrite lookup_singleton_ne.
Qed.

Lemma keeps_session_bind {A} id (f : DuckDbSession → handler A) :
  (∀ session, session_connection session = Some conn → keeps (f session)) →
  keeps (get_session id ≫= f).
Proof.
  intros Hf s Hs. rewrite comp_bind_run.
  destruct (get_session_run id s Hs) as (session & Hconn & ->). cbn [fst snd].
  destruct (decide _); [by apply Hf|done].
Qed.

Lemma keeps_conn_bind {A} id (f : Conn → handler A) :
  keeps (f conn) → keeps (get_connection id ≫= f).
Proof.
  intros Hf. assert (∀ s, ((get_connection id ≫= f) s) =
    (get_session id ≫= λ session, lift_outcome (connection NOT_INITIALIZED session) ≫= f) s) as Heq.
  { intros s. unfold get_connection. rewrite !comp_bind_run. by destruct (get_session id s) as [s' []]. }
  intros s Hs. rewrite Heq. revert s Hs. change (keeps
    (get_session id ≫= λ session, lift_outcome (connection NOT_INITIALIZED session) ≫= f)).
  apply keeps_session_bind. intros session Hsession s Hs. rewrite lift_bind. unfold connection.
  rewrite Hsession. cbn. by apply Hf.
Qed.

(** Statements that neither begin nor end a transaction. *)
Definition quiet_stmt (stmt : Stmt) : Prop :=
  (∀ params d, in_tx conn (query stmt params d).1 = in_tx conn d) ∧
  (∀ params d, in_tx conn (stmt_execute stmt params d).1 = in_tx conn d).

Lemma keeps_prepare_bind {A} e sql (f : Stmt → handler A) :
  single_query sql = true → (∀ stmt, quiet_stmt stmt → keeps (f stmt)) →
  keeps (on_db e (prepare conn sql) ≫= f).
Proof.
  intros Hsql Hf s Hs. rewrite on_db_bind.
  pose proof (prepare_tx conn sql (db s) Hsql) as Hp.
  assert (∀ stmt, (prepare conn sql (db s)).2 = inr stmt → quiet_stmt stmt) as Hquiet.
  { intros stmt Hstmt. split; intros params d;
      [by apply (query_tx conn sql (db s))|by apply (stmt_execute_tx conn sql (db s))]. }
  destruct (prepare conn sql (db s)) as [d [error|stmt]]; cbn [fst snd] in *.
  - rewrite <-Hs. unfold view. cbn [fst client db]. by rewrite Hp.
  - apply Hf; [by apply Hquiet|]. rewrite <-Hs. unfold view. cbn [client db]. by rewrite Hp.
Qed.

Lemma keeps_query {A} e stmt params (f : Rows → handler A) :
  quiet_stmt stmt → (∀ rows, keeps (f rows)) → keeps (on_db e (query stmt params) ≫= f).
Proof. intros [Hq _] Hf. apply keeps_bind; [|done]. by apply keeps_db. Qed.
Lemma keeps_query_last e stmt params : quiet_stmt stmt → keeps (on_db e (query stmt params)).
Proof. intros [Hq _]. by apply keeps_db. Qed.

Lemma keeps_execute e sql params : no_control sql = true → keeps (on_db e (DuckServer.execute conn sql params)).
Proof. intros Hsql. apply keeps_db. intros d. by apply execute_tx. Qed.
End view.

(** Goes through a call, one operation at a time; a [match] is split. *)
Ltac keep_step :=
  match goal with
  | |- ∀ _, _ => intros ?
  | |- keeps _ (get_connection _ ≫= _) => apply keeps_conn_bind; [assumption|]
  | |- keeps _ (get_session _ ≫= _) => apply keeps_session_bind; [assumption|intros ? ?]
  | |- keeps _ (on_db _ (prepare _ _) ≫= _) =>
      apply keeps_prepare_bind; [solve [auto with driver_sql]|intros ? ?]
  | |- keeps _ (on_db _ (query _ _) ≫= _) => apply keeps_query; [assumption|intros ?]
  | |- keeps _ (on_db _ (query _ _)) => apply keeps_query_last; assumption
  | |- keeps _ (on_client _) => apply keeps_client; intros ?; repeat split
  | |- keeps _ (attempt _) => apply keeps_attempt
  | |- keeps _ (map_err_comp _ _) => apply keeps_map_err
  | |- keeps _ (mret _) => apply keeps_ret
  | |- keeps _ (lift_outcome _) => apply keeps_lift
  | |- keeps _ (gets _) => apply keeps_gets
  | |- keeps _ (throw _) => apply keeps_throw
  | |- keeps _ _ => solve [auto with keeps]
  | |- keeps _ (_ ≫= _) => apply keeps_bind
  | |- keeps _ (match ?x with _ => _ end) => destruct x
  end.
Ltac keep := repeat keep_step.

Lemma comp_assoc {A B C} (m : handler A) (f : A → handler B) (g : B → handler C) s :
  ((m ≫= f) ≫= g) s = (m ≫= λ a, f a ≫= g) s.
Proof. unfold mbind, comp_bind. by destruct (m s) as [s' []]. Qed.

(** ** Texts of the tables

    The texts that cursors and streams keep for their pages are of one statement. *)

Lemma has_char_replace c pattern by_text t :
  Forall (λ d, d ≠ c) t → (Forall (λ d, d ≠ c) pattern → Forall (λ d, d ≠ c) by_text) →
  Forall (λ d, d ≠ c) (replace pattern by_text t).
Proof.
  intros Ht Hby. unfold replace. generalize 0. induction Ht as [|d t Hd Ht IH]; intros skip; [done|].
  cbn [replace_from]. destruct skip as [|skip]; [|apply IH].
  destruct (starts_with pattern (d :: t)) eqn:Hs.
  - apply Forall_app. split; [|apply IH]. apply Hby. unfold starts_with in Hs.
    destruct (strip_prefix pattern (d :: t)) as [rest|] eqn:Hr; [|done].
    apply strip_prefix_spec in Hr. assert (Forall (λ x, x ≠ c) (d :: t)) as Hall by by constructor.
    rewrite Hr in Hall. by apply Forall_app in Hall as [? _].
  - constructor; [done|apply IH].
Qed.

Lemma replace_reference c ref by_ref rest t :
  Forall (λ d, d ≠ c) t → Forall (λ d, d ≠ c) by_ref →
  Forall (λ d, d ≠ c) (replace (ref ++ rest) (by_ref ++ rest) t).
Proof.
  intros Ht Hby. apply has_char_replace; [done|]. rewrite !Forall_app. by intros [_ Hrest].
Qed.

Lemma decode_rows_Forall {A} (P : A → Prop) decode error rows failed l :
  (∀ row a, row ∈ rows → decode row = inr a → P a) →
  decode_rows decode error rows failed = Ok l → Forall P l.
Proof.
  revert l. induction rows as [|row rows IH]; intros l HP; cbn [decode_rows].
  - destruct failed; [done|]. by intros [= <-].
  - destruct (decode row) as [e|a] eqn:Ha; [done|]. intros Hl. apply bind_ok in Hl as (rest & Hrest & [= <-]).
    constructor; [eapply HP; [|exact Ha]; left|]. apply IH; [|done]. intros row' a' Hin. apply HP. by right.
Qed.

Lemma rewritten_no_semicolon catalog views sql :
  no_semicolon sql = true →
  Forall (λ '(_, schema), schema = lit "information_schema" ∨ schema = lit "pg_catalog") views →
  no_semicolon (foldl (λ rewritten '(name, schema),
    replace (quote_sql_identifier catalog ++ lit "." ++ quote_sql_identifier name)
      (quote_sql_identifier schema ++ lit "." ++ quote_sql_identifier name) rewritten) sql views) = true.
Proof.
  intros Hsql Hviews. revert sql Hsql.
  induction Hviews as [|[nm schema] views Hschema _ IH]; intros sql Hsql; [done|]. cbn [foldl].
  apply IH. apply no_semicolon_Forall in Hsql. apply no_semicolon_Forall, replace_reference; [done|].
  apply no_semicolon_Forall. by destruct Hschema as [->| ->].
Qed.

Lemma rewrite_no_semicolon conn' sql s t :
  no_semicolon sql = true →
  (rewrite_current_catalog_system_table_references conn' sql s).2 = Ok t → no_semicolon t = true.
Proof.
  intros Hsql. unfold rewrite_current_catalog_system_table_references. rewrite comp_bind_run.
  destruct (current_duckdb_catalog_from_connection conn' s) as [s1 [catalog|e|]]; [|done..].
  cbn [fst snd]. destruct (negb _); [by intros [= <-]|]. rewrite comp_bind_run. unfold run_statement.
  rewrite on_db_bind. destruct (prepare conn' catalog_views_sql (db s1)).2 as [e|stmt] eqn:Hstmt; [done|].
  rewrite lift_bind. cbn [duckdb_params]. unfold on_db at 1 2. cbn [fst snd].
  match goal with |- context [query stmt [] ?d] => destruct (query stmt [] d).2 as [e|rows] eqn:Hrows end;
    [done|]. rewrite lift_bind.
  match goal with |- context [decode_rows ?dec ?err ?r ?f] =>
    destruct (decode_rows dec err r f) as [views|e|] eqn:Hviews end; [|done..].
  intros [= <-]. apply decode_rows_Forall with (P := λ '(_, schema),
    schema = lit "information_schema" ∨ schema = lit "pg_catalog") in Hviews.
  2: { intros row [nm schema] Hin. unfold read_cell, cell_at.
    destruct (from_sql_string (default None (row !! 0))) as [e|nm']; [done|].
    destruct (from_sql_string (default None (row !! 1))) as [e|schema'] eqn:Hschema; [done|].
    intros [= <- <-]. by eapply catalog_schemas. }
  by apply (rewritten_no_semicolon catalog).
Qed.

Lemma retry_no_semicolon conn' sql params s t columns :
  no_semicolon sql = true →
  (prepare_query_columns_with_catalog_retry conn' sql params s).2 = Ok (t, columns) →
  no_semicolon t = true.
Proof.
  intros Hsql. unfold prepare_query_columns_with_catalog_retry. rewrite comp_bind_run. unfold attempt.
  destruct (prepare_query_columns conn' sql params s) as [s1 [columns'|e|]]; cbn [fst snd]; [|..|done].
  { by intros [= <- _]. }
  rewrite comp_bind_run. unfold map_err_comp.
  pose proof (rewrite_no_semicolon conn' sql s1) as Hn.
  destruct (rewrite_current_catalog_system_table_references conn' sql s1) as [s2 [t'|e'|]]; [|done..].
  cbn [fst snd] in *. cbn [map_err]. destruct (bool_decide (t' = sql)); [intros [=]|]. rewrite comp_bind_run. cbn [fst snd].
  destruct (prepare_query_columns conn' t' params s2) as [s3 [columns'|e'|]]; [|done..].
  intros [= <- _]. by apply Hn.
Qed.

(** An export of a query, or of rows of a table. *)
Definition export_quiet (p : ExportParams) : Prop :=
  (∀ sql, ex_sql p = Some sql → no_semicolon (trimmed_query_sql sql) = true) ∧
  (∀ condition, ex_where_clause p = Some condition → no_semicolon condition = true).

Lemma raw_export_single p sql :
  export_quiet p → raw_export_sql p = Ok sql → one_statement false sql = true.
Proof.
  intros [Hsql Hwhere]. unfold raw_export_sql.
  destruct (ex_sql p) as [host_sql|]; destruct (ex_table p) as [table|]; try done.
  - destruct (blank host_sql); [done|]. intros [= <-]. by apply one_statement_none, Hsql.
  - destruct (blank table); [done|]. intros [= <-]. unfold table_export_sql.
    apply one_statement_plain; [done|].
    assert (one_statement false match non_blank (ex_where_clause p) with
      | Some condition => lit " WHERE " ++ condition | None => [] end = true) as Hend.
    { destruct (non_blank (ex_where_clause p)) as [condition|] eqn:Hc; [|done].
      apply one_statement_plain; [done|]. apply one_statement_none, Hwhere.
      unfold non_blank in Hc. destruct (ex_where_clause p) as [c|]; [|done]. simpl in Hc.
      by destruct (blank c). }
    destruct (ex_schema p) as [schema|]; [|by apply one_statement_quoted].
    destruct (bool_decide _); [by apply one_statement_quoted|].
    rewrite <-!app_assoc. apply one_statement_quoted, one_statement_plain; [done|].
    by apply one_statement_quoted.
Qed.

Lemma projection_single sql columns :
  one_statement false sql = true → one_statement false (apply_export_projection sql columns) = true.
Proof.
  intros Hsql. unfold apply_export_projection. apply one_statement_plain; [done|].
  apply one_statement_identifiers, one_statement_plain; [done|]. by apply one_statement_after.
Qed.

(** An import into a table that its quoted names say. *)
Definition names_table (i : ImportState) : Prop :=
  ∃ schema table, is_table_ref i = qualified_table_ref schema table.

Definition tables_single (s : Duck) : Prop :=
  map_Forall (λ _ cursor, one_statement false (cs_sql cursor) = true) (cursors (client s)) ∧
  map_Forall (λ _ stream, one_statement false (es_sql stream) = true) (streams (client s)) ∧
  map_Forall (λ _ i, names_table i) (imports (client s)).

Definition tabs {A} (m : handler A) : Prop := ∀ s, tables_single s → tables_single (m s).1.

Lemma tabs_bind {A B} (m : handler A) (f : A → handler B) :
  tabs m → (∀ a, tabs (f a)) → tabs (m ≫= f).
Proof.
  intros Hm Hf s Hs. rewrite comp_bind_run. specialize (Hm s Hs).
  destruct (m s) as [s' []]; simpl in *; [by apply Hf|done|done].
Qed.

(** The same with what is known of the value. *)
Lemma tabs_bind_ok {A B} (m : handler A) (f : A → handler B) :
  tabs m → (∀ s a, (m s).2 = Ok a → tabs (f a)) → tabs (m ≫= f).
Proof.
  intros Hm Hf s Hs. rewrite comp_bind_run. specialize (Hm s Hs). pose proof (Hf s) as Hf'.
  destruct (m s) as [s' []]; simpl in *; [by apply Hf'|done|done].
Qed.

Lemma tabs_same {A} (m : handler A) :
  (∀ s, cursors (client (m s).1) = cursors (client s) ∧ streams (client (m s).1) = streams (client s) ∧
    imports (client (m s).1) = imports (client s)) →
  tabs m.
Proof. intros Hm s Hs. unfold tables_single. by destruct (Hm s) as (-> & -> & ->). Qed.

Lemma tabs_attempt {A} (m : handler A) : tabs m → tabs (attempt m).
Proof. intros Hm s Hs. specialize (Hm s Hs). unfold attempt. by destruct (m s) as [s' []]. Qed.
Lemma tabs_map_err {A} f (m : handler A) : tabs m → tabs (map_err_comp f m).
Proof. intros Hm s Hs. specialize (Hm s Hs). unfold map_err_comp. by destruct (m s) as [s' []]. Qed.

Lemma tabs_client_same {A} (m : ConnectionState DuckDbSession → ConnectionState DuckDbSession * A) :
  (∀ c, cursors (m c).1 = cursors c ∧ streams (m c).1 = streams c ∧ imports (m c).1 = imports c) →
  tabs (on_client m).
Proof. intros Hm. apply tabs_same. intros s. apply Hm. Qed.

Lemma tabs_cursors_delete {A} (m : ConnectionState DuckDbSession → ConnectionState DuckDbSession * A) id :
  (∀ c, (m c).1 = set_cursors (delete id (cursors c)) c) → tabs (on_client m).
Proof.
  intros Hm s (Hc & Hs & Hi). unfold tables_single, on_client. cbn [fst client]. rewrite Hm.
  split; [|done]. by apply map_Forall_delete.
Qed.

Lemma tabs_cursors_insert {A} (m : ConnectionState DuckDbSession → ConnectionState DuckDbSession * A) cursor :
  one_statement false (cs_sql cursor) = true →
  (∀ c, ∃ id, cursors (m c).1 = <[id := cursor]> (cursors c) ∧ streams (m c).1 = streams c ∧
    imports (m c).1 = imports c) →
  tabs (on_client m).
Proof.
  intros Hcursor Hm s (Hc & Hs & Hi). unfold tables_single, on_client. cbn [fst client].
  destruct (Hm (client s)) as (id & -> & -> & ->). split; [|done]. by apply map_Forall_insert_2.
Qed.

Lemma tabs_stream_insert {A} (m : ConnectionState DuckDbSession → ConnectionState DuckDbSession * A) id stream :
  one_statement false (es_sql stream) = true →
  (∀ c, (m c).1 = open_stream id stream c) → tabs (on_client m).
Proof.
  intros Hstream Hm s (Hc & Hs & Hi). unfold tables_single, on_client. cbn [fst client]. rewrite Hm.
  split; [done|]. split; [|done]. by apply map_Forall_insert_2.
Qed.

Lemma tabs_imports_insert {A} (m : ConnectionState DuckDbSession → ConnectionState DuckDbSession * A) i :
  names_table i →
  (∀ c, ∃ id, imports (m c).1 = <[id := i]> (imports c) ∧ cursors (m c).1 = cursors c ∧
    streams (m c).1 = streams c) →
  tabs (on_client m).
Proof.
  intros Hnames Hm s (Hc & Hs & Hi). unfold tables_single, on_client. cbn [fst client].
  destruct (Hm (client s)) as (id & -> & -> & ->). split_and!; [done..|]. by apply map_Forall_insert_2.
Qed.

Lemma tabs_remove_import id : tabs (on_client (remove_import id)).
Proof. intros s (Hc & Hs & Hi). split_and!; [done..|]. by apply map_Forall_delete. Qed.

(** What is removed was in the table. *)
Lemma tabs_import_bind {A} id e (f : ImportState → handler A) :
  (∀ i, names_table i → tabs (f i)) →
  tabs (found ← on_client (remove_import id); i ← lift_outcome (of_option e found); f i).
Proof.
  intros Hf s Hs. rewrite on_client_bind. unfold remove_import at 1. cbn [snd]. rewrite lift_bind.
  pose proof (tabs_remove_import id s Hs) as Hs'.
  destruct (imports (client s) !! id) as [i|] eqn:Hid; cbn [of_option]; [|done].
  apply Hf; [|done]. by eapply Hs.
Qed.

Lemma tabs_stream_bind {A} id (f : ExportStreamState → handler A) :
  (∀ stream, one_statement false (es_sql stream) = true → tabs (f stream)) → tabs (get_stream id ≫= f).
Proof.
  intros Hf s Hs. unfold get_stream. rewrite comp_assoc, gets_bind, lift_bind.
  destruct (streams (client s) !! id) as [stream|] eqn:Hid; [|done]. apply Hf; [|done]. by eapply Hs.
Qed.

Ltac head_of t := match t with ?f _ => head_of f | _ => t end.
Ltac tab_step :=
  match goal with
  | |- ∀ _, _ => intros ?
  | |- tabs _ => solve [auto with keeps]
  | |- tabs (on_client _) => apply tabs_client_same; intros ?; repeat split
  | |- tabs (on_db _ _) => apply tabs_same; done
  | |- tabs (attempt _) => apply tabs_attempt
  | |- tabs (map_err_comp _ _) => apply tabs_map_err
  | |- tabs (mret _) => apply tabs_same; done
  | |- tabs (lift_outcome _) => apply tabs_same; done
  | |- tabs (gets _) => apply tabs_same; done
  | |- tabs (throw _) => apply tabs_same; done
  | |- tabs (_ ≫= _) => apply tabs_bind
  | |- tabs (match ?x with _ => _ end) => destruct x
  | |- tabs ?m => let h := head_of m in unfold h
  end.
Ltac tab := repeat tab_step.

Lemma tabs_validate_tx id tx : tabs (validate_tx_for_conn id tx).
Proof. by apply tabs_same. Qed.
Lemma tabs_validate_begin p : tabs (validate_begin_params p).
Proof. by apply tabs_same. Qed.
#[local] Hint Resolve tabs_validate_tx tabs_validate_begin : keeps.

Lemma tabs_prepare_query_columns conn' sql params : tabs (prepare_query_columns conn' sql params).
Proof. tab. Qed.
Lemma tabs_run_query_page conn' sql params limit offset : tabs (run_query_page conn' sql params limit offset).
Proof. tab. Qed.
#[local] Hint Resolve tabs_prepare_query_columns tabs_run_query_page : keeps.

Lemma tabs_exec_batch_from conn' index statements stop acc :
  tabs (exec_batch_from conn' index statements stop acc).
Proof.
  revert index acc. induction statements as [|sql rest IH]; intros index acc; cbn [exec_batch_from].
  - by apply tabs_same.
  - apply tabs_bind; [tab|]. intros []; [destruct stop; [by apply tabs_same|]|]; apply IH.
Qed.
#[local] Hint Resolve tabs_exec_batch_from : keeps.

Lemma insert_row_table stmt i row d : is_table_ref (insert_row stmt i row d).2.1 = is_table_ref i.
Proof.
  unfold insert_row. destruct (negb _); [done|]. destruct (row_values row) as [e|values]; [done|].
  by destruct (stmt_execute stmt values d) as [d' [e|n]].
Qed.

Lemma insert_rows_table stmt rows i acc d :
  is_table_ref (insert_rows stmt rows i acc d).2.1 = is_table_ref i.
Proof.
  revert i acc d. induction rows as [|row rows IH]; intros i acc d; [done|]. cbn [insert_rows].
  pose proof (insert_row_table stmt i row d) as Hi.
  destruct (insert_row stmt i row d) as [d' [i' r]]. cbn [fst snd] in *.
  destruct (enforce_failure_threshold i'); [|done..]. by rewrite IH.
Qed.

Lemma tabs_run_import_chunk i rows s :
  tables_single s →
  tables_single (run_import_chunk i rows s).1 ∧
  is_table_ref (run_import_chunk i rows s).2.1 = is_table_ref i.
Proof.
  intros Hs. unfold run_import_chunk. destruct (bool_decide _); [done|].
  assert (tabs (conn' ← get_connection (is_conn_id i);
    on_db duckdb_sql_error (prepare conn' (insert_sql i)))) as Hk by tab.
  specialize (Hk s Hs). destruct ((conn' ← get_connection (is_conn_id i); _) s) as [s1 [stmt|e|]]; [|done..].
  cbn [fst snd] in *.
  pose proof (insert_rows_table stmt rows i {| chunk_inserted := 0; chunk_failed := [] |} (db s1)) as Hi.
  by destruct (insert_rows stmt rows i _ (db s1)) as [d [i' r]].
Qed.

Lemma tabs_fetch_page cursor requested s :
  tables_single s →
  tables_single (fetch_cursor_page cursor requested s).1 ∧
  cs_sql (fetch_cursor_page cursor requested s).2.1 = cs_sql cursor.
Proof.
  intros Hs. unfold fetch_cursor_page. destruct (cs_done cursor); [done|]. destruct (_ =? 0)%N; [done|].
  assert (∀ limit, tabs (conn' ← get_connection (cs_conn_id cursor);
    run_query_page conn' (cs_sql cursor) (cs_params cursor) limit (cs_next_row cursor))) as Hk by tab.
  specialize (Hk (cursor_fetch_limit cursor requested) s Hs).
  by destruct ((conn' ← get_connection (cs_conn_id cursor); _) s) as [s' []].
Qed.

Lemma tabs_cursor_bind {A} id e (f : CursorState → handler A) :
  (∀ cursor, one_statement false (cs_sql cursor) = true → tabs (f cursor)) →
  tabs (found ← on_client (remove_cursor id); cursor ← lift_outcome (of_option e found); f cursor).
Proof.
  intros Hf s Hs. rewrite on_client_bind. unfold remove_cursor at 1. cbn [snd]. rewrite lift_bind.
  assert (tables_single {| client := (remove_cursor id (client s)).1; db := db s |}) as Hs'
    by (apply (tabs_cursors_delete (remove_cursor id) id) in Hs; done).
  destruct (cursors (client s) !! id) as [cursor|] eqn:Hid; cbn [of_option]; [|done].
  apply Hf; [|done]. by eapply Hs.
Qed.

Lemma tabs_cursor_fetch params : tabs (handle_cursor_fetch params).
Proof.
  unfold handle_cursor_fetch. apply tabs_bind; [tab|]. intros p. apply tabs_cursor_bind.
  intros cursor Hcursor s Hs. rewrite total_bind.
  destruct (tabs_fetch_page cursor (cf_n p) s Hs) as [Hs' Hsql].
  destruct (fetch_cursor_page cursor (cf_n p) s) as [s' [cursor' r]]. cbn [fst snd] in *.
  revert s' Hs'. match goal with |- ∀ s, _ → tables_single (?m s).1 => change (tabs m) end.
  apply tabs_bind; [|tab]. apply (tabs_cursors_insert _ cursor'); [by rewrite Hsql|].
  intros c. by exists (cf_cursor_id p).
Qed.

Lemma tabs_parse_bind {A B} (H' : FromValue A) params (f : A → handler B) :
  (∀ p, parse_params H' params = Ok p → tabs (f p)) → tabs (lift_outcome (parse_params H' params) ≫= f).
Proof. intros Hf. apply tabs_bind_ok; [tab|]. intros s p. by destruct (parse_params H' params); intros [= <-]; apply Hf. Qed.

Lemma tabs_query_start params :
  (∀ p, parse_params query_start_params params = Ok p → no_semicolon (qs_sql p) = true) →
  tabs (handle_query_start params).
Proof.
  intros Hquiet. unfold handle_query_start. apply tabs_parse_bind. intros p Hp.
  apply tabs_bind; [tab|]. intros _. apply tabs_bind; [tab|]. intros conn'. apply tabs_bind_ok; [tab|].
  intros s [sql columns] Hsql. apply retry_no_semicolon in Hsql; [|by apply Hquiet].
  apply tabs_bind; [|tab]. eapply tabs_cursors_insert; [|intros c; by eexists].
  by apply one_statement_none.
Qed.

Lemma tabs_data_export params :
  (∀ p, parse_params export_params params = Ok p → export_quiet p) → tabs (handle_data_export params).
Proof.
  intros Hquiet. unfold handle_data_export. apply tabs_parse_bind. intros p Hp.
  apply tabs_bind; [tab|]. intros _. apply tabs_bind; [tab|]. intros conn'.
  unfold build_export_sql, current_duckdb_catalog_from_connection.
  apply tabs_bind_ok; [tab|]. intros s [sql columns] Hsql. apply tabs_bind; [tab|]. intros format.
  apply tabs_bind; [|tab]. eapply tabs_stream_insert; [|done]. cbn [es_sql new_stream].
  rewrite comp_bind_run in Hsql. destruct (current_database_name conn' _ s) as [s1 [catalog|e|]]; [|done..].
  cbn [fst snd] in Hsql. rewrite lift_bind in Hsql. destruct (validate_export_database _ _) as [[]|e|]; [|done..].
  rewrite lift_bind in Hsql. destruct (raw_export_sql p) as [raw_sql|e|] eqn:Hraw; [|done..].
  rewrite comp_bind_run in Hsql. destruct (prepare_query_columns conn' raw_sql [] s1) as [s2 [cols|e|]]; [|done..].
  cbn [fst snd] in Hsql. rewrite lift_bind in Hsql. destruct (selected_export_columns _ _) as [cols'|e|]; [|done..].
  injection Hsql as <- _. eapply projection_single, raw_export_single; [by apply Hquiet|exact Hraw].
Qed.

Lemma tabs_import_begin now params : tabs (handle_data_import_begin now params).
Proof.
  unfold handle_data_import_begin. apply tabs_bind; [tab|]. intros p. apply tabs_bind; [tab|]. intros _.
  apply tabs_bind_ok; [unfold start_import_tx, load_table_columns; destruct (non_blank (ib_schema p)); tab|].
  intros s [table_ref columns] Hstart. apply tabs_bind; [|tab].
  eapply tabs_imports_insert; [|intros c; by eexists]. exists (ib_schema p), (ib_table p). cbn [is_table_ref new_import].
  unfold start_import_tx in Hstart.
  repeat match type of Hstart with
  | ((?m ≫= _) ?s1).2 = _ => rewrite comp_bind_run in Hstart; destruct (m s1) as [? [?|?|]]; [|done..];
      cbn [fst snd] in Hstart
  end.
  by injection Hstart as <- _.
Qed.

Lemma tabs_import_chunk params : tabs (handle_data_import_chunk params).
Proof.
  unfold handle_data_import_chunk. apply tabs_bind; [tab|]. intros p. apply tabs_import_bind.
  intros i (schema & table & Hi) s Hs. rewrite total_bind.
  destruct (tabs_run_import_chunk i (ic_rows p) s Hs) as [Hs' Hi'].
  destruct (run_import_chunk i (ic_rows p) s) as [s' [i' r]]. cbn [fst snd] in *.
  revert s' Hs'. match goal with |- ∀ s, _ → tables_single (?m s).1 => change (tabs m) end.
  apply tabs_bind; [|tab]. apply (tabs_imports_insert _ i'); [|intros c; by exists (ic_import_id p)].
  exists schema, table. congruence.
Qed.
#[local] Hint Resolve tabs_remove_import : keeps.

Lemma tabs_ensure_stream id : tabs (ensure_stream_buffered id).
Proof.
  unfold ensure_stream_buffered. apply tabs_stream_bind. intros stream _. destruct (_ || _); [tab|].
  unfold fill_stream_buffer, stream_fetch_plan. intros s. rewrite comp_assoc. revert s.
  match goal with |- ∀ s, _ → tables_single (?m s).1 => change (tabs m) end.
  apply tabs_stream_bind. intros stream' _. apply tabs_bind; [tab|]. intros [[[conn_id' sql] offset] limit].
  apply tabs_bind; [tab|]. intros conn'. apply tabs_bind; [tab|]. intros rows. apply tabs_stream_bind.
  intros stream2 Hstream. destruct (render_export_rows _ _ _) as [format out].
  by apply (tabs_stream_insert _ id (stream_advance (length rows) limit
    (append_pending out (with_pending format (es_pending stream2) stream2)))).
Qed.

Lemma tabs_stream_read params : tabs (handle_stream_read params).
Proof.
  unfold handle_stream_read. apply tabs_bind; [tab|]. intros p. apply tabs_bind; [apply tabs_ensure_stream|].
  intros _. apply tabs_stream_bind. intros stream Hstream.
  destruct (drain_pending _ stream) as [stream' b] eqn:Hdrain.
  apply tabs_bind; [|tab]. apply (tabs_stream_insert _ (sr_stream_id p) stream'); [|done].
  unfold drain_pending in Hdrain. by injection Hdrain as <- _.
Qed.

(** ** The handlers that change nothing of the view *)

#[local] Hint Extern 1 (driver_sql _ = true) => reflexivity : driver_sql.
#[local] Hint Resolve driver_single_query page_single_query : driver_sql.

Section handlers.
Context (v : View) (Hone : one_connection v).

(** Calls that change nothing of the view while the tables hold texts of one statement. *)
Definition tkeeps {A} (m : handler A) : Prop :=
  ∀ s, view s = v → tables_single s → view (m s).1 = v.

Lemma tkeeps_keeps {A} (m : handler A) : keeps v m → tkeeps m.
Proof. intros Hm s Hs _. by apply Hm. Qed.

Lemma tkeeps_bind {A B} (m : handler A) (f : A → handler B) :
  tkeeps m → tabs m → (∀ a, tkeeps (f a)) → tkeeps (m ≫= f).
Proof.
  intros Hm Ht Hf s Hs Hs'. rewrite comp_bind_run. specialize (Hm s Hs Hs'). specialize (Ht s Hs').
  destruct (m s) as [s' []]; simpl in *; [by apply Hf|done|done].
Qed.

Lemma tkeeps_parse_bind {A B} (H' : FromValue A) params (f : A → handler B) :
  (∀ p, tkeeps (f p)) → tkeeps (lift_outcome (parse_params H' params) ≫= f).
Proof.
  intros Hf s Hs Ht. rewrite lift_bind. destruct (parse_params H' params) as [p|e|]; [by apply Hf|done..].
Qed.

Lemma tkeeps_cursor_bind {A} id e (f : CursorState → handler A) :
  (∀ cursor, one_statement false (cs_sql cursor) = true → tkeeps (f cursor)) →
  tkeeps (found ← on_client (remove_cursor id); cursor ← lift_outcome (of_option e found); f cursor).
Proof.
  intros Hf s Hs Ht. rewrite on_client_bind. unfold remove_cursor at 1. cbn [snd]. rewrite lift_bind.
  assert (tables_single {| client := (remove_cursor id (client s)).1; db := db s |}) as Ht'
    by (apply (tabs_cursors_delete (remove_cursor id) id) in Ht; done).
  destruct (cursors (client s) !! id) as [cursor|] eqn:Hid; cbn [of_option]; [|done].
  apply Hf; [|done|done]. by eapply Ht.
Qed.

Lemma tkeeps_stream_bind {A} id (f : ExportStreamState → handler A) :
  (∀ stream, one_statement false (es_sql stream) = true → tkeeps (f stream)) → tkeeps (get_stream id ≫= f).
Proof.
  intros Hf s Hs Ht. unfold get_stream. rewrite comp_assoc, gets_bind, lift_bind.
  destruct (streams (client s) !! id) as [stream|] eqn:Hid; [|done]. apply Hf; [|done|done]. by eapply Ht.
Qed.

Lemma keeps_run_statement sql params : single_query sql = true → keeps v (run_statement conn sql params).
Proof. intros. unfold run_statement. keep. Qed.

Lemma keeps_prepare_query_columns sql params :
  one_statement false sql = true → keeps v (prepare_query_columns conn sql params).
Proof.
  intros. unfold prepare_query_columns.
  apply keeps_bind; [by apply keeps_run_statement, page_single_query|]. keep.
Qed.

Lemma keeps_run_query_page sql params limit offset :
  one_statement false sql = true → keeps v (run_query_page conn sql params limit offset).
Proof.
  intros. unfold run_query_page.
  apply keeps_bind; [by apply keeps_run_statement, page_single_query|]. keep.
Qed.

Lemma keeps_query_one_string sql e :
  driver_sql sql = true → keeps v (query_one_string conn sql e).
Proof. intros. unfold query_one_string. keep. Qed.

Lemma keeps_current_database_name e : keeps v (current_database_name conn e).
Proof. by apply keeps_query_one_string. Qed.
#[local] Hint Resolve keeps_run_statement keeps_prepare_query_columns keeps_run_query_page
  keeps_query_one_string keeps_current_database_name : keeps.

Lemma keeps_current_duckdb_catalog session :
  session_connection session = Some conn → keeps v (current_duckdb_catalog session).
Proof.
  intros Hs. unfold current_duckdb_catalog, connection. rewrite Hs. cbn [of_option].
  intros s Hv. rewrite lift_bind. by apply keeps_current_database_name.
Qed.
#[local] Hint Resolve keeps_current_duckdb_catalog : keeps.

Lemma keeps_rewrite sql : keeps v (rewrite_current_catalog_system_table_references conn sql).
Proof.
  unfold rewrite_current_catalog_system_table_references, current_duckdb_catalog_from_connection.
  apply keeps_bind; [auto with keeps|]. intros catalog. destruct (negb _); [keep|].
  apply keeps_bind; [by apply keeps_run_statement|]. keep.
Qed.

Lemma keeps_rewrite_bind {A} e sql (f : text → handler A) :
  no_semicolon sql = true → (∀ t, no_semicolon t = true → keeps v (f t)) →
  keeps v (map_err_comp e (rewrite_current_catalog_system_table_references conn sql) ≫= f).
Proof.
  intros Hsql Hf s Hs. pose proof (keeps_rewrite sql s Hs) as Hk.
  pose proof (rewrite_no_semicolon conn sql s) as Hn. rewrite comp_bind_run. unfold map_err_comp.
  destruct (rewrite_current_catalog_system_table_references conn sql s) as [s1 [t|err|]]; [|done..].
  cbn [fst snd] in *. by apply Hf; [apply Hn|].
Qed.

Lemma keeps_retry sql params :
  no_semicolon sql = true → keeps v (prepare_query_columns_with_catalog_retry conn sql params).
Proof.
  intros Hsql. unfold prepare_query_columns_with_catalog_retry. apply keeps_bind.
  { by apply keeps_attempt, keeps_prepare_query_columns, one_statement_none. }
  intros [e|columns]; [|keep]. apply keeps_rewrite_bind; [done|]. intros t Ht.
  destruct (bool_decide _); [keep|]. apply keeps_bind; [|keep].
  by apply keeps_map_err, keeps_prepare_query_columns, one_statement_none.
Qed.

Lemma keeps_validate_tx id tx : keeps v (validate_tx_for_conn id tx).
Proof. by intros s. Qed.
#[local] Hint Resolve keeps_validate_tx : keeps.

Lemma keeps_conn_ping latency params : keeps v (handle_conn_ping latency params).
Proof. unfold handle_conn_ping. keep. Qed.
Lemma keeps_conn_use params : keeps v (handle_conn_use params).
Proof. unfold handle_conn_use. keep. Qed.
(** A call after its parameters are parsed. *)
Lemma keeps_parse_bind {A B} (H' : FromValue A) params (f : A → handler B) :
  (∀ p, parse_params H' params = Ok p → keeps v (f p)) →
  keeps v (lift_outcome (parse_params H' params) ≫= f).
Proof.
  intros Hf s Hs. rewrite lift_bind. destruct (parse_params H' params) as [p|e|]; [by apply Hf|done..].
Qed.

Lemma keeps_query_start params :
  (∀ p, parse_params query_start_params params = Ok p → no_semicolon (qs_sql p) = true) →
  keeps v (handle_query_start params).
Proof.
  intros Hquiet. unfold handle_query_start. apply keeps_parse_bind. intros p Hp.
  apply keeps_bind; [auto with keeps|]. intros _. apply keeps_conn_bind; [done|].
  apply keeps_bind; [by apply keeps_retry, Hquiet|]. keep.
Qed.

Lemma keeps_fetch_page cursor requested :
  one_statement false (cs_sql cursor) = true →
  keeps v (total (fetch_cursor_page cursor requested)).
Proof.
  intros Hcursor s Hv. unfold total, fetch_cursor_page. cbn [fst].
  destruct (cs_done cursor); [done|]. destruct (_ =? 0)%N; [done|].
  assert (∀ limit, keeps v (conn ← get_connection (cs_conn_id cursor);
    run_query_page conn (cs_sql cursor) (cs_params cursor) limit (cs_next_row cursor))) as Hk
    by (intros limit; apply keeps_conn_bind; [done|]; by apply keeps_run_query_page).
  specialize (Hk (cursor_fetch_limit cursor requested) s Hv).
  destruct ((conn ← get_connection (cs_conn_id cursor); _) s) as [s' []]; done.
Qed.
Lemma keeps_cursor_fetch params : tkeeps (handle_cursor_fetch params).
Proof.
  unfold handle_cursor_fetch. apply tkeeps_parse_bind. intros p. apply tkeeps_cursor_bind.
  intros cursor Hcursor. apply tkeeps_keeps, keeps_bind; [by apply keeps_fetch_page|keep].
Qed.
Lemma keeps_cursor_close params : keeps v (handle_cursor_close params).
Proof. unfold handle_cursor_close. keep. Qed.
Lemma keeps_cursor_cancel params : keeps v (handle_cursor_cancel params).
Proof. unfold handle_cursor_cancel. keep. Qed.

Lemma keeps_build_export_sql p :
  export_quiet p → keeps v (build_export_sql conn p).
Proof.
  intros Hquiet. unfold build_export_sql, current_duckdb_catalog_from_connection.
  apply keeps_bind; [auto with keeps|]. intros catalog. apply keeps_bind; [keep|]. intros _.
  intros s Hs. rewrite lift_bind. destruct (raw_export_sql p) as [raw_sql|e|] eqn:Hraw; [|done..].
  revert s Hs. match goal with |- ∀ s, _ → view (?m s).1 = v => change (keeps v m) end.
  apply keeps_bind; [by apply keeps_prepare_query_columns, (raw_export_single p)|]. keep.
Qed.

Lemma keeps_data_export params :
  (∀ p, parse_params export_params params = Ok p → export_quiet p) →
  keeps v (handle_data_export params).
Proof.
  intros Hquiet. unfold handle_data_export. apply keeps_parse_bind. intros p Hp.
  apply keeps_bind; [keep|]. intros _. apply keeps_conn_bind; [done|].
  apply keeps_bind; [by apply keeps_build_export_sql, Hquiet|keep].
Qed.

Lemma keeps_fill_stream id : tkeeps (fill_stream_buffer id).
Proof.
  unfold fill_stream_buffer, stream_fetch_plan.
  intros s Hs Ht. rewrite comp_assoc. revert s Hs Ht.
  match goal with |- ∀ s, _ → _ → view (?m s).1 = v => change (tkeeps m) end.
  apply tkeeps_stream_bind. intros stream Hstream. apply tkeeps_keeps.
  match goal with |- keeps v (mret ?x ≫= ?f) => change (keeps v (f x)) end. cbn beta iota.
  apply keeps_conn_bind; [done|]. apply keeps_bind; [by apply keeps_run_query_page|].
  unfold get_stream. keep.
Qed.

Lemma keeps_stream_read params : tkeeps (handle_stream_read params).
Proof.
  unfold handle_stream_read. apply tkeeps_parse_bind. intros p. apply tkeeps_bind.
  - unfold ensure_stream_buffered. apply tkeeps_stream_bind. intros stream _.
    destruct (_ || _); [apply tkeeps_keeps; keep|apply keeps_fill_stream].
  - apply tabs_ensure_stream.
  - intros _. apply tkeeps_keeps. unfold get_stream. keep.
Qed.
Lemma keeps_stream_close params : keeps v (handle_stream_close params).
Proof. unfold handle_stream_close. keep. Qed.

(** *** Schema queries *)

Lemma keeps_query_infos {A} code (q : query_parts) (decode : list (option ValueRef) → text + A) :
  driver_sql q.1 = true → keeps v (query_infos conn code q decode).
Proof. intros. unfold query_infos. keep. Qed.

Lemma catalog_of_conn session s a :
  session_connection session = Some conn →
  ((conn' ← lift_outcome (connection NOT_INITIALIZED session);
    current_catalog ← current_duckdb_catalog session;
    mret (conn', current_catalog) : handler (Conn * text)) s).2 = Ok a → a.1 = conn.
Proof.
  intros Hsession. rewrite lift_bind. unfold connection. rewrite Hsession. cbn [of_option].
  rewrite comp_bind_run. destruct (current_duckdb_catalog session s) as [s' [t|e|]]; [|done..].
  by intros [= <-].
Qed.

Lemma keeps_catalog_bind {A} id (f : Conn * text → handler A) :
  (∀ catalog, keeps v (f (conn, catalog))) → keeps v (catalog_of id ≫= f).
Proof.
  intros Hf s Hs. rewrite comp_bind_run. unfold catalog_of. rewrite (comp_bind_run (get_session id)).
  destruct (get_session_run v Hone id s Hs) as (session & Hconn & ->). cbn [fst snd].
  destruct (decide _); [|done].
  pose proof (catalog_of_conn session s) as Ha.
  assert (keeps v (conn' ← lift_outcome (connection NOT_INITIALIZED session);
    current_catalog ← current_duckdb_catalog session;
    mret (conn', current_catalog) : handler (Conn * text))) as Hk by keep.
  specialize (Hk s Hs).
  destruct ((conn' ← lift_outcome (connection NOT_INITIALIZED session); _) s) as [s' [[c catalog]|err|]];
    cbn [fst snd] in *; [|done..].
  specialize (Ha _ Hconn eq_refl). cbn in Ha. subst c. by apply Hf.
Qed.

Lemma keeps_infos {A} code (q : query_parts) (decode : list (option ValueRef) → text + A) :
  driver_sql q.1 = true → keeps v (query_infos conn code q decode).
Proof. apply keeps_query_infos. Qed.
#[local] Hint Extern 2 (keeps _ (query_infos _ _ _ _)) =>
  apply keeps_query_infos; auto with driver_sql : keeps.

Lemma keeps_schema_databases params : keeps v (handle_schema_databases params).
Proof. unfold handle_schema_databases. keep. Qed.
Lemma keeps_schema_schemas params : keeps v (handle_schema_schemas params).
Proof. unfold handle_schema_schemas. keep. Qed.
Ltac catalog :=
  match goal with
  | |- keeps _ (catalog_of _ ≫= _) => apply keeps_catalog_bind; intros ?; cbn beta iota; keep
  | |- keeps _ (_ ≫= _) => apply keeps_bind; [keep|intros ?; catalog]
  end.
Lemma keeps_schema_objects params : keeps v (handle_schema_objects params).
Proof. unfold handle_schema_objects. catalog. Qed.
Lemma keeps_schema_columns params : keeps v (handle_schema_columns params).
Proof. unfold handle_schema_columns. catalog. Qed.
Lemma keeps_schema_views params : keeps v (handle_schema_views params).
Proof. unfold handle_schema_views. catalog. Qed.
Lemma keeps_schema_indexes params : keeps v (handle_schema_indexes params).
Proof. unfold handle_schema_indexes. catalog. Qed.
Lemma keeps_schema_checks params : keeps v (handle_schema_checks params).
Proof. unfold handle_schema_checks. keep. Qed.
Lemma keeps_schema_functions params : keeps v (handle_schema_functions params).
Proof. unfold handle_schema_functions. keep. Qed.
#[local] Hint Resolve keeps_schema_databases keeps_schema_schemas keeps_schema_objects
  keeps_schema_columns keeps_schema_views keeps_schema_indexes keeps_schema_functions : keeps.

Lemma keeps_schema_object_view params : keeps v (handle_schema_object_view params).
Proof.
  unfold handle_schema_object_view, object_view_from_objects, databases_view, schemas_view,
    views_view, columns_view, indexes_view, functions_view, rows_from. keep.
Qed.

(** *** Statements of the host *)

Lemma keeps_exec_run params :
  (∀ p, parse_params exec_run_params params = Ok p → no_control (er_sql p) = true) →
  keeps v (handle_exec_run params).
Proof.
  intros Hquiet. unfold handle_exec_run. intros s Hs. rewrite lift_bind.
  destruct (parse_params exec_run_params params) as [p|e|]; [|done..]. revert s Hs.
  specialize (Hquiet p eq_refl).
  change (keeps v (_ ← validate_tx_for_conn (er_conn_id p) (er_tx_id p);
    conn ← get_connection (er_conn_id p);
    values ← lift_outcome (duckdb_params (er_params p));
    affected ← on_db duckdb_sql_error (DuckServer.execute conn (er_sql p) values);
    mret (Object [(lit "affected_rows", Number (PosInt affected)); (lit "warnings", Array [])]))).
  apply keeps_bind; [auto with keeps|]. intros _. apply keeps_conn_bind; [done|].
  apply keeps_bind; [keep|]. intros values. apply keeps_bind; [by apply keeps_execute|keep].
Qed.

Lemma keeps_exec_statements index statements stop acc :
  Forall (λ sql, no_control sql = true) statements →
  keeps v (exec_batch_from conn index statements stop acc).
Proof.
  intros Hall. revert index acc. induction Hall as [|sql rest Hsql _ IH]; intros index acc.
  - apply keeps_ret.
  - cbn [exec_batch_from]. apply keeps_bind.
    + apply keeps_attempt. unfold exec_statement. apply keeps_bind; [by apply keeps_execute|keep].
    + intros []; [destruct stop; [keep|]|]; apply IH.
Qed.
End handlers.

(** The view with a transaction, or without. *)
Definition set_in_tx (b : bool) (v : View) : View :=
  {| v_conns := v_conns v; v_txs := v_txs v; v_active := v_active v; v_imports := v_imports v;
     v_in_tx := b |}.

Lemma set_in_tx_same b v : v_in_tx v = b → set_in_tx b v = v.
Proof. destruct v; simpl. by intros ->. Qed.

Lemma tx_control_run command s :
  exec_tx_control conn command s =
    ({| client := client s; db := (DuckServer.execute conn command [] (db s)).1 |},
     match (DuckServer.execute conn command [] (db s)).2 with
     | inl e => Err (protocol_error_from_anyhow TX_ROLLBACK_REQUIRED [e])
     | inr _ => Ok ()
     end).
Proof.
  unfold exec_tx_control. rewrite on_db_bind.
  by destruct (DuckServer.execute conn command [] (db s)) as [d []].
Qed.

(** BEGIN opens a transaction if there is none. *)
Lemma begin_run command s :
  command = lit "BEGIN" ∨ command = lit "BEGIN TRANSACTION" →
  (∃ e, (exec_tx_control conn command s).2 = Err e ∧ view (exec_tx_control conn command s).1 = view s) ∨
  ((exec_tx_control conn command s).2 = Ok () ∧ v_in_tx (view s) = false ∧
   view (exec_tx_control conn command s).1 = set_in_tx true (view s)).
Proof.
  intros Hcommand. rewrite tx_control_run. unfold view at 1 3. cbn [fst snd client db].
  destruct (in_tx conn (db s)) eqn:Htx.
  - destruct (begin_in_tx conn command (db s) Hcommand Htx) as [Hafter [e He]].
    left. rewrite He. eexists. split; [done|]. unfold view. by rewrite Hafter, Htx.
  - pose proof (begin_tx_law conn command (db s) Hcommand Htx) as Hafter.
    destruct (DuckServer.execute conn command [] (db s)).2 as [e|n].
    + left. eexists. split; [done|]. unfold view. by rewrite Hafter, Htx.
    + right. split_and!; [done|done|]. unfold view, set_in_tx. cbn. by rewrite Hafter.
Qed.

(** COMMIT and ROLLBACK leave none. *)
Lemma end_run command s :
  command = lit "COMMIT" ∨ command = lit "ROLLBACK" →
  view (exec_tx_control conn command s).1 = set_in_tx false (view s) ∧
  (exec_tx_control conn command s).2 ≠ Panic ∧
  (v_in_tx (view s) = false → ∃ e, (exec_tx_control conn command s).2 = Err e).
Proof.
  intros Hcommand. rewrite tx_control_run. cbn [fst snd]. split_and!.
  - unfold view, set_in_tx. cbn. by rewrite end_tx_law.
  - by destruct (DuckServer.execute conn command [] (db s)).2.
  - intros Hno. destruct (end_no_tx conn command (db s) Hcommand Hno) as [e ->]. by eexists.
Qed.

Lemma set_in_tx_one b v : one_connection v → one_connection (set_in_tx b v).
Proof. done. Qed.

(** The statements of a batch always give a result. *)
Lemma run_exec_batch_ok index statements stop acc s :
  ∃ result, (exec_batch_from conn index statements stop acc s).2 = Ok result.
Proof.
  revert index acc s. induction statements as [|sql rest IH]; intros index acc s; [by eexists|].
  cbn [exec_batch_from]. rewrite comp_bind_run. unfold attempt, exec_statement. rewrite on_db_bind.
  destruct (DuckServer.execute conn sql [] (db s)) as [d [e|n]]; cbn [fst snd]; [|apply IH].
  destruct stop; [by eexists|apply IH].
Qed.

Lemma keeps_exec_batch v params :
  one_connection v →
  (∀ p, parse_params exec_batch_params params = Ok p →
    Forall (λ sql, no_control sql = true) (eb_statements p)) →
  keeps v (handle_exec_batch params).
Proof.
  intros Hone Hquiet. unfold handle_exec_batch. intros s Hs. rewrite lift_bind.
  destruct (parse_params exec_batch_params params) as [p|e|]; [|done..].
  specialize (Hquiet p eq_refl). revert s Hs.
  match goal with |- ∀ s, _ → view (?m s).1 = v => change (keeps v m) end.
  apply keeps_conn_bind; [done|]. destruct (eb_in_transaction p).
  2: { apply keeps_bind; [keep|]. intros _. apply keeps_bind; [by apply keeps_exec_statements|keep]. }
  intros s Hs. rewrite comp_bind_run.
  destruct (begin_run (lit "BEGIN") s ltac:(by left)) as [(e & -> & Hv)|(-> & Hno & Hv)];
    [cbn [fst]; by rewrite Hv|].
  rewrite Hs in Hv, Hno. rewrite comp_bind_run. unfold run_exec_batch at 1 2.
  pose proof (keeps_exec_statements (set_in_tx true v) 0 (eb_statements p) (eb_stop_on_error p)
    {| results := []; errors := [] |} Hquiet _ Hv) as Hrun.
  destruct (run_exec_batch_ok 0 (eb_statements p) (eb_stop_on_error p)
    {| results := []; errors := [] |} (exec_tx_control conn (lit "BEGIN") s).1) as [result Hresult].
  rewrite Hresult. rewrite comp_bind_run.
  set (command := if bool_decide _ then lit "COMMIT" else lit "ROLLBACK").
  set (s1 := (exec_batch_from _ _ _ _ _ _).1) in *.
  destruct (end_run command s1) as (Hend & _); [unfold command; case_bool_decide; [by left|by right]|].
  rewrite Hrun in Hend. assert (view (exec_tx_control conn command s1).1 = v) as Hv'.
  { rewrite Hend. destruct v; cbn in *. by rewrite Hno. }
  by destruct (exec_tx_control conn command s1).2.
Qed.

(** ** Requests *)

(** A request whose own SQL is quiet: statements to execute without transaction control, and
    queries and conditions without a semicolon that could end the driver's statement around
    them. *)
Definition quiet (m : Method) (params : Value) : Prop :=
  match m with
  | QUERY_START => ∀ p, parse_params query_start_params params = Ok p → no_semicolon (qs_sql p) = true
  | DATA_EXPORT => ∀ p, parse_params export_params params = Ok p → export_quiet p
  | EXEC_RUN => ∀ p, parse_params exec_run_params params = Ok p → no_control (er_sql p) = true
  | EXEC_BATCH => ∀ p, parse_params exec_batch_params params = Ok p →
      Forall (λ sql, no_control sql = true) (eb_statements p)
  | _ => True
  end.

(** The requests that begin and end transactions, or hold an import. *)
Definition changes_phase (m : Method) : bool :=
  match m with
  | TX_BEGIN | TX_COMMIT | TX_ROLLBACK | DATA_IMPORT_BEGIN | DATA_IMPORT_CHUNK
  | DATA_IMPORT_COMMIT | DATA_IMPORT_ABORT => true
  | _ => false
  end.

Lemma keeps_call v now latency m params :
  one_connection v → changes_phase m = false → quiet m params →
  tkeeps v (call now latency m params).
Proof.
  intros Hone Hm Hquiet. destruct m; try discriminate Hm; cbn [call quiet] in *;
    first [by apply keeps_cursor_fetch | by apply keeps_stream_read | apply tkeeps_keeps];
    solve [keep | by apply keeps_conn_ping | by apply keeps_conn_use | by apply keeps_query_start
      | by apply keeps_cursor_close | by apply keeps_cursor_cancel
      | by apply keeps_exec_run | by apply keeps_exec_batch | by apply keeps_data_export
      | by apply keeps_stream_close | by apply keeps_schema_object_view
      | by apply keeps_schema_databases | by apply keeps_schema_schemas | by apply keeps_schema_objects
      | by apply keeps_schema_columns | by apply keeps_schema_views | by apply keeps_schema_indexes
      | by apply keeps_schema_checks | by apply keeps_schema_functions].
Qed.

Lemma tabs_cursor_close params : tabs (handle_cursor_close params).
Proof.
  unfold handle_cursor_close. apply tabs_bind; [tab|]. intros id. apply tabs_bind; [|tab].
  by apply (tabs_cursors_delete _ id).
Qed.
Lemma tabs_cursor_cancel params : tabs (handle_cursor_cancel params).
Proof.
  unfold handle_cursor_cancel. apply tabs_bind; [tab|]. intros id s Hs. rewrite gets_bind, lift_bind.
  destruct (cursors (client s) !! id) as [cursor|] eqn:Hid; cbn [of_option]; [|done]. revert Hs.
  assert (one_statement false (cs_sql cursor) = true ∨ ¬ tables_single s) as [Hcursor|Hno].
  { destruct (one_statement false (cs_sql cursor)) eqn:Hc; [by left|right]. intros [Hs _].
    apply Hs in Hid. congruence. }
  2: done.
  revert s Hid. intros s _. revert s.
  match goal with |- ∀ s, _ → tables_single (?m s).1 => change (tabs m) end.
  apply tabs_bind; [|tab]. apply (tabs_cursors_insert _ (cancel cursor)); [done|].
  intros c. by exists id.
Qed.
Lemma tabs_stream_close params : tabs (handle_stream_close params).
Proof.
  unfold handle_stream_close. apply tabs_bind; [tab|]. intros id. apply tabs_bind; [|tab].
  intros s (Hc & Hs & Hi). split; [done|]. split; [|done]. by apply map_Forall_delete.
Qed.

Lemma tabs_client_begin id : tabs (on_client (begin_tx id)).
Proof. apply tabs_client_same. intros c. unfold begin_tx. by destruct (active_tx_by_conn c !! id). Qed.
Lemma tabs_client_close_tx id : tabs (on_client (close_tx id)).
Proof. apply tabs_client_same. intros c. unfold close_tx. by destruct (txs c !! id). Qed.
#[local] Hint Resolve tabs_client_begin tabs_client_close_tx : keeps.

Lemma tabs_call now latency m params : quiet m params → tabs (call now latency m params).
Proof.
  intros Hquiet. destruct m; cbn [call quiet] in *;
    first [by apply tabs_query_start | by apply tabs_cursor_fetch | by apply tabs_cursor_close
      | by apply tabs_cursor_cancel | by apply tabs_data_export | by apply tabs_stream_read
      | by apply tabs_stream_close | by apply tabs_import_begin | by apply tabs_import_chunk
      | solve [tab]].
Qed.

(** ** The phase of a state *)

Definition in_phase_view (ph : phase) (v : View) : Prop :=
  one_connection v ∧
  match ph with
  | Idle => v_txs v = ∅ ∧ v_active v = ∅ ∧ v_imports v = ∅ ∧ v_in_tx v = false
  | InTx tx => v_txs v = {[tx := conn_id]} ∧ v_active v = {[conn_id := tx]} ∧ v_imports v = ∅
  | Importing id =>
      v_txs v = ∅ ∧ v_active v = ∅ ∧ v_in_tx v = true ∧
      ∃ i, v_imports v = {[id := i]} ∧ is_conn_id i = conn_id
  end.
Definition in_phase (ph : phase) (s : Duck) : Prop := in_phase_view ph (view s).

Lemma get_connection_run id s :
  one_connection (view s) →
  get_connection id s = (s, if decide (id = conn_id) then Ok conn else Err (unknown_conn id)).
Proof.
  intros Hone. unfold get_connection. rewrite comp_bind_run.
  destruct (get_session_run (view s) Hone id s eq_refl) as (session & Hconn & ->). cbn [fst snd].
  destruct (decide _); [|done]. unfold connection. by rewrite Hconn.
Qed.

Lemma in_phase_one ph s : in_phase ph s → one_connection (view s).
Proof. by intros []. Qed.

(** A call that leaves the view alone stays in its phase. *)
Lemma stays m ph s s' : in_phase ph s → view s' = view s → ∃ ph', moves m ph ph' ∧ in_phase ph' s'.
Proof. intros Hs Hv. exists ph. split; [constructor|]. unfold in_phase. by rewrite Hv. Qed.

Lemma tx_begin_moves ph params s :
  in_phase ph s → ∃ ph', moves TX_BEGIN ph ph' ∧ in_phase ph' (handle_tx_begin params s).1.
Proof.
  intros Hs. unfold handle_tx_begin. rewrite lift_bind.
  destruct (parse_params tx_begin_params params) as [p|e|]; [|by apply (stays _ _ s)..].
  rewrite lift_bind. destruct (validate_tx_begin_options p) as [u|e|]; [|by apply (stays _ _ s)..].
  rewrite gets_bind, lift_bind.
  destruct (has_active_tx (tb_conn_id p) (client s)) eqn:Hactive; [by apply (stays _ _ s)|].
  cbn [negb ensure]. rewrite comp_bind_run, get_connection_run by by eapply in_phase_one. cbn [fst snd].
  destruct (decide (tb_conn_id p = conn_id)) as [Heq|]; [|by apply (stays _ _ s)].
  rewrite comp_bind_run.
  destruct (begin_run (lit "BEGIN TRANSACTION") s ltac:(by right)) as [(e & -> & Hv)|(-> & Hno & Hv)].
  { by apply (stays _ _ s). }
  destruct Hs as [Hone Hph]. destruct ph as [|tx|id].
  - destruct Hph as (Htxs & Hact & Himports & _).
    rewrite comp_bind_run. unfold on_client. cbn [fst snd].
    set (s1 := (exec_tx_control conn _ s).1) in *.
    assert (active_tx_by_conn (client s1) = ∅) as Hact1 by (by rewrite <-Hact; change (v_active (view s1) = v_active (view s)); rewrite Hv).
    assert (txs (client s1) = ∅) as Htxs1 by (by rewrite <-Htxs; change (v_txs (view s1) = v_txs (view s)); rewrite Hv).
    unfold begin_tx. rewrite Hact1, lookup_empty, Htxs1. cbn [fst snd of_option]. rewrite lift_bind.
    eexists. split; [apply moves_begin|]. rewrite Heq. split.
    + cbn [fst lift_outcome view client v_conns conns]. destruct Hone as (session & Hc & Hsession).
      exists session. split; [|done]. rewrite <-Hc. change (v_conns (view s1) = v_conns (view s)). by rewrite Hv.
    + cbn. split_and!; [done|done|]. change (v_imports (view s1) = ∅). by rewrite Hv.
  - destruct Hph as (_ & Hact & _). unfold has_active_tx in Hactive. rewrite Heq in Hactive.
    change (active_tx_by_conn (client s)) with (v_active (view s)) in Hactive.
    rewrite Hact, lookup_singleton_eq in Hactive. done.
  - destruct Hph as (_ & _ & Htx & _). congruence.
Qed.

(** The end of a wire transaction. *)
Lemma end_tx_moves m tx s command :
  in_phase (InTx tx) s → command = lit "COMMIT" ∨ command = lit "ROLLBACK" →
  m = TX_COMMIT ∨ m = TX_ROLLBACK →
  ∃ ph', moves m (InTx tx) ph' ∧ in_phase ph' (end_tx tx conn_id command s).1.
Proof.
  intros Hs Hcommand Hm. unfold end_tx.
  rewrite comp_bind_run, get_connection_run by by eapply in_phase_one. cbn [fst snd].
  rewrite decide_True by done. rewrite comp_bind_run. destruct (end_run command s Hcommand) as (Hv & Hp & _).
  set (s1 := (exec_tx_control conn command s).1) in *. destruct Hs as (Hone & Htxs & Hact & Himports).
  destruct (exec_tx_control conn command s).2 as [u|e|]; cbn [fst]; [| |done].
  - exists Idle. split; [destruct Hm as [->| ->]; constructor|]. rewrite comp_bind_run.
    unfold on_client. cbn [fst snd mret comp_ret]. unfold close_tx.
    change (txs (client s1)) with (v_txs (view s1)). rewrite Hv. cbn [v_txs set_in_tx].
    rewrite Htxs, lookup_singleton_eq. change (active_tx_by_conn (client s1)) with (v_active (view s1)).
    rewrite Hv. cbn [v_active set_in_tx]. rewrite Hact, lookup_singleton_eq, bool_decide_true by done.
    unfold in_phase, view, set_txs. cbn [fst client db conns txs active_tx_by_conn imports].
    split; [|split_and!].
    + destruct Hone as (session & Hc & Hsession). exists session. split; [|done]. rewrite <-Hc.
      change (v_conns (view s1) = v_conns (view s)). by rewrite Hv.
    + apply delete_singleton_eq.
    + apply delete_singleton_eq.
    + change (v_imports (view s1) = ∅). by rewrite Hv.
    + change (v_in_tx (view s1) = false). by rewrite Hv.
  - exists (InTx tx). split; [constructor|]. unfold in_phase. by rewrite Hv.
Qed.

(** Which transactions are known in a phase. *)
Lemma tx_conn_phase ph s tx :
  in_phase ph s → tx_conn tx (client s) = if decide (ph = InTx tx) then Some conn_id else None.
Proof.
  intros (_ & Hph). unfold tx_conn. change (txs (client s)) with (v_txs (view s)).
  destruct ph as [|tx'|id]; destruct Hph as (-> & _);
    [by rewrite lookup_empty, decide_False| |by rewrite lookup_empty, decide_False].
  destruct (decide (tx = tx')) as [->|Hne].
  - by rewrite lookup_singleton_eq, decide_True.
  - rewrite lookup_singleton_ne, decide_False by congruence. done.
Qed.

Lemma tx_commit_moves ph params s :
  in_phase ph s → ∃ ph', moves TX_COMMIT ph ph' ∧ in_phase ph' (handle_tx_commit params s).1.
Proof.
  intros Hs. unfold handle_tx_commit. rewrite lift_bind.
  destruct (parse_params tx_commit_params params) as [tx|e|]; [|by apply (stays _ _ s)..].
  rewrite gets_bind, lift_bind, (tx_conn_phase ph s tx Hs).
  destruct (decide (ph = InTx tx)) as [->|]; cbn [of_option]; [|by apply (stays _ _ s)].
  apply end_tx_moves; [done|by left|by left].
Qed.

Lemma tx_rollback_moves ph params s :
  in_phase ph s → ∃ ph', moves TX_ROLLBACK ph ph' ∧ in_phase ph' (handle_tx_rollback params s).1.
Proof.
  intros Hs. unfold handle_tx_rollback. rewrite lift_bind.
  destruct (parse_params tx_rollback_params params) as [p|e|]; [|by apply (stays _ _ s)..].
  rewrite gets_bind, lift_bind, (tx_conn_phase ph s (tr_tx_id p) Hs).
  destruct (decide (ph = InTx (tr_tx_id p))) as [->|]; cbn [of_option]; [|by apply (stays _ _ s)].
  rewrite lift_bind. destruct (bool_decide _); cbn [ensure]; [|by apply (stays _ _ s)].
  apply end_tx_moves; [done|by right|by right].
Qed.

(** *** Imports *)

Lemma keeps_load_table_columns v schema table :
  one_connection v → keeps v (load_table_columns conn schema table).
Proof.
  intros Hone. unfold load_table_columns. destruct (non_blank schema); keep.
Qed.

Lemma start_import_run p s :
  one_connection (view s) →
  (view (start_import_tx p s).1 = view s ∧ ∀ a, (start_import_tx p s).2 ≠ Ok a) ∨
  (∃ a, (start_import_tx p s).2 = Ok a ∧ ib_conn_id p = conn_id ∧ v_in_tx (view s) = false ∧
    view (start_import_tx p s).1 = set_in_tx true (view s)).
Proof.
  intros Hone. unfold start_import_tx. rewrite comp_bind_run, get_connection_run by done.
  cbn [fst snd]. destruct (decide (ib_conn_id p = conn_id)) as [Heq|]; [|by left].
  rewrite comp_bind_run.
  pose proof (keeps_load_table_columns (view s) (ib_schema p) (ib_table p) Hone s eq_refl) as Hload.
  destruct (load_table_columns conn (ib_schema p) (ib_table p) s) as [s1 [columns|e|]];
    cbn [fst snd] in *; [|by left..].
  rewrite lift_bind. destruct (selected_import_columns columns (ib_columns p)) as [columns'|e|]; [|by left..].
  rewrite comp_bind_run.
  destruct (begin_run (lit "BEGIN TRANSACTION") s1 ltac:(by right)) as [(e & -> & Hv)|(-> & Hno & Hv)].
  - left. cbn [fst snd]. by rewrite Hv.
  - right. eexists. cbn [fst snd mret comp_ret]. split_and!; [done|done| |]; [by rewrite <-Hload|].
    by rewrite Hv, Hload.
Qed.

Lemma validate_begin_active p s u :
  has_active_tx (ib_conn_id p) (client s) = true → (validate_begin_params p s).2 ≠ Ok u.
Proof.
  intros Hactive. unfold validate_begin_params. rewrite Hactive. cbn [snd].
  repeat match goal with
  | |- (ensure (negb true) _ ≫= _) ≠ _ => discriminate
  | |- (?r ≫= _) ≠ _ => destruct r as [[]|?|]; cbn [mbind outcome_bind]; [|discriminate..]
  end.
Qed.

Lemma import_begin_moves ph now params s :
  in_phase ph s →
  ∃ ph', moves DATA_IMPORT_BEGIN ph ph' ∧ in_phase ph' (handle_data_import_begin now params s).1.
Proof.
  intros Hs. unfold handle_data_import_begin. rewrite lift_bind.
  destruct (parse_params import_begin_params params) as [p|e|]; [|by apply (stays _ _ s)..].
  rewrite comp_bind_run. pose proof (validate_begin_active p s) as Hactive.
  assert ((validate_begin_params p s).1 = s) as -> by done.
  destruct (validate_begin_params p s).2 as [u|e|]; [|by apply (stays _ _ s)..].
  rewrite comp_bind_run.
  destruct (start_import_run p s (in_phase_one _ _ Hs)) as [[Hv Hr]|(a & -> & Heq & Hno & Hv)].
  { destruct (start_import_tx p s).2; [by edestruct Hr|by apply (stays _ _ s)..]. }
  set (s1 := (start_import_tx p s).1) in *. destruct a as [table_ref columns]. cbn [fst snd].
  destruct Hs as [(session & Hc & Hsession) Hph]. destruct ph as [|tx|id].
  - destruct Hph as (Htxs & Hact & Himports & _). rewrite comp_bind_run. unfold on_client. cbn [fst snd].
    eexists. split; [apply moves_import_begin|]. unfold lift_outcome. cbn [fst].
    unfold in_phase, view, open_import. cbn [fst client db conns txs active_tx_by_conn imports].
    split; [|split_and!].
    + exists session. split; [|done]. rewrite <-Hc. change (v_conns (view s1) = v_conns (view s)). by rewrite Hv.
    + change (v_txs (view s1) = ∅). by rewrite Hv.
    + change (v_active (view s1) = ∅). by rewrite Hv.
    + change (v_in_tx (view s1) = true). by rewrite Hv.
    + eexists. cbn [v_imports]. change (imports (client s1)) with (v_imports (view s1)).
      rewrite Hv. cbn [v_imports set_in_tx]. rewrite Himports. split; [by rewrite insert_empty|exact Heq].
  - destruct Hph as (_ & Hact & _). destruct (Hactive u); [|done]. unfold has_active_tx.
    change (active_tx_by_conn (client s)) with (v_active (view s)).
    by rewrite Heq, Hact, lookup_singleton_eq.
  - destruct Hph as (_ & _ & Htx & _). congruence.
Qed.

(** The imports that are known in a phase. *)
Lemma imports_phase ph s id i :
  in_phase ph s → imports (client s) !! id = Some i →
  ph = Importing id ∧ imports (client s) = {[id := i]} ∧ is_conn_id i = conn_id.
Proof.
  intros (_ & Hph) Hi. change (imports (client s)) with (v_imports (view s)) in *.
  destruct ph as [|tx|id'].
  - destruct Hph as (_ & _ & Hnone & _). by rewrite Hnone in Hi.
  - destruct Hph as (_ & _ & Hnone). by rewrite Hnone in Hi.
  - destruct Hph as (_ & _ & _ & i' & Himports & Hconn). rewrite Himports in *.
    apply lookup_singleton_Some in Hi as [-> ->]. done.
Qed.

(** Removing the import that there is not. *)
Lemma remove_import_none id s :
  imports (client s) !! id = None →
  on_client (remove_import id) s = (s, Ok None).
Proof.
  intros Hnone. unfold on_client, remove_import. cbn [fst snd]. rewrite Hnone, delete_id by done.
  unfold set_imports. by destruct s as [[] ?].
Qed.

(** The view without imports. *)
Definition no_imports (v : View) : View :=
  {| v_conns := v_conns v; v_txs := v_txs v; v_active := v_active v; v_imports := ∅;
     v_in_tx := v_in_tx v |}.

Lemma remove_import_some id i s :
  imports (client s) = {[id := i]} →
  view (on_client (remove_import id) s).1 = no_imports (view s) ∧
  (on_client (remove_import id) s).2 = Ok (Some i).
Proof.
  intros Hi. unfold on_client, remove_import, view, no_imports, set_imports.
  cbn [fst snd client db conns txs active_tx_by_conn imports v_conns v_txs v_active v_in_tx].
  by rewrite Hi, lookup_singleton_eq, delete_singleton_eq.
Qed.

Lemma insert_row_keeps stmt i row d :
  quiet_stmt stmt →
  in_tx conn (insert_row stmt i row d).1 = in_tx conn d ∧
  is_conn_id (insert_row stmt i row d).2.1 = is_conn_id i.
Proof.
  intros [_ Hexec]. unfold insert_row. destruct (negb _); [done|].
  destruct (row_values row) as [e|values]; [done|]. pose proof (Hexec values d) as Hd.
  by destruct (stmt_execute stmt values d) as [d' [e|n]].
Qed.

Lemma insert_rows_keeps stmt rows i acc d :
  quiet_stmt stmt →
  in_tx conn (insert_rows stmt rows i acc d).1 = in_tx conn d ∧
  is_conn_id (insert_rows stmt rows i acc d).2.1 = is_conn_id i.
Proof.
  intros Hstmt. revert i acc d. induction rows as [|row rows IH]; intros i acc d; [done|].
  cbn [insert_rows]. destruct (insert_row_keeps stmt i row d Hstmt) as [Hd Hi].
  destruct (insert_row stmt i row d) as [d' [i' r]]. cbn [fst snd] in *.
  destruct (enforce_failure_threshold i'); [|done..]. rewrite <-Hd, <-Hi. apply IH.
Qed.

Lemma run_import_chunk_keeps i rows s :
  one_connection (view s) → names_table i →
  view (run_import_chunk i rows s).1 = view s ∧
  is_conn_id (run_import_chunk i rows s).2.1 = is_conn_id i.
Proof.
  intros Hone Hnames. apply insert_single_query in Hnames.
  unfold run_import_chunk. destruct (bool_decide _); [done|].
  rewrite comp_bind_run, get_connection_run by done. cbn [fst snd].
  destruct (decide _); [|done]. unfold on_db.
  pose proof (prepare_tx conn (insert_sql i) (db s) Hnames) as Hp.
  assert (∀ stmt, (prepare conn (insert_sql i) (db s)).2 = inr stmt → quiet_stmt stmt) as Hquiet.
  { intros stmt Hstmt. split; intros params d;
      [by apply (query_tx conn (insert_sql i) (db s))|by apply (stmt_execute_tx conn (insert_sql i) (db s))]. }
  destruct (prepare conn (insert_sql i) (db s)) as [d [e'|stmt]]; cbn [fst snd client db] in *.
  - split; [|done]. unfold view. cbn [client db]. by rewrite Hp.
  - destruct (insert_rows_keeps stmt rows i {| chunk_inserted := 0; chunk_failed := [] |} d
      (Hquiet stmt eq_refl)) as [Hd Hi].
    destruct (insert_rows stmt rows i _ d) as [d' [i' r]]. cbn [fst snd] in *. split; [|done].
    unfold view. cbn [client db]. by rewrite Hd, Hp.
Qed.

Lemma import_chunk_moves ph params s :
  in_phase ph s → tables_single s →
  ∃ ph', moves DATA_IMPORT_CHUNK ph ph' ∧ in_phase ph' (handle_data_import_chunk params s).1.
Proof.
  intros Hs (_ & _ & Ht). unfold handle_data_import_chunk. rewrite lift_bind.
  destruct (parse_params import_chunk_params params) as [p|e|]; [|by apply (stays _ _ s)..].
  rewrite comp_bind_run. destruct (imports (client s) !! ic_import_id p) as [i|] eqn:Hi.
  2: { rewrite remove_import_none by done. by apply (stays _ _ s). }
  destruct (imports_phase ph s _ i Hs Hi) as (-> & Himports & Hconn).
  destruct (remove_import_some (ic_import_id p) i s Himports) as [Hv ->].
  set (s0 := (on_client _ s).1) in *. cbn [fst snd]. rewrite lift_bind. cbn [of_option].
  rewrite total_bind.
  assert (one_connection (view s0)) as Hone by (rewrite Hv; by eapply in_phase_one).
  destruct (run_import_chunk_keeps i (ic_rows p) s0 Hone (Ht _ _ Hi)) as [Hv1 Hi1].
  destruct (run_import_chunk i (ic_rows p) s0) as [s1 [i1 r]]. cbn [fst snd] in *.
  exists (Importing (ic_import_id p)). split; [constructor|].
  rewrite comp_bind_run. unfold on_client. cbn [fst snd].
  match goal with |- in_phase _ ?st => assert (view st = {| v_conns := v_conns (view s);
    v_txs := v_txs (view s); v_active := v_active (view s);
    v_imports := {[ic_import_id p := i1]}; v_in_tx := v_in_tx (view s) |}) as Hview end.
  { rewrite lift_bind. assert (imports (client s1) = ∅) as Hempty
      by (change (v_imports (view s1) = ∅); by rewrite Hv1, Hv).
    assert (∀ st : Duck, st = {| client := insert_import (ic_import_id p) i1 (client s1); db := db s1 |} →
      view st = {| v_conns := v_conns (view s);
        v_txs := v_txs (view s); v_active := v_active (view s);
        v_imports := {[ic_import_id p := i1]}; v_in_tx := v_in_tx (view s) |}) as Hst.
    { intros st ->. transitivity {| v_conns := v_conns (view s1); v_txs := v_txs (view s1);
        v_active := v_active (view s1); v_imports := <[ic_import_id p := i1]> (imports (client s1));
        v_in_tx := v_in_tx (view s1) |}; [done|]. by rewrite Hempty, Hv1, Hv. }
    destruct r; cbn [fst lift_outcome]; by apply Hst. }
  unfold in_phase. rewrite Hview. destruct Hs as (Hone' & Htxs & Hact & Htx & _).
  split; [done|]. cbn. split_and!; [done..|]. exists i1. split; [done|]. by rewrite Hi1.
Qed.

(** Ending an import leaves no transaction, whether COMMIT or ROLLBACK works or not. *)
Lemma exec_import_tx_idle id i s command :
  in_phase (Importing id) s → imports (client s) = {[id := i]} → is_conn_id i = conn_id →
  command = lit "COMMIT" ∨ command = lit "ROLLBACK" →
  in_phase Idle (exec_import_tx (is_conn_id i) command (on_client (remove_import id) s).1).1.
Proof.
  intros Hs Himports Hconn Hcommand. unfold exec_import_tx.
  destruct (remove_import_some id i s Himports) as [Hv _].
  set (s0 := (on_client _ s).1) in *.
  rewrite comp_bind_run, get_connection_run by (rewrite Hv; by eapply in_phase_one). cbn [fst snd].
  rewrite decide_True by done. destruct (end_run command s0 Hcommand) as (Hv1 & _).
  unfold in_phase. rewrite Hv1, Hv. destruct Hs as (Hone & Htxs & Hact & _). by split.
Qed.

Lemma import_commit_moves ph now params s :
  in_phase ph s →
  ∃ ph', moves DATA_IMPORT_COMMIT ph ph' ∧ in_phase ph' (handle_data_import_commit now params s).1.
Proof.
  intros Hs. unfold handle_data_import_commit. rewrite lift_bind.
  destruct (parse_params import_commit_params params) as [id|e|]; [|by apply (stays _ _ s)..].
  rewrite comp_bind_run. destruct (imports (client s) !! id) as [i|] eqn:Hi.
  2: { rewrite remove_import_none by done. by apply (stays _ _ s). }
  destruct (imports_phase ph s _ i Hs Hi) as (-> & Himports & Hconn).
  rewrite (proj2 (remove_import_some id i s Himports)). cbn [snd]. rewrite lift_bind. cbn [of_option].
  pose proof (exec_import_tx_idle id i s (lit "COMMIT") Hs Himports Hconn ltac:(by left)) as Hidle.
  rewrite comp_bind_run. exists Idle. split; [constructor|]. by destruct (exec_import_tx _ _ _).2.
Qed.

Lemma import_abort_moves ph params s :
  in_phase ph s →
  ∃ ph', moves DATA_IMPORT_ABORT ph ph' ∧ in_phase ph' (handle_data_import_abort params s).1.
Proof.
  intros Hs. unfold handle_data_import_abort. rewrite lift_bind.
  destruct (parse_params import_abort_params params) as [id|e|]; [|by apply (stays _ _ s)..].
  rewrite comp_bind_run. destruct (imports (client s) !! id) as [i|] eqn:Hi.
  2: { rewrite remove_import_none by done. by apply (stays _ _ s). }
  destruct (imports_phase ph s _ i Hs Hi) as (-> & Himports & Hconn).
  rewrite (proj2 (remove_import_some id i s Himports)). cbn [snd]. rewrite lift_bind. cbn [of_option].
  pose proof (exec_import_tx_idle id i s (lit "ROLLBACK") Hs Himports Hconn ltac:(by right)) as Hidle.
  rewrite comp_bind_run. exists Idle. split; [constructor|]. by destruct (exec_import_tx _ _ _).2.
Qed.

(** Every request is a move of the machine. *)
Lemma call_moves ph now latency m params s :
  in_phase ph s → tables_single s → quiet m params →
  ∃ ph', moves m ph ph' ∧ in_phase ph' (call now latency m params s).1.
Proof.
  intros Hs Ht Hquiet. destruct (changes_phase m) eqn:Hm.
  - destruct m; try discriminate Hm; cbn [call].
    + by apply tx_begin_moves.
    + by apply tx_commit_moves.
    + by apply tx_rollback_moves.
    + by apply import_begin_moves.
    + by apply import_chunk_moves.
    + by apply import_commit_moves.
    + by apply import_abort_moves.
  - apply (stays _ _ s); [done|]. apply (keeps_call (view s)); [by eapply in_phase_one|done..].
Qed.
(** ** Runs *)

Definition serve (requests : list request) (s : Duck) : Duck :=
  foldl (λ s '(now, latency, m, params), (call now latency m params s).1) s requests.
Definition quiet_request (r : request) : Prop := let '(_, _, m, params) := r in quiet m params.

(** The phases the methods lead through. *)
Inductive path : list request → phase → phase → Prop :=
  | path_nil ph : path [] ph ph
  | path_cons now latency m params rest ph ph1 ph2 :
      moves m ph ph1 → path rest ph1 ph2 → path ((now, latency, m, params) :: rest) ph ph2.

Lemma serve_path requests ph s :
  Forall quiet_request requests → in_phase ph s → tables_single s →
  ∃ ph', path requests ph ph' ∧ in_phase ph' (serve requests s).
Proof.
  intros Hall. revert ph s. induction Hall as [|[[[now latency] m] params] rest Hr _ IH]; intros ph s Hs Ht.
  { exists ph. by split; [constructor|]. }
  destruct (call_moves ph now latency m params s Hs Ht Hr) as (ph1 & Hmove & Hs1).
  destruct (IH ph1 _ Hs1 (tabs_call now latency m params Hr s Ht)) as (ph2 & Hpath & Hs2). exists ph2. by split; [econstructor|].
Qed.

(** ** A commit that failed *)

(** The driver has a transaction that the database has not. *)
Definition stuck (tx : TxId) (s : Duck) : Prop := in_phase (InTx tx) s ∧ v_in_tx (view s) = false.

Lemma stuck_view tx s s' : stuck tx s → view s' = view s → stuck tx s'.
Proof. unfold stuck, in_phase. by intros ? ->. Qed.

(** The requests that need a transaction to begin, or one to end. *)
Definition needs_tx_change (m : Method) : Prop :=
  m = TX_BEGIN ∨ m = TX_COMMIT ∨ m = TX_ROLLBACK ∨ m = DATA_IMPORT_BEGIN.

Lemma stuck_end_tx tx s command :
  stuck tx s → command = lit "COMMIT" ∨ command = lit "ROLLBACK" →
  view (end_tx tx conn_id command s).1 = view s ∧ ∀ v, (end_tx tx conn_id command s).2 ≠ Ok v.
Proof.
  intros [Hs Hno] Hcommand. unfold end_tx.
  rewrite comp_bind_run, get_connection_run by by eapply in_phase_one. cbn [fst snd].
  rewrite decide_True by done. rewrite comp_bind_run.
  destruct (end_run command s Hcommand) as (Hv & _ & He). destruct (He Hno) as [e ->].
  cbn [fst snd]. split; [|done]. by rewrite Hv, set_in_tx_same.
Qed.

Lemma stuck_active tx s id :
  stuck tx s → has_active_tx id (client s) = bool_decide (id = conn_id).
Proof.
  intros [(_ & _ & Hact & _) _]. unfold has_active_tx.
  change (active_tx_by_conn (client s)) with (v_active (view s)). rewrite Hact.
  destruct (decide (id = conn_id)) as [->|Hne].
  - by rewrite lookup_singleton_eq, !bool_decide_true.
  - rewrite lookup_singleton_ne, !bool_decide_false by done. done.
Qed.

Lemma stuck_begin tx params s :
  stuck tx s →
  view (handle_tx_begin params s).1 = view s ∧ ∀ v, (handle_tx_begin params s).2 ≠ Ok v.
Proof.
  intros Hs. unfold handle_tx_begin. rewrite lift_bind.
  destruct (parse_params tx_begin_params params) as [p|e|]; [|done..].
  rewrite lift_bind. destruct (validate_tx_begin_options p) as [u|e|]; [|done..].
  rewrite gets_bind, lift_bind, (stuck_active tx s _ Hs). case_bool_decide as Heq; [done|].
  cbn [negb ensure]. rewrite comp_bind_run, get_connection_run by by eapply in_phase_one, Hs.
  cbn [fst snd]. by rewrite decide_False.
Qed.

Lemma stuck_import_begin tx now params s :
  stuck tx s →
  view (handle_data_import_begin now params s).1 = view s ∧
  ∀ v, (handle_data_import_begin now params s).2 ≠ Ok v.
Proof.
  intros Hs. unfold handle_data_import_begin. rewrite lift_bind.
  destruct (parse_params import_begin_params params) as [p|e|]; [|done..].
  rewrite comp_bind_run. pose proof (validate_begin_active p s) as Hactive.
  assert ((validate_begin_params p s).1 = s) as -> by done.
  destruct (validate_begin_params p s).2 as [u|e|]; [|done..]. rewrite comp_bind_run.
  assert (one_connection (view s)) as Hone by by eapply in_phase_one, Hs.
  destruct (start_import_run p s Hone) as [[Hv Hr]|(a & -> & Heq & _)].
  - destruct (start_import_tx p s).2; [by edestruct Hr|done..].
  - destruct (Hactive u); [|done]. rewrite (stuck_active tx s _ Hs). by apply bool_decide_true.
Qed.

Lemma stuck_call tx now latency m params s :
  stuck tx s → tables_single s → quiet m params →
  stuck tx (call now latency m params s).1 ∧
  (needs_tx_change m → ∀ v, (call now latency m params s).2 ≠ Ok v).
Proof.
  intros Hs Ht Hquiet. pose proof (proj1 Hs) as Hphase.
  assert (imports (client s) = ∅) as Hnone by apply Hphase.
  destruct (changes_phase m) eqn:Hm.
  2: { split.
       - apply (stuck_view tx s); [done|]. apply (keeps_call (view s)); [by eapply in_phase_one|done..].
       - intros Hneeds. by destruct Hneeds as [->|[->|[->| ->]]]. }
  enough (view (call now latency m params s).1 = view s ∧
    (needs_tx_change m → ∀ v, (call now latency m params s).2 ≠ Ok v)) as [Hv He].
  { split; [by apply (stuck_view tx s)|done]. }
  destruct m; try discriminate Hm; cbn [call].
  - destruct (stuck_begin tx params s Hs) as [Hv He]. by split.
  - unfold handle_tx_commit. rewrite lift_bind.
    destruct (parse_params tx_commit_params params) as [tx'|e|]; [|by split..].
    rewrite gets_bind, lift_bind, (tx_conn_phase _ s tx' Hphase).
    destruct (decide _) as [[= <-]|]; [|by split]. cbn [of_option].
    destruct (stuck_end_tx tx s (lit "COMMIT") Hs ltac:(by left)). by split.
  - unfold handle_tx_rollback. rewrite lift_bind.
    destruct (parse_params tx_rollback_params params) as [p|e|]; [|by split..].
    rewrite gets_bind, lift_bind, (tx_conn_phase _ s (tr_tx_id p) Hphase).
    destruct (decide _) as [[= ->]|]; [|by split]. cbn [of_option]. rewrite lift_bind.
    destruct (bool_decide _); [|by split]. cbn [ensure].
    destruct (stuck_end_tx (tr_tx_id p) s (lit "ROLLBACK") Hs ltac:(by right)). by split.
  - destruct (stuck_import_begin tx now params s Hs). by split.
  - split; [|by intros [?|[?|[?|?]]]]. unfold handle_data_import_chunk. rewrite lift_bind.
    destruct (parse_params import_chunk_params params) as [p|e|]; [|done..].
    rewrite comp_bind_run, remove_import_none; [done|]. by rewrite Hnone.
  - split; [|by intros [?|[?|[?|?]]]]. unfold handle_data_import_commit. rewrite lift_bind.
    destruct (parse_params import_commit_params params) as [id|e|]; [|done..].
    rewrite comp_bind_run, remove_import_none; [done|]. by rewrite Hnone.
  - split; [|by intros [?|[?|[?|?]]]]. unfold handle_data_import_abort. rewrite lift_bind.
    destruct (parse_params import_abort_params params) as [id|e|]; [|done..].
    rewrite comp_bind_run, remove_import_none; [done|]. by rewrite Hnone.
Qed.

Lemma stuck_serve tx requests s :
  Forall quiet_request requests → stuck tx s → tables_single s →
  stuck tx (serve requests s) ∧ tables_single (serve requests s).
Proof.
  intros Hall. revert s.
  induction Hall as [|[[[now latency] m] params] rest Hr _ IH]; intros s Hs Ht; [done|].
  apply IH; [by apply stuck_call|by apply tabs_call].
Qed.

(** A commit of the transaction that fails. *)
Lemma failed_commit_stuck tx params s e :
  in_phase (InTx tx) s → parse_params tx_commit_params params = Ok tx →
  (handle_tx_commit params s).2 = Err e → stuck tx (handle_tx_commit params s).1.
Proof.
  intros Hs Hparams. unfold handle_tx_commit. rewrite lift_bind, Hparams, gets_bind, lift_bind.
  rewrite (tx_conn_phase _ s tx Hs), decide_True by done. cbn [of_option]. unfold end_tx.
  rewrite comp_bind_run, get_connection_run by by eapply in_phase_one. cbn [fst snd].
  rewrite decide_True by done. rewrite comp_bind_run.
  destruct (end_run (lit "COMMIT") s ltac:(by left)) as (Hv & _ & _).
  destruct (exec_tx_control conn (lit "COMMIT") s).2 as [u|e'|]; [done| |done]. intros _.
  unfold stuck, in_phase. cbn [fst]. rewrite Hv. by split.
Qed.
End tx.

(** ** The theorems *)

Section theorems.
Context `{TxLaws, ValueLib, DuckCodec, SchemaCodec, DriverCodec}.

(** A connection that was just opened. *)
Definition opened (conn_id : ConnId) (session : DuckDbSession) (d : Db) : Duck :=
  {| client := with_conn conn_id session; db := d |}.

Lemma opened_idle conn_id conn session d :
  session_connection session = Some conn → in_tx conn d = false →
  in_phase conn_id conn Idle (opened conn_id session d).
Proof. intros Hs Hd. split; [by exists session|done]. Qed.

(** C26: whatever requests a connection gets, in whatever order, as long as the statements
    they execute have no transaction control and their queries and conditions no semicolon,
    each of them is a move of the machine of phases, so that the database has a transaction
    on the connection only while the driver knows exactly one transaction, or exactly one
    import, to end it. *)
Theorem transactions_have_owner (conn_id : ConnId) (conn : Conn) (session : DuckDbSession) (d : Db)
    (requests : list request)
    (Hsession : session_connection session = Some conn) (Hd : in_tx conn d = false)
    (Hquiet : Forall quiet_request requests) :
  let s := serve requests (opened conn_id session d) in
  (∃ ph, path requests Idle ph ∧ in_phase conn_id conn ph s) ∧
  (in_tx conn (db s) = true →
   (∃ tx, txs (client s) = {[tx := conn_id]} ∧ imports (client s) = ∅) ∨
   (txs (client s) = ∅ ∧ ∃ id i, imports (client s) = {[id := i]} ∧ is_conn_id i = conn_id)).
Proof.
  intros s. destruct (serve_path conn_id conn requests Idle (opened conn_id session d) Hquiet)
    as (ph & Hpath & Hs); [by apply opened_idle|done|]. fold s in Hs.
  split; [by exists ph|]. intros Htx. destruct Hs as [_ Hph]. destruct ph as [|tx|id].
  - destruct Hph as (_ & _ & _ & Hno). cbn in Hno. congruence.
  - destruct Hph as (Htxs & _ & Himports). left. by exists tx.
  - destruct Hph as (Htxs & _ & _ & i & Himports & Hi). right. split; [done|]. by exists id, i.
Qed.

(** After a COMMIT of a transaction of the host that fails, no request ever begins or ends
    a transaction or begins an import on the connection again: the driver still takes the
    transaction for the active one, and the database, which has none any more, refuses to
    commit it or roll it back. *)
Theorem failed_commit_is_final (conn_id : ConnId) (conn : Conn) (tx : TxId) (params : Value)
    (s : Duck) (e : ProtocolError) (requests : list request)
    (now latency : N) (m : Method) (params' : Value)
    (Hs : in_phase conn_id conn (InTx tx) s) (Ht : tables_single s)
    (Hparams : parse_params tx_commit_params params = Ok tx)
    (Hfailed : (call now latency TX_COMMIT params s).2 = Err e)
    (Hquiet : Forall quiet_request requests) (Hm : needs_tx_change m) :
  ∀ v, (call now latency m params'
          (serve requests (call now latency TX_COMMIT params s).1)).2 ≠ Ok v.
Proof.
  assert (Hstuck : stuck conn_id conn tx (call now latency TX_COMMIT params s).1)
    by (cbn [call] in *; by eapply failed_commit_stuck).
  apply (stuck_serve conn_id conn tx requests _ Hquiet) in Hstuck as [Hstuck Ht'];
    [|by apply tabs_call].
  assert (quiet m params') as Hq by (by destruct Hm as [->|[->|[->| ->]]]).
  by destruct (stuck_call conn_id conn tx now latency m params' _ Hstuck Ht' Hq) as [_ He]; apply He.
Qed.
End theorems.

(** ** Witnesses *)

Module Demo.
Import DuckDemo.
#[local] Existing Instances values messages.

(** The database of [DuckDemo], in which a COMMIT fails when [fails]. *)
Definition demo_db (fails : bool) : DuckDb := {|
  Db := bool; Conn := unit; Stmt := text;
  open_db := λ _ d, (d, inr tt);
  prepare := λ _ sql d, (d, inr sql);
  query := λ sql _ d, (d, inr (run_query sql));
  stmt_execute := λ _ _ d, (d, inr 1%N);
  DuckServer.execute := λ _ sql _ d,
    if fails && bool_decide (sql = lit "COMMIT") then (false, inl (lit "conflict"))
    else run_execute sql d;
  from_sql_string := λ v, match v with Some (RText t) => inr t | _ => inl (lit "not a text") end;
  from_sql_opt_string := λ v, inl (lit "not used");
  from_sql_bool := λ v, inl (lit "not used");
  from_sql_i64 := λ v, inl (lit "not used")
|}.

Lemma demo_end (command : text) (d : bool) :
  command = lit "COMMIT" ∨ command = lit "ROLLBACK" →
  (run_execute command d).1 = false ∧ (d = false → ∃ e, (run_execute command d).2 = inl e).
Proof.
  intros [->| ->]; destruct d; vm_compute; split; try reflexivity; try (intros; discriminate);
    intros _; by eexists.
Qed.

#[export] Instance demo_laws (fails : bool) : TxLaws (H:=demo_db fails).
Proof.
  refine {| in_tx := λ (_ : Conn (DuckDb:=demo_db fails)) (d : Db (DuckDb:=demo_db fails)), d : bool;
            no_control := λ sql, bool_decide (control sql = None) && negb (bool_decide (sql = lit "COMMIT")) |}.
  - done.
  - done.
  - done.
  - intros conn d stmt d' rows row schema [= <-] Hrows Hrow. cbn in Hrows.
    assert (run_query catalog_views_sql = answer columns [[Some (RText (lit "x"))]]) as Hx
      by (vm_compute; reflexivity).
    rewrite Hx in Hrows. injection Hrows as <-. cbn [rows_cells answer] in Hrow.
    by apply list_elem_of_singleton in Hrow as ->.
  - intros conn sql params d [Hno Hc]%andb_true_iff. apply bool_decide_eq_true in Hno.
    apply negb_true_iff, bool_decide_eq_false in Hc. cbn.
    rewrite (bool_decide_false _ Hc), andb_false_r. unfold run_execute. by rewrite Hno.
  - intros conn command d Hcommand Hd. destruct Hcommand as [->| ->]; cbn in Hd; subst d;
      destruct fails; vm_compute; split; try reflexivity; by eexists.
  - intros conn command d Hcommand Hd. destruct Hcommand as [->| ->]; cbn in Hd; subst d;
      destruct fails; vm_compute; reflexivity.
  - intros conn command d Hcommand. cbn. destruct (fails && _); [done|]. by apply demo_end.
  - intros conn command d Hcommand Hd. cbn. destruct (fails && _); [by eexists|]. by apply demo_end.
Defined.

Definition demo_schema : SchemaCodec.
Proof. constructor; try exact other; try exact no_value; intros; first [exact Null | exact []]. Defined.
Definition demo_driver : DriverCodec.
Proof.
  refine {| Version := unit; method_text := λ _, []; kind_value := λ _, Null;
    parse_version := λ _, inr tt; at_least := λ _ _, true; show_version := λ _, [];
    debug_text := λ t, t; package_version := [] |}; first [exact other|exact no_value].
Defined.
#[local] Existing Instances demo_schema demo_driver.

Definition demo_session (fails : bool) : DuckDbSession (H:=demo_db fails) :=
  {| session_config := None; session_connection := Some (tt : Conn (DuckDb:=demo_db fails)) |}.

Definition on_one : Value := Object [(lit "conn_id", Number (PosInt 1))].
Definition of_tx : Value := Object [(lit "tx_id", Str (lit "tx-1"))].

(** An import, a transaction that is committed, and a transaction. *)
Definition demo_requests : list (N * N * Method * Value) :=
  [(0, 0, DATA_IMPORT_BEGIN, on_one); (0, 0, TX_BEGIN, on_one);
   (0, 0, DATA_IMPORT_COMMIT, Object [(lit "import_id", Str (lit "i-1"))]);
   (0, 0, TX_BEGIN, on_one); (0, 0, TX_COMMIT, of_tx); (0, 0, TX_BEGIN, on_one)]%N.

Lemma demo_quiet (fails : bool) :
  Forall (quiet_request (H:=demo_db fails)) demo_requests.
Proof. repeat constructor. Qed.

Lemma transactions_have_owner_witness :
  let s := serve (H:=demo_db false) demo_requests (opened (H:=demo_db false) 1%N (demo_session false) false) in
  in_tx (TxLaws:=demo_laws false) tt (db s) = true ∧
  ((∃ tx, txs (client s) = {[tx := 1%N]} ∧ imports (client s) = ∅) ∨
   (txs (client s) = ∅ ∧ ∃ id i, imports (client s) = {[id := i]} ∧ is_conn_id i = 1%N)).
Proof.
  intros s. split; [vm_compute; reflexivity|].
  apply (transactions_have_owner (H:=demo_db false) 1%N tt (demo_session false) false demo_requests);
    [reflexivity|reflexivity|apply (demo_quiet false)|vm_compute; reflexivity].
Defined.

(** A transaction of a database whose commits fail. *)
Definition demo_begun : Duck (H:=demo_db true) :=
  serve (H:=demo_db true) [(0, 0, TX_BEGIN, on_one)]%N
    (opened (H:=demo_db true) 1%N (demo_session true) false).

Lemma demo_begun_phase : in_phase (H:=demo_db true) 1%N tt (InTx (lit "tx-1")) demo_begun.
Proof.
  destruct (serve_path (H:=demo_db true) 1%N tt [(0, 0, TX_BEGIN, on_one)]%N Idle
    (opened (H:=demo_db true) 1%N (demo_session true) false)) as (ph & _ & Hph);
    [repeat constructor|by apply (opened_idle (H:=demo_db true))|done|]. fold demo_begun in Hph.
  assert (txs (client demo_begun) !! lit "tx-1" = Some 1%N) as Htx by (vm_compute; reflexivity).
  pose proof (tx_conn_phase (H:=demo_db true) 1%N tt ph demo_begun (lit "tx-1") Hph) as Hconn.
  unfold tx_conn in Hconn. rewrite Htx in Hconn. destruct (decide _) as [->|]; done.
Qed.

Lemma failed_commit_is_final_witness :
  (∃ e, (call (H:=demo_db true) 0 0 TX_COMMIT of_tx demo_begun).2 = Err e) ∧
  ∀ v, (call (H:=demo_db true) 0 0 TX_BEGIN on_one
    (serve (H:=demo_db true) demo_requests (call (H:=demo_db true) 0 0 TX_COMMIT of_tx demo_begun).1)).2 ≠ Ok v.
Proof.
  split; [eexists; vm_compute; reflexivity|].
  eapply (failed_commit_is_final (H:=demo_db true) 1%N tt (lit "tx-1") of_tx demo_begun);
    [apply demo_begun_phase|by split_and!|vm_compute; reflexivity|vm_compute; reflexivity|apply (demo_quiet true)|left; reflexivity].
Defined.
End Demo.
