(* ===== verification/GaussState.v ===== *)
(** * The openGauss driver: state, errors and connection parameters

    ipc/opengauss/src/state.rs, the errors of server.rs, and config.rs.  Rows and export
    data are held in memory and handed out in parts.  A [usize] has 64 bits; an [Instant] is
    a clock reading in milliseconds.  An [anyhow::Error] is the list of its messages,
    outermost first, with the error the database reported, if it has one; the TLS crate and
    the file system are the class [TlsLib]. *)

From S2P Require Import Prelude Text JsonValue DuckValue DuckState.

(** ** The openGauss driver: the state of a connection *)

Abbreviation text := (list N) (only parsing).
Abbreviation Row := (list CellValue) (only parsing).

(** [value.clamp(low, high)] *)
Definition clamp (low high value : N) : N := N.min high (N.max low value).

(** ** Cursors *)

Record CursorState := {
  rows : list Row; next_row : nat; max_rows : option N; done : bool
}.

Definition new_cursor (rows : list Row) (max_rows : option N) : CursorState :=
  {| rows := rows; next_row := 0; max_rows := max_rows;
     done := bool_decide (max_rows = Some 0%N) |}.

(** How many rows [fetch] takes at most. *)
Definition fetch_take (n : option N) (c : CursorState) : nat :=
  let requested := clamp 1 10000 (default 1000%N n) in
  let remaining_by_max :=
    match max_rows c with
    | Some max => (max - N.of_nat (next_row c))%N
    | None => u64_max
    end in
  N.to_nat (N.min requested remaining_by_max).

(** [CursorState::fetch] *)
Definition fetch {E} (n : option N) (c : CursorState)
    : outcome E (CursorState * (list Row * bool)) :=
  if done c then Ok (c, ([], true))
  else
    let e := usz (sat_add u64_max (N.of_nat (next_row c)) (N.of_nat (fetch_take n c)))
             `min` length (rows c) in
    page ← get_slice (rows c) (next_row c) e;
    let finished := (length (rows c) <=? e)%nat ||
                    from_option (λ max, (max <=? N.of_nat e)%N) false (max_rows c) in
    Ok ({| rows := rows c; next_row := e; max_rows := max_rows c; done := finished |},
        (page, finished)).

Definition cancel (c : CursorState) : CursorState :=
  {| rows := rows c; next_row := next_row c; max_rows := max_rows c; done := true |}.

(** ** Export streams *)

Record StreamState := { data : bytes; offset : nat }.

Definition new_stream (data : bytes) : StreamState := {| data := data; offset := 0 |}.

Definition estimated_bytes (s : StreamState) : N := N.of_nat (length (data s)).

(** [StreamState::read] *)
Definition read {E} (max_bytes : option N) (s : StreamState)
    : outcome E (StreamState * (bytes * bool)) :=
  let max := clamp 1 1048576 (default 65536%N max_bytes) in
  let e := usz (sat_add u64_max (N.of_nat (offset s)) max) `min` length (data s) in
  chunk ← get_slice (data s) (offset s) e;
  Ok ({| data := data s; offset := e |}, (chunk, (length (data s) <=? e)%nat)).

(** ** Imports *)

(** [extension_protocol::data::FailedRow] *)
Record FailedRow := { row_index : N; message : text; code : Z }.

Record ImportState := {
  table : text; schema : option text; database : option text; columns : list text;
  options : ImportOptions; inserted : N; failed : list FailedRow; next_import_row : N;
  started : N
}.

Definition new_import (table : text) (schema database : option text) (columns : list text)
    (options : ImportOptions) (now : N) : ImportState :=
  {| table := table; schema := schema; database := database; columns := columns;
     options := options; inserted := 0; failed := []; next_import_row := 0; started := now |}.

Definition elapsed_ms (now : N) (i : ImportState) : N := (now - started i)%N.

Definition record_inserted (i : ImportState) : ImportState :=
  {| table := table i; schema := schema i; database := database i; columns := columns i;
     options := options i; inserted := sat_add u64_max (inserted i) 1; failed := failed i;
     next_import_row := sat_add u64_max (next_import_row i) 1; started := started i |}.

Definition record_failed (message : text) (code : Z) (i : ImportState)
    : ImportState * option FailedRow :=
  let row := {| row_index := next_import_row i; message := message; code := code |} in
  let tracked := track_failed_rows (options i) in
  ({| table := table i; schema := schema i; database := database i; columns := columns i;
      options := options i; inserted := inserted i;
      failed := if tracked then failed i ++ [row] else failed i;
      next_import_row := sat_add u64_max (next_import_row i) 1; started := started i |},
   if tracked then Some row else None).

(** ** The state of a connection *)

Record ConnectionState (Session : Type) := {
  conn : Session;
  cursors : gmap text CursorState;
  streams : gmap text StreamState;
  imports : gmap text ImportState;
  tx_conn : gmap text bool
}.
Arguments Build_ConnectionState {_}.
Arguments conn {_} _.
Arguments cursors {_} _.
Arguments streams {_} _.
Arguments imports {_} _.
Arguments tx_conn {_} _.

Section state.
Context {Session : Type}.

Abbreviation State := (ConnectionState Session).

Definition new_state (conn : Session) : State :=
  {| conn := conn; cursors := ∅; streams := ∅; imports := ∅; tx_conn := ∅ |}.

(** Updates of one table. *)
Definition set_conn (conn : Session) (s : State) : State :=
  {| conn := conn; cursors := cursors s; streams := streams s; imports := imports s;
     tx_conn := tx_conn s |}.
Definition set_cursors (m : gmap text CursorState) (s : State) : State :=
  {| conn := conn s; cursors := m; streams := streams s; imports := imports s;
     tx_conn := tx_conn s |}.
Definition set_streams (m : gmap text StreamState) (s : State) : State :=
  {| conn := conn s; cursors := cursors s; streams := m; imports := imports s;
     tx_conn := tx_conn s |}.
Definition set_imports (m : gmap text ImportState) (s : State) : State :=
  {| conn := conn s; cursors := cursors s; streams := streams s; imports := m;
     tx_conn := tx_conn s |}.
Definition set_txs (m : gmap text bool) (s : State) : State :=
  {| conn := conn s; cursors := cursors s; streams := streams s; imports := imports s;
     tx_conn := m |}.

(** [uuid] is what [Uuid::new_v4] draws. *)
Definition open_cursor (uuid : text) (cursor : CursorState) (s : State) : State * text :=
  let cursor_id := lit "opengauss-cursor-" ++ uuid in
  (set_cursors (<[cursor_id := cursor]> (cursors s)) s, cursor_id).

Definition close_cursor (cursor_id : text) (s : State) : State * bool :=
  (set_cursors (delete cursor_id (cursors s)) s, bool_decide (is_Some (cursors s !! cursor_id))).

Definition insert_stream (stream_id : text) (stream : StreamState) (s : State) : State :=
  set_streams (<[stream_id := stream]> (streams s)) s.

Definition close_stream (stream_id : text) (s : State) : State * bool :=
  (set_streams (delete stream_id (streams s)) s, bool_decide (is_Some (streams s !! stream_id))).

Definition insert_import (import_id : text) (i : ImportState) (s : State) : State :=
  set_imports (<[import_id := i]> (imports s)) s.

Definition remove_import (import_id : text) (s : State) : State * option ImportState :=
  (set_imports (delete import_id (imports s)) s, imports s !! import_id).

Definition insert_tx (tx_id : text) (s : State) : State := set_txs (<[tx_id := true]> (tx_conn s)) s.

Definition has_tx (tx_id : text) (s : State) : bool := bool_decide (is_Some (tx_conn s !! tx_id)).

Definition remove_tx (tx_id : text) (s : State) : State * bool :=
  (set_txs (delete tx_id (tx_conn s)) s, bool_decide (is_Some (tx_conn s !! tx_id))).
End state.

(** ** The openGauss driver: errors and connection parameters *)

(** ** Errors *)

(** [tokio_opengauss::error::DbError] *)
Inductive ErrorPosition : Type :=
  | Original (position : N)
  | Internal (position : N) (query : text).

Record DbError := {
  db_code : text; db_schema : option text; db_table : option text; db_column : option text;
  db_constraint : option text; db_severity : text; db_message : text; db_detail : option text;
  db_hint : option text; db_where : option text; db_datatype : option text;
  db_file : option text; db_line : option N; db_routine : option text;
  db_position : option ErrorPosition
}.

Record AnyError := { chain : list text; database_error : option DbError }.

Definition error_msg (message : text) : AnyError := {| chain := [message]; database_error := None |}.

(** [.context(message)] *)
Definition context (message : text) (e : AnyError) : AnyError :=
  {| chain := message :: chain e; database_error := database_error e |}.

(** [extension_protocol::error] *)
Record ErrorData := {
  sqlstate : option text; ed_schema : option text; ed_table : option text;
  ed_column : option text; ed_constraint : option text; extra : Value
}.

Record ProtocolError := {
  error_code : ErrorCode; error_message : text; error_data : option ErrorData
}.

Abbreviation result A := (outcome ProtocolError A) (only parsing).

Definition new_error (code : ErrorCode) (message : text) : ProtocolError :=
  {| error_code := code; error_message := message; error_data := None |}.

Definition invalid_params (message : text) : ProtocolError := new_error INVALID_PARAMS message.

Definition params_deserialize_error (error : text) : ProtocolError :=
  new_error INVALID_PARAMS (lit "failed to deserialize params: " ++ error).

Definition not_supported (message : text) : ProtocolError := new_error METHOD_NOT_FOUND message.

Definition opt_number (n : option N) : Value := from_option (λ n, Number (PosInt n)) Null n.

(** The members the error of the database adds to [extra]. *)
Definition database_extra (e : DbError) : list (text * Value) :=
  [(lit "severity", Str (db_severity e)); (lit "server_message", Str (db_message e));
   (lit "detail", opt_str (db_detail e)); (lit "hint", opt_str (db_hint e));
   (lit "where", opt_str (db_where e)); (lit "datatype", opt_str (db_datatype e));
   (lit "file", opt_str (db_file e)); (lit "line", opt_number (db_line e));
   (lit "routine", opt_str (db_routine e))] ++
  match db_position e with
  | Some (Original position) => [(lit "position", Number (PosInt position))]
  | Some (Internal position query) =>
      [(lit "internal_position", Number (PosInt position)); (lit "internal_query", Str query)]
  | None => []
  end.

Definition protocol_error_from_anyhow (code : ErrorCode) (e : AnyError) : ProtocolError :=
  let chain_member := (lit "chain", Array (Str <$> chain e)) in
  {| error_code := code; error_message := join (lit ": ") (chain e);
     error_data := Some
       match database_error e with
       | Some db =>
           {| sqlstate := Some (db_code db); ed_schema := db_schema db; ed_table := db_table db;
              ed_column := db_column db; ed_constraint := db_constraint db;
              extra := Object (chain_member :: database_extra db) |}
       | None =>
           {| sqlstate := None; ed_schema := None; ed_table := None; ed_column := None;
              ed_constraint := None; extra := Object [chain_member] |}
       end |}.

(** ** Connection parameters *)

(** [OpenGaussConnectionConfig] *)
Record Config := {
  host : text; port : N; username : text; password : text; cfg_database : text;
  ssl_mode : option text; ssl_root_cert_path : option text;
  ssl_accept_invalid_certs : option bool; ssl_accept_invalid_hostnames : option bool;
  connect_timeout_ms : option N
}.

Inductive SslMode : Type := Disable | Prefer | Require.
#[export] Instance SslMode_eq_dec : EqDecision SslMode.
Proof. solve_decision. Defined.

Definition parse_bool_string (value : text) : text + bool :=
  let lower := to_ascii_lowercase (trim value) in
  if one_of ["true"; "1"; "yes"; "y"; "on"] lower then inr true
  else if one_of ["false"; "0"; "no"; "n"; "off"; ""] lower then inr false
  else inl (lit "unsupported boolean value `" ++ lower ++ lit "`").

(** An [i64] read from a number. *)
Definition number_i64 (n : number) : option Z :=
  match n with
  | PosInt n => if (n <=? 9223372036854775807)%N then Some (Z.of_N n) else None
  | NegInt z => Some z
  | Float _ => None
  end.

(** [deserialize_optional_bool], of the member of the object or of [Null] where there is
    none. *)
Definition deserialize_optional_bool (value : Value) : text + option bool :=
  let no_variant := inl (lit "data did not match any variant of untagged enum BoolValue") in
  match value with
  | Null => inr None
  | Bool value => inr (Some value)
  | Number n =>
      match number_i64 n with
      | Some 0%Z => inr (Some false)
      | Some 1%Z => inr (Some true)
      | Some value => inl (lit "unsupported boolean value `" ++ show_Z value ++ lit "`")
      | None => no_variant
      end
  | Str value =>
      match parse_bool_string value with inl e => inl e | inr b => inr (Some b) end
  | _ => no_variant
  end.

(** What serde derives for the parameters; the two members with a reader of their own are
    read apart. *)
Class ConfigCodec := {
  config_fields : (Value → text + option bool) → FromValue Config
}.

Definition has_member (name : text) (members : list (text * Value)) : bool :=
  bool_decide (is_Some (member name members)).

(** [config.entry(key).or_insert(value)] *)
Definition or_insert (members : list (text * Value)) (entry : text * Value) : list (text * Value) :=
  if has_member entry.1 members then members else members ++ [entry].

(** The members of [extra_params], added where the object does not have them. *)
Definition with_extra_params (value : Value) : Value :=
  match value with
  | Object config =>
      let extra_params :=
        match member (lit "extra_params") config with Some (Object params) => params | _ => [] end in
      Object (foldl or_insert config extra_params)
  | _ => value
  end.

Definition from_wire_config `{ConfigCodec} (value : Value) : text + Config :=
  config_fields deserialize_optional_bool (with_extra_params value).

Definition endpoint (c : Config) : text := host c ++ lit ":" ++ show_N (port c).

Definition database_name (c : Config) : text :=
  if blank (cfg_database c) then lit "postgres" else trim (cfg_database c).

Definition parse_ssl_mode (value : option text) : text + SslMode :=
  let lower := to_ascii_lowercase (default (lit "disable") value) in
  if one_of ["disable"; "disabled"; "false"; "0"] lower then inr Disable
  else if one_of ["prefer"] lower then inr Prefer
  else if one_of ["require"; "true"; "1"] lower then inr Require
  else inl (lit "unsupported ssl_mode `" ++ lower ++ lit "`").

Definition requires_tls_connector (c : Config) : text + bool :=
  match parse_ssl_mode (ssl_mode c) with
  | inl e => inl e
  | inr mode => inr (negb (bool_decide (mode = Disable)))
  end.

(** [tokio_opengauss::Config], as it is set up. *)
Record ClientConfig := {
  cc_host : text; cc_port : N; cc_user : text; cc_dbname : text; cc_password : option text;
  cc_connect_timeout : option N; cc_ssl_mode : SslMode
}.

Definition to_client_config (c : Config) : text + ClientConfig :=
  match parse_ssl_mode (ssl_mode c) with
  | inl e => inl e
  | inr mode =>
      inr {| cc_host := host c; cc_port := port c; cc_user := username c;
             cc_dbname := database_name c;
             cc_password := if bool_decide (password c = []) then None else Some (password c);
             cc_connect_timeout := connect_timeout_ms c; cc_ssl_mode := mode |}
  end.

(** ** TLS *)

Definition non_empty (value : option text) : option text :=
  value ← value; if bool_decide (trim value = []) then None else Some (trim value).

(** The builder of a connector: its root certificates and what it was told to accept. *)
Record TlsOptions (Certificate : Type) := {
  root_certificates : list Certificate; accept_invalid_certs : option bool;
  accept_invalid_hostnames : option bool
}.
Arguments Build_TlsOptions {_}.

Class TlsLib := {
  Certificate : Type;
  Connector : Type;
  read_file : text → text + bytes;
  stack_from_pem : bytes → text + list Certificate;
  build_connector : TlsOptions Certificate → text + Connector
}.

Section tls.
Context `{TlsLib}.

Definition read_tls_file (path field_name : text) : text + bytes :=
  match read_file path with
  | inl error =>
      inl (lit "failed to read " ++ field_name ++ lit " `" ++ path ++ lit "`: " ++ error)
  | inr b => inr b
  end.

Definition root_certificates_of (c : Config) : text + list Certificate :=
  match non_empty (ssl_root_cert_path c) with
  | None => inr []
  | Some path =>
      match read_tls_file path (lit "ssl_root_cert_path") with
      | inl e => inl e
      | inr cert_bytes =>
          match stack_from_pem cert_bytes with
          | inl error =>
              inl (lit "failed to parse ssl_root_cert_path `" ++ path ++ lit "`: " ++ error)
          | inr certificates => inr certificates
          end
      end
  end.

Definition to_native_tls_connector (c : Config) : text + Connector :=
  match root_certificates_of c with
  | inl e => inl e
  | inr certificates =>
      match build_connector {| root_certificates := certificates;
                               accept_invalid_certs := ssl_accept_invalid_certs c;
                               accept_invalid_hostnames := ssl_accept_invalid_hostnames c |} with
      | inl error => inl (lit "failed to build OpenGauss native TLS connector: " ++ error)
      | inr connector => inr connector
      end
  end.
End tls.
