(* ===== verification/GaussSession.v ===== *)
(** * The openGauss driver: a session

    ipc/opengauss/src/session.rs: connecting, statements with bound parameters, and the
    catalog queries.  The tokio_opengauss client is the class [GaussClient]: what its calls
    do to the server and what they return; reading a column of a row panics where the code
    asks for a value that is not there. *)

From S2P Require Import Prelude VncClipboard Text JsonValue DuckValue DuckState DdlSpec GaussDdl GaussState.

(** ** The client *)

(** [tokio_opengauss::types::Type], as far as it is told apart. *)
Inductive PgType : Type :=
  | BOOL | INT2 | INT4 | INT8 | FLOAT4 | FLOAT8 | BYTEA | JSON | JSONB | DATE | TIME | TIMESTAMP
  | OtherType (name : text).
#[export] Instance PgType_eq_dec : EqDecision PgType.
Proof. solve_decision. Defined.

(** [Type::name] *)
Definition type_name (ty : PgType) : text :=
  match ty with
  | BOOL => lit "bool" | INT2 => lit "int2" | INT4 => lit "int4" | INT8 => lit "int8"
  | FLOAT4 => lit "float4" | FLOAT8 => lit "float8" | BYTEA => lit "bytea" | JSON => lit "json"
  | JSONB => lit "jsonb" | DATE => lit "date" | TIME => lit "time" | TIMESTAMP => lit "timestamp"
  | OtherType name => name
  end.

(** The dates and times of the chrono crate. *)
Class ChronoLib := {
  NaiveDate : Type;
  NaiveTime : Type;
  NaiveDateTime : Type;
  (** ["%Y-%m-%d"], ["%H:%M:%S%.f"] and ["%Y-%m-%d %H:%M:%S%.f"] *)
  parse_date : text → text + NaiveDate;
  parse_time : text → text + NaiveTime;
  parse_datetime : text → text + NaiveDateTime;
  show_date : NaiveDate → text;
  show_time : NaiveTime → text;
  show_datetime : NaiveDateTime → text
}.

(** The values bound to the parameters of a statement. *)
Inductive SqlParam `{ChronoLib} : Type :=
  | PNull
  | PBool (value : bool)
  | PI64 (value : Z)
  | PF64 (bits : N)
  | PString (value : text)
  | PBytes (value : bytes)
  | PJson (value : Value)
  | PDate (value : NaiveDate)
  | PTime (value : NaiveTime)
  | PDatetime (value : NaiveDateTime).

(** [row.try_get::<_, Option<T>>(i)] is [None] where the column cannot be read as a [T]. *)
Class GaussClient `{ChronoLib, TlsLib} := {
  Server : Type;
  Client : Type;
  PgRow : Type;
  new_runtime : Server → Server * (AnyError + ());
  client_connect : ClientConfig → option Connector → Server → Server * (AnyError + Client);
  abort_task : Client → Server → Server;
  client_query : Client → text → list SqlParam → Server → Server * (AnyError + list PgRow);
  client_execute : Client → text → list SqlParam → Server → Server * (AnyError + N);
  batch_execute : Client → text → Server → Server * (AnyError + ());
  simple_query : Client → text → Server → Server * (AnyError + ());
  row_columns : PgRow → list (text * PgType);
  try_string : PgRow → nat → option (option text);
  try_bool : PgRow → nat → option (option bool);
  try_i16 : PgRow → nat → option (option Z);
  try_i32 : PgRow → nat → option (option Z);
  try_i64 : PgRow → nat → option (option Z);
  try_f32 : PgRow → nat → option (option N);
  try_f64 : PgRow → nat → option (option N);
  try_bytes : PgRow → nat → option (option bytes);
  try_json : PgRow → nat → option (option Value);
  try_date : PgRow → nat → option (option NaiveDate);
  try_time : PgRow → nat → option (option NaiveTime);
  try_datetime : PgRow → nat → option (option NaiveDateTime)
}.

Record OpenGaussSession `{GaussClient} := { session_client : Client }.

Record QueryResult := { qr_columns : list DuckValue.ColumnSpec; qr_rows : list Row }.

(** ** Values *)

Section values.
Context `{GaussClient, ValueLib}.

(** [row.try_get::<_, Option<T>>(i).ok().flatten()] *)
Definition flat {A} (get : PgRow → nat → option (option A)) (row : PgRow) (i : nat) : option A :=
  get row i ≫= id.

(** [row.get::<_, T>(i)] *)
Definition must {E A} (get : PgRow → nat → option (option A)) (row : PgRow) (i : nat) : outcome E A :=
  match flat get row i with Some a => Ok a | None => Panic end.

Definition bind_param (param : CellValue) : AnyError + SqlParam :=
  match param with
  | CNull => inr PNull
  | CBool value => inr (PBool value)
  | CI64 value => inr (PI64 value)
  | CU64 value =>
      if (value <=? 9223372036854775807)%N then inr (PI64 (Z.of_N value))
      else inr (PString (show_N value))
  | CF64 value => inr (PF64 value)
  | CBytes value =>
      match base64_decode value with
      | inl e => inl (context (lit "invalid base64 bytes parameter") (error_msg e))
      | inr b => inr (PBytes b)
      end
  | CJson value => inr (PJson value)
  | CDate value =>
      match parse_date value with inl e => inl (error_msg e) | inr d => inr (PDate d) end
  | CTime value =>
      match parse_time value with inl e => inl (error_msg e) | inr t => inr (PTime t) end
  | CDatetime value =>
      match parse_datetime value with inl _ => inr (PString value) | inr d => inr (PDatetime d) end
  | CDecimal value | CText value | CUuid value | CDuration value | CGeo value =>
      inr (PString value)
  | CArray value => inr (PJson (Array value))
  | CMap value => inr (PJson (Object value))
  | CCustom _ raw => inr (PString raw)
  end.

Fixpoint bind_params (params : list CellValue) : AnyError + list SqlParam :=
  match params with
  | [] => inr []
  | param :: rest =>
      match bind_param param with
      | inl e => inl e
      | inr p => match bind_params rest with inl e => inl e | inr ps => inr (p :: ps) end
      end
  end.

Definition column_type_kind (ty : PgType) : ColumnTypeKind :=
  let name := type_name ty in
  if one_of ["bool"] name then KBool
  else if one_of ["int2"; "int4"; "int8"; "oid"] name then KI64
  else if one_of ["float4"; "float8"] name then KF64
  else if one_of ["numeric"; "money"] name then KDecimal
  else if one_of ["json"; "jsonb"] name then KJson
  else if one_of ["bytea"] name then KBytes
  else if one_of ["date"] name then KDate
  else if one_of ["time"; "timetz"] name then KTime
  else if one_of ["timestamp"; "timestamptz"] name then KDatetime
  else KText.

Definition column_to_spec (column : text * PgType) : DuckValue.ColumnSpec :=
  {| column_name := column.1; column_type := type_name column.2;
     column_kind := column_type_kind column.2 |}.

(** [.map(cell).unwrap_or(CellValue::Null)] *)
Definition or_null {A} (cell : A → CellValue) (value : option A) : CellValue :=
  from_option cell CNull value.

Definition row_cell_value (row : PgRow) (idx : nat) (ty : PgType) : CellValue :=
  match ty with
  | BOOL => or_null CBool (flat try_bool row idx)
  | INT2 => or_null CI64 (flat try_i16 row idx)
  | INT4 => or_null CI64 (flat try_i32 row idx)
  | INT8 => or_null CI64 (flat try_i64 row idx)
  | FLOAT4 => or_null (λ v, CF64 (f32_to_f64 v)) (flat try_f32 row idx)
  | FLOAT8 => or_null CF64 (flat try_f64 row idx)
  | BYTEA => or_null (λ v, CBytes (base64_encode v)) (flat try_bytes row idx)
  | JSON | JSONB => or_null CJson (flat try_json row idx)
  | DATE => or_null (λ v, CDate (show_date v)) (flat try_date row idx)
  | TIME => or_null (λ v, CTime (show_time v)) (flat try_time row idx)
  | TIMESTAMP => or_null (λ v, CDatetime (show_datetime v)) (flat try_datetime row idx)
  | OtherType _ => or_null CText (flat try_string row idx)
  end.

Definition row_values (row : PgRow) : Row :=
  imap (λ idx column, row_cell_value row idx column.2) (row_columns row).

Definition rows_to_query_result (rows : list PgRow) : QueryResult :=
  {| qr_columns := from_option (λ row, column_to_spec <$> row_columns row) [] (head rows);
     qr_rows := row_values <$> rows |}.

Definition pg_type_kind (value : text) : text :=
  if one_of ["e"] value then lit "enum"
  else if one_of ["c"] value then lit "composite"
  else if one_of ["d"] value then lit "domain"
  else if one_of ["r"] value then lit "range"
  else lit "udt".
End values.

(** ** Statements *)

Section session.
Context `{GaussClient, ValueLib}.

Abbreviation call A := (comp Server AnyError A) (only parsing).

(** A call of the client, with what becomes of its error. *)
Definition on_server {A} (error : AnyError → AnyError) (m : Server → Server * (AnyError + A))
    : call A := λ s,
  ((m s).1, match (m s).2 with inl e => Err (error e) | inr a => Ok a end).

Lemma on_server_bind {A B} error (m : Server → Server * (AnyError + A)) (f : A → call B) s :
  (on_server error m ≫= f) s =
    match (m s).2 with
    | inl e => ((m s).1, Err (error e))
    | inr a => f a (m s).1
    end.
Proof. unfold on_server, mbind, comp_bind. by destruct (m s) as [d []]. Qed.

Definition lift_sum {A} (r : AnyError + A) : outcome AnyError A :=
  match r with inl e => Err e | inr a => Ok a end.

(** [map_err(anyhow::Error::msg)] *)
Definition lift_msg {A} (r : text + A) : outcome AnyError A :=
  match r with inl e => Err (error_msg e) | inr a => Ok a end.

Definition tls_connector (cfg : Config) : outcome AnyError Connector :=
  map_err (context (lit "invalid OpenGauss TLS certificate configuration"))
    (lift_msg (to_native_tls_connector cfg)).

(** The connector of a connection that uses TLS. *)
Definition tls_of (requires_tls : bool) (cfg : Config) : outcome AnyError (option Connector) :=
  if requires_tls then connector ← tls_connector cfg; Ok (Some connector) else Ok None.

Definition connect (cfg : Config) : call OpenGaussSession :=
  _ ← on_server (context (lit "failed to create OpenGauss Tokio runtime")) new_runtime;
  requires_tls ← lift_outcome (map_err (context (lit "invalid OpenGauss SSL mode"))
                                 (lift_msg (requires_tls_connector cfg)));
  client_config ← lift_outcome (lift_msg (to_client_config cfg));
  tls ← lift_outcome (tls_of requires_tls cfg);
  client ← on_server (context (lit "failed to connect to OpenGauss at " ++ endpoint cfg))
             (client_connect client_config tls);
  mret {| session_client := client |}.

Definition close (session : OpenGaussSession) (s : Server) : Server :=
  abort_task (session_client session) s.

Context (session : OpenGaussSession).

Definition ping : call () :=
  on_server (context (lit "failed to ping OpenGauss with SELECT 1"))
    (simple_query (session_client session) (lit "SELECT 1")).

(** [block_on(client.query(sql, &[]))?] *)
Definition plain_query (sql : text) : call (list PgRow) :=
  on_server id (client_query (session_client session) sql []).

Definition query_single_string (sql : text) : call text :=
  rows ← plain_query sql;
  match rows with
  | row :: _ => lift_outcome (must try_string row 0)
  | [] => throw (error_msg (lit "query `" ++ sql ++ lit "` returned no rows"))
  end.

Definition server_version : call text := query_single_string (lit "SELECT version()").
Definition current_database : call text := query_single_string (lit "SELECT current_database()").

Definition query (sql : text) (params : list CellValue) : call QueryResult :=
  params ← lift_outcome (lift_sum (bind_params params));
  rows ← on_server (context (lit "failed to execute OpenGauss query `" ++ sql ++ lit "`"))
           (client_query (session_client session) sql params);
  mret (rows_to_query_result rows).

Definition execute (sql : text) (params : list CellValue) : call N :=
  params ← lift_outcome (lift_sum (bind_params params));
  on_server (context (lit "failed to execute OpenGauss statement `" ++ sql ++ lit "`"))
    (client_execute (session_client session) sql params).

(** The first statement that fails ends it. *)
Fixpoint execute_batch (statements : list text) : call (list N) :=
  match statements with
  | [] => mret []
  | statement :: rest =>
      affected ← execute statement [];
      counts ← execute_batch rest;
      mret (affected :: counts)
  end.

Definition simple_execute (sql : text) : call () :=
  on_server (context (lit "failed to execute OpenGauss batch `" ++ sql ++ lit "`"))
    (batch_execute (session_client session) sql).

Definition database_matches (database : option text) : call bool :=
  match non_blank database with
  | None => mret true
  | Some database =>
      current ← current_database;
      mret (bool_decide (database = current))
  end.

(** [if !self.database_matches(database)? { return Ok(empty) }] *)
Definition in_database {A} (database : option text) (empty : A) (k : call A) : call A :=
  matches ← database_matches database;
  if (matches : bool) then k else mret empty.
End session.
