(* ===== verification/GaussCatalog.v ===== *)
(** * The openGauss driver: the catalog

    The catalog queries of ipc/opengauss/src/session.rs.  Each asks the server only if the
    database named, if any, is the current one; the names the host gives are quoted into
    the text of the query.  A column the code reads without a default panics where it is
    absent. *)

From S2P Require Import Prelude VncClipboard Text JsonValue DuckValue DuckState DdlSpec GaussDdl GaussState GaussSession.

(** ** Results, as far as they are set *)

Record DatabaseInfo := { dbi_name : text; dbi_owner : option text }.
Record SchemaInfo := { sci_name : text; sci_owner : option text; sci_comment : text }.
Record ObjectInfo := {
  obi_name : text; obi_kind : ObjectKind; obi_schema : text; obi_comment : text; obi_extra : Value
}.
Record ColumnInfo := {
  coi_ordinal : N; coi_name : text; coi_type_str : text; coi_raw_type : option text;
  coi_nullable : bool; coi_default : option text; coi_max_length : option N;
  coi_precision : option N; coi_scale : option Z; coi_comment : text
}.
Record ViewInfo := {
  vwi_name : text; vwi_kind : ObjectKind; vwi_definition_sql : text; vwi_comment : text;
  vwi_extra : Value
}.
Record IndexInfo := {
  ixi_name : text; ixi_table : text; ixi_columns : list text; ixi_kind : option text;
  ixi_is_unique : bool; ixi_extra : Value
}.
Record ForeignKeyInfo := {
  fki_name : text; fki_from_table : text; fki_from_columns : list text; fki_to_table : text;
  fki_to_columns : list text; fki_to_schema : option text; fki_on_update : option text;
  fki_on_delete : option text; fki_comment : text
}.
Record CheckInfo := { cki_name : text; cki_table : text; cki_definition : option text }.
Record FunctionInfo := {
  fni_name : text; fni_return_type : option text; fni_language : option text;
  fni_definition : option text; fni_comment : text; fni_extra : Value
}.
Record TriggerInfo := {
  tri_name : text; tri_table : text; tri_timing : text; tri_event : text;
  tri_definition : option text; tri_comment : text; tri_extra : Value
}.
(** A bound is of a type of the protocol crate. *)
Record SequenceInfo (Bound : Type) := {
  sqi_name : text; sqi_start_value : option Bound; sqi_min_value : option Bound;
  sqi_max_value : option Bound; sqi_increment : option Bound; sqi_extra : Value
}.
Arguments Build_SequenceInfo {_}.
Arguments sqi_name {_} _.
Arguments sqi_extra {_} _.
Record TypeInfo := { tyi_name : text; tyi_kind : text; tyi_definition : option text; tyi_extra : Value }.
Record ViewDefinitionResult := { vd_sql : text; vd_is_materialized : bool }.
Record ObjectRef := {
  or_kind : ObjectKind; or_database : option text; or_schema : option text; or_name : text
}.
Record DumpDdlOptions := { dump_if_not_exists : bool }.

(** [v.parse().ok()] at the type of a sequence's bounds. *)
Class BoundLib := { Bound : Type; parse_bound : text → option Bound }.

Section catalog.
Context `{GaussClient, BoundLib}.
Context (session : OpenGaussSession).

Abbreviation call A := (comp Server AnyError A) (only parsing).

(** ** Queries *)

(** [row.get::<_, String>(i)] *)
Definition text_at (row : PgRow) (i : nat) : outcome AnyError text := must try_string row i.

(** The rows of a query, each read by [decode]. *)
Definition select {A} (sql : text) (decode : PgRow → outcome AnyError A) : call (list A) :=
  rows ← plain_query session sql;
  lift_outcome (mapM decode rows).

(** [" AND column = 'value'"], for a value that is not blank *)
Definition and_equals (column : text) (value : option text) : text :=
  match non_blank value with
  | Some value => lit " AND " ++ column ++ lit " = " ++ quote_literal value
  | None => []
  end.

(** [json!({ "schema": row.get(i) })] *)
Definition schema_extra (schema : text) : Value := Object [(lit "schema", Str schema)].

Definition schema_or_public (schema : option text) : text := default (lit "public") (non_blank schema).

Definition list_databases : call (list DatabaseInfo) :=
  select (lit "SELECT datname, pg_catalog.pg_get_userbyid(datdba) AS owner " ++
          lit "FROM pg_database WHERE datallowconn ORDER BY datname")
    (λ row, name ← text_at row 0;
            Ok {| dbi_name := name; dbi_owner := flat try_string row 1 |}).

Definition list_schemas (database : option text) : call (list SchemaInfo) :=
  in_database session database [] (select
    (lit "SELECT schema_name, schema_owner FROM information_schema.schemata ORDER BY schema_name")
    (λ row, name ← text_at row 0;
            Ok {| sci_name := name; sci_owner := flat try_string row 1; sci_comment := [] |})).

(** *** Columns and views *)

(** [v as u32] *)
Definition i32_as_u32 (v : Z) : N := Z.to_N (v `mod` 2 ^ 32)%Z.

Definition columns_sql (schema : option text) (table : text) : text :=
  lit "SELECT c.ordinal_position, c.column_name, c.data_type, c.udt_name, c.is_nullable, c.column_default, " ++
  lit "c.character_maximum_length, c.numeric_precision, c.numeric_scale, " ++
  lit "pg_catalog.col_description(pc.oid, c.ordinal_position) " ++
  lit "FROM information_schema.columns c " ++
  lit "LEFT JOIN pg_catalog.pg_class pc ON pc.relname = c.table_name " ++
  lit "AND pc.relnamespace = (SELECT oid FROM pg_catalog.pg_namespace WHERE nspname = c.table_schema) " ++
  lit "WHERE c.table_schema = " ++ quote_literal (schema_or_public schema) ++
  lit " AND c.table_name = " ++ quote_literal table ++ lit " ORDER BY c.ordinal_position".

Definition column_info (row : PgRow) : outcome AnyError ColumnInfo :=
  ordinal ← must try_i32 row 0;
  type_str ← text_at row 2;
  name ← text_at row 1;
  Ok {| coi_ordinal := Z.to_N ordinal; coi_name := name; coi_type_str := type_str;
        coi_raw_type := Some (default type_str (flat try_string row 3));
        coi_nullable := match flat try_string row 4 with
                        | Some value => eq_ignore_ascii_case value (lit "YES")
                        | None => true
                        end;
        coi_default := flat try_string row 5;
        coi_max_length := i32_as_u32 <$> flat try_i32 row 6;
        coi_precision := i32_as_u32 <$> flat try_i32 row 7;
        coi_scale := flat try_i32 row 8;
        coi_comment := default [] (flat try_string row 9) |}.

Definition list_columns (database schema : option text) (table : text) : call (list ColumnInfo) :=
  in_database session database [] (select (columns_sql schema table) column_info).

Definition list_views (database schema : option text) : call (list ViewInfo) :=
  in_database session database [] (select
    (lit "SELECT table_schema, table_name, view_definition FROM information_schema.views WHERE 1 = 1" ++
     and_equals (lit "table_schema") schema ++ lit " ORDER BY table_schema, table_name")
    (λ row, name ← text_at row 1;
            schema ← text_at row 0;
            Ok {| vwi_name := name; vwi_kind := ViewKind;
                  vwi_definition_sql := default [] (flat try_string row 2); vwi_comment := [];
                  vwi_extra := schema_extra schema |})).

(** *** Indexes and constraints *)

Definition list_indexes (database schema table : option text) : call (list IndexInfo) :=
  in_database session database [] (select
    (lit "SELECT schemaname, tablename, indexname, indexdef FROM pg_indexes WHERE 1 = 1" ++
     and_equals (lit "schemaname") schema ++ and_equals (lit "tablename") table ++
     lit " ORDER BY schemaname, tablename, indexname")
    (λ row, name ← text_at row 2;
            table ← text_at row 1;
            schema ← text_at row 0;
            definition ← text_at row 3;
            Ok {| ixi_name := name; ixi_table := table; ixi_columns := []; ixi_kind := None;
                  ixi_is_unique :=
                    starts_with (lit "CREATE UNIQUE") (to_ascii_uppercase definition);
                  ixi_extra := Object [(lit "schema", Str schema);
                                       (lit "definition", Str definition)] |})).

Definition foreign_keys_sql (schema : option text) (table : text) : text :=
  lit "SELECT tc.constraint_name, tc.table_name, kcu.column_name, " ++
  lit "ccu.table_name AS foreign_table_name, ccu.column_name AS foreign_column_name, " ++
  lit "rc.update_rule, rc.delete_rule, ccu.table_schema AS foreign_table_schema " ++
  lit "FROM information_schema.table_constraints tc " ++
  lit "JOIN information_schema.key_column_usage kcu " ++
  lit "ON tc.constraint_name = kcu.constraint_name AND tc.table_schema = kcu.table_schema " ++
  lit "JOIN information_schema.constraint_column_usage ccu " ++
  lit "ON ccu.constraint_name = tc.constraint_name AND ccu.table_schema = tc.table_schema " ++
  lit "LEFT JOIN information_schema.referential_constraints rc " ++
  lit "ON rc.constraint_name = tc.constraint_name AND rc.constraint_schema = tc.table_schema " ++
  lit "WHERE tc.constraint_type = 'FOREIGN KEY' AND tc.table_schema = " ++
  quote_literal (schema_or_public schema) ++ lit " AND tc.table_name = " ++ quote_literal table ++
  lit " ORDER BY tc.constraint_name, kcu.ordinal_position".

Definition foreign_key_info (row : PgRow) : outcome AnyError ForeignKeyInfo :=
  name ← text_at row 0;
  from_table ← text_at row 1;
  from_column ← text_at row 2;
  to_table ← text_at row 3;
  to_column ← text_at row 4;
  Ok {| fki_name := name; fki_from_table := from_table; fki_from_columns := [from_column];
        fki_to_table := to_table; fki_to_columns := [to_column];
        fki_to_schema := flat try_string row 7; fki_on_update := flat try_string row 5;
        fki_on_delete := flat try_string row 6; fki_comment := [] |}.

Definition list_foreign_keys (database schema : option text) (table : text)
    : call (list ForeignKeyInfo) :=
  in_database session database [] (select (foreign_keys_sql schema table) foreign_key_info).

Definition list_checks (database schema : option text) (table : text) : call (list CheckInfo) :=
  in_database session database [] (select
    (lit "SELECT tc.constraint_name, tc.table_name, cc.check_clause " ++
     lit "FROM information_schema.table_constraints tc " ++
     lit "JOIN information_schema.check_constraints cc " ++
     lit "ON cc.constraint_name = tc.constraint_name AND cc.constraint_schema = tc.constraint_schema " ++
     lit "WHERE tc.constraint_type = 'CHECK' AND tc.table_schema = " ++
     quote_literal (schema_or_public schema) ++ lit " AND tc.table_name = " ++
     quote_literal table ++ lit " ORDER BY tc.constraint_name")
    (λ row, name ← text_at row 0;
            table ← text_at row 1;
            Ok {| cki_name := name; cki_table := table; cki_definition := flat try_string row 2 |})).

(** *** Functions, triggers, sequences and types *)

Definition list_functions (database schema : option text) : call (list FunctionInfo) :=
  in_database session database [] (select
    (lit "SELECT n.nspname, p.proname, pg_catalog.pg_get_function_result(p.oid), l.lanname, pg_catalog.pg_get_functiondef(p.oid) " ++
     lit "FROM pg_catalog.pg_proc p " ++
     lit "JOIN pg_catalog.pg_namespace n ON n.oid = p.pronamespace " ++
     lit "JOIN pg_catalog.pg_language l ON l.oid = p.prolang " ++
     lit "WHERE n.nspname NOT LIKE 'pg_toast%'" ++
     and_equals (lit "n.nspname") schema ++ lit " ORDER BY n.nspname, p.proname")
    (λ row, name ← text_at row 1;
            schema ← text_at row 0;
            Ok {| fni_name := name; fni_return_type := flat try_string row 2;
                  fni_language := flat try_string row 3; fni_definition := flat try_string row 4;
                  fni_comment := []; fni_extra := schema_extra schema |})).

Definition list_procedures (database schema : option text) : call (list FunctionInfo) :=
  list_functions database schema.

Definition list_triggers (database schema table : option text) : call (list TriggerInfo) :=
  in_database session database [] (select
    (lit "SELECT trigger_schema, event_object_table, trigger_name, action_timing, event_manipulation, action_statement " ++
     lit "FROM information_schema.triggers WHERE 1 = 1" ++
     and_equals (lit "trigger_schema") schema ++ and_equals (lit "event_object_table") table ++
     lit " ORDER BY trigger_schema, event_object_table, trigger_name")
    (λ row, name ← text_at row 2;
            table ← text_at row 1;
            timing ← text_at row 3;
            event ← text_at row 4;
            schema ← text_at row 0;
            Ok {| tri_name := name; tri_table := table; tri_timing := to_ascii_lowercase timing;
                  tri_event := to_ascii_lowercase event; tri_definition := flat try_string row 5;
                  tri_comment := []; tri_extra := schema_extra schema |})).

Definition list_sequences (database schema : option text) : call (list (SequenceInfo Bound)) :=
  in_database session database [] (select
    (lit "SELECT sequence_schema, sequence_name, start_value, minimum_value, maximum_value, increment " ++
     lit "FROM information_schema.sequences WHERE 1 = 1" ++
     and_equals (lit "sequence_schema") schema ++ lit " ORDER BY sequence_schema, sequence_name")
    (λ row, name ← text_at row 1;
            schema ← text_at row 0;
            Ok {| sqi_name := name; sqi_start_value := flat try_string row 2 ≫= parse_bound;
                  sqi_min_value := flat try_string row 3 ≫= parse_bound;
                  sqi_max_value := flat try_string row 4 ≫= parse_bound;
                  sqi_increment := flat try_string row 5 ≫= parse_bound;
                  sqi_extra := schema_extra schema |})).

Definition list_types (database schema : option text) : call (list TypeInfo) :=
  in_database session database [] (select
    (lit "SELECT n.nspname, t.typname, t.typtype FROM pg_catalog.pg_type t " ++
     lit "JOIN pg_catalog.pg_namespace n ON n.oid = t.typnamespace " ++
     lit "WHERE n.nspname NOT IN ('pg_catalog', 'information_schema') " ++
     lit "AND n.nspname NOT LIKE 'pg_toast%'" ++
     and_equals (lit "n.nspname") schema ++ lit " ORDER BY n.nspname, t.typname")
    (λ row, name ← text_at row 1;
            kind ← text_at row 2;
            schema ← text_at row 0;
            Ok {| tyi_name := name; tyi_kind := pg_type_kind kind; tyi_definition := None;
                  tyi_extra := schema_extra schema |})).

(** *** Objects *)

Definition relations_sql (view : string) (condition : string) (schema : option text) : text :=
  lit "SELECT t.table_name, t.table_schema, pg_catalog.obj_description(c.oid, 'pg_class') " ++
  lit "FROM information_schema." ++ lit view ++ lit " t " ++
  lit "LEFT JOIN pg_catalog.pg_namespace ns ON ns.nspname = t.table_schema " ++
  lit "LEFT JOIN pg_catalog.pg_class c " ++
  lit "ON c.relname = t.table_name AND c.relnamespace = ns.oid WHERE " ++ lit condition ++
  and_equals (lit "t.table_schema") schema ++ lit " ORDER BY t.table_schema, t.table_name".

Definition relation_info (kind : ObjectKind) (row : PgRow) : outcome AnyError ObjectInfo :=
  name ← text_at row 0;
  Ok {| obi_name := name; obi_kind := kind; obi_schema := default [] (flat try_string row 1);
        obi_comment := default [] (flat try_string row 2); obi_extra := Null |}.

(** An object that a list of another kind gave. *)
Definition listed (kind : ObjectKind) (name comment : text) (extra : Value) : ObjectInfo :=
  {| obi_name := name; obi_kind := kind;
     obi_schema := default [] (get (lit "schema") extra ≫= as_str); obi_comment := comment;
     obi_extra := extra |}.

Definition includes (kinds : list ObjectKind) (kind : ObjectKind) : bool :=
  bool_decide (kinds = []) || bool_decide (kind ∈ kinds).

(** [if include { objects.extend(..) }] *)
Definition when_included (include : bool) (k : call (list ObjectInfo)) : call (list ObjectInfo) :=
  if include then k else mret [].

Definition list_objects (database schema : option text) (kinds : list ObjectKind)
    : call (list ObjectInfo) :=
  in_database session database [] (
    tables ← when_included (includes kinds TableKind)
      (select (relations_sql "tables" "t.table_type = 'BASE TABLE'" schema) (relation_info TableKind));
    views ← when_included (includes kinds ViewKind)
      (select (relations_sql "views" "1 = 1" schema) (relation_info ViewKind));
    sequences ← when_included (includes kinds SequenceKind)
      (found ← list_sequences database (non_blank schema);
       mret ((λ seq, listed SequenceKind (sqi_name seq) [] (sqi_extra seq)) <$> found));
    functions ← when_included (includes kinds FunctionKind)
      (found ← list_functions database (non_blank schema);
       mret ((λ f, listed FunctionKind (fni_name f) (fni_comment f) (fni_extra f)) <$> found));
    types ← when_included (includes kinds TypeKind)
      (found ← list_types database (non_blank schema);
       mret ((λ ty, listed TypeKind (tyi_name ty) [] (tyi_extra ty)) <$> found));
    mret (tables ++ views ++ sequences ++ functions ++ types)).

(** ** Definitions *)

Definition no_definition : ViewDefinitionResult := {| vd_sql := []; vd_is_materialized := false |}.

Definition view_definition (database schema : option text) (view : text)
    : call ViewDefinitionResult :=
  in_database session database no_definition (
    rows ← plain_query session
      (lit "SELECT pg_catalog.pg_get_viewdef(c.oid, true), c.relkind = 'm' " ++
       lit "FROM pg_catalog.pg_class c " ++
       lit "JOIN pg_catalog.pg_namespace n ON n.oid = c.relnamespace " ++
       lit "WHERE n.nspname = " ++ quote_literal (schema_or_public schema) ++
       lit " AND c.relname = " ++ quote_literal view ++ lit " AND c.relkind IN ('v','m')");
    mret (from_option (λ row, {| vd_sql := default [] (flat try_string row 0);
                                 vd_is_materialized := default false (flat try_bool row 1) |})
            no_definition (head rows))).

(** [None] where the table does not exist or the server does not have the function: the
    error of the query is dropped. *)
Definition table_definition (database schema : option text) (table : text)
    : call (option text) :=
  in_database session database None (
    rows ← attempt (E:=AnyError) (plain_query session
      (lit "SELECT pg_catalog.pg_get_tabledef(c.oid) FROM pg_catalog.pg_class c " ++
       lit "JOIN pg_catalog.pg_namespace n ON n.oid = c.relnamespace " ++
       lit "WHERE n.nspname = " ++ quote_literal (schema_or_public schema) ++
       lit " AND c.relname = " ++ quote_literal table ++ lit " AND c.relkind IN ('r','p','f')"));
    mret match rows with
         | inr rows => head rows ≫= λ row, flat try_string row 0
         | inl _ => None
         end).

(** The statement of one object, if it has one. *)
Definition dump_object (options : DumpDdlOptions) (object : ObjectRef) : call (list text) :=
  let qualified := qualified_name (or_database object) (or_schema object) (or_name object) in
  match or_kind object with
  | ViewKind | MaterializedViewKind =>
      def ← view_definition (or_database object) (or_schema object) (or_name object);
      mret (if blank (vd_sql def) then []
            else [lit (if vd_is_materialized def then "CREATE MATERIALIZED VIEW" else "CREATE VIEW") ++
                  lit (if dump_if_not_exists options then " IF NOT EXISTS" else "") ++ lit " " ++
                  qualified ++ lit " AS " ++ vd_sql def])
  | TableKind =>
      ddl ← table_definition (or_database object) (or_schema object) (or_name object);
      mret [default (lit "-- DDL dump for table " ++ qualified ++
                     lit " requires server-side pg_get_tabledef support") ddl]
  | _ => mret []
  end.

Fixpoint dump_ddl (objects : list ObjectRef) (options : DumpDdlOptions) : call (list text) :=
  match objects with
  | [] => mret []
  | object :: rest =>
      statements ← dump_object options object;
      others ← dump_ddl rest options;
      mret (statements ++ others)
  end.
End catalog.
