(* ===== verification/GaussExport.v ===== *)
(** * The openGauss driver: export and import text

    The pure functions of ipc/opengauss/src/handlers.rs: the query of an export, its JSON,
    NDJSON and CSV forms, and the statement that inserts a row of an import.  Types of the
    protocol crate are those of the DuckDB driver's files. *)

From S2P Require Import Prelude VncClipboard Text JsonValue DuckValue DuckState DuckText DuckDemo DdlSpec GaussDdl GaussState.

Abbreviation result A := (outcome GaussState.ProtocolError A) (only parsing).

(** ** The query of an export *)

(** The columns an export selects. *)
Definition export_columns (p : ExportParams) : text :=
  let selected := quote_identifier <$>
    filter (λ column, column ∉ ex_exclude_columns p) (ex_include_columns p) in
  if bool_decide (selected = []) then lit "*" else join (lit ", ") selected.

Definition export_sql (p : ExportParams) : result text :=
  match non_blank (ex_sql p) with
  | Some sql => Ok sql
  | None =>
      table ← of_option (invalid_params (lit "data/export requires `sql` or `table`"))
                (non_blank (ex_table p));
      Ok (lit "SELECT " ++ export_columns p ++ lit " FROM " ++
          qualified_name (ex_database p) (ex_schema p) table ++
          match non_blank (ex_where_clause p) with
          | Some where_clause => lit " WHERE " ++ where_clause
          | None => []
          end)
  end.

(** The text [handle_data_export] runs. *)
Definition limited_export_sql (p : ExportParams) : result text :=
  sql ← export_sql p;
  Ok (sql ++ from_option (λ max_rows, lit " LIMIT " ++ show_N max_rows) [] (ex_max_rows p)).

(** ** Inserting a row *)

Definition placeholders (n : nat) : text :=
  join (lit ", ") ((λ idx, lit "$" ++ show_N (N.of_nat idx)) <$> seq 1 n).

Definition conflict_clause (options : ImportOptions) : text :=
  if upsert options then
    if bool_decide (on_conflict_columns options = []) then lit " ON CONFLICT DO NOTHING"
    else lit " ON CONFLICT (" ++ join (lit ", ") (quote_identifier <$> on_conflict_columns options) ++
         lit ") DO NOTHING"
  else [].

Definition build_insert_sql (import : GaussState.ImportState) (row : Row)
    : result (text * list CellValue) :=
  if negb (bool_decide (length row = length (columns import))) then
    Err (invalid_params (lit "import row has " ++ show_N (N.of_nat (length row)) ++
      lit " cells but " ++ show_N (N.of_nat (length (columns import))) ++
      lit " columns were declared"))
  else
    Ok (lit "INSERT INTO " ++ qualified_name (database import) (schema import) (table import) ++
        lit " (" ++ join (lit ", ") (quote_identifier <$> columns import) ++ lit ") VALUES (" ++
        placeholders (length (columns import)) ++ lit ")" ++ conflict_clause (options import),
        row).

(** ** The forms of an export *)

Section format.
Context `{ValueLib}.

Definition cell_to_json (cell : CellValue) : Value :=
  match cell with
  | CNull => Null
  | CBool value => Bool value
  | CI64 value => json_i64 value
  | CU64 value => Number (PosInt value)
  | CF64 value => json_f64 value
  | CDecimal value | CText value | CUuid value | CDate value | CTime value
  | CDatetime value | CDuration value | CBytes value | CGeo value => Str value
  | CJson value => value
  | CArray value => Array value
  | CMap value => Object value
  | CCustom _ raw => Str raw
  end.

(** The members of an object, of columns that may have the same name. *)
Definition json_object (names : list text) (row : Row) : Value :=
  Object (foldl (λ members '(name, cell), insert_member name (cell_to_json cell) members)
            [] (zip names row)).

Definition rows_to_json_objects (names : list text) (rows : list Row) : list Value :=
  json_object names <$> rows.

Definition rows_to_ndjson (names : list text) (rows : list Row) : text :=
  join [10%N] (json_text <$> rows_to_json_objects names rows).

Definition cell_to_csv_string (cell : CellValue) (options : CsvOptions) : text :=
  match cell_to_json cell with
  | Null => default (lit "\N") (null_string options)
  | Str value => value
  | other => json_text other
  end.

Definition cell_to_csv_field (cell : CellValue) (options : CsvOptions) : text * bool :=
  let value := cell_to_csv_string cell options in
  let null_string := default (lit "\N") (null_string options) in
  let is_null := match cell with CNull => true | _ => false end in
  (value, negb is_null && (bool_decide (value = []) || bool_decide (value = null_string))).

Definition csv_escape (value : text) (options : CsvOptions) (force_quote : bool) : text :=
  if force_quote || contains (delimiter options) value || contains (quote options) value ||
     has_char 10 value || has_char 13 value then
    quote options ++ replace (quote options) (quote options ++ quote options) value ++ quote options
  else value.

Definition csv_row (fields : list (text * bool)) (options : CsvOptions) : text :=
  join (delimiter options) ((λ '(value, force_quote), csv_escape value options force_quote) <$> fields).

Definition rows_to_csv (names : list text) (rows : list Row) (options : CsvOptions) : text :=
  join [10%N]
    ((if header options then [csv_row ((λ name, (name, false)) <$> names) options] else []) ++
     ((λ row, csv_row ((λ cell, cell_to_csv_field cell options) <$> row) options) <$> rows)).
End format.

(** ** The two drivers' CSV *)

(** A cell of a type with a name of its own; the two drivers write it differently. *)
Definition is_custom (cell : CellValue) : bool :=
  match cell with CCustom _ _ => true | _ => false end.

Lemma cell_to_csv_field_same `{ValueLib} cell options :
  is_custom cell = false →
  cell_to_csv_field cell options = DuckText.cell_to_csv_field cell options.
Proof. by destruct cell. Qed.

Lemma csv_escape_same value options force :
  csv_escape value options force = DuckText.csv_escape value options force.
Proof.
  unfold csv_escape, DuckText.csv_escape.
  destruct force, (contains (delimiter options) value), (contains (quote options) value),
    (has_char 10 value), (has_char 13 value); done.
Qed.

Lemma csv_row_same fields options : csv_row fields options ++ [10%N] = csv_line fields options.
Proof.
  unfold csv_row, csv_line. f_equal. f_equal. apply list_fmap_ext.
  intros _ [value force] _. apply csv_escape_same.
Qed.

(** Lines joined by line feeds, with one more at the end, are the lines each with its own. *)
Lemma join_lines (ls : list text) :
  ls ≠ [] → join [10%N] ls ++ [10%N] = ls ≫= λ l, l ++ [10%N].
Proof.
  assert (Hrest : ∀ ls : list text, (ls ≫= λ p, [10%N] ++ p) ++ [10%N] =
                                     [10%N] ++ (ls ≫= λ l, l ++ [10%N])).
  { clear. induction ls as [|l ls IH]; [done|]. by rewrite !bind_cons, <-!app_assoc, IH. }
  destruct ls as [|l ls]; [done|]. intros _. cbn [join]. by rewrite <-app_assoc, Hrest, bind_cons, <-app_assoc.
Qed.

Lemma csv_rows_same `{ValueLib} rows options :
  Forall (Forall (λ cell, is_custom cell = false)) rows →
  (((λ row, csv_row ((λ cell, cell_to_csv_field cell options) <$> row) options) <$> rows)
     ≫= λ l, l ++ [10%N]) =
  rows ≫= λ row, csv_line ((λ cell, DuckText.cell_to_csv_field cell options) <$> row) options.
Proof.
  induction 1 as [|row rows Hrow _ IH]; [done|]. rewrite fmap_cons, !bind_cons, IH, csv_row_same.
  do 2 f_equal. apply list_fmap_ext. intros i cell Hcell.
  apply cell_to_csv_field_same. exact (Forall_lookup_1 _ _ _ _ Hrow Hcell).
Qed.

(** The two database drivers export the same table to the same CSV: where there is a
    line at all and no cell of a custom type, the openGauss driver's text is the DuckDB
    driver's without the last line feed, so what is proved of reading the one holds of the
    other. *)
Theorem csv_exports_agree `{ValueLib} names rows options
    (Hlines : header options = true ∨ rows ≠ [])
    (Hcells : Forall (Forall (λ cell, is_custom cell = false)) rows) :
  utf8_encode (rows_to_csv names rows options ++ [10%N]) =
    (render_csv_rows options false names rows).2.
Proof.
  unfold rows_to_csv, render_csv_rows. cbn [snd negb]. f_equal. rewrite andb_true_r.
  rewrite join_lines; [|destruct Hlines as [->|Hrows]; [done|destruct (header options), rows; done]].
  rewrite bind_app, csv_rows_same by done. f_equal.
  destruct (header options); simpl; [|done]. by rewrite app_nil_r, csv_row_same.
Qed.

Lemma csv_exports_agree_witness :
  let options := {| delimiter := [44%N]; quote := [34%N]; header := true; null_string := None;
                    encoding := lit "utf-8" |} in
  let rows := [[CText (lit "1,2"); CNull]; [CText []; CText (lit "\N")]] in
  utf8_encode (@rows_to_csv DuckDemo.values [lit "a"; lit "b"] rows options ++ [10%N]) =
    (@render_csv_rows DuckDemo.values options false [lit "a"; lit "b"] rows).2.
Proof.
  intros options rows. apply csv_exports_agree.
  - by left.
  - repeat constructor.
Defined.
