(* ===== verification/GaussServer.v ===== *)
(** * The openGauss driver: the handlers

    ipc/opengauss/src/handlers.rs: the methods of an open connection, over the state of the
    connection and the server.  What serde derives for the messages is the class
    [GaussCodec]; the uuids drawn and the clock are arguments. *)

From S2P Require Import Prelude VncClipboard Text JsonValue DuckValue DuckState DuckText DdlSpec GaussDdl GaussState GaussSession GaussCatalog GaussExport.

(** ** Messages, as far as they are read or built *)

Record ConnTestParams := { ct_driver_id : text; ct_config : Value }.
Record QueryStartParams := { qs_sql : text; qs_params : list CellValue; qs_max_rows : option N }.
Record CursorFetchParams := { cf_cursor_id : text; cf_n : option N }.
Record ExecRunParams := { er_sql : text; er_params : list CellValue }.
Inductive IsolationLevel : Type :=
  | ReadUncommitted | ReadCommitted | RepeatableRead | Serializable | DefaultLevel.
Record TxBeginParams := {
  tb_isolation : option IsolationLevel; tb_read_only : bool; tb_deferrable : option bool
}.
Record TxRollbackParams := { tr_tx_id : text; to_savepoint : option text }.
(** [TxSavepointParams] and [TxReleaseParams] *)
Record TxNameParams := { tn_tx_id : text; tn_name : text }.
Record StreamReadParams := { sr_stream_id : text; sr_max_bytes : option N }.
Record ImportChunkParams := { ic_import_id : text; ic_rows : list Row }.
Record ObjectsParams := {
  ob_database : option text; ob_schema : option text; ob_kinds : list ObjectKind
}.
(** [ViewsParams] and the parameters of the lists that name a schema *)
Record SchemaParams := { sp_database : option text; sp_schema : option text }.
(** [ColumnsParams] and the parameters of the lists of a table *)
Record TableParams := { tp_database : option text; tp_schema : option text; tp_table : text }.
Record TriggersParams := {
  tg_database : option text; tg_schema : option text; tg_table : option text
}.
Record DumpDdlParams := { dp_objects : list ObjectRef; dp_options : DumpDdlOptions }.

Record ExportResult := {
  estimated_bytes : N; estimated_rows : N; metadata : Value
}.
Record StreamReadResult := { sr_data : text; sr_done : bool }.
Record ImportChunkResult := { chunk_inserted : N; chunk_failed : list GaussState.FailedRow }.
Record ImportCommitResult := {
  commit_inserted : N; commit_failed : list GaussState.FailedRow; commit_elapsed_ms : N
}.

(** A type that is only read for an identifier is parsed to the identifier; [unit], for one
    that is not read. *)
Class GaussCodec `{BoundLib} := {
  conn_test_params : FromValue ConnTestParams;
  conn_ping_params : FromValue ();
  conn_use_params : FromValue (option text);
  query_start_params : FromValue QueryStartParams;
  cursor_fetch_params : FromValue CursorFetchParams;
  cursor_close_params : FromValue text;
  cursor_cancel_params : FromValue text;
  exec_run_params : FromValue ExecRunParams;
  exec_batch_params : FromValue (list text);
  tx_begin_params : FromValue TxBeginParams;
  tx_commit_params : FromValue text;
  tx_rollback_params : FromValue TxRollbackParams;
  tx_savepoint_params : FromValue TxNameParams;
  tx_release_params : FromValue TxNameParams;
  export_params : FromValue ExportParams;
  csv_options : FromValue CsvOptions;
  default_csv_options : CsvOptions;
  stream_read_params : FromValue StreamReadParams;
  stream_close_params : FromValue text;
  import_begin_params : FromValue ImportBeginParams;
  import_chunk_params : FromValue ImportChunkParams;
  import_commit_params : FromValue text;
  import_abort_params : FromValue text;
  databases_params : FromValue ();
  schemas_params : FromValue text;
  objects_params : FromValue ObjectsParams;
  columns_params : FromValue TableParams;
  views_params : FromValue SchemaParams;
  indexes_params : FromValue TableParams;
  foreign_keys_params : FromValue TableParams;
  checks_params : FromValue TableParams;
  functions_params : FromValue SchemaParams;
  procedures_params : FromValue SchemaParams;
  triggers_params : FromValue TriggersParams;
  sequences_params : FromValue SchemaParams;
  types_params : FromValue SchemaParams;
  view_definition_params : FromValue TableParams;
  dump_ddl_params : FromValue DumpDdlParams;
  exec_run_value : ToValue N;
  exec_batch_value : ToValue (list N);
  tx_begin_value : ToValue text;
  export_value : ToValue ExportResult;
  stream_read_value : ToValue StreamReadResult;
  import_begin_value : ToValue text;
  import_chunk_value : ToValue ImportChunkResult;
  import_commit_value : ToValue ImportCommitResult;
  databases_value : ToValue (list DatabaseInfo);
  schemas_value : ToValue (list SchemaInfo);
  objects_value : ToValue (list ObjectInfo);
  columns_value : ToValue (list ColumnInfo);
  views_value : ToValue (list ViewInfo);
  indexes_value : ToValue (list IndexInfo);
  foreign_keys_value : ToValue (list ForeignKeyInfo);
  checks_value : ToValue (list CheckInfo);
  functions_value : ToValue (list FunctionInfo);
  triggers_value : ToValue (list TriggerInfo);
  sequences_value : ToValue (list (SequenceInfo Bound));
  types_value : ToValue (list TypeInfo);
  view_definition_value : ToValue ViewDefinitionResult;
  dump_ddl_value : ToValue (list text);
  column_value : DuckValue.ColumnSpec → Value;
  cell_value : CellValue → Value;
  format_value : DataFormat → Value
}.

Definition parse_params {T} (H : FromValue T) (v : Value) : result T :=
  match H v with inl error => Err (params_deserialize_error error) | inr p => Ok p end.

Definition serialize {T} (H : ToValue T) (a : T) : result Value :=
  match H a with inl error => Err (params_deserialize_error error) | inr v => Ok v end.

Record Gauss `{GaussClient} := {
  state : GaussState.ConnectionState OpenGaussSession; server : Server
}.

Section handlers.
Context `{GaussClient, ValueLib, BoundLib, ConfigCodec}.
Context {codec : GaussCodec}.

Abbreviation handler A := (comp Gauss ProtocolError A) (only parsing).
Abbreviation State := (GaussState.ConnectionState OpenGaussSession) (only parsing).
Abbreviation call A := (comp Server AnyError A) (only parsing).

Definition on_state {A} (m : State → State * A) : handler A := λ s,
  ({| state := (m (state s)).1; server := server s |}, Ok (m (state s)).2).

(** [state.conn_mut().call(..).map_err(|e| protocol_error_from_anyhow(code, e))?] *)
Definition on_conn {A} (code : ErrorCode) (m : OpenGaussSession → call A) : handler A := λ s,
  let '(server, r) := m (conn (state s)) (server s) in
  ({| state := state s; server := server |}, map_err (protocol_error_from_anyhow code) r).

Lemma gauss_on_state_bind {A B} (m : State → State * A) (f : A → handler B) s :
  (on_state m ≫= f) s = f (m (state s)).2 {| state := (m (state s)).1; server := server s |}.
Proof. done. Qed.

Lemma on_conn_bind {A B} code (m : OpenGaussSession → call A) (f : A → handler B) s :
  (on_conn code m ≫= f) s =
    match (m (conn (state s)) (server s)).2 with
    | Ok a => f a {| state := state s; server := (m (conn (state s)) (server s)).1 |}
    | Err e => ({| state := state s; server := (m (conn (state s)) (server s)).1 |},
                Err (protocol_error_from_anyhow code e))
    | Panic => ({| state := state s; server := (m (conn (state s)) (server s)).1 |}, Panic)
    end.
Proof. unfold on_conn, mbind, comp_bind. by destruct (m _ (server s)) as [d []]. Qed.

Definition unknown_cursor (id : text) : ProtocolError :=
  new_error UNKNOWN_CURSOR_ID (lit "unknown cursor_id `" ++ id ++ lit "`").
Definition unknown_tx (id : text) : ProtocolError :=
  new_error UNKNOWN_TX_ID (lit "unknown tx_id `" ++ id ++ lit "`").
Definition unknown_stream (id : text) : ProtocolError :=
  new_error RESOURCE_CLOSED (lit "unknown stream_id `" ++ id ++ lit "`").
Definition unknown_import (id : text) : ProtocolError :=
  new_error UNKNOWN_IMPORT_ID (lit "unknown import_id `" ++ id ++ lit "`").

(** ** Connections *)

Definition ensure_driver (driver_id : text) : result () :=
  ensure (bool_decide (driver_id = lit "opengauss"))
    (invalid_params (lit "unsupported driver_id `" ++ driver_id ++
      lit "` (this driver only handles `opengauss`)")).

(** The session of [conn/test] and [conn/open]. *)
Definition open_session (p : ConnTestParams) : comp Server ProtocolError OpenGaussSession :=
  _ ← lift_outcome (ensure_driver (ct_driver_id p));
  cfg ← lift_outcome match from_wire_config (ct_config p) with
                     | inl e => Err (params_deserialize_error e)
                     | inr cfg => Ok cfg
                     end;
  map_err_comp (protocol_error_from_anyhow IO_CONNECTION_REFUSED) (connect cfg).

(** [latency] is what the clock says the call took. *)
Definition handle_conn_test (latency : N) (params : Value) : comp Server ProtocolError Value :=
  p ← lift_outcome (parse_params conn_test_params params);
  session ← open_session p;
  _ ← map_err_comp (protocol_error_from_anyhow SERVER_CLOSED_CONNECTION) (ping session);
  version ← map_err_comp (protocol_error_from_anyhow SERVER_CLOSED_CONNECTION)
              (server_version session);
  _ ← modify (close session);
  mret (Object [(lit "ok", Bool true); (lit "server_version", Str version);
                (lit "warnings", Array []); (lit "latency_ms", Number (PosInt latency))]).

Definition handle_conn_ping (latency : N) (params : Value) : handler Value :=
  _ ← lift_outcome (parse_params conn_ping_params params);
  _ ← on_conn SERVER_CLOSED_CONNECTION ping;
  mret (Object [(lit "latency_ms", Number (PosInt latency))]).

Definition handle_conn_use (params : Value) : handler Value :=
  database ← lift_outcome (parse_params conn_use_params params);
  match non_blank database with
  | None => mret Null
  | Some database =>
      current ← on_conn INTERNAL_ERROR current_database;
      _ ← lift_outcome (ensure (bool_decide (database = current)) (not_supported
            (lit "OpenGauss connections cannot switch database without reconnecting")));
      mret Null
  end.

(** ** Queries and cursors *)

Definition handle_query_start (uuid : text) (params : Value) : handler Value :=
  p ← lift_outcome (parse_params query_start_params params);
  result ← on_conn SQL_SYNTAX_ERROR (λ conn, query conn (qs_sql p) (qs_params p));
  cursor_id ← on_state (open_cursor uuid (new_cursor (qr_rows result) (qs_max_rows p)));
  mret (Object [(lit "cursor_id", Str cursor_id);
                (lit "columns", Array (column_value <$> qr_columns result));
                (lit "row_count_known", Bool false);
                (lit "row_count_estimate", Null)]).

Definition get_cursor (cursor_id : text) : handler GaussState.CursorState :=
  found ← gets (λ s, cursors (state s) !! cursor_id);
  lift_outcome (of_option (unknown_cursor cursor_id) found).

Definition put_cursor (cursor_id : text) (cursor : GaussState.CursorState) : handler () :=
  on_state (λ s, (set_cursors (<[cursor_id := cursor]> (cursors s)) s, ())).

Definition rows_value (rows : list Row) : Value :=
  Array ((λ row, Array (cell_value <$> row)) <$> rows).

Definition handle_cursor_fetch (params : Value) : handler Value :=
  p ← lift_outcome (parse_params cursor_fetch_params params);
  cursor ← get_cursor (cf_cursor_id p);
  '(cursor, (rows, done)) ← lift_outcome (fetch (cf_n p) cursor);
  _ ← put_cursor (cf_cursor_id p) cursor;
  mret (Object [(lit "rows", rows_value rows); (lit "done", Bool done)]).

Definition handle_cursor_close (params : Value) : handler Value :=
  cursor_id ← lift_outcome (parse_params cursor_close_params params);
  closed ← on_state (close_cursor cursor_id);
  _ ← lift_outcome (ensure closed (unknown_cursor cursor_id));
  mret Null.

Definition handle_cursor_cancel (params : Value) : handler Value :=
  cursor_id ← lift_outcome (parse_params cursor_cancel_params params);
  cursor ← get_cursor cursor_id;
  _ ← put_cursor cursor_id (cancel cursor);
  mret Null.

Definition handle_exec_run (params : Value) : handler Value :=
  p ← lift_outcome (parse_params exec_run_params params);
  affected ← on_conn SQL_SYNTAX_ERROR (λ conn, execute conn (er_sql p) (er_params p));
  lift_outcome (serialize exec_run_value affected).

Definition handle_exec_batch (params : Value) : handler Value :=
  statements ← lift_outcome (parse_params exec_batch_params params);
  results ← on_conn SQL_SYNTAX_ERROR (λ conn, execute_batch conn statements);
  lift_outcome (serialize exec_batch_value results).

(** ** Transactions *)

Definition isolation_text (level : IsolationLevel) : text :=
  match level with
  | ReadUncommitted => lit "READ UNCOMMITTED" | ReadCommitted => lit "READ COMMITTED"
  | RepeatableRead => lit "REPEATABLE READ" | Serializable => lit "SERIALIZABLE"
  | DefaultLevel => lit "READ COMMITTED"
  end.

Definition begin_sql (p : TxBeginParams) : text :=
  lit "BEGIN" ++
  from_option (λ level, lit " ISOLATION LEVEL " ++ isolation_text level) [] (tb_isolation p) ++
  (if tb_read_only p then lit " READ ONLY" else []) ++
  match tb_deferrable p with
  | Some true => lit " DEFERRABLE" | Some false => lit " NOT DEFERRABLE" | None => []
  end.

(** [state.conn_mut().simple_execute(&sql).map_err(..)?] *)
Definition control (sql : text) : handler () :=
  on_conn SQL_SYNTAX_ERROR (λ conn, simple_execute conn sql).

Definition handle_tx_begin (uuid : text) (params : Value) : handler Value :=
  p ← lift_outcome (parse_params tx_begin_params params);
  _ ← control (begin_sql p);
  let tx_id := lit "opengauss-tx-" ++ uuid in
  _ ← on_state (λ s, (insert_tx tx_id s, ()));
  lift_outcome (serialize tx_begin_value tx_id).

Definition handle_tx_commit (params : Value) : handler Value :=
  tx_id ← lift_outcome (parse_params tx_commit_params params);
  removed ← on_state (remove_tx tx_id);
  _ ← lift_outcome (ensure removed (unknown_tx tx_id));
  _ ← control (lit "COMMIT");
  mret Null.

Definition ensure_tx (tx_id : text) : handler () :=
  has ← gets (λ s, has_tx tx_id (state s));
  lift_outcome (ensure has (unknown_tx tx_id)).

Definition handle_tx_rollback (params : Value) : handler Value :=
  p ← lift_outcome (parse_params tx_rollback_params params);
  _ ← ensure_tx (tr_tx_id p);
  sql ← match to_savepoint p with
        | Some savepoint => mret (lit "ROLLBACK TO SAVEPOINT " ++ quote_identifier savepoint)
        | None => _ ← on_state (remove_tx (tr_tx_id p)); mret (lit "ROLLBACK")
        end;
  _ ← control sql;
  mret Null.

Definition handle_tx_savepoint (params : Value) : handler Value :=
  p ← lift_outcome (parse_params tx_savepoint_params params);
  _ ← ensure_tx (tn_tx_id p);
  _ ← control (lit "SAVEPOINT " ++ quote_identifier (tn_name p));
  mret Null.

Definition handle_tx_release (params : Value) : handler Value :=
  p ← lift_outcome (parse_params tx_release_params params);
  _ ← ensure_tx (tn_tx_id p);
  _ ← control (lit "RELEASE SAVEPOINT " ++ quote_identifier (tn_name p));
  mret Null.

(** ** Exports *)

(** The bytes of an export in the format asked for. *)
Definition export_bytes (p : ExportParams) (found : QueryResult) : result bytes :=
  let names := column_name <$> qr_columns found in
  match ex_format p with
  | FJson => Ok (utf8_encode (json_text (Array (rows_to_json_objects names (qr_rows found)))))
  | FNdjson => Ok (utf8_encode (rows_to_ndjson names (qr_rows found)))
  | FCsv =>
      options ← match ex_options p with
                | Null => Ok default_csv_options
                | options => parse_params csv_options options
                end;
      Ok (utf8_encode (rows_to_csv names (qr_rows found) options))
  | FOther other =>
      Err (not_supported (lit "OpenGauss data/export format `" ++ other ++ lit "` is not supported"))
  end.

Definition handle_data_export (params : Value) : handler Value :=
  p ← lift_outcome (parse_params export_params params);
  sql ← lift_outcome (limited_export_sql p);
  result ← on_conn SQL_SYNTAX_ERROR (λ conn, query conn sql []);
  data ← lift_outcome (export_bytes p result);
  let stream := new_stream data in
  _ ← on_state (λ s, (insert_stream (ex_stream_id p) stream s, ()));
  lift_outcome (serialize export_value
    {| estimated_bytes := GaussState.estimated_bytes stream;
       estimated_rows := N.of_nat (length (qr_rows result));
       metadata := Object [(lit "columns", Array ((λ c, Str (column_name c)) <$> qr_columns result));
                           (lit "format", format_value (ex_format p))] |}).

Definition handle_stream_read (params : Value) : handler Value :=
  p ← lift_outcome (parse_params stream_read_params params);
  found ← gets (λ s, streams (state s) !! sr_stream_id p);
  stream ← lift_outcome (of_option (unknown_stream (sr_stream_id p)) found);
  '(stream, (chunk, done)) ← lift_outcome (read (sr_max_bytes p) stream);
  _ ← on_state (λ s, (insert_stream (sr_stream_id p) stream s, ()));
  lift_outcome (serialize stream_read_value {| sr_data := base64_encode chunk; sr_done := done |}).

Definition handle_stream_close (params : Value) : handler Value :=
  stream_id ← lift_outcome (parse_params stream_close_params params);
  closed ← on_state (close_stream stream_id);
  _ ← lift_outcome (ensure closed (unknown_stream stream_id));
  mret Null.

(** ** Imports *)

(** [now] is the clock reading at the call. *)
Definition handle_data_import_begin (uuid : text) (now : N) (params : Value) : handler Value :=
  p ← lift_outcome (parse_params import_begin_params params);
  _ ← lift_outcome (ensure (negb (bool_decide (ib_columns p = [])))
        (invalid_params (lit "data/import_begin requires explicit columns")));
  let import_id := lit "opengauss-import-" ++ uuid in
  _ ← on_state (λ s, (insert_import import_id
        (GaussState.new_import (ib_table p) (ib_schema p) (ib_database p) (ib_columns p)
           (ib_options p) now) s, ()));
  lift_outcome (serialize import_begin_value import_id).

Definition get_import (import_id : text) : handler GaussState.ImportState :=
  found ← gets (λ s, imports (state s) !! import_id);
  lift_outcome (of_option (unknown_import import_id) found).

Definition put_import (import_id : text) (i : GaussState.ImportState) : handler () :=
  on_state (λ s, (insert_import import_id i s, ())).

(** One turn of the loop of [handle_data_import_chunk]: whether the row was inserted, or the
    failure as far as it is tracked. *)
Definition import_row (import_id : text) (row : Row)
    : handler (option GaussState.FailedRow + ()) :=
  import ← get_import import_id;
  '(sql, values) ← lift_outcome (build_insert_sql import row);
  r ← attempt (E:=AnyError) (λ s,
        let '(server, r) := execute (conn (state s)) sql values (server s) in
        ({| state := state s; server := server |}, r));
  import ← get_import import_id;
  match r with
  | inr _ => _ ← put_import import_id (GaussState.record_inserted import); mret (inr ())
  | inl error =>
      let '(import, failed) :=
        GaussState.record_failed (join (lit ": ") (chain error)) 0 import in
      _ ← put_import import_id import;
      mret (inl failed)
  end.

(** Whether the failures of the chunk end it. *)
Definition reaches_limit (options : ImportOptions) (failed : list GaussState.FailedRow) : bool :=
  match abort_on_failures options with
  | Some limit => (limit <=? N.of_nat (length failed) `mod` (u32_max + 1))%N
  | None => false
  end.

Fixpoint import_rows (import_id : text) (rows : list Row) (acc : ImportChunkResult)
    : handler ImportChunkResult :=
  match rows with
  | [] => mret acc
  | row :: rest =>
      r ← import_row import_id row;
      match r with
      | inr _ =>
          import_rows import_id rest
            {| chunk_inserted := sat_add u64_max (chunk_inserted acc) 1;
               chunk_failed := chunk_failed acc |}
      | inl failed =>
          let acc := {| chunk_inserted := chunk_inserted acc;
                        chunk_failed := chunk_failed acc ++ option_list failed |} in
          import ← get_import import_id;
          if reaches_limit (options import) (chunk_failed acc) then mret acc
          else import_rows import_id rest acc
      end
  end.

Definition handle_data_import_chunk (params : Value) : handler Value :=
  p ← lift_outcome (parse_params import_chunk_params params);
  result ← import_rows (ic_import_id p) (ic_rows p) {| chunk_inserted := 0; chunk_failed := [] |};
  lift_outcome (serialize import_chunk_value result).

Definition handle_data_import_commit (now : N) (params : Value) : handler Value :=
  import_id ← lift_outcome (parse_params import_commit_params params);
  removed ← on_state (remove_import import_id);
  import ← lift_outcome (of_option (unknown_import import_id) removed);
  lift_outcome (serialize import_commit_value
    {| commit_inserted := inserted import; commit_failed := failed import;
       commit_elapsed_ms := elapsed_ms now import |}).

Definition handle_data_import_abort (params : Value) : handler Value :=
  import_id ← lift_outcome (parse_params import_abort_params params);
  removed ← on_state (remove_import import_id);
  _ ← lift_outcome (of_option (unknown_import import_id) removed);
  mret Null.

(** ** Schema *)

(** A handler that reads its parameters, asks the catalog and answers with the result. *)
Definition schema_handler {P A} (parse : FromValue P) (out : ToValue A)
    (f : P → OpenGaussSession → call A) (params : Value) : handler Value :=
  p ← lift_outcome (parse_params parse params);
  result ← on_conn INTERNAL_ERROR (f p);
  lift_outcome (serialize out result).

Definition handle_schema_databases : Value → handler Value :=
  schema_handler databases_params databases_value (λ _, list_databases).
Definition handle_schema_schemas : Value → handler Value :=
  schema_handler schemas_params schemas_value (λ database conn, list_schemas conn (Some database)).
Definition handle_schema_objects : Value → handler Value :=
  schema_handler objects_params objects_value
    (λ p conn, list_objects conn (ob_database p) (ob_schema p) (ob_kinds p)).
Definition handle_schema_views : Value → handler Value :=
  schema_handler views_params views_value
    (λ p conn, list_views conn (sp_database p) (sp_schema p)).
Definition handle_schema_indexes : Value → handler Value :=
  schema_handler indexes_params indexes_value
    (λ p conn, list_indexes conn (tp_database p) (tp_schema p) (Some (tp_table p))).
Definition handle_schema_foreign_keys : Value → handler Value :=
  schema_handler foreign_keys_params foreign_keys_value
    (λ p conn, list_foreign_keys conn (tp_database p) (tp_schema p) (tp_table p)).
Definition handle_schema_checks : Value → handler Value :=
  schema_handler checks_params checks_value
    (λ p conn, list_checks conn (tp_database p) (tp_schema p) (tp_table p)).
Definition handle_schema_functions : Value → handler Value :=
  schema_handler functions_params functions_value
    (λ p conn, list_functions conn (sp_database p) (sp_schema p)).
Definition handle_schema_procedures : Value → handler Value :=
  schema_handler procedures_params functions_value
    (λ p conn, list_procedures conn (sp_database p) (sp_schema p)).
Definition handle_schema_triggers : Value → handler Value :=
  schema_handler triggers_params triggers_value
    (λ p conn, list_triggers conn (tg_database p) (tg_schema p) (tg_table p)).
Definition handle_schema_sequences : Value → handler Value :=
  schema_handler sequences_params sequences_value
    (λ p conn, list_sequences conn (sp_database p) (sp_schema p)).
Definition handle_schema_types : Value → handler Value :=
  schema_handler types_params types_value
    (λ p conn, list_types conn (sp_database p) (sp_schema p)).
Definition handle_schema_view_definition : Value → handler Value :=
  schema_handler view_definition_params view_definition_value
    (λ p conn, view_definition conn (tp_database p) (tp_schema p) (tp_table p)).
Definition handle_schema_dump_ddl : Value → handler Value :=
  schema_handler dump_ddl_params dump_ddl_value
    (λ p conn, dump_ddl conn (dp_objects p) (dp_options p)).

Definition handle_schema_columns (params : Value) : handler Value :=
  p ← lift_outcome (parse_params columns_params params);
  _ ← lift_outcome (ensure (negb (blank (tp_table p)))
        (invalid_params (lit "schema/columns requires `table`")));
  result ← on_conn INTERNAL_ERROR
    (λ conn, list_columns conn (tp_database p) (tp_schema p) (tp_table p));
  lift_outcome (serialize columns_value result).
End handlers.
