(* ===== verification/GaussDemo.v ===== *)
(** * A server to try the openGauss driver on

    A small instance of the classes of the driver, on which the hypotheses of its theorems
    are shown to hold together: every query has the rows 1, 2 and 3, the state of the server
    is how many rows were inserted, and a statement with a null parameter fails. *)

From S2P Require Import Prelude VncClipboard Text JsonValue DuckValue DuckState DuckText DuckDemo DdlSpec GaussDdl GaussState GaussSession GaussCatalog GaussExport GaussServer.

Module GaussDemo.

Definition chrono : ChronoLib := {|
  NaiveDate := text; NaiveTime := text; NaiveDateTime := text;
  parse_date := inr; parse_time := inr; parse_datetime := inr;
  show_date := id; show_time := id; show_datetime := id
|}.

Definition tls : TlsLib := {|
  Certificate := (); Connector := (); read_file := λ _, inl (lit "no such file");
  stack_from_pem := λ _, inr []; build_connector := λ _, inr ()
|}.

Definition is_null (p : @SqlParam chrono) : bool := match p with PNull => true | _ => false end.

Definition client : @GaussClient chrono tls := {|
  Server := nat; Client := (); PgRow := Z;
  new_runtime := λ s, (s, inr ());
  client_connect := λ _ _ s, (s, inr ());
  abort_task := λ _ s, s;
  client_query := λ _ _ _ s, (s, inr [1; 2; 3]%Z);
  client_execute := λ _ _ params s,
    if existsb is_null params then (s, inl (error_msg (lit "null value"))) else (S s, inr 1%N);
  batch_execute := λ _ _ s, (s, inr ());
  simple_query := λ _ _ s, (s, inr ());
  row_columns := λ _, [(lit "n", INT8)];
  try_string := λ _ _, None; try_bool := λ _ _, None; try_i16 := λ _ _, None;
  try_i32 := λ _ _, None; try_i64 := λ row _, Some (Some row); try_f32 := λ _ _, None;
  try_f64 := λ _ _, None; try_bytes := λ _ _, None; try_json := λ _ _, None;
  try_date := λ _ _, None; try_time := λ _ _, None; try_datetime := λ _ _, None
|}.

Definition bounds : BoundLib := {| Bound := N; parse_bound := parse_unsigned u64_max |}.

(** ** Messages *)

Definition no {A} : Value → text + A := λ _, inl (lit "not read here").
Definition null {A} : A → text + Value := λ _, inr Null.

Definition read_text (name : string) (v : Value) : option text := get (lit name) v ≫= as_str.
Definition read_number (name : string) (v : Value) : option N :=
  match get (lit name) v with Some (Number (PosInt n)) => Some n | _ => None end.
Definition or_error {A} (o : option A) : text + A :=
  match o with Some a => inr a | None => inl (lit "missing field") end.

Definition read_cell (v : Value) : CellValue :=
  match v with Number (PosInt n) => CI64 (Z.of_N n) | _ => CNull end.
Definition read_rows (v : Value) : list Row :=
  (λ row, read_cell <$> default [] (as_array row)) <$>
  default [] (get (lit "rows") v ≫= as_array).

Definition codec : @GaussCodec bounds := {|
  conn_test_params := no; conn_ping_params := λ _, inr (); conn_use_params := no;
  query_start_params := λ v, or_error
    (sql ← read_text "sql" v;
     Some {| qs_sql := sql; qs_params := []; qs_max_rows := read_number "max_rows" v |});
  cursor_fetch_params := λ v, or_error
    (id ← read_text "cursor_id" v; Some {| cf_cursor_id := id; cf_n := read_number "n" v |});
  cursor_close_params := no; cursor_cancel_params := no; exec_run_params := no;
  exec_batch_params := no;
  tx_begin_params := λ v, inr {| tb_isolation := None; tb_read_only := false; tb_deferrable := None |};
  tx_commit_params := λ v, or_error (read_text "tx_id" v); tx_rollback_params := no; tx_savepoint_params := no; tx_release_params := no;
  export_params := λ v, or_error
    (sql ← read_text "sql" v; id ← read_text "stream_id" v;
     Some {| ex_stream_id := id; ex_conn_id := 1; ex_sql := Some sql; ex_table := None;
             ex_schema := None; ex_database := None; ex_where_clause := None;
             ex_include_columns := []; ex_exclude_columns := []; ex_format := FCsv;
             ex_options := Null; ex_max_rows := None |});
  csv_options := no;
  default_csv_options :=
    {| delimiter := [44%N]; quote := [34%N]; header := true; null_string := None;
       encoding := lit "utf-8" |};
  stream_read_params := λ v, or_error
    (id ← read_text "stream_id" v;
     Some {| sr_stream_id := id; sr_max_bytes := read_number "max_bytes" v |});
  stream_close_params := no; import_begin_params := no;
  import_chunk_params := λ v, or_error
    (id ← read_text "import_id" v; Some {| ic_import_id := id; ic_rows := read_rows v |});
  import_commit_params := no; import_abort_params := no; databases_params := no;
  schemas_params := no; objects_params := no; columns_params := no; views_params := no;
  indexes_params := no; foreign_keys_params := no; checks_params := no; functions_params := no;
  procedures_params := no; triggers_params := no; sequences_params := no; types_params := no;
  view_definition_params := no; dump_ddl_params := no;
  exec_run_value := null; exec_batch_value := null; tx_begin_value := λ id, inr (Str id);
  export_value := null; stream_read_value := λ r, inr (Str (sr_data r)); import_begin_value := null;
  import_chunk_value := λ r, inr (Number (PosInt (chunk_inserted r))); import_commit_value := null;
  databases_value := null; schemas_value := null; objects_value := null; columns_value := null;
  views_value := null; indexes_value := null; foreign_keys_value := null; checks_value := null;
  functions_value := null; triggers_value := null; sequences_value := null; types_value := null;
  view_definition_value := null; dump_ddl_value := null;
  column_value := λ _, Null; cell_value := λ _, Null; format_value := λ _, Null
|}.

Definition session : @OpenGaussSession chrono tls client :=
  @Build_OpenGaussSession chrono tls client tt.

(** A connection with nothing open. *)
Definition idle : @Gauss chrono tls client :=
  @Build_Gauss chrono tls client (new_state session) 0.
End GaussDemo.
