(* ===== verification/GaussDelivery.v ===== *)
(** * The openGauss driver: results and exports in parts

    A query's rows and an export's bytes are in memory when the first request for them
    arrives.  The host receives them in order, each once, in parts of bounded size, and no
    request reads outside them. *)

From S2P Require Import Prelude VncClipboard Text JsonValue DuckValue DuckState DuckText DuckDemo Delivery DdlSpec GaussDdl GaussState GaussSession GaussCatalog GaussExport GaussServer GaussDemo.

(** ** Cursors *)

Section cursor.
Context (rows : list Row) (max_rows : option N).
Context (Hrows : (N.of_nat (length rows) < u64_max)%N).

(** A cursor on the rows from which the host has [k]. *)
Record cursor_at (k : nat) (c : GaussState.CursorState) : Prop := {
  at_rows : GaussState.rows c = rows;
  at_max : GaussState.max_rows c = max_rows;
  at_next : next_row c = k;
  at_bound : k ≤ length (limited max_rows rows);
  at_done : done c = true → k = length (limited max_rows rows)
}.

Lemma length_limited {A} (m : option N) (l : list A) :
  length (limited m l) = match m with Some m => N.to_nat m `min` length l | None => length l end.
Proof. clear Hrows. destruct m; [|done]. simpl. by rewrite length_take. Qed.

Lemma new_cursor_at : cursor_at 0 (new_cursor rows max_rows).
Proof.
  clear Hrows. split; simpl; [done..|lia|]. rewrite length_limited. intros H%bool_decide_eq_true.
  by rewrite H.
Qed.

(** Where a fetch that is not done ends. *)
Lemma fetch_end n c k :
  cursor_at k c → k ≤ length rows →
  let taken := fetch_take n c in
  let e := usz (sat_add u64_max (N.of_nat k) (N.of_nat taken)) `min` length rows in
  e = (k + taken) `min` length rows ∧ (N.of_nat taken <= 10000)%N ∧ (∀ m, n = Some m → taken ≤ N.to_nat m `max` 1) ∧
  (∀ m, max_rows = Some m → k + taken ≤ N.to_nat m `max` k) ∧
  ((∀ m, max_rows = Some m → k < N.to_nat m) → 0 < taken).
Proof using Hrows.
  intros [_ Hmax Hnext _ _] Hk taken e.
  set (requested := clamp 1 10000 (default 1000%N n)).
  assert (Hreq : (0 < requested)%N ∧ (requested <= 10000)%N ∧
                 ∀ m, n = Some m → (requested <= N.max m 1)%N).
  { unfold requested, clamp. destruct n; simpl; split_and!; try lia; intros ? [= <-]; lia. }
  assert (Htaken : taken = N.to_nat (N.min requested
                     (match max_rows with Some m => m - N.of_nat k | None => u64_max end)%N))
    by (unfold taken, fetch_take; rewrite Hmax, Hnext; done).
  clearbody requested taken. destruct Hreq as (Hpos & Hsmall & Hasked). unfold e, sat_add.
  clear e. subst taken. destruct max_rows as [m|]; split_and!.
  all: try lia.
  - intros m' Hm'. specialize (Hasked m' Hm'). lia.
  - intros ? [= <-]. lia.
  - intros Hlt. specialize (Hlt m eq_refl). lia.
  - intros m' Hm'. specialize (Hasked m' Hm'). lia.
  - done.
Qed.

(** A part of the rows within the limit. *)
Lemma part_limited {A} (m : option N) (l : list A) k e :
  k ≤ e → e ≤ length (limited m l) → take (e - k) (drop k l) = take (e - k) (drop k (limited m l)).
Proof.
  clear Hrows. intros Hk He. destruct m as [m|]; [|done]. simpl in *. rewrite length_take in He.
  rewrite skipn_firstn_comm, take_take. f_equal. lia.
Qed.

Lemma fetch_spec {E} n c k :
  cursor_at k c →
  ∃ c' page,
    fetch (E:=E) n c = Ok (c', (page, done c')) ∧
    page = take (length page) (drop k (limited max_rows rows)) ∧
    cursor_at (k + length page) c' ∧
    (N.of_nat (length page) <= 10000)%N ∧ (∀ m, n = Some m → length page ≤ N.to_nat m `max` 1) ∧
    (page = [] → done c' = true).
Proof using Hrows.
  intros Hc. unfold fetch. destruct (done c) eqn:Hdone.
  { exists c, []. cbn [length]. rewrite Nat.add_0_r, Hdone. split_and!; [done..|lia|lia|done]. }
  assert (Hlen : length (limited max_rows rows) ≤ length rows)
    by (rewrite length_limited; destruct max_rows; lia).
  pose proof (at_bound k c Hc) as Hbound.
  destruct (fetch_end n c k Hc) as (Hend & Hsize & Hasked & Hmax & Hpos); [lia|].
  rewrite (at_next k c Hc), (at_rows k c Hc), (at_max k c Hc).
  set (taken := fetch_take n c) in *.
  set (e := usz (sat_add u64_max (N.of_nat k) (N.of_nat taken)) `min` length rows) in *.
  assert (Hke : k ≤ e) by lia.
  assert (He : e ≤ length (limited max_rows rows)).
  { rewrite length_limited in *. destruct max_rows as [m|]; [|lia]. specialize (Hmax m eq_refl). lia. }
  rewrite get_slice_ok by lia. rewrite (part_limited max_rows rows k e Hke He).
  set (page := take (e - k) (drop k (limited max_rows rows))).
  assert (Hpage : length page = e - k) by (unfold page; rewrite length_take, length_drop; lia).
  set (finished := _ || _).
  assert (Hfinished : finished = true ↔ e = length (limited max_rows rows)).
  { unfold finished. rewrite orb_true_iff, Nat.leb_le, length_limited in *.
    destruct max_rows as [m|]; simpl; [rewrite N.leb_le; lia|lia]. }
  cbn [mbind outcome_bind]. exists {| GaussState.rows := rows; next_row := e; GaussState.max_rows := max_rows;
            done := finished |}, page.
  split_and!; [reflexivity| | |lia| |].
  3: { intros m Hm. specialize (Hasked m Hm). lia. }
  - rewrite Hpage. done.
  - rewrite Hpage. replace (k + (e - k)) with e by lia. split; simpl; [done..|lia|apply Hfinished].
  - intros Hnil. simpl. apply Hfinished. rewrite Hnil in Hpage. simpl in Hpage.
    assert (e = k) as -> by lia. rewrite length_limited in *. destruct max_rows as [m|].
    + destruct (decide (k < N.to_nat m)) as [Hlt|]; [|lia].
      assert (0 < taken) by (apply Hpos; intros ? [= <-]; lia). lia.
    + assert (0 < taken) by (by apply Hpos). lia.
Qed.
End cursor.

(** ** Streams *)

(** A stream from which the host has [k] bytes. *)
Definition stream_at (all : bytes) (k : nat) (s : StreamState) : Prop :=
  data s = all ∧ offset s = k ∧ k ≤ length all.

Lemma read_spec {E} all n s k :
  (N.of_nat (length all) < u64_max)%N → stream_at all k s →
  ∃ s' chunk final,
    read (E:=E) n s = Ok (s', (chunk, final)) ∧
    chunk = take (length chunk) (drop k all) ∧ stream_at all (k + length chunk) s' ∧
    (final = true ↔ k + length chunk = length all) ∧
    (N.of_nat (length chunk) <= 1048576)%N ∧ (∀ m, n = Some m → length chunk ≤ N.to_nat m `max` 1) ∧
    (chunk = [] → final = true).
Proof.
  intros Hall (Hdata & Hoffset & Hk). unfold read. rewrite Hdata, Hoffset.
  set (max := clamp _ _ _).
  assert (Hmax : (0 < max)%N ∧ (max <= 1048576)%N ∧ ∀ m, n = Some m → (max <= N.max m 1)%N).
  { unfold max, clamp. destruct n; simpl; split_and!; try lia; intros ? [= <-]; lia. }
  clearbody max. destruct Hmax as (Hpos & Hbig & Hasked).
  set (e := usz (sat_add u64_max (N.of_nat k) max) `min` length all).
  assert (He : e = (k + N.to_nat max) `min` length all) by (unfold e, sat_add; lia).
  rewrite get_slice_ok by lia. cbn [mbind outcome_bind].
  set (chunk := take (e - k) (drop k all)).
  assert (Hchunk : length chunk = e - k) by (unfold chunk; rewrite length_take, length_drop; lia).
  eexists _, chunk, _. split; [done|]. rewrite Hchunk. split_and!.
  - done.
  - unfold stream_at. simpl. split_and!; [done|lia..].
  - rewrite Nat.leb_le. lia.
  - lia.
  - intros m Hm. specialize (Hasked m Hm). lia.
  - intros Hnil. rewrite Hnil in Hchunk. simpl in Hchunk. apply Nat.leb_le. lia.
Qed.

(** ** The requests *)

Section requests.
Context `{GaussClient, ValueLib, BoundLib}.
Context {codec : GaussCodec}.

Definition page_response (page : list Row) (done : bool) : result Value :=
  Ok (Object [(lit "rows", rows_value page); (lit "done", Bool done)]).

Definition chunk_response (chunk : bytes) (done : bool) : result Value :=
  serialize stream_read_value {| sr_data := base64_encode chunk; sr_done := done |}.

Lemma get_cursor_bind {B} id c (f : GaussState.CursorState → comp Gauss ProtocolError B) s :
  cursors (state s) !! id = Some c → (get_cursor id ≫= f) s = f c s.
Proof. intros Hc. unfold get_cursor. by rewrite comp_bind_run, gets_bind, Hc. Qed.

Lemma gauss_handle_cursor_fetch_spec rows max_rows id n v c k s :
  (N.of_nat (length rows) < u64_max)%N →
  cursor_fetch_params v = inr {| cf_cursor_id := id; cf_n := n |} →
  cursors (state s) !! id = Some c → cursor_at rows max_rows k c →
  ∃ s' c' page,
    handle_cursor_fetch v s = (s', page_response page (done c')) ∧
    cursors (state s') !! id = Some c' ∧ cursor_at rows max_rows (k + length page) c' ∧
    page = take (length page) (drop k (limited max_rows rows)) ∧
    (N.of_nat (length page) <= 10000)%N ∧ (∀ m, n = Some m → length page ≤ N.to_nat m `max` 1) ∧
    (page = [] → done c' = true).
Proof.
  intros Hrows Hv Hfound Hc. unfold handle_cursor_fetch, parse_params. rewrite lift_bind, Hv.
  cbn [cf_cursor_id cf_n]. rewrite (get_cursor_bind _ _ _ _ Hfound), lift_bind.
  destruct (fetch_spec (E:=ProtocolError) rows max_rows Hrows n c k Hc)
    as (c' & page & -> & Hpage & Hc' & Hsize & Hasked & Hnil).
  eexists _, c', page. split_and!; [done| |done..]. simpl. by rewrite lookup_insert_eq.
Qed.

Lemma gauss_handle_stream_read_spec all id n v st k s :
  (N.of_nat (length all) < u64_max)%N →
  stream_read_params v = inr {| sr_stream_id := id; sr_max_bytes := n |} →
  streams (state s) !! id = Some st → stream_at all k st →
  ∃ s' st' chunk final,
    handle_stream_read v s = (s', chunk_response chunk final) ∧
    streams (state s') !! id = Some st' ∧ stream_at all (k + length chunk) st' ∧
    chunk = take (length chunk) (drop k all) ∧
    (final = true ↔ k + length chunk = length all) ∧
    (N.of_nat (length chunk) <= 1048576)%N ∧
    (∀ m, n = Some m → length chunk ≤ N.to_nat m `max` 1) ∧ (chunk = [] → final = true).
Proof.
  intros Hall Hv Hfound Hst. unfold handle_stream_read, parse_params. rewrite lift_bind, Hv.
  cbn [sr_stream_id sr_max_bytes]. rewrite gets_bind, Hfound, lift_bind. cbn [of_option].
  rewrite lift_bind.
  destruct (read_spec (E:=ProtocolError) all n st k Hall Hst)
    as (st' & chunk & final & -> & Hchunk & Hst' & Hfinal & Hsize & Hasked & Hnil).
  eexists _, st', chunk, final. split_and!; [done| |done..]. simpl. by rewrite lookup_insert_eq.
Qed.

(** C28: A query of the openGauss driver answers with a cursor on all its rows, and the pages
    the host then fetches, whatever sizes it asks for, are the first [max_rows] of them in
    order, each once.  No fetch reads outside the rows; a page has at most 10,000 rows and at
    most as many as asked for, one where none is asked for; a response that says done
    completes the rows, and one of the first [total + 1] responses does. *)
Theorem query_delivers_rows s uuid v p server found id calls
    (Hparams : query_start_params v = inr p)
    (Hquery : query (conn (state s)) (qs_sql p) (qs_params p) (GaussServer.server s) =
      (server, Ok found))
    (Hrows : (N.of_nat (length (qr_rows found)) < u64_max)%N)
    (Hid : id = lit "opengauss-cursor-" ++ uuid)
    (Hcalls : Forall (λ v, ∃ n, cursor_fetch_params v = inr {| cf_cursor_id := id; cf_n := n |})
                calls) :
  let total := limited (qs_max_rows p) (qr_rows found) in
  ∃ columns s' pages flags,
    handle_query_start uuid v s = (s', Ok (Object ((lit "cursor_id", Str id) :: columns))) ∧
    (run_calls handle_cursor_fetch calls s').2 = zip_with page_response pages flags ∧
    length flags = length pages ∧
    Forall2 (λ v page, (N.of_nat (length page) <= 10000)%N ∧ ∀ p n,
      cursor_fetch_params v = inr p → cf_n p = Some n → length page ≤ N.to_nat n `max` 1)
      calls pages ∧
    mjoin pages = take (length (mjoin pages)) total ∧
    (∀ i, flags !! i = Some true → mjoin (take (S i) pages) = total) ∧
    (length total < length calls → last flags = Some true).
Proof.
  intros total.
  set (cursor := new_cursor (qr_rows found) (qs_max_rows p)).
  set (opened := (open_cursor uuid cursor (state s)).1).
  set (s' := {| state := opened; GaussServer.server := server |}).
  assert (Hstart : ∃ columns, handle_query_start uuid v s =
                     (s', Ok (Object ((lit "cursor_id", Str id) :: columns)))).
  { eexists. unfold handle_query_start, parse_params. rewrite lift_bind, Hparams, on_conn_bind, Hquery.
    cbn [fst snd]. rewrite gauss_on_state_bind. subst id. done. }
  destruct Hstart as [columns Hstart]. exists columns, s'.
  destruct (deliver_calls handle_cursor_fetch page_response
    (λ s rest, ∃ c k, cursors (state s) !! id = Some c ∧
       cursor_at (qr_rows found) (qs_max_rows p) k c ∧ rest = drop k total)
    (λ v, ∃ n, cursor_fetch_params v = inr {| cf_cursor_id := id; cf_n := n |}) (λ _, True)
    (λ v page, (N.of_nat (length page) <= 10000)%N ∧ ∀ p n,
       cursor_fetch_params v = inr p → cf_n p = Some n → length page ≤ N.to_nat n `max` 1))
    with (calls := calls) (s := s') (rest := total)
    as (pages & flags & Hrun & Hlen & Hsizes & Hjoin & Hdone & Hlast).
  - intros w s1 rest (n & Hw) (c & k & Hfound & Hc & ->).
    destruct (gauss_handle_cursor_fetch_spec _ _ _ _ _ _ _ _ Hrows Hw Hfound Hc)
      as (s2 & c' & page & Heq & Hfound' & Hc' & Hpage & Hsize & Hasked & Hnil).
    exists s2, page, (done c'), (drop (k + length page) total). split_and!; [done| | |done| |].
    + fold total in Hpage. rewrite Hpage at 1. rewrite <-drop_drop. by rewrite firstn_skipn.
    + by exists c', (k + length page).
    + rewrite Hw. intros p' m [= <-]. apply Hasked.
    + destruct (done c') eqn:Hd; [|intros _ Hn; by specialize (Hnil Hn)].
      pose proof (at_done _ _ _ _ Hc' Hd) as Hend. apply drop_ge. unfold total. lia.
  - exists cursor, 0. split_and!; [|apply new_cursor_at|done].
    subst id. by apply lookup_insert_eq.
  - done.
  - exists pages, flags. split_and!; try done. intros Hlong. apply Hlast; [|done].
    by apply Forall_true.
Qed.

(** An export of the openGauss driver makes a stream of the bytes of the query's result
    in the format asked for, and the chunks the host then reads, whatever sizes it asks for,
    are these bytes in order, each once.  No read leaves the bytes; a chunk has at most 1 MiB
    and at most as many bytes as asked for, one where none is asked for; a response that
    says done completes them, and one of the first [length + 1] responses does. *)
Theorem export_delivers_bytes s v p sql server found all value calls
    (Hparams : export_params v = inr p)
    (Hsql : limited_export_sql p = Ok sql)
    (Hquery : query (conn (state s)) sql [] (GaussServer.server s) = (server, Ok found))
    (Hbytes : export_bytes p found = Ok all)
    (Hall : (N.of_nat (length all) < u64_max)%N)
    (Hvalue : serialize export_value
       {| estimated_bytes := N.of_nat (length all);
          estimated_rows := N.of_nat (length (qr_rows found));
          metadata := Object
            [(lit "columns", Array ((λ c, Str (column_name c)) <$> qr_columns found));
             (lit "format", format_value (ex_format p))] |} = Ok value)
    (Hcalls : Forall (λ v, ∃ n, stream_read_params v =
                inr {| sr_stream_id := ex_stream_id p; sr_max_bytes := n |}) calls) :
  ∃ s' chunks flags,
    handle_data_export v s = (s', Ok value) ∧
    (run_calls handle_stream_read calls s').2 = zip_with chunk_response chunks flags ∧
    length flags = length chunks ∧
    Forall2 (λ v chunk, (N.of_nat (length chunk) <= 1048576)%N ∧ ∀ p n,
      stream_read_params v = inr p → sr_max_bytes p = Some n → length chunk ≤ N.to_nat n `max` 1)
      calls chunks ∧
    mjoin chunks = take (length (mjoin chunks)) all ∧
    (∀ i, flags !! i = Some true → mjoin (take (S i) chunks) = all) ∧
    (length all < length calls → last flags = Some true).
Proof.
  set (id := ex_stream_id p) in *.
  set (s' := {| state := insert_stream id (new_stream all) (state s); GaussServer.server := server |}).
  assert (Hstart : handle_data_export v s = (s', Ok value)).
  { unfold handle_data_export, parse_params. rewrite lift_bind, Hparams, lift_bind, Hsql, on_conn_bind, Hquery.
    cbn [fst snd]. rewrite lift_bind, Hbytes, gauss_on_state_bind. unfold lift_outcome. cbn [fst snd].
    unfold GaussState.estimated_bytes. cbn [data new_stream]. by rewrite Hvalue. }
  exists s'.
  destruct (deliver_calls handle_stream_read chunk_response
    (λ s rest, ∃ st k, streams (state s) !! id = Some st ∧ stream_at all k st ∧ rest = drop k all)
    (λ v, ∃ n, stream_read_params v = inr {| sr_stream_id := id; sr_max_bytes := n |}) (λ _, True)
    (λ v chunk, (N.of_nat (length chunk) <= 1048576)%N ∧ ∀ p n,
       stream_read_params v = inr p → sr_max_bytes p = Some n → length chunk ≤ N.to_nat n `max` 1))
    with (calls := calls) (s := s') (rest := all)
    as (chunks & flags & Hrun & Hlen & Hsizes & Hjoin & Hdone & Hlast).
  - intros w s1 rest (n & Hw) (st & k & Hfound & Hst & ->).
    destruct (gauss_handle_stream_read_spec _ _ _ _ _ _ _ Hall Hw Hfound Hst)
      as (s2 & st' & chunk & final & Heq & Hfound' & Hst' & Hchunk & Hfinal & Hsize & Hasked & Hnil).
    exists s2, chunk, final, (drop (k + length chunk) all). split_and!; [done| | |done| |].
    + rewrite Hchunk at 1. rewrite <-drop_drop. by rewrite firstn_skipn.
    + by exists st', (k + length chunk).
    + rewrite Hw. intros p' m [= <-]. apply Hasked.
    + destruct final; [|intros _ Hn; by specialize (Hnil Hn)].
      apply drop_ge. by rewrite (proj1 Hfinal).
  - exists (new_stream all), 0. split; [by apply lookup_insert_eq|].
    split; [|done]. unfold stream_at. simpl. split_and!; [done..|lia].
  - done.
  - exists chunks, flags. split_and!; try done. intros Hlong. apply Hlast; [|done].
    by apply Forall_true.
Qed.
End requests.

(** ** A run on the demonstration server *)

Module DeliveryDemo.
Import GaussDemo.
#[local] Existing Instances chrono tls client bounds codec DuckDemo.values.

Definition start_query : Value :=
  Object [(lit "sql", Str (lit "SELECT n FROM t")); (lit "max_rows", Number (PosInt 2))].
Definition fetch_one : Value :=
  Object [(lit "cursor_id", Str (lit "opengauss-cursor-7")); (lit "n", Number (PosInt 1))].

Definition start_export : Value :=
  Object [(lit "sql", Str (lit "SELECT n FROM t")); (lit "stream_id", Str (lit "s"))].
Definition read_three : Value :=
  Object [(lit "stream_id", Str (lit "s")); (lit "max_bytes", Number (PosInt 3))].

(** The rows 1, 2 and 3. *)
Definition table : QueryResult := rows_to_query_result [1; 2; 3]%Z.
Definition table_csv : bytes := lit "n" ++ [10; 49; 10; 50; 10; 51]%N.
End DeliveryDemo.

Lemma query_delivers_rows_witness :
  let calls := replicate 3 DeliveryDemo.fetch_one in
  ∃ columns s' pages flags,
    @handle_query_start _ _ GaussDemo.client DuckDemo.values _ GaussDemo.codec (lit "7")
      DeliveryDemo.start_query GaussDemo.idle =
      (s', Ok (Object ((lit "cursor_id", Str (lit "opengauss-cursor-7")) :: columns))) ∧
    (run_calls (@handle_cursor_fetch _ _ GaussDemo.client _ GaussDemo.codec) calls s').2 =
      zip_with (@page_response _ GaussDemo.codec) pages flags ∧
    mjoin pages = [[CI64 1]; [CI64 2]] ∧ last flags = Some true.
Proof.
  intros calls.
  destruct (@query_delivers_rows _ _ GaussDemo.client DuckDemo.values _ GaussDemo.codec
    GaussDemo.idle (lit "7") DeliveryDemo.start_query
    {| qs_sql := lit "SELECT n FROM t"; qs_params := []; qs_max_rows := Some 2%N |}
    0 DeliveryDemo.table (lit "opengauss-cursor-7") calls)
    as (columns & s' & pages & flags & Hstart & Hrun & Hlen & Hsizes & Hjoin & Hdone & Hlast).
  - done.
  - done.
  - done.
  - done.
  - repeat constructor; by exists (Some 1%N).
  - assert (last flags = Some true) as Hl by (apply Hlast; simpl; lia).
    exists columns, s', pages, flags. split; [exact Hstart|]. split; [exact Hrun|]. split; [|done].
    rewrite last_lookup in Hl. specialize (Hdone _ Hl).
    rewrite firstn_all2 in Hdone; [exact Hdone|]. rewrite <-Hlen. lia.
Defined.

Lemma export_delivers_bytes_witness :
  let calls := replicate 8 DeliveryDemo.read_three in
  ∃ s' chunks flags,
    @handle_data_export _ _ GaussDemo.client DuckDemo.values _ GaussDemo.codec
      DeliveryDemo.start_export GaussDemo.idle = (s', Ok Null) ∧
    (run_calls (@handle_stream_read _ _ GaussDemo.client DuckDemo.values _ GaussDemo.codec) calls s').2 =
      zip_with (@chunk_response DuckDemo.values _ GaussDemo.codec) chunks flags ∧
    mjoin chunks = [110; 10; 49; 10; 50; 10; 51]%N ∧ last flags = Some true.
Proof.
  intros calls.
  destruct (@export_delivers_bytes _ _ GaussDemo.client DuckDemo.values _ GaussDemo.codec
    GaussDemo.idle DeliveryDemo.start_export
    {| ex_stream_id := lit "s"; ex_conn_id := 1; ex_sql := Some (lit "SELECT n FROM t");
       ex_table := None; ex_schema := None; ex_database := None; ex_where_clause := None;
       ex_include_columns := []; ex_exclude_columns := []; ex_format := FCsv; ex_options := Null;
       ex_max_rows := None |}
    (lit "SELECT n FROM t") 0 DeliveryDemo.table DeliveryDemo.table_csv Null calls)
    as (s' & chunks & flags & Hstart & Hrun & Hlen & Hsizes & Hjoin & Hdone & Hlast).
  - done.
  - by vm_compute.
  - done.
  - by vm_compute.
  - done.
  - done.
  - repeat constructor; by exists (Some 3%N).
  - assert (last flags = Some true) as Hl by (apply Hlast; simpl; lia).
    exists s', chunks, flags. split; [exact Hstart|]. split; [exact Hrun|]. split; [|done].
    rewrite last_lookup in Hl. specialize (Hdone _ Hl).
    rewrite firstn_all2 in Hdone; [exact Hdone|]. rewrite <-Hlen. lia.
Defined.
