(* ===== verification/GaussImport.v ===== *)
(** * The openGauss driver: imports

    A chunk of an import executes one statement per row and keeps the account of the rows.
    The theorem compares the loop of [data/import_chunk] with a reference: run the
    statements, keep their results up to the point where the limit of failures is reached,
    and count. *)

From S2P Require Import Prelude VncClipboard Text JsonValue DuckValue DuckState DuckText DuckDemo DdlSpec GaussDdl GaussState GaussSession GaussCatalog GaussExport GaussServer GaussDemo.

(** ** The reference *)

(** What became of a row: inserted, or failed with a message. *)
Abbreviation row_outcome := (option text) (only parsing).

(** The results kept: all of them, or those up to the failure at which the tracked failures
    reach the limit. *)
Fixpoint until_limit (options : ImportOptions) (tracked : N) (outcomes : list row_outcome)
    : list row_outcome :=
  match outcomes with
  | [] => []
  | None :: rest => None :: until_limit options tracked rest
  | Some message :: rest =>
      let tracked := if track_failed_rows options then (tracked + 1)%N else tracked in
      Some message ::
        if from_option (λ limit, (limit <=? tracked)%N) false (abort_on_failures options) then []
        else until_limit options tracked rest
  end.

Definition inserted_count (outcomes : list row_outcome) : nat :=
  length (filter (λ o, o = None) outcomes).

(** The failures, numbered by the position of their rows from [index] on. *)
Fixpoint failures (index : N) (outcomes : list row_outcome) : list GaussState.FailedRow :=
  match outcomes with
  | [] => []
  | None :: rest => failures (index + 1) rest
  | Some message :: rest =>
      {| row_index := index; message := message; code := 0 |} :: failures (index + 1) rest
  end.

Lemma until_limit_length options tracked outcomes :
  length (until_limit options tracked outcomes) ≤ length outcomes.
Proof.
  revert tracked. induction outcomes as [|[m|] outcomes IH]; intros tracked; simpl; [done| |].
  - destruct (from_option _ _ _); simpl; [lia|]. specialize (IH (if track_failed_rows options
      then (tracked + 1)%N else tracked)). lia.
  - specialize (IH tracked). lia.
Qed.

Lemma until_limit_untracked options outcomes :
  track_failed_rows options = false → abort_on_failures options ≠ Some 0%N →
  length (until_limit options 0 outcomes) = length outcomes.
Proof.
  intros Htrack Hzero. induction outcomes as [|[m|] outcomes IH]; simpl; [done| |by rewrite IH].
  rewrite Htrack. destruct (abort_on_failures options) as [[|limit]|]; simpl; [done|by rewrite IH..].
Qed.

Lemma failures_length index outcomes :
  length outcomes = inserted_count outcomes + length (failures index outcomes).
Proof.
  unfold inserted_count. revert index. induction outcomes as [|[m|] outcomes IH]; intros index; simpl; [done| |].
  - rewrite (IH (index + 1)%N), filter_cons. simpl. lia.
  - by rewrite (IH (index + 1)%N).
Qed.

(** The account of an import after these results. *)
Definition record (outcome : row_outcome) (i : GaussState.ImportState) : GaussState.ImportState :=
  match outcome with
  | None => GaussState.record_inserted i
  | Some message => (GaussState.record_failed message 0 i).1
  end.

Definition record_all (outcomes : list row_outcome) (i : GaussState.ImportState)
    : GaussState.ImportState :=
  foldl (λ i o, record o i) i outcomes.

(** The failures a chunk reports. *)
Definition reported (options : ImportOptions) (index : N) (outcomes : list row_outcome)
    : list GaussState.FailedRow :=
  if track_failed_rows options then failures index outcomes else [].

Lemma record_all_account outcomes i :
  (inserted i + N.of_nat (length outcomes) <= u64_max)%N →
  (next_import_row i + N.of_nat (length outcomes) <= u64_max)%N →
  let i' := record_all outcomes i in
  inserted i' = (inserted i + N.of_nat (inserted_count outcomes))%N ∧
  next_import_row i' = (next_import_row i + N.of_nat (length outcomes))%N ∧
  failed i' = failed i ++ reported (options i) (next_import_row i) outcomes ∧
  table i' = table i ∧ columns i' = columns i ∧ options i' = options i.
Proof.
  revert i. induction outcomes as [|o outcomes IH]; intros i Hi Hn; cbn [length] in *.
  { simpl. unfold inserted_count, reported. simpl. split_and!; try done; try lia.
    destruct (track_failed_rows (options i)); by rewrite app_nil_r. }
  assert (Hrec : next_import_row (record o i) = (next_import_row i + 1)%N ∧
                 inserted (record o i) = (inserted i + match o with Some _ => 0 | None => 1 end)%N ∧
                 options (record o i) = options i ∧ table (record o i) = table i ∧
                 columns (record o i) = columns i ∧
                 failed (record o i) = failed i ++ (if track_failed_rows (options i) then
                   match o with
                   | Some message => [{| row_index := next_import_row i; message := message; code := 0 |}]
                   | None => []
                   end else [])).
  { destruct o; unfold record, GaussState.record_failed, GaussState.record_inserted, sat_add; simpl;
      split_and!; try done; try lia.
    - by destruct (track_failed_rows (options i)); rewrite ?app_nil_r.
    - by destruct (track_failed_rows (options i)); rewrite app_nil_r. }
  destruct Hrec as (Hnext & Hins & Hopt & Htab & Hcol & Hfail).
  destruct (IH (record o i)) as (IH1 & IH2 & IH3 & IH4 & IH5 & IH6).
  - rewrite Hins. destruct o; lia.
  - rewrite Hnext. lia.
  - cbn [record_all foldl]. unfold record_all in *. cbv zeta. split_and!.
    + rewrite IH1, Hins. unfold inserted_count. rewrite filter_cons. destruct o; simpl; lia.
    + rewrite IH2, Hnext. lia.
    + rewrite IH3, Hfail, Hopt, Hnext, <-app_assoc. unfold reported.
      destruct (track_failed_rows (options i)), o; done.
    + congruence.
    + congruence.
    + congruence.
Qed.

(** ** The loop *)

Section import.
Context `{GaussClient, ValueLib, BoundLib}.
Context {codec : GaussCodec}.

(** The statement for each of the rows, one after the other, whatever becomes of them. *)
Fixpoint insert_all (session : OpenGaussSession) (sql : text) (rows : list Row) (server : Server)
    : Server * list row_outcome :=
  match rows with
  | [] => (server, [])
  | row :: rest =>
      let '(server, r) := execute session sql row server in
      let '(server, outcomes) := insert_all session sql rest server in
      (server, match r with Err e => Some (join (lit ": ") (chain e)) | _ => None end :: outcomes)
  end.

Lemma gauss_execute_no_panic session sql params server : (execute session sql params server).2 ≠ Panic.
Proof.
  unfold execute. rewrite lift_bind. destruct (bind_params params) as [e|ps]; [done|].
  simpl. unfold on_server. simpl. by destruct (client_execute _ _ _ _) as [? []].
Qed.

(** The statement of an import, which recording results does not change. *)
Definition insert_text (i : GaussState.ImportState) : text :=
  lit "INSERT INTO " ++ qualified_name (database i) (schema i) (table i) ++
  lit " (" ++ join (lit ", ") (quote_identifier <$> columns i) ++ lit ") VALUES (" ++
  placeholders (length (columns i)) ++ lit ")" ++ conflict_clause (options i).

Lemma insert_text_record o i : insert_text (record o i) = insert_text i.
Proof. by destruct o. Qed.

Lemma build_insert_sql_ok i row :
  length row = length (columns i) → build_insert_sql i row = Ok (insert_text i, row).
Proof. intros Hrow. unfold build_insert_sql. by rewrite bool_decide_true. Qed.

Definition with_import (id : text) (i : GaussState.ImportState) (server : Server) (s : Gauss) : Gauss :=
  {| state := insert_import id i (state s); GaussServer.server := server |}.

Lemma with_import_twice id i i' server server' s :
  with_import id i' server' (with_import id i server s) = with_import id i' server' s.
Proof.
  unfold with_import, insert_import, set_imports. simpl. by rewrite insert_insert_eq.
Qed.

Lemma with_import_same id i s :
  imports (state s) !! id = Some i → with_import id i (GaussServer.server s) s = s.
Proof.
  intros Hi. destruct s as [[c cu st im tx] sv]. unfold with_import, insert_import, set_imports.
  simpl in *. by rewrite insert_id.
Qed.

Lemma get_import_bind {B} id i (f : GaussState.ImportState → comp Gauss ProtocolError B) s :
  imports (state s) !! id = Some i → (get_import id ≫= f) s = f i s.
Proof. intros Hi. unfold get_import. by rewrite comp_bind_run, gets_bind, Hi. Qed.

(** One row: its statement is executed and its result recorded. *)
Lemma import_row_spec id i row s :
  imports (state s) !! id = Some i → length row = length (columns i) →
  let '(server, r) := execute (conn (state s)) (insert_text i) row (GaussServer.server s) in
  let o := match r with Err e => Some (join (lit ": ") (chain e)) | _ => None end in
  import_row id row s =
    (with_import id (record o i) server s,
     Ok match o with
        | None => inr ()
        | Some message => inl (GaussState.record_failed message 0 i).2
        end).
Proof.
  intros Hi Hrow. unfold import_row. rewrite (get_import_bind _ _ _ _ Hi), lift_bind, build_insert_sql_ok by done.
  rewrite comp_bind_run. unfold attempt.
  pose proof (gauss_execute_no_panic (conn (state s)) (insert_text i) row (GaussServer.server s)) as Hp.
  destruct (execute _ _ row _) as [server [n|e|]]; [| |done].
  all: cbn [fst snd]; rewrite (get_import_bind id i) by done.
  - done.
  - destruct (GaussState.record_failed _ 0 i) as [i' failed'] eqn:Hrec.
    rewrite comp_bind_run. unfold put_import, on_state. cbn [fst snd record]. by rewrite Hrec.
Qed.

Lemma import_rows_spec id rows i acc s :
  imports (state s) !! id = Some i →
  Forall (λ row, length row = length (columns i)) rows →
  (N.of_nat (length (chunk_failed acc) + length rows) <= u32_max)%N →
  (next_import_row i + N.of_nat (length rows) <= u64_max)%N →
  (chunk_inserted acc + N.of_nat (length rows) <= u64_max)%N →
  let session := conn (state s) in
  let outcomes := until_limit (options i) (N.of_nat (length (chunk_failed acc)))
                    (insert_all session (insert_text i) rows (GaussServer.server s)).2 in
  import_rows id rows acc s =
    (with_import id (record_all outcomes i)
       (insert_all session (insert_text i) (take (length outcomes) rows) (GaussServer.server s)).1 s,
     Ok {| chunk_inserted := chunk_inserted acc + N.of_nat (inserted_count outcomes);
           chunk_failed := chunk_failed acc ++ reported (options i) (next_import_row i) outcomes |}).
Proof.
  revert i acc s. induction rows as [|row rows IH]; intros i acc s Hi Hrows Hsmall Hnext Hins.
  { cbn [import_rows insert_all until_limit snd record_all foldl length take fst].
    rewrite with_import_same by done. unfold mret, comp_ret, inserted_count, reported. simpl.
    destruct acc as [n f]. simpl. rewrite N.add_0_r. by destruct (track_failed_rows _); rewrite app_nil_r. }
  apply Forall_cons in Hrows as [Hrow Hrows]. cbv zeta. cbn [import_rows insert_all].
  pose proof (import_row_spec id i row s Hi Hrow) as Hspec.
  destruct (execute (conn (state s)) (insert_text i) row (GaussServer.server s)) as [server r] eqn:Hexec.
  cbv zeta in Hspec. rewrite comp_bind_run, Hspec. clear Hspec.
  set (o := match r with Err e => Some _ | _ => None end). clearbody o.
  set (s1 := with_import id (record o i) server s).
  assert (Hi1 : imports (state s1) !! id = Some (record o i)) by apply lookup_insert_eq.
  assert (Hcols : columns (record o i) = columns i) by (by destruct o).
  assert (Hopts : options (record o i) = options i) by (by destruct o).
  assert (Hnext1 : next_import_row (record o i) = (next_import_row i + 1)%N).
  { cbn [length] in Hnext. destruct o; simpl; unfold sat_add; lia. }
  cbn [length] in *.
  destruct (insert_all (conn (state s)) (insert_text i) rows server) as [server2 outcomes] eqn:Hall.
  assert (Hsession : conn (state s1) = conn (state s)) by done.
  assert (Hserver : GaussServer.server s1 = server) by done.
  destruct o as [message|]; cbn [until_limit].
  - cbn [GaussState.record_failed fst snd]. fold s1.
    set (failed1 := chunk_failed acc ++ option_list _).
    rewrite (get_import_bind id _ _ s1 Hi1). unfold reaches_limit. rewrite Hopts. cbn [chunk_failed].
    set (tracked := if track_failed_rows (options i)
                    then (N.of_nat (length (chunk_failed acc)) + 1)%N
                    else N.of_nat (length (chunk_failed acc))).
    assert (Htracked : N.of_nat (length failed1) = tracked).
    { unfold failed1, tracked. rewrite length_app. destruct (track_failed_rows (options i)); simpl; lia. }
    rewrite N.mod_small by (rewrite Htracked; unfold tracked; destruct (track_failed_rows _); lia).
    rewrite Htracked.
    destruct (from_option (λ limit, (limit <=? tracked)%N) false (abort_on_failures (options i))) eqn:Hlimit.
    + assert (Htest : (match abort_on_failures (options i) with
                       | Some limit => (limit <=? tracked)%N | None => false end) = true)
        by (destruct (abort_on_failures (options i)); exact Hlimit).
      rewrite Htest. cbn [snd until_limit]. fold tracked. rewrite Hlimit. cbn [length take insert_all]. rewrite Hexec.
      cbn [fst record_all foldl]. unfold mret, comp_ret. fold s1. f_equal. f_equal.
      unfold inserted_count. simpl. f_equal; [lia|].
      unfold failed1, reported. destruct (track_failed_rows (options i)); done.
    + assert (Htest : (match abort_on_failures (options i) with
                       | Some limit => (limit <=? tracked)%N | None => false end) = false)
        by (destruct (abort_on_failures (options i)); exact Hlimit).
      rewrite Htest. cbn [snd until_limit]. fold tracked. rewrite Hlimit.
      rewrite (IH (record (Some message) i)); cbn [chunk_inserted chunk_failed].
      * rewrite Hopts, insert_text_record, Hsession, Hserver, Hall, Htracked, Hnext1. cbn [snd length take insert_all].
        rewrite Hexec. destruct (insert_all (conn (state s)) (insert_text i) (take _ rows) server) as [server3 outs].
        cbn [fst]. unfold s1. rewrite with_import_twice. cbn [record_all foldl].
        f_equal. f_equal. unfold inserted_count. simpl. f_equal.
        unfold failed1, reported. rewrite <-app_assoc. by destruct (track_failed_rows (options i)).
      * done.
      * by rewrite Hcols.
      * unfold failed1. rewrite length_app. destruct (track_failed_rows (options i)); simpl; lia.
      * rewrite Hnext1. lia.
      * lia.
  - cbn [fst snd until_limit]. fold s1. rewrite (IH (record None i)); cbn [chunk_inserted chunk_failed].
    + rewrite Hopts, insert_text_record, Hsession, Hserver, Hall, Hnext1. cbn [snd length take insert_all].
      rewrite Hexec. destruct (insert_all (conn (state s)) (insert_text i) (take _ rows) server) as [server3 ran].
      cbn [fst]. unfold s1. rewrite with_import_twice. cbn [record_all foldl].
      set (outs := until_limit _ _ _).
      assert (Hcount : (sat_add u64_max (chunk_inserted acc) 1 + N.of_nat (inserted_count outs))%N =
                       (chunk_inserted acc + N.of_nat (inserted_count (None :: outs)))%N).
      { unfold inserted_count, sat_add. rewrite filter_cons. simpl. lia. }
      rewrite Hcount. unfold reported. by destruct (track_failed_rows (options i)).
    + done.
    + by rewrite Hcols.
    + simpl in *. lia.
    + rewrite Hnext1. lia.
    + unfold sat_add. lia.
Qed.

(** A chunk of an import, of rows with as many cells as the import has columns: each row
    is sent with its statement, in order, until the failures that are tracked reach the limit
    the import was begun with; the answer and the account of the import then agree with what
    became of these rows.  The rows inserted and the rows that failed add up to the rows
    sent, and a failed row is reported under its number in the whole import.  Without
    tracking a limit above zero never stops a chunk. *)
Theorem import_chunk_accounts s v id rows i
    (Hparams : import_chunk_params v = inr {| ic_import_id := id; ic_rows := rows |})
    (Hfound : imports (state s) !! id = Some i)
    (Hcells : Forall (λ row, length row = length (columns i)) rows)
    (Hrows : (N.of_nat (length rows) <= u32_max)%N)
    (Hinserted : (inserted i + N.of_nat (length rows) <= u64_max)%N)
    (Hnext : (next_import_row i + N.of_nat (length rows) <= u64_max)%N) :
  let run := insert_all (conn (state s)) (insert_text i) in
  let outcomes := until_limit (options i) 0 (run rows (GaussServer.server s)).2 in
  let answer := {| chunk_inserted := N.of_nat (inserted_count outcomes);
                   chunk_failed := reported (options i) (next_import_row i) outcomes |} in
  ∃ i',
    handle_data_import_chunk v s =
      (with_import id i' (run (take (length outcomes) rows) (GaussServer.server s)).1 s,
       serialize import_chunk_value answer) ∧
    inserted i' = (inserted i + chunk_inserted answer)%N ∧
    next_import_row i' = (next_import_row i + N.of_nat (length outcomes))%N ∧
    failed i' = failed i ++ chunk_failed answer ∧
    length outcomes = inserted_count outcomes + length (failures (next_import_row i) outcomes) ∧
    length outcomes ≤ length rows ∧
    (track_failed_rows (options i) = false → abort_on_failures (options i) ≠ Some 0%N →
     length outcomes = length rows).
Proof.
  intros run outcomes answer. exists (record_all outcomes i).
  assert (Hall : length (run rows (GaussServer.server s)).2 = length rows).
  { unfold run. generalize (GaussServer.server s). clear. induction rows as [|row rows IH]; intros sv; [done|].
    cbn [insert_all]. destruct (execute _ _ row sv) as [sv1 r]. specialize (IH sv1).
    destruct (insert_all _ _ rows sv1). simpl in *. lia. }
  assert (Hlen : length outcomes ≤ length rows).
  { rewrite <-Hall. apply until_limit_length. }
  destruct (record_all_account outcomes i ltac:(lia) ltac:(lia)) as (Hi & Hn & Hf & _).
  split_and!; [|done|done|done|apply failures_length|done|].
  - unfold handle_data_import_chunk, parse_params. rewrite lift_bind, Hparams.
    cbn [ic_import_id ic_rows]. rewrite comp_bind_run.
    rewrite (import_rows_spec id rows i _ s Hfound Hcells); cbn [chunk_failed chunk_inserted length].
    2-4: simpl; lia.
    fold run outcomes. done.
  - intros Htrack Hzero. rewrite <-Hall. unfold outcomes. by apply until_limit_untracked.
Qed.
End import.

(** ** A chunk on the demonstration server *)

Module ImportDemo.
Import GaussDemo.
#[local] Existing Instances chrono tls client bounds codec DuckDemo.values.

(** An import of one column that stops at the second failure. *)
Definition import : GaussState.ImportState :=
  GaussState.new_import (lit "t") None None [lit "n"]
    {| upsert := false; on_conflict_columns := []; disable_triggers := false;
       track_failed_rows := true; abort_on_failures := Some 2%N |} 0.

Definition importing : Gauss := with_import (lit "i") import 0 idle.

Definition number (n : N) : Value := Array [Number (PosInt n)].
Definition chunk : Value :=
  Object [(lit "import_id", Str (lit "i"));
          (lit "rows", Array [number 1; Array [Null]; number 2; Array [Null]; number 3])].
End ImportDemo.

(** Of five rows the first four are sent: two are inserted, and the second failure ends the
    chunk. *)
Lemma import_chunk_accounts_witness : ∃ i',
  @handle_data_import_chunk _ _ GaussDemo.client DuckDemo.values _ GaussDemo.codec
    ImportDemo.chunk ImportDemo.importing =
    (with_import (lit "i") i' (2 : @Server _ _ GaussDemo.client) ImportDemo.importing,
     Ok (Number (PosInt 2))) ∧
  inserted i' = 2%N ∧ next_import_row i' = 4%N ∧
  row_index <$> failed i' = [1; 3]%N.
Proof.
  destruct (@import_chunk_accounts _ _ GaussDemo.client DuckDemo.values _ GaussDemo.codec
    ImportDemo.importing ImportDemo.chunk (lit "i")
    [[CI64 1]; [CNull]; [CI64 2]; [CNull]; [CI64 3]] ImportDemo.import)
    as (i' & Heq & Hi & Hn & Hf & _).
  - done.
  - done.
  - by repeat constructor.
  - done.
  - done.
  - done.
  - exists i'. split; [exact Heq|]. split; [exact Hi|]. split; [exact Hn|]. by rewrite Hf.
Defined.
