(* ===== verification/GaussDriver.v ===== *)
(** * The openGauss driver: object views and the driver of a connection

    ipc/opengauss/src/driver.rs, with the lifecycle and the object views of handlers.rs:
    what the driver answers to [init], how it opens connections, and which handler a method
    goes to.  The driver runtime, a dependency, owns the threads and calls
    [open_connection], [call] and [close].  Then what every request leaves true of the
    cursors, streams and imports of a connection, and which requests can panic: slices stay
    within their data, so only the requests that read columns of the catalog can. *)

From S2P Require Import Prelude VncClipboard Text JsonValue DuckValue DuckState DuckText DuckDemo DdlSpec GaussDdl GaussState GaussSession GaussCatalog GaussExport GaussServer GaussDemo GaussImport.

(** ** The openGauss driver: object views and the driver of a connection *)

(** ** Methods *)

(** The constants of [extension_protocol::method] and [SCHEMA_OBJECT_VIEW]; any other
    name. *)
Inductive Method : Type :=
  | PING | SHUTDOWN | CONN_TEST | CONN_OPEN | CONN_CLOSE | CONN_PING | CONN_USE
  | QUERY_START | CURSOR_FETCH | CURSOR_CLOSE | CURSOR_CANCEL | EXEC_RUN | EXEC_BATCH
  | TX_BEGIN | TX_COMMIT | TX_ROLLBACK | TX_SAVEPOINT | TX_RELEASE
  | DDL_BUILD | DDL_BUILD_CREATE_TABLE | DDL_BUILD_ALTER_TABLE | DDL_BUILD_DROP
  | DATA_EXPORT | DATA_IMPORT_BEGIN | DATA_IMPORT_CHUNK | DATA_IMPORT_COMMIT | DATA_IMPORT_ABORT
  | STREAM_READ | STREAM_CLOSE | SCHEMA_OBJECT_VIEW
  | SCHEMA_DATABASES | SCHEMA_SCHEMAS | SCHEMA_OBJECTS | SCHEMA_COLUMNS | SCHEMA_INDEXES
  | SCHEMA_FOREIGN_KEYS | SCHEMA_CHECKS | SCHEMA_VIEWS | SCHEMA_FUNCTIONS | SCHEMA_PROCEDURES
  | SCHEMA_TRIGGERS | SCHEMA_SEQUENCES | SCHEMA_TYPES | SCHEMA_VIEW_DEFINITION | SCHEMA_DUMP_DDL
  | OtherMethod (name : text).
#[export] Instance Method_eq_dec : EqDecision Method.
Proof. solve_decision. Defined.

Definition declared_methods : list Method :=
  [PING; SHUTDOWN; CONN_TEST; CONN_OPEN; CONN_CLOSE; CONN_PING; CONN_USE; QUERY_START;
   CURSOR_FETCH; CURSOR_CLOSE; CURSOR_CANCEL; EXEC_RUN; EXEC_BATCH; TX_BEGIN; TX_COMMIT;
   TX_ROLLBACK; TX_SAVEPOINT; TX_RELEASE; DDL_BUILD; DDL_BUILD_CREATE_TABLE;
   DDL_BUILD_ALTER_TABLE; DDL_BUILD_DROP; DATA_EXPORT; DATA_IMPORT_BEGIN; DATA_IMPORT_CHUNK;
   DATA_IMPORT_COMMIT; DATA_IMPORT_ABORT; STREAM_READ; STREAM_CLOSE; SCHEMA_OBJECT_VIEW;
   SCHEMA_DATABASES; SCHEMA_SCHEMAS; SCHEMA_OBJECTS; SCHEMA_COLUMNS; SCHEMA_INDEXES;
   SCHEMA_FOREIGN_KEYS; SCHEMA_CHECKS; SCHEMA_VIEWS; SCHEMA_FUNCTIONS; SCHEMA_PROCEDURES;
   SCHEMA_TRIGGERS; SCHEMA_SEQUENCES; SCHEMA_TYPES; SCHEMA_VIEW_DEFINITION; SCHEMA_DUMP_DDL].

(** ** Messages *)

Inductive Capability : Type :=
  | RICH_ERRORS | BATCH_EXEC | DATA_PIPE | DDL_BUILDER | SCHEMA_INTROSPECTION.

Record InitResult := {
  init_version : text; init_apis : list (text * text); init_features : list Capability;
  init_drivers : list text; init_methods : list Method
}.

Record ObjectViewParams := {
  ov_conn_id : N; ov_view : text; ov_database : option text; ov_schema : option text;
  ov_table : option text
}.
Record ObjectViewColumn := { vc_key : text; vc_name : text; vc_width_px : N; vc_align : option text }.
Record ObjectView := {
  view_title : text; view_columns : list ObjectViewColumn; view_rows : list (list text)
}.

(** What serde derives for these messages, the DDL builders with the types it derives, the
    names of the methods and of the kinds of objects, and the versions of the semver crate. *)
Class GaussDriverCodec := {
  host_version : FromValue text;
  shutdown_params : FromValue ();
  conn_open_params : FromValue ConnTestParams;
  init_value : ToValue InitResult;
  object_view_params : FromValue ObjectViewParams;
  object_view_value : ToValue ObjectView;
  databases_read : FromValue (list DatabaseInfo);
  schemas_read : FromValue (list SchemaInfo);
  objects_read : FromValue (list ObjectInfo);
  columns_read : FromValue (list ColumnInfo);
  indexes_read : FromValue (list IndexInfo);
  functions_read : FromValue (list FunctionInfo);
  ddl_build_params :: FromValue BuildDdlParams;
  table_spec :: FromValue TableSpec;
  create_table_params :: FromValue BuildCreateTableParams;
  alter_table_params :: FromValue BuildAlterTableParams;
  drop_params :: FromValue BuildDropParams;
  ddl_build_value :: ToValue BuildDdlResult;
  create_table_value :: ToValue BuildCreateTableResult;
  alter_table_value :: ToValue BuildAlterTableResult;
  drop_value :: ToValue text;
  default_create_options : CreateTableOptions;
  kind_text : ObjectKind → text;
  method_text : Method → text;
  Version : Type;
  parse_version : text → text + Version;
  at_least : text → Version → bool;
  show_version : Version → text;
  debug_text : text → text;
  package_version : text
}.

Definition MINIMUM_HOST_VERSION : text := lit "0.10.0".

(** The driver: whether it was initialised, and the next number of a connection. *)
Record OpenGaussDriver := { initialized : bool; next_connection : N }.
Definition new_driver : OpenGaussDriver := {| initialized := false; next_connection := 1 |}.

Section driver.
Context `{GaussClient, ValueLib, BoundLib, ConfigCodec}.
Context {codec : GaussCodec} `{GaussDriverCodec}.

Abbreviation handler A := (comp Gauss ProtocolError A) (only parsing).

(** ** Lifecycle *)

Definition ensure_compatible_host (host_version : text) : result () :=
  let requires := lit "this driver requires Navop >= " ++ MINIMUM_HOST_VERSION in
  match parse_version host_version with
  | inl error =>
      Err (new_error SERVER_INCOMPATIBLE
        (requires ++ lit "; invalid host version " ++ debug_text host_version ++ lit ": " ++ error))
  | inr current =>
      if at_least MINIMUM_HOST_VERSION current then Ok ()
      else Err (new_error SERVER_INCOMPATIBLE
        (requires ++ lit "; current host version is " ++ show_version current ++
         lit ". Please upgrade Navop"))
  end.

Definition init_result : InitResult :=
  {| init_version := package_version; init_apis := [(lit "database", lit "1.0")];
     init_features := [RICH_ERRORS; BATCH_EXEC; DATA_PIPE; DDL_BUILDER; SCHEMA_INTROSPECTION];
     init_drivers := [lit "opengauss"]; init_methods := declared_methods |}.

Definition handle_init (params : Value) : comp OpenGaussDriver ProtocolError Value :=
  version ← lift_outcome (parse_params host_version params);
  _ ← lift_outcome (ensure_compatible_host version);
  already ← gets initialized;
  _ ← lift_outcome (ensure (negb already)
        (new_error ALREADY_INITIALIZED (lit "driver already initialized")));
  _ ← modify (λ d, {| initialized := true; next_connection := next_connection d |});
  lift_outcome (serialize init_value init_result).

Definition handle_shutdown (params : Value) : result Value :=
  _ ← parse_params shutdown_params params; Ok Null.

(** The session of a connection and the version of its server, if it says one. *)
Definition open_with_version (params : Value) : comp Server ProtocolError (OpenGaussSession * text) :=
  p ← lift_outcome (parse_params conn_open_params params);
  session ← open_session p;
  version ← attempt (E:=AnyError) (server_version session);
  mret (session, match version with inr version => version | inl _ => lit "unknown" end).

Definition server_info (version : text) : Value :=
  Object [(lit "version", Str version);
          (lit "features", Array [Str (lit "postgresql_compatible"); Str (lit "schemas");
                                  Str (lit "catalogs")])].

(** The number, the answer and the state of a connection that was opened. *)
Definition open_connection (params : Value) (d : OpenGaussDriver) (server : Server)
    : OpenGaussDriver * Server *
      result (N * Value * GaussState.ConnectionState OpenGaussSession) :=
  let '(server, r) := open_with_version params server in
  match r with
  | Ok (session, version) =>
      let conn_id := next_connection d in
      ({| initialized := initialized d; next_connection := wrap_add u64_max conn_id 1 |}, server,
       Ok (conn_id,
           Object [(lit "conn_id", Number (PosInt conn_id));
                   (lit "server_info", server_info version)],
           new_state session))
  | Err e => (d, server, Err e)
  | Panic => (d, server, Panic)
  end.

(** ** Object views *)

Definition object_view_column (key name : string) (width_px : N) (align : option string)
    : ObjectViewColumn :=
  {| vc_key := lit key; vc_name := lit name; vc_width_px := width_px; vc_align := lit <$> align |}.

(** The rows another handler answers with, read back from JSON. *)
Definition rows_from {A} (H : FromValue (list A)) (m : handler Value) : handler (list A) :=
  value ← m;
  lift_outcome (parse_params H value).

Definition bool_text (b : bool) : text := lit (if b then "true" else "false").

Definition scope_params (p : ObjectViewParams) (rest : list (text * Value)) : Value :=
  Object ([(lit "conn_id", Number (PosInt (ov_conn_id p))); (lit "database", opt_str (ov_database p));
           (lit "schema", opt_str (ov_schema p))] ++ rest).

Definition table_params (p : ObjectViewParams) : Value :=
  scope_params p [(lit "table", Str (default [] (ov_table p)))].

Definition object_view_from_objects (p : ObjectViewParams) (title : text) (kind : ObjectKind)
    : handler ObjectView :=
  rows ← rows_from objects_read
    (handle_schema_objects (scope_params p [(lit "kinds", Array [Str (kind_text kind)])]));
  mret {| view_title := title;
          view_columns := [object_view_column "name" "Name" 220 None;
                           object_view_column "comment" "Comment" 260 None];
          view_rows := (λ row, [obi_name row; obi_comment row]) <$> rows |}.

Definition databases_view (p : ObjectViewParams) : handler ObjectView :=
  rows ← rows_from databases_read
    (handle_schema_databases (Object [(lit "conn_id", Number (PosInt (ov_conn_id p)))]));
  mret {| view_title := lit "Databases";
          view_columns := [object_view_column "name" "Name" 220 None;
                           object_view_column "owner" "Owner" 160 None];
          view_rows := (λ row, [dbi_name row; default [] (dbi_owner row)]) <$> rows |}.

Definition schemas_view (p : ObjectViewParams) : handler ObjectView :=
  rows ← rows_from schemas_read
    (handle_schema_schemas (Object [(lit "conn_id", Number (PosInt (ov_conn_id p)));
                                    (lit "database", Str (default [] (ov_database p)))]));
  mret {| view_title := lit "Schemas";
          view_columns := [object_view_column "name" "Name" 220 None;
                           object_view_column "owner" "Owner" 160 None;
                           object_view_column "comment" "Comment" 260 None];
          view_rows := (λ row, [sci_name row; default [] (sci_owner row); sci_comment row]) <$> rows |}.

Definition columns_view (p : ObjectViewParams) : handler ObjectView :=
  rows ← rows_from columns_read (handle_schema_columns (table_params p));
  mret {| view_title := lit "Columns";
          view_columns := [object_view_column "name" "Field" 220 None;
                           object_view_column "type" "Type" 160 None;
                           object_view_column "nullable" "Null?" 72 (Some "right"%string);
                           object_view_column "default" "Default" 180 None];
          view_rows := (λ row, [coi_name row; coi_type_str row; bool_text (coi_nullable row);
                                default [] (coi_default row)]) <$> rows |}.

Definition indexes_view (p : ObjectViewParams) : handler ObjectView :=
  rows ← rows_from indexes_read (handle_schema_indexes (table_params p));
  mret {| view_title := lit "Indexes";
          view_columns := [object_view_column "name" "Name" 220 None;
                           object_view_column "table" "Table" 180 None;
                           object_view_column "unique" "Unique?" 90 (Some "right"%string);
                           object_view_column "type" "Type" 140 None];
          view_rows := (λ row, [ixi_name row; ixi_table row; bool_text (ixi_is_unique row);
                                default [] (ixi_kind row)]) <$> rows |}.

Definition functions_view (p : ObjectViewParams) : handler ObjectView :=
  rows ← rows_from functions_read (handle_schema_functions (scope_params p []));
  mret {| view_title := lit "Functions";
          view_columns := [object_view_column "name" "Name" 220 None;
                           object_view_column "returns" "Returns" 160 None;
                           object_view_column "language" "Language" 120 None];
          view_rows := (λ row, [fni_name row; default [] (fni_return_type row);
                                default [] (fni_language row)]) <$> rows |}.

Definition handle_schema_object_view (params : Value) : handler Value :=
  p ← lift_outcome (parse_params object_view_params params);
  let view := ov_view p in
  result ←
    (if bool_decide (view = lit "databases") then databases_view p
     else if bool_decide (view = lit "schemas") then schemas_view p
     else if bool_decide (view = lit "tables")
          then object_view_from_objects p (lit "Tables") TableKind
     else if bool_decide (view = lit "views") then object_view_from_objects p (lit "Views") ViewKind
     else if bool_decide (view = lit "columns") then columns_view p
     else if bool_decide (view = lit "indexes") then indexes_view p
     else if bool_decide (view = lit "functions") then functions_view p
     else throw (new_error METHOD_NOT_FOUND (lit "unsupported object view: " ++ view)));
  lift_outcome (serialize object_view_value result).

(** ** Dispatch *)

Definition method_not_found (method_name : text) : ProtocolError :=
  new_error METHOD_NOT_FOUND
    (lit "method `" ++ method_name ++ lit "` is not implemented in OpenGauss driver").

(** Every error of the DDL builders is one of invalid parameters. *)
Definition ddl_result (r : text + Value) : result Value :=
  match r with inl e => Err (invalid_params e) | inr v => Ok v end.

Definition handle_ddl_fallback (method_name : Method) (params : Value) : result Value :=
  match method_name with
  | DDL_BUILD => ddl_result (handle_ddl_build default_create_options params)
  | DDL_BUILD_CREATE_TABLE => ddl_result (handle_ddl_build_create_table params)
  | DDL_BUILD_ALTER_TABLE => ddl_result (handle_ddl_build_alter_table params)
  | DDL_BUILD_DROP => ddl_result (handle_ddl_build_drop params)
  | other => Err (not_supported (lit "unsupported DDL method `" ++ method_text other ++ lit "`"))
  end.

Definition call_connless (latency : N) (method_name : Method) (params : Value)
    : comp Server ProtocolError Value :=
  match method_name with
  | CONN_TEST => handle_conn_test latency params
  | DDL_BUILD | DDL_BUILD_CREATE_TABLE | DDL_BUILD_ALTER_TABLE | DDL_BUILD_DROP =>
      lift_outcome (handle_ddl_fallback method_name params)
  | other => throw (method_not_found (method_text other))
  end.

(** [uuid] is what the call would draw, [now] the clock reading and [latency] what a ping
    took. *)
Definition call (uuid : text) (now latency : N) (method_name : Method) (params : Value)
    : handler Value :=
  match method_name with
  | CONN_PING => handle_conn_ping latency params
  | CONN_USE => handle_conn_use params
  | QUERY_START => handle_query_start uuid params
  | CURSOR_FETCH => handle_cursor_fetch params
  | CURSOR_CLOSE => handle_cursor_close params
  | CURSOR_CANCEL => handle_cursor_cancel params
  | EXEC_RUN => handle_exec_run params
  | EXEC_BATCH => handle_exec_batch params
  | TX_BEGIN => handle_tx_begin uuid params
  | TX_COMMIT => handle_tx_commit params
  | TX_ROLLBACK => handle_tx_rollback params
  | TX_SAVEPOINT => handle_tx_savepoint params
  | TX_RELEASE => handle_tx_release params
  | DATA_EXPORT => handle_data_export params
  | DATA_IMPORT_BEGIN => handle_data_import_begin uuid now params
  | DATA_IMPORT_CHUNK => handle_data_import_chunk params
  | DATA_IMPORT_COMMIT => handle_data_import_commit now params
  | DATA_IMPORT_ABORT => handle_data_import_abort params
  | STREAM_READ => handle_stream_read params
  | STREAM_CLOSE => handle_stream_close params
  | SCHEMA_OBJECT_VIEW => handle_schema_object_view params
  | SCHEMA_DATABASES => handle_schema_databases params
  | SCHEMA_SCHEMAS => handle_schema_schemas params
  | SCHEMA_OBJECTS => handle_schema_objects params
  | SCHEMA_COLUMNS => handle_schema_columns params
  | SCHEMA_VIEWS => handle_schema_views params
  | SCHEMA_INDEXES => handle_schema_indexes params
  | SCHEMA_FOREIGN_KEYS => handle_schema_foreign_keys params
  | SCHEMA_CHECKS => handle_schema_checks params
  | SCHEMA_FUNCTIONS => handle_schema_functions params
  | SCHEMA_PROCEDURES => handle_schema_procedures params
  | SCHEMA_TRIGGERS => handle_schema_triggers params
  | SCHEMA_SEQUENCES => handle_schema_sequences params
  | SCHEMA_TYPES => handle_schema_types params
  | SCHEMA_VIEW_DEFINITION => handle_schema_view_definition params
  | SCHEMA_DUMP_DDL => handle_schema_dump_ddl params
  | DDL_BUILD | DDL_BUILD_CREATE_TABLE | DDL_BUILD_ALTER_TABLE | DDL_BUILD_DROP =>
      lift_outcome (handle_ddl_fallback method_name params)
  | other => throw (method_not_found (method_text other))
  end.

(** [OpenGaussConnection::close] *)
Definition close_connection (s : Gauss) : Gauss :=
  {| state := state s; server := close (conn (state s)) (server s) |}.
End driver.

(** ** The openGauss driver: the tables of a connection *)

(** ** The invariant *)

Definition cursor_ok (c : GaussState.CursorState) : Prop :=
  next_row c ≤ length (rows c) ∧ (N.of_nat (next_row c) <= u64_max)%N ∧
  (∀ m, max_rows c = Some m → (N.of_nat (next_row c) <= m)%N).

Definition stream_ok (st : StreamState) : Prop :=
  offset st ≤ length (data st) ∧ (N.of_nat (offset st) <= u64_max)%N.

(** The account of an import: its columns are named, no more rows were inserted than
    processed, and the failures kept have numbers of rows that were processed. *)
Definition import_ok (i : GaussState.ImportState) : Prop :=
  columns i ≠ [] ∧ (inserted i <= next_import_row i <= u64_max)%N ∧
  Forall (λ f, (row_index f <= next_import_row i)%N) (failed i) ∧
  (track_failed_rows (options i) = false → failed i = []).

Create HintDb order discriminated.

Section safe.
Context `{GaussClient, ValueLib, BoundLib, ConfigCodec}.
Context {codec : GaussCodec} `{GaussDriverCodec}.

Definition tables_ok (s : Gauss) : Prop :=
  map_Forall (λ _, cursor_ok) (cursors (state s)) ∧
  map_Forall (λ _, stream_ok) (streams (state s)) ∧
  map_Forall (λ _, import_ok) (imports (state s)).

Abbreviation State := (GaussState.ConnectionState OpenGaussSession) (only parsing).

(** [m] keeps the tables in order and panics only if [risky]. *)
Definition in_order {A} (risky : bool) (m : comp Gauss ProtocolError A) : Prop :=
  ∀ s, tables_ok s → tables_ok (m s).1 ∧ ((m s).2 = Panic → risky = true).

Lemma in_order_bind {A B} risky (m : comp Gauss ProtocolError A) (f : A → comp Gauss ProtocolError B) :
  in_order risky m → (∀ a, in_order risky (f a)) → in_order risky (m ≫= f).
Proof.
  intros Hm Hf s Hs. rewrite comp_bind_run. destruct (Hm s Hs) as [Hs' Hp].
  destruct (m s) as [s' []]; simpl in *; [by apply Hf|done|auto].
Qed.

Lemma in_order_pure {A} risky (r : Gauss → outcome ProtocolError A) :
  (∀ s, tables_ok s → r s ≠ Panic) → in_order risky (λ s, (s, r s)).
Proof. intros Hr s Hs. split; [done|]. intros Hp. by destruct (Hr s Hs). Qed.

Lemma in_order_lift {A} risky (r : outcome ProtocolError A) :
  r ≠ Panic → in_order risky (lift_outcome r).
Proof. intros Hr. by apply in_order_pure. Qed.

Lemma in_order_ret {A} risky (a : A) : in_order risky (mret a).
Proof. by apply in_order_pure. Qed.

Lemma in_order_throw {A} risky e : in_order (A:=A) risky (throw e).
Proof. by apply in_order_pure. Qed.

Lemma in_order_gets {A} risky (f : Gauss → A) : in_order risky (gets f).
Proof. by apply in_order_pure. Qed.

Lemma in_order_on_conn {A} (risky : bool) code (m : OpenGaussSession → comp Server AnyError A) :
  (risky = false → ∀ session server, (m session server).2 ≠ Panic) →
  in_order risky (on_conn code m).
Proof.
  intros Hm s Hs. unfold on_conn.
  destruct (m (conn (state s)) (GaussServer.server s)) as [server r] eqn:Hr. split; [done|].
  destruct risky; [done|]. specialize (Hm eq_refl (conn (state s)) (GaussServer.server s)).
  rewrite Hr in Hm. simpl in *. by destruct r.
Qed.

Lemma in_order_on_state {A} risky (m : State → State * A) :
  (∀ s, map_Forall (λ _, cursor_ok) (cursors s) → map_Forall (λ _, cursor_ok) (cursors (m s).1)) →
  (∀ s, map_Forall (λ _, stream_ok) (streams s) → map_Forall (λ _, stream_ok) (streams (m s).1)) →
  (∀ s, map_Forall (λ _, import_ok) (imports s) → map_Forall (λ _, import_ok) (imports (m s).1)) →
  in_order risky (on_state m).
Proof. intros Hc Hst Hi s (Hsc & Hss & Hsi). split; [|done]. split_and!; simpl; auto. Qed.

(** ** Calls of the client *)

Lemma on_server_no_panic {A} error (m : Server → Server * (AnyError + A)) s :
  (on_server error m s).2 ≠ Panic.
Proof. unfold on_server. simpl. by destruct (m s).2. Qed.

Lemma simple_execute_no_panic session sql s : (simple_execute session sql s).2 ≠ Panic.
Proof. apply on_server_no_panic. Qed.
Lemma ping_no_panic session s : (ping session s).2 ≠ Panic.
Proof. apply on_server_no_panic. Qed.

Lemma query_no_panic session sql params s : (query session sql params s).2 ≠ Panic.
Proof.
  unfold query. rewrite lift_bind. destruct (bind_params params); [done|]. simpl.
  rewrite on_server_bind. by destruct (client_query _ _ _ s).2.
Qed.

Lemma execute_batch_no_panic session statements s : (execute_batch session statements s).2 ≠ Panic.
Proof.
  revert s. induction statements as [|statement rest IH]; intros s; [done|]. cbn [execute_batch].
  rewrite comp_bind_run. pose proof (gauss_execute_no_panic session statement [] s) as Hp.
  destruct (execute session statement [] s) as [s1 []]; [|done..]. cbn [fst snd].
  rewrite comp_bind_run. specialize (IH s1). by destruct (execute_batch session rest s1) as [s2 []].
Qed.

(** ** Tables *)

Lemma fetch_ok n c : cursor_ok c →
  match fetch (E:=ProtocolError) n c with Ok (c', _) => cursor_ok c' | _ => False end.
Proof.
  intros (Hlen & Hbig & Hmax). unfold fetch. destruct (done c); [done|].
  set (e := _ `min` _).
  assert (He : next_row c ≤ e ∧ e ≤ length (rows c) ∧ (N.of_nat e <= u64_max)%N)
    by (unfold e, sat_add; lia).
  rewrite get_slice_ok by lia. cbn [mbind outcome_bind]. unfold cursor_ok. simpl. split_and!; [lia..|].
  intros m Hm. specialize (Hmax m Hm). unfold e, fetch_take, sat_add. rewrite Hm. lia.
Qed.

Lemma read_ok n st : stream_ok st →
  match read (E:=ProtocolError) n st with Ok (st', _) => stream_ok st' | _ => False end.
Proof.
  intros (Hlen & Hbig). unfold read.
  set (e := _ `min` _).
  assert (He : offset st ≤ e ∧ e ≤ length (data st) ∧ (N.of_nat e <= u64_max)%N)
    by (unfold e, sat_add; lia).
  rewrite get_slice_ok by lia. cbn [mbind outcome_bind]. unfold stream_ok. simpl. lia.
Qed.

Lemma record_ok o i : import_ok i → import_ok (record o i).
Proof.
  intros (Hcols & [Hins Hmax] & Hfailed & Htrack).
  assert (Hnext : (next_import_row i <= sat_add u64_max (next_import_row i) 1)%N) by (unfold sat_add; lia).
  assert (Hold : Forall (λ f, (row_index f <= sat_add u64_max (next_import_row i) 1)%N) (failed i)).
  { eapply Forall_impl; [exact Hfailed|]. simpl. intros. lia. }
  destruct o; unfold import_ok, record, GaussState.record_inserted, GaussState.record_failed; simpl.
  - split_and!; [done|unfold sat_add; lia..| |].
    + destruct (track_failed_rows (options i)); [|done]. apply Forall_app. split; [done|].
      by constructor.
    + intros Hoff. rewrite Hoff. auto.
  - split_and!; [done|unfold sat_add; lia..|done|done].
Qed.

(** ** Requests *)

Lemma gauss_parse_params_no_panic {T} (f : FromValue T) v : parse_params f v ≠ Panic.
Proof. unfold parse_params. by destruct (f v). Qed.
Lemma gauss_serialize_no_panic {T} (f : ToValue T) a : serialize f a ≠ Panic.
Proof. unfold serialize. by destruct (f a). Qed.
Lemma limited_export_sql_no_panic p : limited_export_sql p ≠ Panic.
Proof. unfold limited_export_sql, export_sql. no_panic_steps. Qed.
Lemma export_bytes_no_panic p found : export_bytes p found ≠ Panic.
Proof.
  unfold export_bytes. destruct (ex_format p); try done. apply bind_no_panic; [|done].
  destruct (ex_options p); try done; apply gauss_parse_params_no_panic.
Qed.
Lemma build_insert_sql_no_panic i row : build_insert_sql i row ≠ Panic.
Proof. unfold build_insert_sql. by destruct (negb _). Qed.
Lemma handle_ddl_fallback_no_panic method_name v : handle_ddl_fallback method_name v ≠ Panic.
Proof. destruct method_name; try done; simpl; unfold ddl_result; by destruct (_ : text + Value). Qed.

Hint Resolve gauss_parse_params_no_panic gauss_serialize_no_panic limited_export_sql_no_panic
  export_bytes_no_panic build_insert_sql_no_panic ensure_no_panic of_option_no_panic
  handle_ddl_fallback_no_panic query_no_panic gauss_execute_no_panic execute_batch_no_panic
  simple_execute_no_panic ping_no_panic in_order_lift in_order_ret in_order_throw in_order_gets : order.

(** A request whose steps keep the tables. *)
Ltac in_order_steps :=
  repeat first
    [solve [auto with order]
    |apply in_order_bind; [|intros ?]
    |apply in_order_on_conn; intros; solve [done|auto with order]
    |match goal with |- in_order _ (match ?x with _ => _ end) => destruct x end].

(** Steps on one entry of a table. *)
Lemma in_order_get_cursor {B} risky id (f : GaussState.CursorState → comp Gauss ProtocolError B) :
  (∀ c, cursor_ok c → in_order risky (f c)) → in_order risky (get_cursor id ≫= f).
Proof.
  intros Hf s Hs. unfold get_cursor. rewrite comp_bind_run, gets_bind.
  destruct (cursors (state s) !! id) as [c|] eqn:Hc; [|done].
  apply Hf; [|done]. destruct Hs as [Hs _]. exact (Hs id c Hc).
Qed.

Lemma in_order_put_cursor risky id c : cursor_ok c → in_order risky (put_cursor id c).
Proof. intros Hc. apply in_order_on_state; simpl; [|done..]. intros s Hs. by apply map_Forall_insert_2. Qed.

Lemma in_order_get_import {B} risky id (f : GaussState.ImportState → comp Gauss ProtocolError B) :
  (∀ i, import_ok i → in_order risky (f i)) → in_order risky (get_import id ≫= f).
Proof.
  intros Hf s Hs. unfold get_import. rewrite comp_bind_run, gets_bind.
  destruct (imports (state s) !! id) as [i|] eqn:Hi; [|done].
  apply Hf; [|done]. destruct Hs as (_ & _ & Hs). exact (Hs id i Hi).
Qed.

Lemma in_order_put_import risky id i : import_ok i → in_order risky (put_import id i).
Proof. intros Hi. apply in_order_on_state; simpl; [done..|]. intros s Hs. by apply map_Forall_insert_2. Qed.

Lemma map_Forall_delete_id {A} (P : A → Prop) (id : text) (m : gmap text A) :
  map_Forall (λ _, P) m → map_Forall (λ _, P) (delete id m).
Proof. intros Hm j x [_ Hx]%lookup_delete_Some. exact (Hm j x Hx). Qed.

Lemma query_start_in_order uuid v : in_order false (handle_query_start uuid v).
Proof.
  unfold handle_query_start. in_order_steps.
  apply in_order_on_state; simpl; [|done..]. intros s Hs. apply map_Forall_insert_2; [|done].
  unfold cursor_ok. simpl. split_and!; [lia..|]. intros; lia.
Qed.

Lemma cursor_fetch_in_order v : in_order false (handle_cursor_fetch v).
Proof.
  unfold handle_cursor_fetch. apply in_order_bind; [auto with order|intros p].
  apply in_order_get_cursor. intros c Hc. pose proof (fetch_ok (cf_n p) c Hc) as Hfetch.
  intros s Hs. rewrite lift_bind. destruct (fetch (cf_n p) c) as [[c' [page d]]| |]; [|done..].
  revert s Hs. apply in_order_bind; [by apply in_order_put_cursor|intros ?; auto with order].
Qed.

Lemma cursor_cancel_in_order v : in_order false (handle_cursor_cancel v).
Proof.
  unfold handle_cursor_cancel. apply in_order_bind; [auto with order|intros id].
  apply in_order_get_cursor. intros c Hc.
  apply in_order_bind; [by apply in_order_put_cursor|intros ?; auto with order].
Qed.

Lemma stream_read_in_order v : in_order false (handle_stream_read v).
Proof.
  unfold handle_stream_read. apply in_order_bind; [auto with order|intros p].
  intros s Hs. rewrite gets_bind, lift_bind.
  destruct (streams (state s) !! sr_stream_id p) as [st|] eqn:Hst; [|done]. cbn [of_option].
  destruct Hs as (Hc & Hs & Hi). pose proof (read_ok (sr_max_bytes p) st (Hs _ _ Hst)) as Hread.
  rewrite lift_bind. destruct (read (sr_max_bytes p) st) as [[st' [chunk d]]| |]; [|done..].
  assert (Htables : tables_ok s) by (by split). revert s Htables Hc Hs Hi Hst. intros s Htables _ _ _ _.
  revert s Htables. apply in_order_bind; [|intros ?; auto with order].
  apply in_order_on_state; simpl; [done| |done]. intros s Hs. by apply map_Forall_insert_2.
Qed.

Lemma import_row_in_order id row : in_order false (import_row id row).
Proof.
  unfold import_row. apply in_order_get_import. intros i Hi. apply in_order_bind; [auto with order|intros [sql values]].
  apply in_order_bind.
  { intros s Hs. unfold attempt.
    pose proof (gauss_execute_no_panic (conn (state s)) sql values (GaussServer.server s)) as Hp.
    by destruct (execute (conn (state s)) sql values (GaussServer.server s)) as [server []]. }
  intros r. apply in_order_get_import. intros i' Hi'. destruct r as [e|n].
  - pose proof (record_ok (Some (join (lit ": ") (chain e))) i' Hi') as Hrec.
    cbn [GaussState.record_failed record fst] in *.
    apply in_order_bind; [by apply in_order_put_import|auto with order].
  - apply in_order_bind; [by apply in_order_put_import, (record_ok None)|auto with order].
Qed.

Lemma import_rows_in_order id rows acc : in_order false (import_rows id rows acc).
Proof.
  revert acc. induction rows as [|row rows IH]; intros acc; cbn [import_rows]; [auto with order|].
  apply in_order_bind; [apply import_row_in_order|]. intros [failed|]; [|apply IH].
  apply in_order_get_import. intros i _. by destruct (reaches_limit _ _); [auto with order|].
Qed.

Lemma import_begin_in_order uuid now v : in_order false (handle_data_import_begin uuid now v).
Proof.
  unfold handle_data_import_begin. apply in_order_bind; [auto with order|intros p].
  intros s Hs. rewrite lift_bind. destruct (decide (ib_columns p = [])) as [Hnil|Hcols].
  { by rewrite bool_decide_true. }
  rewrite bool_decide_false by done. cbn [negb ensure]. revert s Hs.
  apply in_order_bind; [|intros ?; auto with order].
  apply in_order_on_state; simpl; [done..|]. intros s Hs. apply map_Forall_insert_2; [|done].
  unfold import_ok. simpl. split_and!; [done|lia..|done|done].
Qed.

(** Requests that read the columns of a query without asking whether they are there. *)
Definition reads_catalog (method_name : Method) : bool :=
  match method_name with
  | CONN_USE | SCHEMA_OBJECT_VIEW | SCHEMA_DATABASES | SCHEMA_SCHEMAS | SCHEMA_OBJECTS
  | SCHEMA_COLUMNS | SCHEMA_VIEWS | SCHEMA_INDEXES | SCHEMA_FOREIGN_KEYS | SCHEMA_CHECKS
  | SCHEMA_FUNCTIONS | SCHEMA_PROCEDURES | SCHEMA_TRIGGERS | SCHEMA_SEQUENCES | SCHEMA_TYPES
  | SCHEMA_VIEW_DEFINITION | SCHEMA_DUMP_DDL => true
  | _ => false
  end.

Lemma in_order_schema {P A} (parse : FromValue P) (out : ToValue A) f v :
  in_order true (schema_handler parse out f v).
Proof. unfold schema_handler. in_order_steps. Qed.

Lemma in_order_columns v : in_order true (handle_schema_columns v).
Proof. unfold handle_schema_columns. in_order_steps. Qed.

Lemma in_order_rows_from {A} (parse : FromValue (list A)) m :
  in_order true m → in_order true (rows_from parse m).
Proof. intros Hm. unfold rows_from. in_order_steps. Qed.

Lemma in_order_object_view v : in_order true (handle_schema_object_view v).
Proof.
  unfold handle_schema_object_view. apply in_order_bind; [auto with order|intros p].
  apply in_order_bind; [|auto with order].
  repeat (case_bool_decide; [apply in_order_bind; [|auto with order];
    apply in_order_rows_from; first [apply in_order_schema|apply in_order_columns]|]).
  auto with order.
Qed.

(** Requests that remove an entry of a table, or change the transactions. *)
Ltac table_step :=
  apply in_order_on_state; simpl; intros; first [done|by apply map_Forall_delete_id].

Ltac removal_steps := in_order_steps; try table_step.

Lemma removals_in_order v :
  in_order false (handle_cursor_close v) ∧ in_order false (handle_stream_close v) ∧
  (∀ now, in_order false (handle_data_import_commit now v)) ∧
  in_order false (handle_data_import_abort v).
Proof.
  unfold handle_cursor_close, handle_stream_close, handle_data_import_commit,
    handle_data_import_abort.
  split_and!; intros; removal_steps.
Qed.

Lemma transactions_in_order v :
  (∀ uuid, in_order false (handle_tx_begin uuid v)) ∧ in_order false (handle_tx_commit v) ∧
  in_order false (handle_tx_rollback v) ∧ in_order false (handle_tx_savepoint v) ∧
  in_order false (handle_tx_release v).
Proof.
  unfold handle_tx_begin, handle_tx_commit, handle_tx_rollback, handle_tx_savepoint,
    handle_tx_release, ensure_tx, control.
  split_and!; intros; removal_steps.
Qed.

Lemma statements_in_order v :
  (∀ latency, in_order false (handle_conn_ping latency v)) ∧ in_order false (handle_exec_run v) ∧
  in_order false (handle_exec_batch v).
Proof.
  unfold handle_conn_ping, handle_exec_run, handle_exec_batch.
  split_and!; intros; in_order_steps.
Qed.

Lemma conn_use_in_order v : in_order true (handle_conn_use v).
Proof. unfold handle_conn_use. in_order_steps. Qed.

Lemma data_export_in_order v : in_order false (handle_data_export v).
Proof.
  unfold handle_data_export. in_order_steps.
  apply in_order_on_state; simpl; [done| |done]. intros s Hs. apply map_Forall_insert_2; [|done].
  unfold stream_ok. simpl. lia.
Qed.

Lemma import_chunk_in_order v : in_order false (handle_data_import_chunk v).
Proof.
  unfold handle_data_import_chunk. apply in_order_bind; [auto with order|intros p].
  apply in_order_bind; [apply import_rows_in_order|auto with order].
Qed.

(** C27: Every request to an open connection of the openGauss driver keeps its tables in
    order: a cursor and a stream stand within the data they hold and a cursor within its
    limit, an import has columns, has not inserted more rows than it processed, keeps the
    failures of rows it processed and none if they are not tracked.  So no request slices
    outside the data: only the requests that read the catalog can panic, where the server
    leaves out a column they count on. *)
Theorem call_keeps_tables uuid now latency method_name v s (Hs : tables_ok s) :
  tables_ok (call uuid now latency method_name v s).1 ∧
  ((call uuid now latency method_name v s).2 = Panic → reads_catalog method_name = true).
Proof.
  revert s Hs. change (in_order (reads_catalog method_name) (call uuid now latency method_name v)).
  destruct (removals_in_order v) as (? & ? & ? & ?).
  destruct (transactions_in_order v) as (? & ? & ? & ? & ?).
  destruct (statements_in_order v) as (? & ? & ?).
  destruct method_name; cbn [call reads_catalog]; try done; auto with order;
    eauto using query_start_in_order, cursor_fetch_in_order, cursor_cancel_in_order,
      stream_read_in_order, import_begin_in_order, import_chunk_in_order, data_export_in_order,
      conn_use_in_order, in_order_object_view, in_order_schema, in_order_columns.
Qed.
End safe.

(** ** A connection with a cursor and an import *)

Module SafeDemo.
Import GaussDemo.
#[local] Existing Instances chrono tls client bounds codec DuckDemo.values.

Definition config : ConfigCodec := {| config_fields := λ _ _, inl (lit "not read here") |}.

Definition driver_codec : GaussDriverCodec := {|
  host_version := no; shutdown_params := no; conn_open_params := no; init_value := null;
  object_view_params := no; object_view_value := null; databases_read := no; schemas_read := no;
  objects_read := no; columns_read := no; indexes_read := no; functions_read := no;
  ddl_build_params := no; table_spec := no; create_table_params := no; alter_table_params := no;
  drop_params := no; ddl_build_value := null; create_table_value := null;
  alter_table_value := null; drop_value := null;
  default_create_options :=
    {| temporary := false; if_not_exists := false; with_indexes := true; with_comments := true;
       with_foreign_keys := true |};
  kind_text := λ _, []; method_text := λ _, []; Version := (); parse_version := λ _, inr ();
  at_least := λ _ _, true; show_version := λ _, []; debug_text := λ t, t; package_version := []
|}.

(** A cursor of which one row of two was fetched, and an import. *)
Definition busy : Gauss :=
  {| state := (open_cursor (lit "7") {| rows := [[CI64 1]; [CI64 2]]; next_row := 1;
                                         max_rows := Some 2%N; done := false |}
                (state ImportDemo.importing)).1;
     GaussServer.server := 0 |}.
End SafeDemo.

Lemma call_keeps_tables_witness :
  let run := @call _ _ GaussDemo.client DuckDemo.values _ GaussDemo.codec SafeDemo.driver_codec
               [] 0 0 DATA_IMPORT_CHUNK ImportDemo.chunk SafeDemo.busy in
  tables_ok run.1 ∧ run.2 ≠ Panic.
Proof.
  intros run.
  destruct (@call_keeps_tables _ _ GaussDemo.client DuckDemo.values _ GaussDemo.codec
    SafeDemo.driver_codec [] 0 0 DATA_IMPORT_CHUNK ImportDemo.chunk SafeDemo.busy) as [Hs Hp].
  - split_and!.
    + intros id c. unfold SafeDemo.busy. simpl. rewrite lookup_insert_Some, lookup_empty.
      intros [[_ <-]|[_ [=]]]. split_and!; simpl; [lia..|]. by intros m [= <-].
    + intros id st [=].
    + intros id i. simpl. rewrite lookup_insert_Some, lookup_empty. intros [[_ <-]|[_ [=]]].
      split_and!; simpl; [done|lia..|done|done].
  - split; [exact Hs|]. intros H. discriminate (Hp H).
Defined.
