(* ===== verification/XmlReader.v ===== *)
(** * A reader of XML

    The checks of a reader of XML 1.0 that does not validate: characters that XML allows,
    one root element, elements closed in the order in which they were opened, attributes
    in quotation marks and no two of one name, and no references but those to the five
    predefined entities.  The reader is stricter than the standard where the exporter never
    goes: no comments, no single quotes, no greater-than sign in text.  It specifies what the
    Word export has to write. *)

From S2P Require Import Prelude Text.

Abbreviation text := (list N) (only parsing).

(** [Char] of the standard, for scalar values. *)
Definition xml_char (c : N) : bool :=
  ((c =? 9) || (c =? 10) || (c =? 13) || (32 <=? c) && negb ((c =? 65534) || (c =? 65535)))%N.

Definition name_start (c : N) : bool :=
  ((65 <=? c) && (c <=? 90) || (97 <=? c) && (c <=? 122) || (c =? 95))%N.
Definition name_char (c : N) : bool :=
  name_start c || is_digit c || (c =? 58)%N || (c =? 45)%N || (c =? 46)%N.

Definition entity (name : text) : bool := one_of ["amp"; "lt"; "gt"; "quot"; "apos"] name.

(** Where the reader is; the names that it is in the middle of are in reverse. *)
Inductive Mode : Type :=
  | Content
  | Reference (name : text)
  | Markup
  | Declaration (question : bool)
  | OpenName (name : text)
  | InTag (tag : text) (seen : list text)
  | Attribute (tag : text) (seen : list text) (name : text)
  | Equals (tag : text) (seen : list text)
  | Quoted (tag : text) (seen : list text)
  | QuotedReference (tag : text) (seen : list text) (name : text)
  | AfterValue (tag : text) (seen : list text)
  | Slash
  | CloseName (name : text).

(** With the elements that are open, and whether there has been a root. *)
Record Reader := { mode : Mode; opened : list text; rooted : bool }.

Definition start : Reader := {| mode := Content; opened := []; rooted := false |}.
Definition complete : Reader := {| mode := Content; opened := []; rooted := true |}.

Definition enter (m : Mode) (r : Reader) : option Reader :=
  Some {| mode := m; opened := opened r; rooted := rooted r |}.

(** What may follow a name or a value in a tag. *)
Definition in_tag (tag : text) (seen : list text) (r : Reader) (c : N) : option Reader :=
  if (c =? 32)%N then enter (InTag tag seen) r
  else if (c =? 47)%N then enter Slash r
  else if (c =? 62)%N then Some {| mode := Content; opened := tag :: opened r; rooted := true |}
  else None.

Definition step (r : Reader) (c : N) : option Reader :=
  if negb (xml_char c) then None else
  match mode r with
  | Content =>
      if (c =? 60)%N then enter Markup r
      else if (c =? 62)%N then None
      else if bool_decide (opened r = []) then if is_whitespace c then Some r else None
      else if (c =? 38)%N then enter (Reference []) r
      else Some r
  | Reference name =>
      if (c =? 59)%N then if entity (reverse name) then enter Content r else None
      else enter (Reference (c :: name)) r
  | Markup =>
      if name_start c then
        if bool_decide (opened r = []) && rooted r then None else enter (OpenName [c]) r
      else if (c =? 47)%N then enter (CloseName []) r
      else if (c =? 63)%N && bool_decide (opened r = []) && negb (rooted r)
      then enter (Declaration false) r
      else None
  | Declaration question =>
      if (c =? 62)%N && question then enter Content r else enter (Declaration (c =? 63)%N) r
  | OpenName name =>
      if name_char c then enter (OpenName (c :: name)) r else in_tag (reverse name) [] r c
  | InTag tag seen =>
      if name_start c then enter (Attribute tag seen [c]) r else in_tag tag seen r c
  | Attribute tag seen name =>
      if name_char c then enter (Attribute tag seen (c :: name)) r
      else if (c =? 61)%N && negb (bool_decide (name ∈ seen)) then enter (Equals tag (name :: seen)) r
      else None
  | Equals tag seen => if (c =? 34)%N then enter (Quoted tag seen) r else None
  | Quoted tag seen =>
      if (c =? 34)%N then enter (AfterValue tag seen) r
      else if (c =? 60)%N then None
      else if (c =? 38)%N then enter (QuotedReference tag seen []) r
      else Some r
  | QuotedReference tag seen name =>
      if (c =? 59)%N then if entity (reverse name) then enter (Quoted tag seen) r else None
      else enter (QuotedReference tag seen (c :: name)) r
  | AfterValue tag seen => in_tag tag seen r c
  | Slash =>
      if (c =? 62)%N then Some {| mode := Content; opened := opened r; rooted := true |} else None
  | CloseName name =>
      if name_char c then enter (CloseName (c :: name)) r
      else match opened r with
      | tag :: rest =>
          if (c =? 62)%N && bool_decide (tag = reverse name)
          then Some {| mode := Content; opened := rest; rooted := rooted r |} else None
      | [] => None
      end
  end.

Fixpoint run (r : Reader) (t : text) : option Reader :=
  match t with
  | [] => Some r
  | c :: t => r ← step r c; run r t
  end.

Definition well_formed (t : text) : Prop := run start t = Some complete.

(** ** Reading piece by piece *)

(** The reader gets from [r] to [r'] over [t]. *)
Definition reads (r : Reader) (t : text) (r' : Reader) : Prop := run r t = Some r'.

Lemma reads_nil r : reads r [] r.
Proof. done. Qed.

Lemma reads_app r s r' t r'' : reads r s r' → reads r' t r'' → reads r (s ++ t) r''.
Proof.
  unfold reads. revert r. induction s as [|c s IH]; intros r; simpl; [by intros [= ->]|].
  destruct (step r c); simpl; [apply IH|done].
Qed.

(** Pieces that all bring the reader back to where it was. *)
Lemma reads_join r (ts : list text) : Forall (λ t, reads r t r) ts → reads r (mjoin ts) r.
Proof.
  induction 1 as [|t ts Ht _ IH]; [done|]. change (mjoin (t :: ts)) with (t ++ mjoin ts).
  by eapply reads_app.
Qed.

(** Where the reader stands still: between tags inside an element, and in a value. *)
Inductive resting (r : Reader) : Prop :=
  | rest_content tag tags : mode r = Content → opened r = tag :: tags → resting r
  | rest_quoted tag seen : mode r = Quoted tag seen → resting r.

(** A character that is read as it is, in text and in values. *)
Definition plain (c : N) : bool :=
  xml_char c && negb ((c =? 60) || (c =? 62) || (c =? 38) || (c =? 34))%N.

Lemma reads_char r c : resting r → plain c = true → reads r [c] r.
Proof.
  intros Hr Hp. unfold plain in Hp. apply andb_true_iff in Hp as [Hc Hp].
  rewrite negb_true_iff, !orb_false_iff in Hp. destruct Hp as [[[H1 H2] H3] H4].
  unfold reads. cbn [run]. unfold step. rewrite Hc. cbn [negb].
  destruct Hr as [tag tags -> ->|tag seen ->].
  - by rewrite H1, H2, H3.
  - by rewrite H1, H3, H4.
Qed.

Lemma reads_plain r t : resting r → Forall (λ c, plain c = true) t → reads r t r.
Proof.
  intros Hr Ht. induction Ht as [|c t Hc _ IH]; [done|].
  by apply (reads_app r [c] r t r); [apply reads_char|].
Qed.

Lemma digit_plain c : is_digit c = true → plain c = true.
Proof.
  unfold is_digit. intros [H1 H2]%andb_true_iff. apply N.leb_le in H1, H2.
  assert (∃ k : nat, k < 10 ∧ c = (48 + N.of_nat k)%N) as (k & Hk & ->).
  { exists (N.to_nat (c - 48)). split; lia. }
  do 10 (destruct k as [|k]; [by vm_compute|]). lia.
Qed.

Lemma reads_number r n : resting r → reads r (show_N n) r.
Proof.
  intros Hr. apply reads_plain; [done|].
  eapply Forall_impl; [apply (show_N_digits n)|]. apply digit_plain.
Qed.
