(* ===== verification/Floats.v ===== *)
(** * Floating-point numbers

    Rust's [f32] and [f64] by the Standard Library's specification of IEEE 754 binary
    formats: every operation rounds the exact result to nearest, ties to even. *)

From Stdlib Require Import SpecFloat.
From S2P Require Import Prelude Text.

(** A format: the bits of the significand, and the bound of the exponent. *)
Record format := { prec : Z; emax : Z }.
Definition f32 : format := {| prec := 24; emax := 128 |}.
Definition f64 : format := {| prec := 53; emax := 1024 |}.

Abbreviation float := spec_float (only parsing).

Section float.
Context (f : format).

(** The float nearest to an integer. *)
Definition of_N (n : N) : float := binary_normalize (prec f) (emax f) (Z.of_N n) 0 false.
(** A decimal literal, as a fraction. *)
Definition ratio (n d : N) : float := SFdiv (prec f) (emax f) (of_N n) (of_N d).

Definition add : float → float → float := SFadd (prec f) (emax f).
Definition sub : float → float → float := SFsub (prec f) (emax f).
Definition mul : float → float → float := SFmul (prec f) (emax f).
Definition div : float → float → float := SFdiv (prec f) (emax f).
End float.

Definition lt : float → float → bool := SFltb.

(** [a.min(b)] and [a.max(b)], neither of which is used on a value that is not a number. *)
Definition min (a b : float) : float := if lt b a then b else a.
Definition max (a b : float) : float := if lt a b then b else a.

(** The integer part of [m * 2^e] and the remainder over its denominator. *)
Definition quotient (m : N) (e : Z) : N * N * N :=
  if (0 <=? e)%Z then (N.shiftl m (Z.to_N e), 0, 1)%N
  else let d := N.shiftl 1 (Z.to_N (- e)) in (m / d, m `mod` d, d)%N.

(** [x.round() as uN]: half away from zero; a float outside the range becomes the bound. *)
Definition round_to_N (bound : N) (x : float) : N :=
  match x with
  | S754_finite false m e =>
      let '(q, r, d) := quotient (Npos m) e in
      N.min bound (if (d <=? 2 * r)%N then q + 1 else q)
  | S754_infinity false => bound
  | _ => 0
  end%N.

(** [x as uN] *)
Definition truncate_to_N (bound : N) (x : float) : N :=
  match x with
  | S754_finite false m e => let '(q, _, _) := quotient (Npos m) e in N.min bound q
  | S754_infinity false => bound
  | _ => 0
  end%N.

(** [format!("{x:.1}")]: the exact value rounded to tenths, ties to even. *)
Definition show_tenths (n : N) : list N := show_N (n / 10) ++ [46%N] ++ show_N (n `mod` 10).

Definition show1 (x : float) : list N :=
  match x with
  | S754_zero s => (if s then [45%N] else []) ++ show_tenths 0
  | S754_infinity s => (if s then [45%N] else []) ++ lit "inf"
  | S754_nan => lit "NaN"
  | S754_finite s m e =>
      let '(q, r, d) := quotient (10 * Npos m) e in
      let n := match (2 * r ?= d)%N with
               | Lt => q | Gt => (q + 1)%N | Eq => if N.even q then q else (q + 1)%N
               end in
      (if s then [45%N] else []) ++ show_tenths n
  end.
