(* ===== verification/NotesText.v ===== *)
(** * Exporting notes: the lines of a note

    The reader of notes-document-export-core (src/extensions/wasm): a note, Markdown with
    fragments of HTML, becomes the lines that the PDF and Word exports lay out.  Positions
    are counted in characters; the code counts bytes, but only at ASCII characters. *)

From S2P Require Import Prelude VncClipboard Text TextSearch.

Abbreviation text := (list N) (only parsing).

(** ** Lines *)

Record ImageData := { alt : text; image_path : text }.
Record TableCellData := { cell_text : text; cell_images : list ImageData }.
Record TableData := { table_rows : list (list TableCellData) }.

Inductive LineKind : Type :=
  | Blank
  | Heading (level : nat)
  | Body
  | Quote
  | Bullet
  | Ordered
  | Code
  | TableLine (table : TableData)
  | ImageLine (image : ImageData).

Record DocumentLine := { kind : LineKind; line_text : text }.

Definition line (kind : LineKind) (t : text) : DocumentLine := {| kind := kind; line_text := t |}.

(** ** Inline text *)

(** One replacement of a link or image that begins with [opening]: its label stays. *)
Definition unlink (opening : text) (t : text) : option text :=
  open ← find opening t;
  let label_start := open + length opening in
  label_end ← (λ i, label_start + i) <$> find (lit "](") (drop label_start t);
  target_end ← (λ i, label_end + 2 + i) <$> find_char (N.eqb 41) (drop (label_end + 2) t);
  Some (take open t ++ take (label_end - label_start) (drop label_start t) ++ drop (S target_end) t).

(** [while let Some(open) = text.find(opening) { .. }] *)
Fixpoint unlink_all (fuel : nat) (opening : text) (t : text) : text :=
  match fuel with
  | O => t
  | S fuel =>
      match unlink opening t with
      | Some t' => unlink_all fuel opening t'
      | None => t
      end
  end.

Definition clean_inline (source : text) : text :=
  let t := replace (lit "`") [] (replace (lit "~~") [] (replace (lit "__") []
             (replace (lit "**") [] source))) in
  let t := unlink_all (length t) (lit "![") t in
  unlink_all (length t) (lit "[") t.

(** [.trim().trim_matches(|c| matches!(c, '<' | '>'))] *)
Definition image_target (t : text) : text :=
  trim_matches (λ c, (c =? 60) || (c =? 62))%N (trim t).

Definition parse_image (t : text) : option ImageData :=
  start ← strip_prefix (lit "![") t;
  label_end ← find (lit "](") start;
  let path := image_target (trim_end_matches (N.eqb 41) (drop (label_end + 2) start)) in
  if bool_decide (path = []) then None
  else Some {| alt := take label_end start; image_path := path |}.

(** The loop of [parse_inline_images]: each turn takes a text that is shorter. *)
Fixpoint inline_images (fuel : nat) (remaining : text) : list ImageData :=
  match fuel with
  | O => []
  | S fuel =>
      match find (lit "![") remaining with
      | None => []
      | Some start =>
          let remaining := drop start remaining in
          match find (lit "](") remaining with
          | None => []
          | Some label_end =>
              match find_char (N.eqb 41) (drop (label_end + 2) remaining) with
              | None => []
              | Some i =>
                  let target_end := label_end + 2 + i in
                  let path := image_target (take (target_end - (label_end + 2))
                                              (drop (label_end + 2) remaining)) in
                  (if bool_decide (path = []) then []
                   else [{| alt := take (label_end - 2) (drop 2 remaining); image_path := path |}])
                  ++ inline_images fuel (drop (S target_end) remaining)
              end
          end
      end
  end.

Definition parse_inline_images (source : text) : list ImageData :=
  inline_images (length source) source.

(** ** Tables and lists *)

Definition is_table_row (t : text) : bool :=
  has_char 124 t && has_char 124 (trim_matches (N.eqb 124) t).

Definition table_cells (t : text) : list text :=
  split_char 124 [] (trim_matches (N.eqb 124) t).

Definition is_table_separator (t : text) : bool :=
  forallb (λ cell, (3 <=? str_len (trim cell)) &&
                   forallb (λ c, (c =? 45) || (c =? 58) || (c =? 32))%N (trim cell))
    (table_cells t).

Definition parse_table_row (t : text) : list TableCellData :=
  (λ cell, {| cell_text := clean_inline (trim cell); cell_images := parse_inline_images cell |})
  <$> table_cells t.

Definition ordered_list_item (t : text) : option (text * text) :=
  '(number, rest) ← split_once (lit ". ") t;
  if negb (bool_decide (number = [])) && forallb is_digit number then Some (number, rest) else None.

(** ** HTML *)

Fixpoint visible (in_tag : bool) (source : text) : text :=
  match source with
  | [] => []
  | c :: rest =>
      if (c =? 60)%N then visible true rest
      else if (c =? 62)%N then 32%N :: visible false rest
      else if in_tag then visible in_tag rest
      else c :: visible in_tag rest
  end.

Definition html_visible_text (source : text) : option text :=
  let t := join (lit " ") (split_whitespace (visible false source)) in
  if bool_decide (t = []) then None else Some t.

Definition html_attribute (tag name : text) : option text :=
  let marker := name ++ lit "=" in
  start ← (λ i, i + length marker) <$> find marker (to_ascii_lowercase tag);
  quote ← tag !! start;
  if (quote =? 39)%N || (quote =? 34)%N then
    '(value, _) ← split_once_at (N.eqb quote) (drop (S start) tag);
    Some value
  else
    Some (from_option (λ n, take n (drop start tag)) (drop start tag)
            (find_char (λ c, is_whitespace c || (c =? 62)%N) (drop start tag))).

(** The line of the text before a tag. *)
Definition text_lines (source : text) : list DocumentLine :=
  from_option (λ t, [line Body t]) [] (html_visible_text source).

(** The loop of [parse_html_fragment] on what is behind the cursor: the lines of the images
    and the text between them, and what is left; a tag without an end stops it. *)
Fixpoint image_lines (fuel : nat) (source : text) : list DocumentLine * text :=
  match fuel with
  | O => ([], source)
  | S fuel =>
      match find (lit "<img") (to_ascii_lowercase source) with
      | None => ([], source)
      | Some start =>
          let before := text_lines (take start source) in
          match find_char (N.eqb 62) (drop start source) with
          | None => (before, source)
          | Some offset =>
              let tag := take (S offset) (drop start source) in
              let image :=
                match html_attribute tag (lit "src") with
                | Some path =>
                    [line (ImageLine {| alt := default (lit "Image") (html_attribute tag (lit "alt"));
                                        image_path := path |}) []]
                | None => []
                end in
              let '(others, rest) := image_lines fuel (drop (start + S offset) source) in
              (before ++ image ++ others, rest)
          end
      end
  end.

Definition fragment_kind (lower : text) : LineKind :=
  if contains (lit "<h1") lower then Heading 1
  else if contains (lit "<h2") lower then Heading 2
  else if contains (lit "<h3") lower then Heading 3
  else if contains (lit "<blockquote") lower then Quote
  else if contains (lit "<li") lower then Bullet
  else Body.

Definition parse_html_fragment (source : text) : list DocumentLine :=
  let '(found, rest) := image_lines (length source) source in
  let found := found ++
    match html_visible_text rest with
    | Some t => [line (fragment_kind (to_ascii_lowercase source)) t]
    | None => []
    end in
  if bool_decide (length found = 0) then [line Blank []] else found.

(** ** The note *)

(** The lines up to the first that [stop] accepts, and the others. *)
Fixpoint span (keep : text → bool) (ls : list text) : list text * list text :=
  match ls with
  | [] => ([], [])
  | l :: rest =>
      if keep l then let '(kept, others) := span keep rest in (l :: kept, others) else ([], ls)
  end.

(** The line of a paragraph, a heading, a quote or an item. *)
Definition paragraph_line (start : text) : DocumentLine :=
  let heading_marks := length start - length (trim_start_matches (N.eqb 35) start) in
  if (1 <=? heading_marks) && (heading_marks <=? 6) && bool_decide (start !! heading_marks = Some 32%N)
  then line (Heading heading_marks) (clean_inline (drop (S heading_marks) start))
  else match strip_prefix (lit "> ") start with
  | Some t => line Quote (clean_inline t)
  | None =>
      let item := union (strip_prefix (lit "- ") start)
                    (union (strip_prefix (lit "* ") start) (strip_prefix (lit "+ ") start)) in
      match item with
      | Some t => line Bullet (clean_inline t)
      | None =>
          match ordered_list_item start with
          | Some (_, t) => line Ordered (clean_inline t)
          | None => line Body (clean_inline start)
          end
      end
  end.

Definition is_fence (start : text) : bool :=
  starts_with (lit "```") start || starts_with (lit "~~~") start.

Definition non_blank_line (l : text) : bool := negb (bool_decide (trim l = [])).

(** One turn of the loop of [document_lines]: the lines made of [raw] and of the lines
    after it, whether they end in a code block, and what is left. *)
Definition next_lines (code : bool) (raw : text) (rest : list text)
    : list DocumentLine * bool * list text :=
  let trimmed := trim_end raw in
  let start := trim_start trimmed in
  if is_fence start then ([], negb code, rest)
  else if code then ([line Code trimmed], code, rest)
  else if bool_decide (start = []) then ([line Blank []], code, rest)
  else if starts_with (lit "<") start then
    let '(fragment, rest) := span non_blank_line (raw :: rest) in
    (parse_html_fragment (join [10%N] fragment), code, rest)
  else if is_table_row start && from_option (λ l, is_table_separator (trim l)) false (head rest) then
    let '(rows, rest) := span (λ l, is_table_row (trim l)) (tail rest) in
    ([line (TableLine {| table_rows := parse_table_row start ::
                           ((λ l, parse_table_row (trim l)) <$> rows) |}) []], code, rest)
  else match parse_image start with
  | Some image => ([line (ImageLine image) []], code, rest)
  | None => ([paragraph_line start], code, rest)
  end.

Fixpoint lines_loop (fuel : nat) (code : bool) (ls : list text) : list DocumentLine :=
  match fuel, ls with
  | S fuel, raw :: rest =>
      let '(found, code, rest) := next_lines code raw rest in
      found ++ lines_loop fuel code rest
  | _, _ => []
  end.

Definition document_lines (source : text) : list DocumentLine :=
  let ls := lines source in
  lines_loop (length ls) false ls.
