(* ===== verification/NotesLines.v ===== *)
(** * Exporting notes: what the lines are made of

    The lines of a note are made of its characters, a space, a line feed and the word that
    stands for an image without a description; a table has rows and no row is empty; the
    loops of the reader end because their condition fails. *)

From S2P Require Import Prelude VncClipboard Text TextSearch NotesText.

(** ** Characters *)

Section chars.
Context (P : N → Prop).

Lemma all_lines_from (current t : text) :
  Forall P current → Forall P t → Forall (Forall P) (lines_from current t).
Proof.
  intros Hc Ht. revert current Hc. induction Ht as [|c t ? ? IH]; intros current Hc; simpl.
  - destruct current; repeat constructor. auto with text.
  - destruct (c =? 10)%N; [|apply IH; by constructor]. constructor; [|by apply IH].
    unfold line_of. destruct Hc as [|d current ? ?]; [done|]. destruct (d =? 13)%N; auto with text.
Qed.

Lemma all_words_from (current t : text) :
  Forall P current → Forall P t → Forall (Forall P) (words_from current t).
Proof.
  intros Hc Ht. assert (∀ w : text, Forall P w → Forall (Forall P) (word_of w)) as Hw.
  { intros w Hw. destruct w; repeat constructor. by apply all_reverse. }
  revert current Hc. induction Ht as [|c t ? ? IH]; intros current Hc; simpl; [auto|].
  destruct (is_whitespace c); [|apply IH; by constructor]. apply Forall_app. auto.
Qed.

Lemma all_join separator (parts : list text) :
  Forall P separator → Forall (Forall P) parts → Forall P (join separator parts).
Proof.
  intros Hs [|q qs Hq Hqs]; [done|]. simpl. apply all_app; [done|].
  induction Hqs as [|p ps ? ? IH]; [done|]. rewrite bind_cons. auto with text.
Qed.

Lemma all_erase p (t : text) : Forall P t → Forall P (replace p [] t).
Proof.
  intros Ht. unfold replace. generalize 0. induction Ht as [|c t Hc ? IH]; intros skip; [by destruct skip|].
  cbn [replace_from]. destruct skip as [|skip]; [|apply IH].
  destruct (starts_with p (c :: t)); [apply IH|]. by constructor.
Qed.

Lemma all_visible inside (t : text) : P 32%N → Forall P t → Forall P (visible inside t).
Proof.
  intros Hs Ht. revert inside. induction Ht as [|c t ? ? IH]; intros inside; simpl; [done|].
  repeat case_match; auto.
Qed.

(** *** Inline text *)

#[local] Hint Resolve all_trim_end_matches all_trim_matches all_trim_end all_trim all_erase : text.

Lemma all_unlink opening (t t' : text) : unlink opening t = Some t' → Forall P t → Forall P t'.
Proof.
  unfold unlink. intros H Ht. simplify_option_eq. auto 10 with text.
Qed.

Lemma all_unlink_all fuel opening (t : text) : Forall P t → Forall P (unlink_all fuel opening t).
Proof.
  revert t. induction fuel as [|fuel IH]; intros t Ht; simpl; [done|].
  destruct (unlink opening t) eqn:E; [|done]. apply IH. by eapply all_unlink.
Qed.

Lemma all_clean_inline (t : text) : Forall P t → Forall P (clean_inline t).
Proof. unfold clean_inline. auto 10 using all_unlink_all with text. Qed.

End chars.

#[export] Hint Resolve all_reverse all_take all_drop all_app all_trim_start_matches
  all_trim_start all_trim_end_matches all_trim_matches all_trim_end all_trim all_erase
  all_clean_inline : text.

(** ** Lengths *)

Lemma trim_start_length (t : text) : length (trim_start t) ≤ length t.
Proof. induction t as [|c t IH]; simpl; [done|]. destruct (is_whitespace c); simpl; lia. Qed.
Lemma trim_start_matches_length f (t : text) : length (trim_start_matches f t) ≤ length t.
Proof. induction t as [|c t IH]; simpl; [done|]. destruct (f c); simpl; lia. Qed.
Lemma trim_end_length (t : text) : length (trim_end t) ≤ length t.
Proof.
  unfold trim_end. rewrite length_reverse. etransitivity; [apply trim_start_length|].
  by rewrite length_reverse.
Qed.
Lemma trim_length (t : text) : length (trim t) ≤ length t.
Proof. etransitivity; [apply trim_end_length|apply trim_start_length]. Qed.
Lemma trim_matches_length f (t : text) : length (trim_matches f t) ≤ length t.
Proof.
  unfold trim_matches, trim_end_matches. rewrite length_reverse.
  etransitivity; [apply trim_start_matches_length|]. rewrite length_reverse.
  apply trim_start_matches_length.
Qed.

Lemma split_char_length sep (current t : text) :
  1 ≤ length (split_char sep current t) ≤ S (length t).
Proof.
  revert current. induction t as [|c t IH]; intros current; simpl; [lia|].
  destruct (c =? sep)%N; [pose proof (IH [])|pose proof (IH (c :: current))]; simpl; lia.
Qed.

Lemma lines_from_length (current t : text) :
  Forall (λ l, length l ≤ length current + length t) (lines_from current t).
Proof.
  revert current. induction t as [|c t IH]; intros current; simpl.
  - destruct current as [|d current]; [done|]. constructor; [|done]. rewrite length_reverse. lia.
  - destruct (c =? 10)%N.
    + constructor.
      * unfold line_of. rewrite length_reverse. destruct current as [|d current]; simpl; [lia|].
        destruct (d =? 13)%N; simpl; lia.
      * eapply Forall_impl; [apply IH|]. intros l Hl. simpl in *. lia.
    + eapply Forall_impl; [apply IH|]. intros l Hl. simpl in *. lia.
Qed.

(** ** Lines *)

Section lines.
Context (P : N → Prop) (n : nat).

Definition image_ok (image : ImageData) : Prop := Forall P (alt image).
Definition cell_ok (cell : TableCellData) : Prop :=
  Forall P (cell_text cell) ∧ Forall image_ok (cell_images cell).
Definition row_ok (row : list TableCellData) : Prop :=
  1 ≤ length row ≤ S n ∧ Forall cell_ok row.

(** The texts are of good characters, and the tables have rows of good sizes. *)
Definition line_ok (l : DocumentLine) : Prop :=
  Forall P (line_text l) ∧
  match kind l with
  | TableLine table => table_rows table ≠ [] ∧ Forall row_ok (table_rows table)
  | ImageLine image => image_ok image
  | _ => True
  end.

Definition raw_ok (l : text) : Prop := Forall P l ∧ length l ≤ n.

Context (space : P 32%N) (feed : P 10%N) (stand_in : Forall P (lit "Image")).

Lemma text_line_ok k t :
  match k with TableLine _ | ImageLine _ => False | _ => True end → Forall P t → line_ok (line k t).
Proof. intros Hk Ht. split; [done|]. by destruct k. Qed.

Lemma raw_trim t : raw_ok t → raw_ok (trim t).
Proof. intros [H Hl]. split; [auto with text|]. pose proof (trim_length t). lia. Qed.

Lemma inline_images_ok fuel t : Forall P t → Forall image_ok (inline_images fuel t).
Proof.
  revert t. induction fuel as [|fuel IH]; intros t Ht; cbn [inline_images]; [done|].
  repeat (case_match; [|done]). apply Forall_app. split; [|apply IH; auto with text].
  case_bool_decide; repeat constructor. unfold image_ok. simpl. auto with text.
Qed.

Lemma parse_table_row_ok t : raw_ok t → row_ok (parse_table_row t).
Proof.
  intros [Ht Hl]. unfold parse_table_row, row_ok, table_cells. rewrite length_fmap.
  pose proof (split_char_length 124 [] (trim_matches (N.eqb 124) t)) as [H1 H2].
  pose proof (trim_matches_length (N.eqb 124) t). split; [lia|].
  apply Forall_fmap. eapply Forall_impl; [apply (all_split_char P); [done|auto with text]|].
  intros cell Hc. split; simpl; [auto with text|]. by apply inline_images_ok.
Qed.

Lemma parse_image_ok t image : parse_image t = Some image → Forall P t → image_ok image.
Proof.
  unfold parse_image, image_ok. intros H Ht.
  apply bind_Some in H as (start & E1 & H). apply bind_Some in H as (label_end & _ & H).
  case_bool_decide; [done|]. injection H as <-. apply all_take. by eapply all_strip_prefix.
Qed.

(** *** HTML *)

Lemma html_visible_text_ok t t' : html_visible_text t = Some t' → Forall P t → Forall P t'.
Proof.
  unfold html_visible_text. intros H Ht. case_bool_decide; simplify_eq.
  apply all_join; [by repeat constructor|]. apply all_words_from; [done|]. by apply all_visible.
Qed.

Lemma html_attribute_ok tag name value :
  html_attribute tag name = Some value → Forall P tag → Forall P value.
Proof.
  unfold html_attribute. intros H Ht.
  apply bind_Some in H as (start & _ & H). apply bind_Some in H as (quote & _ & H).
  destruct (_ || _).
  - apply bind_Some in H as ([v after] & E & H). injection H as <-.
    destruct (all_split_once_at P _ _ _ _ E); [auto with text|done].
  - injection H as <-. destruct (find_char _ _); simpl; auto with text.
Qed.

Lemma text_lines_ok t : Forall P t → Forall line_ok (text_lines t).
Proof.
  intros Ht. unfold text_lines. destruct (html_visible_text t) eqn:E; simpl; [|done].
  repeat constructor. by eapply html_visible_text_ok.
Qed.

Lemma image_lines_ok fuel t :
  Forall P t → Forall line_ok (image_lines fuel t).1 ∧ Forall P (image_lines fuel t).2.
Proof.
  revert t. induction fuel as [|fuel IH]; intros t Ht; cbn [image_lines]; [done|].
  destruct (find _ _) as [start|]; [|done]. destruct (find_char _ _) as [offset|].
  - set (tag := take (S offset) (drop start t)).
    assert (Forall P tag) as Htag by (unfold tag; auto with text).
    destruct (IH (drop (start + S offset) t)) as [H1 H2]; [auto with text|].
    destruct (image_lines fuel _) as [others rest]; simpl in *. split; [|done].
    rewrite !Forall_app. split_and!; [apply text_lines_ok; auto with text| |done].
    destruct (html_attribute tag (lit "src")); repeat constructor. unfold image_ok. simpl.
    destruct (html_attribute tag (lit "alt")) eqn:E; [|done]. by eapply html_attribute_ok.
  - split; [|done]. apply text_lines_ok. auto with text.
Qed.

Lemma parse_html_fragment_ok t : Forall P t → Forall line_ok (parse_html_fragment t).
Proof.
  intros Ht. unfold parse_html_fragment. pose proof (image_lines_ok (length t) t Ht) as [H1 H2].
  destruct (image_lines _ t) as [found rest]; simpl in *. case_bool_decide; [by repeat constructor|].
  apply Forall_app. split; [done|]. destruct (html_visible_text rest) eqn:E; [|done].
  repeat constructor; [by eapply html_visible_text_ok|]. simpl.
  unfold fragment_kind. by repeat case_match.
Qed.

(** *** The turns of the loop *)

Lemma span_ok (Q : text → Prop) keep ls :
  Forall Q ls → Forall Q (span keep ls).1 ∧ Forall Q (span keep ls).2.
Proof.
  induction 1 as [|l ls Hl Hls IH]; simpl; [done|]. destruct (keep l); [|by repeat constructor].
  destruct (span keep ls) as [kept others]. destruct IH. by split; [constructor|].
Qed.

Lemma paragraph_line_ok start : Forall P start → line_ok (paragraph_line start).
Proof.
  intros Hs. unfold paragraph_line.
  assert (∀ p t, strip_prefix p start = Some t → Forall P (clean_inline t)) as Hp.
  { intros p t E. apply all_clean_inline. by eapply all_strip_prefix. }
  case_match; [apply text_line_ok; auto with text|].
  destruct (strip_prefix (lit "> ") start) eqn:E1; [apply text_line_ok; by eauto|].
  destruct (union _ _) eqn:E2.
  - apply text_line_ok; [done|].
    apply union_Some in E2 as [E|[_ [E|[_ E]]%union_Some]]; by eauto.
  - destruct (ordered_list_item start) as [[number t]|] eqn:E3; apply text_line_ok; try done;
      [|auto with text].
    unfold ordered_list_item in E3. apply bind_Some in E3 as ([before after] & E & E3).
    case_match; [|done]. injection E3 as _ <-. apply all_clean_inline.
    by destruct (all_split_once P _ _ _ _ E).
Qed.

Lemma next_lines_ok code raw rest :
  raw_ok raw → Forall raw_ok rest →
  Forall line_ok (next_lines code raw rest).1.1 ∧ Forall raw_ok (next_lines code raw rest).2.
Proof.
  intros Hraw Hrest. unfold next_lines.
  assert (raw_ok (trim_end raw)) as Hend.
  { destruct Hraw. split; [auto with text|]. pose proof (trim_end_length raw). lia. }
  assert (raw_ok (trim_start (trim_end raw))) as Hstart.
  { destruct Hend. split; [auto with text|]. pose proof (trim_start_length (trim_end raw)). lia. }
  generalize dependent (trim_start (trim_end raw)). intros start Hstart.
  destruct (is_fence start); [done|]. destruct code.
  { split; [|done]. repeat constructor. apply Hend. }
  case_bool_decide; [by repeat constructor|]. case_match.
  { destruct (span_ok raw_ok non_blank_line (raw :: rest)) as [H1 H2]; [by constructor|].
    destruct (span _ _) as [fragment others]; simpl in *. split; [|done].
    apply parse_html_fragment_ok, all_join; [by repeat constructor|].
    eapply Forall_impl; [exact H1|]. by intros ? []. }
  case_match.
  { destruct (span_ok raw_ok (λ l, is_table_row (trim l)) (tail rest)) as [Hkept Hothers].
    { by destruct Hrest. }
    destruct (span _ _) as [rows others]; simpl in *. split; [|done].
    assert (Forall row_ok (parse_table_row start :: ((λ l, parse_table_row (trim l)) <$> rows))).
    { constructor; [by apply parse_table_row_ok|]. apply Forall_fmap.
      eapply Forall_impl; [exact Hkept|]. intros l Hl. by apply parse_table_row_ok, raw_trim. }
    constructor; [|done]. by split. }
  destruct (parse_image start) eqn:E; (split; [constructor; [|done]|done]).
  - split; [done|]. eapply parse_image_ok; [done|]. apply Hstart.
  - apply paragraph_line_ok, Hstart.
Qed.

Lemma lines_loop_ok fuel code ls : Forall raw_ok ls → Forall line_ok (lines_loop fuel code ls).
Proof.
  revert code ls. induction fuel as [|fuel IH]; intros code ls Hls; [done|].
  destruct Hls as [|raw rest Hraw Hrest]; [done|]. cbn [lines_loop].
  destruct (next_lines_ok code raw rest Hraw Hrest) as [H1 H2].
  destruct (next_lines code raw rest) as [[found code'] rest']. simpl in *.
  apply Forall_app. auto.
Qed.
End lines.

(** The lines of a note of good characters are of good characters, and its tables of
    sizes that its length bounds. *)
Lemma document_lines_ok (P : N → Prop) (source : text) :
  P 32%N → P 10%N → Forall P (lit "Image") → Forall P source →
  Forall (line_ok P (length source)) (document_lines source).
Proof.
  intros Hs Hf Hi Hsource. unfold document_lines. apply lines_loop_ok; [done..|].
  pose proof (lines_from_length [] source) as Hl.
  assert (Forall (Forall P) (lines source)) as Hp by by apply all_lines_from.
  unfold lines in *. rewrite Forall_forall in *. intros l Hin. split; [by apply Hp|by apply (Hl l)].
Qed.

(** ** The loops *)

Lemma span_length keep ls : length (span keep ls).2 ≤ length ls.
Proof.
  induction ls as [|l ls IH]; simpl; [done|]. destruct (keep l); [|done].
  destruct (span keep ls) as [kept others]. simpl in *. lia.
Qed.

Lemma trim_start_nil t : trim_start t = [] ↔ Forall (λ c, is_whitespace c = true) t.
Proof.
  induction t as [|c t IH]; simpl; [done|]. rewrite Forall_cons.
  destruct (is_whitespace c); [rewrite IH|]; naive_solver.
Qed.

Lemma trim_end_nil t : trim_end t = [] ↔ Forall (λ c, is_whitespace c = true) t.
Proof.
  unfold trim_end. rewrite <-(Forall_reverse _ t), <-trim_start_nil.
  split; [|by intros ->]. intros H. by rewrite <-(reverse_involutive (trim_start _)), H.
Qed.

Lemma non_blank_starts raw : trim_start (trim_end raw) ≠ [] → non_blank_line raw = true.
Proof.
  intros H. unfold non_blank_line. rewrite negb_true_iff, bool_decide_eq_false. intros Ht. apply H.
  unfold trim in Ht. rewrite trim_end_nil in Ht.
  assert (trim_start raw = []) as Hr.
  { destruct (trim_start raw) as [|c rest] eqn:E; [done|]. apply trim_start_nonblank in E.
    apply Forall_cons in Ht as [Ht _]. congruence. }
  apply trim_start_nil, trim_end_nil in Hr. by rewrite Hr.
Qed.

(** Every turn takes a line. *)
Lemma next_lines_length code raw rest : length (next_lines code raw rest).2 ≤ length rest.
Proof.
  unfold next_lines. destruct (is_fence _); [done|]. destruct code; [done|].
  case_bool_decide; [done|]. destruct (starts_with _ _).
  - cbn [span]. rewrite non_blank_starts by done. pose proof (span_length non_blank_line rest).
    destruct (span non_blank_line rest). simpl in *. lia.
  - destruct (_ && _).
    + pose proof (span_length (λ l, is_table_row (trim l)) (tail rest)) as Hl.
      destruct (span _ _) as [rows others]. destruct rest; simpl in *; lia.
    + by destruct (parse_image _).
Qed.

(** More turns than lines change nothing. *)
Lemma lines_loop_enough fuel fuel' code ls :
  length ls ≤ fuel → length ls ≤ fuel' → lines_loop fuel code ls = lines_loop fuel' code ls.
Proof.
  revert fuel' code ls. induction fuel as [|fuel IH]; intros [|fuel'] code [|raw rest] H H';
    simpl in H, H'; try done; try lia. cbn [lines_loop].
  pose proof (next_lines_length code raw rest) as Hl.
  destruct (next_lines code raw rest) as [[found code'] rest']. simpl in Hl.
  f_equal. apply IH; lia.
Qed.

(** Each turn of [clean_inline] shortens the text. *)
Lemma unlink_shorter opening (t t' : text) : unlink opening t = Some t' → S (length t') ≤ length t.
Proof.
  unfold unlink. intros H. apply bind_Some in H as (open & E1 & H).
  apply bind_Some in H as (label_end & E2 & H). apply bind_Some in H as (target_end & E3 & H).
  injection H as <-. apply fmap_Some in E1 as ([b a] & E1 & ->). apply split_once_spec in E1.
  apply fmap_Some in E2 as (i & E2 & ->). apply fmap_Some in E2 as ([b2 a2] & E2 & ->).
  apply split_once_spec in E2. apply fmap_Some in E3 as (j & E3 & ->).
  apply (f_equal length) in E1, E2. rewrite length_drop in E2. simpl in *.
  rewrite !length_app, !length_take, !length_drop in *. simpl in *. lia.
Qed.

Lemma unlink_all_ends fuel opening (t : text) :
  length t ≤ fuel → unlink opening (unlink_all fuel opening t) = None.
Proof.
  revert t. induction fuel as [|fuel IH]; intros t Hl; simpl;
    destruct (unlink opening t) as [t'|] eqn:E; try done; apply unlink_shorter in E; [lia|].
  apply IH. lia.
Qed.

(** The loops of [clean_inline] end because there is nothing more to replace. *)
Lemma clean_inline_ends (t : text) : unlink (lit "[") (clean_inline t) = None.
Proof. unfold clean_inline. by apply unlink_all_ends. Qed.
