(* ===== verification/NotesDocx.v ===== *)
(** * Exporting notes: Word documents

    [render_docx] of notes-document-export-core (src/extensions/wasm): the parts of the
    package, written one after the other.  The zip writer and the image decoder are the
    class [DocxLib]. *)

From S2P Require Import Prelude VncClipboard Text TextSearch Floats NotesText.

(** ** Input *)

Record ExportAsset := { asset_path : text; media_type : text; asset_bytes : bytes }.

Record ExportTheme := {
  dark : bool; background : N; foreground : N; border : N; muted : N; accent : N
}.

Record ExportInput := {
  title : text; source : text; assets : list ExportAsset; theme : ExportTheme
}.

(** The first asset with the path, with its position. *)
Fixpoint find_asset (index : nat) (path : text) (assets : list ExportAsset)
    : option (nat * ExportAsset) :=
  match assets with
  | [] => None
  | asset :: rest =>
      if bool_decide (asset_path asset = path) then Some (index, asset)
      else find_asset (S index) path rest
  end.

(** ** XML *)

Definition escape_xml (value : text) : text :=
  replace (lit "'") (lit "&apos;") (replace [34%N] (lit "&quot;") (replace (lit ">") (lit "&gt;")
    (replace (lit "<") (lit "&lt;") (replace (lit "&") (lit "&amp;") value)))).

Definition show_nat (n : nat) : text := show_N (N.of_nat n).

(** ** The parts without content of the note *)

Definition content_types : text :=
  qlit "<?xml version=`1.0` encoding=`UTF-8` standalone=`yes`?>" ++
  qlit "<Types xmlns=`http://schemas.openxmlformats.org/package/2006/content-types`>" ++
  qlit "<Default Extension=`rels`" ++
  qlit " ContentType=`application/vnd.openxmlformats-package.relationships+xml`/>" ++
  qlit "<Default Extension=`xml` ContentType=`application/xml`/>" ++
  qlit "<Default Extension=`png` ContentType=`image/png`/>" ++
  qlit "<Default Extension=`jpeg` ContentType=`image/jpeg`/>" ++
  qlit "<Default Extension=`jpg` ContentType=`image/jpeg`/>" ++
  qlit "<Default Extension=`gif` ContentType=`image/gif`/>" ++
  qlit "<Default Extension=`svg` ContentType=`image/svg+xml`/>" ++
  qlit "<Override PartName=`/word/document.xml`" ++
  qlit " ContentType=`application/vnd.openxmlformats-officedocument.wordprocessingml.documen" ++
  qlit "t.main+xml`/>" ++
  qlit "<Override PartName=`/word/styles.xml`" ++
  qlit " ContentType=`application/vnd.openxmlformats-officedocument.wordprocessingml.styles+" ++
  qlit "xml`/>" ++
  qlit "<Override PartName=`/word/numbering.xml`" ++
  qlit " ContentType=`application/vnd.openxmlformats-officedocument.wordprocessingml.numberi" ++
  qlit "ng+xml`/>" ++
  qlit "<Override PartName=`/docProps/core.xml`" ++
  qlit " ContentType=`application/vnd.openxmlformats-package.core-properties+xml`/></Types>".

Definition package_relationships : text :=
  qlit "<?xml version=`1.0` encoding=`UTF-8` standalone=`yes`?>" ++
  qlit "<Relationships xmlns=`http://schemas.openxmlformats.org/package/2006/relationships`>" ++
  qlit "<Relationship Id=`rId1`" ++
  qlit " Type=`http://schemas.openxmlformats.org/officeDocument/2006/relationships/officeDoc" ++
  qlit "ument` Target=`word/document.xml`/>" ++
  qlit "<Relationship Id=`rId2`" ++
  qlit " Type=`http://schemas.openxmlformats.org/package/2006/relationships/metadata/core-pr" ++
  qlit "operties` Target=`docProps/core.xml`/></Relationships>".

Definition styles_xml : text :=
  qlit "<?xml version=`1.0` encoding=`UTF-8` standalone=`yes`?>" ++
  qlit "<w:styles xmlns:w=`http://schemas.openxmlformats.org/wordprocessingml/2006/main`>" ++
  qlit "<w:docDefaults><w:rPrDefault><w:rPr>" ++
  qlit "<w:rFonts w:ascii=`Calibri` w:hAnsi=`Calibri` w:eastAsia=`Microsoft YaHei`/>" ++
  qlit "<w:sz w:val=`22`/><w:szCs w:val=`22`/><w:color w:val=`000000`/></w:rPr>" ++
  qlit "</w:rPrDefault><w:pPrDefault><w:pPr>" ++
  qlit "<w:spacing w:after=`120` w:line=`300` w:lineRule=`auto`/></w:pPr></w:pPrDefault>" ++
  qlit "</w:docDefaults><w:style w:type=`paragraph` w:default=`1` w:styleId=`Normal`>" ++
  qlit "<w:name w:val=`Normal`/><w:qFormat/><w:pPr>" ++
  qlit "<w:spacing w:after=`120` w:line=`300` w:lineRule=`auto`/></w:pPr><w:rPr>" ++
  qlit "<w:rFonts w:ascii=`Calibri` w:hAnsi=`Calibri` w:eastAsia=`Microsoft YaHei`/>" ++
  qlit "<w:sz w:val=`22`/><w:szCs w:val=`22`/></w:rPr></w:style>" ++
  qlit "<w:style w:type=`paragraph` w:styleId=`Heading1`><w:name w:val=`heading 1`/>" ++
  qlit "<w:basedOn w:val=`Normal`/><w:next w:val=`Normal`/><w:qFormat/><w:pPr><w:keepNext/>" ++
  qlit "<w:spacing w:before=`360` w:after=`200`/></w:pPr><w:rPr><w:b/>" ++
  qlit "<w:color w:val=`2E74B5`/><w:sz w:val=`32`/><w:szCs w:val=`32`/></w:rPr></w:style>" ++
  qlit "<w:style w:type=`paragraph` w:styleId=`Heading2`><w:name w:val=`heading 2`/>" ++
  qlit "<w:basedOn w:val=`Normal`/><w:next w:val=`Normal`/><w:qFormat/><w:pPr><w:keepNext/>" ++
  qlit "<w:spacing w:before=`280` w:after=`140`/></w:pPr><w:rPr><w:b/>" ++
  qlit "<w:color w:val=`2E74B5`/><w:sz w:val=`26`/><w:szCs w:val=`26`/></w:rPr></w:style>" ++
  qlit "<w:style w:type=`paragraph` w:styleId=`Heading3`><w:name w:val=`heading 3`/>" ++
  qlit "<w:basedOn w:val=`Normal`/><w:next w:val=`Normal`/><w:qFormat/><w:pPr><w:keepNext/>" ++
  qlit "<w:spacing w:before=`200` w:after=`100`/></w:pPr><w:rPr><w:b/>" ++
  qlit "<w:color w:val=`1F4D78`/><w:sz w:val=`24`/><w:szCs w:val=`24`/></w:rPr></w:style>" ++
  qlit "<w:style w:type=`paragraph` w:styleId=`Quote`><w:name w:val=`Quote`/>" ++
  qlit "<w:basedOn w:val=`Normal`/><w:pPr><w:ind w:left=`360`/>" ++
  qlit "<w:spacing w:after=`120` w:line=`300` w:lineRule=`auto`/></w:pPr><w:rPr><w:i/>" ++
  qlit "<w:color w:val=`666666`/></w:rPr></w:style>" ++
  qlit "<w:style w:type=`paragraph` w:styleId=`Code`><w:name w:val=`Code`/>" ++
  qlit "<w:basedOn w:val=`Normal`/><w:pPr><w:ind w:left=`240`/>" ++
  qlit "<w:spacing w:after=`80` w:line=`280` w:lineRule=`auto`/></w:pPr><w:rPr>" ++
  qlit "<w:rFonts w:ascii=`Consolas` w:hAnsi=`Consolas` w:eastAsia=`Microsoft YaHei`/>" ++
  qlit "<w:sz w:val=`20`/><w:szCs w:val=`20`/></w:rPr></w:style></w:styles>".

Definition numbering_xml : text :=
  qlit "<?xml version=`1.0` encoding=`UTF-8` standalone=`yes`?>" ++
  qlit "<w:numbering xmlns:w=`http://schemas.openxmlformats.org/wordprocessingml/2006/main`>" ++
  qlit "<w:abstractNum w:abstractNumId=`1`><w:multiLevelType w:val=`singleLevel`/>" ++
  qlit "<w:lvl w:ilvl=`0`><w:start w:val=`1`/><w:numFmt w:val=`bullet`/><w:lvlText w:val=`" ++
  [8226%N] ++
  qlit "`/><w:lvlJc w:val=`left`/><w:pPr><w:tabs><w:tab w:val=`num` w:pos=`540`/></w:tabs>" ++
  qlit "<w:ind w:left=`540` w:hanging=`270`/>" ++
  qlit "<w:spacing w:after=`80` w:line=`300` w:lineRule=`auto`/></w:pPr><w:rPr>" ++
  qlit "<w:rFonts w:ascii=`Calibri` w:hAnsi=`Calibri` w:eastAsia=`Microsoft YaHei`/></w:rPr>" ++
  qlit "</w:lvl></w:abstractNum><w:abstractNum w:abstractNumId=`2`>" ++
  qlit "<w:multiLevelType w:val=`singleLevel`/><w:lvl w:ilvl=`0`><w:start w:val=`1`/>" ++
  qlit "<w:numFmt w:val=`decimal`/><w:lvlText w:val=`%1.`/><w:lvlJc w:val=`left`/><w:pPr>" ++
  qlit "<w:tabs><w:tab w:val=`num` w:pos=`540`/></w:tabs>" ++
  qlit "<w:ind w:left=`540` w:hanging=`270`/>" ++
  qlit "<w:spacing w:after=`80` w:line=`300` w:lineRule=`auto`/></w:pPr></w:lvl>" ++
  qlit "</w:abstractNum><w:num w:numId=`1`><w:abstractNumId w:val=`1`/></w:num>" ++
  qlit "<w:num w:numId=`2`><w:abstractNumId w:val=`2`/></w:num></w:numbering>".

Definition core_properties (title : text) : text :=
  qlit "<?xml version=`1.0` encoding=`UTF-8` standalone=`yes`?>" ++
  qlit "<cp:coreProperties" ++
  qlit " xmlns:cp=`http://schemas.openxmlformats.org/package/2006/metadata/core-properties`" ++
  qlit " xmlns:dc=`http://purl.org/dc/elements/1.1/`><dc:title>" ++
  escape_xml title ++
  qlit "</dc:title><dc:creator>Navop Notes Document Exporter</dc:creator>" ++
  qlit "</cp:coreProperties>".

(** ** Images *)

Definition asset_extension (asset : ExportAsset) : text :=
  if bool_decide (media_type asset = lit "image/png") then lit "png"
  else if bool_decide (media_type asset = lit "image/jpeg") then lit "jpeg"
  else if bool_decide (media_type asset = lit "image/gif") then lit "gif"
  else if bool_decide (media_type asset = lit "image/svg+xml") then lit "svg"
  else lit "bin".

(** The identifier and the target of the relationship of asset [index], from 0. *)
Definition image_relationship_id (index : nat) : text := lit "rId" ++ show_nat (index + 3).
Definition image_target_name (index : nat) (asset : ExportAsset) : text :=
  lit "media/image" ++ show_nat (index + 1) ++ lit "." ++ asset_extension asset.

Definition image_relationship (index : nat) (asset : ExportAsset) : text :=
  qlit "<Relationship Id=`" ++ image_relationship_id index ++
  qlit "` Type=`http://schemas.openxmlformats.org/officeDocument/2006/relationships/image`" ++
  qlit " Target=`" ++ image_target_name index asset ++ qlit "`/>".

Definition document_relationships (assets : list ExportAsset) : text :=
  qlit "<?xml version=`1.0` encoding=`UTF-8` standalone=`yes`?>" ++
  qlit "<Relationships xmlns=`http://schemas.openxmlformats.org/package/2006/relationships`>" ++
  qlit "<Relationship Id=`rId1`" ++
  qlit " Type=`http://schemas.openxmlformats.org/officeDocument/2006/relationships/styles`" ++
  qlit " Target=`styles.xml`/>" ++
  qlit "<Relationship Id=`rId2`" ++
  qlit " Type=`http://schemas.openxmlformats.org/officeDocument/2006/relationships/numbering" ++
  qlit "` Target=`numbering.xml`/>" ++
  mjoin (imap image_relationship assets) ++ lit "</Relationships>".

Class DocxLib := {
  (** [image::load_from_memory(bytes).ok().map(|image| image.dimensions())] *)
  image_dimensions : bytes → option (N * N);
  Zip : Type;
  new_zip : Zip;
  start_file : text → Zip → text + Zip;
  write_all : bytes → Zip → text + Zip;
  finish : Zip → text + bytes
}.

(** The identifier that [docx_image] of [index], from 1, refers to. *)
Definition embed_id (index : nat) : text := lit "rId" ++ show_nat (index + 3).

Section docx.
Context `{DocxLib}.

(** The width and height of a picture in EMU. *)
Definition image_extent (asset : ExportAsset) : N * N :=
  match image_dimensions (asset_bytes asset) with
  | Some (width, height) =>
      if (0 <? width)%N && (0 <? height)%N then
        let max_width := of_N f64 5486400 in
        let max_height := of_N f64 6400800 in
        let scale := min (min (div f64 max_width (of_N f64 width)) (div f64 max_height (of_N f64 height)))
                       (of_N f64 9525) in
        (round_to_N u64_max (mul f64 (of_N f64 width) scale),
         round_to_N u64_max (mul f64 (of_N f64 height) scale))
      else (5486400, 2743200)%N
  | None => (5486400, 2743200)%N
  end.

Definition docx_image (index : nat) (asset : ExportAsset) (alt : text) : text :=
  let '(cx, cy) := image_extent asset in
  qlit "<w:p><w:r><w:drawing><wp:inline><wp:extent cx=`" ++ show_N cx ++ qlit "` cy=`" ++ show_N cy ++
  qlit "`/><wp:docPr id=`" ++ show_nat index ++ qlit "` name=`" ++
  escape_xml (lit "image-" ++ show_nat index ++ lit "." ++ asset_extension asset) ++
  qlit "` descr=`" ++ escape_xml alt ++ qlit "`/><a:graphic>" ++
  qlit "<a:graphicData uri=`http://schemas.openxmlformats.org/drawingml/2006/picture`>" ++
  qlit "<pic:pic><pic:blipFill>" ++ (qlit "<a:blip r:embed=`" ++ embed_id index ++ qlit "`/>") ++
  qlit "<a:stretch><a:fillRect/></a:stretch></pic:blipFill><pic:spPr><a:xfrm>" ++
  qlit "<a:off x=`0` y=`0`/><a:ext cx=`" ++ show_N cx ++ qlit "` cy=`" ++ show_N cy ++
  qlit "`/></a:xfrm><a:prstGeom prst=`rect`><a:avLst/></a:prstGeom></pic:spPr></pic:pic>" ++
  qlit "</a:graphicData></a:graphic></wp:inline></w:drawing></w:r></w:p>".

(** An image that is among the assets. *)
Definition known_image (assets : list ExportAsset) (image : ImageData) : option text :=
  (λ '(index, asset), docx_image (index + 1) asset (alt image)) <$>
  find_asset 0 (image_path image) assets.

(** ** Tables *)

Definition docx_cell (assets : list ExportAsset) (width : N) (row_index : nat)
    (cell : option TableCellData) : text :=
  qlit "<w:tc><w:tcPr><w:tcW w:w=`" ++ show_N width ++ qlit "` w:type=`dxa`/><w:tcMar>" ++
  qlit "<w:top w:w=`100` w:type=`dxa`/><w:start w:w=`120` w:type=`dxa`/>" ++
  qlit "<w:bottom w:w=`100` w:type=`dxa`/><w:end w:w=`120` w:type=`dxa`/></w:tcMar></w:tcPr>" ++
  qlit "<w:p><w:r>" ++ (if row_index =? 0 then lit "<w:rPr><w:b/></w:rPr>" else []) ++
  qlit "<w:t xml:space=`preserve`>" ++ escape_xml (from_option cell_text [] cell) ++
  qlit "</w:t></w:r></w:p>" ++
  mjoin (omap (known_image assets) (from_option cell_images [] cell)) ++ lit "</w:tc>".

Definition docx_row (assets : list ExportAsset) (width : N) (columns row_index : nat)
    (row : list TableCellData) : text :=
  lit "<w:tr>" ++
  mjoin ((λ column, docx_cell assets width row_index (row !! column)) <$> seq 0 columns) ++
  lit "</w:tr>".

(** [table.rows.iter().map(Vec::len).max()] *)
Definition column_count (table : TableData) : option nat :=
  match table_rows table with
  | [] => None
  | rows => Some (foldr Nat.max 0 (length <$> rows))
  end.

(** A division by zero panics. *)
Definition docx_table {E} (table : TableData) (assets : list ExportAsset) : outcome E text :=
  let columns := default 1 (column_count table) in
  let divisor := (N.of_nat columns `mod` (u32_max + 1))%N in
  if (divisor =? 0)%N then Panic
  else
    let width := (9000 / divisor)%N in
    Ok (qlit "<w:tbl><w:tblPr><w:tblW w:w=`9000` w:type=`dxa`/><w:tblLayout w:type=`fixed`/>" ++
        qlit "</w:tblPr><w:tblGrid>" ++
        mjoin (replicate columns (qlit "<w:gridCol w:w=`" ++ show_N width ++ qlit "`/>")) ++
        lit "</w:tblGrid>" ++
        mjoin (imap (docx_row assets width columns) (table_rows table)) ++ lit "</w:tbl>").

(** ** The document *)

(** A paragraph with its style or its list. *)
Definition docx_paragraph (style : option text) (numbering : option nat) (t : text) : text :=
  lit "<w:p>" ++
  match style, numbering with
  | None, None => []
  | _, _ =>
      lit "<w:pPr>" ++
      from_option (λ s, qlit "<w:pStyle w:val=`" ++ s ++ qlit "`/>") [] style ++
      from_option (λ n, qlit "<w:numPr><w:ilvl w:val=`0`/><w:numId w:val=`" ++ show_nat n ++
                        qlit "`/></w:numPr>") [] numbering ++
      lit "</w:pPr>"
  end ++
  qlit "<w:r><w:t xml:space=`preserve`>" ++ escape_xml t ++ lit "</w:t></w:r></w:p>".

Definition docx_line {E} (assets : list ExportAsset) (l : DocumentLine) : outcome E text :=
  match kind l with
  | Blank => Ok (lit "<w:p/>")
  | TableLine table => docx_table table assets
  | ImageLine image =>
      Ok (default (lit "<w:p><w:r><w:t>" ++ escape_xml (alt image) ++ lit "</w:t></w:r></w:p>")
            (known_image assets image))
  | Heading level =>
      Ok (docx_paragraph (Some (lit "Heading" ++ show_nat (level `min` 3))) None (line_text l))
  | Code => Ok (docx_paragraph (Some (lit "Code")) None (line_text l))
  | Quote => Ok (docx_paragraph (Some (lit "Quote")) None (line_text l))
  | Bullet => Ok (docx_paragraph None (Some 1) (line_text l))
  | Ordered => Ok (docx_paragraph None (Some 2) (line_text l))
  | Body => Ok (docx_paragraph None None (line_text l))
  end.

Definition document_xml {E} (source : text) (assets : list ExportAsset) : outcome E text :=
  body ← mapM (docx_line assets) (document_lines source);
  Ok (qlit "<?xml version=`1.0` encoding=`UTF-8` standalone=`yes`?>" ++
      qlit "<w:document xmlns:w=`http://schemas.openxmlformats.org/wordprocessingml/2006/main`" ++
      qlit " xmlns:r=`http://schemas.openxmlformats.org/officeDocument/2006/relationships`" ++
      qlit " xmlns:wp=`http://schemas.openxmlformats.org/drawingml/2006/wordprocessingDrawing`" ++
      qlit " xmlns:a=`http://schemas.openxmlformats.org/drawingml/2006/main`" ++
      qlit " xmlns:pic=`http://schemas.openxmlformats.org/drawingml/2006/picture`><w:body>" ++
      mjoin body ++
      qlit "<w:sectPr><w:pgSz w:w=`12240` w:h=`15840`/>" ++
      qlit "<w:pgMar w:top=`1440` w:right=`1440` w:bottom=`1440` w:left=`1440` w:header=`708`" ++
      qlit " w:footer=`708`/></w:sectPr></w:body></w:document>").

(** ** The package *)

Definition lift_zip {A} (r : text + A) : outcome text A :=
  match r with inl e => Err e | inr a => Ok a end.

Definition write_zip_bytes (name : text) (contents : bytes) (zip : Zip) : outcome text Zip :=
  zip ← lift_zip (start_file name zip);
  lift_zip (write_all contents zip).

Definition write_zip_file (name : text) (contents : text) (zip : Zip) : outcome text Zip :=
  write_zip_bytes name (utf8_encode contents) zip.

Fixpoint write_assets (index : nat) (assets : list ExportAsset) (zip : Zip) : outcome text Zip :=
  match assets with
  | [] => Ok zip
  | asset :: rest =>
      zip ← write_zip_bytes (lit "word/" ++ image_target_name index asset) (asset_bytes asset) zip;
      write_assets (S index) rest zip
  end.

Definition render_docx (input : ExportInput) : outcome text bytes :=
  zip ← write_zip_file (lit "[Content_Types].xml") content_types new_zip;
  zip ← write_zip_file (lit "_rels/.rels") package_relationships zip;
  zip ← write_zip_file (lit "docProps/core.xml") (core_properties (title input)) zip;
  zip ← write_zip_file (lit "word/styles.xml") styles_xml zip;
  zip ← write_zip_file (lit "word/numbering.xml") numbering_xml zip;
  zip ← write_zip_file (lit "word/_rels/document.xml.rels") (document_relationships (assets input)) zip;
  document ← document_xml (source input) (assets input);
  zip ← write_zip_file (lit "word/document.xml") document zip;
  zip ← write_assets 0 (assets input) zip;
  lift_zip (finish zip).
End docx.
