(* ===== verification/NotesPdf.v ===== *)
(** * Exporting notes: PDF documents

    [render_pdf] of notes-document-export-core (src/extensions/wasm): the lines are laid out
    on pages of 595 by 842 points, from the top down, and the objects of the file are written
    with their table of offsets.  Lengths are [f32]; decoding and scaling images are the class
    [PdfLib]. *)

From S2P Require Import Prelude VncClipboard Text TextSearch Floats NotesText NotesDocx.

Definition newline : text := [10%N].

(** A length that is a whole number of points. *)
Definition pt (n : N) : float := of_N f32 n.

(** ** Text *)

Definition hex_digit (n : N) : N := if (n <? 10)%N then (48 + n)%N else (55 + n)%N.

Definition hex_encode (b : bytes) : text := b ≫= λ byte, [hex_digit (byte / 16); hex_digit (byte `mod` 16)]%N.

(** [format!("{unit:04X}")] *)
Definition hex4 (unit : N) : text :=
  [hex_digit (unit / 4096); hex_digit ((unit / 256) `mod` 16); hex_digit ((unit / 16) `mod` 16);
   hex_digit (unit `mod` 16)]%N.

Definition utf16be_hex (t : text) : text := t ≫= λ c, utf16_units c ≫= hex4.

(** [char::is_control] *)
Definition is_control (c : N) : bool := ((c <? 32) || ((127 <=? c) && (c <? 160)))%N.
Definition is_ascii (c : N) : bool := (c <? 128)%N.

Definition pdf_literal_char (c : N) : text :=
  if (c =? 40)%N then lit "\(" else if (c =? 41)%N then lit "\)"
  else if (c =? 92)%N then lit "\\" else if (c =? 9)%N then lit "    " else [c].

Definition pdf_literal (t : text) : text :=
  filter (λ c, is_control c = false ∨ c = 9%N) t ≫= pdf_literal_char.

(** The width of a character. *)
Definition char_width (size : float) (c : N) : float :=
  if is_ascii c then mul f32 size (ratio f32 55 100) else size.

(** The closure [flush] of [pdf_text_commands]: the commands of a run, and where it ends. *)
Definition flush_run (size y : float) (run : text) (ascii : bool) (cursor_x : float)
    : text * float :=
  if bool_decide (run = []) then ([], cursor_x)
  else
    let start := lit "BT /F" ++ lit (if ascii then "2 " else "1 ") ++ show1 size ++
                 lit " Tf 0.12 0.12 0.12 rg 1 0 0 1 " ++ show1 cursor_x ++ lit " " ++ show1 y ++
                 lit " Tm " in
    (start ++ (if ascii then lit "(" ++ pdf_literal run ++ lit ")"
               else lit "<" ++ utf16be_hex run ++ lit ">") ++ lit " Tj ET" ++ newline,
     add f32 cursor_x (foldl (λ w c, add f32 w (char_width size c)) (pt 0) run)).

(** The loop of [pdf_text_commands], with the run so far in reverse. *)
Fixpoint text_runs (size y : float) (ascii : option bool) (run : text) (cursor_x : float) (t : text)
    : text :=
  match t with
  | [] =>
      match ascii with
      | Some a => (flush_run size y (reverse run) a cursor_x).1
      | None => []
      end
  | c :: rest =>
      match ascii with
      | Some a =>
          if eqb a (is_ascii c) then text_runs size y (Some (is_ascii c)) (c :: run) cursor_x rest
          else
            let '(out, cursor_x) := flush_run size y (reverse run) a cursor_x in
            out ++ text_runs size y (Some (is_ascii c)) [c] cursor_x rest
      | None => text_runs size y (Some (is_ascii c)) (c :: run) cursor_x rest
      end
  end.

Definition pdf_text_commands (t : text) (size x y : float) : text := text_runs size y None [] x t.

(** The loop of [wrap_text]: the line so far in reverse, and its width. *)
Fixpoint wrap_from (size max_width : float) (current : text) (width : float) (t : text) : list text :=
  match t with
  | [] => match current with [] => [] | _ => [reverse current] end
  | c :: rest =>
      let character_width := char_width size c in
      if lt max_width (add f32 width character_width) && negb (bool_decide (current = []))
      then reverse current ::
             wrap_from size max_width [c] (add f32 (pt 0) character_width) rest
      else wrap_from size max_width (c :: current) (add f32 width character_width) rest
  end.

Definition wrap_text (t : text) (size max_width : float) : list text :=
  match t with [] => [[]] | _ => wrap_from size max_width [] (pt 0) t end.

(** ** Images *)

Class PdfLib := {
  Image : Type;
  load_from_memory : bytes → option Image;
  image_width : Image → N;
  image_height : Image → N;
  thumbnail : Image → N → N → Image;
  to_rgb8 : Image → N * N * bytes;
  Svg : Type;
  svg_from_data : bytes → option Svg;
  svg_width : Svg → float;
  svg_height : Svg → float;
  (** the pixels, four bytes each, of a picture of a size, if it can be made *)
  svg_render : Svg → float → N → N → option bytes
}.

Record PdfImage := { pi_width : N; pi_height : N; rgb : bytes }.

(** A pixel over a white background. *)
Fixpoint rgb_pixels (data : bytes) : bytes :=
  match data with
  | r :: g :: b :: alpha :: rest =>
      [N.min (r + 255 - alpha) 255; N.min (g + 255 - alpha) 255; N.min (b + 255 - alpha) 255]%N ++
      rgb_pixels rest
  | _ => []
  end.

Section pdf.
Context `{PdfLib}.

Definition decode_pdf_image (asset : ExportAsset) : option PdfImage :=
  if negb (bool_decide (media_type asset = lit "image/svg+xml")) then
    image ← load_from_memory (asset_bytes asset);
    let image := if (400 <? image_width image)%N || (300 <? image_height image)%N
                 then thumbnail image 400 300 else image in
    let '(width, height, raw) := to_rgb8 image in
    Some {| pi_width := width; pi_height := height; rgb := raw |}
  else
    tree ← svg_from_data (asset_bytes asset);
    let scale := min (min (div f32 (pt 400) (svg_width tree)) (div f32 (pt 300) (svg_height tree)))
                   (pt 1) in
    let width := N.max 1 (round_to_N u32_max (mul f32 (svg_width tree) scale)) in
    let height := N.max 1 (round_to_N u32_max (mul f32 (svg_height tree) scale)) in
    data ← svg_render tree scale width height;
    Some {| pi_width := width; pi_height := height; rgb := rgb_pixels data |}.

Definition pdf_inline_image (asset : ExportAsset) (max_width max_height : float)
    : option (text * float * float) :=
  image ← decode_pdf_image asset;
  let width := pi_width image in
  let height := pi_height image in
  if (width =? 0)%N || (height =? 0)%N then None
  else
    let scale := min (min (div f32 max_width (of_N f32 width)) (div f32 max_height (of_N f32 height)))
                   (pt 1) in
    let display_height := mul f32 (of_N f32 height) scale in
    let display_width := mul f32 (of_N f32 width) scale in
    Some (lit "BI /W " ++ show_N width ++ lit " /H " ++ show_N height ++
          lit " /CS /RGB /BPC 8 /F /ASCIIHexDecode ID" ++ newline ++ hex_encode (rgb image) ++
          lit ">" ++ newline ++ lit "EI", display_width, display_height).

(** ** Pages *)

(** The pages that are full, the commands of the last page, and how far down it is filled. *)
Record Layout := { full : list text; page : text; y : float }.

Definition empty_page : text := lit "q 1 1 1 rg 0 0 595 842 re f Q" ++ newline.
Definition top : float := pt 788.
Definition bottom_margin : float := pt 58.

Definition start_layout : Layout := {| full := []; page := empty_page; y := top |}.
Definition new_page (l : Layout) : Layout :=
  {| full := full l ++ [page l]; page := empty_page; y := top |}.
Definition put (t : text) (l : Layout) : Layout := {| full := full l; page := page l ++ t; y := y l |}.
Definition down (d : float) (l : Layout) : Layout :=
  {| full := full l; page := page l; y := sub f32 (y l) d |}.
Definition at_height (h : float) (l : Layout) : Layout := {| full := full l; page := page l; y := h |}.

(** The command that draws an image of a size at a place. *)
Definition place_image (command : text) (width height x y : float) : text :=
  lit "q " ++ show1 width ++ lit " 0 0 " ++ show1 height ++ lit " " ++ show1 x ++ lit " " ++
  show1 y ++ lit " cm" ++ newline ++ command ++ newline ++ lit "Q" ++ newline.

Definition find_image (image : ImageData) (assets : list ExportAsset) (max_width max_height : float)
    : option (text * float * float) :=
  '(_, asset) ← find_asset 0 (image_path image) assets;
  pdf_inline_image asset max_width max_height.

(** *** Tables *)

Definition row_height (row : list TableCellData) : float :=
  if existsb (λ cell, negb (bool_decide (cell_images cell = []))) row then pt 82 else pt 25.

(** The border of a cell, its text, and its first image. *)
Definition pdf_cell (assets : list ExportAsset) (cell_width height bottom : float)
    (row_index column : nat) (cell : option TableCellData) : text :=
  let x := add f32 (pt 54) (mul f32 (of_N f32 (N.of_nat column)) cell_width) in
  lit "q 0.65 0.68 0.72 RG 0.6 w " ++ show1 x ++ lit " " ++ show1 bottom ++ lit " " ++
  show1 cell_width ++ lit " " ++ show1 height ++ lit " re S Q" ++ newline ++
  match cell with
  | None => []
  | Some cell =>
      let max_chars := N.to_nat (truncate_to_N u64_max
                         (max (div f32 (sub f32 cell_width (pt 8)) (pt 6)) (pt 1))) in
      pdf_text_commands (take max_chars (cell_text cell))
        (if row_index =? 0 then ratio f32 105 10 else pt 10) (add f32 x (pt 4))
        (add f32 bottom (pt 8)) ++
      match image ← head (cell_images cell);
            find_image image assets (sub f32 cell_width (pt 8)) (sub f32 height (pt 28)) with
      | Some (command, width, height) =>
          place_image command width height (add f32 x (pt 4)) (add f32 bottom (pt 24))
      | None => []
      end
  end.

Definition pdf_row (assets : list ExportAsset) (cell_width : float) (columns row_index : nat)
    (row : list TableCellData) (l : Layout) : Layout :=
  let height := row_height row in
  let l := if lt (sub f32 (y l) height) bottom_margin then new_page l else l in
  let bottom := sub f32 (y l) height in
  let l := if row_index =? 0
           then put (lit "q 0.94 0.96 0.98 rg 54 " ++ show1 bottom ++ lit " 487 " ++ show1 height ++
                     lit " re f Q" ++ newline) l
           else l in
  at_height bottom
    (put (mjoin ((λ column, pdf_cell assets cell_width height bottom row_index column (row !! column))
                 <$> seq 0 columns)) l).

Fixpoint pdf_rows (assets : list ExportAsset) (cell_width : float) (columns row_index : nat)
    (rows : list (list TableCellData)) (l : Layout) : Layout :=
  match rows with
  | [] => l
  | row :: rest =>
      pdf_rows assets cell_width columns (S row_index) rest
        (pdf_row assets cell_width columns row_index row l)
  end.

Definition render_pdf_table (table : TableData) (assets : list ExportAsset) (l : Layout) : Layout :=
  let columns := default 0 (column_count table) in
  if columns =? 0 then l
  else
    let cell_width := div f32 (pt 487) (of_N f32 (N.of_nat columns)) in
    down (pt 12) (pdf_rows assets cell_width columns 0 (table_rows table) l).

(** *** Lines *)

Definition pdf_image_line (image : ImageData) (assets : list ExportAsset) (l : Layout) : Layout :=
  match find_image image assets (pt 487) (pt 300) with
  | Some (command, width, height) =>
      let l := if lt (sub f32 (y l) height) bottom_margin then new_page l else l in
      down (add f32 height (pt 12))
        (put (place_image command width height (pt 54) (sub f32 (y l) height)) l)
  | None =>
      let fallback := if bool_decide (alt image = []) then lit "Image" else alt image in
      down (pt 17) (put (pdf_text_commands fallback (pt 11) (pt 54) (y l)) l)
  end.

(** Size, indent and leading of a line of text. *)
Definition text_style (k : LineKind) : N * N * N :=
  match k with
  | Heading 1 => (24, 0, 34)
  | Heading 2 => (20, 0, 29)
  | Heading _ => (16, 0, 24)
  | Bullet | Ordered | Quote => (11, 18, 17)
  | Code => (10, 12, 15)
  | _ => (11, 0, 17)
  end%N.

Definition display_text (l : DocumentLine) : text :=
  match kind l with
  | Bullet => lit "- " ++ line_text l
  | Ordered => lit "1. " ++ line_text l
  | _ => line_text l
  end.

Definition is_heading (k : LineKind) : bool := match k with Heading _ => true | _ => false end.

(** One wrapped line. *)
Definition pdf_wrapped (size indent leading : float) (l : Layout) (wrapped : text) : Layout :=
  let l := if lt (y l) bottom_margin then new_page l else l in
  down leading (put (pdf_text_commands wrapped size (add f32 (pt 54) indent) (y l)) l).

Definition pdf_line (assets : list ExportAsset) (l : Layout) (dl : DocumentLine) : Layout :=
  match kind dl with
  | TableLine table => render_pdf_table table assets l
  | ImageLine image => pdf_image_line image assets l
  | Blank => down (pt 8) l
  | k =>
      let '(size, indent, leading) := text_style k in
      let l := foldl (pdf_wrapped (pt size) (pt indent) (pt leading)) l
                 (wrap_text (display_text dl) (pt size) (sub f32 (pt 487) (pt indent))) in
      if is_heading k then down (pt 4) l else l
  end.

Definition layout_pdf_pages (lines : list DocumentLine) (assets : list ExportAsset) : list text :=
  let l := foldl (pdf_line assets) start_layout lines in
  full l ++ [page l].
End pdf.

(** ** The file *)

Definition stream_object (b : bytes) : bytes :=
  lit "<< /Length " ++ show_nat (length b) ++ lit " >>" ++ newline ++ lit "stream" ++ newline ++ b ++
  lit "endstream".

(** [format!("{n:010}")] *)
Definition pad10 (n : nat) : text := replicate (10 - length (show_nat n)) 48%N ++ show_nat n.

(** The objects from number [index + 1] on, as they are written. *)
Definition written_object (index : nat) (object : bytes) : bytes :=
  show_nat (index + 1) ++ lit " 0 obj" ++ newline ++ object ++ newline ++ lit "endobj" ++ newline.

(** The loop of [write_pdf]: the output, and the offsets of the objects. *)
Fixpoint write_objects (index : nat) (objects : list bytes) (output : bytes) : bytes * list nat :=
  match objects with
  | [] => (output, [])
  | object :: rest =>
      let '(result, offsets) := write_objects (S index) rest (output ++ written_object index object) in
      (result, length output :: offsets)
  end.

Definition pdf_header : bytes := lit "%PDF-1.7" ++ newline ++ [37; 226; 227; 207; 211]%N ++ newline.

Definition xref_entry (offset : nat) : bytes := pad10 offset ++ lit " 00000 n " ++ newline.

Definition write_pdf (objects : list bytes) : bytes :=
  let '(output, offsets) := write_objects 0 objects pdf_header in
  let xref := length output in
  output ++
  lit "xref" ++ newline ++ lit "0 " ++ show_nat (length objects + 1) ++ newline ++
  lit "0000000000 65535 f " ++ newline ++
  mjoin (xref_entry <$> offsets) ++
  lit "trailer" ++ newline ++ lit "<< /Size " ++ show_nat (length objects + 1) ++
  lit " /Root 1 0 R >>" ++ newline ++ lit "startxref" ++ newline ++ show_nat xref ++ newline ++
  lit "%%EOF" ++ newline.

Definition catalog_object : bytes := lit "<< /Type /Catalog /Pages 2 0 R >>".
Definition pages_object (count : nat) : bytes :=
  lit "<< /Type /Pages /Kids [" ++
  join (lit " ") ((λ index, show_nat (6 + index * 2) ++ lit " 0 R") <$> seq 0 count) ++
  lit "] /Count " ++ show_nat count ++ lit " >>".
Definition type0_font_object : bytes :=
  lit "<< /Type /Font /Subtype /Type0 /BaseFont /STSong-Light /Encoding /UniGB-UCS2-H " ++
  lit "/DescendantFonts [4 0 R] >>".
Definition cid_font_object : bytes :=
  lit "<< /Type /Font /Subtype /CIDFontType0 /BaseFont /STSong-Light /CIDSystemInfo " ++
  lit "<< /Registry (Adobe) /Ordering (GB1) /Supplement 5 >> >>".
Definition ascii_font_object : bytes := lit "<< /Type /Font /Subtype /Type1 /BaseFont /Helvetica >>".
Definition page_object (content_id : nat) : bytes :=
  lit "<< /Type /Page /Parent 2 0 R /MediaBox [0 0 595 842] /Resources " ++
  lit "<< /Font << /F1 3 0 R /F2 5 0 R >> >> /Contents " ++ show_nat content_id ++ lit " 0 R >>".

(** [objects[i] = object], which panics outside the vector. *)
Definition set_object {E} (i : nat) (object : bytes) (objects : list bytes) : outcome E (list bytes) :=
  if i <? length objects then Ok (<[i := object]> objects) else Panic.

(** The loop over the pages, from page [index] on. *)
Fixpoint set_pages {E} (index : nat) (pages : list text) (objects : list bytes)
    : outcome E (list bytes) :=
  match pages with
  | [] => Ok objects
  | content :: rest =>
      let page_id := 6 + index * 2 in
      let content_id := page_id + 1 in
      objects ← set_object (page_id - 1) (page_object content_id) objects;
      objects ← set_object (content_id - 1) (stream_object (utf8_encode content)) objects;
      set_pages (S index) rest objects
  end.

(** The objects of a file with these pages. *)
Definition pdf_objects {E} (pages : list text) : outcome E (list bytes) :=
  objects ← set_object 0 catalog_object (replicate (5 + length pages * 2) []);
  objects ← set_object 1 (pages_object (length pages)) objects;
  objects ← set_object 2 type0_font_object objects;
  objects ← set_object 3 cid_font_object objects;
  objects ← set_object 4 ascii_font_object objects;
  set_pages 0 pages objects.

Definition render_pdf `{PdfLib} (input : ExportInput) : outcome text bytes :=
  objects ← pdf_objects (layout_pdf_pages (document_lines (source input)) (assets input));
  Ok (write_pdf objects).
