(* ===== verification/NotesWord.v ===== *)
(** * Exporting notes: what the Word export promises

    Whatever the note and the descriptions of its images say, the export never panics; and a
    reader of XML accepts every part of the package, since escaping protects the texts and the
    markup around them is balanced, as long as the texts have no character that XML forbids:
    those are written as they are.  But the images of a document refer to the relationships
    of the assets after their own. *)

From S2P Require Import Prelude VncClipboard Text TextSearch XmlReader NotesText NotesLines NotesDocx.

(** ** Exporting notes: the Word package is well-formed XML *)

(** A text of characters that XML allows. *)
Definition xml_text : text → Prop := Forall (λ c, xml_char c = true).

(** ** Escaping *)

Definition escape_char (c : N) : text :=
  if (c =? 38)%N then lit "&amp;" else if (c =? 60)%N then lit "&lt;"
  else if (c =? 62)%N then lit "&gt;" else if (c =? 34)%N then lit "&quot;"
  else if (c =? 39)%N then lit "&apos;" else [c].

Lemma escape_xml_chars t : escape_xml t = t ≫= escape_char.
Proof.
  unfold escape_xml. change (lit "'") with [39%N]. change (lit "&") with [38%N].
  change (lit "<") with [60%N]. change (lit ">") with [62%N]. rewrite !replace_char.
  induction t as [|c t IH]; [done|]. rewrite !bind_cons, !bind_app, IH. f_equal.
  unfold escape_char.
  destruct (N.eqb_spec c 38) as [->|H1]; [done|]. simpl.
  destruct (N.eqb_spec c 60) as [->|H2]; [done|]. simpl.
  destruct (N.eqb_spec c 62) as [->|H3]; [done|]. simpl.
  destruct (N.eqb_spec c 34) as [->|H4]; [done|]. simpl. by destruct (c =? 39)%N.
Qed.

(** The reader of XML reads an escaped text as text. *)
Lemma reads_escaped r t : resting r → xml_text t → reads r (escape_xml t) r.
Proof.
  intros Hr Ht. rewrite escape_xml_chars. induction Ht as [|c t Hc _ IH]; [done|].
  rewrite bind_cons. eapply reads_app; [|exact IH].
  assert (∀ e, (∃ name, e = 38%N :: name ++ [59%N] ∧ In name (lit <$> ["amp"; "lt"; "gt"; "quot"; "apos"])) →
    reads r e r) as He.
  { intros e (name & -> & Hin). destruct r as [m tags rooted].
    destruct Hr as [tag tags' H1 H2|tag seen H1]; simpl in *; subst;
      simpl in Hin; by repeat destruct Hin as [<-|Hin]. }
  unfold escape_char.
  destruct (c =? 38)%N eqn:E1; [apply He; eexists (lit "amp"); simpl; naive_solver|].
  destruct (c =? 60)%N eqn:E2; [apply He; eexists (lit "lt"); simpl; naive_solver|].
  destruct (c =? 62)%N eqn:E3; [apply He; eexists (lit "gt"); simpl; naive_solver|].
  destruct (c =? 34)%N eqn:E4; [apply He; eexists (lit "quot"); simpl; naive_solver|].
  destruct (c =? 39)%N eqn:E5; [apply He; eexists (lit "apos"); simpl; naive_solver|].
  apply reads_char; [done|]. unfold plain. by rewrite Hc, E1, E2, E3, E4.
Qed.

(** Escaping removes no character that XML forbids, and the reader takes none. *)
Lemma escaped_xml_text t : xml_text (escape_xml t) → xml_text t.
Proof.
  rewrite escape_xml_chars. induction t as [|c t IH]; [constructor|].
  rewrite bind_cons. unfold xml_text in *. rewrite Forall_app, Forall_cons.
  intros [Hc Ht]. split; [|by apply IH]. revert Hc. unfold escape_char.
  destruct (N.eqb_spec c 38) as [->|_]; [done|]. destruct (N.eqb_spec c 60) as [->|_]; [done|].
  destruct (N.eqb_spec c 62) as [->|_]; [done|]. destruct (N.eqb_spec c 34) as [->|_]; [done|].
  destruct (N.eqb_spec c 39) as [->|_]; [done|]. by inversion 1.
Qed.

Lemma run_xml_text r t r' : XmlReader.run r t = Some r' → xml_text t.
Proof.
  revert r. induction t as [|c t IH]; intros r; [constructor|]. simpl.
  destruct (step r c) as [r1|] eqn:Hstep; [|done]. intros Hrun. constructor; [|by eapply IH].
  unfold step in Hstep. by destruct (xml_char c).
Qed.

(** ** Reading the pieces of the document *)

(** Between tags, in these elements. *)
Definition inside (tags : list text) : Reader :=
  {| mode := Content; opened := tags; rooted := true |}.

(** A piece that is known, and a place where texts are read as they are. *)
Ltac rest := first [by eapply rest_quoted | by eapply rest_content].
Ltac known :=
  repeat match goal with
  | |- reads _ (lit _ ++ _) _ => eapply reads_app; [vm_compute; reflexivity|]
  | |- reads _ (qlit _ ++ _) _ => eapply reads_app; [vm_compute; reflexivity|]
  | |- reads _ (show_N _ ++ _) _ => eapply reads_app; [apply reads_number; rest|]
  end.
Ltac joined := eapply reads_app; [apply reads_join, Forall_forall|known; vm_compute; reflexivity].
Ltac escaped := eapply reads_app; [apply reads_escaped; [rest|]|].

Lemma plain_xml t : Forall (λ c, plain c = true) t → xml_text t.
Proof.
  intros H. eapply Forall_impl; [exact H|]. intros c Hc. unfold plain in Hc.
  by apply andb_true_iff in Hc as [Hc _].
Qed.

Lemma number_plain n : Forall (λ c, plain c = true) (show_N n).
Proof. eapply Forall_impl; [apply (show_N_digits n)|]. apply digit_plain. Qed.

Lemma asset_extension_plain asset : Forall (λ c, plain c = true) (asset_extension asset).
Proof.
  unfold asset_extension. repeat case_bool_decide; by repeat constructor.
Qed.

Section docx.
Context `{DocxLib}.

Lemma docx_image_reads tag tags index asset alt :
  xml_text alt →
  reads (inside (tag :: tags)) (docx_image index asset alt) (inside (tag :: tags)).
Proof.
  intros Halt. unfold docx_image. destruct (image_extent asset) as [cx cy].
  unfold show_nat. known. escaped.
  { apply plain_xml. rewrite !Forall_app. split_and!; [|apply number_plain|by repeat constructor|
      apply asset_extension_plain]. by repeat constructor. }
  known. escaped; [done|]. known.
  eapply reads_app.
  { unfold embed_id, show_nat. known. eapply reads_app; [known; apply reads_number; rest|].
    vm_compute. reflexivity. }
  known. reflexivity.
Qed.

Lemma known_image_reads tag tags assets image xml :
  known_image assets image = Some xml → xml_text (alt image) →
  reads (inside (tag :: tags)) xml (inside (tag :: tags)).
Proof.
  unfold known_image. intros Hk Ha. apply fmap_Some in Hk as ([index asset] & _ & ->).
  by apply docx_image_reads.
Qed.

Lemma docx_cell_reads tag tags assets width row_index cell :
  from_option (cell_ok (λ c, xml_char c = true)) True cell →
  reads (inside (tag :: tags)) (docx_cell assets width row_index cell) (inside (tag :: tags)).
Proof.
  intros Hc. unfold docx_cell. known.
  assert (xml_text (from_option cell_text [] cell)) as Ht by (destruct cell; [apply Hc|constructor]).
  assert (Forall (image_ok (λ c, xml_char c = true)) (from_option cell_images [] cell)) as Hi
    by (destruct cell; [apply Hc|constructor]).
  destruct (row_index =? 0); [|rewrite app_nil_l]; known; (escaped; [done|]); known; joined.
  all: intros xml Hin; apply list_elem_of_omap in Hin as (image & Hin & Hk).
  all: eapply known_image_reads; [exact Hk|]; rewrite Forall_forall in Hi; by apply Hi.
Qed.

Lemma docx_row_reads n tag tags assets width columns row_index row :
  row_ok (λ c, xml_char c = true) n row →
  reads (inside (tag :: tags)) (docx_row assets width columns row_index row) (inside (tag :: tags)).
Proof.
  intros [_ Hr]. unfold docx_row. known. joined.
  intros xml (column & -> & _)%list_elem_of_fmap. apply docx_cell_reads.
  destruct (row !! column) eqn:E; [|done]. by eapply Forall_lookup in Hr.
Qed.

Lemma column_count_bounds P n table :
  table_rows table ≠ [] → Forall (row_ok P n) (table_rows table) →
  1 ≤ default 1 (column_count table) ≤ S n.
Proof.
  unfold column_count. intros Hne Hr. destruct Hr as [|row rows [Hr _] Hrs]; [done|].
  cbn [fmap list_fmap foldr default from_option]. unfold id.
  match goal with |- context [foldr Nat.max 0 ?ls] => assert (foldr Nat.max 0 ls ≤ S n); [|lia] end.
  clear Hne. induction Hrs as [|row1 rows1 [? _] _ IH]; [simpl; lia|].
  change (length row1 `max` foldr Nat.max 0 (length <$> rows1) ≤ S n). lia.
Qed.

(** A table has columns, so their width is defined. *)
Lemma docx_table_reads {E} n tag tags table assets :
  (N.of_nat n < u32_max)%N → table_rows table ≠ [] →
  Forall (row_ok (λ c, xml_char c = true) n) (table_rows table) →
  ∃ xml, docx_table (E := E) table assets = Ok xml ∧ reads (inside (tag :: tags)) xml (inside (tag :: tags)).
Proof.
  intros Hn Hne Hr. unfold docx_table.
  pose proof (column_count_bounds _ n table Hne Hr) as Hc.
  generalize dependent (default 1 (column_count table)). intros columns Hc.
  rewrite N.mod_small by lia. rewrite (proj2 (N.eqb_neq _ _)) by lia.
  eexists. split; [reflexivity|]. known. eapply reads_app.
  { apply reads_join, Forall_forall. intros t [-> _]%elem_of_replicate. known. reflexivity. }
  known. joined. intros t (i & row & -> & Hi)%elem_of_lookup_imap_1. eapply docx_row_reads.
  by eapply Forall_lookup in Hr.
Qed.

(** The lines that the reader accepts, which those of a note are. *)
Lemma docx_line_reads {E} n tag tags assets l :
  (N.of_nat n < u32_max)%N → line_ok (λ c, xml_char c = true) n l →
  ∃ xml, docx_line (E := E) assets l = Ok xml ∧ reads (inside (tag :: tags)) xml (inside (tag :: tags)).
Proof.
  intros Hn [Ht Hk]. destruct l as [k t]. unfold docx_line. cbn [kind line_text] in *.
  assert (∀ style numbering, from_option (Forall (λ c, plain c = true)) True style →
    reads (inside (tag :: tags)) (docx_paragraph style numbering t) (inside (tag :: tags))) as Hp.
  { intros style numbering Hs. unfold docx_paragraph. known.
    eapply (reads_app _ _ (inside (lit "w:p" :: tag :: tags))).
    - pose (ppr := inside (lit "w:pPr" :: lit "w:p" :: tag :: tags)).
      assert (reads ppr (from_option (λ s, qlit "<w:pStyle w:val=`" ++ s ++ qlit "`/>") [] style) ppr) as H1.
      { destruct style as [s|]; [|reflexivity]. cbn [from_option]. known.
        eapply reads_app; [apply reads_plain; [rest|exact Hs]|]. reflexivity. }
      assert (reads ppr (from_option (λ n, qlit "<w:numPr><w:ilvl w:val=`0`/><w:numId w:val=`" ++
                show_nat n ++ qlit "`/></w:numPr>") [] numbering) ppr) as H2.
      { destruct numbering as [m|]; [|reflexivity]. cbn [from_option]. unfold show_nat. known. reflexivity. }
      assert (reads (inside (lit "w:p" :: tag :: tags)) (lit "<w:pPr>" ++
         from_option (λ s, qlit "<w:pStyle w:val=`" ++ s ++ qlit "`/>") [] style ++
         from_option (λ n, qlit "<w:numPr><w:ilvl w:val=`0`/><w:numId w:val=`" ++
                show_nat n ++ qlit "`/></w:numPr>") [] numbering ++ lit "</w:pPr>")
         (inside (lit "w:p" :: tag :: tags))) as H3.
      { known. eapply (reads_app ppr); [exact H1|]. eapply (reads_app ppr); [exact H2|]. reflexivity. }
      destruct style; [exact H3|]. destruct numbering; [exact H3|reflexivity].
    - known. escaped; [done|]. reflexivity. }
  destruct k as [|level| | | | | |table|image].
  - eexists. split; [reflexivity|]. vm_compute. reflexivity.
  - eexists. split; [reflexivity|]. apply (Hp (Some _) None). cbn [from_option]. apply Forall_app.
    split; [by repeat constructor|apply number_plain].
  - eexists. split; [reflexivity|]. by apply (Hp None None).
  - eexists. split; [reflexivity|]. apply (Hp (Some _) None). by repeat constructor.
  - eexists. split; [reflexivity|]. by apply (Hp None (Some 1)).
  - eexists. split; [reflexivity|]. by apply (Hp None (Some 2)).
  - eexists. split; [reflexivity|]. apply (Hp (Some _) None). by repeat constructor.
  - destruct Hk as [Hne Hr]. by eapply docx_table_reads.
  - eexists. split; [reflexivity|]. destruct (known_image assets image) eqn:E0; simpl.
    + by eapply known_image_reads.
    + known. escaped; [done|]. reflexivity.
Qed.

Lemma mapM_ok {E A} (f : A → outcome E text) (Q : text → Prop) xs :
  Forall (λ x, ∃ y, f x = Ok y ∧ Q y) xs → ∃ ys, mapM f xs = Ok ys ∧ Forall Q ys.
Proof.
  induction 1 as [|x xs (y & Hy & HQ) _ (ys & Hys & HQs)]; [by exists []|].
  exists (y :: ys). simpl. rewrite Hy. simpl. rewrite Hys. by repeat constructor.
Qed.

(** Every line is written, whatever it says. *)
Lemma docx_line_total {E} P n assets l :
  (N.of_nat n < u32_max)%N → line_ok P n l → ∃ xml, docx_line (E := E) assets l = Ok xml.
Proof.
  intros Hn [_ Hk]. destruct l as [k t]. unfold docx_line. cbn [kind line_text] in *.
  destruct k as [|level| | | | | |table|image]; try by eexists. destruct Hk as [Hne Hr].
  pose proof (column_count_bounds _ n table Hne Hr) as Hc. unfold docx_table.
  rewrite N.mod_small by lia. rewrite (proj2 (N.eqb_neq _ _)) by lia. by eexists.
Qed.

Lemma document_xml_total {E} source assets :
  (N.of_nat (length source) < u32_max)%N → ∃ xml, document_xml (E := E) source assets = Ok xml.
Proof.
  intros Hn. unfold document_xml.
  destruct (mapM_ok (E := E) (docx_line assets) (λ _, True) (document_lines source)) as (ys & -> & _);
    [|by eexists].
  eapply Forall_impl; [apply (document_lines_ok (λ _, True) source); [done|done|..]; by apply Forall_true|].
  intros l Hl. destruct (docx_line_total (E := E) _ _ assets l Hn Hl) as [xml Hxml]. by exists xml.
Qed.

(** The document of a note is well formed. *)
Lemma document_xml_reads {E} source assets :
  xml_text source → (N.of_nat (length source) < u32_max)%N →
  ∃ xml, document_xml (E := E) source assets = Ok xml ∧ well_formed xml.
Proof.
  intros Hs Hn. unfold document_xml.
  destruct (mapM_ok (E := E) (docx_line assets)
    (λ xml, reads (inside [lit "w:body"; lit "w:document"]) xml (inside [lit "w:body"; lit "w:document"]))
    (document_lines source)) as (ys & -> & Hys).
  { eapply Forall_impl; [by apply (document_lines_ok (λ c, xml_char c = true) source);
      [..|by repeat constructor|]|].
    intros l Hl. by eapply docx_line_reads. }
  eexists. split; [reflexivity|]. unfold well_formed. change (run start ?t = Some complete) with (reads start t complete).
  known. joined. intros xml Hin. rewrite Forall_forall in Hys. by apply Hys.
Qed.

(** The other parts. *)
Lemma document_relationships_reads assets : well_formed (document_relationships assets).
Proof.
  unfold well_formed, document_relationships. change (run start ?t = Some complete) with (reads start t complete). known. joined.
  intros t (index & asset & -> & _)%elem_of_lookup_imap_1.
  unfold image_relationship, image_relationship_id, image_target_name, show_nat.
  known. eapply reads_app; [known; apply reads_number; rest|]. known.
  eapply reads_app; [known; apply reads_plain; [rest|apply asset_extension_plain]|].
  reflexivity.
Qed.

Lemma core_properties_reads title : xml_text title ↔ well_formed (core_properties title).
Proof.
  split.
  2: { intros Hwell%run_xml_text. unfold core_properties, xml_text in Hwell.
    rewrite !Forall_app in Hwell. apply escaped_xml_text, Hwell. }
  intros Ht. unfold well_formed, core_properties. change (run start ?t = Some complete) with (reads start t complete). known. escaped; [done|].
  known. reflexivity.
Qed.
End docx.

(** ** Exporting notes: what the Word export promises *)

(** ** An archive *)

(** An archive that lists the entries, the last first, and a decoder that takes the first
    two bytes for the dimensions. *)
#[export] Instance demo_docx : DocxLib := {|
  image_dimensions b := match b with w :: h :: _ => Some (w, h) | _ => None end;
  Zip := list (text * bytes);
  new_zip := [];
  start_file name zip := inr ((name, []) :: zip);
  write_all b zip := match zip with (name, old) :: rest => inr ((name, old ++ b) :: rest)
                     | [] => inl (lit "no file was started") end;
  finish zip := inr (zip ≫= λ entry, utf8_encode entry.1 ++ entry.2)
|}.

(** ** The package *)

Lemma write_zip_bytes_no_panic `{DocxLib} name contents zip : write_zip_bytes name contents zip ≠ Panic.
Proof.
  unfold write_zip_bytes, lift_zip. destruct (start_file name zip); simpl; [done|].
  by destruct (write_all contents _).
Qed.

Lemma write_assets_no_panic `{DocxLib} index assets zip : write_assets index assets zip ≠ Panic.
Proof.
  revert index zip. induction assets as [|asset assets IH]; intros index zip; [done|].
  apply bind_no_panic; [apply write_zip_bytes_no_panic|]. intros z. apply IH.
Qed.

(** An entry of the archive is written. *)
Ltac entry := refine (bind_no_panic _ _ _ _); [apply write_zip_bytes_no_panic|intros ?; cbv beta].

(** C29: The Word export never panics, whatever the note says and however its tables and
    images are written, and every XML part of the package it writes is well formed as long as
    no character that XML forbids is in it: the reader of XML finds one root, elements that
    are closed in order, attributes that are quoted and not repeated, and texts that are
    escaped.  The document is so when the note is of characters that XML allows, the
    properties exactly when the title is, and the other parts always. *)
Theorem word_parts_well_formed `{DocxLib} input
    (Hlength : (N.of_nat (length (source input)) < u32_max)%N) :
  render_docx input ≠ Panic ∧
  (∃ document, document_xml (E := text) (source input) (assets input) = Ok document ∧
     (xml_text (source input) → well_formed document)) ∧
  (xml_text (title input) ↔ well_formed (core_properties (title input))) ∧
  well_formed (document_relationships (assets input)) ∧
  Forall well_formed [content_types; package_relationships; styles_xml; numbering_xml].
Proof.
  destruct (document_xml_total (E := text) (source input) (assets input)) as (xml & Hxml); [done|].
  split_and!; [|exists xml; split; [done|]|apply core_properties_reads|apply document_relationships_reads|
               by repeat (constructor; [vm_compute; reflexivity|])].
  - unfold render_docx. entry. entry. entry. entry. entry. entry.
    rewrite Hxml. refine (bind_no_panic _ _ _ _); [done|]. intros document.
    entry.
    refine (bind_no_panic _ _ _ _); [apply write_assets_no_panic|intros z].
    unfold lift_zip. by destruct (finish z).
  - intros Hsource. destruct (document_xml_reads (E := text) (source input) (assets input))
      as (xml' & Hxml' & Hwell); [done..|]. congruence.
Qed.

(** A control character of a note is written to the document, which is then no XML. *)
Lemma control_character_breaks `{DocxLib} :
  ∃ document, document_xml (E := text) [97; 1]%N [] = Ok document ∧ ¬ well_formed document.
Proof.
  eexists. split; [vm_compute; reflexivity|]. intros Hwell%run_xml_text.
  apply Forall_forall with (x := 1%N) in Hwell; [discriminate Hwell|].
  apply list_elem_of_In. vm_compute. tauto.
Qed.

Lemma word_parts_well_formed_witness :
  let input := {| title := lit "A & B"; source := lit "| a | b |" ++ [10%N] ++ lit "|---|---|" ++ [10%N] ++
                    lit "| x < y | ![p](i.png) |" ++ [10%N] ++ lit "# <>";
                  assets := [{| asset_path := lit "i.png"; media_type := lit "image/png"; asset_bytes := [4; 2]%N |}];
                  theme := {| dark := false; background := 0; foreground := 0; border := 0; muted := 0;
                              accent := 0 |}%N |} in
  render_docx input ≠ Panic.
Proof.
  intros input. by apply (word_parts_well_formed input).
Defined.

(** ** The images *)

(** The file that a reader of the relationships finds under an identifier. *)
Fixpoint relationship_target (index : nat) (id : text) (assets : list ExportAsset) : option text :=
  match assets with
  | [] => None
  | asset :: rest =>
      if bool_decide (image_relationship_id index = id) then Some (image_target_name index asset)
      else relationship_target (S index) id rest
  end.

Lemma show_nat_inj m n : show_nat m = show_nat n → m = n.
Proof.
  unfold show_nat. intros H. apply Nat2N.inj.
  pose proof (parse_show (N.max (N.of_nat m) (N.of_nat n)) (N.of_nat m) ltac:(lia)) as Hm.
  pose proof (parse_show (N.max (N.of_nat m) (N.of_nat n)) (N.of_nat n) ltac:(lia)) as Hn.
  congruence.
Qed.

Lemma image_relationship_id_inj i j : image_relationship_id i = image_relationship_id j → i = j.
Proof. intros H. apply app_inv_head, show_nat_inj in H. lia. Qed.

Lemma image_target_name_inj i a j b : image_target_name i a = image_target_name j b → i = j.
Proof.
  unfold image_target_name. intros H. apply app_inv_head in H.
  assert (∀ n ext, split_once_at (N.eqb 46) (show_nat n ++ lit "." ++ ext) = Some (show_nat n, ext)) as Hs.
  { intros n ext. apply split_once_at_app; [|done]. unfold show_nat.
    eapply Forall_impl; [apply show_N_digits|]. intros c Hc. apply N.eqb_neq.
    intros <-. discriminate Hc. }
  apply (f_equal (split_once_at (N.eqb 46))) in H. rewrite !Hs in H.
  injection H as H _. apply show_nat_inj in H. lia.
Qed.

Lemma relationship_target_spec index i assets :
  relationship_target index (image_relationship_id (index + i)) assets =
  image_target_name (index + i) <$> assets !! i.
Proof.
  revert index i. induction assets as [|asset assets IH]; intros index i; simpl; [done|].
  case_bool_decide as E.
  - apply image_relationship_id_inj in E. assert (i = 0) as -> by lia. by rewrite Nat.add_0_r.
  - destruct i as [|i]; [by rewrite Nat.add_0_r in E|].
    rewrite <-Nat.add_succ_comm. apply IH.
Qed.

Lemma known_image_embeds `{DocxLib} assets image index asset :
  find_asset 0 (image_path image) assets = Some (index, asset) →
  ∃ before after, known_image assets image =
    Some (before ++ (qlit "<a:blip r:embed=`" ++ embed_id (index + 1) ++ qlit "`/>") ++ after).
Proof.
  intros Hfind. unfold known_image. rewrite Hfind. cbn [fmap option_fmap option_map].
  unfold docx_image. destruct (image_extent asset) as [cx cy].
  assert (∀ s t m : text, (∃ b a, t = b ++ m ++ a) → ∃ b a, s ++ t = b ++ m ++ a) as Hstep.
  { intros s t m (b & a & ->). exists (s ++ b), a. by rewrite <-app_assoc. }
  match goal with |- ∃ b a, Some ?t = Some (b ++ ?m ++ a) => assert (∃ b a, t = b ++ m ++ a) as
    (b & a & ->); [|by exists b, a] end.
  do 13 apply Hstep. eexists [], _. reflexivity.
Qed.

(** An image of the document refers to the picture of the asset after its own, and the
    image of the last asset to none: its identifier counts from the position plus one, the
    relationships from the position. *)
Theorem embedded_image_misses `{DocxLib} assets image index asset
    (Hfind : find_asset 0 (image_path image) assets = Some (index, asset)) :
  (∃ before after, known_image assets image =
     Some (before ++ (qlit "<a:blip r:embed=`" ++ embed_id (index + 1) ++ qlit "`/>") ++ after)) ∧
  relationship_target 0 (embed_id (index + 1)) assets =
    image_target_name (S index) <$> assets !! S index ∧
  relationship_target 0 (embed_id (index + 1)) assets ≠ Some (image_target_name index asset).
Proof.
  assert (relationship_target 0 (embed_id (index + 1)) assets =
          image_target_name (S index) <$> assets !! S index) as Ht.
  { change (embed_id (index + 1)) with (image_relationship_id (0 + (index + 1))).
    rewrite relationship_target_spec. by rewrite Nat.add_1_r. }
  split_and!; [by eapply known_image_embeds|done|]. rewrite Ht.
  destruct (assets !! S index) as [next|]; simpl; [|done].
  intros E%(inj Some)%image_target_name_inj. lia.
Qed.

Lemma embedded_image_misses_witness :
  let a := {| asset_path := lit "a.png"; media_type := lit "image/png"; asset_bytes := [4; 2]%N |} in
  let b := {| asset_path := lit "b.gif"; media_type := lit "image/gif"; asset_bytes := [] |} in
  relationship_target 0 (embed_id 1) [a; b] = Some (lit "media/image2.gif").
Proof.
  intros a b.
  destruct (embedded_image_misses [a; b] {| alt := []; image_path := lit "a.png" |} 0 a eq_refl)
    as (_ & H & _). exact H.
Defined.
