(* ===== verification/NotesFile.v ===== *)
(** * Exporting notes: what a reader finds in a PDF file

    A reader that goes from the end of the file to the table of offsets, and from there to
    an object, finds every object that the export has made, and through them the commands
    of every page; a reader of the commands that show a line collects the characters of the
    line: ASCII ones as escaped literals of one font, the others as hexadecimal UTF-16 of
    the other. *)

From Stdlib Require Import SpecFloat.
From S2P Require Import Prelude VncClipboard Text TextSearch Floats NotesText NotesLines NotesDocx NotesPdf.

(** ** Exporting notes: the table of offsets of a PDF file *)

(** ** A reader *)

(** Object [number]: what follows its header. *)
Definition find_object (file : bytes) (number : nat) : option bytes :=
  rest ← strip_prefix (reverse (newline ++ lit "%%EOF" ++ newline)) (reverse file);
  '(offset, _) ← split_once_at (λ c, negb (is_digit c)) rest;
  xref ← parse_unsigned u64_max (reverse offset);
  table ← strip_prefix (lit "xref" ++ newline ++ lit "0 ") (drop (N.to_nat xref) file);
  '(_, entries) ← split_once_at (N.eqb 10) table;
  let entry := take 20 (drop (20 * number) entries) in
  offset ← parse_unsigned u64_max (take 10 entry);
  if bool_decide (drop 10 entry = lit " 00000 n " ++ newline) then
    strip_prefix (show_nat number ++ lit " 0 obj" ++ newline) (drop (N.to_nat offset) file)
  else None.

Definition finds (file : bytes) (number : nat) (object : bytes) : Prop :=
  ∃ rest, find_object file number = Some (object ++ newline ++ lit "endobj" ++ newline ++ rest).

(** A number of digits up to a blank, and a reference to an object. *)
Definition decimal (ds : bytes) : N := foldl (λ n c, n * 10 + (c - 48))%N 0%N ds.
Definition number (t : bytes) : option (nat * bytes) :=
  '(ds, rest) ← split_once_at (N.eqb 32) t;
  if forallb is_digit ds && negb (bool_decide (ds = [])) then Some (N.to_nat (decimal ds), rest) else None.
Definition reference (t : bytes) : option (nat * bytes) :=
  '(n, rest) ← number t; rest ← strip_prefix (lit "0 R") rest; Some (n, rest).

(** References with blanks between them, up to a bracket. *)
Fixpoint references (fuel : nat) (t : bytes) : option (list nat * bytes) :=
  match fuel with
  | O => None
  | S fuel =>
      '(n, rest) ← reference t;
      match rest with
      | c :: rest =>
          if (c =? 93)%N then Some ([n], rest)
          else if (c =? 32)%N then '(ns, rest) ← references fuel rest; Some (n :: ns, rest) else None
      | [] => None
      end
  end.

(** What follows a key of a dictionary. *)
Definition entry (key : string) (object : bytes) : option bytes := snd <$> split_once (lit key) object.
Definition named_object (key : string) (object : bytes) : option nat := fst <$> (entry key object ≫= reference).

(** The number of the root, from the end of the file. *)
Definition root_number (file : bytes) : option nat :=
  rest ← strip_prefix (reverse (newline ++ lit "%%EOF" ++ newline)) (reverse file);
  '(_, rest) ← split_once_at (λ c, negb (is_digit c)) rest;
  rest ← strip_prefix (reverse (lit " 0 R >>" ++ newline ++ lit "startxref")) rest;
  '(ds, rest) ← split_once_at (λ c, negb (is_digit c)) rest;
  _ ← strip_prefix (reverse (lit "/Root")) rest;
  if bool_decide (ds = []) then None else Some (N.to_nat (decimal (reverse ds))).

Definition is_font (file : bytes) (number : nat) : option () :=
  _ ← (find_object file number ≫= strip_prefix (lit "<< /Type /Font ")); Some ().

(** The commands of a page of a tree: both its fonts are there, and its content is a stream of
    the length it says. *)
Definition read_page (file : bytes) (tree page : nat) : option bytes :=
  object ← find_object file page;
  _ ← strip_prefix (lit "<< /Type /Page ") object;
  parent ← named_object "/Parent " object;
  _ ← (named_object "/F1 " object ≫= is_font file);
  _ ← (named_object "/F2 " object ≫= is_font file);
  content ← named_object "/Contents " object;
  stream ← find_object file content;
  '(size, rest) ← (entry "/Length " stream ≫= number);
  rest ← strip_prefix (lit ">>" ++ newline ++ lit "stream" ++ newline) rest;
  _ ← strip_prefix (lit "endstream") (drop size rest);
  if bool_decide (parent = tree) && bool_decide (size ≤ length rest) then Some (take size rest) else None.

(** The commands of the pages of a file: from the root to the tree, and to its kids. *)
Definition read_pages (file : bytes) : option (list bytes) :=
  root ← root_number file;
  catalog ← find_object file root;
  _ ← strip_prefix (lit "<< /Type /Catalog ") catalog;
  tree ← named_object "/Pages " catalog;
  pages ← find_object file tree;
  _ ← strip_prefix (lit "<< /Type /Pages ") pages;
  '(kids, rest) ← (entry "/Kids [" pages ≫= references (length pages));
  '(count, _) ← (strip_prefix (lit " /Count ") rest ≫= number);
  if bool_decide (count = length kids) then mapM (read_page file tree) kids else None.

(** ** Numbers of ten digits *)

Lemma digits_length fuel n acc k :
  (n < 10 ^ N.of_nat (S k))%N → length (digits fuel n acc) ≤ S k + length acc.
Proof.
  revert n acc k. induction fuel as [|fuel IH]; intros n acc k Hn; cbn [digits]; [lia|].
  destruct (N.ltb_spec n 10) as [Hlt|Hge]; [simpl; lia|].
  destruct k as [|k]; [simpl in Hn; lia|].
  etransitivity; [apply (IH _ _ k)|simpl; lia].
  apply N.Div0.div_lt_upper_bound. by rewrite <-N.pow_succ_r', <-Nat2N.inj_succ.
Qed.

Lemma show_nat_length n : (N.of_nat n < 10 ^ 10)%N → length (show_nat n) ≤ 10.
Proof. intros Hn. unfold show_nat, show_N. pose proof (digits_length (S (N.to_nat (N.size (N.of_nat n)))) (N.of_nat n) [] 9 Hn). simpl in *. lia. Qed.

Lemma pad10_length n : (N.of_nat n < 10 ^ 10)%N → length (pad10 n) = 10.
Proof.
  intros Hn. unfold pad10. rewrite length_app, length_replicate. pose proof (show_nat_length n Hn). lia.
Qed.

Lemma parse_zeros max k t : parse_digits max 0 (replicate k 48%N ++ t) = parse_digits max 0 t.
Proof.
  induction k as [|k IH]; [done|]. cbn [replicate app parse_digits].
  change (0 * 10 + (48 - 48))%N with 0%N. by rewrite (proj2 (N.leb_le 0 max)) by lia.
Qed.

Lemma parse_pad10 n : (N.of_nat n <= u64_max)%N → parse_unsigned u64_max (pad10 n) = Some (N.of_nat n).
Proof.
  intros Hn. destruct (digits_show u64_max (N.of_nat n) Hn) as (ds & Hd & Hne & Hds & Hp).
  unfold pad10, show_nat. rewrite Hd. unfold parse_unsigned.
  assert (Forall (λ c, is_digit c = true) (replicate (10 - length ds) 48%N ++ ds)) as Hall.
  { apply Forall_app. split; [by apply Forall_replicate|done]. }
  pose proof (parse_zeros u64_max (10 - length ds) ds) as Hz. rewrite Hp in Hz.
  destruct (replicate _ _ ++ ds) as [|c t] eqn:E; [by apply app_eq_nil in E as [_ ->]|].
  apply Forall_cons in Hall as [Hc _]. assert ((c =? 43)%N = false) as ->; [|done].
  apply N.eqb_neq. intros ->. discriminate Hc.
Qed.

(** ** The objects, one after the other *)

Lemma write_objects_spec index objects output :
  let r := write_objects index objects output in
  (∃ more, r.1 = output ++ more) ∧ length r.2 = length objects ∧
  ∀ k object, objects !! k = Some object →
    ∃ offset more, r.2 !! k = Some offset ∧ offset ≤ length r.1 ∧
      drop offset r.1 = written_object (index + k) object ++ more.
Proof.
  revert index output. induction objects as [|o objects IH]; intros index output; cbn [write_objects].
  { split_and!; [exists []; by rewrite app_nil_r|done|done]. }
  destruct (IH (S index) (output ++ written_object index o)) as ((more & Hmore) & Hl & Hk).
  destruct (write_objects _ _ _) as [result offsets]. simpl in *. subst result. split_and!.
  - exists (written_object index o ++ more). by rewrite <-app_assoc.
  - by rewrite Hl.
  - intros [|k] object; simpl.
    + intros [= ->]. exists (length output), more. split_and!; [done|rewrite !length_app; lia|].
      rewrite <-app_assoc, drop_app_length. by rewrite Nat.add_0_r.
    + intros Ho. destruct (Hk k object Ho) as (offset & m & Hoff & Hle & Hd).
      exists offset, m. by rewrite <-Nat.add_succ_comm.
Qed.

Lemma xref_entries_nth offsets k offset rest :
  Forall (λ o, N.of_nat o < 10 ^ 10)%N offsets → offsets !! k = Some offset →
  take 20 (drop (20 * k) (mjoin (xref_entry <$> offsets) ++ rest)) = xref_entry offset.
Proof.
  intros Hb. revert k. induction Hb as [|o offsets Ho _ IH]; intros k Hk; [done|].
  assert (length (xref_entry o) = 20) as Hl by (unfold xref_entry; rewrite length_app, pad10_length by done; done).
  rewrite fmap_cons. change (mjoin (xref_entry o :: ?t)) with (xref_entry o ++ mjoin t).
  rewrite <-app_assoc. destruct k as [|k].
  - injection Hk as ->. rewrite Nat.mul_0_r, drop_0, <-Hl. apply take_app_length.
  - replace (20 * S k) with (length (xref_entry o) + 20 * k) by lia.
    rewrite <-drop_drop, drop_app_length. by apply IH.
Qed.

Lemma reverse_digits_stop (ds rest : text) :
  Forall (λ c, is_digit c = true) ds →
  split_once_at (λ c, negb (is_digit c)) (reverse ds ++ 10%N :: rest) = Some (reverse ds, rest).
Proof.
  intros Hds. apply split_once_at_app; [|done]. apply Forall_reverse.
  eapply Forall_impl; [exact Hds|]. by intros c ->.
Qed.

(** The end of a file, where the table begins, and its entries. *)
Lemma write_pdf_layout objects :
  let '(output, offsets) := write_objects 0 objects pdf_header in
  (∃ front, write_pdf objects =
     front ++ lit "/Root 1 0 R >>" ++ newline ++ lit "startxref" ++ newline ++
     show_nat (length output) ++ newline ++ lit "%%EOF" ++ newline) ∧
  (∃ trailer, write_pdf objects =
     output ++ (lit "xref" ++ newline ++ lit "0 ") ++ show_nat (length objects + 1) ++ 10%N ::
     (lit "0000000000 65535 f " ++ newline) ++ mjoin (xref_entry <$> offsets) ++ trailer).
Proof.
  unfold write_pdf. destruct (write_objects 0 objects pdf_header) as [output offsets].
  assert (∀ s t m : text, (∃ b, t = b ++ m) → ∃ b, s ++ t = b ++ m) as Hstep.
  { intros s t m (b & ->). exists (s ++ b). by rewrite <-app_assoc. }
  split; [|by eexists]. do 13 apply Hstep. by exists (lit " ").
Qed.

(** Every object of a file that is not too long is found. *)
Lemma write_pdf_finds objects k object :
  (N.of_nat (length (write_pdf objects)) < 10 ^ 10)%N → objects !! k = Some object →
  finds (write_pdf objects) (S k) object.
Proof.
  intros Hlen Hk. destruct (write_objects_spec 0 objects pdf_header) as (_ & Hl & Ho).
  pose proof (write_pdf_layout objects) as Hlayout.
  destruct (write_objects 0 objects pdf_header) as [output offsets]. cbn [fst snd] in *.
  destruct Hlayout as [(front & Hfront) (trailer & Htrailer)].
  assert (length output ≤ length (write_pdf objects)) as Hout by (rewrite Htrailer, length_app; lia).
  assert (Forall (λ o, N.of_nat o < 10 ^ 10)%N offsets) as Hbounds.
  { apply Forall_lookup. intros j o Hj.
    destruct (lookup_lt_is_Some_2 objects j) as [object' Hj'].
    { rewrite <-Hl. by eapply lookup_lt_Some. }
    destruct (Ho j object' Hj') as (o' & ? & Ho' & Hle' & _).
    assert (o' = o) as -> by congruence. lia. }
  destruct (Ho k object Hk) as (offset & m & Hoff & Hle & Hd).
  assert (N.of_nat offset < 10 ^ 10)%N as Hoffset by exact (Forall_lookup_1 _ _ _ _ Hbounds Hoff).
  assert (∃ more, write_pdf objects = output ++ more) as (more & Hmore) by (by eexists).
  assert (reverse (write_pdf objects) = reverse (newline ++ lit "%%EOF" ++ newline) ++
    reverse (show_nat (length output)) ++ 10%N ::
    reverse (front ++ lit "/Root 1 0 R >>" ++ newline ++ lit "startxref")) as Hrev.
  { rewrite Hfront, !reverse_app, <-!app_assoc. reflexivity. }
  unfold finds, find_object. rewrite Hrev.
  rewrite (proj2 (strip_prefix_spec _ _ _) eq_refl). cbn [mbind option_bind].
  rewrite reverse_digits_stop by (unfold show_nat; apply show_N_digits). cbn [mbind option_bind].
  rewrite reverse_involutive. change (show_nat (length output)) with (show_N (N.of_nat (length output))). rewrite parse_show by lia.
  cbn [mbind option_bind]. rewrite Nat2N.id.
  assert (Htable := f_equal (drop (length output)) Htrailer). rewrite drop_app_length in Htable. rewrite Htable.
  rewrite prefix_stripped. cbn [mbind option_bind].
  rewrite split_once_at_app; [|unfold show_nat; eapply Forall_impl; [apply show_N_digits|]|done].
  2: { intros c Hc. apply N.eqb_neq. intros <-. discriminate Hc. }
  cbn [mbind option_bind].
  replace (20 * S k) with (length (lit "0000000000 65535 f " ++ newline) + 20 * k) by (simpl; lia).
  rewrite <-drop_drop, drop_app_length, (xref_entries_nth _ _ offset) by done.
  assert (take 10 (xref_entry offset) = pad10 offset ∧ drop 10 (xref_entry offset) = lit " 00000 n " ++ newline)
    as [-> ->].
  { unfold xref_entry. pose proof (pad10_length offset Hoffset) as H10. split.
    - by rewrite take_app_length'.
    - by rewrite drop_app_length'. }
  rewrite parse_pad10 by lia. cbn [mbind option_bind].
  rewrite bool_decide_true by done. rewrite Nat2N.id, Hmore, drop_app_le, Hd by done.
  unfold written_object. rewrite Nat.add_1_r. change (0 + k) with k.
  exists (m ++ more). apply strip_prefix_spec. by rewrite <-!app_assoc.
Qed.

(** ** The objects of a file *)

Lemma set_object_ok {E} i object objects :
  i < length objects → set_object (E := E) i object objects = Ok (<[i := object]> objects).
Proof. intros H. unfold set_object. by rewrite (proj2 (Nat.ltb_lt _ _) H). Qed.

Lemma set_pages_spec {E} index pages objects :
  length objects = 5 + (index + length pages) * 2 →
  ∃ objects', set_pages (E := E) index pages objects = Ok objects' ∧
    (∀ j, j < 5 + index * 2 → objects' !! j = objects !! j) ∧
    ∀ i page, pages !! i = Some page →
      objects' !! (5 + (index + i) * 2) = Some (page_object (7 + (index + i) * 2)) ∧
      objects' !! (6 + (index + i) * 2) = Some (stream_object (utf8_encode page)).
Proof.
  revert index objects. induction pages as [|content pages IH]; intros index objects Hl;
    cbn [set_pages]; [by exists objects|].
  cbn [length] in Hl. rewrite set_object_ok by lia. cbn [mbind outcome_bind].
  rewrite set_object_ok by (rewrite length_insert; lia). cbn [mbind outcome_bind].
  set (o1 := <[_ := _]> (<[_ := _]> objects)).
  destruct (IH (S index) o1) as (objects' & -> & Hold & Hnew);
    [unfold o1; rewrite !length_insert; lia|].
  exists objects'. split_and!; [done| |].
  - intros j Hj. rewrite Hold by lia. unfold o1. rewrite !list_lookup_insert_ne by lia. done.
  - intros [|i] page Hi.
    + injection Hi as ->. rewrite !Nat.add_0_r, !Hold by lia. unfold o1. split.
      * rewrite list_lookup_insert_ne by lia.
        replace (6 + index * 2 - 1) with (5 + index * 2) by lia.
        rewrite list_lookup_insert_eq by lia. do 2 f_equal. lia.
      * replace (6 + index * 2 + 1 - 1) with (6 + index * 2) by lia.
        apply list_lookup_insert_eq. rewrite length_insert. lia.
    + rewrite <-Nat.add_succ_comm. by apply Hnew.
Qed.

Lemma pdf_objects_spec {E} pages :
  ∃ objects, pdf_objects (E := E) pages = Ok objects ∧
    objects !! 0 = Some catalog_object ∧ objects !! 1 = Some (pages_object (length pages)) ∧
    objects !! 2 = Some type0_font_object ∧ objects !! 3 = Some cid_font_object ∧
    objects !! 4 = Some ascii_font_object ∧
    ∀ i page, pages !! i = Some page →
      objects !! (5 + i * 2) = Some (page_object (7 + i * 2)) ∧
      objects !! (6 + i * 2) = Some (stream_object (utf8_encode page)).
Proof.
  unfold pdf_objects.
  do 5 (rewrite set_object_ok by (rewrite ?length_insert, length_replicate; lia); cbn [mbind outcome_bind]).
  match goal with |- context [set_pages 0 pages ?o] => destruct (set_pages_spec (E := E) 0 pages o)
    as (objects & -> & Hold & Hnew) end.
  { rewrite !length_insert, length_replicate. lia. }
  exists objects. split_and!; [done|..|exact Hnew]; rewrite Hold by lia; reflexivity.
Qed.

(** ** The pages of a file *)

Lemma parse_digits_decimal max acc ds m :
  parse_digits max acc ds = Some m → foldl (λ n c, n * 10 + (c - 48))%N acc ds = m.
Proof.
  revert acc. induction ds as [|c ds IH]; intros acc; cbn [parse_digits foldl]; [by intros [= ->]|].
  intros H. apply IH. by repeat case_match.
Qed.

Lemma show_nat_digits n :
  show_nat n ≠ [] ∧ Forall (λ c, is_digit c = true) (show_nat n) ∧ N.to_nat (decimal (show_nat n)) = n.
Proof.
  unfold show_nat. destruct (digits_show (N.of_nat n) (N.of_nat n)) as (ds & -> & Hne & Hds & Hp); [lia|].
  split_and!; [done..|]. unfold decimal. apply parse_digits_decimal in Hp. rewrite Hp. lia.
Qed.

Lemma number_show n rest : number (show_nat n ++ 32%N :: rest) = Some (n, rest).
Proof.
  destruct (show_nat_digits n) as (Hne & Hds & Hn). unfold number. rewrite split_once_at_app; [| |done].
  2: { eapply Forall_impl; [exact Hds|]. intros c Hc. apply N.eqb_neq. intros <-. discriminate Hc. }
  cbn [mbind option_bind]. rewrite bool_decide_false by done.
  assert (forallb is_digit (show_nat n) = true) as ->; [|by rewrite Hn].
  apply forallb_forall. intros c Hc. rewrite Forall_forall in Hds. apply Hds. by apply list_elem_of_In.
Qed.

Lemma reference_show n rest : reference (show_nat n ++ lit " 0 R" ++ rest) = Some (n, rest).
Proof.
  unfold reference. change (lit " 0 R" ++ rest) with (32%N :: lit "0 R" ++ rest).
  rewrite number_show. cbn [mbind option_bind]. by rewrite prefix_stripped.
Qed.

Lemma references_show ns fuel rest :
  ns ≠ [] → length ns ≤ fuel →
  references fuel (join (lit " ") ((λ n, show_nat n ++ lit " 0 R") <$> ns) ++ 93%N :: rest) = Some (ns, rest).
Proof.
  intros Hne. revert fuel. induction ns as [|n [|n' ns] IH]; intros fuel Hf; [done|..];
    (destruct fuel as [|fuel]; [simpl in Hf; lia|]); cbn [references fmap list_fmap].
  - cbn [join mbind list_bind]. rewrite app_nil_r, <-!app_assoc, reference_show. done.
  - assert (∀ (x y : text) l, join (lit " ") (x :: y :: l) = x ++ 32%N :: join (lit " ") (y :: l)) as Hj by done.
    rewrite Hj, <-!app_assoc, reference_show. cbn [mbind option_bind app].
    change ((32 =? 93)%N) with false. change ((32 =? 32)%N) with true. cbv iota.
    specialize (IH ltac:(done) fuel ltac:(simpl in *; lia)). cbn [fmap list_fmap] in IH. by rewrite IH.
Qed.

Lemma found file n object : finds file n object → ∃ rest, find_object file n = Some (object ++ rest).
Proof. intros (rest & H). by eexists. Qed.

Lemma root_number_written objects : root_number (write_pdf objects) = Some 1.
Proof.
  pose proof (write_pdf_layout objects) as Hlayout.
  destruct (write_objects 0 objects pdf_header) as [output offsets].
  destruct Hlayout as [(front & Hfront) _].
  assert (reverse (write_pdf objects) = reverse (newline ++ lit "%%EOF" ++ newline) ++
    reverse (show_nat (length output)) ++ 10%N :: reverse (lit " 0 R >>" ++ newline ++ lit "startxref") ++
    reverse (show_nat 1) ++ 32%N :: reverse (lit "/Root") ++ reverse front) as Hrev.
  { rewrite Hfront, !reverse_app, <-!app_assoc. reflexivity. }
  unfold root_number. rewrite Hrev, prefix_stripped. cbn [mbind option_bind].
  rewrite reverse_digits_stop by apply show_nat_digits. cbn [mbind option_bind].
  rewrite prefix_stripped. cbn [mbind option_bind].
  rewrite split_once_at_app; [|by repeat constructor|done]. cbn [mbind option_bind].
  by rewrite prefix_stripped.
Qed.

Lemma is_font_found file n object rest :
  find_object file n = Some (object ++ rest) → is_Some (strip_prefix (lit "<< /Type /Font ") (object ++ rest)) →
  is_font file n = Some ().
Proof. unfold is_font. intros -> [t Ht]. cbn [mbind option_bind]. by rewrite Ht. Qed.

Lemma stream_entry content rest :
  ∃ t, entry "/Length " (stream_object content ++ rest) = Some (show_nat (length content) ++ 32%N :: t) ∧
    strip_prefix (lit ">>" ++ newline ++ lit "stream" ++ newline) t = Some (content ++ lit "endstream" ++ rest).
Proof.
  eexists. split.
  - transitivity (Some ((show_nat (length content) ++ lit " >>" ++ newline ++ lit "stream" ++ newline ++
      content ++ lit "endstream") ++ rest)); [reflexivity|]. by rewrite <-!app_assoc.
  - reflexivity.
Qed.

(** A page whose objects are found is read. *)
Lemma read_page_found file page content :
  finds file 3 type0_font_object → finds file 5 ascii_font_object →
  finds file page (page_object (S page)) → finds file (S page) (stream_object content) →
  read_page file 2 page = Some content.
Proof.
  intros (r3 & H3)%found (r5 & H5)%found (rp & Hp)%found (rc & Hc)%found.
  assert (named_object "/Contents " (page_object (S page) ++ rp) = Some (S page)) as Hcontent.
  { unfold named_object.
    assert (entry "/Contents " (page_object (S page) ++ rp) = Some ((show_nat (S page) ++ lit " 0 R >>") ++ rp))
      as -> by reflexivity.
    cbn [mbind option_bind]. rewrite <-app_assoc.
    change (lit " 0 R >>" ++ rp) with (lit " 0 R" ++ lit " >>" ++ rp). by rewrite reference_show. }
  assert (is_Some (strip_prefix (lit "<< /Type /Page ") (page_object (S page) ++ rp))) as [t Ht] by by eexists.
  assert (named_object "/Parent " (page_object (S page) ++ rp) = Some 2) as Hparent by reflexivity.
  assert (named_object "/F1 " (page_object (S page) ++ rp) = Some 3) as Hf1 by reflexivity.
  assert (named_object "/F2 " (page_object (S page) ++ rp) = Some 5) as Hf2 by reflexivity.
  destruct (stream_entry content rc) as (u & Hu & Hstream).
  unfold read_page. rewrite Hp. cbn [mbind option_bind]. rewrite Ht, Hparent, Hf1, Hf2, Hcontent.
  cbn [mbind option_bind]. rewrite (is_font_found _ _ _ _ H3), (is_font_found _ _ _ _ H5) by by eexists.
  cbn [mbind option_bind]. rewrite Hc. cbn [mbind option_bind]. rewrite Hu. cbn [mbind option_bind]. rewrite number_show.
  cbn [mbind option_bind]. rewrite Hstream. cbn [mbind option_bind].
  rewrite drop_app_length, prefix_stripped. cbn [mbind option_bind].
  rewrite !bool_decide_true by (done || (rewrite length_app; lia)). by rewrite take_app_length.
Qed.

Lemma join_length (separator : bytes) parts :
  Forall (λ p, p ≠ []) parts → length parts ≤ length (join separator parts).
Proof.
  destruct 1 as [|p parts Hp Hparts]; [done|]. cbn [join length]. rewrite length_app.
  assert (1 ≤ length p) by (destruct p; [done|simpl; lia]).
  assert (length parts ≤ length (parts ≫= λ p, separator ++ p)); [|lia]. clear Hp.
  induction Hparts as [|q parts Hq _ IH]; [done|]. rewrite bind_cons, !length_app. cbn [length].
  assert (1 ≤ length q) by (destruct q; [done|simpl; lia]). lia.
Qed.

(** A file whose objects are found is read. *)
Lemma read_pages_found file (pages : list bytes) :
  pages ≠ [] → root_number file = Some 1 → finds file 1 catalog_object → finds file 2 (pages_object (length pages)) →
  (∀ i page, pages !! i = Some page → read_page file 2 (6 + i * 2) = Some page) →
  read_pages file = Some pages.
Proof.
  intros Hne Hroot (r1 & H1)%found (r2 & H2)%found Hpages.
  set (kids := (λ i, 6 + i * 2) <$> seq 0 (length pages)).
  assert (length kids = length pages) as Hkids by by unfold kids; rewrite length_fmap, length_seq.
  assert (kids ≠ []) as Hkids' by (intros E; rewrite E in Hkids; by destruct pages).
  assert (is_Some (strip_prefix (lit "<< /Type /Catalog ") (catalog_object ++ r1))) as [t1 Ht1] by by eexists.
  assert (named_object "/Pages " (catalog_object ++ r1) = Some 2) as Htree by reflexivity.
  assert (is_Some (strip_prefix (lit "<< /Type /Pages ") (pages_object (length pages) ++ r2))) as [t2 Ht2]
    by by eexists.
  set (rest := lit " /Count " ++ show_nat (length pages) ++ 32%N :: lit ">>" ++ r2).
  assert (entry "/Kids [" (pages_object (length pages) ++ r2) =
    Some (join (lit " ") ((λ n, show_nat n ++ lit " 0 R") <$> kids) ++ 93%N :: rest)) as Hentry.
  { transitivity (Some ((join (lit " ") ((λ index, show_nat (6 + index * 2) ++ lit " 0 R") <$> seq 0 (length pages)) ++
      lit "] /Count " ++ show_nat (length pages) ++ lit " >>") ++ r2)); [reflexivity|].
    unfold kids. rewrite <-list_fmap_compose, <-!app_assoc. reflexivity. }
  unfold read_pages. rewrite Hroot. cbn [mbind option_bind]. rewrite H1. cbn [mbind option_bind].
  rewrite Ht1, Htree. cbn [mbind option_bind]. rewrite H2. cbn [mbind option_bind]. rewrite Ht2, Hentry.
  cbn [mbind option_bind]. rewrite references_show; [|done|].
  2: { rewrite Hkids. unfold pages_object. rewrite !length_app.
       pose proof (join_length (lit " ") ((λ i, show_nat (6 + i * 2) ++ lit " 0 R") <$> seq 0 (length pages))) as Hj.
       rewrite length_fmap, length_seq in Hj. etransitivity; [apply Hj|lia].
       apply Forall_fmap, Forall_true. intros i. by intros [_ ?]%app_eq_nil. }
  cbn [mbind option_bind]. unfold rest. rewrite prefix_stripped. cbn [mbind option_bind].
  rewrite number_show. cbn [mbind option_bind]. rewrite bool_decide_true by done.
  apply mapM_Some. apply Forall2_lookup. intros i. unfold kids. rewrite list_lookup_fmap.
  destruct (pages !! i) as [page|] eqn:E.
  - rewrite (lookup_seq_lt _ _ _ (lookup_lt_Some _ _ _ E)). constructor. by apply Hpages.
  - apply lookup_ge_None in E. rewrite lookup_seq_ge by done. constructor.
Qed.

(** The export *)

(** ** The export *)

(** Images that are their own size and pixels, and no vector images. *)
#[export] Instance demo_pdf : PdfLib := {|
  Image := N * N * bytes;
  load_from_memory b := match b with w :: h :: rest => Some (w, h, rest) | _ => None end;
  image_width := λ '(w, _, _), w;
  image_height := λ '(_, h, _), h;
  thumbnail := λ '(_, _, b) w h, (w, h, b);
  to_rgb8 := λ '(w, h, b), (w, h, b);
  Svg := False;
  svg_from_data _ := None;
  svg_width s := match s with end;
  svg_height s := match s with end;
  svg_render s := match s with end
|}.

(** C30: The PDF export never panics, and a reader that goes from the end of the file to the
    table of offsets and from there to an object finds each of them: the catalog, the page
    tree with the number of the pages, the fonts that the pages name, and for every page laid
    out its dictionary, which names its content, and the stream with its commands.  So a
    reader that follows the references, from the root to the tree of pages, its kids, their
    fonts and their contents, and that takes of a stream the length it states, reads the
    commands of the pages laid out, in order.  The file is shorter than 10^10 bytes, the limit
    of its table. *)
Theorem pdf_reader_finds_pages `{PdfLib} input :
  let pages := layout_pdf_pages (document_lines (source input)) (assets input) in
  pages ≠ [] ∧
  ∃ file, render_pdf input = Ok file ∧
    ((N.of_nat (length file) < 10 ^ 10)%N →
     read_pages file = Some (utf8_encode <$> pages) ∧
     finds file 1 catalog_object ∧ finds file 2 (pages_object (length pages)) ∧
     finds file 3 type0_font_object ∧ finds file 4 cid_font_object ∧ finds file 5 ascii_font_object ∧
     ∀ i page, pages !! i = Some page →
       finds file (6 + i * 2) (page_object (7 + i * 2)) ∧
       finds file (7 + i * 2) (stream_object (utf8_encode page))).
Proof.
  intros pages. assert (pages ≠ []) as Hne by by intros [_ ?]%app_eq_nil. split; [done|].
  destruct (pdf_objects_spec (E := text) pages) as (objects & Ho & H0 & H1 & H2 & H3 & H4 & Hp).
  exists (write_pdf objects). split; [unfold render_pdf; fold pages; by rewrite Ho|].
  intros Hlen. assert (∀ k object, objects !! k = Some object → finds (write_pdf objects) (S k) object) as Hf
    by (intros; by apply write_pdf_finds).
  split.
  - apply read_pages_found; [by destruct pages|apply root_number_written|by apply Hf|rewrite length_fmap; by apply Hf|].
    intros i content Hi. apply list_lookup_fmap_Some in Hi as (page & -> & Hi). destruct (Hp i page Hi).
    apply read_page_found; by apply Hf.
  - split_and!; [by apply Hf..|]. intros i page Hi. destruct (Hp i page Hi). split; by apply Hf.
Qed.

Lemma pdf_reader_finds_pages_witness :
  let input := {| title := []; source := lit "# A (b)" ++ [10; 20320]%N; assets := [];
                  theme := {| dark := false; background := 0; foreground := 0; border := 0; muted := 0;
                              accent := 0 |}%N |} in
  ∃ file, render_pdf input = Ok file ∧ finds file 2 (pages_object 1) ∧ length <$> read_pages file = Some 1.
Proof.
  intros input. destruct (pdf_reader_finds_pages input) as (_ & file & Hf & H).
  exists file. split; [exact Hf|].
  assert (length (layout_pdf_pages (document_lines (source input)) (assets input)) = 1) as E
    by (vm_compute; reflexivity).
  destruct H as (Hr & _ & H & _); [|rewrite E in H; split; [exact H|rewrite Hr; rewrite <-E at 1; f_equal; apply length_fmap]].
  vm_compute in Hf. injection Hf as <-. vm_compute. reflexivity.
Defined.

(** ** Exporting notes: the text of a PDF reads back *)

(** ** A reader of shown text *)

(** A literal string up to its parenthesis; a backslash escapes one of the three. *)
Fixpoint read_literal (escaped : bool) (t : text) : option (text * text) :=
  match t with
  | [] => None
  | c :: rest =>
      if escaped then
        if (c =? 40)%N || (c =? 41)%N || (c =? 92)%N
        then '(s, rest) ← read_literal false rest; Some (c :: s, rest) else None
      else if (c =? 92)%N then read_literal true rest
      else if (c =? 41)%N then Some ([], rest)
      else if (c =? 40)%N then None
      else '(s, rest) ← read_literal false rest; Some (c :: s, rest)
  end.

Definition hex_value (c : N) : option N :=
  if (48 <=? c)%N && (c <=? 57)%N then Some (c - 48)%N
  else if (65 <=? c)%N && (c <=? 70)%N then Some (c - 55)%N else None.

(** The units of a hexadecimal string up to its bracket. *)
Fixpoint read_units (t : text) : option (list N * text) :=
  match t with
  | [] => None
  | c1 :: rest1 =>
      if (c1 =? 62)%N then Some ([], rest1)
      else match rest1 with
      | c2 :: c3 :: c4 :: rest =>
          h1 ← hex_value c1; h2 ← hex_value c2; h3 ← hex_value c3; h4 ← hex_value c4;
          '(units, rest) ← read_units rest;
          Some ((h1 * 4096 + h2 * 256 + h3 * 16 + h4)%N :: units, rest)
      | _ => None
      end
  end.

Definition opens_string (c : N) : bool := (c =? 40)%N || (c =? 60)%N.

(** The text that [fuel] commands show: literals in the second font, hexadecimal strings in
    the first. *)
Fixpoint read_commands (fuel : nat) (t : text) : option text :=
  match fuel, t with
  | _, [] => Some []
  | O, _ => None
  | S fuel, _ =>
      '(s, rest) ←
        match trim_start_matches (λ c, negb (opens_string c)) t with
        | c :: rest =>
            if (c =? 40)%N then if starts_with (lit "BT /F2 ") t then read_literal false rest else None
            else if starts_with (lit "BT /F1 ") t then
              '(units, rest) ← read_units rest; s ← decode_utf16 units; Some (s, rest)
            else None
        | [] => None
        end;
      rest ← strip_prefix (lit " Tj ET" ++ newline) rest;
      app s <$> read_commands fuel rest
  end.

(** What is shown of a character: tabs are four spaces, other ASCII controls nothing. *)
Definition shown_char (c : N) : text :=
  if is_ascii c then
    if (c =? 9)%N then lit "    " else if is_control c then [] else [c]
  else [c].

Definition shown (t : text) : text := t ≫= shown_char.

(** ** Strings *)

Lemma read_literal_plain c rest s tail :
  ((c =? 40) || (c =? 41) || (c =? 92))%N = false → read_literal false rest = Some (s, tail) →
  read_literal false (c :: rest) = Some (c :: s, tail).
Proof.
  rewrite !orb_false_iff. intros [[H1 H2] H3] Hr. cbn [read_literal]. by rewrite H1, H2, H3, Hr.
Qed.

Lemma read_literal_escaped c rest s tail :
  ((c =? 40) || (c =? 41) || (c =? 92))%N = true → read_literal false rest = Some (s, tail) →
  read_literal false (92%N :: c :: rest) = Some (c :: s, tail).
Proof. intros Hc Hr. cbn [read_literal]. rewrite Hc. cbn. by rewrite Hr. Qed.

Lemma read_literal_char c rest s tail :
  read_literal false rest = Some (s, tail) → is_ascii c = true →
  read_literal false (pdf_literal [c] ++ rest) = Some (shown_char c ++ s, tail).
Proof.
  intros Hr Ha. unfold pdf_literal, shown_char. rewrite Ha. cbn [filter list_filter].
  destruct (N.eqb_spec c 9) as [->|H9].
  { rewrite decide_True by tauto. by apply (read_literal_plain 32), (read_literal_plain 32),
      (read_literal_plain 32), (read_literal_plain 32). }
  destruct (is_control c) eqn:Hc; [by rewrite decide_False by naive_solver|].
  rewrite decide_True by tauto. rewrite bind_cons, app_nil_r. unfold pdf_literal_char.
  destruct (N.eqb_spec c 40) as [->|H1]; [by apply (read_literal_escaped 40)|].
  destruct (N.eqb_spec c 41) as [->|H2]; [by apply (read_literal_escaped 41)|].
  destruct (N.eqb_spec c 92) as [->|H3]; [by apply (read_literal_escaped 92)|].
  rewrite (proj2 (N.eqb_neq c 9)) by done. apply read_literal_plain; [|done].
  rewrite !orb_false_iff, !N.eqb_neq. done.
Qed.

Lemma pdf_literal_cons c t : pdf_literal (c :: t) = pdf_literal [c] ++ pdf_literal t.
Proof.
  unfold pdf_literal. rewrite <-bind_app, <-filter_app. done.
Qed.

Lemma read_literal_text t tail :
  Forall (λ c, is_ascii c = true) t →
  read_literal false (pdf_literal t ++ 41%N :: tail) = Some (shown t, tail).
Proof.
  induction 1 as [|c t Hc _ IH]; [done|].
  rewrite pdf_literal_cons, <-app_assoc. by apply read_literal_char.
Qed.

Lemma hex_value_digit n : (n < 16)%N → hex_value (hex_digit n) = Some n.
Proof.
  intros Hn. rewrite <-(N2Nat.id n) in *. generalize dependent (N.to_nat n). intros k Hk.
  do 16 (destruct k as [|k]; [done|]). lia.
Qed.

Lemma read_units_hex4 u rest units tail :
  (u < 65536)%N → read_units rest = Some (units, tail) →
  read_units (hex4 u ++ rest) = Some (u :: units, tail).
Proof.
  intros Hu Hr. unfold hex4. cbn [app read_units].
  assert (∀ n, (n < 16)%N → (hex_digit n =? 62)%N = false) as H62.
  { intros n Hn. apply N.eqb_neq. unfold hex_digit. case_match eqn:E;
      [apply N.ltb_lt in E|apply N.ltb_ge in E]; lia. }
  pose proof (N.mod_upper_bound (u / 256) 16 ltac:(done)).
  pose proof (N.mod_upper_bound (u / 16) 16 ltac:(done)).
  pose proof (N.mod_upper_bound u 16 ltac:(done)).
  assert (u / 4096 < 16)%N by (apply N.Div0.div_lt_upper_bound; lia).
  rewrite H62 by done. rewrite !hex_value_digit by done. cbn [mbind option_bind].
  rewrite Hr. cbn [mbind option_bind]. do 3 f_equal.
  pose proof (N.div_mod u 16 ltac:(done)). pose proof (N.div_mod (u / 16) 16 ltac:(done)).
  pose proof (N.div_mod (u / 256) 16 ltac:(done)).
  assert (u / 16 / 16 = u / 256)%N by by rewrite N.Div0.div_div.
  assert (u / 256 / 16 = u / 4096)%N by by rewrite N.Div0.div_div.
  lia.
Qed.

Lemma read_units_text t tail :
  Forall is_scalar t →
  ∃ units, read_units (utf16be_hex t ++ 62%N :: tail) = Some (units, tail) ∧ decode_utf16 units = Some t.
Proof.
  induction 1 as [|c t Hc _ (units & Hu & Hd)]; [by exists []|].
  exists (utf16_units c ++ units). split; [|by apply decode_utf16_char].
  unfold utf16be_hex. rewrite bind_cons. fold (utf16be_hex t). rewrite <-app_assoc.
  pose proof (utf16_units_bound c Hc) as Hb. induction Hb as [|u us Hub _ IH]; [done|].
  rewrite bind_cons, <-app_assoc. by apply read_units_hex4.
Qed.

(** ** Commands *)

Definition before_string (t : text) : Prop := Forall (λ c, opens_string c = false) t.

Lemma number_before n : before_string (show_N n).
Proof.
  eapply Forall_impl; [apply (show_N_digits n)|]. intros c Hc. unfold opens_string.
  apply orb_false_iff. split; apply N.eqb_neq; intros ->; discriminate Hc.
Qed.

Lemma show1_before x : before_string (show1 x).
Proof.
  assert (∀ n, before_string (show_tenths n)) as Ht.
  { intros n. apply Forall_app. split; [apply number_before|].
    apply Forall_app. split; [by repeat constructor|apply number_before]. }
  assert (∀ s : bool, before_string (if s then [45%N] else [])) as Hs by (intros []; by repeat constructor).
  unfold show1. destruct x as [s|s| |s m e].
  - apply Forall_app. split; [apply Hs|apply Ht].
  - apply Forall_app. split; [apply Hs|by repeat constructor].
  - by repeat constructor.
  - destruct (quotient _ _) as [[q r] d]. apply Forall_app. split; [apply Hs|apply Ht].
Qed.

Lemma skip_before t rest :
  before_string t → trim_start_matches (λ c, negb (opens_string c)) (t ++ rest) =
                    trim_start_matches (λ c, negb (opens_string c)) rest.
Proof. induction 1 as [|c t Hc _ IH]; simpl; [done|]. by rewrite Hc. Qed.

Lemma starts_with_own p t : starts_with p (p ++ t) = true.
Proof. unfold starts_with. by rewrite prefix_stripped. Qed.

(** The command of a run shows its characters. *)
Lemma flush_run_reads fuel size y run ascii x rest t :
  run ≠ [] → Forall is_scalar run → Forall (λ c, is_ascii c = ascii) run →
  read_commands fuel rest = Some t →
  read_commands (S fuel) ((flush_run size y run ascii x).1 ++ rest) = Some (shown run ++ t).
Proof.
  intros Hne Hs Ha Hr. unfold flush_run. rewrite bool_decide_false by done. cbn [fst].
  set (numbers := show1 size ++ lit " Tf 0.12 0.12 0.12 rg 1 0 0 1 " ++ show1 x ++ lit " " ++ show1 y ++ lit " Tm ").
  assert (before_string numbers) as Hn.
  { unfold numbers, before_string. rewrite !Forall_app. split_and!; try apply show1_before; by repeat constructor. }
  assert (∀ head string s, before_string head → opens_string (hd 0%N string) = true →
    (if (hd 0%N string =? 40)%N then if starts_with (lit "BT /F2 ") (head ++ numbers ++ string) then
         read_literal false (tl string) else None
     else if starts_with (lit "BT /F1 ") (head ++ numbers ++ string) then
       '(units, rest) ← read_units (tl string); s ← decode_utf16 units; Some (s, rest)
     else None) = Some (s, (lit " Tj ET" ++ newline) ++ rest) →
    read_commands (S fuel) (head ++ numbers ++ string) = Some (s ++ t)) as Hread.
  { intros head string s Hh Ho Hstring. destruct string as [|c string]; [done|]. cbn [hd tl] in *.
    cbn [read_commands]. rewrite !skip_before by done. cbn [trim_start_matches]. rewrite Ho. cbn [negb].
    rewrite Hstring. cbn [mbind option_bind]. rewrite prefix_stripped. cbn [mbind option_bind].
    rewrite Hr. destruct head, numbers; done. }
  destruct ascii.
  - replace (_ ++ rest) with (lit "BT /F2 " ++ numbers ++ 40%N :: pdf_literal run ++ 41%N ::
      (lit " Tj ET" ++ newline) ++ rest) by (unfold numbers; rewrite <-!app_assoc; reflexivity).
    apply Hread; [by repeat constructor|done|]. cbn [hd tl]. cbn [N.eqb Pos.eqb].
    rewrite starts_with_own. by apply read_literal_text.
  - replace (_ ++ rest) with (lit "BT /F1 " ++ numbers ++ 60%N :: utf16be_hex run ++ 62%N ::
      (lit " Tj ET" ++ newline) ++ rest) by (unfold numbers; rewrite <-!app_assoc; reflexivity).
    apply Hread; [by repeat constructor|done|]. cbn [hd tl]. cbn [N.eqb Pos.eqb].
    rewrite starts_with_own. destruct (read_units_text run ((lit " Tj ET" ++ newline) ++ rest) Hs)
      as (units & -> & Hd). cbn [mbind option_bind]. rewrite Hd. cbn [mbind option_bind].
    do 3 f_equal. clear -Ha. unfold shown. induction Ha as [|c run Hc _ IH]; [done|].
    rewrite bind_cons, <-IH. unfold shown_char. by rewrite Hc.
Qed.

(** ** Lines *)

Lemma reverse_ne (run : text) : run ≠ [] → reverse run ≠ [].
Proof. intros Hne H. apply Hne. by rewrite <-(reverse_involutive run), H. Qed.

Lemma text_runs_read fuel size y ascii run x t :
  length run + length t < fuel → Forall is_scalar run → Forall is_scalar t →
  match ascii with Some a => run ≠ [] ∧ Forall (λ c, is_ascii c = a) run | None => run = [] end →
  read_commands fuel (text_runs size y ascii run x t) = Some (shown (reverse run ++ t)).
Proof.
  revert fuel ascii run x. induction t as [|c t IH]; intros fuel ascii run x Hfuel Hrun Ht Hascii.
  - rewrite app_nil_r. cbn [text_runs]. destruct ascii as [a|]; [|subst; by destruct fuel].
    destruct Hascii as [Hne Ha]. destruct fuel as [|fuel]; [lia|].
    rewrite <-(app_nil_r (flush_run _ _ _ _ _).1), <-(app_nil_r (shown _)).
    apply flush_run_reads; [by apply reverse_ne|..].
    all: try by rewrite ?Forall_reverse. by destruct fuel.
  - apply Forall_cons in Ht as [Hc Ht]. cbn [text_runs].
    assert (∀ a x', is_ascii c = a → (run = [] ∨ Forall (λ c, is_ascii c = a) run) →
      read_commands fuel (text_runs size y (Some a) (c :: run) x' t) = Some (shown (reverse run ++ c :: t))) as Hsame.
    { intros a x' Hca Ha. rewrite (IH fuel); [by rewrite reverse_cons, <-app_assoc|simpl in *; lia|by constructor|done|].
      split; [done|]. constructor; [done|]. by destruct Ha as [->|]. }
    destruct ascii as [a|]; [|apply Hsame; [done|by left]]. destruct Hascii as [Hne Ha].
    destruct (eqb a (is_ascii c)) eqn:E.
    + apply eqb_prop in E. apply Hsame; [done|right]. by rewrite <-E.
    + pose proof (flush_run_reads (pred fuel) size y (reverse run) a x
        (text_runs size y (Some (is_ascii c)) [c] (flush_run size y (reverse run) a x).2 t) (shown (c :: t))) as Hf.
      destruct (flush_run size y (reverse run) a x) as [out x']. cbn [fst snd] in Hf.
      destruct fuel as [|fuel]; [lia|]. cbn [pred] in Hf. rewrite Hf; clear Hf.
      * unfold shown. by rewrite bind_app.
      * by apply reverse_ne.
      * by rewrite Forall_reverse.
      * by rewrite Forall_reverse.
      * destruct run; [done|]. simpl in Hfuel. rewrite (IH fuel); [done|simpl; lia|by constructor|done|].
        split; [done|]. by constructor.
Qed.

Lemma wrap_from_join size max_width current width t :
  mjoin (wrap_from size max_width current width t) = reverse current ++ t.
Proof.
  revert current width. induction t as [|c t IH]; intros current width; cbn [wrap_from].
  - destruct current; cbn; by rewrite ?app_nil_r.
  - destruct (_ && _).
    + change (reverse current ++ mjoin (wrap_from size max_width [c] (add f32 (pt 0) (char_width size c)) t)
              = reverse current ++ c :: t). by rewrite IH.
    + rewrite IH, reverse_cons, <-app_assoc. done.
Qed.

(** C31: However wide a line may be, its pieces are its characters in order, and a reader of the
    commands that show a piece, which decodes the literals of the one font and the hexadecimal
    strings of the other, gets the piece back: only ASCII controls are left out, and a tab
    becomes four spaces. *)
Theorem pdf_lines_read_back t size max_width
    (Ht : Forall is_scalar t) :
  mjoin (wrap_text t size max_width) = t ∧
  Forall (λ l, ∀ x y fuel, length l < fuel →
            read_commands fuel (pdf_text_commands l size x y) = Some (shown l))
    (wrap_text t size max_width).
Proof.
  assert (mjoin (wrap_text t size max_width) = t) as Hjoin.
  { unfold wrap_text. destruct t as [|c t]; [done|]. apply wrap_from_join. }
  split; [done|]. rewrite <-Hjoin in Ht. induction (wrap_text t size max_width) as [|l ls IH] in Ht |- *; [done|].
  change (mjoin (l :: ls)) with (l ++ mjoin ls) in Ht. apply Forall_app in Ht as [Hl Hls].
  constructor; [|by apply IH]. intros x y fuel Hfuel.
  unfold pdf_text_commands. rewrite (text_runs_read fuel size y None [] x l); done.
Qed.

Lemma pdf_lines_read_back_witness :
  read_commands 10 (pdf_text_commands (lit "a(\b)" ++ [9; 20320; 128512]%N) (pt 11) (pt 54) (pt 788)) =
  Some (lit "a(\b)    " ++ [20320; 128512]%N).
Proof.
  destruct (pdf_lines_read_back (lit "a(\b)" ++ [9; 20320; 128512]%N) (pt 11) (pt 487)) as [_ H].
  { repeat constructor; unfold is_scalar; lia. }
  assert (wrap_text (lit "a(\b)" ++ [9; 20320; 128512]%N) (pt 11) (pt 487) =
          [lit "a(\b)" ++ [9; 20320; 128512]%N]) as E by (vm_compute; reflexivity).
  rewrite E in H. apply Forall_cons in H as [H _]. apply H. simpl. lia.
Defined.
