(* ===== verification/NotesHtml.v ===== *)
(** * Exporting notes: HTML documents, and the three exporters

    [render_html] of notes-document-export-core (src/extensions/wasm): the note rendered by
    the pulldown_cmark crate, which is the parameter [markdown_html], with its images
    written into the page; a reader of a data address decodes them.  Then the guests
    notes-html-exporter, notes-pdf-exporter and notes-word-exporter: each refuses requests
    that are not for it and hands the others to its part of the core. *)

From S2P Require Import Prelude VncClipboard Text TextSearch NotesText NotesLines NotesDocx NotesPdf.

(** ** Exporting notes: HTML documents, and the three exporters *)

(** ** Exporting notes: HTML documents *)

(** ** Colours *)

Definition hex_lower (n : N) : N := if (n <? 10)%N then (48 + n)%N else (87 + n)%N.

(** [format!("#{:06x}", value & 0x00ff_ffff)] *)
Definition css_color (value : N) : text :=
  let v := N.land value 16777215 in
  35%N :: ((λ shift, hex_lower (N.shiftr v shift `mod` 16)) <$> [20; 16; 12; 8; 4; 0]%N).

(** ** Base64 *)

Definition ALPHABET : text :=
  lit "ABCDEFGHIJKLMNOPQRSTUVWXYZabcdefghijklmnopqrstuvwxyz0123456789+/".

Definition alphabet_at (i : N) : N := default 0%N (ALPHABET !! N.to_nat i).

(** The four characters of a chunk of one, two or three bytes. *)
Definition encode_chunk (first second third : N) (length : nat) : text :=
  [alphabet_at (N.land (N.shiftr first 2) 63);
   alphabet_at (N.land (N.lor (N.shiftl first 4) (N.shiftr second 4)) 63);
   if 1 <? length then alphabet_at (N.land (N.lor (N.shiftl second 2) (N.shiftr third 6)) 63)
   else 61%N;
   if 2 <? length then alphabet_at (N.land third 63) else 61%N].

Fixpoint base64 (b : bytes) : text :=
  match b with
  | first :: second :: third :: rest => encode_chunk first second third 3 ++ base64 rest
  | [first; second] => encode_chunk first second 0 2
  | [first] => encode_chunk first 0 0 1
  | [] => []
  end.

Definition append_base64 (output : text) (b : bytes) : text := output ++ base64 b.

(** ** Paths *)

Definition hex_digit (byte : N) : option N :=
  if ((48 <=? byte) && (byte <=? 57))%N then Some (byte - 48)%N
  else if ((97 <=? byte) && (byte <=? 102))%N then Some (byte - 97 + 10)%N
  else if ((65 <=? byte) && (byte <=? 70))%N then Some (byte - 65 + 10)%N
  else None.

(** The loop of [percent_decode]; [skip] bytes are part of an escape already decoded. *)
Fixpoint percent_bytes (skip : nat) (b : bytes) : bytes :=
  match b with
  | [] => []
  | c :: rest =>
      match skip with
      | S skip => percent_bytes skip rest
      | O =>
          if (c =? 37)%N then
            match rest with
            | high :: low :: _ =>
                match hex_digit high, hex_digit low with
                | Some high, Some low => N.lor (N.shiftl high 4) low :: percent_bytes 2 rest
                | _, _ => c :: percent_bytes 0 rest
                end
            | _ => c :: percent_bytes 0 rest
            end
          else c :: percent_bytes 0 rest
      end
  end.

Definition percent_decode (value : text) : text :=
  default value (utf8_decode (percent_bytes 0 (utf8_encode value))).

(** ** Images *)

(** What is written in the place of the address of an image. *)
Definition inline_source (assets : list ExportAsset) (source : text) : text :=
  let normalized := percent_decode (replace (lit "&amp;") (lit "&") source) in
  match list_find (λ asset, asset_path asset = source ∨ asset_path asset = normalized) assets with
  | Some (_, asset) =>
      append_base64 (lit "data:" ++ media_type asset ++ lit ";base64,") (asset_bytes asset)
  | None => source
  end.

(** The loop of [inline_html_images]: each turn takes a text that is shorter. *)
Fixpoint inline_images_from (fuel : nat) (assets : list ExportAsset) (remaining : text) : text :=
  match fuel with
  | O => remaining
  | S fuel =>
      match split_once (qlit "src=`") remaining with
      | None => remaining
      | Some (before, value) =>
          match split_once_at (N.eqb 34) value with
          | None => remaining
          | Some (source, after) =>
              before ++ qlit "src=`" ++ inline_source assets source ++
              inline_images_from fuel assets (34%N :: after)
          end
      end
  end.

Definition inline_html_images (body : text) (assets : list ExportAsset) : text :=
  inline_images_from (length body) assets body.

(** ** The page *)

Definition escape_html (value : text) : text := escape_xml value.

Definition render_html (markdown_html : text → text) (input : ExportInput) : bytes :=
  let body := inline_html_images (markdown_html (source input)) (assets input) in
  let background := css_color (background (theme input)) in
  let foreground := css_color (foreground (theme input)) in
  let muted := css_color (muted (theme input)) in
  let border := css_color (border (theme input)) in
  let accent := css_color (accent (theme input)) in
  utf8_encode
  (qlit "<!doctype html><html lang=`zh-CN`><head><meta charset=`utf-8`>" ++
   qlit "<meta name=`viewport` content=`width=device-width,initial-scale=1`><title>" ++ escape_html (title input) ++
   qlit "</title><style>:root{color-scheme:" ++ lit (if dark (theme input) then "dark" else "light") ++
   qlit "}*{box-sizing:border-box}body{max-width:900px;margin:0 auto;padding:48px 32px;" ++
   qlit "background:" ++ background ++
   qlit ";color:" ++ foreground ++
   qlit ";" ++
   qlit "font:16px/1.7 -apple-system,BlinkMacSystemFont,`Segoe UI`,`PingFang SC`,`Microsoft YaH" ++
   qlit "ei`,sans-serif}h1,h2,h3,h4,h5,h6{line-height:1.3;margin:1.5em 0 .6em}" ++
   qlit "h1{font-size:2.1em;border-bottom:1px solid " ++ border ++
   qlit ";padding-bottom:.3em}a{color:" ++ accent ++
   qlit "}blockquote{margin:1em 0;padding:.25em 1em;border-left:4px solid " ++ accent ++
   qlit ";color:" ++ muted ++
   qlit "}code{background:color-mix(in srgb," ++ foreground ++
   qlit " 10%,transparent);padding:.15em .35em;border-radius:4px}pre{overflow:auto;" ++
   qlit "padding:16px;border:1px solid " ++ border ++
   qlit ";border-radius:8px}pre code{padding:0;background:none}table{border-collapse:collapse;" ++
   qlit "width:100%}th,td{border:1px solid " ++ border ++
   qlit ";padding:.5em .75em;text-align:left}img{max-width:100%;height:auto}</style></head>" ++
   qlit "<body>" ++ body ++
   qlit "</body></html>").

(** ** Exporting notes: the three exporters *)

Record Request := { exporter : text; request_format : text; document : ExportInput }.

Record Artifact := { artifact_type : text; extension : text; artifact_bytes : bytes }.

Definition unsupported (input : Request) : text :=
  lit "unsupported exporter or format: " ++ exporter input ++ lit "/" ++ request_format input.

(** ** notes-html-exporter *)

Definition html_validate (input : Request) (expected format : text) : outcome text unit :=
  if negb (bool_decide (exporter input = expected)) || negb (bool_decide (request_format input = format))
  then Err (unsupported input) else Ok tt.

Definition html_convert (input : Request) : ExportInput :=
  {| title := title (document input); source := source (document input);
     assets := (λ asset, {| asset_path := asset_path asset; media_type := media_type asset;
                           asset_bytes := asset_bytes asset |}) <$> assets (document input);
     theme := let t := theme (document input) in
              {| dark := dark t; background := background t; foreground := foreground t;
                 border := border t; muted := muted t; accent := accent t |} |}.

Definition html_export_document (markdown_html : text → text) (input : Request) : outcome text Artifact :=
  _ ← html_validate input (lit "notes-html") (lit "html");
  let b := render_html markdown_html (html_convert input) in
  Ok {| artifact_type := lit "text/html";
        extension := lit "html"; artifact_bytes := b |}.

(** ** notes-pdf-exporter *)

Definition pdf_validate (input : Request) (expected format : text) : outcome text unit :=
  if bool_decide (exporter input = expected) && bool_decide (request_format input = format)
  then Ok tt else Err (unsupported input).

Definition pdf_convert (input : Request) : ExportInput :=
  {| title := title (document input); source := source (document input);
     assets := (λ asset, {| asset_path := asset_path asset; media_type := media_type asset;
                           asset_bytes := asset_bytes asset |}) <$> assets (document input);
     theme := let t := theme (document input) in
              {| dark := dark t; background := background t; foreground := foreground t;
                 border := border t; muted := muted t; accent := accent t |} |}.

Definition pdf_export_document `{PdfLib} (input : Request) : outcome text Artifact :=
  _ ← pdf_validate input (lit "notes-pdf") (lit "pdf");
  b ← render_pdf (pdf_convert input);
  Ok {| artifact_type := lit "application/pdf";
        extension := lit "pdf"; artifact_bytes := b |}.

(** ** notes-word-exporter *)

Definition word_validate (input : Request) (expected format : text) : outcome text unit :=
  if bool_decide (exporter input = expected) && bool_decide (request_format input = format)
  then Ok tt else Err (unsupported input).

Definition word_convert (input : Request) : ExportInput :=
  {| title := title (document input); source := source (document input);
     assets := (λ asset, {| asset_path := asset_path asset; media_type := media_type asset;
                           asset_bytes := asset_bytes asset |}) <$> assets (document input);
     theme := let t := theme (document input) in
              {| dark := dark t; background := background t; foreground := foreground t;
                 border := border t; muted := muted t; accent := accent t |} |}.

Definition word_export_document `{DocxLib} (input : Request) : outcome text Artifact :=
  _ ← word_validate input (lit "notes-word") (lit "docx");
  b ← render_docx (word_convert input);
  Ok {| artifact_type := lit "application/vnd.openxmlformats-officedocument" ++ lit ".wordprocessingml.document";
        extension := lit "docx"; artifact_bytes := b |}.

(** The conversion changes nothing. *)
Lemma convert_id input : word_convert input = document input.
Proof.
  destruct input as [e f [t s a [d b fg bo m ac]]]. unfold word_convert. simpl. f_equal.
  rewrite <-(list_fmap_id a) at 2. apply list_fmap_ext. by intros i [].
Qed.

(** ** Exporting notes: the pictures of a page read back *)

(** ** A reader of base64 *)

Definition alphabet_index (c : N) : option N :=
  if (65 <=? c)%N && (c <=? 90)%N then Some (c - 65)%N
  else if (97 <=? c)%N && (c <=? 122)%N then Some (c - 71)%N
  else if (48 <=? c)%N && (c <=? 57)%N then Some (c + 4)%N
  else if (c =? 43)%N then Some 62%N
  else if (c =? 47)%N then Some 63%N
  else None.

(** Groups of four characters; the last may be padded, with zeros for the bits it drops. *)
Fixpoint read_base64 (t : text) : option bytes :=
  match t with
  | [] => Some []
  | c1 :: c2 :: c3 :: c4 :: rest =>
      i1 ← alphabet_index c1; i2 ← alphabet_index c2;
      if (c4 =? 61)%N then
        if negb (bool_decide (rest = [])) then None
        else if (c3 =? 61)%N then
          if (i2 `mod` 16 =? 0)%N then Some [i1 * 4 + i2 / 16]%N else None
        else
          i3 ← alphabet_index c3;
          if (i3 `mod` 4 =? 0)%N then Some [i1 * 4 + i2 / 16; i2 `mod` 16 * 16 + i3 / 4]%N else None
      else
        i3 ← alphabet_index c3; i4 ← alphabet_index c4; b ← read_base64 rest;
        Some ((i1 * 4 + i2 / 16)%N :: (i2 `mod` 16 * 16 + i3 / 4)%N :: (i3 `mod` 4 * 64 + i4)%N :: b)
  | _ => None
  end.

(** The media type and the bytes of a data address. *)
Definition read_data_address (t : text) : option (text * bytes) :=
  rest ← strip_prefix (lit "data:") t;
  '(media_type, data) ← split_once (lit ";base64,") rest;
  b ← read_base64 data;
  Some (media_type, b).

(** ** Base64 *)

Lemma alphabet_index_at i : (i < 64)%N → alphabet_index (alphabet_at i) = Some i ∧ (alphabet_at i =? 61)%N = false.
Proof.
  intros Hi. rewrite <-(N2Nat.id i) in *. generalize dependent (N.to_nat i). intros k Hk.
  do 64 (destruct k as [|k]; [done|]). lia.
Qed.

Lemma land_low a k : N.land a (N.ones k) = (a `mod` 2 ^ k)%N.
Proof. apply N.land_ones. Qed.

Lemma lor_shiftl_add a b k : (b < 2 ^ k)%N → N.lor (N.shiftl a k) b = (a * 2 ^ k + b)%N.
Proof.
  intros Hb. rewrite N.shiftl_mul_pow2.
  assert (N.land (a * 2 ^ k) b = 0%N) as H0.
  { apply N.bits_inj_0. intros n. rewrite N.land_spec. destruct (N.lt_ge_cases n k) as [Hn|Hn].
    - by rewrite N.mul_pow2_bits_low.
    - rewrite <-(N.mod_small b (2 ^ k)) by done. by rewrite N.mod_pow2_bits_high, andb_false_r. }
  by rewrite N.add_nocarry_lxor, N.lxor_lor.
Qed.

Definition is_byte (b : N) : Prop := (b < 256)%N.

#[local] Ltac Zify.zify_post_hook ::= Z.to_euclidean_division_equations.

(** The characters of a chunk. *)
Lemma encode_chunk_spec first second third n :
  is_byte first → is_byte second → is_byte third →
  encode_chunk first second third n =
  [alphabet_at (first / 4); alphabet_at (first `mod` 4 * 16 + second / 16);
   if 1 <? n then alphabet_at (second `mod` 16 * 4 + third / 64) else 61%N;
   if 2 <? n then alphabet_at (third `mod` 64) else 61%N].
Proof.
  unfold is_byte. intros H1 H2 H3. unfold encode_chunk. change 63%N with (N.ones 6).
  rewrite !land_low, !N.shiftr_div_pow2, !lor_shiftl_add by (simpl; lia).
  change (2 ^ 2)%N with 4%N. change (2 ^ 4)%N with 16%N. change (2 ^ 6)%N with 64%N.
  repeat f_equal; try (case_match; [|done]; f_equal); lia.
Qed.

Lemma read_base64_chunk i1 i2 i3 i4 rest b :
  (i1 < 64)%N → (i2 < 64)%N → (i3 < 64)%N → (i4 < 64)%N → read_base64 rest = Some b →
  read_base64 (alphabet_at i1 :: alphabet_at i2 :: alphabet_at i3 :: alphabet_at i4 :: rest) =
  Some ((i1 * 4 + i2 / 16)%N :: (i2 `mod` 16 * 16 + i3 / 4)%N :: (i3 `mod` 4 * 64 + i4)%N :: b).
Proof.
  intros H1 H2 H3 H4 Hr. cbn [read_base64].
  destruct (alphabet_index_at i1 H1) as [-> _], (alphabet_index_at i2 H2) as [-> _],
    (alphabet_index_at i3 H3) as [-> _], (alphabet_index_at i4 H4) as [-> ->].
  cbn [mbind option_bind]. by rewrite Hr.
Qed.

Lemma base64_read b : Forall is_byte b → read_base64 (base64 b) = Some b.
Proof.
  remember (length b) as n eqn:Hn. revert b Hn. induction n as [n IH] using lt_wf_ind. intros b -> Hb.
  destruct b as [|a1 [|a2 [|a3 rest]]]; [done|..]; cbn [base64].
  - apply Forall_cons in Hb as [H1 _]. rewrite encode_chunk_spec by done. cbn [Nat.ltb Nat.leb].
    unfold is_byte in *. cbn [read_base64].
    destruct (alphabet_index_at (a1 / 4)) as [-> _]; [lia|].
    destruct (alphabet_index_at (a1 `mod` 4 * 16 + 0 / 16)) as [-> _]; [lia|].
    cbn [mbind option_bind N.eqb Pos.eqb]. rewrite bool_decide_true by done. cbn [negb].
    rewrite (proj2 (N.eqb_eq _ _)) by lia. do 2 f_equal. lia.
  - apply Forall_cons in Hb as [H1 [H2 _]%Forall_cons]. rewrite encode_chunk_spec by done.
    cbn [Nat.ltb Nat.leb]. unfold is_byte in *. cbn [read_base64].
    destruct (alphabet_index_at (a1 / 4)) as [-> _]; [lia|].
    destruct (alphabet_index_at (a1 `mod` 4 * 16 + a2 / 16)) as [-> _]; [lia|].
    destruct (alphabet_index_at (a2 `mod` 16 * 4 + 0 / 64)) as [-> ->]; [lia|].
    cbn [mbind option_bind N.eqb Pos.eqb]. rewrite bool_decide_true by done. cbn [negb].
    rewrite (proj2 (N.eqb_eq _ _)) by lia. do 2 f_equal; [lia|]. f_equal. lia.
  - apply Forall_cons in Hb as [H1 [H2 [H3 Hb]%Forall_cons]%Forall_cons].
    rewrite encode_chunk_spec by done. cbn [Nat.ltb Nat.leb app]. unfold is_byte in *.
    rewrite (read_base64_chunk _ _ _ _ _ rest); [|lia..|apply (IH (length rest)); [simpl; lia|done|done]].
    do 2 f_equal; [lia|]. f_equal; [lia|]. f_equal. lia.
Qed.

Lemma split_once_here p (before after : text) :
  (∀ k, k < length before → starts_with p (drop k (before ++ p ++ after)) = false) →
  split_once p (before ++ p ++ after) = Some (before, after).
Proof.
  induction before as [|c before IH]; intros H.
  - rewrite app_nil_l. destruct (p ++ after) as [|d t] eqn:E; cbn [split_once]; rewrite <-E, prefix_stripped; done.
  - cbn [app split_once]. pose proof (H 0 ltac:(simpl; lia)) as H0. unfold starts_with in H0.
    cbn [drop app] in H0. destruct (strip_prefix p (c :: before ++ p ++ after)); [done|].
    rewrite IH; [done|]. intros k Hk. apply (H (S k)). simpl. lia.
Qed.

(** ** The page *)

Lemma inline_images_enough fuel fuel' assets t :
  length t ≤ fuel → length t ≤ fuel' →
  inline_images_from fuel assets t = inline_images_from fuel' assets t.
Proof.
  assert (∀ f, inline_images_from f assets [] = []) as Hnil by by intros [].
  revert fuel' t. induction fuel as [|fuel IH]; intros [|fuel'] t H H';
    try (destruct t; [by rewrite !Hnil|simpl in *; lia]).
  cbn [inline_images_from]. destruct (split_once _ t) as [[before value]|] eqn:E; [|done].
  destruct (split_once_at _ value) as [[src after]|] eqn:E'; [|done].
  apply split_once_spec in E. subst t. do 3 f_equal.
  assert (length (34%N :: after) ≤ length value) as Hl.
  { clear -E'. revert src E'. induction value as [|c value IH]; intros src; cbn [split_once_at]; [done|].
    destruct (34 =? c)%N; [intros [= _ ->]; done|].
    destruct (split_once_at (N.eqb 34) value) as [[b a]|]; [|done].
    intros [= _ ->]. specialize (IH b eq_refl). simpl in *. lia. }
  rewrite !length_app in H, H'. simpl in H, H', Hl. apply IH; simpl; lia.
Qed.

(** In the HTML export the address of the first image of a page is replaced and the rest of
    the page is treated alike: an address that no asset has stays as it is, and in the place
    of one that an asset has, literally or decoded, there is a data address that a reader
    decodes to the media type and the bytes of the asset. *)
Theorem html_images_read_back assets before src after
    (Hbefore : ∀ k, k < length before →
       starts_with (qlit "src=`") (drop k (before ++ qlit "src=`" ++ src ++ 34%N :: after)) = false)
    (Hsrc : Forall (λ c, c ≠ 34%N) src)
    (Hassets : Forall (λ a, Forall (λ c, c ≠ 59%N) (media_type a) ∧ Forall is_byte (asset_bytes a)) assets) :
  inline_html_images (before ++ qlit "src=`" ++ src ++ 34%N :: after) assets =
    before ++ qlit "src=`" ++ inline_source assets src ++ inline_html_images (34%N :: after) assets ∧
  match list_find (λ a, asset_path a = src ∨
          asset_path a = percent_decode (replace (lit "&amp;") (lit "&") src)) assets with
  | Some (_, a) => read_data_address (inline_source assets src) = Some (media_type a, asset_bytes a)
  | None => inline_source assets src = src
  end.
Proof.
  split.
  - unfold inline_html_images at 1.
    rewrite (inline_images_enough _ (S (length (before ++ qlit "src=`" ++ src ++ 34%N :: after)))) by lia.
    cbn [inline_images_from]. rewrite split_once_here by done.
    rewrite split_once_at_app; [|eapply Forall_impl; [exact Hsrc|]|done].
    + do 3 f_equal. apply inline_images_enough; [|done]. rewrite !length_app. simpl. lia.
    + intros c Hc. apply N.eqb_neq. congruence.
  - unfold inline_source.
    destruct (list_find _ assets) as [[i a]|] eqn:E; [|done].
    apply list_find_Some in E as (Ha & _ & _). eapply Forall_lookup_1 in Hassets as [Hm Hb]; [|exact Ha].
    unfold append_base64, read_data_address. rewrite <-!app_assoc, prefix_stripped.
    cbn [mbind option_bind]. rewrite split_once_here.
    + cbn [mbind option_bind]. by rewrite base64_read.
    + intros k Hk. rewrite drop_app_le by lia.
      destruct (lookup_lt_is_Some_2 (media_type a) k Hk) as [c Hc].
      rewrite (drop_S _ c k Hc). eapply Forall_lookup_1 in Hm; [|exact Hc].
      unfold starts_with. cbn [app strip_prefix lit N.eqb].
      assert ((59 =? c)%N = false) as Hne by (apply N.eqb_neq; congruence).
      change (lit ";base64,") with (59%N :: lit "base64,"). cbn [strip_prefix]. by rewrite Hne.
Qed.

Lemma html_images_read_back_witness :
  let a := {| asset_path := lit "a b.png"; media_type := lit "image/png"; asset_bytes := [0; 255; 16; 77]%N |} in
  read_data_address (inline_source [a] (lit "a%20b.png")) = Some (lit "image/png", [0; 255; 16; 77]%N).
Proof.
  intros a. destruct (html_images_read_back [a] (lit "<img ") (lit "a%20b.png") (lit ">")) as [_ H].
  - intros k Hk. simpl in Hk. do 5 (destruct k as [|k]; [vm_compute; reflexivity|]). lia.
  - by repeat constructor.
  - repeat constructor; done.
  - vm_compute in H. vm_compute. exact H.
Defined.
