(* ===== verification/CrtModel.v ===== *)
(** * Importing SecureCRT settings: records, session files and button bars

    wasm/securecrt-importer/src: text.rs, source.rs, model.rs, ini.rs and button_bar.rs.  The
    lower case of a character is a parameter.  A function that pushes warnings returns those
    it pushes. *)

From S2P Require Import Prelude VncClipboard Text TextSearch JsonValue.

(** ** Importing SecureCRT settings: texts, paths and records *)

(** ** text.rs *)

Fixpoint pairs (b : bytes) : list (N * N) :=
  match b with
  | b0 :: b1 :: rest => (b0, b1) :: pairs rest
  | _ => []
  end.

Definition le_unit (p : N * N) : N := (p.1 + 256 * p.2)%N.
Definition be_unit (p : N * N) : N := (256 * p.1 + p.2)%N.

Definition decode_utf16_bytes (b : bytes) (little_endian : bool) : option text :=
  if Nat.even (length b) then
    decode_utf16 ((if little_endian then le_unit else be_unit) <$> pairs b)
  else None.

Definition decode_text (b : bytes) : option text :=
  if starts_with [255; 254]%N b then decode_utf16_bytes (drop 2 b) true
  else if starts_with [254; 255]%N b then decode_utf16_bytes (drop 2 b) false
  else if starts_with [239; 187; 191]%N b then utf8_decode (drop 3 b)
  else if negb (has_char 0 b) then utf8_decode b
  else match decode_utf16_bytes b true with Some t => Some t | None => utf8_decode b end.

(** ** source.rs *)

Inductive SourceKind : Type := SessionIni | FolderData | Xml | ButtonBar.

Definition is_separator (c : N) : bool := (c =? 47)%N || (c =? 92)%N.

(** [path.split(['/', '\\'])] *)
Fixpoint split_path (current t : text) : list text :=
  match t with
  | [] => [reverse current]
  | c :: rest =>
      if is_separator c then reverse current :: split_path [] rest
      else split_path (c :: current) rest
  end.

Definition not_empty (t : text) : bool := negb (bool_decide (t = [])).

(** The parts of a path that are not blank, trimmed. *)
Definition path_parts (path : text) : list text :=
  List.filter not_empty (trim <$> split_path [] path).

Definition ends_with (suffix t : text) : bool :=
  match strip_suffix suffix t with Some _ => true | None => false end.

Definition is_template (name : text) : bool :=
  one_of ["default.ini"; "default_rdp.ini"; "default_serial.ini"; "default_localshell.ini"] name.

Definition is_command_manager_list (path lower_name : text) : bool :=
  bool_decide (lower_name = lit "__commands__.ini") &&
  existsb (λ part, eq_ignore_ascii_case part (lit "Commands")) (tail (reverse (split_path [] path))).

Definition classify_source (path : text) : option SourceKind :=
  let lower_name := to_ascii_lowercase (path_name path) in
  if ends_with (lit ".xml") lower_name then Some Xml
  else if one_of ["__folderdata__.ini"; "__folderdata.ini"] lower_name then Some FolderData
  else if negb (ends_with (lit ".ini") lower_name) || is_template lower_name then None
  else if starts_with (lit "buttonbar") lower_name || is_command_manager_list path lower_name
  then Some ButtonBar
  else Some SessionIni.

Definition normalize_workspace_path (path : text) : option text :=
  let parts := path_parts path in
  if bool_decide (parts = []) || existsb (one_of ["."; ".."]) parts then None
  else Some (join (lit "/") parts).

Definition position {A} (f : A → bool) (l : list A) : option nat :=
  fst <$> list_find (λ x, f x = true) l.

Definition session_relative_path (path : text) (exclude_leaf : bool) : option text :=
  let components := path_parts path in
  sessions_index ← position (λ part, eq_ignore_ascii_case part (lit "Sessions")) components;
  let e := length components - (if exclude_leaf then 1 else 0) in
  if e <=? sessions_index + 1 then None
  else normalize_workspace_path
         (join (lit "/") (take (e - (sessions_index + 1)) (drop (sessions_index + 1) components))).

Definition session_file_group_path (path : text) : option text := session_relative_path path true.
Definition session_directory_group_path (path : text) : option text := session_relative_path path false.

(** The position of the last element that satisfies a test. *)
Definition rposition {A} (f : A → bool) (l : list A) : option nat :=
  (λ i, length l - 1 - i) <$> position f (reverse l).

Definition command_manager_folder (path : text) : option text :=
  let parts := List.filter not_empty (split_path [] path) in
  if from_option (λ name, eq_ignore_ascii_case name (lit "__Commands__.ini")) false (last parts) then
    commands_index ← rposition (λ part, eq_ignore_ascii_case part (lit "Commands")) parts;
    let e := length parts - 1 in
    if e <? commands_index + 1 then None
    else
      let folders := take (e - (commands_index + 1)) (drop (commands_index + 1) parts) in
      if bool_decide (folders = []) then None else Some (join (lit "/") folders)
  else None.

Definition quick_command_group_name (path declared_group : text) : text :=
  match command_manager_folder path with
  | None => declared_group
  | Some folder =>
      if eq_ignore_ascii_case declared_group (lit "default") then folder
      else folder ++ lit "/" ++ declared_group
  end.

(** ** model.rs *)

Record ImportWarning := { code : text; message : text }.

Inductive SshImportAuthMethod : Type :=
  | Password (password : option text)
  | PrivateKey (key_path : text) (passphrase : option text)
  | Agent
  | AutoPublicKey.

Record SshImportRecord := {
  ssh_name : text; ssh_host : text; ssh_port : option N; ssh_username : text;
  group_path : option text; auth_method : SshImportAuthMethod; init_script : option text;
  jump_server : option Value; proxy : option Value
}.

Record QuickCommandImportRecord := {
  qc_name : text; qc_command : text; qc_group_name : option text; shortcut : option text;
  description : option text; sort_order : N; connection_source_id : option text
}.

Record WorkspaceImportRecord := { workspace_path : text }.

Record ImportRecord := {
  id : text; importer_id : text; source_label : text; source_id : option text; kind : text;
  display_name : text; database : option Value; ssh : option SshImportRecord;
  port_forwarding : option Value; quick_command : option QuickCommandImportRecord;
  workspace : option WorkspaceImportRecord; password_status : text; warnings : list ImportWarning
}.

Record CredentialMetadata := { cred_username : option text; encrypted_password : bool }.

Abbreviation fields := (gmap text text) (only parsing).
Abbreviation credentials := (gmap text CredentialMetadata) (only parsing).

Definition warning (code message : text) : ImportWarning := {| code := code; message := message |}.

Definition field (fs : fields) (key : text) : option text :=
  value ← fs !! to_ascii_lowercase key;
  let value := trim value in
  if bool_decide (value = []) then None else Some value.

Definition has_value (fs : fields) (key : text) : bool :=
  match field fs key with Some _ => true | None => false end.

Definition is_ssh_protocol (protocol : text) : bool :=
  one_of ["ssh1"; "ssh2"; "ssh"] (to_ascii_lowercase (trim protocol)).

Definition stable_hash (value : text) : N :=
  foldl (λ hash byte, (N.lxor hash byte * 1099511628211) `mod` 2 ^ 64)%N
    14695981039346656037%N (utf8_encode value).

(** [format!("{n:016x}")] *)
Definition hex_lower_digit (n : N) : N := if (n <? 10)%N then (48 + n)%N else (87 + n)%N.
Definition hex16 (n : N) : text :=
  (λ i, hex_lower_digit (N.shiftr n (4 * N.of_nat (15 - i)) `mod` 16)) <$> seq 0 16.

Definition enrich_from_credential (fs : fields) (creds : credentials) : fields :=
  match field fs (lit "Credential Title") with
  | None => fs
  | Some title =>
      match creds !! to_ascii_lowercase title with
      | None => fs
      | Some credential =>
          let fs :=
            match field fs (lit "Username"), cred_username credential with
            | None, Some username =>
                if bool_decide (username = []) then fs else <[lit "username" := username]> fs
            | _, _ => fs
            end in
          if encrypted_password credential
          then <[lit "credential encrypted password" := lit "present"]> fs else fs
      end
  end.

Section model.
(** [char::to_lowercase] *)
Context (to_lowercase : N → list N).

Definition slug (value : text) : text :=
  let out := drop_dashes (foldl slug_char ([], false) (value ≫= to_lowercase)).1 in
  if bool_decide (out = []) then lit "record" else reverse out.

Definition record_id (kind source_id : text) : text :=
  let identity := kind ++ [0%N] ++ source_id in
  lit "securecrt:" ++ slug source_id ++ lit ":" ++ hex16 (stable_hash identity).

Definition ssh_record (source_id : text) (group_path : option text) (name : text) (fs : fields)
    (port : option N) : option ImportRecord * list ImportWarning :=
  let protocol := default [] (field fs (lit "Protocol Name")) in
  if negb (is_ssh_protocol protocol) then (None, [])
  else match field fs (lit "Hostname") with
  | None =>
      (None, [warning (lit "securecrt_ssh_hostname_missing")
                (lit "A SecureCRT SSH session without a hostname was skipped: " ++ source_id)])
  | Some host =>
      let username := default [] (field fs (lit "Username")) in
      let encrypted_password := has_value fs (lit "Password V2") || has_value fs (lit "Password") ||
                                has_value fs (lit "Credential Encrypted Password") in
      let identity :=
        match field fs (lit "Identity Filename V2") with
        | Some value => Some value
        | None => field fs (lit "Identity File")
        end in
      let auth :=
        match identity, encrypted_password with
        | Some key_path, _ => PrivateKey key_path None
        | None, true => Password None
        | None, false => AutoPublicKey
        end in
      (Some {| id := record_id (lit "ssh") source_id; importer_id := lit "securecrt";
               source_label := lit "SecureCRT"; source_id := Some source_id; kind := lit "ssh";
               display_name := name; database := None;
               ssh := Some {| ssh_name := name; ssh_host := host; ssh_port := port;
                              ssh_username := username; group_path := group_path;
                              auth_method := auth; init_script := None; jump_server := None;
                              proxy := None |};
               port_forwarding := None; quick_command := None; workspace := None;
               password_status := lit (if encrypted_password then "unsupported" else "missing");
               warnings := if encrypted_password then
                 [warning (lit "securecrt_encrypted_password_not_imported")
                    (lit "SecureCRT encrypted password was not imported because this importer does not decrypt configuration passwords.")]
                 else [] |}, [])
  end.

Definition quick_command_record (source_id group_name name command : text) (sort_order : N)
    : ImportRecord :=
  {| id := record_id (lit "quick_command") source_id; importer_id := lit "securecrt";
     source_label := lit "SecureCRT"; source_id := Some source_id; kind := lit "quick_command";
     display_name := name; database := None; ssh := None; port_forwarding := None;
     quick_command := Some {| qc_name := name; qc_command := command;
       qc_group_name := Some group_name; shortcut := None;
       description := Some (lit "Imported from SecureCRT quick commands");
       sort_order := sort_order; connection_source_id := None |};
     workspace := None; password_status := lit "missing"; warnings := [] |}.

(** [path.rsplit('/').next()] *)
Definition last_part (path : text) : text :=
  match split_once_at (N.eqb 47) (reverse path) with
  | Some (name, _) => reverse name
  | None => path
  end.

Definition workspace_record (source_id path : text) : ImportRecord :=
  let name := last_part path in
  {| id := record_id (lit "workspace") path; importer_id := lit "securecrt";
     source_label := lit "SecureCRT"; source_id := Some source_id; kind := lit "workspace";
     display_name := if bool_decide (name = []) then path else name; database := None; ssh := None;
     port_forwarding := None; quick_command := None;
     workspace := Some {| workspace_path := path |};
     password_status := lit "missing"; warnings := [] |}.
End model.

(** ** Importing SecureCRT settings: session files and button bars *)

(** ** Sorted sets of texts *)

(** [BTreeSet<String>] *)
Fixpoint set_insert (x : text) (set : list text) : list text :=
  match set with
  | [] => [x]
  | y :: rest =>
      match text_compare x y with
      | Lt => x :: set
      | Eq => set
      | Gt => y :: set_insert x rest
      end
  end.

Definition collect_set (xs : list text) : list text := foldl (λ set x, set_insert x set) [] xs.

(** ** ini.rs *)

Definition hex_nibble (byte : N) : N :=
  if ((48 <=? byte) && (byte <=? 57))%N then (byte - 48)%N
  else if ((97 <=? byte) && (byte <=? 102))%N then (byte - 97 + 10)%N
  else if ((65 <=? byte) && (byte <=? 70))%N then (byte - 65 + 10)%N
  else 0%N.

Definition is_hexdigit (c : N) : bool :=
  is_digit c || ((97 <=? c) && (c <=? 102) || (65 <=? c) && (c <=? 70))%N.

(** [from_str_radix(t, 16)] for values of at most [max]. *)
Fixpoint parse_hex_digits (max acc : N) (t : text) : option N :=
  match t with
  | [] => Some acc
  | c :: rest =>
      let value := (acc * 16 + hex_nibble c)%N in
      if is_hexdigit c && (value <=? max)%N then parse_hex_digits max value rest else None
  end.

Definition from_hex (max : N) (t : text) : option N :=
  match match t with c :: rest => if (c =? 43)%N then rest else t | [] => [] end with
  | [] => None
  | digits => parse_hex_digits max 0 digits
  end.

Definition parse_hex_port (value : text) : option N :=
  port ← from_hex u32_max (trim value);
  if (port <=? u16_max)%N then Some port else None.

Definition hex_bytes (hex : text) : bytes :=
  (λ '(high, low), N.lor (N.shiftl (hex_nibble high) 4) (hex_nibble low)) <$> pairs hex.

Definition decode_value (value : text) : text :=
  let value := trim value in
  match split_whitespace value with
  | [] => []
  | [_] => value
  | _ :: hex :: more =>
      if negb (bool_decide (more = [])) || negb (Nat.even (length hex)) || negb (forallb is_hexdigit hex)
      then value
      else
        let b := hex_bytes hex in
        if negb (Nat.even (length b)) then value
        else trim_end_matches (N.eqb 0) (default value (decode_utf16 (le_unit <$> pairs b)))
  end.

(** The name of a text or number field. *)
Definition field_key (key : text) : option text :=
  name ← union (strip_prefix (qlit "S:`") (trim key)) (strip_prefix (qlit "D:`") (trim key));
  strip_suffix [34%N] name.

Definition parse_field_line (fs : fields) (line : text) : fields :=
  match split_once_at (N.eqb 61) (trim line) with
  | None => fs
  | Some (key, value) =>
      match field_key key with
      | None => fs
      | Some key => <[to_ascii_lowercase key := decode_value value]> fs
      end
  end.

Definition parse_fields (t : text) : fields := foldl parse_field_line ∅ (lines t).

Definition list_key_name (key : text) : option text :=
  '(_, quoted) ← split_once (qlit ":`") (trim key);
  strip_suffix [34%N] quoted.

(** The count after the key of the list of folders, if the line has the key. *)
Definition folder_list_count (line : text) : option text :=
  '(key, count) ← split_once_at (N.eqb 61) (trim (trim_start_matches (N.eqb 65279) line));
  key_name ← list_key_name key;
  if eq_ignore_ascii_case key_name (lit "Folder List V2") then Some count else None.

Fixpoint folder_names (ls : list text) : list text :=
  match ls with
  | [] => []
  | line :: rest =>
      match folder_list_count line with
      | None => folder_names rest
      | Some count =>
          match from_hex u32_max (trim count) with
          | None => []
          | Some count =>
              collect_set (omap normalize_workspace_path
                (take (N.to_nat (N.min count 4096)) rest))
          end
      end
  end.

Definition parse_folder_names (t : text) : list text := folder_names (lines t).

Definition invalid_port (source_id : text) : ImportWarning :=
  warning (lit "securecrt_ssh_port_invalid")
    (lit "A SecureCRT SSH session had an invalid port and defaulted to 22: " ++ source_id).

(** The port under the first key that there is. *)
Fixpoint port_of (parse : text → option N) (fs : fields) (source_id : text) (keys : list text)
    : option N * list ImportWarning :=
  match keys with
  | [] => (Some 22%N, [])
  | key :: keys =>
      match fs !! key with
      | Some value =>
          match parse value with
          | Some port => (Some port, [])
          | None => (Some 22%N, [invalid_port source_id])
          end
      | None => port_of parse fs source_id keys
      end
  end.

Definition protocol_port (fs : fields) (protocol source_id : text) : option N * list ImportWarning :=
  port_of parse_hex_port fs source_id
    [lit "[" ++ to_ascii_lowercase protocol ++ lit "] port"; lit "port"].

Definition session_name (path : text) : text :=
  let name := path_name path in
  default name (union (strip_suffix (lit ".ini") name) (strip_suffix (lit ".INI") name)).

Definition slashes (path : text) : text := replace [92%N] [47%N] path.

Definition parse_session (to_lowercase : N → list N) (path t : text) (creds : credentials)
    : option ImportRecord * list ImportWarning :=
  let fs := enrich_from_credential (parse_fields t) creds in
  let protocol := default [] (field fs (lit "Protocol Name")) in
  let source_id := slashes path in
  let '(port, ws) := protocol_port fs protocol source_id in
  let '(record, ws') :=
    ssh_record to_lowercase source_id (session_file_group_path path) (session_name path) fs port in
  (record, ws ++ ws').

(** ** button_bar.rs *)

(** The loop of [parse_csv_fields]: whether it is in quotes, and the field so far in
    reverse. *)
Fixpoint csv_fields (quoted : bool) (field line : text) : list text :=
  match line with
  | [] => [trim (reverse field)]
  | ch :: rest =>
      if (ch =? 34)%N then
        match rest with
        | d :: rest' =>
            if quoted && (d =? 34)%N then csv_fields quoted (34%N :: field) rest'
            else csv_fields (negb quoted) field rest
        | [] => csv_fields (negb quoted) field rest
        end
      else if (ch =? 44)%N && negb quoted then trim (reverse field) :: csv_fields quoted [] rest
      else csv_fields quoted (ch :: field) rest
  end.

Definition parse_csv_fields (line : text) : list text := csv_fields false [] line.

Definition parse_group_name (line : text) : option text :=
  rest ← strip_prefix (qlit "Z:`") line;
  '(name, _) ← split_once (qlit "`=") rest;
  let name := trim name in
  if bool_decide (name = []) then None else Some name.

Definition is_alphabetic (c : N) : bool :=
  ((65 <=? c) && (c <=? 90) || (97 <=? c) && (c <=? 122))%N.

Definition is_ini_metadata_line (line : text) : bool :=
  match line with
  | c :: d :: e :: _ => is_alphabetic c && (d =? 58)%N && (e =? 34)%N && contains (qlit "`=") line
  | _ => false
  end.

Definition fallback_group_name (path : text) : text :=
  default (session_name path) (command_manager_folder path).

(** What an escape at the beginning of a text stands for, and the number of characters it
    takes. *)
Definition decode_escape (t : text) : option (text * nat) :=
  match t with
  | c :: rest =>
      if (c =? 92)%N then
        let escape :=
          match rest with
          | d :: e :: _ => if (d =? 92)%N then Some (e, 3) else Some (d, 2)
          | [d] => Some (d, 2)
          | [] => None
          end in
        '(e, consumed) ← escape;
        if (e =? 114)%N || (e =? 82)%N then Some ([13%N], consumed)
        else if (e =? 112)%N || (e =? 80)%N then Some (lit "\p", consumed)
        else None
      else None
  | [] => None
  end.

(** The loop of [decode_command]; [skip] characters are part of an escape. *)
Fixpoint command_chars (skip : nat) (t : text) : text :=
  match t with
  | [] => []
  | c :: rest =>
      match skip with
      | S skip => command_chars skip rest
      | O =>
          match decode_escape t with
          | None => c :: command_chars 0 rest
          | Some (decoded, consumed) => decoded ++ command_chars (consumed - 1) rest
          end
      end
  end.

Definition decode_command (value : text) : text := command_chars 0 value.

Definition action_not_imported (place group_name : text) : ImportWarning :=
  warning (lit "securecrt_button_action_not_imported")
    (lit "A non-SEND action in SecureCRT " ++ place ++ lit " " ++ group_name ++ lit " was skipped.").

(** [i32::try_from(n).unwrap_or(i32::MAX)] *)
Definition sort_order_of (n : nat) : N := N.min (N.of_nat n) 2147483647.

Definition parse_button_line (to_lowercase : N → list N) (path line group_name : text)
    (records : list ImportRecord) : list ImportRecord * list ImportWarning :=
  let fields := parse_csv_fields line in
  match head fields with
  | None | Some [] => (records, [])
  | Some action =>
      if negb (eq_ignore_ascii_case action (lit "SEND")) then
        (records, [action_not_imported (lit "quick commands") group_name])
      else
        let command := default [] (fields !! 1) in
        if bool_decide (command = []) then (records, [])
        else
          let name := match fields !! 2 with Some (c :: t) => c :: t | _ => lit "Command" end in
          let sort_order := sort_order_of (length records) in
          let source_id := path ++ lit "#" ++ group_name ++ lit "/" ++ show_N sort_order in
          (records ++ [quick_command_record to_lowercase source_id group_name name
                         (decode_command command) sort_order], [])
  end.

(** The loop over the lines that are not blank. *)
Fixpoint button_lines (to_lowercase : N → list N) (path group_name : text) (records : list ImportRecord)
    (ls : list text) : list ImportRecord * list ImportWarning :=
  match ls with
  | [] => (records, [])
  | line :: rest =>
      match parse_group_name line with
      | Some name =>
          button_lines to_lowercase path (quick_command_group_name path name) records rest
      | None =>
          if is_ini_metadata_line line then button_lines to_lowercase path group_name records rest
          else
            let '(records, ws) := parse_button_line to_lowercase path line group_name records in
            let '(records, ws') := button_lines to_lowercase path group_name records rest in
            (records, ws ++ ws')
      end
  end.

Definition parse_button_bar (to_lowercase : N → list N) (path t : text)
    : list ImportRecord * list ImportWarning :=
  button_lines to_lowercase path (fallback_group_name path) []
    (List.filter not_empty (trim <$> lines t)).
