(* ===== verification/CrtXml.v ===== *)
(** * Importing SecureCRT settings: XML exports

    wasm/securecrt-importer/src/xml.rs: a machine over the events of the quick_xml reader,
    which with its unescaping is the class [XmlLib].  The stack of keys has its top first. *)

From S2P Require Import Prelude VncClipboard Text TextSearch JsonValue CrtModel.

(** ** Events *)

(** An attribute whose value cannot be decoded has none. *)
Abbreviation attributes := (list (text * option text)) (only parsing).

Inductive XmlEvent : Type :=
  | Start (tag : text) (attrs : attributes)
  | Empty (tag : text) (attrs : attributes)
  | Characters (decoded : option text)
  | End_ (tag : text)
  | OtherEvent.

Class XmlLib := {
  (** the events up to the end of the file, or up to an error *)
  read_events : text → list XmlEvent * bool;
  unescape : text → option text
}.

Definition MAX_XML_DEPTH : nat := 64.

(** ** State *)

Inductive KeyFrame : Type := {
  name : text;
  frame_fields : gmap text text;
  field_names : gmap text text;
  field_order : list text;
  child_buttons : list KeyFrame
}.

Record XmlState := {
  stack : list KeyFrame; current_field : option text; records : list ImportRecord;
  depth_exceeded : bool; ignored_depth : nat; button_count : nat;
  depth_warning : option ImportWarning
}.

Definition new_state : XmlState :=
  {| stack := []; current_field := None; records := []; depth_exceeded := false;
     ignored_depth := 0; button_count := 0; depth_warning := None |}.

Definition new_frame (name : text) : KeyFrame :=
  {| name := name; frame_fields := ∅; field_names := ∅; field_order := []; child_buttons := [] |}.

Definition set_stack (s : list KeyFrame) (st : XmlState) : XmlState :=
  {| stack := s; current_field := current_field st; records := records st;
     depth_exceeded := depth_exceeded st; ignored_depth := ignored_depth st;
     button_count := button_count st; depth_warning := depth_warning st |}.
Definition set_field (f : option text) (st : XmlState) : XmlState :=
  {| stack := stack st; current_field := f; records := records st;
     depth_exceeded := depth_exceeded st; ignored_depth := ignored_depth st;
     button_count := button_count st; depth_warning := depth_warning st |}.
Definition set_ignored (n : nat) (st : XmlState) : XmlState :=
  {| stack := stack st; current_field := current_field st; records := records st;
     depth_exceeded := depth_exceeded st; ignored_depth := n;
     button_count := button_count st; depth_warning := depth_warning st |}.
Definition add_record (r : ImportRecord) (st : XmlState) : XmlState :=
  {| stack := stack st; current_field := current_field st; records := records st ++ [r];
     depth_exceeded := depth_exceeded st; ignored_depth := ignored_depth st;
     button_count := button_count st; depth_warning := depth_warning st |}.

(** ** Names *)

(** [rsplit(sep).next()] *)
Definition after_last (sep : N) (t : text) : text :=
  match split_once_at (N.eqb sep) (reverse t) with
  | Some (part, _) => reverse part
  | None => t
  end.

Definition tag_name (raw : text) : text := to_ascii_lowercase (after_last 58 raw).

Fixpoint attribute (attrs : attributes) (key : text) : option text :=
  match attrs with
  | [] => None
  | (k, value) :: rest =>
      match value with
      | Some v => if bool_decide (tag_name k = key) then Some v else attribute rest key
      | None => attribute rest key
      end
  end.

Definition is_button_bar_key (name : text) : bool :=
  eq_ignore_ascii_case name (lit "Button Bar") || eq_ignore_ascii_case name (lit "Button Bars").

Definition button_bar_index (names : list text) : option nat := position is_button_bar_key names.

(** The prefixes of the keys that end in [/leaf], each once, by the last part. *)
Definition ordered_names (field_order : list text) (leaf : text) : list text :=
  let suffix := to_ascii_lowercase (lit "/" ++ leaf) in
  foldl (λ names key,
    match strip_suffix suffix key with
    | None => names
    | Some prefix =>
        let key := after_last 47 prefix in
        if existsb (λ n, eq_ignore_ascii_case n key) names then names else names ++ [key]
    end) [] field_order.

Definition xml_port (fs : gmap text text) (source_id : text) : option N * list ImportWarning :=
  port_of (λ value, parse_unsigned u16_max (trim value)) fs source_id
    [lit "[ssh2] port"; lit "[ssh1] port"; lit "[ssh] port"; lit "port"].

(** ** Fields *)

Definition insert_into (nm value : text) (frame : KeyFrame) : KeyFrame :=
  let normalized := to_ascii_lowercase nm in
  {| name := name frame;
     frame_fields := <[normalized := value]> (frame_fields frame);
     field_names := <[normalized := nm]> (field_names frame);
     field_order := if bool_decide (is_Some (field_names frame !! normalized))
                    then field_order frame else field_order frame ++ [normalized];
     child_buttons := child_buttons frame |}.

Definition insert_field (nm value : text) (st : XmlState) : XmlState :=
  match stack st with
  | [] => st
  | frame :: below => set_stack (insert_into nm value frame :: below) st
  end.

Definition is_field_tag (tag : text) : bool := one_of ["string"; "dword"] tag.

Section xml.
Context (to_lowercase : N → list N) `{XmlLib}.

(** ** Button bars *)

Definition push_quick_command (path group_name button_key button_name command : text) (st : XmlState)
    : XmlState :=
  let source_id := path ++ lit "#Button Bar/" ++ group_name ++ lit "/" ++ button_key in
  let st := add_record (quick_command_record to_lowercase source_id group_name button_name
                          (decode_command command) (sort_order_of (button_count st))) st in
  {| stack := stack st; current_field := current_field st; records := records st;
     depth_exceeded := depth_exceeded st; ignored_depth := ignored_depth st;
     button_count := S (button_count st); depth_warning := depth_warning st |}.

(** A button: its command is imported when its action is to send it. *)
Definition push_button (path group_name source_key label : text) (command action : option text)
    (st : XmlState) : XmlState * list ImportWarning :=
  if negb (eq_ignore_ascii_case (default [] action) (lit "SEND"))
  then (st, [action_not_imported (lit "button bar") group_name])
  else match command with
  | None | Some [] => (st, [])
  | Some command => (push_quick_command path group_name source_key label command st, [])
  end.

(** The keys below a button bar; the second of a name is told from the first. *)
Fixpoint child_button_loop (path group_name : text) (occurrences : gmap text nat)
    (buttons : list KeyFrame) (st : XmlState) : XmlState * list ImportWarning :=
  match buttons with
  | [] => (st, [])
  | button :: rest =>
      let button_key := name button in
      let occurrence := S (default 0 (occurrences !! to_ascii_lowercase button_key)) in
      let source_key := if occurrence =? 1 then button_key
                        else button_key ++ lit "~" ++ show_N (N.of_nat occurrence) in
      let label := default button_key (field (frame_fields button) (lit "Name")) in
      let '(st, ws) := push_button path group_name source_key label
                         (field (frame_fields button) (lit "Command"))
                         (field (frame_fields button) (lit "Function")) st in
      let '(st, ws') := child_button_loop path group_name
                          (<[to_ascii_lowercase button_key := occurrence]> occurrences) rest st in
      (st, ws ++ ws')
  end.

(** The buttons that a bar describes with fields of its own. *)
Fixpoint field_button_loop (path group_name : text) (fs : gmap text text) (keys : list text)
    (st : XmlState) : XmlState * list ImportWarning :=
  match keys with
  | [] => (st, [])
  | button_key :: rest =>
      let prefix := to_ascii_lowercase button_key in
      let label := default button_key (field fs (prefix ++ lit "/Name")) in
      let '(st, ws) := push_button path group_name button_key label
                         (field fs (prefix ++ lit "/Command")) (field fs (prefix ++ lit "/Function")) st in
      let '(st, ws') := field_button_loop path group_name fs rest st in
      (st, ws ++ ws')
  end.

Definition finish_button_bar (path : text) (frame : KeyFrame) (names : list text) (st : XmlState)
    : XmlState * list ImportWarning :=
  match button_bar_index names with
  | None => (st, [])
  | Some bar_index =>
      match names !! (bar_index + 1) with
      | None => (st, [])
      | Some group_name =>
          let '(st, ws) := child_button_loop path group_name ∅ (child_buttons frame) st in
          let '(st, ws') := field_button_loop path group_name (frame_fields frame)
                              (ordered_names (field_order frame) (lit "Name")) st in
          (st, ws ++ ws')
      end
  end.

(** ** Keys *)

Definition depth_message : ImportWarning :=
  warning (lit "securecrt_xml_depth_exceeded")
    (lit "SecureCRT XML export exceeded the supported nesting depth: " ++ show_N (N.of_nat MAX_XML_DEPTH)).

Definition push_key (attrs : attributes) (st : XmlState) : XmlState :=
  if MAX_XML_DEPTH <=? length (stack st) then
    {| stack := stack st; current_field := current_field st; records := records st;
       depth_exceeded := true; ignored_depth := 1; button_count := button_count st;
       depth_warning := if depth_exceeded st then depth_warning st else Some depth_message |}
  else set_stack (new_frame (default [] (attribute attrs (lit "name"))) :: stack st) st.

Definition add_child_button (frame : KeyFrame) (parent : KeyFrame) : KeyFrame :=
  {| name := name parent; frame_fields := frame_fields parent; field_names := field_names parent;
     field_order := field_order parent; child_buttons := child_buttons parent ++ [frame] |}.

Definition finish_key (path : text) (creds : gmap text CredentialMetadata) (st : XmlState)
    : XmlState * list ImportWarning :=
  match stack st with
  | [] => (st, [])
  | frame :: below =>
      let st := set_stack below st in
      let names := reverse (name <$> below) ++ [name frame] in
      match position (λ n, eq_ignore_ascii_case n (lit "Sessions")) names with
      | None =>
          match button_bar_index names, below with
          | Some bar_index, parent :: rest =>
              if bar_index + 2 <? length names
              then (set_stack (add_child_button frame parent :: rest) st, [])
              else finish_button_bar path frame names st
          | Some bar_index, [] =>
              if bar_index + 2 <? length names then (st, []) else finish_button_bar path frame names st
          | None, _ => finish_button_bar path frame names st
          end
      | Some session_index =>
          if length names <=? session_index + 1 then (st, [])
          else
            let fs := enrich_from_credential (frame_fields frame) creds in
            let source_id := path ++ lit "#" ++ join (lit "/") (drop session_index names) in
            let group := join (lit "/") (take (length names - 1 - (session_index + 1))
                                           (drop (session_index + 1) names)) in
            let group_path := if bool_decide (group = []) then None else Some group in
            let '(port, ws) := xml_port fs source_id in
            let '(record, ws') := ssh_record to_lowercase source_id group_path (name frame) fs port in
            (match record with Some r => add_record r st | None => st end, ws ++ ws')
      end
  end.

(** ** The machine *)

Definition xml_step (path : text) (creds : gmap text CredentialMetadata) (st : XmlState) (e : XmlEvent)
    : XmlState * list ImportWarning :=
  match e with
  | Start tag attrs =>
      if 0 <? ignored_depth st then
        (if bool_decide (tag_name tag = lit "key") then set_ignored (S (ignored_depth st)) st else st, [])
      else if bool_decide (tag_name tag = lit "key") then (push_key attrs st, [])
      else if is_field_tag (tag_name tag) then (set_field (attribute attrs (lit "name")) st, [])
      else (st, [])
  | Empty tag attrs =>
      (if is_field_tag (tag_name tag) then
         match attribute attrs (lit "name") with
         | Some nm => insert_field nm [] st
         | None => st
         end
       else st, [])
  | Characters decoded =>
      (match current_field st, decoded with
       | Some nm, Some t => insert_field nm (trim (default t (unescape t))) st
       | _, _ => st
       end, [])
  | End_ tag =>
      if 0 <? ignored_depth st then
        (if bool_decide (tag_name tag = lit "key") then set_ignored (ignored_depth st - 1) st else st, [])
      else if is_field_tag (tag_name tag) then (set_field None st, [])
      else if bool_decide (tag_name tag = lit "key") then finish_key path creds st
      else (st, [])
  | OtherEvent => (st, [])
  end.

Fixpoint xml_run (path : text) (creds : gmap text CredentialMetadata) (st : XmlState)
    (es : list XmlEvent) : XmlState * list ImportWarning :=
  match es with
  | [] => (st, [])
  | e :: es =>
      let '(st, ws) := xml_step path creds st e in
      let '(st, ws') := xml_run path creds st es in
      (st, ws ++ ws')
  end.

Definition parse_failed_warning (path : text) : ImportWarning :=
  warning (lit "securecrt_xml_parse_failed")
    (lit "SecureCRT XML export could not be parsed: " ++ path).

Definition parse_export (path t : text) (creds : gmap text CredentialMetadata)
    : list ImportRecord * list ImportWarning :=
  let '(events, at_end) := read_events t in
  let '(st, ws) := xml_run path creds new_state events in
  let parse_failed := negb at_end || negb (bool_decide (length (stack st) = 0)) ||
                      bool_decide (is_Some (current_field st)) || (0 <? ignored_depth st) in
  (if parse_failed then [] else records st,
   ws ++ (if parse_failed then [parse_failed_warning path] else []) ++ option_list (depth_warning st)).
End xml.
