(* ===== verification/CrtImport.v ===== *)
(** * Importing SecureCRT settings: the importer

    wasm/securecrt-importer/src: securecrt.rs, which makes records of sources, and
    component.rs, which collects the sources through the host, the class [CrtHost]. *)

From S2P Require Import Prelude VncClipboard Text TextSearch JsonValue CrtModel CrtXml.

(** ** securecrt.rs *)

Record PreviewResult := { pv_records : list ImportRecord; pv_warnings : list ImportWarning }.

Definition is_credential_path (path : text) : bool :=
  existsb (λ part, eq_ignore_ascii_case part (lit "Credentials"))
    (tail (reverse (split_char 47 [] (slashes path)))).

(** [trim_end_matches] of a text *)
Fixpoint trim_end_text (fuel : nat) (suffix t : text) : text :=
  match fuel with
  | O => t
  | S fuel => match strip_suffix suffix t with Some rest => trim_end_text fuel suffix rest | None => t end
  end.

Definition credential_key (path : text) : text :=
  let name := path_name path in
  let name := trim_end_text (length name) (lit ".ini") name in
  to_ascii_lowercase (trim_end_text (length name) (lit ".INI") name).

Definition credential_of (t : text) : CredentialMetadata :=
  let fs := parse_fields t in
  {| cred_username := field fs (lit "Username");
     encrypted_password := has_value fs (lit "Password V2") || has_value fs (lit "Password") |}.

Definition decode_failed (path : text) : ImportWarning :=
  warning (lit "securecrt_source_decode_failed")
    (lit "SecureCRT source could not be decoded: " ++ path).

(** The first loop: credentials, the other sources, and warnings. *)
Definition read_source
    (acc : gmap text CredentialMetadata * list (text * text * SourceKind) * list ImportWarning)
    (source : text * bytes)
    : gmap text CredentialMetadata * list (text * text * SourceKind) * list ImportWarning :=
  let '(creds, decoded, ws) := acc in
  let '(path, b) := source in
  match classify_source path with
  | None => acc
  | Some kind =>
      match decode_text b with
      | None => (creds, decoded, ws ++ [decode_failed path])
      | Some t =>
          if is_credential_path path then (<[credential_key path := credential_of t]> creds, decoded, ws)
          else (creds, decoded ++ [(path, t, kind)], ws)
      end
  end.

(** The paths above a normalized path, and the path. *)
Fixpoint ancestors (current : text) (parts : list text) : list text :=
  match parts with
  | [] => []
  | part :: rest =>
      let current := (if bool_decide (current = []) then [] else current ++ [47%N]) ++ part in
      current :: ancestors current rest
  end.

Definition workspace_path_ancestors (path : text) : list text :=
  match normalize_workspace_path path with
  | None => []
  | Some path => ancestors [] (split_char 47 [] path)
  end.

Section import.
Context (to_lowercase : N → list N) `{XmlLib}.

Definition add_workspace (path : text) (acc : list ImportRecord * gset text) (workspace_path : text)
    : list ImportRecord * gset text :=
  let '(records, seen) := acc in
  if decide (workspace_path ∈ seen) then acc
  else (records ++ [workspace_record to_lowercase (slashes path ++ lit "#" ++ workspace_path) workspace_path],
        {[workspace_path]} ∪ seen).

Definition folder_data_records (path t : text) : list ImportRecord :=
  let parent := session_file_group_path path in
  (foldl (λ acc folder,
     match normalize_workspace_path
             (match parent with Some parent => parent ++ lit "/" ++ folder | None => folder end) with
     | None => acc
     | Some workspace_path =>
         foldl (add_workspace path) acc (workspace_path_ancestors workspace_path)
     end) ([], ∅) (parse_folder_names t)).1.

Definition parse_source (creds : gmap text CredentialMetadata) (source : text * text * SourceKind)
    : list ImportRecord * list ImportWarning :=
  let '(path, t, kind) := source in
  match kind with
  | SessionIni =>
      let '(record, ws) := parse_session to_lowercase path t creds in (option_list record, ws)
  | FolderData => (folder_data_records path t, [])
  | Xml => parse_export to_lowercase path t creds
  | ButtonBar => parse_button_bar to_lowercase path t
  end.

Definition duplicate_record (record : ImportRecord) : ImportWarning :=
  warning (lit "securecrt_duplicate_record_id")
    (lit "A duplicate SecureCRT import record was skipped: " ++ default (id record) (source_id record)).

(** A record is taken if its identifier is new. *)
Definition add_import (acc : PreviewResult * gset text) (record : ImportRecord)
    : PreviewResult * gset text :=
  let '(result, seen) := acc in
  if decide (id record ∈ seen) then
    ({| pv_records := pv_records result; pv_warnings := pv_warnings result ++ [duplicate_record record] |}, seen)
  else
    ({| pv_records := pv_records result ++ [record]; pv_warnings := pv_warnings result |},
     {[id record]} ∪ seen).

Definition import_source (creds : gmap text CredentialMetadata) (acc : PreviewResult * gset text)
    (source : text * text * SourceKind) : PreviewResult * gset text :=
  let '(result, seen) := acc in
  let '(parsed, ws) := parse_source creds source in
  foldl add_import
    ({| pv_records := pv_records result; pv_warnings := pv_warnings result ++ ws |}, seen) parsed.

Definition preview_records_from_sources (sources : list (text * bytes)) (include_passwords : bool)
    : PreviewResult :=
  let '(creds, decoded, ws) := foldl read_source (∅, [], []) sources in
  (foldl (import_source creds) ({| pv_records := []; pv_warnings := ws |}, ∅) decoded).1.

Definition append_workspace_records (result : PreviewResult) (groups : list text) : PreviewResult :=
  (foldl (λ acc path,
     match normalize_workspace_path path with
     | None => acc
     | Some path =>
         let '(result, seen) := acc in
         let record := workspace_record to_lowercase (lit "Sessions/" ++ path) path in
         if decide (id record ∈ seen) then acc
         else ({| pv_records := pv_records result ++ [record]; pv_warnings := pv_warnings result |},
               {[id record]} ∪ seen)
     end) (result, list_to_set (id <$> pv_records result) : gset text) groups).1.

(** ** component.rs *)

Definition MAX_DIRECTORY_DEPTH : nat := 32.
Definition MAX_SOURCE_FILES : nat := 4096.

Record CandidateFile := { cf_id : text; cf_path : text }.
Record DirectoryEntry := { entry_name : text; is_dir : bool }.

(** What the host gives while it is asked for the files; an error has a code. *)
Class CrtHost := {
  list_candidate_files : text → list CandidateFile;
  read_directory : text → text + list DirectoryEntry;
  read_candidate_directory : text → text → text + list DirectoryEntry;
  read_file : text → text + bytes;
  read_candidate_child_file : text → text → text + bytes
}.

Record CollectedSources := {
  files : list (text * bytes); session_groups : list text; cs_warnings : list ImportWarning
}.

Record DirectoryCursor := {
  candidate_id : text; host_prefix : text; logical_prefix : text; depth : nat
}.

Definition safe_relative_path (prefix nm : text) : option text :=
  if bool_decide (nm = []) || one_of ["."; ".."] nm || has_char 47 nm || has_char 92 nm then None
  else Some (if bool_decide (prefix = []) then nm else prefix ++ lit "/" ++ nm).

Definition is_logical_root (component : text) : bool :=
  existsb (λ root, eq_ignore_ascii_case component (lit root)) ["Sessions"; "Commands"; "Credentials"].

Definition candidate_directory_prefix (path : text) : text :=
  let components := path_parts path in
  let config_child :=
    index ← rposition (λ part, eq_ignore_ascii_case part (lit "Config")) components;
    _ ← components !! (index + 1);
    Some (index + 1) in
  let config_root :=
    index ← config_child;
    component ← components !! index;
    if is_logical_root component then Some index else None in
  match union config_root (position is_logical_root components) with
  | None => []
  | Some root_index => join (lit "/") (drop root_index components)
  end.

Definition root_cursor (candidate : CandidateFile) : DirectoryCursor :=
  {| candidate_id := cf_id candidate; host_prefix := [];
     logical_prefix := candidate_directory_prefix (cf_path candidate); depth := 0 |}.

Definition child (nm : text) (cursor : DirectoryCursor) : option DirectoryCursor :=
  host ← safe_relative_path (host_prefix cursor) nm;
  logical ← safe_relative_path (logical_prefix cursor) nm;
  Some {| candidate_id := candidate_id cursor; host_prefix := host; logical_prefix := logical;
          depth := S (depth cursor) |}.

Definition push_warning (code message : text) (c : CollectedSources) : CollectedSources :=
  {| files := files c; session_groups := session_groups c;
     cs_warnings := cs_warnings c ++ [warning code message] |}.

Definition push_host_warning (code error : text) (c : CollectedSources) : CollectedSources :=
  push_warning code (lit "SecureCRT configuration access failed (" ++ error ++ lit ").") c.

Definition push_file (path : text) (b : bytes) (c : CollectedSources) : CollectedSources :=
  {| files := files c ++ [(path, b)]; session_groups := session_groups c; cs_warnings := cs_warnings c |}.

Definition collect_session_group (path : text) (c : CollectedSources) : CollectedSources :=
  match session_directory_group_path path with
  | None => c
  | Some group =>
      {| files := files c; session_groups := set_insert group (session_groups c);
         cs_warnings := cs_warnings c |}
  end.

Context `{CrtHost}.

Definition collect_child_file (cursor : DirectoryCursor) (c : CollectedSources) : CollectedSources :=
  if MAX_SOURCE_FILES <=? length (files c) then
    push_warning (lit "securecrt_source_limit_reached")
      (lit "Additional SecureCRT configuration files were skipped.") c
  else
    match read_candidate_child_file (candidate_id cursor) (host_prefix cursor) with
    | inr b => push_file (logical_prefix cursor) b c
    | inl error => push_host_warning (lit "securecrt_read_file_failed") error c
    end.

(** One entry of a directory; [descend] collects a directory below it. *)
Definition collect_entry (descend : DirectoryCursor → CollectedSources → CollectedSources)
    (cursor : DirectoryCursor) (c : CollectedSources) (entry : DirectoryEntry) : CollectedSources :=
  match child (entry_name entry) cursor with
  | None =>
      push_warning (lit "securecrt_unsafe_path_skipped")
        (lit "An unsafe SecureCRT configuration path was skipped.") c
  | Some child =>
      if is_dir entry then descend child (collect_session_group (logical_prefix child) c)
      else match classify_source (logical_prefix child) with
      | Some _ => collect_child_file child c
      | None => c
      end
  end.

(** [collect_child_directory] and [collect_directory].  The guard on the depth ends the
    descent before the fuel does; more fuel changes nothing
    ([CrtTree.collect_child_directory_fuel]). *)
Fixpoint collect_child_directory (fuel : nat) (cursor : DirectoryCursor) (c : CollectedSources)
    : CollectedSources :=
  if MAX_DIRECTORY_DEPTH <? depth cursor then
    push_warning (lit "securecrt_directory_depth_exceeded")
      (lit "A SecureCRT configuration directory exceeded the supported nesting depth.") c
  else
    match fuel with
    | O => c
    | S fuel =>
        match read_candidate_directory (candidate_id cursor) (host_prefix cursor) with
        | inr entries =>
            foldl (collect_entry (collect_child_directory fuel) cursor) c (sort_by entry_name entries)
        | inl error => push_host_warning (lit "securecrt_read_directory_failed") error c
        end
    end.

Definition collect_directory (cursor : DirectoryCursor) (entries : list DirectoryEntry)
    (c : CollectedSources) : CollectedSources :=
  foldl (collect_entry (collect_child_directory (2 * MAX_DIRECTORY_DEPTH)) cursor) c
    (sort_by entry_name entries).

Definition collect_single_file (candidate : CandidateFile) (c : CollectedSources) : CollectedSources :=
  match classify_source (cf_path candidate) with
  | None =>
      push_warning (lit "securecrt_read_directory_failed")
        (lit "A SecureCRT configuration directory could not be read.") c
  | Some _ =>
      match read_file (cf_id candidate) with
      | inr b => push_file (cf_path candidate) b c
      | inl error => push_host_warning (lit "securecrt_read_file_failed") error c
      end
  end.

Definition read_candidate (c : CollectedSources) (candidate : CandidateFile) : CollectedSources :=
  match read_directory (cf_id candidate) with
  | inr entries =>
      let cursor := root_cursor candidate in
      collect_directory cursor entries (collect_session_group (logical_prefix cursor) c)
  | inl _ => collect_single_file candidate c
  end.

Definition no_sources : CollectedSources := {| files := []; session_groups := []; cs_warnings := [] |}.

Definition read_sources (candidates : list CandidateFile) : CollectedSources :=
  let c := foldl read_candidate no_sources candidates in
  {| files := sort_by fst (files c); session_groups := session_groups c; cs_warnings := cs_warnings c |}.

Definition parse_sources (collected : CollectedSources) (include_passwords : bool) : PreviewResult :=
  append_workspace_records (preview_records_from_sources (files collected) include_passwords)
    (session_groups collected).

Definition discovered_workspace_paths (preview : PreviewResult) : list text :=
  collect_set (omap (λ record,
    if bool_decide (kind record = lit "ssh") then s ← ssh record; group_path s
    else if bool_decide (kind record = lit "workspace") then workspace_path <$> workspace record
    else None) (pv_records preview)).

(** ** JSON *)

Definition warning_value (w : ImportWarning) : Value :=
  Object [(lit "code", Str (code w)); (lit "message", Str (message w))].

Definition auth_value (a : SshImportAuthMethod) : Value :=
  match a with
  | Password password => Object [(lit "password", Object [(lit "password", opt_str password)])]
  | PrivateKey key_path passphrase =>
      Object [(lit "private_key", Object [(lit "key_path", Str key_path); (lit "passphrase", opt_str passphrase)])]
  | Agent => Str (lit "agent")
  | AutoPublicKey => Str (lit "auto_public_key")
  end.

Definition opt_number (n : option N) : Value := from_option (λ n, Number (PosInt n)) Null n.

Definition ssh_value (s : SshImportRecord) : Value :=
  Object [(lit "name", Str (ssh_name s)); (lit "host", Str (ssh_host s)); (lit "port", opt_number (ssh_port s));
          (lit "username", Str (ssh_username s)); (lit "group_path", opt_str (group_path s));
          (lit "auth_method", auth_value (auth_method s)); (lit "init_script", opt_str (init_script s));
          (lit "jump_server", opt_value (jump_server s)); (lit "proxy", opt_value (proxy s))].

Definition quick_command_value (q : QuickCommandImportRecord) : Value :=
  Object [(lit "name", Str (qc_name q)); (lit "command", Str (qc_command q));
          (lit "group_name", opt_str (qc_group_name q)); (lit "shortcut", opt_str (shortcut q));
          (lit "description", opt_str (description q)); (lit "sort_order", Number (PosInt (sort_order q)));
          (lit "connection_source_id", opt_str (connection_source_id q))].

Definition record_value (r : ImportRecord) : Value :=
  Object [(lit "id", Str (id r)); (lit "importer_id", Str (importer_id r));
          (lit "source_label", Str (source_label r)); (lit "source_id", opt_str (source_id r));
          (lit "kind", Str (kind r)); (lit "display_name", Str (display_name r));
          (lit "database", opt_value (database r)); (lit "ssh", from_option ssh_value Null (ssh r));
          (lit "port_forwarding", opt_value (port_forwarding r));
          (lit "quick_command", from_option quick_command_value Null (quick_command r));
          (lit "workspace", from_option (λ w, Object [(lit "path", Str (workspace_path w))]) Null (workspace r));
          (lit "password_status", Str (password_status r));
          (lit "warnings", Array (warning_value <$> warnings r))].

Definition serialize_preview_records (preview : PreviewResult) : Value :=
  Array (record_value <$> pv_records preview).

Definition scan (_ : unit) : Value :=
  let candidates := list_candidate_files (lit "securecrt") in
  let collected := read_sources candidates in
  let parsed := parse_sources collected false in
  let preview := {| pv_records := pv_records parsed;
                    pv_warnings := pv_warnings parsed ++ cs_warnings collected |} in
  let availability :=
    if bool_decide (pv_records preview = []) then Str (lit "no_data")
    else Object [(lit "available",
           Object [(lit "estimated_count", Number (PosInt (N.of_nat (length (pv_records preview)))))])] in
  Object [(lit "importer_id", Str (lit "securecrt")); (lit "availability", availability);
          (lit "discovered_files", Array ((λ candidate,
             Object [(lit "candidate_id", Str (cf_id candidate)); (lit "display_path", Str (cf_path candidate))])
             <$> candidates));
          (lit "warnings", Array (warning_value <$> pv_warnings preview));
          (lit "discovered_workspace_paths", Array (Str <$> discovered_workspace_paths preview))].

Definition preview (include_passwords : bool) : Value :=
  let candidates := list_candidate_files (lit "securecrt") in
  serialize_preview_records (parse_sources (read_sources candidates) include_passwords).
End import.
