(* ===== verification/CrtTree.v ===== *)
(** * Importing SecureCRT settings: XML documents, and what the host is asked for

    An XML export is a document: elements in each other, empty elements, texts.  The machine
    that follows its events imports what a recursive function over the document does: each key
    by the fields directly in it and the names of the keys it is in, below a key of sessions
    as a session and below a button bar as commands.  The function is written without the
    importer's: names, fields, protocols, ports and buttons are described on the document.
    And the importer walks the directories that the host lists: whatever names the host gives,
    it is only asked for paths below a candidate that go down, and for a bounded number of
    files. *)

From S2P Require Import Prelude VncClipboard Text TextSearch JsonValue CrtModel CrtXml CrtImport.

(** ** Importing SecureCRT settings: a document *)

(** ** Documents and their events *)

Inductive Node : Type :=
  | Element (tag : text) (attrs : attributes) (children : list Node)
  | Hollow (tag : text) (attrs : attributes)
  | Chars (decoded : option text)
  | Aside.

Fixpoint events (node : Node) : list XmlEvent :=
  match node with
  | Element tag attrs children => Start tag attrs :: flat_map events children ++ [End_ tag]
  | Hollow tag attrs => [Empty tag attrs]
  | Chars decoded => [Characters decoded]
  | Aside => [OtherEvent]
  end.

Section node_ind.
Context (P : Node → Prop) (HElement : ∀ tag attrs children, Forall P children → P (Element tag attrs children))
  (HHollow : ∀ tag attrs, P (Hollow tag attrs)) (HChars : ∀ decoded, P (Chars decoded)) (HAside : P Aside).

Fixpoint node_induction (node : Node) : P node :=
  match node with
  | Element tag attrs children =>
      HElement tag attrs children
        ((fix go (rest : list Node) : Forall P rest :=
            match rest with
            | [] => Forall_nil_2 P
            | n :: rest => Forall_cons_2 P n rest (node_induction n) (go rest)
            end) children)
  | Hollow tag attrs => HHollow tag attrs
  | Chars decoded => HChars decoded
  | Aside => HAside
  end.
End node_ind.

(** ** Names *)

(** What is behind the last of a character. *)
Definition after_sep (sep : N) (t : text) : text :=
  foldl (λ part c, if (c =? sep)%N then [] else part ++ [c]) [] t.

(** A name without its prefix, whatever the case. *)
Definition is_named (nm : string) (tag : text) : bool := eq_ignore_ascii_case (after_sep 58 tag) (lit nm).

Definition is_key (tag : text) : bool := is_named "key" tag.
Definition is_field (tag : text) : bool := is_named "string" tag || is_named "dword" tag.
Definition is_root (nm : text) : bool := eq_ignore_ascii_case nm (lit "Sessions").
Definition is_bar (nm : text) : bool :=
  eq_ignore_ascii_case nm (lit "Button Bar") || eq_ignore_ascii_case nm (lit "Button Bars").

(** The first attribute called name that has a value. *)
Definition name_of (attrs : attributes) : option text :=
  head (omap (λ '(k, value), if is_named "name" k then value else None) attrs).

(** ** Fields *)

Abbreviation entries_list := (list (text * text)) (only parsing).

(** The value of a name among entries: of the last one with the name in any case. *)
Definition value_in (es : entries_list) (nm : text) : option text :=
  last (omap (λ '(n, value), if eq_ignore_ascii_case n nm then Some value else None) es).

(** The value that is not blank. *)
Definition filled (es : entries_list) (nm : text) : option text :=
  value ← value_in es nm; if bool_decide (trim value = []) then None else Some (trim value).

Definition hollow_entry (tag : text) (attrs : attributes) : entries_list :=
  if is_field tag then match name_of attrs with Some nm => [(nm, [])] | None => [] end else [].

(** All empty fields in a node: what is seen of a key that is too deep. *)
Fixpoint hollow_entries (node : Node) : entries_list :=
  match node with
  | Element _ _ children => flat_map hollow_entries children
  | Hollow tag attrs => hollow_entry tag attrs
  | _ => []
  end.

Section fields.
Context `{XmlLib}.

Fixpoint texts (node : Node) : list text :=
  match node with
  | Element _ _ children => flat_map texts children
  | Chars (Some t) => [trim (default t (unescape t))]
  | _ => []
  end.

(** A field with several texts has the last of them; one without a text is none. *)
Definition value_entry (attrs : attributes) (children : list Node) : entries_list :=
  match name_of attrs, last (flat_map texts children) with
  | Some nm, Some value => [(nm, value)]
  | _, _ => []
  end.

(** The fields of a node that belong to the key around it, if there may be [room] more keys in
    each other. *)
Fixpoint entries (room : nat) (node : Node) : entries_list :=
  match node with
  | Element tag attrs children =>
      if is_key tag then if room =? 0 then flat_map hollow_entries children else []
      else if is_field tag then value_entry attrs children
      else flat_map (entries room) children
  | Hollow tag attrs => hollow_entry tag attrs
  | _ => []
  end.

(** The keys directly in a node, with their fields; those that start the sessions apart. *)
Fixpoint child_keys (room : nat) (node : Node) : list (text * entries_list) :=
  match node with
  | Element tag attrs children =>
      if is_key tag then
        match room with
        | O => []
        | S room =>
            let nm := default [] (name_of attrs) in
            if is_root nm then [] else [(nm, flat_map (entries room) children)]
        end
      else if is_field tag then [] else flat_map (child_keys room) children
  | _ => []
  end.
End fields.

(** A key is too deep. *)
Fixpoint deep (room : nat) (node : Node) : bool :=
  match node with
  | Element tag _ children =>
      if is_key tag then match room with O => true | S room => existsb (deep room) children end
      else if is_field tag then false else existsb (deep room) children
  | _ => false
  end.

(** There is no key and no field in a field. *)
Fixpoint plain (node : Node) : bool :=
  match node with
  | Element tag _ children => negb (is_key tag || is_field tag) && forallb plain children
  | Hollow tag _ => negb (is_field tag)
  | _ => true
  end.
Fixpoint fields_plain (node : Node) : bool :=
  match node with
  | Element tag _ children => forallb (if is_field tag then plain else fields_plain) children
  | _ => true
  end.

(** ** What is found *)

Inductive Found : Type :=
  | Session (record : ImportRecord)
  | Command (group key label command : text)
  | Warned (w : ImportWarning).

Section reference.
Context (to_lowercase : N → list N) `{XmlLib} (path : text) (creds : gmap text CredentialMetadata).

(** The credential that the fields name, by its title in lower case. *)
Definition named_credential (es : entries_list) : option CredentialMetadata :=
  title ← filled es (lit "Credential Title"); creds !! to_ascii_lowercase title.

Definition user_of (es : entries_list) : text :=
  default (trim (default [] (named_credential es ≫= cred_username))) (filled es (lit "Username")).

Definition has_password (es : entries_list) : bool :=
  existsb (λ nm, bool_decide (is_Some (filled es (lit nm))))
    ["Password V2"; "Password"; "Credential Encrypted Password"] ||
  from_option encrypted_password false (named_credential es).

Definition key_file (es : entries_list) : option text :=
  head (omap (λ nm, filled es (lit nm)) ["Identity Filename V2"; "Identity File"]).

(** The port of the first of four names that there is, if it is one. *)
Definition port_number (es : entries_list) : option N :=
  match omap (λ nm, value_in es (lit nm)) ["[SSH2] Port"; "[SSH1] Port"; "[SSH] Port"; "Port"] with
  | [] => Some 22%N
  | value :: _ => parse_unsigned u16_max (trim value)
  end.

Definition protocol_is_ssh (es : entries_list) : bool :=
  existsb (λ nm, eq_ignore_ascii_case (default [] (filled es (lit "Protocol Name"))) (lit nm))
    ["SSH1"; "SSH2"; "SSH"].

(** The record of an SSH session with a host. *)
Definition session_import (source : text) (folders : list text) (nm host : text) (es : entries_list)
    : ImportRecord :=
  let group := join (lit "/") folders in
  {| id := record_id to_lowercase (lit "ssh") source; importer_id := lit "securecrt";
     source_label := lit "SecureCRT"; source_id := Some source; kind := lit "ssh"; display_name := nm;
     database := None;
     ssh := Some {| ssh_name := nm; ssh_host := host; ssh_port := Some (default 22%N (port_number es));
                    ssh_username := user_of es;
                    group_path := if bool_decide (group = []) then None else Some group;
                    auth_method := match key_file es with
                                   | Some file => PrivateKey file None
                                   | None => if has_password es then Password None else AutoPublicKey
                                   end;
                    init_script := None; jump_server := None; proxy := None |};
     port_forwarding := None; quick_command := None; workspace := None;
     password_status := if has_password es then lit "unsupported" else lit "missing";
     warnings := if has_password es then
       [warning (lit "securecrt_encrypted_password_not_imported")
          (lit "SecureCRT encrypted password was not imported because this importer does not decrypt configuration passwords.")]
       else [] |}.

(** A key in folders below a root. *)
Definition session (root : text) (folders : list text) (nm : text) (es : entries_list) : list Found :=
  let source := path ++ lit "#" ++ join (lit "/") (root :: folders ++ [nm]) in
  match port_number es with
  | Some _ => []
  | None => [Warned (warning (lit "securecrt_ssh_port_invalid")
      (lit "A SecureCRT SSH session had an invalid port and defaulted to 22: " ++ source))]
  end ++
  if protocol_is_ssh es then
    match filled es (lit "Hostname") with
    | Some host => [Session (session_import source folders nm host es)]
    | None => [Warned (warning (lit "securecrt_ssh_hostname_missing")
        (lit "A SecureCRT SSH session without a hostname was skipped: " ++ source))]
    end
  else [].

(** A button: only one that sends its command is imported. *)
Definition button (group key label : text) (command action : option text) : list Found :=
  if eq_ignore_ascii_case (default [] action) (lit "SEND")
  then match command with Some command => [Command group key label command] | None => [] end
  else [Warned (warning (lit "securecrt_button_action_not_imported")
          (lit "A non-SEND action in SecureCRT button bar " ++ group ++ lit " was skipped."))].

(** The buttons that are keys; one of a name that was seen has a number. *)
Fixpoint key_buttons (group : text) (seen : list text) (keys : list (text * entries_list)) : list Found :=
  match keys with
  | [] => []
  | (nm, es) :: keys =>
      let before := length (List.filter (eq_ignore_ascii_case nm) seen) in
      button group (if before =? 0 then nm else nm ++ lit "~" ++ show_N (N.of_nat (S before)))
        (default nm (filled es (lit "Name"))) (filled es (lit "Command")) (filled es (lit "Function")) ++
      key_buttons group (seen ++ [nm]) keys
  end.

(** The buttons that are fields: each name before a last part Name, in lower case, once. *)
Definition button_names (es : entries_list) : list text :=
  foldl (λ nms nm, if existsb (eq_ignore_ascii_case nm) nms then nms else nms ++ [nm]) []
    (omap (λ e, after_sep 47 <$> strip_suffix (lit "/name") (to_ascii_lowercase e.1)) es).

Definition field_buttons (group : text) (es : entries_list) : list Found :=
  flat_map (λ nm, button group nm (default nm (filled es (nm ++ lit "/Name")))
    (filled es (nm ++ lit "/Command")) (filled es (nm ++ lit "/Function"))) (button_names es).

(** The names from the first with a property on. *)
Fixpoint from_first (f : text → bool) (names : list text) : option (list text) :=
  match names with
  | [] => None
  | nm :: rest => if f nm then Some names else from_first f rest
  end.

(** A key below a root is a session, a key directly below a bar is a group of buttons. *)
Definition key_found (ancestors : list text) (nm : text) (es : entries_list)
    (keys : list (text * entries_list)) : list Found :=
  match from_first is_root ancestors with
  | Some (root :: folders) => session root folders nm es
  | _ =>
      if is_root nm then []
      else match from_first is_bar ancestors with
      | Some [_] => key_buttons nm [] keys ++ field_buttons nm es
      | _ => []
      end
  end.

(** What is in a key comes before the key. *)
Fixpoint import (room : nat) (ancestors : list text) (node : Node) : list Found :=
  match node with
  | Element tag attrs children =>
      if is_key tag then
        match room with
        | O => []
        | S room =>
            let nm := default [] (name_of attrs) in
            flat_map (import room (ancestors ++ [nm])) children ++
            key_found ancestors nm (flat_map (entries room) children) (flat_map (child_keys room) children)
        end
      else if is_field tag then [] else flat_map (import room ancestors) children
  | _ => []
  end.

(** The records, with the commands in their order. *)
Fixpoint numbered (n : nat) (found : list Found) : list ImportRecord :=
  match found with
  | [] => []
  | Session r :: found => r :: numbered n found
  | Command group key label command :: found =>
      quick_command_record to_lowercase (path ++ lit "#Button Bar/" ++ group ++ lit "/" ++ key)
        group label (decode_command command) (N.min (N.of_nat n) 2147483647) :: numbered (S n) found
  | Warned _ :: found => numbered n found
  end.

Definition warned (found : list Found) : list ImportWarning :=
  omap (λ f, match f with Warned w => Some w | _ => None end) found.
Definition commands (found : list Found) : nat :=
  length (List.filter (λ f, match f with Command _ _ _ _ => true | _ => false end) found).
End reference.

(** ** The names of the importer *)

Lemma after_sep_snoc sep t c :
  after_sep sep (t ++ [c]) = if (c =? sep)%N then [] else after_sep sep t ++ [c].
Proof. unfold after_sep. by rewrite foldl_app. Qed.

Lemma after_last_sep sep t : after_last sep t = after_sep sep t.
Proof.
  assert (∀ r, match split_once_at (N.eqb sep) r with
               | Some (part, _) => reverse part
               | None => reverse r
               end = after_sep sep (reverse r)) as E.
  { induction r as [|c r IH]; [done|]. rewrite reverse_cons, after_sep_snoc, <-IH. cbn [split_once_at].
    rewrite (N.eqb_sym sep c). destruct (c =? sep)%N; [done|].
    by destruct (split_once_at (N.eqb sep) r) as [[part rest]|]; rewrite ?reverse_cons. }
  specialize (E (reverse t)). rewrite reverse_involutive in E. exact E.
Qed.

Lemma lower_lower (t : text) : to_ascii_lowercase (to_ascii_lowercase t) = to_ascii_lowercase t.
Proof.
  unfold to_ascii_lowercase. rewrite <-list_fmap_compose. apply list_fmap_ext. intros _ c _.
  unfold compose, ascii_lower. destruct (N.leb_spec 65 c), (N.leb_spec c 90); cbn [andb];
    destruct (N.leb_spec 65 (c + 32)), (N.leb_spec (c + 32) 90); cbn [andb]; try lia;
    destruct (N.leb_spec 65 c), (N.leb_spec c 90); cbn [andb]; lia.
Qed.

Lemma same_name (s : text) (t : string) :
  to_ascii_lowercase (lit t) = lit t → bool_decide (to_ascii_lowercase s = lit t) = eq_ignore_ascii_case s (lit t).
Proof. intros E. unfold eq_ignore_ascii_case. by rewrite E. Qed.

Lemma key_tag tag : bool_decide (tag_name tag = lit "key") = is_key tag.
Proof. unfold tag_name. rewrite after_last_sep. by apply same_name. Qed.

Lemma field_tag tag : is_field_tag (tag_name tag) = is_field tag.
Proof.
  unfold is_field_tag, one_of, tag_name, is_field, is_named. rewrite after_last_sep. cbn [existsb].
  by rewrite !same_name, orb_false_r.
Qed.

Lemma key_no_field tag : is_key tag = true → is_field tag = false.
Proof.
  rewrite <-key_tag, <-field_tag. intros Hk%bool_decide_eq_true. by rewrite Hk.
Qed.

Lemma attribute_name attrs : attribute attrs (lit "name") = name_of attrs.
Proof.
  unfold name_of. induction attrs as [|[k [value|]] attrs IH]; [done|..]; cbn [attribute omap list_omap].
  - unfold tag_name. rewrite after_last_sep, same_name by done. unfold is_named.
    destruct (eq_ignore_ascii_case _ _); [done|exact IH].
  - destruct (is_named "name" k); exact IH.
Qed.

(** ** The fields of the importer *)

Definition put (frame : KeyFrame) (e : text * text) : KeyFrame := insert_into e.1 e.2 frame.
Definition fields_of (es : entries_list) : gmap text text :=
  foldl (λ fs e, <[to_ascii_lowercase e.1 := e.2]> fs) ∅ es.

Lemma fields_of_snoc es e : fields_of (es ++ [e]) = <[to_ascii_lowercase e.1 := e.2]> (fields_of es).
Proof. unfold fields_of. by rewrite foldl_app. Qed.

Lemma value_in_snoc es e nm :
  value_in (es ++ [e]) nm = if eq_ignore_ascii_case e.1 nm then Some e.2 else value_in es nm.
Proof.
  unfold value_in. rewrite omap_app. destruct e as [n v]. cbn [omap list_omap fst snd].
  destruct (eq_ignore_ascii_case n nm); [by rewrite last_snoc|by rewrite app_nil_r].
Qed.

Lemma fields_of_lookup es nm : fields_of es !! to_ascii_lowercase nm = value_in es nm.
Proof.
  induction es as [|e es IH] using rev_ind; [done|].
  rewrite fields_of_snoc, value_in_snoc, <-IH. unfold eq_ignore_ascii_case.
  case_bool_decide as E; [by rewrite E, lookup_insert_eq|by rewrite lookup_insert_ne].
Qed.

Lemma field_filled es nm : field (fields_of es) nm = filled es nm.
Proof. unfold field, filled. by rewrite fields_of_lookup. Qed.

Lemma filled_trim es nm value : filled es nm = Some value → trim value = value ∧ value ≠ [].
Proof.
  unfold filled. intros (v & _ & H)%bind_Some. case_bool_decide; [done|]. simplify_eq.
  by rewrite trim_idempotent.
Qed.

(** ** Sessions *)

Section sessions.
Context (to_lowercase : N → list N) (path : text) (creds : gmap text CredentialMetadata) (es : entries_list).

Let enriched : gmap text text := enrich_from_credential (fields_of es) creds.

(** A credential adds a user, and that there is a password. *)
Lemma enriched_eq :
  enriched =
  match named_credential creds es with
  | None => fields_of es
  | Some c =>
      let fs := match filled es (lit "Username"), cred_username c with
                | None, Some user => if bool_decide (user = []) then fields_of es
                                     else <[lit "username" := user]> (fields_of es)
                | _, _ => fields_of es
                end in
      if encrypted_password c then <[lit "credential encrypted password" := lit "present"]> fs else fs
  end.
Proof.
  unfold enriched, enrich_from_credential, named_credential. rewrite !field_filled.
  destruct (filled es (lit "Credential Title")) as [title|]; [|done]. cbn [mbind option_bind].
  by destruct (creds !! to_ascii_lowercase title).
Qed.

Lemma enriched_other k :
  k ≠ lit "username" → k ≠ lit "credential encrypted password" → enriched !! k = fields_of es !! k.
Proof.
  intros H1 H2. rewrite enriched_eq. destruct (named_credential creds es) as [c|]; [|done]. cbv zeta.
  destruct (encrypted_password c); rewrite ?lookup_insert_ne by done;
    repeat (case_match; try done); by rewrite lookup_insert_ne.
Qed.

Lemma enriched_field nm :
  to_ascii_lowercase nm ≠ lit "username" → to_ascii_lowercase nm ≠ lit "credential encrypted password" →
  field enriched nm = filled es nm.
Proof. intros H1 H2. unfold field. by rewrite enriched_other, fields_of_lookup by done. Qed.

Lemma enriched_user : default [] (field enriched (lit "Username")) = user_of creds es.
Proof.
  unfold user_of.
  assert (field enriched (lit "Username") =
    field (match named_credential creds es with
           | None => fields_of es
           | Some c => match filled es (lit "Username"), cred_username c with
                       | None, Some user => if bool_decide (user = []) then fields_of es
                                            else <[lit "username" := user]> (fields_of es)
                       | _, _ => fields_of es
                       end
           end) (lit "Username")) as ->.
  { rewrite enriched_eq. destruct (named_credential creds es) as [c|]; [|done]. cbv zeta.
    destruct (encrypted_password c); [|done]. unfold field. by rewrite lookup_insert_ne. }
  destruct (named_credential creds es) as [c|]; [|by rewrite field_filled; destruct (filled es _)].
  destruct (filled es (lit "Username")) as [user|] eqn:E; [by rewrite field_filled, E|]. cbn [mbind option_bind default].
  destruct (cred_username c) as [user|]; [|by rewrite field_filled, E]. cbn [default].
  case_bool_decide as Hu; [by rewrite field_filled, E, Hu|].
  unfold field. change (to_ascii_lowercase (lit "Username")) with (lit "username").
  rewrite lookup_insert_eq. cbn [mbind option_bind]. change (Datatypes.id user) with user.
  by case_bool_decide as Ht; [rewrite Ht|].
Qed.

Lemma enriched_password :
  has_value enriched (lit "Password V2") || has_value enriched (lit "Password") ||
  has_value enriched (lit "Credential Encrypted Password") = has_password creds es.
Proof.
  unfold has_password, has_value. cbn [existsb]. rewrite !enriched_field by done.
  rewrite orb_false_r. rewrite <-!orb_assoc. f_equal; [by destruct (filled es (lit "Password V2"))|].
  f_equal; [by destruct (filled es (lit "Password"))|].
  set (k := lit "Credential Encrypted Password").
  assert (field enriched k = if from_option encrypted_password false (named_credential creds es)
                             then Some (lit "present") else filled es k) as ->.
  { rewrite enriched_eq. destruct (named_credential creds es) as [c|]; [|by rewrite field_filled]. cbv zeta.
    cbn [from_option]. destruct (encrypted_password c).
    - unfold field. change (to_ascii_lowercase k) with (lit "credential encrypted password").
      by rewrite lookup_insert_eq.
    - rewrite <-(field_filled es k). unfold field.
      destruct (filled es (lit "Username")), (cred_username c) as [user|]; try done.
      case_bool_decide; [done|]. by rewrite lookup_insert_ne. }
  destruct (from_option _ _ _); [by rewrite orb_true_r|]. by destruct (filled es k).
Qed.

Lemma enriched_port source :
  xml_port enriched source =
  (Some (default 22%N (port_number es)),
   match port_number es with Some _ => [] | None => [invalid_port source] end).
Proof.
  unfold xml_port, port_number. cbn [port_of omap list_omap].
  rewrite !enriched_other by done.
  rewrite (fields_of_lookup es (lit "[SSH2] Port") : fields_of es !! lit "[ssh2] port" = _).
  rewrite (fields_of_lookup es (lit "[SSH1] Port") : fields_of es !! lit "[ssh1] port" = _).
  rewrite (fields_of_lookup es (lit "[SSH] Port") : fields_of es !! lit "[ssh] port" = _).
  rewrite (fields_of_lookup es (lit "Port") : fields_of es !! lit "port" = _).
  repeat match goal with |- context [value_in es ?nm] => destruct (value_in es nm) end;
    by try destruct (parse_unsigned _ _).
Qed.

Lemma enriched_protocol :
  is_ssh_protocol (default [] (field enriched (lit "Protocol Name"))) = protocol_is_ssh es.
Proof.
  rewrite enriched_field by done. unfold is_ssh_protocol, protocol_is_ssh.
  set (protocol := default [] (filled es (lit "Protocol Name"))).
  assert (trim protocol = protocol) as ->.
  { unfold protocol. destruct (filled es _) as [p|] eqn:E; [|done]. by apply filled_trim in E as [? _]. }
  done.
Qed.

Lemma enriched_key_file :
  match field enriched (lit "Identity Filename V2") with
  | Some value => Some value
  | None => field enriched (lit "Identity File")
  end = key_file es.
Proof.
  rewrite !enriched_field by done. unfold key_file. cbn [omap list_omap].
  destruct (filled es (lit "Identity Filename V2")); [done|]. by destruct (filled es _).
Qed.

(** The session of a key is what the importer makes of its fields. *)
Lemma session_found root folders nm :
  let source := path ++ lit "#" ++ join (lit "/") (root :: folders ++ [nm]) in
  let group := join (lit "/") folders in
  let '(port, ws) := xml_port enriched source in
  let '(record, ws') :=
    ssh_record to_lowercase source (if bool_decide (group = []) then None else Some group) nm enriched port in
  session to_lowercase path creds root folders nm es =
  (Warned <$> ws ++ ws') ++ (Session <$> option_list record).
Proof.
  intros source group. rewrite enriched_port. unfold ssh_record, session. fold source.
  rewrite enriched_protocol, enriched_user, enriched_password, enriched_key_file, enriched_field by done.
  destruct (protocol_is_ssh es); cbn [negb]; [|by destruct (port_number es)].
  destruct (filled es (lit "Hostname")) as [host|]; [|by destruct (port_number es)].
  unfold session_import. fold group.
  by destruct (port_number es), (key_file es), (has_password creds es).
Qed.
End sessions.

(** ** The machine on a document *)

Section machine.
Context (to_lowercase : N → list N) `{XmlLib} (path : text) (creds : gmap text CredentialMetadata).

#[local] Abbreviation run := (xml_run to_lowercase path creds).
#[local] Abbreviation imported := (import to_lowercase path creds).

Lemma run_app st es es' :
  run st (es ++ es') = let '(st, ws) := run st es in let '(st, ws') := run st es' in (st, ws ++ ws').
Proof.
  revert st. induction es as [|e es IH]; intros st; cbn [app xml_run]; [by destruct (run _ es')|].
  destruct (xml_step _ _ _ st e) as [st1 ws1]. rewrite IH.
  destruct (run st1 es) as [st2 ws2]. destruct (run st2 es') as [st3 ws3]. by rewrite app_assoc.
Qed.

(** A frame with more fields and more keys in it. *)
Definition fill (es : entries_list) (ks : list KeyFrame) (frame : KeyFrame) : KeyFrame :=
  foldl (λ f k, add_child_button k f) (foldl put frame es) ks.

Lemma fill_fill es ks es' ks' frame :
  fill es' ks' (fill es ks frame) = fill (es ++ es') (ks ++ ks') frame.
Proof.
  unfold fill. rewrite !foldl_app. f_equal. generalize (foldl put frame es) as f. clear frame.
  induction es' as [|e es' IH]; intros f; [done|]. cbn [foldl]. rewrite <-IH. f_equal.
  clear IH. revert f. induction ks as [|k ks IHk]; intros f; [done|]. cbn [foldl]. by rewrite IHk.
Qed.

Lemma fill_name es ks frame : name (fill es ks frame) = name frame.
Proof.
  unfold fill. transitivity (name (foldl put frame es)).
  - generalize (foldl put frame es). induction ks as [|k ks IH]; intros f; [done|]. cbn [foldl]. by rewrite IH.
  - revert frame. induction es as [|e es IH]; intros f; [done|]. cbn [foldl]. by rewrite IH.
Qed.

Lemma fill_keys es ks frame :
  let frame' := fill es ks frame in
  frame_fields frame' = frame_fields (foldl put frame es) ∧
  field_order frame' = field_order (foldl put frame es) ∧
  child_buttons frame' = child_buttons frame ++ ks.
Proof.
  unfold fill. assert (child_buttons (foldl put frame es) = child_buttons frame) as <-.
  { revert frame. induction es as [|e es IH]; intros f; [done|]. cbn [foldl]. by rewrite IH. }
  generalize (foldl put frame es) as f. induction ks as [|k ks IH]; intros f; cbn [foldl];
    [by rewrite app_nil_r|]. destruct (IH (add_child_button k f)) as (-> & -> & ->).
  cbn [add_child_button frame_fields field_order child_buttons]. by rewrite <-app_assoc.
Qed.

(** The state after a part of a document in the key at the top. *)
Definition after (es : entries_list) (ks : list KeyFrame) (dp : bool) (found : list Found) (st : XmlState)
    : XmlState :=
  {| stack := match stack st with [] => [] | frame :: below => fill es ks frame :: below end;
     current_field := current_field st;
     records := records st ++ numbered to_lowercase path (button_count st) found;
     depth_exceeded := depth_exceeded st || dp; ignored_depth := ignored_depth st;
     button_count := button_count st + commands found;
     depth_warning := if dp && negb (depth_exceeded st) then Some depth_message else depth_warning st |}.

Lemma numbered_app n found found' :
  numbered to_lowercase path n (found ++ found') =
  numbered to_lowercase path n found ++ numbered to_lowercase path (n + commands found) found'.
Proof.
  revert n. induction found as [|[r|group key label command|w] found IH]; intros n; cbn [app numbered].
  - by rewrite Nat.add_0_r.
  - by rewrite IH.
  - rewrite IH. cbn [app]. change (commands (Command group key label command :: found)) with (S (commands found)).
    by rewrite Nat.add_succ_r.
  - by rewrite IH.
Qed.

Lemma commands_app found found' : commands (found ++ found') = commands found + commands found'.
Proof. unfold commands. by rewrite List.filter_app, length_app. Qed.

Lemma after_after es ks dp found es' ks' dp' found' st :
  after es' ks' dp' found' (after es ks dp found st) =
  after (es ++ es') (ks ++ ks') (dp || dp') (found ++ found') st.
Proof.
  unfold after. cbn [stack current_field records depth_exceeded ignored_depth button_count depth_warning].
  rewrite numbered_app, commands_app, app_assoc, Nat.add_assoc, orb_assoc. f_equal.
  - destruct (stack st); [done|]. by rewrite fill_fill.
  - by destruct dp, dp', (depth_exceeded st).
Qed.

Lemma after_nil st : after [] [] false [] st = st.
Proof.
  destruct st as [s f r d i b w]. unfold after. cbn.
  rewrite app_nil_r, Nat.add_0_r, orb_false_r. by destruct s.
Qed.

Lemma run_no_events st : run st [] = (after [] [] false [] st, warned []).
Proof. cbn [xml_run]. by rewrite after_nil. Qed.

Lemma warned_app found found' : warned (found ++ found') = warned found ++ warned found'.
Proof. apply omap_app. Qed.

(** ** Commands and sessions *)

Lemma session_step root folders nm es st :
  let source := path ++ lit "#" ++ join (lit "/") (root :: folders ++ [nm]) in
  let group := join (lit "/") folders in
  let fs := enrich_from_credential (fields_of es) creds in
  (let '(port, ws) := xml_port fs source in
   let '(record, ws') :=
     ssh_record to_lowercase source (if bool_decide (group = []) then None else Some group) nm fs port in
   (match record with Some r => add_record r st | None => st end, ws ++ ws')) =
  (after [] [] false (session to_lowercase path creds root folders nm es) st,
   warned (session to_lowercase path creds root folders nm es)).
Proof.
  intros source group fs. pose proof (session_found to_lowercase path creds es root folders nm) as Hs.
  cbv zeta in Hs. fold source group fs in Hs.
  destruct (xml_port fs source) as [port ws], (ssh_record _ _ _ _ _ _) as [record ws']. rewrite Hs.
  rewrite warned_app. f_equal.
  - assert (∀ ws found, after [] [] false ((Warned <$> ws) ++ found) st = after [] [] false found st) as ->.
    { clear. intros ws found. induction ws as [|w ws IH]; [done|]. by rewrite <-IH. }
    destruct record; [|by rewrite after_nil]. unfold after, add_record. cbn.
    rewrite Nat.add_0_r, orb_false_r. f_equal. by destruct (stack st).
  - destruct record; cbn [option_list fmap list_fmap warned omap list_omap]; rewrite app_nil_r;
      by (generalize (ws ++ ws') as l; induction l as [|w l IH]; [done|cbn; f_equal; exact IH]).
Qed.

Lemma push_button_step group key label command action st :
  command ≠ Some [] →
  push_button to_lowercase path group key label command action st =
  (after [] [] false (button group key label command action) st,
   warned (button group key label command action)).
Proof.
  intros Hc. unfold push_button, button. destruct (eq_ignore_ascii_case _ _); cbn [negb].
  - destruct command as [[|c command]|]; [done| |by rewrite after_nil].
    unfold push_quick_command, after, add_record. cbn. rewrite orb_false_r, Nat.add_1_r. f_equal. f_equal.
    by destruct (stack st).
  - f_equal. unfold after. cbn. rewrite app_nil_r, Nat.add_0_r, orb_false_r.
    destruct st as [[|? ?] ? ? ? ? ? ?]; done.
Qed.

Lemma filled_nonempty es nm : filled es nm ≠ Some [].
Proof. intros E. by apply filled_trim in E as [_ ?]. Qed.

(** How often a name was seen. *)
Definition seen_count (seen : list text) (nm : text) : nat :=
  length (List.filter (eq_ignore_ascii_case nm) seen).

Definition describes (frame : KeyFrame) (key : text * entries_list) : Prop :=
  name frame = key.1 ∧ frame_fields frame = fields_of key.2.

Lemma key_buttons_step group frames keys : Forall2 describes frames keys →
  ∀ seen occurrences st,
    (∀ nm, default 0 (occurrences !! to_ascii_lowercase nm) = seen_count seen nm) →
    child_button_loop to_lowercase path group occurrences frames st =
    (after [] [] false (key_buttons group seen keys) st, warned (key_buttons group seen keys)).
Proof.
  induction 1 as [|frame [nm es] frames keys [Hn Hf] _ IH]; intros seen occurrences st Hocc;
    cbn [child_button_loop key_buttons]; [by rewrite after_nil|].
  cbn [fst snd] in Hn, Hf. rewrite Hn, Hf, !field_filled, Hocc. fold (seen_count seen nm).
  replace (S (seen_count seen nm) =? 1) with (seen_count seen nm =? 0) by done.
  rewrite push_button_step by apply filled_nonempty. cbv beta iota.
  rewrite (IH (seen ++ [nm])).
  - by rewrite after_after, warned_app.
  - intros nm'. unfold seen_count. rewrite List.filter_app, length_app. fold (seen_count seen nm').
    cbn [List.filter]. unfold eq_ignore_ascii_case. case_bool_decide as E.
    + assert (seen_count seen nm' = seen_count seen nm) as -> by by rewrite <-!Hocc, E.
      rewrite E, lookup_insert_eq, Nat.add_comm. done.
    + rewrite lookup_insert_ne by congruence. cbn. rewrite Hocc. lia.
Qed.

Lemma field_buttons_step group es keys st :
  field_button_loop to_lowercase path group (fields_of es) keys st =
  let found := flat_map (λ nm, button group nm (default nm (filled es (nm ++ lit "/Name")))
    (filled es (nm ++ lit "/Command")) (filled es (nm ++ lit "/Function"))) keys in
  (after [] [] false found st, warned found).
Proof.
  revert st. induction keys as [|nm keys IH]; intros st; cbn [field_button_loop flat_map]; [by rewrite after_nil|].
  assert (∀ t, field (fields_of es) (to_ascii_lowercase nm ++ t) = filled es (nm ++ t)) as E.
  { intros t. rewrite <-field_filled. unfold field.
    assert (to_ascii_lowercase (to_ascii_lowercase nm ++ t) = to_ascii_lowercase (nm ++ t)) as ->; [|done].
    unfold to_ascii_lowercase at 1 3. rewrite !fmap_app. f_equal. apply lower_lower. }
  rewrite !E, push_button_step by apply filled_nonempty. cbv beta iota. rewrite IH. cbv zeta.
  by rewrite after_after, warned_app.
Qed.

(** A name of a button is added once. *)
Definition add_button (nms : list text) (key : text) : list text :=
  match strip_suffix (lit "/name") key with
  | None => nms
  | Some prefix =>
      if existsb (eq_ignore_ascii_case (after_sep 47 prefix)) nms then nms else nms ++ [after_sep 47 prefix]
  end.

Lemma add_button_twice nms keys key : key ∈ keys →
  add_button (foldl add_button nms keys) key = foldl add_button nms keys.
Proof.
  intros Hin. unfold add_button at 1. destruct (strip_suffix _ key) as [prefix|] eqn:E; [|done].
  set (nm := after_sep 47 prefix). assert (existsb (eq_ignore_ascii_case nm) (foldl add_button nms keys) = true) as ->; [|done].
  assert (∀ keys nms, existsb (eq_ignore_ascii_case nm) nms = true →
            existsb (eq_ignore_ascii_case nm) (foldl add_button nms keys) = true) as Hmono.
  { clear. induction keys as [|key keys IH]; intros nms Hn; [done|]. apply IH. unfold add_button.
    destruct (strip_suffix _ key) as [p|]; [|done]. destruct (existsb (eq_ignore_ascii_case (after_sep 47 p)) nms); [done|].
    by rewrite existsb_app, Hn. }
  apply list_elem_of_split in Hin as (k1 & k2 & ->). rewrite foldl_app. cbn [foldl]. apply Hmono.
  unfold add_button at 1. rewrite E. fold nm.
  destruct (existsb (eq_ignore_ascii_case nm) (foldl add_button nms k1)) eqn:E'; [done|].
  assert (eq_ignore_ascii_case nm nm = true) as Hnm by by apply bool_decide_true.
  rewrite existsb_app. cbn [existsb]. by rewrite Hnm, orb_true_r.
Qed.

Lemma button_names_keys es : button_names es = foldl add_button [] ((λ e, to_ascii_lowercase e.1) <$> es).
Proof.
  induction es as [|e es IH] using rev_ind; [done|]. unfold button_names in *.
  rewrite fmap_app, omap_app, !foldl_app, <-IH. cbn [fmap list_fmap foldl omap list_omap]. unfold add_button.
  by destruct (strip_suffix _ _).
Qed.

Lemma put_keys frame es :
  field_names frame = ∅ → field_order frame = [] →
  let frame' := foldl put frame es in
  (∀ k, is_Some (field_names frame' !! k) ↔ k ∈ field_order frame') ∧
  foldl add_button [] (field_order frame') = foldl add_button [] ((λ e, to_ascii_lowercase e.1) <$> es).
Proof.
  intros Hnames Horder. induction es as [|e es IH] using rev_ind; cbn [foldl fmap list_fmap].
  - rewrite Hnames, Horder. split; [|done]. intros k. rewrite lookup_empty, elem_of_nil. by split; [intros []|].
  - cbv zeta in IH. rewrite foldl_app, fmap_app, foldl_app. destruct IH as [Hin <-].
    set (f := foldl put frame es) in *. cbn [foldl fmap list_fmap put insert_into field_names field_order].
    set (k := to_ascii_lowercase e.1). case_bool_decide as E.
    + split; [|symmetry; apply add_button_twice; by apply Hin]. intros k'.
      destruct (decide (k = k')) as [<-|]; [rewrite lookup_insert_eq; split; intros; [by apply Hin|done]|].
      by rewrite lookup_insert_ne.
    + split; [|by rewrite foldl_app]. intros k'. rewrite elem_of_app, list_elem_of_singleton, <-Hin.
      destruct (decide (k = k')) as [<-|]; [rewrite lookup_insert_eq; split; intros; [by right|done]|].
      rewrite lookup_insert_ne by done. split; [by left|]. intros [?| ->]; done.
Qed.

Lemma ordered_names_keys keys : ordered_names keys (lit "Name") = foldl add_button [] keys.
Proof.
  unfold ordered_names. change (to_ascii_lowercase (lit "/" ++ lit "Name")) with (lit "/name").
  induction keys as [|key keys IH] using rev_ind; [done|]. rewrite !foldl_app, IH. cbn [foldl].
  generalize (foldl add_button [] keys) as nms0. intros nms0. unfold add_button.
  destruct (strip_suffix _ key) as [prefix|]; [|done]. rewrite after_last_sep. clear IH.
  assert (∀ nm nms, existsb (λ n, eq_ignore_ascii_case n nm) nms = existsb (eq_ignore_ascii_case nm) nms) as ->; [|done].
  intros nm nms. induction nms as [|n nms IHn]; [done|]. cbn [existsb]. rewrite IHn. f_equal.
  unfold eq_ignore_ascii_case. by apply bool_decide_ext.
Qed.

(** ** The end of a key *)

Lemma position_cons {A} (f : A → bool) x l :
  position f (x :: l) = if f x then Some 0 else S <$> position f l.
Proof.
  unfold position. cbn [list_find]. destruct (f x) eqn:E; [by rewrite decide_True|].
  rewrite decide_False by congruence. by destruct (list_find _ l) as [[]|].
Qed.

Lemma position_snoc {A} (f : A → bool) l x :
  position f (l ++ [x]) =
  match position f l with Some i => Some i | None => if f x then Some (length l) else None end.
Proof.
  induction l as [|y l IH]; cbn [app]; rewrite ?position_cons; [by destruct (f x)|].
  destruct (f y); [done|]. rewrite IH. by destruct (position f l), (f x).
Qed.

Lemma from_first_position f l :
  match from_first f l with
  | None => position f l = None
  | Some s => ∃ before, l = before ++ s ∧ position f l = Some (length before) ∧ s ≠ []
  end.
Proof.
  induction l as [|x l IH]; [done|]. cbn [from_first]. rewrite position_cons.
  destruct (f x); [by exists []|]. destruct (from_first f l) as [s|]; [|by rewrite IH].
  destruct IH as (before & -> & -> & Hs). by exists (x :: before).
Qed.

Lemma from_first_app f l l' :
  from_first f (l ++ l') = match from_first f l with Some s => Some (s ++ l') | None => from_first f l' end.
Proof. induction l as [|x l IH]; [done|]. cbn [app from_first]. by destruct (f x). Qed.

Lemma put_fields frame es :
  frame_fields (foldl put frame es) = foldl (λ fs e, <[to_ascii_lowercase e.1 := e.2]> fs) (frame_fields frame) es.
Proof. revert frame. induction es as [|e es IH]; intros f; [done|]. cbn [foldl]. by rewrite IH. Qed.

(** A key becomes a button of the one around it. *)
Definition is_button (ancestors : list text) (nm : text) : bool :=
  match from_first is_root ancestors with
  | Some _ => false
  | None =>
      negb (is_root nm) && match from_first is_bar ancestors with Some (_ :: _ :: _) => true | _ => false end
  end.

(** The children of a group of buttons are its keys. *)
Definition buttons_match (ancestors : list text) (ks : list KeyFrame) (keys : list (text * entries_list)) : Prop :=
  ∀ bar nm, from_first is_bar ancestors = Some [bar; nm] → from_first is_root ancestors = None →
  Forall2 describes ks keys.

Lemma finish_bar_step ancestors nm es ks keys st :
  buttons_match (ancestors ++ [nm]) ks keys → from_first is_root ancestors = None → is_root nm = false →
  is_button ancestors nm = false →
  let found := match from_first is_bar ancestors with
               | Some [_] => key_buttons nm [] keys ++ field_buttons nm es
               | _ => []
               end in
  finish_button_bar to_lowercase path (fill es ks (new_frame nm)) (ancestors ++ [nm]) st =
  (after [] [] false found st, warned found).
Proof.
  intros Hm Hroot Hnm Hb. unfold finish_button_bar, button_bar_index. change is_button_bar_key with is_bar.
  rewrite position_snoc. pose proof (from_first_position is_bar ancestors) as Hpos.
  unfold is_button in Hb. rewrite Hroot, Hnm in Hb. cbn [negb andb] in Hb.
  destruct (from_first is_bar ancestors) as [[|bar [|b s]]|] eqn:Ebar; [|..|].
  - by destruct Hpos as (? & _ & _ & []).
  - destruct Hpos as (before & -> & -> & _).
    assert (((before ++ [bar]) ++ [nm]) !! (length before + 1) = Some nm) as ->.
    { by rewrite <-app_assoc, lookup_app_r, Nat.add_sub_swap, Nat.sub_diag by lia. }
    destruct (fill_keys es ks (new_frame nm)) as (Hfields & Horder & Hbuttons).
    rewrite Hfields, Horder, Hbuttons, put_fields, ordered_names_keys.
    destruct (put_keys (new_frame nm) es) as [_ ->]; [done..|]. rewrite <-button_names_keys.
    change (child_buttons (new_frame nm) ++ ks) with ks. change (foldl _ _ es) with (fields_of es).
    rewrite (key_buttons_step nm ks keys) with (seen := []); [|apply (Hm bar nm)|done];
      [|by rewrite from_first_app, Ebar|by rewrite from_first_app, Hroot; cbn [from_first]; rewrite Hnm].
    rewrite field_buttons_step. cbv zeta. fold (field_buttons nm es). by rewrite after_after, warned_app.
  - done.
  - rewrite Hpos. destruct (is_bar nm); [|by rewrite after_nil].
    by rewrite lookup_ge_None_2, after_nil by (rewrite length_app; simpl; lia).
Qed.

(** The end of a session. *)
Lemma finish_session_step before root folders nm frame st :
  reverse (name <$> stack st) = before ++ root :: folders → name frame = nm →
  position is_root (before ++ root :: folders) = Some (length before) →
  finish_key to_lowercase path creds (set_stack (frame :: stack st) st) =
  let fs := enrich_from_credential (frame_fields frame) creds in
  let source := path ++ lit "#" ++ join (lit "/") (root :: folders ++ [nm]) in
  let group := join (lit "/") folders in
  let '(port, ws) := xml_port fs source in
  let '(record, ws') :=
    ssh_record to_lowercase source (if bool_decide (group = []) then None else Some group) nm fs port in
  (match record with Some r => add_record r st | None => st end, ws ++ ws').
Proof.
  intros Hnames Hname Hpos. unfold finish_key. cbn [stack set_stack]. rewrite Hnames, Hname.
  change (λ n, eq_ignore_ascii_case n (lit "Sessions")) with is_root.
  rewrite position_snoc, Hpos, <-app_assoc. cbn [app].
  rewrite length_app. cbn [length]. rewrite length_app. cbn [length].
  rewrite (proj2 (Nat.leb_gt _ _)) by lia. rewrite drop_app_length, (Nat.add_1_r (length before)).
  assert (drop (S (length before)) (before ++ root :: folders ++ [nm]) = folders ++ [nm]) as ->.
  { change (root :: folders ++ [nm]) with ([root] ++ folders ++ [nm]).
    rewrite app_assoc, drop_app_length'; [done|]. rewrite length_app. simpl. lia. }
  replace (length before + S (length folders + 1) - 1 - S (length before)) with (length folders) by lia.
  rewrite take_app_length. by destruct st.
Qed.

Lemma button_position ancestors nm :
  from_first is_root ancestors = None → is_root nm = false →
  match button_bar_index (ancestors ++ [nm]) with
  | Some b => b + 2 <? length (ancestors ++ [nm])
  | None => false
  end = is_button ancestors nm.
Proof.
  intros Hroot Hnm. unfold is_button, button_bar_index. rewrite Hroot, Hnm. cbn [negb andb].
  change is_button_bar_key with is_bar. rewrite position_snoc.
  pose proof (from_first_position is_bar ancestors) as Hp.
  destruct (from_first is_bar ancestors) as [s|].
  - destruct Hp as (before & -> & -> & Hs). destruct s as [|bar [|b s]]; [done|..].
    + apply Nat.ltb_ge. rewrite !length_app. simpl. lia.
    + apply Nat.ltb_lt. rewrite !length_app. simpl. lia.
  - rewrite Hp. destruct (is_bar nm); [|done]. apply Nat.ltb_ge. rewrite length_app. simpl. lia.
Qed.

(** The end of a key, whose frame is the top of the stack. *)
Lemma finish_key_step ancestors nm es ks keys st :
  buttons_match (ancestors ++ [nm]) ks keys → reverse (name <$> stack st) = ancestors →
  let frame := fill es ks (new_frame nm) in
  let found := key_found to_lowercase path creds ancestors nm es keys in
  finish_key to_lowercase path creds (set_stack (frame :: stack st) st) =
  (after [] (if is_button ancestors nm then [frame] else []) false found st, warned found).
Proof.
  intros Hm Hnames frame found.
  assert (name frame = nm) as Hname by by unfold frame; rewrite fill_name.
  unfold found, key_found. pose proof (from_first_position is_root ancestors) as Hpos.
  destruct (from_first is_root ancestors) as [[|root folders]|] eqn:Eroot.
  - by destruct Hpos as (? & _ & _ & []).
  - destruct Hpos as (before & Ha & Hpos & _). rewrite Ha in Hnames, Hpos.
    assert (is_button ancestors nm = false) as -> by by unfold is_button; rewrite Eroot.
    rewrite (finish_session_step before root folders nm) by done. cbv zeta.
    destruct (fill_keys es ks (new_frame nm)) as (Hfields & _). fold frame in Hfields.
    rewrite Hfields, put_fields. change (foldl _ _ es) with (fields_of es).
    exact (session_step root folders nm es st).
  - assert (∀ s, set_stack s (set_stack (frame :: stack st) st) = set_stack s st) as Hset by done.
    assert (set_stack (stack st) st = st) as Hsame by by destruct st.
    unfold finish_key. cbn [stack set_stack]. rewrite Hnames, Hname.
    change (λ n, eq_ignore_ascii_case n (lit "Sessions")) with is_root.
    rewrite position_snoc, Hpos, Hset. destruct (is_root nm) eqn:Enm.
    { assert (is_button ancestors nm = false) as -> by by unfold is_button; rewrite Eroot, Enm.
      rewrite (proj2 (Nat.leb_le _ _)) by (rewrite length_app; simpl; lia). by rewrite Hsame, after_nil. }
    pose proof (finish_bar_step ancestors nm es ks keys st Hm Eroot Enm) as Hbar. cbv zeta in Hbar.
    fold frame in Hbar. pose proof (button_position ancestors nm Eroot Enm) as Hb.
    destruct (is_button ancestors nm) eqn:Eb.
    + destruct (button_bar_index (ancestors ++ [nm])) as [b|]; [|done]. rewrite Hb.
      unfold is_button in Eb. rewrite Eroot, Enm in Eb. cbn [negb andb] in Eb.
      destruct (from_first is_bar ancestors) as [[|bar [|b' s]]|] eqn:Ebar; [done..| |done].
      destruct (stack st) as [|parent rest] eqn:Est; [by subst ancestors|].
      unfold after. rewrite Est. cbn. rewrite app_nil_r, Nat.add_0_r, orb_false_r. by destruct st.
    + rewrite <-Hbar, Hsame by done. destruct (button_bar_index (ancestors ++ [nm])) as [b|]; [|done].
      rewrite Hb. by destruct (stack st).
Qed.

(** ** Elements *)

Lemma flat_map_none {A B} (l : list A) : flat_map (λ _, @nil B) l = [].
Proof. induction l; [done|]. by cbn [flat_map]. Qed.
Lemma Forall_both {A} (b : A → bool) (P : A → Prop) l :
  Forall (λ x, b x = true → P x) l → forallb b l = true → Forall P l.
Proof.
  induction 1 as [|x l Hx _ IH]; [done|]. cbn [forallb]. intros [Hb Hl]%andb_true_iff.
  constructor; auto.
Qed.
Lemma existsb_none {A} (l : list A) : existsb (λ _, false) l = false.
Proof. by induction l. Qed.

Lemma run_each (inv : XmlState → Prop) (E : Node → entries_list) (K : Node → list KeyFrame)
    (D : Node → bool) (F : Node → list Found) nodes :
  (∀ es ks dp found st, inv st → inv (after es ks dp found st)) →
  Forall (λ node, ∀ st, inv st → run st (events node) = (after (E node) (K node) (D node) (F node) st, warned (F node)))
    nodes →
  ∀ st, inv st → run st (flat_map events nodes) =
    (after (flat_map E nodes) (flat_map K nodes) (existsb D nodes) (flat_map F nodes) st, warned (flat_map F nodes)).
Proof.
  intros Hinv. induction 1 as [|node nodes Hnode _ IH]; intros st Hst; cbn [flat_map existsb].
  - apply run_no_events.
  - rewrite run_app, Hnode, IH by auto. by rewrite after_after, warned_app.
Qed.

Lemma run_element st tag attrs children :
  run st (events (Element tag attrs children)) =
  let '(st, ws) := xml_step to_lowercase path creds st (Start tag attrs) in
  let '(st, ws') := run st (flat_map events children) in
  let '(st, ws'') := xml_step to_lowercase path creds st (End_ tag) in (st, ws ++ ws' ++ ws'').
Proof.
  cbn [events xml_run]. destruct (xml_step to_lowercase path creds st (Start tag attrs)) as [st1 ws1].
  rewrite run_app. destruct (run st1 (flat_map events children)) as [st2 ws2]. cbn [xml_run].
  destruct (xml_step to_lowercase path creds st2 (End_ tag)) as [st3 ws3]. by rewrite app_nil_r.
Qed.

(** An element that is neither a key nor a field is its content. *)
Lemma run_other st tag attrs children :
  is_key tag = false → is_field tag = false → 
  run st (events (Element tag attrs children)) = run st (flat_map events children).
Proof.
  intros Hk Hf. rewrite run_element. cbn [xml_step]. rewrite key_tag, field_tag, Hk, Hf.
  destruct (0 <? ignored_depth st); cbv beta iota zeta. all: destruct (run st _) as [st' ws] eqn:E; cbv beta iota zeta;
    destruct (0 <? ignored_depth st'); cbn [app]; by rewrite app_nil_r.
Qed.

Definition named (field : option text) (values : list text) : entries_list :=
  match field with Some nm => (λ v, (nm, v)) <$> values | None => [] end.

Lemma flat_map_named o nodes : flat_map (λ n, named o (texts n)) nodes = named o (flat_map texts nodes).
Proof.
  unfold named. destruct o as [nm|]; [|apply flat_map_none].
  induction nodes as [|n nodes IH]; [done|]. cbn [flat_map]. by rewrite IH, fmap_app.
Qed.

Lemma insert_after nm value st : insert_field nm value st = after [(nm, value)] [] false [] st.
Proof.
  unfold insert_field, after, set_stack. destruct st as [[|frame below] f r d i b w]; cbn;
    by rewrite app_nil_r, Nat.add_0_r, orb_false_r.
Qed.

(** The content of a field. *)
Lemma run_plain node : plain node = true →
  ∀ o st, current_field st = o ∧ ignored_depth st = 0 →
  run st (events node) = (after (named o (texts node)) [] false [] st, warned []).
Proof.
  induction node as [tag attrs children IH|tag attrs|[t|]|] using node_induction; cbn [plain]; intros Hp o st [Ho Hi].
  - apply andb_true_iff in Hp as [[Hk Hf]%negb_true_iff%orb_false_iff Hp]. 
    assert (run st (flat_map events children) = (after (named o (flat_map texts children)) [] false [] st, warned [])) as E.
    { rewrite (run_each (λ st, current_field st = o ∧ ignored_depth st = 0) (λ n, named o (texts n)) (λ _, [])
        (λ _, false) (λ _, [])); [|done| |done].
      - rewrite !flat_map_none, existsb_none, flat_map_named. done.
      - eapply Forall_both; [|exact Hp]. eapply Forall_impl; [exact IH|]. cbn beta. auto. }
    by rewrite run_other.
  - apply negb_true_iff in Hp. cbn [events xml_run xml_step]. rewrite field_tag, Hp.
    unfold named. destruct o; by rewrite after_nil.
  - cbn [events xml_run xml_step]. rewrite Ho. destruct o as [nm|]; [|by rewrite after_nil].
    by rewrite insert_after.
  - cbn [events xml_run xml_step]. rewrite Ho. destruct o as [nm|]; by rewrite after_nil.
  - cbn [events xml_run xml_step]. destruct o as [nm|]; by rewrite after_nil.
Qed.

(** Below a key that is too deep. *)
Lemma run_ignored node : ∀ st, current_field st = None ∧ 0 < ignored_depth st →
  run st (events node) = (after (hollow_entries node) [] false [] st, warned []).
Proof.
  induction node as [tag attrs children IH|tag attrs|[t|]|] using node_induction; intros st [Hf Hi].
  - assert (∀ st, current_field st = None ∧ 0 < ignored_depth st →
      run st (flat_map events children) = (after (flat_map hollow_entries children) [] false [] st, warned [])) as E.
    { intros st' Hst'. rewrite (run_each (λ st, current_field st = None ∧ 0 < ignored_depth st)
        hollow_entries (λ _, []) (λ _, false) (λ _, [])); [|done|exact IH|done].
      by rewrite !flat_map_none, existsb_none. }
    rewrite run_element. cbn [xml_step]. rewrite (proj2 (Nat.ltb_lt _ _) Hi), key_tag.
    destruct (is_key tag) eqn:Ek; cbv beta iota zeta; rewrite E by (split; [done|simpl; lia]); cbv beta iota zeta.
    + change (ignored_depth (after _ _ _ _ (set_ignored (S (ignored_depth st)) st))) with (S (ignored_depth st)).
      cbn [Nat.ltb Nat.leb Nat.sub app]. rewrite Nat.sub_0_r. by destruct st.
    + change (ignored_depth (after _ _ _ _ st)) with (ignored_depth st). by rewrite (proj2 (Nat.ltb_lt _ _) Hi).
  - cbn [events xml_run xml_step hollow_entries]. unfold hollow_entry. rewrite field_tag, attribute_name.
    destruct (is_field tag); [|by rewrite after_nil]. destruct (name_of attrs); [|by rewrite after_nil].
    by rewrite insert_after.
  - cbn [events xml_run xml_step]. rewrite Hf. by rewrite after_nil.
  - cbn [events xml_run xml_step]. rewrite Hf. by rewrite after_nil.
  - cbn [events xml_run xml_step]. by rewrite after_nil.
Qed.

(** The frames that a node adds to the key around it. *)
Fixpoint frames (room : nat) (ancestors : list text) (node : Node) : list KeyFrame :=
  match node with
  | Element tag attrs children =>
      if is_key tag then
        match room with
        | O => []
        | S room =>
            let nm := default [] (name_of attrs) in
            if is_button ancestors nm then
              [fill (flat_map (entries room) children) (flat_map (frames room (ancestors ++ [nm])) children)
                    (new_frame nm)]
            else []
        end
      else if is_field tag then [] else flat_map (frames room ancestors) children
  | _ => []
  end.

Lemma frames_match room ancestors nodes :
  buttons_match ancestors (flat_map (frames room ancestors) nodes) (flat_map (child_keys room) nodes).
Proof.
  intros bar group Hbar Hroot.
  assert (∀ node, Forall2 describes (frames room ancestors node) (child_keys room node)) as Hnode;
    [|induction nodes; [done|]; by apply Forall2_app].
  induction node as [tag attrs children IH|tag attrs|t|] using node_induction; [|done..].
  cbn [frames child_keys]. destruct (is_key tag).
  - destruct room as [|room]; [done|]. cbv zeta. unfold is_button. rewrite Hroot, Hbar, andb_true_r.
    destruct (is_root _); [done|]. cbn [negb]. constructor; [|done]. split; cbn [fst snd].
    + by rewrite fill_name.
    + destruct (fill_keys (flat_map (entries room) children)
        (flat_map (frames room (ancestors ++ [default [] (name_of attrs)])) children)
        (new_frame (default [] (name_of attrs)))) as (-> & _). apply put_fields.
  - destruct (is_field tag); [done|]. induction IH; [done|]. by apply Forall2_app.
Qed.

(** The machine in keys that leave room for some more. *)
Definition inside (room : nat) (ancestors : list text) (st : XmlState) : Prop :=
  current_field st = None ∧ ignored_depth st = 0 ∧ reverse (name <$> stack st) = ancestors ∧
  length (stack st) + room = MAX_XML_DEPTH.

Lemma inside_after room ancestors es ks dp found st :
  inside room ancestors st → inside room ancestors (after es ks dp found st).
Proof.
  intros (Hf & Hi & Hn & Hr). split_and!; try done; unfold after; cbn [stack]; destruct (stack st); try done.
  rewrite fmap_cons, fill_name. done.
Qed.

Lemma put_values frame nm vs :
  foldl put frame ((λ v, (nm, v)) <$> vs) = match last vs with Some v => put frame (nm, v) | None => frame end.
Proof.
  induction vs as [|v vs IH] using rev_ind; [done|]. rewrite fmap_app, foldl_app, IH, last_snoc. cbn [fmap list_fmap foldl].
  destruct (last vs) as [v'|]; [|done]. unfold put, insert_into. cbn. by rewrite !insert_insert_eq, lookup_insert_eq.
Qed.

Lemma run_field st tag attrs children :
  is_field tag = true → forallb plain children = true → current_field st = None → ignored_depth st = 0 →
  run st (events (Element tag attrs children)) = (after (value_entry attrs children) [] false [] st, warned []).
Proof.
  intros Hf Hp Hc Hi. rewrite run_element. cbn [xml_step].
  rewrite Hi, key_tag, field_tag, Hf, attribute_name. destruct (is_key tag) eqn:Ek.
  { apply key_no_field in Ek. congruence. }
  cbn [Nat.ltb Nat.leb]. rewrite (run_each (λ st', current_field st' = name_of attrs ∧ ignored_depth st' = 0)
    (λ n, named (name_of attrs) (texts n)) (λ _, []) (λ _, false) (λ _, [])); [|done| |done].
  - rewrite !flat_map_none, existsb_none, flat_map_named. cbv beta iota zeta.
    change (ignored_depth (after _ _ _ _ (set_field (name_of attrs) st))) with (ignored_depth st). rewrite Hi.
    cbn [Nat.ltb Nat.leb]. f_equal.
    transitivity (after (named (name_of attrs) (flat_map texts children)) [] false [] st).
    { destruct st; cbn in Hc. by subst. }
    unfold value_entry. destruct (name_of attrs) as [nm|]; [|done].
    unfold after. f_equal. destruct (stack st) as [|frame below]; [done|]. f_equal. unfold fill, named.
    rewrite put_values. by destruct (last _).
  - eapply Forall_both; [|exact Hp]. apply Forall_true. intros n Hn st'. by apply run_plain.
Qed.

Lemma run_deep_key st tag attrs children ancestors :
  is_key tag = true → inside 0 ancestors st →
  run st (events (Element tag attrs children)) =
  (after (flat_map hollow_entries children) [] true [] st, warned []).
Proof.
  intros Hk (Hf & Hi & _ & Hr). rewrite run_element. cbn [xml_step]. rewrite Hi, key_tag, Hk. cbn [Nat.ltb Nat.leb].
  unfold push_key. rewrite (proj2 (Nat.leb_le _ _)) by lia. cbv iota.
  rewrite (run_each (λ st, current_field st = None ∧ 0 < ignored_depth st)
    hollow_entries (λ _, []) (λ _, false) (λ _, [])); [|done|by apply Forall_true, run_ignored|split; [done|simpl; lia]].
  rewrite !flat_map_none, existsb_none. cbn.
  destruct st as [s f r [|] i b w]; cbn in *; subst; unfold after; done.
Qed.

Lemma run_key st tag attrs children room ancestors :
  let nm := default [] (name_of attrs) in
  let es := flat_map (entries room) children in
  let ks := flat_map (frames room (ancestors ++ [nm])) children in
  let found := flat_map (imported room (ancestors ++ [nm])) children in
  is_key tag = true → inside (S room) ancestors st →
  (∀ st, inside room (ancestors ++ [nm]) st →
     run st (flat_map events children) = (after es ks (existsb (deep room) children) found st, warned found)) →
  let found := found ++ key_found to_lowercase path creds ancestors nm es (flat_map (child_keys room) children) in
  run st (events (Element tag attrs children)) =
  (after [] (if is_button ancestors nm then [fill es ks (new_frame nm)] else []) (existsb (deep room) children) found st,
   warned found).
Proof.
  intros nm es ks found Hk (Hf & Hi & Hn & Hr) Hchildren. cbv zeta. rewrite run_element. cbn [xml_step].
  rewrite Hi, key_tag, Hk. cbn [Nat.ltb Nat.leb]. unfold push_key.
  rewrite (proj2 (Nat.leb_gt _ _)), attribute_name by lia. fold nm. cbv iota. rewrite Hchildren.
  2: { split_and!; try done; cbn [stack set_stack]; [by rewrite fmap_cons, reverse_cons, Hn|simpl; lia]. }
  set (dp := existsb _ children). set (st' := after [] [] dp found st).
  assert (stack st' = stack st) as Hstack by by unfold st', after; cbn; destruct (stack st).
  assert (after es ks dp found (set_stack (new_frame nm :: stack st) st) =
    set_stack (fill es ks (new_frame nm) :: stack st') st') as -> by by rewrite Hstack.
  cbv beta iota zeta. change (ignored_depth (set_stack _ st')) with (ignored_depth st). rewrite Hi, field_tag.
  rewrite (key_no_field _ Hk). cbn [Nat.ltb Nat.leb].
  rewrite (finish_key_step ancestors nm es ks (flat_map (child_keys room) children));
    [|apply frames_match|by rewrite Hstack].
  unfold st'. rewrite after_after, orb_false_r, warned_app. done.
Qed.

Lemma run_node node : fields_plain node = true → ∀ room ancestors st, inside room ancestors st →
  run st (events node) =
  (after (entries room node) (frames room ancestors node) (deep room node) (imported room ancestors node) st,
   warned (imported room ancestors node)).
Proof.
  induction node as [tag attrs children IH|tag attrs|[t|]|] using node_induction;
    intros Hp room ancestors st Hin; pose proof Hin as (Hf & Hi & Hn & Hr).
  - assert (is_field tag = false → ∀ room ancestors st, inside room ancestors st →
      run st (flat_map events children) =
      (after (flat_map (entries room) children) (flat_map (frames room ancestors) children)
         (existsb (deep room) children) (flat_map (imported room ancestors) children) st,
       warned (flat_map (imported room ancestors) children))) as E.
    { intros Hfield room' ancestors' st' Hin'. cbn [fields_plain] in Hp. rewrite Hfield in Hp.
      apply (run_each (inside room' ancestors')); [intros; by apply inside_after| |done].
      eapply Forall_both; [|exact Hp]. eapply Forall_impl; [exact IH|]. cbn beta. auto. }
    cbn [entries frames deep import]. destruct (is_key tag) eqn:Ek.
    + apply key_no_field in Ek as Ef. specialize (E Ef).
      destruct room as [|room]; [by apply (run_deep_key _ _ _ _ ancestors)|].
      rewrite (run_key st tag attrs children room ancestors) by auto. done.
    + destruct (is_field tag) eqn:Ef.
      * cbn [fields_plain] in Hp. rewrite Ef in Hp. by apply run_field.
      * rewrite run_other by done. by apply E.
  - cbn [events xml_run xml_step entries]. unfold hollow_entry. rewrite field_tag, attribute_name.
    destruct (is_field tag); [|by rewrite after_nil]. destruct (name_of attrs); [|by rewrite after_nil].
    by rewrite insert_after.
  - cbn [events xml_run xml_step]. rewrite Hf. by rewrite after_nil.
  - cbn [events xml_run xml_step]. rewrite Hf. by rewrite after_nil.
  - cbn [events xml_run xml_step]. by rewrite after_nil.
Qed.

(** The whole document, from the first state. *)
Lemma run_document nodes : forallb fields_plain nodes = true →
  let found := flat_map (imported MAX_XML_DEPTH []) nodes in
  run new_state (flat_map events nodes) =
  (after [] [] (existsb (deep MAX_XML_DEPTH) nodes) found new_state, warned found).
Proof.
  intros Hp. rewrite (run_each (inside MAX_XML_DEPTH []) (entries MAX_XML_DEPTH) (frames MAX_XML_DEPTH [])
    (deep MAX_XML_DEPTH) (imported MAX_XML_DEPTH [])); [done|intros; by apply inside_after| |done].
  eapply Forall_both; [|exact Hp]. apply Forall_true. intros node Hnode st Hst. by apply run_node.
Qed.
End machine.

(** C32: From an XML export the importer makes what a recursive function over the document
    makes, whatever elements it has, if the reader gets to its end and no field has a key or a
    field in it: for every key below one called Sessions a record, if its protocol is one of
    SSH and it has a host, with the host, port, user and way to log in of the fields directly
    in it (string and dword, the last of a name, empty ones too) and of the credential they
    name, in the folders that are the keys between; for every button of a bar that sends a
    command a record of that command, numbered in order; the contents of a key before the key;
    the warnings in the same order; and nothing of keys deeper than 64, but for empty fields,
    with one warning at the end. *)
Theorem sessions_import_as_tree (to_lowercase : N → list N) `{XmlLib} (path t : text)
    (creds : gmap text CredentialMetadata) (nodes : list Node)
    (Hread : read_events t = (flat_map events nodes, true))
    (Hplain : forallb fields_plain nodes = true) :
  let found := flat_map (import to_lowercase path creds 64 []) nodes in
  parse_export to_lowercase path t creds =
  (numbered to_lowercase path 0 found,
   warned found ++
   if existsb (deep 64) nodes then
     [warning (lit "securecrt_xml_depth_exceeded")
        (lit "SecureCRT XML export exceeded the supported nesting depth: 64")]
   else []).
Proof.
  cbv zeta. change 64 with MAX_XML_DEPTH. unfold parse_export. rewrite Hread, run_document by done. cbv zeta.
  generalize (flat_map (import to_lowercase path creds MAX_XML_DEPTH []) nodes) as found. intros found.
  by destruct (existsb (deep MAX_XML_DEPTH) nodes).
Qed.

(** ** A small reader *)

(** Tags and texts; an underscore in an attribute stands for a blank. *)
Fixpoint demo_tokens (in_tag : bool) (current t : text) : list (bool * text) :=
  match t with
  | [] => [(in_tag, reverse current)]
  | c :: rest =>
      if (c =? 60)%N then (in_tag, reverse current) :: demo_tokens true [] rest
      else if (c =? 62)%N then (in_tag, reverse current) :: demo_tokens false [] rest
      else demo_tokens in_tag (c :: current) rest
  end.

Definition demo_attribute (a : text) : option (text * option text) :=
  '(k, v) ← split_once_at (N.eqb 61) a; Some (k, Some (replace [95%N] [32%N] (trim_matches (N.eqb 34) v))).

Definition demo_event (token : bool * text) : list XmlEvent :=
  let '(in_tag, t) := token in
  if negb in_tag then if bool_decide (t = []) then [] else [Characters (Some t)]
  else match split_whitespace (default t (strip_suffix [47%N] t)) with
  | [] => [OtherEvent]
  | tag :: attrs =>
      match strip_prefix [47%N] tag, strip_suffix [47%N] t with
      | Some tag, _ => [End_ tag]
      | None, None => [Start tag (omap demo_attribute attrs)]
      | None, Some _ => [Empty tag (omap demo_attribute attrs)]
      end
  end.

#[export] Instance demo_xml : XmlLib :=
  {| read_events t := (demo_tokens false [] t ≫= demo_event, true); unescape := Some |}.

Definition demo_export : text :=
  qlit "<VanDyke version=`3.0`><key name=`Sessions`><key name=`Prod`><key name=`web`>" ++
  qlit "<string name=`Hostname`>10.0.0.1</string><string name=`Protocol_Name`>SSH2</string>" ++
  qlit "<dword name=`[SSH2]_Port`>2222</dword><string name=`Username`/></key></key></key>" ++
  qlit "<key name=`Button_Bar`><key name=`Ops`><key name=`1`><string name=`Function`>send</string>" ++
  qlit "<string name=`Command`>uptime</string></key></key></key></VanDyke>".

Definition demo_field (nm value : string) : Node :=
  Element (lit "string") [(lit "name", Some (lit nm))] [Chars (Some (lit value))].
Definition demo_key (nm : string) (children : list Node) : Node :=
  Element (lit "key") [(lit "name", Some (lit nm))] children.

Definition demo_document : list Node :=
  [Element (lit "VanDyke") [(lit "version", Some (lit "3.0"))]
    [demo_key "Sessions" [demo_key "Prod" [demo_key "web"
       [demo_field "Hostname" "10.0.0.1"; demo_field "Protocol Name" "SSH2";
        Element (lit "dword") [(lit "name", Some (lit "[SSH2] Port"))] [Chars (Some (lit "2222"))];
        Hollow (lit "string") [(lit "name", Some (lit "Username"))]]]];
     demo_key "Button Bar" [demo_key "Ops" [demo_key "1"
       [demo_field "Function" "send"; demo_field "Command" "uptime"]]]]].

Lemma sessions_import_as_tree_witness :
  (λ r, (s ← ssh r; Some (ssh_port s, group_path s), c ← quick_command r; Some (qc_command c))) <$>
    (parse_export (λ c, [c]) (lit "a.xml") demo_export ∅).1 =
  [(Some (Some 2222%N, Some (lit "Prod")), None); (None, Some (lit "uptime"))].
Proof.
  rewrite (sessions_import_as_tree (λ c, [c]) (lit "a.xml") demo_export ∅ demo_document);
    vm_compute; reflexivity.
Defined.

(** ** Importing SecureCRT settings: what the host is asked for *)

(** ** Paths that go down *)

(** A name that is one step down. *)
Definition safe_name (nm : text) : Prop :=
  nm ≠ [] ∧ nm ≠ lit "." ∧ nm ≠ lit ".." ∧ Forall (λ c, c ≠ 47%N ∧ c ≠ 92%N) nm.

(** A path of at most [n] steps down. *)
Definition safe_path (n : nat) (path : text) : Prop :=
  ∃ names, path = join (lit "/") names ∧ names ≠ [] ∧ length names ≤ n ∧ Forall safe_name names.

Lemma join_snoc separator (names : list text) nm :
  names ≠ [] → join separator (names ++ [nm]) = join separator names ++ separator ++ nm.
Proof.
  destruct names as [|n names]; [done|]. intros _. cbn [join app].
  by rewrite bind_app, bind_cons, app_nil_r, !app_assoc.
Qed.

Lemma has_char_Forall (c : N) (t : text) : has_char c t = false → Forall (λ d, d ≠ c) t.
Proof.
  unfold has_char. induction t as [|d t IH]; [done|]. cbn [existsb].
  intros [Hd Ht]%orb_false_iff. constructor; [|by apply IH]. by apply N.eqb_neq in Hd.
Qed.

Lemma safe_relative_path_spec prefix nm path :
  safe_relative_path prefix nm = Some path →
  safe_name nm ∧ path = if bool_decide (prefix = []) then nm else prefix ++ lit "/" ++ nm.
Proof.
  unfold safe_relative_path. intros H.
  destruct (bool_decide (nm = []) || _ || _ || _) eqn:E; [done|]. injection H as <-.
  apply orb_false_iff in E as [[[E1 E2]%orb_false_iff E3]%orb_false_iff E4].
  apply bool_decide_eq_false in E1. unfold one_of in E2. cbn [existsb] in E2.
  apply orb_false_iff in E2 as [E2 [E2' _]%orb_false_iff]. apply bool_decide_eq_false in E2, E2'.
  split; [|done]. split_and!; [done..|]. apply Forall_and. split; by apply has_char_Forall.
Qed.

(** A cursor is as many steps below its candidate as its depth says. *)
Definition cursor_ok (cursor : DirectoryCursor) : Prop :=
  ∃ names, host_prefix cursor = join (lit "/") names ∧ length names = depth cursor ∧ Forall safe_name names.

Lemma root_ok candidate : cursor_ok (root_cursor candidate).
Proof. by exists []. Qed.

Lemma child_ok nm cursor cursor' :
  child nm cursor = Some cursor' → cursor_ok cursor →
  cursor_ok cursor' ∧ safe_path (depth cursor') (host_prefix cursor') ∧
  candidate_id cursor' = candidate_id cursor ∧ depth cursor' = S (depth cursor).
Proof.
  unfold child. intros H (names & Hn & Hl & Hs).
  apply bind_Some in H as (host & Hhost & H). apply bind_Some in H as (logical & _ & H).
  injection H as <-. apply safe_relative_path_spec in Hhost as [Hnm Hpath].
  assert (host = join (lit "/") (names ++ [nm])) as Hjoin.
  { rewrite Hpath, Hn. destruct names as [|n names].
    - cbn. by rewrite app_nil_r.
    - rewrite join_snoc by done. rewrite bool_decide_false; [done|].
      apply Forall_cons in Hs as [[Hne _] _]. cbn [join]. by intros [? _]%app_eq_nil. }
  assert (Forall safe_name (names ++ [nm])) by (apply Forall_app; split; [done|by constructor]).
  assert (length (names ++ [nm]) = S (depth cursor)) by (rewrite length_app; simpl; lia).
  split_and!; try done; cbn [host_prefix depth]; exists (names ++ [nm]); split_and!; try done; try lia.
  by destruct names.
Qed.

(** The guard, not the fuel, ends the descent. *)
Lemma collect_child_directory_fuel `{CrtHost} fuel fuel' cursor c :
  MAX_DIRECTORY_DEPTH < fuel + depth cursor → MAX_DIRECTORY_DEPTH < fuel' + depth cursor →
  collect_child_directory fuel cursor c = collect_child_directory fuel' cursor c.
Proof.
  revert fuel' cursor c. induction fuel as [|fuel IH]; intros fuel' cursor c Hf Hf';
    (destruct (Nat.ltb_spec MAX_DIRECTORY_DEPTH (depth cursor)) as [Hd|Hd];
      [destruct fuel'; cbn [collect_child_directory]; by rewrite (proj2 (Nat.ltb_lt _ _) Hd)|]); [lia|].
  destruct fuel' as [|fuel']; [lia|]. cbn [collect_child_directory].
  rewrite (proj2 (Nat.ltb_ge _ _) Hd). destruct (read_candidate_directory _ _) as [|entries]; [done|].
  generalize (sort_by entry_name entries) as l. intros l. revert c.
  induction l as [|entry l IHl]; intros c; [done|]. cbn [foldl]. rewrite IHl. f_equal. unfold collect_entry.
  destruct (child (entry_name entry) cursor) as [cursor'|] eqn:E; [|done].
  assert (depth cursor' = S (depth cursor)) as Hdepth.
  { unfold child in E. apply bind_Some in E as (host & _ & (logical & _ & [= <-])%bind_Some). done. }
  destruct (is_dir entry); [|done]. apply IH; lia.
Qed.

(** ** Hosts that agree *)

Section hosts.
Context (h1 h2 : CrtHost).
Context (Hdir : ∀ i p, safe_path MAX_DIRECTORY_DEPTH p →
           @read_candidate_directory h1 i p = @read_candidate_directory h2 i p).
Context (Hfile : ∀ i p, safe_path (S MAX_DIRECTORY_DEPTH) p →
           @read_candidate_child_file h1 i p = @read_candidate_child_file h2 i p).

Lemma safe_path_le m n p : m ≤ n → safe_path m p → safe_path n p.
Proof. intros Hmn (names & ? & ? & ? & ?). exists names. split_and!; try done. lia. Qed.

Lemma collect_entries_agree fuel cursor entries c :
  cursor_ok cursor → depth cursor ≤ MAX_DIRECTORY_DEPTH →
  (∀ cursor' c, cursor_ok cursor' → safe_path (depth cursor') (host_prefix cursor') →
     depth cursor' = S (depth cursor) →
     @collect_child_directory h1 fuel cursor' c = @collect_child_directory h2 fuel cursor' c) →
  foldl (@collect_entry h1 (@collect_child_directory h1 fuel) cursor) c entries =
  foldl (@collect_entry h2 (@collect_child_directory h2 fuel) cursor) c entries.
Proof.
  intros Hok Hdepth Hdescend. revert c. induction entries as [|entry entries IH]; intros c; [done|].
  cbn [foldl]. rewrite <-IH. f_equal. unfold collect_entry.
  destruct (child (entry_name entry) cursor) as [cursor'|] eqn:E; [|done].
  apply child_ok in E as (Hok' & Hsafe & _ & Hd); [|done].
  destruct (is_dir entry); [by apply Hdescend|].
  destruct (classify_source _); [|done]. unfold collect_child_file.
  rewrite Hfile; [done|]. eapply safe_path_le; [|exact Hsafe]. lia.
Qed.

Lemma collect_child_directory_agree fuel cursor c :
  cursor_ok cursor → safe_path (depth cursor) (host_prefix cursor) →
  @collect_child_directory h1 fuel cursor c = @collect_child_directory h2 fuel cursor c.
Proof.
  revert cursor c. induction fuel as [|fuel IH]; intros cursor c Hok Hsafe; cbn [collect_child_directory].
  - done.
  - destruct (Nat.ltb_spec MAX_DIRECTORY_DEPTH (depth cursor)) as [|Hle]; [done|].
    rewrite Hdir by (by eapply safe_path_le; [|exact Hsafe]).
    destruct (read_candidate_directory _ _) as [error|entries]; [done|].
    apply collect_entries_agree; [done|done|]. intros; by apply IH.
Qed.
End hosts.

(** ** How many files *)

Section count.
Context `{CrtHost}.

(** A step that adds files only below the limit. *)
Definition limited (f : CollectedSources → CollectedSources) : Prop :=
  ∀ c, length (files (f c)) ≤ MAX_SOURCE_FILES `max` length (files c).

Lemma collect_session_group_files p c : files (collect_session_group p c) = files c.
Proof. unfold collect_session_group. by destruct (session_directory_group_path p). Qed.

Lemma collect_child_file_limited cursor : limited (collect_child_file cursor).
Proof.
  intros c. unfold collect_child_file. destruct (Nat.leb_spec MAX_SOURCE_FILES (length (files c))).
  - simpl. lia.
  - destruct (read_candidate_child_file _ _); simpl; rewrite ?length_app; simpl; lia.
Qed.

Lemma collect_entries_limited descend cursor entries :
  (∀ cursor', limited (descend cursor')) → limited (λ c, foldl (collect_entry descend cursor) c entries).
Proof.
  intros Hd. induction entries as [|entry entries IH]; intros c; cbn [foldl]; [lia|].
  etransitivity; [apply IH|]. apply Nat.max_lub; [lia|]. unfold collect_entry.
  destruct (child (entry_name entry) cursor) as [cursor'|]; [|simpl; lia].
  destruct (is_dir entry).
  - etransitivity; [apply Hd|]. by rewrite collect_session_group_files.
  - destruct (classify_source _); [apply collect_child_file_limited|lia].
Qed.

Lemma collect_child_directory_limited fuel cursor : limited (collect_child_directory fuel cursor).
Proof.
  revert cursor. induction fuel as [|fuel IH]; intros cursor c; cbn [collect_child_directory];
    (destruct (MAX_DIRECTORY_DEPTH <? depth cursor); [simpl; lia|]); [lia|].
  destruct (read_candidate_directory _ _); [simpl; lia|]. by apply collect_entries_limited.
Qed.

Lemma read_candidate_files c candidate :
  length (files (read_candidate c candidate)) ≤ MAX_SOURCE_FILES `max` S (length (files c)).
Proof.
  unfold read_candidate. destruct (read_directory _) as [error|entries].
  - unfold collect_single_file. destruct (classify_source _); [|simpl; lia].
    destruct (read_file _); simpl; rewrite ?length_app; simpl; lia.
  - unfold collect_directory. etransitivity.
    + apply (collect_entries_limited (collect_child_directory _)). intros cursor'.
      apply collect_child_directory_limited.
    + rewrite collect_session_group_files. lia.
Qed.

Lemma insert_by_length {A} (key : A → text) x l : length (insert_by key x l) = S (length l).
Proof. induction l as [|y l IH]; [done|]. cbn [insert_by]. destruct (text_compare _ _); simpl; by rewrite ?IH. Qed.

Lemma sort_by_length {A} (key : A → text) l : length (sort_by key l) = length l.
Proof. induction l as [|x l IH]; [done|]. cbn [sort_by foldr]. rewrite insert_by_length. simpl. by rewrite <-IH. Qed.
End count.

(** C33: The importer asks the host only for safe paths below a candidate: at most 32 names down
    for a directory and 33 for a file, and no name is empty, a dot, two dots or has a
    separator in it, whatever names the host lists: hosts that agree on those paths, on the
    candidates and on single files give the same sources.  And it takes at most 4096 files and
    one for each candidate. *)
Theorem host_asked_safely (h1 h2 : CrtHost) candidates
    (Hroot : ∀ i, @read_directory h1 i = @read_directory h2 i)
    (Hsingle : ∀ i, @read_file h1 i = @read_file h2 i)
    (Hdir : ∀ i p, safe_path MAX_DIRECTORY_DEPTH p →
       @read_candidate_directory h1 i p = @read_candidate_directory h2 i p)
    (Hfile : ∀ i p, safe_path (S MAX_DIRECTORY_DEPTH) p →
       @read_candidate_child_file h1 i p = @read_candidate_child_file h2 i p) :
  @read_sources h1 candidates = @read_sources h2 candidates ∧
  length (files (@read_sources h1 candidates)) ≤ MAX_SOURCE_FILES + length candidates.
Proof.
  split.
  - unfold read_sources. assert (∀ c, foldl (@read_candidate h1) c candidates =
      foldl (@read_candidate h2) c candidates) as ->; [|done].
    induction candidates as [|candidate candidates IH]; intros c; [done|]. cbn [foldl]. rewrite <-IH. f_equal.
    unfold read_candidate. rewrite Hroot. destruct (read_directory _) as [error|entries].
    + unfold collect_single_file. by rewrite Hsingle.
    + apply collect_entries_agree; [done|apply root_ok|simpl; unfold MAX_DIRECTORY_DEPTH; lia|].
      intros cursor' c' Hok Hsafe _. by apply collect_child_directory_agree.
  - unfold read_sources. cbn [files]. rewrite sort_by_length.
    assert (∀ c, length (files (foldl (@read_candidate h1) c candidates)) ≤
      MAX_SOURCE_FILES `max` length (files c) + length candidates) as Hl.
    { induction candidates as [|candidate candidates IH]; intros c; cbn [foldl]; [simpl; lia|].
      etransitivity; [apply IH|]. pose proof (@read_candidate_files h1 c candidate). simpl. lia. }
    etransitivity; [apply Hl|]. simpl. lia.
Qed.

(** ** A host *)

(** One candidate with a file, a directory that the host gives a name that goes up, and a
    directory that contains itself. *)
Definition demo_host (secret : bytes) : CrtHost := {|
  list_candidate_files _ := [{| cf_id := lit "c"; cf_path := lit "/vandyke/Config/Sessions" |}];
  read_directory _ := inr [{| entry_name := lit "web.ini"; is_dir := false |};
                           {| entry_name := lit "../secret.ini"; is_dir := false |};
                           {| entry_name := lit "loop"; is_dir := true |}];
  read_candidate_directory _ _ := inr [{| entry_name := lit "loop"; is_dir := true |}];
  read_file _ := inl (lit "not_found");
  read_candidate_child_file _ p := inr (if starts_with (lit "../") p then secret else [83; 61]%N)
|}.

Lemma host_asked_safely_witness :
  @read_sources (demo_host [1%N]) [{| cf_id := lit "c"; cf_path := lit "Sessions" |}] =
  @read_sources (demo_host [2%N]) [{| cf_id := lit "c"; cf_path := lit "Sessions" |}].
Proof.
  apply (host_asked_safely (demo_host [1%N]) (demo_host [2%N])); [done..|].
  intros i p (names & -> & Hne & _ & Hs). destruct names as [|n names]; [done|].
  apply Forall_cons in Hs as [(H1 & H2 & H3 & H4) _]. cbn [demo_host read_candidate_child_file].
  assert (starts_with (lit "../") (join (lit "/") (n :: names)) = false) as ->; [|done].
  unfold starts_with. destruct (strip_prefix _ _) as [rest|] eqn:E; [|done].
  apply strip_prefix_spec in E. cbn [join] in E. exfalso.
  destruct n as [|c1 [|c2 [|c3 n]]]; [done|..]; 
    change (lit "../") with [46; 46; 47]%N in E; cbn [app] in E; simplify_eq;
    first [by destruct H2|by destruct H3|idtac].
  apply Forall_cons in H4 as [_ [_ [[H4 _] _]%Forall_cons]%Forall_cons]. done.
Defined.
