(* ===== verification/RedisDriver.v ===== *)
(** * The Redis driver

    ipc/redis/src/main.rs: commands and pipelines over cached connections that are opened
    again when they drop, and streams of published messages.  The redis crate is the class
    [RedisClient], percent encoding and base64 are parts of it; what serde derives is the
    class [RedisCodec].  A stream has a task of its own, whose turns are functions on the
    stream; a request that waits for a stream is given the turns that happen meanwhile. *)

From S2P Require Import Prelude VncClipboard Text TextSearch JsonValue.

(** ** Errors *)

(** The constants of [extension_protocol::error::error_codes] the driver uses. *)
Inductive ErrorCode : Type :=
  | METHOD_NOT_FOUND | INVALID_PARAMS | INTERNAL_ERROR | RESOURCE_CLOSED
  | DATA_INVALID_ENCODING | IO_TIMEOUT | IO_CONNECTION_REFUSED | EXTENSION_CUSTOM_START.

(** [ErrorData] by its members [retryable] and [extra]. *)
Record ErrorData := { retryable : bool; extra : Value }.

Record ProtocolError := {
  error_code : ErrorCode; error_message : text; error_data : option ErrorData
}.

Abbreviation result A := (outcome ProtocolError A) (only parsing).

Definition new_error (code : ErrorCode) (message : text) : ProtocolError :=
  {| error_code := code; error_message := message; error_data := None |}.

Definition invalid_params (message : text) : ProtocolError := new_error INVALID_PARAMS message.
Definition internal_error (message : text) : ProtocolError := new_error INTERNAL_ERROR message.

(** [redis::RedisError], by what its methods return. *)
Record RedisError := {
  shown : text; kind_debug : text; category : text; error_detail_code : option text;
  detail : option text; is_timeout : bool; is_connection_refusal : bool;
  is_connection_dropped : bool; is_cluster_error : bool
}.

Definition redis_protocol_error_with_retryability (code : ErrorCode) (error : RedisError)
    (replay_safe : bool) : ProtocolError :=
  let retryable := replay_safe &&
    (is_timeout error || is_connection_refusal error || is_connection_dropped error ||
     is_cluster_error error) in
  {| error_code := code; error_message := shown error;
     error_data := Some {| retryable := retryable;
       extra := Object [(lit "kind", Str (kind_debug error)); (lit "category", Str (category error));
                        (lit "code", opt_str (error_detail_code error));
                        (lit "detail", opt_str (detail error)); (lit "source", Str (shown error))] |} |}.

Definition redis_protocol_error (code : ErrorCode) (error : RedisError) : ProtocolError :=
  redis_protocol_error_with_retryability code error true.

Definition connection_error (error : RedisError) : ProtocolError :=
  redis_protocol_error (if is_timeout error then IO_TIMEOUT else IO_CONNECTION_REFUSED) error.

Definition command_error (error : RedisError) (replay_safe : bool) : ProtocolError :=
  redis_protocol_error_with_retryability EXTENSION_CUSTOM_START error replay_safe.

Definition connection_timeout_error (message : text) : ProtocolError :=
  {| error_code := IO_TIMEOUT; error_message := message;
     error_data := Some {| retryable := true;
       extra := Object [(lit "category", Str (lit "timeout")); (lit "source", Str message)] |} |}.

(** ** Messages *)

Inductive WireBytes : Type := Utf8 (value : text) | Base64 (value : text).

(** [redis::Value]; a big number and an error of the server by how they are shown. *)
Inductive RValue : Type :=
  | Nil | Int (value : Z) | BulkString (value : bytes) | RArray (values : list RValue)
  | SimpleString (value : text) | Okay | RMap (values : list (RValue * RValue))
  | Attribute (data : RValue) (attributes : list (RValue * RValue)) | RSet (values : list RValue)
  | Double (bits : N) | Boolean (value : bool) | VerbatimString (format value : text)
  | BigNumber (digits : text) | Push (kind : text) (data : list RValue) | ServerError (debug : text).

Inductive RedisRespValue : Type :=
  | RespNil | RespInteger (value : Z) | RespBytes (value : WireBytes)
  | RespArray (values : list RedisRespValue) | RespSimpleString (value : text)
  | RespMap (values : list (RedisRespValue * RedisRespValue)) | RespSet (values : list RedisRespValue)
  | RespDouble (bits : N) | RespBoolean (value : bool) | RespError (message : text).

Record RedisConnectionConfig := {
  host : text; port : N; username : option text; password : option text; database : N;
  use_tls : bool; connect_timeout_ms : option N
}.

Record RedisCommandParams := { cmd_database : option N; cmd_args : list WireBytes }.
Record RedisPipelineParams := { pl_database : option N; pl_commands : list (list WireBytes) }.
Record EventOpenParams := { eo_kind : text; eo_capacity : option N }.
(** [effective_max_events()] by its value. *)
Record EventReadParams := { er_stream_id : text; er_wait_ms : option N; effective_max_events : nat }.
Record EventReadResult := { er_events : list Value; er_closed : bool; er_dropped_count : N }.

Inductive RedisPubSubControl : Type :=
  | CtlSubscribe (value : WireBytes) | CtlPSubscribe (value : WireBytes)
  | CtlUnsubscribe (value : WireBytes) | CtlPUnsubscribe (value : WireBytes).
Record RedisPubSubControlParams := { ct_stream_id : text; ct_control : RedisPubSubControl }.

Inductive Method : Type :=
  | REDIS_COMMAND | REDIS_PIPELINE | EVENT_OPEN | EVENT_READ | EVENT_CLOSE | REDIS_PUBSUB_CONTROL
  | OtherMethod.

Record InitResult := {
  init_version : text; init_api : text; init_features : list text; init_methods : list Method;
  init_driver : text
}.

(** A published message, by what its methods return. *)
Record Msg := {
  payload : bytes; channel_name : text; from_pattern : bool; pattern : option text
}.

(** What serde derives for the messages, the constants of the protocol crate, and
    how an error of UTF-8 is shown. *)
Class RedisCodec := {
  open_params : FromValue Value;
  config_params :: FromValue RedisConnectionConfig;
  command_params :: FromValue RedisCommandParams;
  pipeline_params :: FromValue RedisPipelineParams;
  validate : RedisPipelineParams → text + ();
  event_open_params :: FromValue EventOpenParams;
  event_read_params :: FromValue EventReadParams;
  event_close_params : FromValue text;
  control_params :: FromValue RedisPubSubControlParams;
  conn_open_value : ToValue N;
  command_value :: ToValue RedisRespValue;
  pipeline_value :: ToValue (list RedisRespValue);
  event_open_value : ToValue text;
  event_read_value :: ToValue EventReadResult;
  init_value :: ToValue InitResult;
  package_version : text;
  CANCEL_REQUEST : text;
  from_utf8_error : bytes → text
}.

Definition parse_params {T} (H : FromValue T) (v : Value) : result T :=
  match H v with inl error => Err (invalid_params error) | inr p => Ok p end.

Definition serialize {T} (H : ToValue T) (a : T) : result Value :=
  match H a with inl error => Err (internal_error error) | inr v => Ok v end.

(** What the client library does to the world, the server included: opening a client does
    nothing but read the address, a manager is a connection, and a query is what is sent
    over it.  The result of opening a connection for messages may be that time ran out. *)
Class RedisClient := {
  World : Type;
  Client : Type;
  Manager : Type;
  client_open : text → RedisError + Client;
  get_connection_manager : Client → option N → option N → World → World * (RedisError + Manager);
  query : Manager → list bytes → World → World * (RedisError + RValue);
  query_pipeline : Manager → list (list bytes) → World → World * (RedisError + list RValue);
  get_async_pubsub : Client → option N → World → World * option (RedisError + ());
  utf8_percent_encode : (N → bool) → text → text;
  base64_encode : bytes → text;
  base64_decode : text → text + bytes
}.

(** ** The address of a server *)

(** [std::net::Ipv6Addr::from_str]: digits of a number, at least one and at most a limit. *)
Fixpoint take_digits (f : N → bool) (t : text) : text * text :=
  match t with
  | c :: rest => if f c then let '(ds, rest) := take_digits f rest in (c :: ds, rest) else ([], t)
  | [] => ([], [])
  end.

Definition is_hexdigit (c : N) : bool :=
  is_digit c || ((97 <=? c) && (c <=? 102) || (65 <=? c) && (c <=? 70))%N.

Definition read_group (t : text) : option text :=
  let '(ds, rest) := take_digits is_hexdigit t in
  if (0 <? length ds) && (length ds <=? 4) then Some rest else None.

Definition read_octet (t : text) : option text :=
  let '(ds, rest) := take_digits is_digit t in
  match ds with
  | [] => None
  | d :: more =>
      if (length ds <=? 3) && negb ((d =? 48)%N && (0 <? length more)) &&
         bool_decide (is_Some (parse_digits 255 0 ds))
      then Some rest else None
  end.

Definition read_char (c : N) (t : text) : option text := strip_prefix [c] t.

Definition read_ipv4_addr (t : text) : option text :=
  t ← read_octet t; t ← read_char 46 t; t ← read_octet t; t ← read_char 46 t;
  t ← read_octet t; t ← read_char 46 t; read_octet t.

(** Up to [limit] groups, the last two of which may be an IPv4 address: how many there are,
    whether they end so, and the rest; [i] were read. *)
Fixpoint read_groups (limit i : nat) (t : text) : nat * bool * text :=
  match limit with
  | O => (i, false, t)
  | S limit' =>
      let after_separator := if i =? 0 then Some t else read_char 58 t in
      match (if 0 <? limit' then t ← after_separator; read_ipv4_addr t else None) with
      | Some rest => (i + 2, true, rest)
      | None =>
          match t ← after_separator; read_group t with
          | Some rest => read_groups limit' (S i) rest
          | None => (i, false, t)
          end
      end
  end.

Definition is_ipv6 (t : text) : bool :=
  let '(head_size, head_ipv4, rest) := read_groups 8 0 t in
  if head_size =? 8 then bool_decide (rest = [])
  else if head_ipv4 then false
  else match strip_prefix [58; 58]%N rest with
       | None => false
       | Some rest => bool_decide ((read_groups (8 - (head_size + 1)) 0 rest).2 = [])
       end.

(** The ASCII characters that are not alphanumeric, but for four. *)
Definition REDIS_USERINFO_ENCODE_SET (c : N) : bool :=
  (c <? 128)%N && negb (is_ascii_alphanumeric c) && negb (existsb (N.eqb c) [45; 46; 95; 126]%N).

Section driver.
Context `{RedisClient}.

Definition encode_userinfo (value : text) : text :=
  utf8_percent_encode REDIS_USERINFO_ENCODE_SET value.

(** The credentials in the address: with a user name there must be a password. *)
Definition url_auth (config : RedisConnectionConfig) : text :=
  match username config, password config with
  | Some username, Some password =>
      encode_userinfo username ++ lit ":" ++ encode_userinfo password ++ lit "@"
  | None, Some password => lit ":" ++ encode_userinfo password ++ lit "@"
  | _, None => []
  end.

Definition url_host (config : RedisConnectionConfig) : text :=
  if is_ipv6 (host config) then lit "[" ++ host config ++ lit "]" else host config.

Definition connection_url (config : RedisConnectionConfig) : text :=
  let scheme := lit (if use_tls config then "rediss" else "redis") in
  scheme ++ lit "://" ++ url_auth config ++ url_host config ++ lit ":" ++ show_N (port config) ++
  lit "/" ++ show_N (database config).

Definition connection_timeout (config : RedisConnectionConfig) : option N :=
  milliseconds ← connect_timeout_ms config;
  if (0 <? milliseconds)%N then Some milliseconds else None.

(** The timeouts of a connection and of a response. *)
Definition connection_manager_config (config : RedisConnectionConfig) : option N * option N :=
  match connection_timeout config with
  | Some duration => (Some duration, Some duration)
  | None => (None, None)
  end.

Definition with_database (database : N) (config : RedisConnectionConfig) : RedisConnectionConfig :=
  {| host := host config; port := port config; username := username config;
     password := password config; database := database; use_tls := use_tls config;
     connect_timeout_ms := connect_timeout_ms config |}.

(** ** Bytes and values *)

Definition decode_wire_bytes (value : WireBytes) : result bytes :=
  match value with
  | Utf8 value => Ok (utf8_encode value)
  | Base64 value =>
      match base64_decode value with
      | inl error => Err (new_error DATA_INVALID_ENCODING error)
      | inr b => Ok b
      end
  end.

Definition encode_bytes (b : bytes) : WireBytes :=
  match utf8_decode b with
  | Some value => Utf8 value
  | None => Base64 (base64_encode b)
  end.

Fixpoint redis_value (value : RValue) : RedisRespValue :=
  match value with
  | Nil => RespNil
  | Int value => RespInteger value
  | BulkString value => RespBytes (encode_bytes value)
  | RArray values => RespArray (map redis_value values)
  | SimpleString value => RespSimpleString value
  | Okay => RespSimpleString (lit "OK")
  | RMap values => RespMap (map (λ '(key, value), (redis_value key, redis_value value)) values)
  | Attribute data _ => redis_value data
  | RSet values => RespSet (map redis_value values)
  | Double value => RespDouble value
  | Boolean value => RespBoolean value
  | VerbatimString _ text => RespSimpleString text
  | BigNumber value => RespSimpleString value
  | Push _ data => RespArray (map redis_value data)
  | ServerError error => RespError error
  end.

(** ** Commands *)

Definition build_command (args : list WireBytes) : result (list bytes) :=
  match args with
  | [] => Err (new_error INVALID_PARAMS (lit "Redis command cannot be empty"))
  | _ => foldr (λ arg rest, b ← decode_wire_bytes arg; rest ← rest; Ok (b :: rest)) (Ok []) args
  end.

Definition build_pipeline (commands : list (list WireBytes)) : result (list (list bytes)) :=
  foldr (λ args rest, cmd ← build_command args; rest ← rest; Ok (cmd :: rest)) (Ok []) commands.

Definition wire_bytes_for_retry_check (value : WireBytes) : option bytes :=
  match value with
  | Utf8 value => Some (utf8_encode value)
  | Base64 value => match base64_decode value with inl _ => None | inr b => Some b end
  end.

Definition read_only_commands : list string :=
  ["PING"; "GET"; "MGET"; "EXISTS"; "TYPE"; "TTL"; "PTTL"; "SCAN"; "SSCAN"; "HSCAN"; "ZSCAN";
   "KEYS"; "STRLEN"; "HLEN"; "HGET"; "HMGET"; "HGETALL"; "HKEYS"; "HVALS"; "LLEN"; "LRANGE";
   "SCARD"; "SMEMBERS"; "ZCARD"; "ZRANGE"; "XRANGE"; "XLEN"; "INFO"; "DBSIZE"].

Definition can_retry_command (args : list WireBytes) : bool :=
  match head args ≫= wire_bytes_for_retry_check with
  | None => false
  | Some command =>
      if eq_ignore_ascii_case command (lit "MEMORY") then
        match args !! 1 ≫= wire_bytes_for_retry_check with
        | Some subcommand => eq_ignore_ascii_case subcommand (lit "USAGE")
        | None => false
        end
      else existsb (λ read_only, eq_ignore_ascii_case command (lit read_only)) read_only_commands
  end.

Definition can_retry_pipeline (commands : list (list WireBytes)) : bool :=
  negb (bool_decide (commands = [])) && forallb can_retry_command commands.

(** ** The state of a connection *)

Inductive PubSubCommand : Type :=
  | Subscribe (channel : text) | PSubscribe (pattern : text)
  | Unsubscribe (channel : text) | PUnsubscribe (pattern : text).

(** A stream: the commands its task has not taken, the events the host has not read with
    their bound, the number of events dropped, and whether the task runs. *)
Record RedisEvent := {
  commands : list PubSubCommand; events : list Value; capacity : nat; dropped : N;
  running : bool
}.

Definition COMMAND_CAPACITY : nat := 32.

Record RedisConnection := {
  config : RedisConnectionConfig; connections : gmap N Manager; streams : gmap text RedisEvent
}.

(** The state of a request: the connection, the next number of a stream, and the world. *)
Record Redis := { conn : RedisConnection; event_id : N; world : World }.

Definition set_connections (c : gmap N Manager) (s : Redis) : Redis :=
  {| conn := {| config := config (conn s); connections := c; streams := streams (conn s) |};
     event_id := event_id s; world := world s |}.
Definition set_streams (e : gmap text RedisEvent) (s : Redis) : Redis :=
  {| conn := {| config := config (conn s); connections := connections (conn s); streams := e |};
     event_id := event_id s; world := world s |}.
Definition set_world (w : World) (s : Redis) : Redis :=
  {| conn := conn s; event_id := event_id s; world := w |}.

Abbreviation handler A := (comp Redis ProtocolError A) (only parsing).

Definition database_of (database : option N) (s : Redis) : N :=
  default (RedisDriver.database (config (conn s))) database.

Definition open_connection_manager (config : RedisConnectionConfig) (w : World)
    : World * result Manager :=
  match client_open (connection_url config) with
  | inl error => (w, Err (connection_error error))
  | inr client =>
      let '(connect, response) := connection_manager_config config in
      match get_connection_manager client connect response w with
      | (w, inl error) => (w, Err (connection_error error))
      | (w, inr manager) => (w, Ok manager)
      end
  end.

(** A connection for a database, kept. *)
Definition open_manager (database : N) : handler () :=
  config ← gets (λ s, with_database database (config (conn s)));
  manager ← (λ s, let '(w, r) := open_connection_manager config (world s) in (set_world w s, r));
  modify (λ s, set_connections (<[database := manager]> (connections (conn s))) s).

Definition manager (database : N) : handler Manager :=
  cached ← gets (λ s, connections (conn s) !! database);
  _ ← match cached with Some _ => mret () | None => open_manager database end;
  manager ← gets (λ s, connections (conn s) !! database);
  lift_outcome (of_option (new_error INTERNAL_ERROR (lit "Redis manager was not cached")) manager).

Definition reconnect_manager (database : N) : handler () :=
  _ ← modify (λ s, set_connections (delete database (connections (conn s))) s);
  open_manager database.

(** [query_async] over the connection for a database. *)
Definition query_async {A} (send : Manager → World → World * (RedisError + A)) (database : N)
    : handler (RedisError + A) :=
  manager ← manager database;
  total (λ s, let '(w, r) := send manager (world s) in (set_world w s, r)).

(** A query that is sent again after its connection dropped, if it may be. *)
Definition query_replayed {A} (send : Manager → World → World * (RedisError + A)) (database : N)
    (replay_safe : bool) : handler A :=
  result ← query_async send database;
  match result with
  | inr value => mret value
  | inl error =>
      if is_connection_dropped error then
        reconnect ← attempt (reconnect_manager database);
        if negb replay_safe then throw (command_error error false)
        else
          _ ← lift_outcome (match reconnect with inl e => Err e | inr tt => Ok () end);
          result ← query_async send database;
          match result with
          | inr value => mret value
          | inl error => throw (command_error error true)
          end
      else throw (command_error error replay_safe)
  end.

Definition execute (database : option N) (args : list WireBytes) : handler RedisRespValue :=
  database ← gets (database_of database);
  let replay_safe := can_retry_command args in
  cmd ← lift_outcome (build_command args);
  value ← query_replayed (λ m, query m cmd) database replay_safe;
  mret (redis_value value).

Definition execute_pipeline (database : option N) (commands : list (list WireBytes))
    : handler (list RedisRespValue) :=
  database ← gets (database_of database);
  let replay_safe := can_retry_pipeline commands in
  pipeline ← lift_outcome (build_pipeline commands);
  values ← query_replayed (λ m, query_pipeline m pipeline) database replay_safe;
  mret (redis_value <$> values).

(** ** Streams *)

(** What the task of a stream finds when it is its turn: a command, with whether the server
    accepted it, a message, or the end of the messages. *)
Inductive Turn : Type := TakeCommand (accepted : bool) | Message (m : Msg) | EndOfMessages.

Definition event_of (m : Msg) : Value :=
  Object [(lit "kind", Str (lit (if from_pattern m then "pmessage" else "message")));
          (lit "channel", Str (channel_name m));
          (lit "pattern", opt_str (pattern m));
          (lit "payload",
             match utf8_decode (payload m) with
             | Some value => Object [(lit "encoding", Str (lit "utf8")); (lit "value", Str value)]
             | None => Object [(lit "encoding", Str (lit "base64"));
                               (lit "value", Str (base64_encode (payload m)))]
             end)].

Definition stop (e : RedisEvent) : RedisEvent :=
  {| commands := []; events := events e; capacity := capacity e; dropped := dropped e;
     running := false |}.

(** A turn of the loop of the task; a task that ended takes none. *)
Definition turn (e : RedisEvent) (t : Turn) : RedisEvent :=
  if negb (running e) then e
  else match t with
  | TakeCommand accepted =>
      match commands e with
      | [] => e
      | _ :: rest =>
          if accepted
          then {| commands := rest; events := events e; capacity := capacity e; dropped := dropped e;
                  running := true |}
          else stop e
      end
  | Message m =>
      if length (events e) <? capacity e
      then {| commands := commands e; events := events e ++ [event_of m]; capacity := capacity e;
              dropped := dropped e; running := true |}
      else {| commands := commands e; events := events e; capacity := capacity e;
              dropped := wrap_add u64_max (dropped e) 1; running := true |}
  | EndOfMessages => stop e
  end.

(** [recv] and [try_recv], when they find an event. *)
Definition pop (e : RedisEvent) : option (Value * RedisEvent) :=
  match events e with
  | [] => None
  | value :: rest =>
      Some (value, {| commands := commands e; events := rest; capacity := capacity e;
                      dropped := dropped e; running := running e |})
  end.

(** The loop of [read_event] that takes events while there are some; the lists are the turns
    before each attempt. *)
Fixpoint take_events (n : nat) (turns : list (list Turn)) (e : RedisEvent) : list Value * RedisEvent :=
  match n with
  | O => ([], e)
  | S n =>
      let e := foldl turn e (default [] (head turns)) in
      match pop e with
      | None => ([], e)
      | Some (value, e) =>
          let '(values, e) := take_events n (tail turns) e in (value :: values, e)
      end
  end.

(** A first event, if the request waits for one and it comes. *)
Definition first_event (params : EventReadParams) (waiting : list Turn) (e : RedisEvent)
    : list Value * RedisEvent :=
  match er_wait_ms params with
  | Some wait_ms =>
      if (0 <? wait_ms)%N then
        let e := foldl turn e waiting in
        match pop e with Some (value, e) => ([value], e) | None => ([], e) end
      else ([], e)
  | None => ([], e)
  end.

(** The part of [read_event] that works on the stream.  [waiting] are the turns while it
    waits for a first event, [turns] those before each attempt to take one, [before_swap] and
    [before_closed] those before the last two steps. *)
Definition read_stream (params : EventReadParams) (waiting : list Turn) (turns : list (list Turn))
    (before_swap before_closed : list Turn) (e : RedisEvent) : EventReadResult * RedisEvent :=
  let '(first, e) := first_event params waiting e in
  let '(values, e) := take_events (effective_max_events params - length first) turns e in
  let e := foldl turn e before_swap in
  let dropped_count := dropped e in
  let e := {| commands := commands e; events := events e; capacity := capacity e; dropped := 0;
              running := running e |} in
  let e := foldl turn e before_closed in
  ({| er_events := first ++ values; er_closed := negb (running e); er_dropped_count := dropped_count |}, e).

Definition new_stream (capacity : nat) : RedisEvent :=
  {| commands := []; events := []; capacity := capacity; dropped := 0; running := true |}.

Definition stream_closed : ProtocolError := new_error RESOURCE_CLOSED (lit "event stream is closed").

Context `{RedisCodec}.

(** [params.capacity.unwrap_or(128).clamp(1, 1024)] *)
Definition stream_capacity (capacity : option N) : nat :=
  N.to_nat (N.min 1024 (N.max 1 (default 128%N capacity))).

(** The connection over which messages come. *)
Definition open_pubsub (config : RedisConnectionConfig) (w : World) : World * result () :=
  match client_open (connection_url config) with
  | inl error => (w, Err (connection_error error))
  | inr client =>
      match get_async_pubsub client (connection_timeout config) w with
      | (w, None) => (w, Err (connection_timeout_error (lit "Redis Pub/Sub connection timed out")))
      | (w, Some (inl error)) => (w, Err (connection_error error))
      | (w, Some (inr tt)) => (w, Ok ())
      end
  end.

Definition next_stream_id : handler text := total (λ s,
  ({| conn := conn s; event_id := wrap_add u64_max (event_id s) 1; world := world s |},
   lit "redis-events-" ++ show_N (event_id s))).

Definition open_event (params : Value) : handler Value :=
  params ← lift_outcome (parse_params event_open_params params);
  if negb (bool_decide (eo_kind params = lit "redis_pubsub"))
  then throw (invalid_params (lit "Redis sidecar only supports redis_pubsub event streams"))
  else
    config ← gets (λ s, config (conn s));
    _ ← (λ s, let '(w, r) := open_pubsub config (world s) in (set_world w s, r));
    stream_id ← next_stream_id;
    _ ← modify (λ s, set_streams
          (<[stream_id := new_stream (stream_capacity (eo_capacity params))]> (streams (conn s))) s);
    lift_outcome (serialize event_open_value stream_id).

Definition control_command (control : RedisPubSubControl) : result PubSubCommand :=
  let channel value :=
    b ← decode_wire_bytes value;
    of_option (invalid_params (from_utf8_error b)) (utf8_decode b) in
  match control with
  | CtlSubscribe value => c ← channel value; Ok (Subscribe c)
  | CtlPSubscribe value => c ← channel value; Ok (PSubscribe c)
  | CtlUnsubscribe value => c ← channel value; Ok (Unsubscribe c)
  | CtlPUnsubscribe value => c ← channel value; Ok (PUnsubscribe c)
  end.

(** [Sender::send]: [None] while the channel is full. *)
Definition send_command (command : PubSubCommand) (e : RedisEvent)
    : option (ProtocolError + RedisEvent) :=
  if negb (running e) then Some (inl stream_closed)
  else if length (commands e) <? COMMAND_CAPACITY then
    Some (inr {| commands := commands e ++ [command]; events := events e; capacity := capacity e;
                 dropped := dropped e; running := true |})
  else None.

Definition with_stream (stream_id : text) : handler RedisEvent :=
  event ← gets (λ s, streams (conn s) !! stream_id);
  lift_outcome (of_option stream_closed event).

Definition put_stream (stream_id : text) (e : RedisEvent) : handler () :=
  modify (λ s, set_streams (<[stream_id := e]> (streams (conn s))) s).

(** The answer is [None] while the channel is full after the turns. *)
Definition control_event (turns : list Turn) (params : Value) : handler (option Value) :=
  params ← lift_outcome (parse_params control_params params);
  event ← with_stream (ct_stream_id params);
  command ← lift_outcome (control_command (ct_control params));
  let event := foldl turn event turns in
  _ ← put_stream (ct_stream_id params) event;
  match send_command command event with
  | None => mret None
  | Some (inl e) => throw e
  | Some (inr event) =>
      _ ← put_stream (ct_stream_id params) event;
      mret (Some Null)
  end.

Definition read_event (waiting : list Turn) (turns : list (list Turn)) (before_swap before_closed : list Turn)
    (params : Value) : handler Value :=
  params ← lift_outcome (parse_params event_read_params params);
  event ← with_stream (er_stream_id params);
  let '(read, event) := read_stream params waiting turns before_swap before_closed event in
  _ ← put_stream (er_stream_id params) event;
  lift_outcome (serialize event_read_value read).

Definition close_event (params : Value) : handler Value :=
  stream_id ← lift_outcome (parse_params event_close_params params);
  event ← gets (λ s, streams (conn s) !! stream_id);
  match event with
  | Some _ => _ ← modify (λ s, set_streams (delete stream_id (streams (conn s))) s); mret Null
  | None => throw stream_closed
  end.

(** ** Requests *)

Record Turns := {
  while_waiting : list Turn; before_taking : list (list Turn); before_swap : list Turn;
  before_closed : list Turn
}.

(** The request is answered. *)
Definition answered (m : handler Value) : handler (option Value) := value ← m; mret (Some value).

(** A request to an open connection, with the turns the tasks take meanwhile. *)
Definition call (turns : Turns) (method : Method) (method_name : text) (params : Value)
    : handler (option Value) :=
  match method with
  | REDIS_COMMAND =>
      params ← lift_outcome (parse_params command_params params);
      value ← execute (cmd_database params) (cmd_args params);
      answered (lift_outcome (serialize command_value value))
  | REDIS_PIPELINE =>
      params ← lift_outcome (parse_params pipeline_params params);
      _ ← lift_outcome (match validate params with
                        | inl message => Err (new_error INVALID_PARAMS message)
                        | inr tt => Ok ()
                        end);
      values ← execute_pipeline (pl_database params) (pl_commands params);
      answered (lift_outcome (serialize pipeline_value values))
  | EVENT_OPEN => answered (open_event params)
  | EVENT_READ =>
      answered (read_event (while_waiting turns) (before_taking turns) (before_swap turns)
                  (before_closed turns) params)
  | EVENT_CLOSE => answered (close_event params)
  | REDIS_PUBSUB_CONTROL => control_event (while_waiting turns) params
  | OtherMethod =>
      throw (new_error METHOD_NOT_FOUND (lit "unsupported Redis method `" ++ method_name ++ lit "`"))
  end.

Definition close (s : Redis) : Redis :=
  {| conn := {| config := config (conn s); connections := ∅; streams := ∅ |};
     event_id := event_id s; world := world s |}.

(** ** The driver *)

Definition init (_ : Value) : result Value :=
  serialize init_value
    {| init_version := package_version; init_api := lit "redis"; init_features := [CANCEL_REQUEST];
       init_methods := [REDIS_COMMAND; REDIS_PIPELINE; EVENT_OPEN; EVENT_READ; EVENT_CLOSE;
                        REDIS_PUBSUB_CONTROL];
       init_driver := lit "redis" |}.

(** The next number of a connection, and the number, answer and state of the one opened. *)
Definition open_connection (params : Value) (next_conn_id : N) (w : World)
    : N * World * result (N * Value * RedisConnection) :=
  match parse_params open_params params ≫= parse_params config_params with
  | Err e => (next_conn_id, w, Err e)
  | Panic => (next_conn_id, w, Panic)
  | Ok config =>
      match open_connection_manager config w with
      | (w, Err e) => (next_conn_id, w, Err e)
      | (w, Panic) => (next_conn_id, w, Panic)
      | (w, Ok manager) =>
          let conn_id := next_conn_id in
          (wrap_add u64_max next_conn_id 1, w,
           open_result ← serialize conn_open_value conn_id;
           Ok (conn_id, open_result,
               {| config := config; connections := {[database config := manager]}; streams := ∅ |}))
      end
  end.

Definition call_connless (method_name : text) : result Value :=
  Err (new_error METHOD_NOT_FOUND (lit "unsupported connless Redis method `" ++ method_name ++ lit "`")).
End driver.
