(* ===== verification/RedisCalls.v ===== *)
(** * The Redis driver: what is sent

    A command that may write is sent at most once, whatever happens to the connection, and
    an error says that a request may be repeated only if nothing that may write was sent;
    the address of a server reads back; and the events of a stream are its messages in
    order, those that are missing counted. *)

From S2P Require Import Prelude VncClipboard Text TextSearch JsonValue RedisDriver.

(** ** A client that writes down what is sent *)

Record Sent (Manager : Type) := {
  over : Manager; sent_commands : list (list bytes); replied : RedisError + list RValue
}.
Arguments over {_}.
Arguments sent_commands {_}.
Arguments replied {_}.

Definition answer_of {A B} (f : A → B) (r : RedisError + A) : RedisError + B :=
  match r with inl e => inl e | inr a => inr (f a) end.

(** What was sent, and which address each connection was opened for. *)
Record Log `{RedisClient} := {
  sent_log : list (Sent Manager); opened : list (text * Manager); inner : World
}.

Section logged.
Context (C : RedisClient).

Definition log_query {A} (m : Manager) (cmds : list (list bytes)) (values : A → list RValue)
    (send : World → World * (RedisError + A)) (l : Log) : Log * (RedisError + A) :=
  let '(w, r) := send (inner l) in
  ({| sent_log := sent_log l ++ [{| over := m; sent_commands := cmds; replied := answer_of values r |}];
      opened := opened l; inner := w |}, r).

Definition logged : RedisClient := {|
  RedisDriver.World := Log;
  RedisDriver.Client := text * Client;
  RedisDriver.Manager := Manager;
  client_open url := answer_of (pair url) (client_open url);
  get_connection_manager client connect response l :=
    let '(w, r) := get_connection_manager client.2 connect response (inner l) in
    ({| sent_log := sent_log l;
        opened := opened l ++ (match r with inl _ => [] | inr m => [(client.1, m)] end);
        inner := w |}, r);
  query m cmd := log_query m [cmd] (λ v, [v]) (query m cmd);
  query_pipeline m pipeline := log_query m pipeline id (query_pipeline m pipeline);
  get_async_pubsub client timeout l :=
    let '(w, r) := get_async_pubsub client.2 timeout (inner l) in
    ({| sent_log := sent_log l; opened := opened l; inner := w |}, r);
  utf8_percent_encode := utf8_percent_encode;
  base64_encode := base64_encode;
  base64_decode := base64_decode
|}.
End logged.

Section sending.
Context (C : RedisClient).

Abbreviation State := (@Redis (logged C)) (only parsing).

(** The address for a database. *)
Definition address (s : State) (database : N) : text :=
  @connection_url (logged C) (with_database database (config (conn s))).

(** Every connection that is kept was opened for its database. *)
Definition managers_ok (s : State) : Prop :=
  ∀ database m, connections (conn s) !! database = Some m →
    (address s database, m) ∈ opened (world s).

(** From one state to the other the commands were sent so often, over connections for the
    database. *)
Record effect (database : N) (cmds : list (list bytes)) (s s' : State) (sent : list (Sent (@Manager C)))
    : Prop := {
  effect_log : sent_log (world s') = sent_log (world s) ++ sent;
  effect_config : config (conn s') = config (conn s);
  effect_streams : streams (conn s') = streams (conn s);
  effect_opened : opened (world s) ⊆ opened (world s');
  effect_ok : managers_ok s';
  effect_sent : Forall (λ x, sent_commands x = cmds ∧ (address s database, over x) ∈ opened (world s')) sent
}.

Lemma effect_refl database cmds s : managers_ok s → effect database cmds s s [].
Proof. by split; rewrite ?app_nil_r. Qed.

Lemma effect_trans database cmds s s1 s2 sent1 sent2 :
  effect database cmds s s1 sent1 → effect database cmds s1 s2 sent2 →
  effect database cmds s s2 (sent1 ++ sent2).
Proof.
  intros [H1 H2 H3 H4 H5 H6] [K1 K2 K3 K4 K5 K6]. split.
  - by rewrite K1, H1, app_assoc.
  - by rewrite K2.
  - by rewrite K3.
  - by etransitivity.
  - done.
  - apply Forall_app. split.
    + eapply Forall_impl; [exact H6|]. intros x [? Hin]. split; [done|]. by apply K4.
    + unfold address in *. rewrite <-H2. done.
Qed.

Definition may_retry (e : ProtocolError) : bool := from_option retryable false (error_data e).

Lemma open_manager_effect database cmds s :
  managers_ok s →
  let '(s', r) := @open_manager (logged C) database s in
  effect database cmds s s' [] ∧ r ≠ Panic ∧ (r = Ok () → is_Some (connections (conn s') !! database)).
Proof.
  intros Hok. unfold open_manager. rewrite gets_bind, comp_bind_run.
  unfold open_connection_manager. cbn [client_open logged].
  destruct (client_open _) as [e|client]; cbn [answer_of].
  { split; [|done]. split; cbn; rewrite ?app_nil_r; try done. }
  destruct (connection_manager_config _) as [connect response]. cbn [get_connection_manager logged].
  destruct (get_connection_manager _ _ _ _) as [w [e|m]] eqn:E; cbv beta iota zeta.
  - split; [|done]. split; cbn; rewrite ?app_nil_r; try done.
  - split; [|split; [done|]].
    + split; cbn; rewrite ?app_nil_r; try done.
      { intros x Hx. apply elem_of_app. by left. }
      intros db m' Hm. cbn in *. destruct (decide (db = database)) as [->|Hne].
      * rewrite lookup_insert_eq in Hm. simplify_eq. apply elem_of_app. right. by apply list_elem_of_singleton.
      * rewrite lookup_insert_ne in Hm by done. apply elem_of_app. left. by apply Hok.
    + intros _. cbn. rewrite lookup_insert_eq. by eexists.
Qed.

Lemma manager_effect database cmds s :
  managers_ok s →
  let '(s', r) := @manager (logged C) database s in
  effect database cmds s s' [] ∧ r ≠ Panic ∧
  (∀ m, r = Ok m → connections (conn s') !! database = Some m).
Proof.
  intros Hok. unfold manager. rewrite gets_bind.
  destruct (connections (conn s) !! database) as [m|] eqn:E; cbv beta iota.
  - rewrite comp_bind_run. cbv beta iota delta [mret comp_ret]. rewrite gets_bind. cbn [fst snd]. rewrite E. cbn.
    split_and!; [by apply effect_refl|done|]. by intros ? [= ->].
  - rewrite comp_bind_run. pose proof (open_manager_effect database cmds s Hok) as Ho.
    destruct (@open_manager (logged C) database s) as [s' r]. destruct Ho as (He & Hp & Hs).
    destruct r as [[]|e|]; [|by split_and!..|done].
    rewrite gets_bind. destruct (Hs eq_refl) as [m Hm]. cbv beta. cbn [fst snd]. rewrite Hm. cbn.
    split_and!; [done..|]. by intros ? [= ->].
Qed.

(** A way of sending that is written down. *)
Definition written {A} (cmds : list (list bytes)) (values : A → list RValue)
    (send : @Manager (logged C) → @World (logged C) → @World (logged C) * (RedisError + A)) : Prop :=
  ∀ m l, sent_log (send m l).1 =
           sent_log l ++ [{| over := m; sent_commands := cmds; replied := answer_of values (send m l).2 |}] ∧
         opened (send m l).1 = opened l.

(** What a query does: how often it is sent, and what its outcome says about it: an answer is
    the reply to what was sent last, after connections that dropped, and an error may be
    answered by repeating the request only if nothing was sent or it may be sent twice. *)
Definition sent_safely {A} (database : N) (cmds : list (list bytes)) (answers : list RValue → A → Prop)
    (replay_safe : bool) (s s' : State) (r : result A) : Prop :=
  ∃ sent, effect database cmds s s' sent ∧ length sent ≤ (if replay_safe then 2 else 1) ∧
  match r with
  | Ok v => ∃ before x vs, sent = before ++ [x] ∧ replied x = inr vs ∧ answers vs v ∧
              Forall (λ y, ∃ e, replied y = inl e ∧ is_connection_dropped e = true) before
  | Err e => may_retry e = true → sent = [] ∨ replay_safe = true
  | Panic => False
  end.

Section query.
Context {A} (database : N) (cmds : list (list bytes)) (values : A → list RValue)
  (send : @Manager (logged C) → @World (logged C) → @World (logged C) * (RedisError + A))
  (Hsend : written cmds values send).

Lemma query_async_effect s :
  managers_ok s →
  let '(s', r) := @query_async (logged C) A send database s in
  match r with
  | Ok reply => ∃ x, effect database cmds s s' [x] ∧ replied x = answer_of values reply
  | Err e => effect database cmds s s' []
  | Panic => False
  end.
Proof.
  intros Hok. unfold query_async. rewrite comp_bind_run.
  pose proof (manager_effect database cmds s Hok) as Hm.
  destruct (@manager (logged C) database s) as [s1 r]. destruct Hm as (He & Hp & Hm).
  destruct r as [m|e|]; [|done|done]. specialize (Hm m eq_refl).
  unfold total. cbn [fst snd]. destruct (Hsend m (world s1)) as [Hl Ho].
  destruct (send m (world s1)) as [w reply]. cbn [fst snd] in *.
  exists {| over := m; sent_commands := cmds; replied := answer_of values reply |}. split; [|done].
  eapply (effect_trans _ _ _ _ _ [] [_]); [exact He|]. destruct He as [_ _ _ _ Hok1 _].
  split; cbn; [done..| | |].
  - by rewrite Ho.
  - intros db m' Hm'. cbn in *. rewrite Ho. by apply Hok1.
  - constructor; [|done]. cbn. split; [done|]. rewrite Ho. by apply Hok1.
Qed.

Lemma reconnect_effect s :
  managers_ok s →
  let '(s', r) := @reconnect_manager (logged C) database s in
  effect database cmds s s' [] ∧ r ≠ Panic.
Proof.
  intros Hok. unfold reconnect_manager. rewrite modify_bind.
  set (s1 := set_connections _ s).
  assert (effect database cmds s s1 []) as He.
  { split; cbn; rewrite ?app_nil_r; try done. intros db m Hm. cbn in *.
    apply lookup_delete_Some in Hm as [_ Hm]. by apply Hok. }
  pose proof (open_manager_effect database cmds s1 (effect_ok _ _ _ _ _ He)) as Ho.
  destruct (@open_manager (logged C) database s1) as [s2 r]. destruct Ho as (He2 & Hp & _).
  split; [|done]. by apply (effect_trans _ _ _ _ _ [] [] He).
Qed.

Lemma command_error_retry e (replay_safe : bool) : may_retry (command_error e replay_safe) = true → replay_safe = true.
Proof. unfold may_retry. cbn. by intros [? _]%andb_true_iff. Qed.

Lemma query_replayed_promise (replay_safe : bool) s :
  managers_ok s →
  let '(s', r) := @query_replayed (logged C) A send database replay_safe s in
  sent_safely database cmds (λ vs v, vs = values v) replay_safe s s' r.
Proof.
  intros Hok. unfold query_replayed. rewrite comp_bind_run.
  pose proof (query_async_effect s Hok) as Hq.
  destruct (@query_async (logged C) A send database s) as [s1 r].
  destruct r as [reply|e|]; [|by exists []; split_and!; [done|simpl; lia|left]|done].
  destruct Hq as (x & He & Hx). cbn [fst snd]. destruct reply as [error|v].
  2: { exists [x]. split_and!; [done|destruct replay_safe; simpl; lia|]. by exists [], x, (values v). }
  destruct (is_connection_dropped error) eqn:Ed.
  2: { exists [x]. split_and!; [done|destruct replay_safe; simpl; lia|].
       intros Hr. right. by eapply command_error_retry. }
  rewrite comp_bind_run. unfold attempt.
  pose proof (reconnect_effect s1 (effect_ok _ _ _ _ _ He)) as Hr.
  destruct (@reconnect_manager (logged C) database s1) as [s2 r]. destruct Hr as [He2 Hp].
  pose proof (effect_trans _ _ _ _ _ _ _ He He2) as He12. rewrite app_nil_r in He12.
  destruct replay_safe; cbn [negb].
  2: { destruct r as [[]|e|]; [..|done]; (exists [x]; split_and!; [done|simpl; lia|]);
       intros Hr; right; by eapply command_error_retry. }
  destruct r as [[]|e|]; [| |done]; cbn [fst snd].
  2: { exists [x]. split_and!; [done|simpl; lia|by right]. }
  cbn [fst snd]. rewrite lift_bind, comp_bind_run.
  pose proof (query_async_effect s2 (effect_ok _ _ _ _ _ He2)) as Hq2.
  destruct (@query_async (logged C) A send database s2) as [s3 r].
  destruct r as [reply|e|]; [|exists [x]; split_and!; [|simpl; lia|by right]|done].
  2: { rewrite <-(app_nil_r [x]). by eapply effect_trans. }
  destruct Hq2 as (y & He3 & Hy).
  pose proof (effect_trans _ _ _ _ _ _ _ He12 He3) as He13.
  destruct reply as [error2|v]; exists ([x] ++ [y]); (split_and!; [done|simpl; lia|]).
  - by right.
  - exists [x], y, (values v). split_and!; [done..|]. constructor; [|done]. by exists error.
Qed.
End query.

(** ** Requests *)

Section requests.
Context `{RedisCodec}.

Lemma parse_no_panic {T} (F : FromValue T) v : parse_params F v ≠ Panic.
Proof. unfold parse_params. by destruct (F v). Qed.

Lemma to_json_no_panic {T} (F : ToValue T) v : serialize F v ≠ Panic.
Proof. unfold serialize. by destruct (F v). Qed.

Lemma build_command_no_panic args : @build_command (logged C) args ≠ Panic.
Proof.
  destruct args as [|arg args]; [done|]. unfold build_command. generalize (arg :: args).
  intros l. induction l as [|x l IH]; [done|]. cbn [foldr]. apply bind_no_panic.
  - destruct x as [t|t]; [done|]. cbn. by destruct (base64_decode t).
  - intros b. apply bind_no_panic; [done|]. by intros.
Qed.

Lemma build_pipeline_no_panic commands : @build_pipeline (logged C) commands ≠ Panic.
Proof.
  unfold build_pipeline. induction commands as [|x l IH]; [done|]. cbn [foldr].
  apply bind_no_panic; [apply build_command_no_panic|]. intros b. apply bind_no_panic; [done|]. by intros.
Qed.

Lemma query_keeps {A} (cmds : list (list bytes)) (values : A → list RValue) send (Hsend : written cmds values send)
    database replay_safe :
  keeps_safe managers_ok (@query_replayed (logged C) A send database replay_safe).
Proof.
  intros s Hok. pose proof (query_replayed_promise database cmds values send Hsend replay_safe s Hok) as Hq.
  destruct (query_replayed _ _ _ s) as [s' r]. destruct Hq as (sent & He & _ & Hr).
  split; [by destruct He|]. cbn. by destruct r.
Qed.

Lemma query_written cmd :
  written [cmd] (λ v, [v]) (λ m, @query (logged C) m cmd).
Proof. intros m l. cbn. unfold log_query. by destruct (@query C m cmd (inner l)). Qed.

Lemma pipeline_written cmds :
  written cmds id (λ m, @query_pipeline (logged C) m cmds).
Proof. intros m l. cbn. unfold log_query. by destruct (@query_pipeline C m cmds (inner l)). Qed.
#[local] Hint Resolve query_written pipeline_written : core.
#[local] Hint Resolve parse_no_panic to_json_no_panic build_command_no_panic build_pipeline_no_panic : helper.

#[local] Opaque query_replayed.

Lemma execute_keeps database args : keeps_safe managers_ok (@execute (logged C) database args).
Proof. unfold execute. keeps_safe_steps. eapply query_keeps, query_written. Qed.

Lemma pipeline_keeps database commands :
  keeps_safe managers_ok (@execute_pipeline (logged C) database commands).
Proof. unfold execute_pipeline. keeps_safe_steps. eapply query_keeps, pipeline_written. Qed.

(** A change of the streams. *)
Lemma streams_keep f : keeps_safe managers_ok (@modify State ProtocolError (λ s, set_streams (f s) s)).
Proof. by apply keeps_safe_modify. Qed.
#[local] Hint Resolve execute_keeps pipeline_keeps streams_keep : helper.

Lemma pubsub_keeps config :
  keeps_safe managers_ok (λ s : State, let '(w, r) := @open_pubsub (logged C) config (world s) in (set_world w s, r)).
Proof.
  intros s Hok. unfold open_pubsub. cbn [client_open logged].
  destruct (client_open _) as [e|client]; cbn [answer_of]; [done|].
  cbn [get_async_pubsub logged]. destruct (get_async_pubsub _ _ _) as [w [[e|[]]|]]; done.
Qed.
#[local] Hint Resolve pubsub_keeps : helper.

Lemma control_command_no_panic control : @control_command (logged C) _ control ≠ Panic.
Proof.
  assert (∀ v, @decode_wire_bytes (logged C) v ≠ Panic) by (intros [t|t]; [done|]; cbn; by destruct (base64_decode t)).
  destruct control; cbn; no_panic_steps; naive_solver.
Qed.

Lemma next_id_keeps : keeps_safe managers_ok (@next_stream_id (logged C)).
Proof. by apply keeps_safe_total. Qed.
#[local] Hint Resolve control_command_no_panic next_id_keeps : helper.
#[local] Opaque execute execute_pipeline next_stream_id.

Lemma call_keeps turns method name params :
  keeps_safe managers_ok (@call (logged C) _ turns method name params).
Proof.
  destruct method; unfold call, answered, open_event, control_event, read_event, close_event,
    with_stream, put_stream; keeps_safe_steps.
Qed.

(** The states of a connection that was opened, after any requests, turns of the tasks, and
    whatever else happens in the world. *)
Inductive reached : State → Prop :=
  | reached_open params next w next' w' conn_id v c n :
      @open_connection (logged C) _ params next w = (next', w', Ok (conn_id, v, c)) →
      reached {| conn := c; event_id := n; world := w' |}
  | reached_call turns method name params s :
      reached s → reached (@call (logged C) _ turns method name params s).1
  | reached_turns e s : reached s → reached (set_streams e s)
  | reached_outside n w s :
      reached s → opened (world s) ⊆ opened w → reached {| conn := conn s; event_id := n; world := w |}.

Lemma reached_managers s : reached s → managers_ok s.
Proof.
  induction 1 as [params next w next' w' conn_id v c n Ho|turns method name params s _ IH|e s _ IH|n w s _ IH Hw].
  - unfold open_connection in Ho. destruct (_ ≫= _) as [config|e|]; [|done|done].
    unfold open_connection_manager in Ho. cbn [client_open logged] in Ho.
    destruct (client_open _) as [e|client]; cbn [answer_of] in Ho; [done|].
    destruct (connection_manager_config _) as [connect response]. cbn [get_connection_manager logged] in Ho.
    destruct (get_connection_manager _ _ _ _) as [w1 [e|m]]; [done|].
    cbn in Ho. destruct (serialize _ _) as [r|e|]; cbn in Ho; simplify_eq.
    intros db m' Hm. cbn in *. apply lookup_singleton_Some in Hm as [<- <-].
    apply elem_of_app. right. apply list_elem_of_singleton. unfold address. cbn. by destruct config.
  - by apply call_keeps.
  - done.
  - intros db m Hm. apply Hw. by apply IH.
Qed.
End requests.

(** The replies to a command and to a pipeline, and what answers the host. *)
Definition command_answer (replies : list RValue) (v : RedisRespValue) : Prop :=
  ∃ reply, replies = [reply] ∧ v = @redis_value (logged C) reply.
Definition pipeline_answer (replies : list RValue) (vs : list RedisRespValue) : Prop :=
  vs = @redis_value (logged C) <$> replies.

Lemma query_answer {A B} (cmds : list (list bytes)) (values : A → list RValue) send
    (Hsend : written cmds values send) (g : A → B) (answers : list RValue → B → Prop) database
    (replay_safe : bool) s :
  (∀ a, answers (values a) (g a)) → managers_ok s →
  let '(s', r) := (v ← @query_replayed (logged C) A send database replay_safe; mret (g v)) s in
  sent_safely database cmds answers replay_safe s s' r.
Proof.
  intros Hg Hok. rewrite comp_bind_run.
  pose proof (query_replayed_promise database cmds values send Hsend replay_safe s Hok) as Hq.
  destruct (query_replayed _ _ _ s) as [s' r]. destruct Hq as (sent & He & Hl & Hr).
  destruct r as [v|e|]; [|by exists sent|done]. cbn.
  destruct Hr as (before & x & vs & Hs & Hx & -> & Hb). exists sent. split_and!; [done..|].
  by exists before, x, (values v).
Qed.

#[local] Transparent execute execute_pipeline.

(** ** What only reads *)

Definition reading_words : list string :=
  ["GET"; "MGET"; "STRLEN"; "EXISTS"; "TYPE"; "TTL"; "PTTL"; "KEYS"; "SCAN"; "SSCAN"; "HSCAN"; "ZSCAN";
   "HGET"; "HMGET"; "HGETALL"; "HKEYS"; "HVALS"; "HLEN"; "LLEN"; "LRANGE"; "SCARD"; "SMEMBERS";
   "ZCARD"; "ZRANGE"; "XRANGE"; "XLEN"; "PING"; "INFO"; "DBSIZE"].

(** A command, as the words that are sent, that only reads, in any case of letters. *)
Definition only_reads (words : list bytes) : bool :=
  match words with
  | [] => false
  | [word] => existsb (λ w, eq_ignore_ascii_case word (lit w)) reading_words
  | word :: second :: _ =>
      existsb (λ w, eq_ignore_ascii_case word (lit w)) reading_words ||
      eq_ignore_ascii_case word (lit "MEMORY") && eq_ignore_ascii_case second (lit "USAGE")
  end.

Lemma wire_word (arg : WireBytes) word :
  @decode_wire_bytes (logged C) arg = Ok word → @wire_bytes_for_retry_check (logged C) arg = Some word.
Proof. destruct arg as [t|t]; cbn; [by intros [= ->]|]. destruct (base64_decode t); by intros [= ->]. Qed.

(** The words that are compared, in the order of the driver. *)
Lemma reading_words_same word :
  existsb (λ w, eq_ignore_ascii_case word (lit w)) (@read_only_commands) =
  existsb (λ w, eq_ignore_ascii_case word (lit w)) reading_words.
Proof.
  apply eq_true_iff_eq. rewrite !existsb_exists.
  split; intros (w & Hw & E); exists w; (split; [|done]); revert Hw; cbn; tauto.
Qed.

Lemma memory_no_reading word :
  eq_ignore_ascii_case word (lit "MEMORY") = true →
  existsb (λ w, eq_ignore_ascii_case word (lit w)) reading_words = false.
Proof. unfold eq_ignore_ascii_case. intros E%bool_decide_eq_true. by rewrite E. Qed.

(** What is built is what is written in the request, decoded. *)
Lemma build_command_words args cmd :
  @build_command (logged C) args = Ok cmd →
  Forall2 (λ arg word, @wire_bytes_for_retry_check (logged C) arg = Some word) args cmd.
Proof.
  destruct args as [|arg args]; [done|]. unfold build_command. generalize (arg :: args). clear.
  intros l. revert cmd. induction l as [|arg l IH]; intros cmd; cbn [foldr]; [by intros [= <-]|].
  intros (word & Hw & (words & Hl & [= <-])%bind_ok)%bind_ok. constructor; [by apply wire_word|by apply IH].
Qed.

Lemma command_reads args cmd :
  @build_command (logged C) args = Ok cmd → @can_retry_command (logged C) args = only_reads cmd.
Proof.
  intros Hall%build_command_words. unfold can_retry_command, only_reads.
  destruct Hall as [|arg word rest words Hw Hall]; [done|]. cbn [head mbind option_bind]. rewrite Hw, reading_words_same.
  change ((arg :: rest) !! 1) with (rest !! 0).
  destruct Hall as [|arg2 second rest words H2 _]; cbn [lookup list_lookup mbind option_bind];
    (destruct (eq_ignore_ascii_case word (lit "MEMORY")) eqn:Em; [by rewrite memory_no_reading, ?H2|]);
    by rewrite ?orb_false_r.
Qed.

Lemma pipeline_reads commands cmds :
  @build_pipeline (logged C) commands = Ok cmds →
  @can_retry_pipeline (logged C) commands = negb (bool_decide (cmds = [])) && forallb only_reads cmds.
Proof.
  intros H. unfold can_retry_pipeline.
  assert (Forall2 (λ args cmd, @build_command (logged C) args = Ok cmd) commands cmds) as Hall.
  { revert cmds H. unfold build_pipeline. induction commands as [|args commands IH]; intros cmds;
      cbn [foldr]; [by intros [= <-]|].
    intros (cmd & Hc & (rest & Hr & [= <-])%bind_ok)%bind_ok. constructor; [done|by apply IH]. }
  clear H. f_equal; [by destruct Hall|].
  induction Hall as [|args cmd commands cmds Hc _ IH]; [done|]. cbn [forallb]. by rewrite IH, (command_reads _ _ Hc).
Qed.

(** C34: A connection of the Redis driver, whatever requests it has had: a command whose words
    are not those of one that only reads, or a pipeline that has such a command or none, is
    sent to the server at most once, and another at most twice, the second time only after the connection dropped; only
    over connections opened for the database asked for; the answer is the reply to what was
    sent last; and when an error tells the host that it may repeat the request, nothing that
    may write was sent. *)
Theorem commands_sent_safely `{RedisCodec} (s : State) (Hs : reached s) (database : option N) :
  (∀ args, let '(s', r) := @execute (logged C) database args s in
     match @build_command (logged C) args with
     | Ok cmd => sent_safely (database_of database s) [cmd] command_answer
                   (only_reads cmd) s s' r
     | _ => s' = s ∧ ∃ e, r = Err e
     end) ∧
  (∀ commands, let '(s', r) := @execute_pipeline (logged C) database commands s in
     match @build_pipeline (logged C) commands with
     | Ok pipeline => sent_safely (database_of database s) pipeline pipeline_answer
                        (negb (bool_decide (pipeline = [])) && forallb only_reads pipeline) s s' r
     | _ => s' = s ∧ ∃ e, r = Err e
     end).
Proof.
  pose proof (reached_managers s Hs) as Hok. split.
  - intros args. unfold execute. rewrite gets_bind, lift_bind.
    pose proof (build_command_no_panic args) as Hp.
    destruct (@build_command (logged C) args) as [cmd|e|] eqn:E; [|split; [done|by exists e]|done].
    rewrite (command_reads _ _ E).
    eapply query_answer; [apply query_written| |done]. intros v. by exists v.
  - intros commands. unfold execute_pipeline. rewrite gets_bind, lift_bind.
    pose proof (build_pipeline_no_panic commands) as Hp.
    destruct (@build_pipeline (logged C) commands) as [cmds|e|] eqn:E; [|split; [done|by exists e]|done].
    rewrite (pipeline_reads _ _ E).
    eapply query_answer; [apply pipeline_written| |done]. done.
Qed.
End sending.

(** ** The events of a stream *)

Section streams.
Context `{RedisClient}.

(** The events of the messages a task hears in its turns. *)
Definition heard_in (e : RedisEvent) (t : Turn) : list Value :=
  match t with Message m => if running e then [event_of m] else [] | _ => [] end.

Fixpoint heard (e : RedisEvent) (ts : list Turn) : list Value :=
  match ts with
  | [] => []
  | t :: ts => heard_in e t ++ heard (turn e t) ts
  end.

(** The turns that happen while [take_events] takes events, and in a whole read. *)
Fixpoint attempts (n : nat) (turns : list (list Turn)) (e : RedisEvent) : list Turn :=
  match n with
  | O => []
  | S n =>
      let ts := default [] (head turns) in
      ts ++ match pop (foldl turn e ts) with
            | None => []
            | Some (_, e) => attempts n (tail turns) e
            end
  end.

Definition waits (params : EventReadParams) : bool :=
  match er_wait_ms params with Some wait_ms => (0 <? wait_ms)%N | None => false end.

Definition during_read (params : EventReadParams) (waiting : list Turn) (turns : list (list Turn))
    (before_swap before_closed : list Turn) (e : RedisEvent) : list Turn :=
  let ts := if waits params then waiting else [] in
  let '(first, e) := first_event params waiting e in
  ts ++ attempts (effective_max_events params - length first) turns e ++ before_swap ++ before_closed.

(** What can happen to a stream of a capacity: its state, the events of the messages its task
    has heard, those the host was given, and the sum of the counts the host was given. *)
Inductive history (n : nat) : RedisEvent → list Value → list Value → N → Prop :=
  | history_open : history n (new_stream n) [] [] 0
  | history_turns ts e log got reported :
      history n e log got reported → history n (foldl turn e ts) (log ++ heard e ts) got reported
  | history_command command e e' log got reported :
      history n e log got reported → send_command command e = Some (inr e') →
      history n e' log got reported
  | history_read params waiting turns before_swap before_closed e r e' log got reported :
      history n e log got reported →
      read_stream params waiting turns before_swap before_closed e = (r, e') →
      history n e' (log ++ heard e (during_read params waiting turns before_swap before_closed e))
        (got ++ er_events r) (reported + er_dropped_count r).

(** Events given and waiting are among those heard, in order, and the rest are counted. *)
Record accounted (n : nat) (e : RedisEvent) (log got : list Value) (reported : N) : Prop := {
  acc_order : got ++ events e `sublist_of` log;
  acc_count : (N.of_nat (length log) `mod` 2 ^ 64 =
               (N.of_nat (length (got ++ events e)) + reported + dropped e) `mod` 2 ^ 64)%N;
  acc_room : length (events e) ≤ n;
  acc_capacity : capacity e = n
}.

Lemma mod_wrap (a b : N) : ((a + wrap_add u64_max b 1) `mod` 2 ^ 64 = (a + b + 1) `mod` 2 ^ 64)%N.
Proof.
  unfold wrap_add. change (u64_max + 1)%N with (2 ^ 64)%N.
  rewrite N.Div0.add_mod_idemp_r. f_equal. lia.
Qed.

Lemma turn_accounted n e t log got reported :
  accounted n e log got reported → accounted n (turn e t) (log ++ heard_in e t) got reported.
Proof.
  intros [Ho Hc Hr Hcap]. unfold turn, heard_in. destruct (running e) eqn:E; cbn [negb].
  2: { destruct t; rewrite app_nil_r; by split. }
  destruct t as [accepted|m|].
  - rewrite app_nil_r. destruct (commands e); [by split|]. by destruct accepted.
  - destruct (Nat.ltb_spec (length (events e)) (capacity e)) as [Hlt|Hge]; split; cbn; try done; try lia.
    + rewrite app_assoc. by apply sublist_app.
    + rewrite !length_app in *. cbn. rewrite !Nat2N.inj_add in *. cbn.
      transitivity ((N.of_nat (length log) `mod` 2 ^ 64 + 1) `mod` 2 ^ 64)%N.
      * by rewrite N.Div0.add_mod_idemp_l.
      * rewrite Hc, N.Div0.add_mod_idemp_l. f_equal. lia.
    + rewrite length_app. cbn. lia.
    + by apply sublist_inserts_r.
    + rewrite length_app. cbn. rewrite mod_wrap, Nat2N.inj_add. cbn.
      transitivity ((N.of_nat (length log) `mod` 2 ^ 64 + 1) `mod` 2 ^ 64)%N.
      * by rewrite N.Div0.add_mod_idemp_l.
      * by rewrite Hc, N.Div0.add_mod_idemp_l.
  - rewrite app_nil_r. by split.
Qed.

Lemma turns_accounted n ts e log got reported :
  accounted n e log got reported → accounted n (foldl turn e ts) (log ++ heard e ts) got reported.
Proof.
  revert e log. induction ts as [|t ts IH]; intros e log Ha; cbn [foldl heard].
  - by rewrite app_nil_r.
  - rewrite app_assoc. by apply IH, turn_accounted.
Qed.

Lemma pop_accounted n e e' v log got reported :
  pop e = Some (v, e') → accounted n e log got reported → accounted n e' log (got ++ [v]) reported.
Proof.
  unfold pop. destruct (events e) as [|v' rest] eqn:E; [done|]. intros [= -> <-] [Ho Hc Hr Hcap].
  rewrite E in *. split; cbn in *; rewrite <-?app_assoc; try done. lia.
Qed.

(** What the task hears does not depend on what the host takes. *)
Definition alike (e e' : RedisEvent) : Prop := commands e = commands e' ∧ running e = running e'.

Lemma turn_alike e e' t : alike e e' → alike (turn e t) (turn e' t) ∧ heard_in e t = heard_in e' t.
Proof.
  intros [Hc Hr]. unfold alike, turn, heard_in. rewrite <-Hr.
  split; [|done]. destruct (running e) eqn:E; cbn [negb]; [|by rewrite <-Hr, <-Hc, E].
  destruct t as [accepted|m|]; [|by repeat case_match|done].
  rewrite <-Hc. destruct (commands e) eqn:Ec; [by rewrite <-Hr, <-Hc, Ec, E|]. by destruct accepted.
Qed.

Lemma heard_alike ts e e' :
  alike e e' → heard e ts = heard e' ts ∧ alike (foldl turn e ts) (foldl turn e' ts).
Proof.
  revert e e'. induction ts as [|t ts IH]; intros e e' Ha; [done|]. cbn [heard foldl].
  destruct (turn_alike e e' t Ha) as [Ht ->]. by destruct (IH _ _ Ht) as [-> ?].
Qed.

Lemma heard_app e e' ts ts' :
  alike (foldl turn e ts) e' → heard e (ts ++ ts') = heard e ts ++ heard e' ts'.
Proof.
  intros Ha. trans (heard e ts ++ heard (foldl turn e ts) ts'); [|f_equal; by apply heard_alike].
  clear Ha. revert e. induction ts as [|t ts IH]; intros e; [done|]. cbn. by rewrite IH, app_assoc.
Qed.

Lemma pop_alike e v e' : pop e = Some (v, e') → alike e e'.
Proof. unfold pop. destruct (events e); [done|]. by intros [= _ <-]. Qed.

Lemma take_accounted n m turns e values e' log got reported :
  take_events m turns e = (values, e') → accounted n e log got reported →
  accounted n e' (log ++ heard e (attempts m turns e)) (got ++ values) reported ∧
  alike (foldl turn e (attempts m turns e)) e'.
Proof.
  revert turns e values e' log got.
  induction m as [|m IH]; intros turns e values e' log got; cbn [take_events attempts].
  { intros [= <- <-] Ha. by rewrite !app_nil_r. }
  set (ts := default [] (head turns)). intros Ht Ha.
  pose proof (turns_accounted n ts e log got reported Ha) as Hts.
  destruct (pop (foldl turn e ts)) as [[v e1]|] eqn:E.
  - destruct (take_events m (tail turns) e1) as [vs e2] eqn:E2. simplify_eq.
    pose proof (pop_alike _ _ _ E) as Hal.
    destruct (IH _ _ _ _ _ _ E2 (pop_accounted _ _ _ _ _ _ _ E Hts)) as [Ha2 Hal2].
    split.
    + rewrite (heard_app _ e1) by done. rewrite app_assoc. change (v :: vs) with ([v] ++ vs).
      by rewrite (app_assoc got).
    + rewrite foldl_app. destruct (heard_alike (attempts m (tail turns) e1) _ _ Hal) as [_ [? ?]].
      destruct Hal2. split; congruence.
  - simplify_eq. by rewrite !app_nil_r.
Qed.

Lemma swap_accounted n e log got reported :
  accounted n e log got reported →
  accounted n {| commands := commands e; events := events e; capacity := capacity e; dropped := 0;
                 running := running e |} log got (reported + dropped e).
Proof. intros [Ho Hc Hr Hcap]. split; cbn; try done. rewrite Hc. f_equal. lia. Qed.

Lemma first_accounted n params waiting e first e' log got reported :
  first_event params waiting e = (first, e') → accounted n e log got reported →
  let ts := if waits params then waiting else [] in
  accounted n e' (log ++ heard e ts) (got ++ first) reported ∧ alike (foldl turn e ts) e'.
Proof.
  unfold first_event, waits. intros Hf Ha.
  destruct (er_wait_ms params) as [w|]; [destruct (0 <? w)%N|]; try (simplify_eq; cbn; by rewrite !app_nil_r).
  pose proof (turns_accounted n waiting e log got reported Ha) as Hw. cbv zeta in *.
  destruct (pop (foldl turn e waiting)) as [[v e1]|] eqn:E; simplify_eq.
  - split; [by eapply pop_accounted|by eapply pop_alike].
  - by rewrite app_nil_r.
Qed.

Lemma read_accounted n params waiting turns before_swap before_closed e r e' log got reported :
  read_stream params waiting turns before_swap before_closed e = (r, e') →
  accounted n e log got reported →
  accounted n e' (log ++ heard e (during_read params waiting turns before_swap before_closed e))
    (got ++ er_events r) (reported + er_dropped_count r).
Proof.
  unfold read_stream, during_read. intros Hread Ha.
  destruct (first_event params waiting e) as [first e1] eqn:E1.
  destruct (first_accounted _ _ _ _ _ _ _ _ _ E1 Ha) as [Ha1 Hal1].
  set (ts := if waits params then waiting else []) in *.
  destruct (take_events _ turns e1) as [values e2] eqn:E2. simplify_eq. cbn [er_events er_dropped_count].
  destruct (take_accounted _ _ _ _ _ _ _ _ _ E2 Ha1) as [Ha2 Hal2].
  apply (turns_accounted n before_swap) in Ha2. apply swap_accounted in Ha2.
  apply (turns_accounted n before_closed) in Ha2.
  rewrite (app_assoc got). rewrite (heard_app _ e1) by done. rewrite (heard_app _ e2) by done.
  rewrite (heard_app _ (foldl turn e2 before_swap)) by done. rewrite !app_assoc in *.
  unshelve erewrite (proj1 (heard_alike before_closed (foldl turn e2 before_swap) _ _)); [..|exact Ha2]. done.
Qed.

Lemma turns_ended ts e : running e = false → foldl turn e ts = e.
Proof.
  intros He. induction ts as [|t ts IH]; [done|]. cbn. unfold turn at 2. by rewrite He.
Qed.

Lemma take_ended m turns e :
  running e = false →
  (take_events m turns e).1 = take m (events e) ∧ running (take_events m turns e).2 = false.
Proof.
  revert turns e. induction m as [|m IH]; intros turns e He; [done|]. cbn [take_events].
  rewrite turns_ended by done. unfold pop. destruct (events e) as [|v rest] eqn:E; [done|].
  set (e1 := Build_RedisEvent _ _ _ _ _). destruct (IH (tail turns) e1 He) as [H1 H2].
  destruct (take_events m (tail turns) e1) as [vs e2]. cbn in *. by rewrite H1.
Qed.

(** What a read waits for counts even if the request asks for no events. *)
Definition read_bound (params : EventReadParams) : nat :=
  effective_max_events params `max` (if waits params then 1 else 0).

Lemma read_ended params waiting turns before_swap before_closed e :
  running e = false →
  er_events (read_stream params waiting turns before_swap before_closed e).1 =
  take (read_bound params) (events e).
Proof.
  intros He. unfold read_stream, read_bound, first_event, waits.
  destruct (er_wait_ms params) as [w|]; [destruct (0 <? w)%N|].
  1: cbv zeta; rewrite turns_ended by done; unfold pop; destruct (events e) as [|v rest] eqn:E.
  2: { set (e1 := Build_RedisEvent _ _ _ _ _).
       destruct (take_ended (effective_max_events params - length [v]) turns e1 He) as [H1 _].
       destruct (take_events _ turns e1) as [vs e2]. cbn in *. rewrite H1.
       destruct (effective_max_events params) as [|m]; [done|]. cbn. by rewrite Nat.sub_0_r, Nat.max_0_r. }
  all: destruct (take_ended (effective_max_events params - length (@nil Value)) turns e He) as [H1 _];
    destruct (take_events _ turns e) as [vs e2]; cbn in *; rewrite H1, ?E, ?take_nil, ?Nat.sub_0_r, ?Nat.max_0_r; done.
Qed.

(** C35: However the requests of the host and the task of a stream interleave, the events the
    host was given and those that wait for it are among the messages the task heard, in
    order, and the others are accounted for, modulo 2^64, by the counts the host was given
    and the one it will be given next; no more events wait than the capacity; and when the
    task has ended a request is given the events that wait, up to its bound. *)
Theorem event_stream_accounts n e log got reported (Hh : history n e log got reported) :
  (got ++ events e `sublist_of` log ∧
   (N.of_nat (length log) `mod` 2 ^ 64 =
    (N.of_nat (length (got ++ events e)) + reported + dropped e) `mod` 2 ^ 64)%N ∧
   length (events e) ≤ n) ∧
  (running e = false → ∀ params waiting turns before_swap before_closed,
     er_events (read_stream params waiting turns before_swap before_closed e).1 =
     take (read_bound params) (events e)).
Proof.
  assert (accounted n e log got reported) as [Ho Hc Hr _].
  { induction Hh as [|ts e log got reported Hh IH|command e e' log got reported Hh IH Hs
                     |params waiting turns before_swap before_closed e r e' log got reported Hh IH Hr].
    - split; cbn; done || lia.
    - by apply turns_accounted.
    - unfold send_command in Hs. destruct (negb (running e)); [done|].
      destruct (_ <? _); simplify_eq. by destruct IH.
    - by eapply read_accounted. }
  split; [done|]. intros He *. by apply read_ended.
Qed.
End streams.

(** ** The address *)

Section address.
Context `{RedisClient}.

(** A reader of addresses, which undoes percent encoding. *)
Definition read_credentials (decode : text → option text) (userinfo : text) : option (text * text) :=
  '(name, secret) ← split_once_at (N.eqb 58) userinfo;
  name ← decode name;
  secret ← decode secret;
  Some (name, secret).

Definition read_host (t : text) : option (text * text) :=
  match strip_prefix [91%N] t with
  | Some rest => '(host, rest) ← split_once_at (N.eqb 93) rest; port ← strip_prefix [58%N] rest; Some (host, port)
  | None => split_once_at (N.eqb 58) t
  end.

(** The authority up to the host. *)
Definition read_authority (decode : text → option text) (authority : text)
    : option (option (text * text) * text) :=
  match split_once_at (N.eqb 64) authority with
  | Some (userinfo, t) => c ← read_credentials decode userinfo; Some (Some c, t)
  | None => Some (None, authority)
  end.

Definition read_url (decode : text → option text) (url : text)
    : option (bool * option (text * text) * text * N * N) :=
  '(scheme, rest) ← split_once (lit "://") url;
  tls ← (if bool_decide (scheme = lit "rediss") then Some true
         else if bool_decide (scheme = lit "redis") then Some false else None);
  '(authority, path) ← split_once_at (N.eqb 47) rest;
  '(credentials, t) ← read_authority decode authority;
  '(host, port) ← read_host t;
  port ← parse_unsigned u16_max port;
  database ← parse_unsigned 255 path;
  Some (tls, credentials, host, port, database).

(** The credentials the server is given: none without a password. *)
Definition credentials_of (config : RedisConnectionConfig) : option (text * text) :=
  match username config, password config with
  | Some username, Some password => Some (username, password)
  | None, Some password => Some ([], password)
  | _, None => None
  end.

(** *** Addresses of version 6 *)

(** A text that a part of the parser reads: characters of such an address. *)
Definition v6_char (c : N) : Prop := is_hexdigit c = true ∨ c = 58%N ∨ c = 46%N.
Definition reads (t rest : text) : Prop := ∃ read, t = read ++ rest ∧ Forall v6_char read.

Lemma reads_refl t : reads t t.
Proof. by exists []. Qed.

Lemma reads_trans s t u : reads s t → reads t u → reads s u.
Proof. intros (a & -> & Ha) (b & -> & Hb). exists (a ++ b). rewrite app_assoc. split; [done|by apply Forall_app]. Qed.

Lemma take_digits_reads f t : (∀ c, f c = true → v6_char c) → reads t (take_digits f t).2.
Proof.
  intros Hf. induction t as [|c t IH]; [apply reads_refl|]. cbn [take_digits].
  destruct (f c) eqn:E; [|apply reads_refl]. destruct (take_digits f t) as [ds rest].
  destruct IH as (a & Ha & IH). exists (c :: a). cbn in *. split; [by rewrite Ha|]. constructor; [by apply Hf|done].
Qed.

Lemma read_char_reads c t rest : v6_char c → read_char c t = Some rest → reads t rest.
Proof. intros Hc Hr. apply strip_prefix_spec in Hr as ->. exists [c]. split; [done|by constructor]. Qed.

Lemma read_octet_reads t rest : read_octet t = Some rest → reads t rest.
Proof.
  unfold read_octet. pose proof (take_digits_reads is_digit t) as Ht.
  destruct (take_digits is_digit t) as [[|d ds] rest']; [done|]. destruct (_ && _ && _); [|done].
  intros [= ->]. apply Ht. intros c Hc. left. unfold is_hexdigit. by rewrite Hc.
Qed.

Lemma read_group_reads t rest : read_group t = Some rest → reads t rest.
Proof.
  unfold read_group. pose proof (take_digits_reads is_hexdigit t) as Ht.
  destruct (take_digits is_hexdigit t) as [ds rest']. destruct (_ && _); [|done].
  intros [= ->]. apply Ht. intros c Hc. by left.
Qed.

Lemma read_ipv4_reads t rest : read_ipv4_addr t = Some rest → reads t rest.
Proof.
  unfold read_ipv4_addr. intros Hr. repeat (apply bind_Some in Hr as (? & Hstep & Hr);
    first [apply read_octet_reads in Hstep|apply read_char_reads in Hstep; [|by right; right]];
    eapply reads_trans; [exact Hstep|clear Hstep]).
  by apply read_octet_reads.
Qed.

Lemma read_groups_reads limit i t : reads t (read_groups limit i t).2.
Proof.
  revert i t. induction limit as [|limit IH]; intros i t; [apply reads_refl|]. cbn [read_groups].
  assert (∀ s, (if i =? 0 then Some t else read_char 58 t) = Some s → reads t s) as Hsep.
  { intros s. destruct (i =? 0); [intros [= ->]; apply reads_refl|apply read_char_reads; by right; left]. }
  destruct (if 0 <? limit then _ else None) as [rest|] eqn:E.
  - destruct (0 <? limit); [|done]. apply bind_Some in E as (s & Hs & E).
    eapply reads_trans; [by apply Hsep|by apply read_ipv4_reads].
  - clear E. destruct (_ ≫= read_group) as [rest|] eqn:E; [|apply reads_refl].
    apply bind_Some in E as (s & Hs & E). eapply reads_trans; [by apply Hsep|].
    eapply reads_trans; [by apply read_group_reads|]. apply IH.
Qed.

Lemma is_ipv6_chars t : is_ipv6 t = true → Forall v6_char t.
Proof.
  unfold is_ipv6. pose proof (read_groups_reads 8 0 t) as Hr.
  destruct (read_groups 8 0 t) as [[head_size head_ipv4] rest]. cbn in Hr. intros Ht.
  assert (reads t []) as (a & -> & Ha); [|by rewrite app_nil_r].
  destruct (head_size =? 8); [by apply bool_decide_eq_true in Ht as ->|].
  destruct head_ipv4; [done|]. destruct (strip_prefix _ rest) as [rest'|] eqn:E; [|done].
  apply bool_decide_eq_true in Ht. apply strip_prefix_spec in E as ->.
  eapply reads_trans; [exact Hr|]. eapply reads_trans.
  - exists [58; 58]%N. split; [done|]. repeat constructor; by right; left.
  - pose proof (read_groups_reads (8 - (head_size + 1)) 0 rest') as Hg. by rewrite Ht in Hg.
Qed.

Lemma v6_without t : Forall v6_char t → without [47; 64; 91; 93]%N t.
Proof.
  intros Ht. eapply Forall_impl; [exact Ht|]. intros c Hc Hin. unfold v6_char in Hc.
  repeat (apply elem_of_cons in Hin as [->|Hin]; [by destruct Hc as [?|[?|?]]|]). by apply not_elem_of_nil in Hin.
Qed.

(** The characters that separate the parts of an address. *)
Definition separators : list N := [47; 58; 64; 91; 93]%N.

Lemma encoded_without t :
  Forall (λ c, c = 37%N ∨ (c < 128)%N ∧ REDIS_USERINFO_ENCODE_SET c = false) t → without separators t.
Proof.
  intros Ht. eapply Forall_impl; [exact Ht|]. intros c Hc Hin. unfold separators in Hin.
  repeat (apply elem_of_cons in Hin as [->|Hin]; [by destruct Hc as [?|[_ ?]]|]). by apply not_elem_of_nil in Hin.
Qed.

Lemma shown_without n : without separators (show_N n).
Proof. apply digits_without. by repeat constructor. Qed.

Lemma host_reads config (port : text) :
  is_ipv6 (host config) = true ∨ without separators (host config) →
  read_host (url_host config ++ lit ":" ++ port) = Some (host config, port) ∧
  without [47; 64]%N (url_host config).
Proof.
  intros Hhost. unfold url_host. set (host := host config) in *. clearbody host.
  destruct (is_ipv6 host) eqn:E.
  - apply is_ipv6_chars, v6_without in E. split.
    + rewrite <-!app_assoc. unfold read_host. change (lit "[" ++ ?x) with (91%N :: x). cbn [strip_prefix].
      change (lit "]" ++ ?x) with (93%N :: x). rewrite N.eqb_refl.
      rewrite (without_split [47; 64; 91; 93]%N) by (done || set_solver). reflexivity.
    + rewrite !without_app. split_and!; [| |]; try (eapply without_weaken; [|exact E]; set_solver);
        by repeat constructor; set_solver.
  - destruct Hhost as [?|Hhost]; [done|]. split.
    + unfold read_host. assert (strip_prefix [91%N] (host ++ lit ":" ++ port) = None) as ->.
      { destruct host as [|c host]; [done|]. cbn [app strip_prefix].
        destruct (N.eqb_spec 91 c) as [<-|]; [|done]. apply Forall_cons in Hhost as [Hc _].
        exfalso. apply Hc. unfold separators. set_solver. }
      change (lit ":" ++ ?x) with (58%N :: x). apply (without_split separators); [set_solver|done].
    + eapply without_weaken; [|exact Hhost]. set_solver.
Qed.

Lemma auth_reads (decode : text → option text) config (t : text)
    (Hdecode : ∀ t, Forall is_scalar t → decode (encode_userinfo t) = Some t) (Hempty : encode_userinfo [] = [])
    (Hchars : ∀ t, Forall is_scalar t → Forall (λ c, c = 37%N ∨ (c < 128)%N ∧ REDIS_USERINFO_ENCODE_SET c = false) (encode_userinfo t))
    (Htext : ∀ t, username config = Some t ∨ password config = Some t → Forall is_scalar t) :
  without [64%N] t →
  without [47%N] (url_auth config) ∧
  read_authority decode (url_auth config ++ t) = Some (credentials_of config, t).
Proof.
  intros Ht. pose proof (λ t Ht, encoded_without _ (Hchars t Ht)) as Henc. clear Hchars.
  assert (∀ t cs, Forall is_scalar t → cs ⊆ separators → without cs (encode_userinfo t)) as Hw
    by (intros; eapply without_weaken; eauto).
  assert (∀ name secret, without separators name →
    decode name = Some secret → ∀ p, Forall is_scalar p →
    read_authority decode ((name ++ lit ":" ++ encode_userinfo p ++ lit "@") ++ t) = Some (Some (secret, p), t)) as Hread.
  { intros name secret Hn Hs p Hp. unfold read_authority.
    replace (_ ++ t) with ((name ++ 58%N :: encode_userinfo p) ++ 64%N :: t)
      by (rewrite <-!app_assoc; reflexivity).
    rewrite (without_split [64%N]); [|set_solver|].
    2: { apply without_app. split; [eapply without_weaken; [|exact Hn]; unfold separators; set_solver|].
         constructor; [set_solver|]. apply Hw; [done|]. unfold separators. set_solver. }
    unfold read_credentials. rewrite (without_split separators); [|unfold separators; set_solver|done].
    cbn [mbind option_bind]. rewrite Hs. cbn [mbind option_bind]. by rewrite Hdecode. }
  assert (∀ name p, without separators name → Forall is_scalar p → without [47%N] (name ++ lit ":" ++ encode_userinfo p ++ lit "@")) as Hslash.
  { intros name p Hn Hp. rewrite !without_app. split_and!; [|by repeat constructor; set_solver| |by repeat constructor; set_solver].
    - eapply without_weaken; [|exact Hn]. unfold separators. set_solver.
    - apply Hw; [done|]. unfold separators. set_solver. }
  unfold url_auth, credentials_of.
  destruct (username config) as [u|], (password config) as [p|].
  - assert (Forall is_scalar u ∧ Forall is_scalar p) as [Hu Hp] by auto.
    split; [apply Hslash; auto|]. apply (Hread _ u); auto.
  - split; [constructor|]. unfold read_authority. cbn [app]. by rewrite (without_no_split [64%N]) by (done || set_solver).
  - assert (Forall is_scalar p) by auto.
    split; [apply (Hslash []); [constructor|done]|]. apply (Hread [] []); [constructor| |done].
    rewrite <-Hempty at 1. by apply Hdecode.
  - split; [constructor|]. unfold read_authority. cbn [app]. by rewrite (without_no_split [64%N]) by (done || set_solver).
Qed.

(** C36: The address of a server reads back: whatever characters the user name and the password
    have, and whether the host is a name or an address of version 6, a reader that splits an
    address into its parts and undoes percent encoding finds the scheme, the credentials if
    there is a password, the host, the port and the database. *)
Theorem address_reads_back (decode : text → option text) (config : RedisConnectionConfig)
    (Hdecode : ∀ t, Forall is_scalar t → decode (encode_userinfo t) = Some t) (Hempty : encode_userinfo [] = [])
    (Hchars : ∀ t, Forall is_scalar t →
       Forall (λ c, c = 37%N ∨ (c < 128)%N ∧ REDIS_USERINFO_ENCODE_SET c = false) (encode_userinfo t))
    (Htext : ∀ t, username config = Some t ∨ password config = Some t → Forall is_scalar t)
    (Hhost : is_ipv6 (host config) = true ∨ without separators (host config))
    (Hport : (port config <= u16_max)%N) (Hdatabase : (database config <= 255)%N) :
  read_url decode (connection_url config) =
  Some (use_tls config, credentials_of config, host config, port config, database config).
Proof.
  destruct (host_reads config (show_N (port config)) Hhost) as [Hread Hshown].
  unfold read_url, connection_url.
  assert (∀ rest, split_once (lit "://") (lit (if use_tls config then "rediss" else "redis") ++ lit "://" ++ rest) =
    Some (lit (if use_tls config then "rediss" else "redis"), rest)) as ->
    by (intros rest; by destruct (use_tls config)).
  cbn [mbind option_bind].
  assert (∀ A (k : bool → option A), ((if bool_decide (lit (if use_tls config then "rediss" else "redis") = lit "rediss")
    then Some true else if bool_decide (lit (if use_tls config then "rediss" else "redis") = lit "redis")
    then Some false else None) ≫= k) = k (use_tls config)) as -> by (intros; by destruct (use_tls config)).
  set (part := url_host config ++ lit ":" ++ show_N (port config)) in *.
  assert (Hpart : without [47; 64]%N part).
  { unfold part. rewrite !without_app. split_and!; [done|by repeat constructor; set_solver|].
    eapply without_weaken; [|apply shown_without]. unfold separators. set_solver. }
  destruct (auth_reads decode config part Hdecode Hempty Hchars Htext) as [Hauth Hcred];
    [eapply without_weaken; [|exact Hpart]; set_solver|].
  replace (url_auth config ++ url_host config ++ _) with ((url_auth config ++ part) ++ 47%N :: show_N (database config))
    by (unfold part; by rewrite <-!app_assoc).
  rewrite (without_split [47%N]); [|set_solver|].
  2: { apply without_app. split; [done|]. eapply without_weaken; [|exact Hpart]. set_solver. }
  cbn [mbind option_bind]. rewrite Hcred. cbn [mbind option_bind]. rewrite Hread. cbn [mbind option_bind].
  rewrite parse_show by done. cbn [mbind option_bind]. by rewrite parse_show.
Qed.
End address.

(** ** A server *)

(** Percent encoding over UTF-8. *)
Definition hex_upper (n : N) : N := if (n <? 10)%N then (48 + n)%N else (55 + n)%N.
Definition hex_value (c : N) : N := if (c <? 65)%N then (c - 48)%N else (c - 55)%N.

Definition demo_encode_byte (set : N → bool) (b : N) : text :=
  if (b <? 128)%N && negb (set b) then [b] else [37%N; hex_upper (b / 16); hex_upper (b `mod` 16)].
Definition demo_encode (set : N → bool) (t : text) : text := utf8_encode t ≫= demo_encode_byte set.

Fixpoint undo_escapes (t : text) : bytes :=
  match t with
  | c :: (high :: low :: rest) as more =>
      if (c =? 37)%N then (16 * hex_value high + hex_value low)%N :: undo_escapes rest
      else c :: undo_escapes more
  | c :: rest => c :: undo_escapes rest
  | [] => []
  end.
Definition demo_decode (t : text) : option text := utf8_decode (undo_escapes t).

Definition broken_pipe : RedisError :=
  {| shown := lit "broken pipe"; kind_debug := lit "IoError"; category := lit "io"; error_detail_code := None;
     detail := None; is_timeout := false; is_connection_refusal := false; is_connection_dropped := true;
     is_cluster_error := false |}.

(** A server whose connection drops with the first query; the world counts queries. *)
Definition demo_client : RedisClient := {|
  World := nat; Client := text; Manager := text;
  client_open url := inr url;
  get_connection_manager url _ _ w := (w, inr url);
  query _ _ w := (S w, if w =? 0 then inl broken_pipe else inr Okay);
  query_pipeline _ cmds w := (S w, if w =? 0 then inl broken_pipe else inr (const Okay <$> cmds));
  get_async_pubsub _ _ w := (w, Some (inr ()));
  utf8_percent_encode := demo_encode;
  base64_encode b := b;
  base64_decode t := inr t
|}.

Definition demo_config : RedisConnectionConfig :=
  {| host := lit "::1"; port := 6379; username := None; password := None; database := 0;
     use_tls := false; connect_timeout_ms := None |}.

Definition demo_codec : RedisCodec := {|
  open_params v := inr v; config_params _ := inr demo_config; command_params _ := inl []; pipeline_params _ := inl [];
  validate _ := inr (); event_open_params _ := inl []; event_read_params _ := inl [];
  event_close_params _ := inl []; control_params _ := inl []; conn_open_value _ := inr Null;
  command_value _ := inr Null; pipeline_value _ := inr Null; event_open_value _ := inr Null;
  event_read_value _ := inr Null; init_value _ := inr Null; package_version := []; CANCEL_REQUEST := [];
  from_utf8_error _ := []
|}.

Definition demo_opened : @Redis (logged demo_client) :=
  match @open_connection (logged demo_client) demo_codec Null 1 (@Build_Log demo_client [] [] 0) with
  | (_, w, Ok (_, _, c)) => {| conn := c; event_id := 1; world := w |}
  | (_, w, _) => {| conn := {| config := demo_config; connections := ∅; streams := ∅ |}; event_id := 1; world := w |}
  end.

Example first_address :
  @connection_url demo_client demo_config = lit "redis://[::1]:6379/0".
Proof. reflexivity. Qed.

Lemma commands_sent_safely_witness :
  let get := [lit "GET"; lit "k"] in
  let '(s', r) := @execute (logged demo_client) None (Utf8 <$> get) demo_opened in
  r = Ok (RespSimpleString (lit "OK")) ∧
  sent_safely demo_client 0 [get] (command_answer demo_client) true demo_opened s' r.
Proof.
  assert (@reached demo_client demo_codec demo_opened) as Hs.
  { refine (@reached_open demo_client demo_codec Null 1 (@Build_Log demo_client [] [] 0)
              2 (world demo_opened) 1 Null (conn demo_opened) 1 _). reflexivity. }
  pose proof (proj1 (@commands_sent_safely demo_client demo_codec demo_opened Hs None)
    [Utf8 (lit "GET"); Utf8 (lit "k")]) as Hc.
  exact (conj eq_refl Hc).
Defined.

Definition demo_message (b : bytes) : Msg :=
  {| payload := b; channel_name := lit "news"; from_pattern := false; pattern := None |}.

Lemma event_stream_accounts_witness :
  let e := foldl (@turn demo_client) (new_stream 1) [Message (demo_message [97]%N); Message (demo_message [255]%N)] in
  events e = [@event_of demo_client (demo_message [97]%N)] ∧ dropped e = 1%N ∧ length (events e) ≤ 1.
Proof.
  intros e. split; [reflexivity|]. split; [reflexivity|].
  exact (proj2 (proj2 (proj1 (@event_stream_accounts demo_client 1 e _ [] 0
    (@history_turns demo_client 1 _ _ _ _ _ (history_open 1)))))).
Defined.

(** The digits of escapes are not escaped. *)
Lemma hex_unreserved n : (n < 16)%N → (hex_upper n < 128)%N ∧ REDIS_USERINFO_ENCODE_SET (hex_upper n) = false.
Proof.
  intros Hn. rewrite <-(N2Nat.id n). assert (N.to_nat n ∈ seq 0 16) as Hin by (apply elem_of_seq; lia).
  revert Hin. generalize (N.to_nat n). apply Forall_forall. by repeat constructor.
Qed.

Lemma undo_encoded set b t : set 37%N = true → (b < 256)%N →
  undo_escapes (demo_encode_byte set b ++ t) = b :: undo_escapes t.
Proof.
  intros Hset Hb. unfold demo_encode_byte. destruct ((b <? 128)%N && negb (set b)) eqn:E.
  - assert ((b =? 37)%N = false) as Hne.
    { apply N.eqb_neq. intros ->. by rewrite Hset in E. }
    cbn [app undo_escapes]. destruct t as [|h [|l t]]; [done..|]. by rewrite Hne.
  - cbn [app undo_escapes]. rewrite N.eqb_refl. f_equal.
    assert (∀ n, (n < 16)%N → hex_value (hex_upper n) = n) as Hhex.
    { intros n Hn. unfold hex_value, hex_upper. destruct (N.ltb_spec n 10).
      - rewrite (proj2 (N.ltb_lt _ _)) by lia. lia.
      - rewrite (proj2 (N.ltb_ge _ _)) by lia. lia. }
    rewrite !Hhex; [|by apply N.mod_lt|by apply N.Div0.div_lt_upper_bound].
    symmetry. by apply N.div_mod.
Qed.

Lemma demo_decodes set t : set 37%N = true → Forall is_scalar t → demo_decode (demo_encode set t) = Some t.
Proof.
  intros Hset Ht. unfold demo_decode, demo_encode. rewrite <-(utf8_roundtrip t) by done. f_equal.
  induction (utf8_encode_bytes t Ht) as [|b bs Hb _ IH]; [done|]. rewrite bind_cons. by rewrite undo_encoded, IH.
Qed.

Lemma address_reads_back_witness :
  let config := {| host := lit "::1"; port := 6379; username := Some (lit "a:b@c"); password := Some (lit "p/%");
                   database := 3; use_tls := true; connect_timeout_ms := None |} in
  @connection_url demo_client config = lit "rediss://a%3Ab%40c:p%2F%25@[::1]:6379/3" ∧
  read_url demo_decode (@connection_url demo_client config) =
  Some (true, Some (lit "a:b@c", lit "p/%"), lit "::1", 6379%N, 3%N).
Proof.
  intros config. split; [reflexivity|].
  apply (@address_reads_back demo_client demo_decode config).
  - intros t Ht. by apply demo_decodes.
  - reflexivity.
  - intros t Ht. change (@encode_userinfo demo_client t) with (demo_encode REDIS_USERINFO_ENCODE_SET t).
    unfold demo_encode. induction (utf8_encode_bytes t Ht) as [|b bs Hb _ IH]; [constructor|]. rewrite bind_cons.
    apply Forall_app. split; [|done]. unfold demo_encode_byte.
    destruct ((b <? 128)%N && negb (REDIS_USERINFO_ENCODE_SET b)) eqn:E.
    + apply andb_true_iff in E as [E1 E2]. constructor; [|done]. right. by rewrite <-N.ltb_lt, <-negb_true_iff.
    + constructor; [by left|]. constructor; [|constructor; [|done]]; right; apply hex_unreserved;
        [by apply N.Div0.div_lt_upper_bound|by apply N.mod_lt].
  - intros t [[= <-]|[= <-]]; repeat constructor; lia.
  - by left.
  - done.
  - done.
Defined.
