(* ===== verification/MongoDriver.v ===== *)
(** * The MongoDB drivers

    drivers/mongodb-driver/src (common.rs, modern.rs, legacy.rs) and
    drivers/mongodb-legacy-3-2-driver/src/main.rs: three drivers over three client crates.
    The first two are the same code over crates of one shape, the class [MongoLib], except
    for how a connection is opened; the third has a class of its own, [Mongo32Lib].  The
    documents of BSON are abstract.  A blocking task that panics is not modelled. *)

From S2P Require Import Prelude VncClipboard Text TextSearch JsonValue.

(** ** Messages *)

Inductive ErrorCode : Type :=
  | METHOD_NOT_FOUND | INVALID_PARAMS | INTERNAL_ERROR | RESOURCE_CLOSED | SERVER_INCOMPATIBLE
  | IO_CONNECTION_REFUSED | EXTENSION_CUSTOM_START.

(** [ErrorData] by the members the drivers set. *)
Record ErrorData := { vendor_code : option Z; retryable : option bool; extra : Value }.

Record ProtocolError := {
  error_code : ErrorCode; error_message : text; error_data : option ErrorData
}.

Abbreviation result A := (outcome ProtocolError A) (only parsing).

Definition new_error (code : ErrorCode) (message : text) : ProtocolError :=
  {| error_code := code; error_message := message; error_data := None |}.

Definition invalid_params (message : text) : ProtocolError := new_error INVALID_PARAMS message.
Definition internal_error (message : text) : ProtocolError := new_error INTERNAL_ERROR message.
Definition unsupported_method (method_name : text) : ProtocolError :=
  new_error METHOD_NOT_FOUND (lit "unsupported MongoDB method `" ++ method_name ++ lit "`").

Inductive WireBytes : Type := Utf8 (value : text) | Base64 (value : text).

(** [effective_max_bytes()] by its value, a [u32]. *)
Record BlobReadParams := { br_blob_id : text; effective_max_bytes : N }.
Record BlobReadResult := { br_data : text; bytes_read : N; br_done : bool }.
Record MongoCommandParams := { mc_database : text; mc_command : WireBytes }.
Record MongoFindParams := {
  mf_database : text; mf_collection : text; mf_filter : option WireBytes; mf_limit : option Z;
  mf_skip : option Z; mf_sort : option WireBytes; mf_projection : option WireBytes
}.
Record MongoFindResult := {
  documents : list WireBytes; documents_blob_id : option text; document_count : N
}.
Record InitResult := { init_version : text; init_driver : text }.

Inductive Method : Type := MONGODB_COMMAND | MONGODB_FIND | BLOB_READ | BLOB_CLOSE | OtherMethod.

(** What serde derives for the messages, base64, and constants of the protocol crate. *)
Class MongoCodec := {
  open_params : FromValue Value;
  config_params : FromValue text;
  command_params :: FromValue MongoCommandParams;
  find_params :: FromValue MongoFindParams;
  blob_read_params :: FromValue BlobReadParams;
  conn_open_value : ToValue N;
  document_value :: ToValue WireBytes;
  find_value :: ToValue MongoFindResult;
  blob_read_value :: ToValue BlobReadResult;
  init_value :: ToValue InitResult;
  package_version : text;
  INLINE_BLOB_THRESHOLD_BYTES : N;
  base64_encode : bytes → text;
  base64_decode : text → text + bytes
}.

Definition parse_params {T} (H : FromValue T) (v : Value) : result T :=
  match H v with inl error => Err (invalid_params error) | inr p => Ok p end.

Definition serialize {T} (H : ToValue T) (a : T) : result Value :=
  match H a with inl error => Err (internal_error error) | inr v => Ok v end.

(** ** common.rs: errors *)

Definition is_retry_label (label : text) : bool :=
  one_of ["RetryableWriteError"; "TransientTransactionError"; "UnknownTransactionCommitResult"] label.

Definition opt_number_z (n : option Z) : Value :=
  from_option (λ n, Number (if (n <? 0)%Z then NegInt n else PosInt (Z.to_N n))) Null n.

Definition mongo_error (protocol_code : ErrorCode) (message kind : text) (labels : list text)
    (vendor_code : option Z) (code_name server_message : option text) : ProtocolError :=
  let labels := sort_by id labels in
  {| error_code := protocol_code; error_message := message;
     error_data := Some {| vendor_code := vendor_code;
       retryable := if existsb is_retry_label labels then Some true else None;
       extra := Object [(lit "kind", Str kind); (lit "labels", Array (Str <$> labels));
                        (lit "code_name", opt_str code_name);
                        (lit "server_message", opt_str server_message); (lit "source", Str message)] |} |}.

(** ** common.rs: the database of the credentials *)

Definition should_retry_with_admin_auth_source (connection_string error : text) : bool :=
  has_char 64 connection_string &&
  negb (contains (lit "authsource=") (to_ascii_lowercase connection_string)) &&
  (contains (lit "SCRAM failure") error || contains (lit "AuthenticationFailed") error ||
   contains (lit "code 18") error).

Definition ends_with_one_of (cs : list N) (t : text) : bool :=
  match last t with Some c => existsb (N.eqb c) cs | None => false end.

Definition append_admin_auth_source (connection_string : text) : text :=
  if has_char 63 connection_string then
    connection_string ++ (if ends_with_one_of [63; 38]%N connection_string then [] else lit "&") ++
    lit "authSource=admin"
  else
    connection_string ++
    (match split_once (lit "://") connection_string with
     | Some (_, remaining) => if has_char 47 remaining then lit "?" else lit "/?"
     | None => lit "/?"
     end) ++ lit "authSource=admin".

(** ** common.rs: blobs *)

(** The bytes of a blob and how many were read. *)
Abbreviation Blob := (bytes * nat)%type (only parsing).
Abbreviation BlobStore := (gmap text Blob) (only parsing).

Section blobs.
Context `{MongoCodec}.

Definition read_blob (params : Value) : comp BlobStore ProtocolError Value := λ store,
  match parse_params blob_read_params params with
  | Err e => (store, Err e)
  | Panic => (store, Panic)
  | Ok params =>
      match store !! br_blob_id params with
      | None => (store, Err (new_error RESOURCE_CLOSED (lit "blob is closed")))
      | Some (b, offset) =>
          let stop := (offset + N.to_nat (effective_max_bytes params)) `min` length b in
          match get_slice b offset stop with
          | Ok chunk =>
              (<[br_blob_id params := (b, stop)]> store,
               serialize blob_read_value
                 {| br_data := base64_encode chunk;
                    bytes_read := (N.of_nat (length chunk) `mod` (u32_max + 1))%N;
                    br_done := stop =? length b |})
          | Err e => (store, Err e)
          | Panic => (store, Panic)
          end
      end
  end.

Definition close_blob (params : Value) : comp BlobStore ProtocolError Value :=
  match get (lit "blob_id") params ≫= as_str with
  | None => throw (invalid_params (lit "blob_id is required"))
  | Some blob_id => _ ← modify (delete blob_id); mret Null
  end.

(** The identifier a counter gives. *)
Definition blob_id_of (prefix : text) (n : N) : text := prefix ++ show_N n.

(** [(n as u32).to_le_bytes()] *)
Definition le_u32 (n : nat) : bytes :=
  let n := (N.of_nat n `mod` (u32_max + 1))%N in
  [n `mod` 256; (n / 256) `mod` 256; (n / 65536) `mod` 256; n / 16777216]%N.

Definition wire_bytes (value : WireBytes) : result bytes :=
  match value with
  | Utf8 value => Ok (utf8_encode value)
  | Base64 value => match base64_decode value with inl e => Err (invalid_params e) | inr b => Ok b end
  end.

(** What a search returns: the documents, or a blob of them when they are many bytes. *)
Definition find_result (prefix : text) (encoded : list WireBytes) (packed : bytes)
    : comp (BlobStore * N) ProtocolError Value := λ s,
  let count := N.of_nat (length encoded) in
  if (INLINE_BLOB_THRESHOLD_BYTES <? N.of_nat (length packed))%N then
    let blob_id := blob_id_of prefix s.2 in
    ((<[blob_id := (packed, 0)]> s.1, wrap_add u64_max s.2 1),
     serialize find_value {| documents := []; documents_blob_id := Some blob_id; document_count := count |})
  else
    (s, serialize find_value {| documents := encoded; documents_blob_id := None; document_count := count |}).
End blobs.

(** ** modern.rs and legacy.rs *)

(** An error of the client crate: how it is shown, its labels, and the error of the server,
    a code, its name and its message. *)
Record MongoError := {
  shown : text; kind_debug : text; labels : list text; server_error : option (Z * text * text)
}.

Record FindOptions (Document : Type) := {
  limit : option Z; skip : option N; sort : option Document; projection : option Document
}.
Arguments limit {_}.
Arguments skip {_}.
Arguments sort {_}.
Arguments projection {_}.

Class MongoLib := {
  Document : Type;
  World : Type;
  Client : Type;
  empty_document : Document;
  from_slice : bytes → text + Document;
  to_vec : Document → text + bytes;
  (** a client, and the answer to [buildInfo] on the database [admin] *)
  with_uri_str : text → World → World * (MongoError + Client);
  build_info : Client → World → World * (MongoError + Document);
  (** the array [versionArray] of a document, its elements if they are integers *)
  version_array : Document → option (list (option Z));
  run_command : Client → text → Document → World → World * (MongoError + Document);
  (** the documents of a cursor, up to its end or an error *)
  find_documents : Client → text → text → Document → FindOptions Document → World →
    World * (MongoError + (list Document * option MongoError))
}.

Section driver.
Context `{MongoCodec, MongoLib}.

(** A connection, the next number of a blob, and the world. *)
Record Mongo := { client : Client; blobs : BlobStore; next_blob : N; world : World }.

Definition set_blobs (b : BlobStore * N) (s : Mongo) : Mongo :=
  {| client := client s; blobs := b.1; next_blob := b.2; world := world s |}.
Definition set_world (w : World) (s : Mongo) : Mongo :=
  {| client := client s; blobs := blobs s; next_blob := next_blob s; world := w |}.

Abbreviation handler A := (comp Mongo ProtocolError A) (only parsing).

Definition modern_protocol_error (protocol_code : ErrorCode) (error : MongoError) : ProtocolError :=
  let nonempty (t : text) := if bool_decide (t = []) then None else Some t in
  let '(vendor_code, code_name, server_message) :=
    match server_error error with
    | Some (code, name, message) => (Some code, nonempty name, nonempty message)
    | None => (None, None, None)
    end in
  mongo_error protocol_code (shown error) (kind_debug error) (labels error) vendor_code code_name
    server_message.

Definition modern_connection_error (error : MongoError) : ProtocolError :=
  let message := shown error in
  if contains (lit "wire version") message || contains (lit "incompatible server") message ||
     contains (lit "requires at least") message
  then modern_protocol_error SERVER_INCOMPATIBLE error
  else modern_protocol_error IO_CONNECTION_REFUSED error.

Definition legacy_connection_error (error : MongoError) : ProtocolError :=
  modern_protocol_error IO_CONNECTION_REFUSED error.

Definition command_error (error : MongoError) : ProtocolError :=
  modern_protocol_error EXTENSION_CUSTOM_START error.

Definition decode_document (value : WireBytes) : result Document :=
  b ← wire_bytes value;
  match from_slice b with inl e => Err (invalid_params e) | inr d => Ok d end.

Definition document_bytes (d : Document) : result bytes :=
  match to_vec d with inl e => Err (internal_error e) | inr b => Ok b end.

Definition encode_document (d : Document) : result WireBytes :=
  b ← document_bytes d; Ok (Base64 (base64_encode b)).

Definition decode_option (value : option WireBytes) : result (option Document) :=
  match value with
  | None => Ok None
  | Some value => d ← decode_document value; Ok (Some d)
  end.

Definition connect_and_read_build_info (connection_string : text) (w : World)
    : World * (MongoError + (Client * Document)) :=
  match with_uri_str connection_string w with
  | (w, inl error) => (w, inl error)
  | (w, inr client) =>
      match build_info client w with
      | (w, inl error) => (w, inl error)
      | (w, inr info) => (w, inr (client, info))
      end
  end.

(** Connecting, a second time with another source of credentials if that may help. *)
Definition connect (connection_error : MongoError → ProtocolError) (connection_string : text) (w : World)
    : World * result (Client * Document) :=
  match connect_and_read_build_info connection_string w with
  | (w, inr connected) => (w, Ok connected)
  | (w, inl error) =>
      if should_retry_with_admin_auth_source connection_string (shown error) then
        match connect_and_read_build_info (append_admin_auth_source connection_string) w with
        | (w, inr connected) => (w, Ok connected)
        | (w, inl error) => (w, Err (connection_error error))
        end
      else (w, Err (connection_error error))
  end.

Definition server_requires_legacy (build_info : Document) : bool :=
  match version_array build_info with
  | None => false
  | Some version =>
      match mjoin (head version), mjoin (version !! 1) with
      | Some major, Some minor => (major <? 4)%Z || ((major =? 4)%Z && (minor <? 2)%Z)
      | _, _ => false
      end
  end.

(** The next number of a connection, and the number, answer and client of the one opened. *)
Definition opened (next_conn_id : N) (client : Client) : N * result (N * Value * Client) :=
  (wrap_add u64_max next_conn_id 1,
   open_result ← serialize conn_open_value next_conn_id; Ok (next_conn_id, open_result, client)).

Definition modern_open_connection (params : Value) (next_conn_id : N) (w : World)
    : World * (N * result (N * Value * Client)) :=
  match parse_params open_params params ≫= parse_params config_params with
  | Err e => (w, (next_conn_id, Err e))
  | Panic => (w, (next_conn_id, Panic))
  | Ok connection_string =>
      match connect modern_connection_error connection_string w with
      | (w, Err e) => (w, (next_conn_id, Err e))
      | (w, Panic) => (w, (next_conn_id, Panic))
      | (w, Ok (client, info)) =>
          (w, if server_requires_legacy info
              then (next_conn_id, Err (new_error SERVER_INCOMPATIBLE
                      (lit "MongoDB server older than 4.2 requires the legacy driver")))
              else opened next_conn_id client)
      end
  end.

Definition legacy_open_connection (params : Value) (next_conn_id : N) (w : World)
    : World * (N * result (N * Value * Client)) :=
  match parse_params open_params params ≫= parse_params config_params with
  | Err e => (w, (next_conn_id, Err e))
  | Panic => (w, (next_conn_id, Panic))
  | Ok connection_string =>
      match connect legacy_connection_error connection_string w with
      | (w, Err e) => (w, (next_conn_id, Err e))
      | (w, Panic) => (w, (next_conn_id, Panic))
      | (w, Ok (client, _)) => (w, opened next_conn_id client)
      end
  end.

(** The documents of a cursor as they are returned, and packed: each after its length. *)
Fixpoint pack_documents (ds : list Document) : result (list WireBytes * bytes) :=
  match ds with
  | [] => Ok ([], [])
  | d :: ds =>
      b ← document_bytes d;
      wire ← encode_document d;
      '(encoded, packed) ← pack_documents ds;
      Ok (wire :: encoded, le_u32 (length b) ++ b ++ packed)
  end.

Definition call_world {A} (f : World → World * (MongoError + A)) : handler A := λ s,
  match f (world s) with
  | (w, inl error) => (set_world w s, Err (command_error error))
  | (w, inr a) => (set_world w s, Ok a)
  end.

Definition find (value : Value) : handler Value :=
  params ← lift_outcome (parse_params find_params value);
  filter ← lift_outcome (decode_option (mf_filter params));
  sort ← lift_outcome (decode_option (mf_sort params));
  projection ← lift_outcome (decode_option (mf_projection params));
  let options := {| limit := mf_limit params; skip := (λ n, Z.to_N (Z.max n 0)) <$> mf_skip params;
                    sort := sort; projection := projection |} in
  client ← gets client;
  '(ds, failed) ← call_world (find_documents client (mf_database params) (mf_collection params)
                                (default empty_document filter) options);
  '(encoded, packed) ← lift_outcome (pack_documents ds);
  _ ← match failed with Some error => throw (command_error error) | None => mret () end;
  zoom (λ s, (blobs s, next_blob s)) set_blobs (find_result (lit "mongo-docs-") encoded packed).

Definition run_command_request (params : Value) : handler Value :=
  params ← lift_outcome (parse_params command_params params);
  command ← lift_outcome (decode_document (mc_command params));
  client ← gets client;
  answer ← call_world (run_command client (mc_database params) command);
  wire ← lift_outcome (encode_document answer);
  lift_outcome (serialize document_value wire).

Definition with_blobs {A} (m : comp BlobStore ProtocolError A) : handler A :=
  zoom blobs (λ b s, set_blobs (b, next_blob s) s) m.

Definition call (method : Method) (method_name : text) (params : Value) : handler Value :=
  match method with
  | MONGODB_COMMAND => run_command_request params
  | MONGODB_FIND => find params
  | BLOB_READ => with_blobs (read_blob params)
  | BLOB_CLOSE => with_blobs (close_blob params)
  | OtherMethod => throw (unsupported_method method_name)
  end.

Definition close (s : Mongo) : Mongo := set_blobs (∅, next_blob s) s.

Definition init (driver : text) (_ : Value) : result Value :=
  serialize init_value {| init_version := package_version; init_driver := driver |}.

Definition call_connless (method_name : text) : result Value := Err (unsupported_method method_name).
End driver.

(** ** The driver for servers of version 3.2 *)

Record ItemError := { item_index : Z; item_code : Z; item_message : text }.

(** [mongodb_legacy32::Error]: a write error and a write concern error by code and message. *)
Inductive ErrorKind32 : Type :=
  | CodedError (code : Z) (debug : text)
  | WriteError (write_error write_concern_error : option (Z * text))
  | BulkWriteError (write_errors : list ItemError) (write_concern_error : option (Z * text))
  | OtherError.

(** How it is shown, and the errors it came from. *)
Record Error32 := { kind32 : ErrorKind32; shown32 : text; debug32 : text; sources : list text }.

Record ConnString := {
  user : option text; password : option text; cs_options : option (list (text * text));
  cs_database : option text
}.

Record FindOptions32 (Document : Type) := {
  limit32 : option Z; skip32 : option Z; sort32 : option Document; projection32 : option Document
}.

Class Mongo32Lib := {
  Document32 : Type;
  World32 : Type;
  Client32 : Type;
  decode32 : bytes → text + Document32;
  encode32 : Document32 → text + bytes;
  parse_uri : text → Error32 + ConnString;
  percent_decode : text → text;
  with_uri : text → World32 → World32 * (Error32 + Client32);
  auth : Client32 → text → text → text → World32 → World32 * (Error32 + ());
  build_info_command : Client32 → World32 → World32 * (Error32 + ());
  command32 : Client32 → text → Document32 → World32 → World32 * (Error32 + Document32);
  find32 : Client32 → text → text → option Document32 → FindOptions32 Document32 → World32 →
    World32 * (Error32 + list Document32)
}.

(** [split] at one of some characters *)
Fixpoint split_at (f : N → bool) (current t : text) : list text :=
  match t with
  | [] => [reverse current]
  | c :: rest => if f c then reverse current :: split_at f [] rest else split_at f (c :: current) rest
  end.

Definition uri_option_is_true (connection_string option : text) : bool :=
  let query := match split_once_at (N.eqb 63) connection_string with Some (_, q) => q | None => [] end in
  existsb (λ item,
    match split_once_at (N.eqb 61) item with
    | Some (key, value) => eq_ignore_ascii_case key option && one_of ["true"; "1"] (to_ascii_lowercase value)
    | None => false
    end) (split_at (λ c, (c =? 38) || (c =? 59))%N [] query).

Definition legacy_mongo_error_chain (error : Error32) : list text := take 64 (shown32 error :: sources error).

Definition error_number (n : Z) : Value := opt_number_z (Some n).

(** The members an error adds to [extra], and the code of the server. *)
Definition error_details (kind : ErrorKind32) : list (text * Value) * option Z :=
  let of_error (e : Z * text) := ([(lit "server_message", Str e.2)], Some e.1) in
  match kind with
  | CodedError code debug => ([(lit "code_name", Str debug)], Some code)
  | WriteError (Some write_error) _ => of_error write_error
  | WriteError None (Some write_concern_error) => of_error write_concern_error
  | WriteError None None => ([], None)
  | BulkWriteError write_errors write_concern_error =>
      let items := (λ e, Object [(lit "index", error_number (item_index e));
                                 (lit "code", error_number (item_code e));
                                 (lit "message", Str (item_message e))]) <$> write_errors in
      match write_errors, write_concern_error with
      | e :: _, _ => ([(lit "write_errors", Array items)], Some (item_code e))
      | [], Some write_concern_error => of_error write_concern_error
      | [], None => ([], None)
      end
  | OtherError => ([], None)
  end.

Definition legacy_mongo_protocol_error (code : ErrorCode) (error : Error32) : ProtocolError :=
  let '(details, vendor_code) := error_details (kind32 error) in
  {| error_code := code; error_message := shown32 error;
     error_data := Some {| vendor_code := vendor_code; retryable := None;
       extra := Object ([(lit "kind", Str (debug32 error)); (lit "source", Str (shown32 error));
                         (lit "chain", Array (Str <$> legacy_mongo_error_chain error))] ++ details) |} |}.

Definition mongo_connection_error (error : Error32) : ProtocolError :=
  legacy_mongo_protocol_error IO_CONNECTION_REFUSED error.
Definition command_error32 (error : Error32) : ProtocolError :=
  legacy_mongo_protocol_error EXTENSION_CUSTOM_START error.

(** An error that is a text: it is shown in quotation marks as its kind. *)
Definition connection_refused (debug : text → text) (message : text) : ProtocolError :=
  {| error_code := IO_CONNECTION_REFUSED; error_message := message;
     error_data := Some {| vendor_code := None; retryable := None;
       extra := Object [(lit "kind", Str (debug message)); (lit "source", Str message)] |} |}.

Section driver32.
Context `{MongoCodec, Mongo32Lib} (debug : text → text).

Record Mongo32 := { client32 : Client32; blobs32 : BlobStore; next_blob32 : N; world32 : World32 }.

Definition set_blobs32 (b : BlobStore * N) (s : Mongo32) : Mongo32 :=
  {| client32 := client32 s; blobs32 := b.1; next_blob32 := b.2; world32 := world32 s |}.
Definition set_world32 (w : World32) (s : Mongo32) : Mongo32 :=
  {| client32 := client32 s; blobs32 := blobs32 s; next_blob32 := next_blob32 s; world32 := w |}.

Abbreviation handler A := (comp Mongo32 ProtocolError A) (only parsing).

(** A call of the client library. *)
Definition step {A} (f : World32 → World32 * (Error32 + A)) : comp World32 ProtocolError A := λ w,
  match f w with (w, inl e) => (w, Err (mongo_connection_error e)) | (w, inr a) => (w, Ok a) end.

(** The database of the credentials: an option, else the database of the address. *)
Definition auth_source_of (parsed : ConnString) : text :=
  let option := options ← cs_options parsed;
    '(_, (_, value)) ← list_find (λ '(key, _), eq_ignore_ascii_case key (lit "authSource") = true) options;
    Some (percent_decode value) in
  match option with
  | Some source => source
  | None => match cs_database parsed with Some (c :: t) => c :: t | _ => lit "admin" end
  end.

Definition connect32 (connection_string : text) : comp World32 ProtocolError Client32 :=
  if starts_with (lit "mongodb+srv://") connection_string then
    throw (connection_refused debug (lit "MongoDB 3.2 driver does not support mongodb+srv connection strings"))
  else if uri_option_is_true connection_string (lit "tls") || uri_option_is_true connection_string (lit "ssl") then
    throw (connection_refused debug (lit "MongoDB 3.2 driver does not support TLS connection options"))
  else
    parsed ← lift_outcome (match parse_uri connection_string with
                           | inl e => Err (mongo_connection_error e) | inr p => Ok p end);
    client ← step (with_uri connection_string);
    _ ← match user parsed with
        | Some username =>
            step (auth client (auth_source_of parsed) (percent_decode username)
                    (default [] (percent_decode <$> password parsed)))
        | None => mret ()
        end;
    _ ← step (build_info_command client);
    mret client.

Definition open_connection32 (params : Value) (next_conn_id : N) (w : World32)
    : World32 * (N * result (N * Value * Client32)) :=
  match parse_params open_params params ≫= parse_params config_params with
  | Err e => (w, (next_conn_id, Err e))
  | Panic => (w, (next_conn_id, Panic))
  | Ok connection_string =>
      match connect32 connection_string w with
      | (w, Err e) => (w, (next_conn_id, Err e))
      | (w, Panic) => (w, (next_conn_id, Panic))
      | (w, Ok client) =>
          (w, (wrap_add u64_max next_conn_id 1,
               open_result ← serialize conn_open_value next_conn_id; Ok (next_conn_id, open_result, client)))
      end
  end.

Definition decode_legacy_document (value : WireBytes) : result Document32 :=
  b ← wire_bytes value;
  match decode32 b with inl e => Err (invalid_params e) | inr d => Ok d end.

Definition legacy_document_bytes (d : Document32) : result bytes :=
  match encode32 d with inl e => Err (internal_error e) | inr b => Ok b end.

Definition encode_legacy_document (d : Document32) : result WireBytes :=
  b ← legacy_document_bytes d; Ok (Base64 (base64_encode b)).

Definition decode_option32 (value : option WireBytes) : result (option Document32) :=
  match value with
  | None => Ok None
  | Some value => d ← decode_legacy_document value; Ok (Some d)
  end.

Definition call_world32 {A} (f : World32 → World32 * (Error32 + A)) : handler A := λ s,
  match f (world32 s) with
  | (w, inl error) => (set_world32 w s, Err (command_error32 error))
  | (w, inr a) => (set_world32 w s, Ok a)
  end.

Fixpoint pack_documents32 (ds : list Document32) : result (list WireBytes * bytes) :=
  match ds with
  | [] => Ok ([], [])
  | d :: ds =>
      b ← legacy_document_bytes d;
      '(encoded, packed) ← pack_documents32 ds;
      Ok (Base64 (base64_encode b) :: encoded, le_u32 (length b) ++ b ++ packed)
  end.

Definition find_legacy (value : Value) : handler Value :=
  params ← lift_outcome (parse_params find_params value);
  filter ← lift_outcome (decode_option32 (mf_filter params));
  projection ← lift_outcome (decode_option32 (mf_projection params));
  sort ← lift_outcome (decode_option32 (mf_sort params));
  let options := {| limit32 := mf_limit params; skip32 := mf_skip params; sort32 := sort;
                    projection32 := projection |} in
  client ← gets client32;
  ds ← call_world32 (find32 client (mf_database params) (mf_collection params) filter options);
  '(encoded, packed) ← lift_outcome (pack_documents32 ds);
  zoom (λ s, (blobs32 s, next_blob32 s)) set_blobs32
    (find_result (lit "mongo-legacy-3-2-docs-") encoded packed).

Definition run_command32 (params : Value) : handler Value :=
  params ← lift_outcome (parse_params command_params params);
  command ← lift_outcome (decode_legacy_document (mc_command params));
  client ← gets client32;
  answer ← call_world32 (command32 client (mc_database params) command);
  wire ← lift_outcome (encode_legacy_document answer);
  lift_outcome (serialize document_value wire).

Definition with_blobs32 {A} (m : comp BlobStore ProtocolError A) : handler A :=
  zoom blobs32 (λ b s, set_blobs32 (b, next_blob32 s) s) m.

Definition call32 (method : Method) (method_name : text) (params : Value) : handler Value :=
  match method with
  | MONGODB_COMMAND => run_command32 params
  | MONGODB_FIND => find_legacy params
  | BLOB_READ => with_blobs32 (read_blob params)
  | BLOB_CLOSE => with_blobs32 (close_blob params)
  | OtherMethod => throw (unsupported_method method_name)
  end.

Definition close32 (s : Mongo32) : Mongo32 := set_blobs32 (∅, next_blob32 s) s.
End driver32.
