(* ===== verification/MongoReads.v ===== *)
(** * The MongoDB drivers: what a search hands over

    The documents a cursor gives are handed over in order, in one message or as a blob read
    in parts; and the second attempt of a connection adds one option to the address and
    changes nothing else of it. *)

From S2P Require Import Prelude VncClipboard Text TextSearch JsonValue Delivery MongoDriver.

(** ** Documents packed into a blob *)

(** The documents of a blob, each after its length in four bytes. *)
Definition packed_of (docs : list bytes) : bytes := docs ≫= λ d, le_u32 (length d) ++ d.

Fixpoint unpack (fuel : nat) (b : bytes) : option (list bytes) :=
  match fuel, b with
  | _, [] => Some []
  | S fuel, b0 :: b1 :: b2 :: b3 :: rest =>
      let n := N.to_nat (b0 + 256 * b1 + 65536 * b2 + 16777216 * b3) in
      guard (n <= length rest);; docs ← unpack fuel (drop n rest); Some (take n rest :: docs)
  | _, _ => None
  end.

Lemma packed_cons (d : bytes) docs : packed_of (d :: docs) = le_u32 (length d) ++ d ++ packed_of docs.
Proof. unfold packed_of. by rewrite bind_cons, <-app_assoc. Qed.

Definition small (d : bytes) : Prop := (N.of_nat (length d) <= u32_max)%N.

Lemma le_u32_value n rest fuel : (N.of_nat n <= u32_max)%N →
  unpack (S fuel) (le_u32 n ++ rest) =
    (guard (n <= length rest);; docs ← unpack fuel (drop n rest); Some (take n rest :: docs)).
Proof.
  intros Hn. unfold le_u32. rewrite (N.mod_small (N.of_nat n) (u32_max + 1)) by lia.
  set (m := N.of_nat n). cbn [app unpack].
  assert (N.to_nat (m `mod` 256 + 256 * ((m / 256) `mod` 256) + 65536 * ((m / 65536) `mod` 256) +
            16777216 * (m / 16777216))%N = n) as ->; [|done].
  assert (Hm : (m < 4294967296)%N) by (unfold m; lia).
  assert (H1 := N.div_mod' m 256). assert (H2 := N.div_mod' (m / 256) 256).
  assert (H3 := N.div_mod' (m / 65536) 256).
  assert (m / 65536 = m / 256 / 256)%N as E2 by by rewrite N.Div0.div_div.
  assert (m / 16777216 = m / 65536 / 256)%N as E3 by by rewrite N.Div0.div_div.
  rewrite <-E2 in H2. rewrite <-E3 in H3. lia.
Qed.

Lemma unpack_packed docs : Forall small docs →
  ∀ fuel, length (packed_of docs) ≤ fuel → unpack fuel (packed_of docs) = Some docs.
Proof.
  induction 1 as [|d docs Hd _ IH]; intros fuel Hfuel; [by destruct fuel|].
  rewrite packed_cons in *.
  rewrite !length_app in Hfuel. destruct fuel as [|fuel]; [simpl in Hfuel; lia|].
  rewrite le_u32_value by done.
  rewrite option_guard_True by (rewrite length_app; lia).
  rewrite drop_app_length, take_app_length, IH; [done|simpl in Hfuel; lia].
Qed.

(** ** Reading a blob *)

(** Requests to a part of the state. *)
Lemma run_calls_zoom {S T E R} (get : S → T) (set : T → S → S) (f : Value → comp T E R) calls s :
  (∀ t s, get (set t s) = t) →
  (run_calls (λ v, zoom get set (f v)) calls s).2 = (run_calls f calls (get s)).2.
Proof.
  intros Hget. revert s. induction calls as [|v calls IH]; intros s; [done|]. cbn [run_calls].
  assert (zoom get set (f v) s = (set (f v (get s)).1 s, (f v (get s)).2)) as -> by done.
  destruct (f v (get s)) as [t r]. cbn [fst snd]. specialize (IH (set t s)). rewrite Hget in IH.
  destruct (run_calls _ calls (set t s)), (run_calls f calls t). simpl in *. by rewrite IH.
Qed.

Section delivery.
Context `{MongoCodec}.

Definition read_response (piece : bytes) (final : bool) : outcome ProtocolError Value :=
  serialize blob_read_value
    {| br_data := base64_encode piece; bytes_read := N.of_nat (length piece); br_done := final |}.

(** A request for a part of a blob. *)
Definition reads_of (id : text) (v : Value) : Prop :=
  ∃ n, blob_read_params v = inr {| br_blob_id := id; effective_max_bytes := n |} ∧ (n <= u32_max)%N.
Definition fits (v : Value) (piece : bytes) : Prop :=
  ∀ p, blob_read_params v = inr p → (N.of_nat (length piece) <= effective_max_bytes p)%N.
Definition asks (v : Value) : Prop :=
  ∀ p, blob_read_params v = inr p → (0 < effective_max_bytes p)%N.

(** Whatever parts are asked for, they are the blob's bytes in order and without gaps; the
    one marked as the last ends the blob; and asking often enough gets there. *)
Definition delivered {S} (read : Value → comp S ProtocolError Value) (s : S) (id : text) (all : bytes)
    : Prop :=
  ∀ calls, Forall (reads_of id) calls → ∃ pieces flags,
    (run_calls read calls s).2 = zip_with read_response pieces flags ∧
    length flags = length pieces ∧ Forall2 fits calls pieces ∧
    mjoin pieces = take (length (mjoin pieces)) all ∧
    (∀ i, flags !! i = Some true → mjoin (take (Datatypes.S i) pieces) = all) ∧
    (Forall asks calls → length all < length calls → last flags = Some true).

Lemma read_blob_step v store id b offset :
  reads_of id v → store !! id = Some (b, offset) → offset ≤ length b →
  ∃ piece (final : bool),
    read_blob v store = (<[id := (b, offset + length piece)]> store, read_response piece final) ∧
    drop offset b = piece ++ drop (offset + length piece) b ∧ offset + length piece ≤ length b ∧
    fits v piece ∧
    (if final then offset + length piece = length b else asks v → piece ≠ []).
Proof.
  intros (n & Hv & Hn) Hfound Hoffset.
  set (stop := (offset + N.to_nat n) `min` length b).
  exists (take (stop - offset) (drop offset b)), (stop =? length b).
  assert (Hlen : length (take (stop - offset) (drop offset b)) = stop - offset)
    by (rewrite length_take, length_drop; unfold stop; lia).
  rewrite Hlen. replace (offset + (stop - offset)) with stop by (unfold stop; lia). split_and!.
  - unfold read_blob, parse_params. rewrite Hv. cbn [br_blob_id effective_max_bytes]. rewrite Hfound.
    fold stop. rewrite get_slice_ok by (unfold stop; lia). rewrite Hlen.
    unfold read_response. rewrite Hlen. do 3 f_equal. apply N.mod_small. unfold stop. lia.
  - rewrite <-(firstn_skipn (stop - offset) (drop offset b)) at 1. rewrite drop_drop.
    by replace (offset + (stop - offset)) with stop by (unfold stop; lia).
  - unfold stop. lia.
  - intros p Hp. rewrite Hv in Hp. injection Hp as <-. rewrite Hlen. simpl. unfold stop. lia.
  - destruct (Nat.eqb_spec stop (length b)) as [Hend|Hne]; [done|].
    intros Hasks Hnil. specialize (Hasks _ Hv). simpl in Hasks.
    rewrite Hnil in Hlen. simpl in Hlen. unfold stop in *. lia.
Qed.

Lemma blob_delivered store id all : store !! id = Some (all, 0) → delivered read_blob store id all.
Proof.
  intros Hfound calls Hcalls.
  apply (deliver_calls read_blob read_response
    (λ store rest, ∃ offset, store !! id = Some (all, offset) ∧ offset ≤ length all ∧ rest = drop offset all)
    (reads_of id) asks fits).
  - intros v store' rest Hv (offset & Hin & Hle & ->).
    destruct (read_blob_step _ _ _ _ _ Hv Hin Hle) as (piece & final & Heq & Hrest & Hend & Hfits & Hfinal).
    exists (<[id := (all, offset + length piece)]> store'), piece, final, (drop (offset + length piece) all).
    split_and!; [done|done| |done|].
    + exists (offset + length piece). by rewrite lookup_insert_eq.
    + destruct final; [|done]. by rewrite Hfinal, drop_all.
  - exists 0. split; [done|]. split; [lia|done].
  - done.
Qed.

(** What a host makes of the answer to a search. *)
Definition hands_over {S} (read : Value → comp S ProtocolError Value) (s : S) (docs : list bytes)
    (found : MongoFindResult) : Prop :=
  document_count found = N.of_nat (length docs) ∧
  match documents_blob_id found with
  | None => wire_bytes <$> documents found = Ok <$> docs
  | Some id =>
      documents found = [] ∧ delivered read s id (packed_of docs) ∧
      (Forall small docs → unpack (length (packed_of docs)) (packed_of docs) = Some docs)
  end.

Context (Hbase64 : ∀ b, base64_decode (base64_encode b) = inr b).

Lemma wires_read (docs : list bytes) : wire_bytes <$> ((λ b, Base64 (base64_encode b)) <$> docs) = Ok <$> docs.
Proof using Hbase64.
  rewrite <-list_fmap_compose. apply list_fmap_ext. intros i b _. unfold compose, wire_bytes.
  by rewrite Hbase64.
Qed.

Lemma find_result_hands_over {S} (read : Value → comp S ProtocolError Value) (part : S → BlobStore * N)
    (set : BlobStore * N → S → S) prefix docs s :
  (∀ t s, part (set t s) = t) →
  (∀ calls s, (run_calls read calls s).2 = (run_calls read_blob calls (part s).1).2) →
  ∃ s' found,
    zoom part set (find_result prefix ((λ b, Base64 (base64_encode b)) <$> docs) (packed_of docs)) s =
      (s', serialize find_value found) ∧
    hands_over read s' docs found.
Proof using Hbase64.
  intros Hset Hread. unfold zoom, find_result. rewrite length_fmap.
  destruct (_ <? _)%N; cbn [fst snd]; eexists _, _; (split; [done|]); split; try done; cbn.
  - split; [done|]. split; [|intros Hsmall; by apply unpack_packed].
    intros calls Hcalls. rewrite Hread, Hset.
    apply (blob_delivered _ _ _ (lookup_insert_eq _ _ _) calls Hcalls).
  - apply wires_read.
Qed.
End delivery.

Section found.
Context `{MongoCodec, MongoLib, Mongo32Lib}.

Abbreviation wires := (fmap (λ b, Base64 (base64_encode b))) (only parsing).

Lemma pack_documents_ok ds (docs : list bytes) :
  Forall2 (λ d b, to_vec d = inr b) ds docs → pack_documents ds = Ok (wires docs, packed_of docs).
Proof.
  induction 1 as [|d b ds docs Hb _ IH]; [done|]. cbn [pack_documents].
  unfold encode_document, document_bytes. rewrite Hb. cbn [mbind outcome_bind]. rewrite IH.
  by rewrite packed_cons.
Qed.

Lemma pack_documents32_ok ds (docs : list bytes) :
  Forall2 (λ d b, encode32 d = inr b) ds docs → pack_documents32 ds = Ok (wires docs, packed_of docs).
Proof.
  induction 1 as [|d b ds docs Hb _ IH]; [done|]. cbn [pack_documents32].
  unfold legacy_document_bytes. rewrite Hb. cbn [mbind outcome_bind]. rewrite IH.
  by rewrite packed_cons.
Qed.

(** A search that succeeds at the server. *)
Definition searched (s : Mongo) (params : Value) (docs : list bytes) : Prop :=
  ∃ p filter sort projection w ds,
    find_params params = inr p ∧
    decode_option (mf_filter p) = Ok filter ∧ decode_option (mf_sort p) = Ok sort ∧
    decode_option (mf_projection p) = Ok projection ∧
    find_documents (client s) (mf_database p) (mf_collection p) (default empty_document filter)
      {| limit := mf_limit p; skip := (λ n, Z.to_N (Z.max n 0)) <$> mf_skip p; sort := sort;
         projection := projection |} (world s) = (w, inr (ds, None)) ∧
    Forall2 (λ d b, to_vec d = inr b) ds docs.

Definition searched32 (s : Mongo32) (params : Value) (docs : list bytes) : Prop :=
  ∃ p filter sort projection w ds,
    find_params params = inr p ∧
    decode_option32 (mf_filter p) = Ok filter ∧ decode_option32 (mf_sort p) = Ok sort ∧
    decode_option32 (mf_projection p) = Ok projection ∧
    find32 (client32 s) (mf_database p) (mf_collection p) filter
      {| limit32 := mf_limit p; skip32 := mf_skip p; sort32 := sort; projection32 := projection |}
      (world32 s) = (w, inr ds) ∧
    Forall2 (λ d b, encode32 d = inr b) ds docs.

(** C37: The documents that a search finds reach the host: the answer counts them, and either
    has their bytes in order, or names a blob. Whatever parts the host then asks for (each with
    the next BLOB_READ), they are the blob's bytes in order and without gaps; the part marked
    as the last one ends the blob, and asking often enough reaches it; and the blob's bytes
    give the documents back when they are cut along the lengths in them. No request panics.
    This holds for the three drivers: the first two share their search, the third has its own. *)
Theorem find_results_delivered params (docs : list bytes) name :
  (∀ b, base64_decode (base64_encode b) = inr b) →
  (∀ s, searched s params docs → ∃ s' found,
     call MONGODB_FIND name params s = (s', serialize find_value found) ∧
     hands_over (call BLOB_READ name) s' docs found) ∧
  (∀ s, searched32 s params docs → ∃ s' found,
     call32 MONGODB_FIND name params s = (s', serialize find_value found) ∧
     hands_over (call32 BLOB_READ name) s' docs found).
Proof.
  intros Hbase64. split; intros s (p & filter & sort & projection & w & ds & Hp & Hf & Hs & Hpr & Hfind & Hds).
  - cbn [call]. unfold MongoDriver.find, parse_params. rewrite Hp, lift_bind, Hf, lift_bind, Hs, lift_bind, Hpr, lift_bind.
    cbv zeta. rewrite gets_bind, comp_bind_run. unfold call_world at 1 2. rewrite Hfind. cbn [fst snd].
    rewrite (pack_documents_ok _ _ Hds), lift_bind, comp_bind_run. cbn [fst snd].
    apply find_result_hands_over; [done|by intros [] []|].
    intros calls s'. by apply (run_calls_zoom blobs (λ b s, set_blobs (b, next_blob s) s) read_blob).
  - cbn [call32]. unfold find_legacy, parse_params. rewrite Hp, lift_bind, Hf, lift_bind, Hpr, lift_bind, Hs, lift_bind.
    cbv zeta. rewrite gets_bind, comp_bind_run. unfold call_world32 at 1 2. rewrite Hfind. cbn [fst snd].
    rewrite (pack_documents32_ok _ _ Hds), lift_bind.
    apply find_result_hands_over; [done|by intros [] []|].
    intros calls s'. by apply (run_calls_zoom blobs32 (λ b s, set_blobs32 (b, next_blob32 s) s) read_blob).
Qed.
End found.

(** ** The second attempt of a connection *)

Lemma contains_infix (p before after : text) : contains p (before ++ p ++ after) = true.
Proof.
  induction before as [|c before IH]; simpl.
  - assert (starts_with p (p ++ after) = true) as E by (unfold starts_with; by rewrite prefix_stripped).
    destruct (p ++ after); cbn [contains]; by rewrite E.
  - rewrite IH. apply orb_true_r.
Qed.

Lemma has_char_app c (s t : text) : has_char c (s ++ t) = has_char c s || has_char c t.
Proof. apply existsb_app. Qed.

Lemma split_char_app sep (s t : text) : ∀ current,
  split_char sep current (s ++ sep :: t) = split_char sep current s ++ split_char sep [] t.
Proof.
  induction s as [|c s IH]; intros current; cbn [app split_char]; [by rewrite N.eqb_refl|].
  destruct (c =? sep)%N; [by rewrite IH|apply IH].
Qed.

(** A piece of a text is inside it. *)
Lemma split_char_inside sep (t piece : text) : ∀ current, piece ∈ split_char sep current t →
  ∃ before after, reverse current ++ t = before ++ piece ++ after.
Proof.
  induction t as [|c t IH]; intros current; cbn [split_char].
  - intros ->%list_elem_of_singleton. by exists [], [].
  - destruct (N.eqb_spec c sep) as [->|_]; [rewrite elem_of_cons; intros [->|Hin]|intros Hin].
    + by exists [], (sep :: t).
    + destruct (IH _ Hin) as (before & after & Heq). change (t = before ++ piece ++ after) in Heq.
      exists (reverse current ++ sep :: before), after. rewrite <-app_assoc. simpl. by rewrite <-Heq.
    + destruct (IH _ Hin) as (before & after & Heq). exists before, after.
      by rewrite <-Heq, reverse_cons, <-app_assoc.
Qed.

(** An address in its parts: [scheme://authority/path?query]. *)
Record Address := { scheme : text; authority : text; path : option text; query : option text }.

Definition show_address (a : Address) : text :=
  scheme a ++ lit "://" ++ authority a ++ from_option (cons 47%N) [] (path a) ++
  from_option (cons 63%N) [] (query a).

Definition well_formed (a : Address) : Prop :=
  without [58; 63]%N (scheme a) ∧ without [47; 63]%N (authority a) ∧
  without [63]%N (default [] (path a)) ∧ last (default [] (query a)) ≠ Some 63%N.

Definition options_in (query : text) : list text := filter (λ o, o ≠ []) (split_char 38 [] query).
Definition options (a : Address) : list text := from_option options_in [] (query a).

(** An option that names the database of the credentials, in upper or lower case. *)
Definition names_source (o : text) : bool := starts_with (lit "authsource=") (to_ascii_lowercase o).

Lemma absent_char c cs (t : text) : c ∈ cs → without cs t → has_char c t = false.
Proof.
  intros Hc Ht. pose proof (without_test _ _ _ Hc Ht) as Hd. unfold has_char.
  induction Hd as [|d t Hd _ IH]; [done|]. simpl. rewrite Hd. apply IH. by inversion Ht.
Qed.

Definition retried (a : Address) : Address :=
  {| scheme := scheme a; authority := authority a;
     path := match query a with Some _ => path a | None => Some (default [] (path a)) end;
     query := Some (match query a with
                    | None => []
                    | Some q => if ends_with_one_of [63; 38]%N (63%N :: q) then q else q ++ lit "&"
                    end ++ lit "authSource=admin") |}.

Lemma last_app_cons {A} (l : list A) x k : last (l ++ x :: k) = last (x :: k).
Proof. rewrite last_app. by destruct (last (x :: k)) eqn:E; [|apply last_None in E]. Qed.

Lemma retried_shown a : well_formed a → append_admin_auth_source (show_address a) = show_address (retried a).
Proof.
  intros (Hscheme & Hauth & Hpath & _). unfold append_admin_auth_source.
  assert (has_char 63 (show_address a) = match query a with Some _ => true | None => false end) as ->.
  { unfold show_address. rewrite !has_char_app.
    rewrite (absent_char 63 [58; 63]%N _ ltac:(set_solver) Hscheme), (absent_char 63 [47; 63]%N _ ltac:(set_solver) Hauth).
    assert (has_char 63 (from_option (cons 47%N) [] (path a)) = false) as ->.
    { destruct (path a) as [p|]; [|done]. by apply (absent_char 63 [63%N] p ltac:(set_solver)). }
    by destruct (query a). }
  unfold show_address, retried. cbn [scheme authority path query]. destruct (query a) as [q|].
  - cbn [from_option].
    assert (ends_with_one_of [63; 38]%N (scheme a ++ lit "://" ++ authority a ++
      from_option (cons 47%N) [] (path a) ++ 63%N :: q) = ends_with_one_of [63; 38]%N (63%N :: q)) as ->.
    { unfold ends_with_one_of. by rewrite !app_assoc, last_app_cons. }
    rewrite <-!app_assoc. do 4 f_equal. simpl. f_equal.
    destruct (ends_with_one_of _ _); [done|]. by rewrite <-app_assoc.
  - rewrite app_nil_r, split_scheme by (eapply without_weaken; [|exact Hscheme]; set_solver).
    assert (has_char 47 (authority a ++ from_option (cons 47%N) [] (path a)) =
      match path a with Some _ => true | None => false end) as ->.
    { rewrite has_char_app, (absent_char 47 [47; 63]%N _ ltac:(set_solver) Hauth). by destruct (path a). }
    rewrite <-!app_assoc. by destruct (path a).
Qed.

Lemma options_in_app q t : options_in (q ++ 38%N :: t) = options_in q ++ options_in t.
Proof. unfold options_in. by rewrite split_char_app, filter_app. Qed.

Lemma retried_options a : well_formed a → options (retried a) = options a ++ [lit "authSource=admin"].
Proof.
  intros (_ & _ & _ & Hlast). unfold options, retried. cbn [query from_option].
  destruct (query a) as [q|]; [|done]. cbn [from_option default] in *.
  destruct (last q) as [c|] eqn:Hq; [|by apply last_None in Hq as ->].
  apply last_Some in Hq as [q' ->]. unfold ends_with_one_of.
  change (63%N :: q' ++ [c]) with ((63%N :: q') ++ [c]). rewrite last_snoc. cbn [existsb].
  destruct (N.eqb_spec c 63) as [->|_]; [by destruct Hlast; apply last_snoc|].
  destruct (N.eqb_spec c 38) as [->|_]; cbn [orb].
  - rewrite <-app_assoc. change ([38%N] ++ lit "authSource=admin") with (38%N :: lit "authSource=admin").
    rewrite !options_in_app. by rewrite app_nil_r.
  - rewrite <-(app_assoc (q' ++ [c])).
    change (lit "&" ++ lit "authSource=admin") with (38%N :: lit "authSource=admin").
    by rewrite options_in_app.
Qed.

Lemma no_source_named a : contains (lit "authsource=") (to_ascii_lowercase (show_address a)) = false →
  filter (λ o, names_source o = true) (options a) = [].
Proof.
  intros Hno. apply elem_of_nil_inv. intros o [Hsource Hin]%list_elem_of_filter.
  unfold options in Hin. destruct (query a) as [q|] eqn:Hq; [|by apply elem_of_nil in Hin].
  apply list_elem_of_filter in Hin as [_ Hin]. apply split_char_inside in Hin as (before & after & Heq).
  change (q = before ++ o ++ after) in Heq. unfold names_source, starts_with in Hsource.
  destruct (strip_prefix _ _) as [rest|] eqn:Hstrip; [|done]. apply strip_prefix_spec in Hstrip.
  assert (show_address a = (scheme a ++ lit "://" ++ authority a ++ from_option (cons 47%N) [] (path a) ++
    63%N :: before) ++ o ++ after) as Hshow.
  { unfold show_address. rewrite Hq, Heq. cbn [from_option]. by rewrite <-!app_assoc. }
  revert Hno. rewrite Hshow. unfold to_ascii_lowercase in *.
  by rewrite !fmap_app, Hstrip, <-(app_assoc (lit "authsource=")), contains_infix.
Qed.

Section retry.
Context `{MongoLib}.

(** C38: A connection that the server refuses for its credentials is attempted a second time,
    if the address names a user and no database to look the user up in. The second address has
    the scheme, the hosts and credentials, and the path of the first, its options in order,
    and after them [authSource=admin], its only option of that name in any case of letters;
    the outcome is that of the second attempt. (An address whose options end in a question
    mark is left out: there the option is glued to the one before it.) *)
Theorem admin_source_added (connection_error : MongoError → ProtocolError) a w w' error :
  well_formed a →
  connect_and_read_build_info (show_address a) w = (w', inl error) →
  should_retry_with_admin_auth_source (show_address a) (shown error) = true →
  ∃ a', connect connection_error (show_address a) w =
      (let '(w2, r) := connect_and_read_build_info (show_address a') w' in
       (w2, match r with inl e => Err (connection_error e) | inr connected => Ok connected end)) ∧
    scheme a' = scheme a ∧ authority a' = authority a ∧ default [] (path a') = default [] (path a) ∧
    options a' = options a ++ [lit "authSource=admin"] ∧
    filter (λ o, names_source o = true) (options a') = [lit "authSource=admin"] ∧
    has_char 64 (show_address a) = true.
Proof.
  intros Hwf Hfirst Hretry. exists (retried a).
  split.
  { unfold connect. rewrite Hfirst, Hretry, retried_shown by done.
    by destruct (connect_and_read_build_info _ w') as [w2 [e|connected]]. }
  assert (Hno := Hretry). unfold should_retry_with_admin_auth_source in Hno.
  rewrite !andb_true_iff, negb_true_iff in Hno. destruct Hno as [[Huser Hno] _].
  split_and!; [done|done| | | |done].
  - by destruct a as [? ? ? []].
  - by apply retried_options.
  - rewrite retried_options, filter_app, no_source_named by done. done.
Qed.
End retry.

(** ** A run *)

Module MongoDemo.

Definition no_params {T} : FromValue T := λ _, inl (lit "bad").
Definition member_text (name : string) (v : Value) : text + text :=
  match get (lit name) v ≫= as_str with Some t => inr t | None => inl (lit "missing") end.

Definition codec : MongoCodec := {|
  open_params v := inr v;
  config_params v := member_text "url" v;
  command_params := no_params;
  find_params v :=
    match member_text "database" v with
    | inl e => inl e
    | inr d => inr {| mf_database := d; mf_collection := lit "c"; mf_filter := None; mf_limit := None;
                      mf_skip := Some (-1)%Z; mf_sort := None; mf_projection := None |}
    end;
  blob_read_params v :=
    match member_text "blob_id" v with
    | inl e => inl e
    | inr id => inr {| br_blob_id := id; effective_max_bytes := 4 |}
    end;
  conn_open_value n := inr (Number (PosInt n));
  document_value w := inr (match w with Utf8 t | Base64 t => Str t end);
  find_value found := inr (Object [(lit "blob", opt_str (documents_blob_id found));
                                   (lit "count", Number (PosInt (document_count found)))]);
  blob_read_value r := inr (Object [(lit "data", Str (br_data r)); (lit "done", Bool (br_done r))]);
  init_value i := inr (Str (init_driver i));
  package_version := lit "1";
  INLINE_BLOB_THRESHOLD_BYTES := 8;
  base64_encode b := b;
  base64_decode t := inr t
|}.

(** A server that counts the attempts to connect, and lets in those who name a database. *)
Definition lib : MongoLib := {|
  Document := bytes; World := nat; Client := text; empty_document := [];
  from_slice := inr; to_vec := inr;
  with_uri_str url w := (S w, inr url);
  build_info url w := (w, if contains (lit "authSource=admin") url then inr []
    else inl {| shown := lit "AuthenticationFailed"; kind_debug := []; labels := []; server_error := None |});
  version_array _ := None;
  run_command _ _ d w := (w, inr d);
  find_documents _ _ _ _ _ w := (w, inr ([lit "one"; lit "three"], None))
|}.

Definition lib32 : Mongo32Lib := {|
  Document32 := bytes; World32 := nat; Client32 := text;
  decode32 := inr; encode32 := inr;
  parse_uri _ := inr {| user := None; password := None; cs_options := None; cs_database := None |};
  percent_decode t := t;
  with_uri url w := (S w, inr url);
  auth _ _ _ _ w := (w, inr ());
  build_info_command _ w := (w, inr ());
  command32 _ _ d w := (w, inr d);
  find32 _ _ _ _ _ w := (w, inr [lit "one"; lit "three"])
|}.

#[local] Existing Instances codec lib lib32.

Definition search : Value := Object [(lit "database", Str (lit "d"))].
Definition start : Mongo := {| client := lit "x"; blobs := ∅; next_blob := 1; world := 0 |}.
Definition start32 : Mongo32 := {| client32 := lit "x"; blobs32 := ∅; next_blob32 := 1; world32 := 0 |}.

Lemma find_results_delivered_witness :
  (∃ s' found, call MONGODB_FIND (lit "mongodb.find") search start = (s', serialize find_value found) ∧
     hands_over (call BLOB_READ (lit "mongodb.find")) s' [lit "one"; lit "three"] found) ∧
  (∃ s' found, call32 MONGODB_FIND (lit "mongodb.find") search start32 = (s', serialize find_value found) ∧
     hands_over (call32 BLOB_READ (lit "mongodb.find")) s' [lit "one"; lit "three"] found).
Proof.
  destruct (find_results_delivered search [lit "one"; lit "three"] (lit "mongodb.find")) as [H1 H2];
    [intros b; reflexivity|].
  split; [apply H1|apply H2]; eexists _, None, None, None, 0, [lit "one"; lit "three"]; split_and!;
    try reflexivity; by repeat constructor.
Defined.

(** The documents are in a blob, read four bytes at a time. *)
Example found_in_a_blob :
  let '(s, found) := call MONGODB_FIND [] search start in
  found = Ok (Object [(lit "blob", Str (lit "mongo-docs-1")); (lit "count", Number (PosInt 2))]) ∧
  (run_calls (call BLOB_READ []) (replicate 4 (Object [(lit "blob_id", Str (lit "mongo-docs-1"))])) s).2 =
    zip_with read_response [[3; 0; 0; 0]%N; lit "one" ++ [5]%N; [0; 0; 0]%N ++ lit "t"; lit "hree"]
      [false; false; false; true].
Proof. by vm_compute. Qed.

Definition address : Address :=
  {| scheme := lit "mongodb"; authority := lit "u:p@h:27017"; path := None; query := None |}.

Lemma admin_source_added_witness :
  ∃ a', @connect lib modern_connection_error (lit "mongodb://u:p@h:27017") 0 =
      (let '(w2, r) := @connect_and_read_build_info lib (show_address a') 1 in
       (w2, match r with inl e => Err (modern_connection_error e) | inr connected => Ok connected end)) ∧
    scheme a' = scheme address ∧ authority a' = authority address ∧
    default [] (path a') = default [] (path address) ∧
    options a' = options address ++ [lit "authSource=admin"] ∧
    filter (λ o, names_source o = true) (options a') = [lit "authSource=admin"] ∧
    has_char 64 (show_address address) = true.
Proof.
  apply (@admin_source_added lib modern_connection_error address 0 1
    {| shown := lit "AuthenticationFailed"; kind_debug := []; labels := []; server_error := None |}).
  - split_and!; [| |constructor|done]; apply (bool_decide_unpack _); by vm_compute.
  - reflexivity.
  - reflexivity.
Defined.

Example connected_the_second_time :
  @connect lib modern_connection_error (lit "mongodb://u:p@h:27017") 0 =
    (2, Ok (lit "mongodb://u:p@h:27017/?authSource=admin", [])).
Proof. reflexivity. Qed.
End MongoDemo.
