(* ===== verification/ImportTerminals.v ===== *)
(** * Importing connections: the settings of terminals

    wasm/mobaxterm-importer, xshell-importer and windterm-importer: mobaxterm.rs, xshell.rs,
    windterm.rs and component.rs.  Functions that the crates have in the same words are
    modelled once.  JSON, archives, the encoding GBK and the lower case of a character are
    parameters. *)

From S2P Require Import Prelude VncClipboard Text TextSearch JsonValue CrtModel.

(** ** Records *)

Record SshImportRecord := {
  ssh_name : text; ssh_host : text; ssh_port : option N; ssh_username : text;
  group_path : option text; auth_method : SshImportAuthMethod; init_script : option text;
  jump_server : option Value; proxy : option Value
}.

Record DatabaseImportRecord := {
  database_type : Value; db_name : text; db_host : text; db_port : option N; db_username : text;
  db_password : option text; db_database : option text; extra_params : list (text * text)
}.

Record ImportRecord := {
  id : text; importer_id : text; source_label : text; source_id : option text; kind : text;
  display_name : text; database : option DatabaseImportRecord; ssh : option SshImportRecord;
  port_forwarding : option Value; password_status : text; warnings : list ImportWarning
}.

(** ** Texts *)

(** [split(c).next()] *)
Definition before_first (c : N) (t : text) : text :=
  match split_once_at (N.eqb c) t with Some (before, _) => before | None => t end.

(** [rsplit_once] at a character *)
Definition rsplit_once (c : N) (t : text) : option (text * text) :=
  '(after, before) ← split_once_at (N.eqb c) (reverse t); Some (reverse before, reverse after).

Definition non_empty (value : text) : option text :=
  let value := trim value in if bool_decide (value = []) then None else Some value.

(** The first of two values that there is. *)
Definition or_else {A} (a b : option A) : option A := match a with Some _ => a | None => b end.

Definition has_extension (path extension : text) : bool :=
  match rsplit_once 46 path with Some (_, suffix) => eq_ignore_ascii_case suffix extension | None => false end.

(** What two byte orders of UTF-16 and UTF-8, with a mark or without, say. *)
Definition decode_settings (b : bytes) : option text :=
  if starts_with [255; 254]%N b then decode_utf16_bytes (drop 2 b) true
  else if starts_with [254; 255]%N b then decode_utf16_bytes (drop 2 b) false
  else trim_start_matches (N.eqb 65279) <$> utf8_decode b.

Definition parse_u16 (t : text) : option N := parse_unsigned u16_max t.

(** The name in square brackets. *)
Definition section_name (line : text) : option text :=
  rest ← strip_prefix (lit "[") line; name ← strip_suffix (lit "]") rest; Some (trim name).

Definition is_comment_line (line : text) : bool :=
  bool_decide (line = []) || starts_with (lit ";") line || starts_with (lit "#") line.

(** A host, in brackets or not, and a port. *)
Definition bracketed_host (rest : text) : option (text * option N) :=
  '(host, suffix) ← split_once_at (N.eqb 93) rest;
  if bool_decide (host = []) then None
  else Some (host, port ← strip_prefix (lit ":") suffix; parse_u16 port).

(** A port after the only colon. *)
Definition host_with_port (value : text) : option (text * N) :=
  if bool_decide (length (List.filter (N.eqb 58) value) = 1) then
    '(host, port) ← rsplit_once 58 value; port ← parse_u16 port; Some (host, port)
  else None.

Section importers.
(** [char::to_lowercase] *)
Context (to_lowercase : N → list N).

Definition slug_or (fallback value : text) : text :=
  let out := drop_dashes (foldl slug_char ([], false) (value ≫= to_lowercase)).1 in
  if bool_decide (out = []) then fallback else reverse out.

Definition slug (value : text) : text := slug_or (lit "session") value.

(** The record of a session, the parts that the importers of terminals have in common. *)
Definition ssh_import (importer label : text) (id source_id : text) (s : SshImportRecord)
    (status : text) (ws : list ImportWarning) : ImportRecord :=
  {| id := id; importer_id := importer; source_label := label; source_id := Some source_id;
     kind := lit "ssh"; display_name := ssh_name s; database := None; ssh := Some s;
     port_forwarding := None; password_status := status; warnings := ws |}.

(** ** MobaXterm *)

Definition MAX_MOBATXTERM_SESSIONS : N := 8192.

Definition moba_supported_source_path (path : text) : bool :=
  let file_name := path_name path in
  eq_ignore_ascii_case file_name (lit "mobaxterm.ini") || has_extension file_name (lit "mxtsessions").

Record SectionFields := { sessions : list (text * text); metadata : gmap text text }.

Definition add_entry (key value : text) (fields : SectionFields) : SectionFields :=
  if eq_ignore_ascii_case key (lit "subrep") || eq_ignore_ascii_case key (lit "imgnum") then
    {| sessions := sessions fields; metadata := <[to_ascii_lowercase key := value]> (metadata fields) |}
  else {| sessions := sessions fields ++ [(key, value)]; metadata := metadata fields |}.

Abbreviation sections := (list (text * SectionFields)) (only parsing).

Definition section_line (st : sections * option (text * SectionFields)) (raw_line : text)
    : sections * option (text * SectionFields) :=
  let line := trim raw_line in
  if is_comment_line line then st
  else match section_name line with
       | Some name =>
           (st.1 ++ from_option (λ s, [s]) [] st.2, Some (name, {| sessions := []; metadata := ∅ |}))
       | None =>
           match split_once_at (N.eqb 61) line, st.2 with
           | Some (key, value), Some (name, fields) =>
               (st.1, Some (name, add_entry (trim key) (trim value) fields))
           | _, _ => st
           end
       end.

Definition parse_sections (t : text) : sections :=
  let '(done, current) := foldl section_line ([], None) (lines t) in
  done ++ from_option (λ s, [s]) [] current.

Definition is_bookmark_section (section : text) : bool :=
  let section := trim section in
  eq_ignore_ascii_case section (lit "bookmarks") || eq_ignore_ascii_case section (lit "bookmarks2") ||
  eq_ignore_ascii_case section (lit "bookmark") ||
  (starts_with (lit "bookmarks_") (to_ascii_lowercase section) && forallb is_digit (drop 10 section)).

Definition normalize_group (subrep : option text) : option text :=
  let parts := trim <$> split_char 47 [] (replace [92%N] [47%N] (default [] subrep)) in
  let normalized := join (lit "/") (List.filter not_empty parts) in
  if bool_decide (normalized = []) then None else Some normalized.

(** The name after the last slash, and what is before it. *)
Definition session_label_and_group (key : text) : text * option text :=
  let parts := List.filter not_empty (split_char 47 [] (replace [92%N] [47%N] key)) in
  let '(label, group_parts) :=
    foldl (λ '(label, group_parts) part,
      (part, if bool_decide (label = []) then group_parts else group_parts ++ [label])) ([], []) parts in
  (label, if bool_decide (group_parts = []) then None else Some (join (lit "/") group_parts)).

(** A host, a port, a name and whether there is a password. *)
Abbreviation Session := (text * option N * text * bool)%type (only parsing).

Definition is_standard_prefix (value : text) : bool :=
  let trimmed := trim value in
  let rest := from_option trim_start trimmed (strip_prefix (lit ";") trimmed) in
  let rest := from_option trim_start rest (strip_prefix (lit "logout") rest) in
  match strip_prefix (lit "#") rest with Some (c :: _) => is_digit c | _ => false end.

Definition field_at (i : nat) (fields : list text) : text := trim (default [] (fields !! i)).

Definition parse_standard_session (value : text) : option Session :=
  match split_char 35 [] value with
  | _ :: _ :: third :: _ =>
      if is_standard_prefix value then
        let fields := split_char 37 [] third in
        if bool_decide (field_at 0 fields = lit "0") then
          let port := port ← fields !! 2; port ← parse_u16 (trim port);
                      if (port =? 0)%N then None else Some port in
          let username := field_at 3 fields in
          Some (field_at 1 fields, or_else port (Some 22%N),
                if bool_decide (username = []) || bool_decide (username = lit "<default>") then [] else username,
                match fields !! 4 with Some value => not_empty (trim value) | None => false end)
        else Some ([], None, [], false)
      else None
  | _ => None
  end.

Definition moba_host_port (value : text) : option (text * option N) :=
  let value := trim value in
  match strip_prefix (lit "[") value with
  | Some rest => bracketed_host rest
  | None => Some (match host_with_port value with
                  | Some (host, port) => (host, Some port)
                  | None => (value, None)
                  end)
  end.

Definition moba_target (value : text) : option (text * option text * option N) :=
  let value := default (trim value) (strip_prefix (lit "ssh://") (trim value)) in
  let value := before_first 47 value in
  let '(user_info, host_port) :=
    match rsplit_once 64 value with Some (user, host) => (Some user, host) | None => (None, value) end in
  let username := user ← user_info; let user := before_first 58 user in
                  if bool_decide (user = []) then None else Some user in
  '(host, port) ← moba_host_port host_port; Some (host, username, port).

Definition parse_legacy_session (value : text) : option Session :=
  let tokens := List.filter not_empty (trim <$> split_char 35 [] value) in
  ssh_token_index ← position (λ token, eq_ignore_ascii_case token (lit "ssh")) tokens;
  '(host, username, port) ← head (omap moba_target (take ssh_token_index tokens));
  if bool_decide (host = []) then None
  else
    let numeric := head (omap parse_u16 (drop (ssh_token_index + 1) tokens)) in
    Some (host, or_else numeric port, default [] username, false).

Definition moba_password_warning : ImportWarning :=
  warning (lit "mobaxterm_encrypted_password")
    (lit "MobaXterm stores passwords with its own encryption; the stored password was not imported.").

Definition session_record (path key value : text) (group : option text) : option ImportRecord :=
  let '(label, key_group) := session_label_and_group key in
  let source_id := path ++ lit "#" ++ key in
  '(host, port, username, password_present) ←
    or_else (parse_standard_session value) (parse_legacy_session value);
  if bool_decide (host = []) then None
  else Some (ssh_import (lit "mobaxterm") (lit "MobaXterm") (lit "mobaxterm:" ++ slug source_id) source_id
    {| ssh_name := label; ssh_host := host; ssh_port := port; ssh_username := username;
       group_path := or_else key_group group;
       auth_method := if (password_present : bool) then Password None else AutoPublicKey;
       init_script := None; jump_server := None; proxy := None |}
    (if (password_present : bool) then lit "unsupported" else lit "missing")
    (if (password_present : bool) then [moba_password_warning] else [])).

Definition parse_ini_sessions (path t : text) : list ImportRecord :=
  parse_sections t ≫= λ '(section, fields),
    if is_bookmark_section section then
      let group := normalize_group (metadata fields !! lit "subrep") in
      omap (λ '(key, value), session_record path key value group) (sessions fields)
    else [].

(** A record whose identifier was seen before is left out. *)
Definition add_unseen (st : list ImportRecord * gset text) (record : ImportRecord)
    : list ImportRecord * gset text :=
  if decide (id record ∈ st.2) then st else (st.1 ++ [record], {[id record]} ∪ st.2).

Fixpoint moba_sources (st : list ImportRecord * gset text) (sources : list (text * bytes))
    : list ImportRecord :=
  match sources with
  | [] => st.1
  | (path, b) :: sources =>
      match decode_settings b with
      | None => moba_sources st sources
      | Some t =>
          let st := foldl add_unseen st (parse_ini_sessions path t) in
          if (MAX_MOBATXTERM_SESSIONS <=? N.of_nat (length st.1))%N then st.1 else moba_sources st sources
      end
  end.

Definition moba_records (sources : list (text * bytes)) (_include_passwords : bool) : list ImportRecord :=
  moba_sources ([], ∅) sources.

(** ** Xshell *)

Definition MAX_XTS_SESSION_COUNT : nat := 4096.
Definition MAX_XSH_FILE_SIZE : N := 4194304.
Definition MAX_XTS_TOTAL_SESSION_SIZE : N := 33554432.

(** An entry of an archive, its size as the archive says; [read_to_end] may fail. *)
Record ZipEntry := {
  name_raw : bytes; zip_name : text; zip_is_dir : bool; zip_size : N; read_to_end : option bytes
}.

Class XtsLib := {
  (** an entry that cannot be opened is none *)
  zip_entries : bytes → option (list (option ZipEntry));
  (** the text, and whether there were errors *)
  gbk_decode : bytes → text * bool
}.

Definition xshell_supported_source_path (path : text) : bool :=
  has_extension path (lit "xsh") || has_extension path (lit "xts").

Definition is_xts_session_entry (path : text) (is_dir : bool) : bool :=
  negb is_dir && starts_with (lit "xshell/") (to_ascii_lowercase path) && has_extension path (lit "xsh").

(** A path without its last four bytes, which are a dot and the extension. *)
Definition strip_xsh_extension (path : text) : text :=
  if has_extension path (lit "xsh") then take (length path - 4) path else path.

Definition xshell_session_name (path : text) : text := strip_xsh_extension (path_name path).

Definition xshell_slug (path : text) : text :=
  slug (trim_matches is_separator (strip_xsh_extension path)).

Abbreviation ini := (gmap text (gmap text text)) (only parsing).

Definition ini_line (st : ini * text) (raw_line : text) : ini * text :=
  let '(out, section) := st in
  let line := trim raw_line in
  if is_comment_line line then st
  else match section_name line with
       | Some name =>
           let section := to_ascii_lowercase name in
           (<[section := default ∅ (out !! section)]> out, section)
       | None =>
           match split_once_at (N.eqb 61) line with
           | Some (key, value) =>
               (<[section := <[to_ascii_lowercase (trim key) := trim value]> (default ∅ (out !! section))]> out,
                section)
           | None => st
           end
       end.

Definition parse_ini (t : text) : ini := (foldl ini_line (∅, []) (lines t)).1.

Definition xshell_session (path : text) (b : bytes) : option ImportRecord :=
  t ← decode_settings b;
  let ini := parse_ini t in
  connection ← ini !! lit "connection";
  if eq_ignore_ascii_case (default (lit "SSH") (field connection (lit "protocol"))) (lit "ssh") then
    host ← field connection (lit "host");
    let port := port ← field connection (lit "port"); parse_u16 port in
    let username := auth ← ini !! lit "connection:authentication"; field auth (lit "username") in
    Some (ssh_import (lit "xshell") (lit "Xshell") (lit "xshell:" ++ xshell_slug path) path
      {| ssh_name := xshell_session_name path; ssh_host := host; ssh_port := or_else port (Some 22%N);
         ssh_username := default [] username; group_path := None; auth_method := AutoPublicKey;
         init_script := None; jump_server := None; proxy := None |}
      (lit "unsupported") [])
  else None.

Section xts.
Context `{XtsLib}.

Definition decode_xts_entry_name (raw_name : bytes) (fallback : text) : text :=
  match utf8_decode raw_name with
  | Some name => name
  | None => let '(name, had_errors) := gbk_decode raw_name in if (had_errors : bool) then fallback else name
  end.

(** The sessions of an archive, and the size of those read so far. *)
Fixpoint xts_sessions (archive_path : text) (entries : list (option ZipEntry)) (found : list (text * bytes))
    (total_size : N) : list (text * bytes) :=
  match entries with
  | [] => found
  | None :: entries => xts_sessions archive_path entries found total_size
  | Some entry :: entries =>
      let entry_name := decode_xts_entry_name (name_raw entry) (zip_name entry) in
      let skip := xts_sessions archive_path entries found total_size in
      if negb (is_xts_session_entry entry_name (zip_is_dir entry)) then skip
      else if (MAX_XSH_FILE_SIZE <? zip_size entry)%N ||
              (MAX_XTS_TOTAL_SESSION_SIZE <? sat_add u64_max total_size (zip_size entry))%N then skip
      else match read_to_end entry with
           | None => skip
           | Some session =>
               let found := found ++ [(archive_path ++ lit "!/" ++ entry_name, session)] in
               if MAX_XTS_SESSION_COUNT <=? length found then found
               else xts_sessions archive_path entries found (total_size + zip_size entry)
           end
  end.

Definition parse_xts_backup (archive_path : text) (b : bytes) : list ImportRecord :=
  match zip_entries b with
  | None => []
  | Some entries =>
      omap (λ '(path, b), xshell_session path b) (sort_by fst (xts_sessions archive_path entries [] 0))
  end.

Definition xshell_source (path : text) (b : bytes) : list ImportRecord :=
  if has_extension path (lit "xts") then parse_xts_backup path b
  else from_option (λ r, [r]) [] (xshell_session path b).

Definition xshell_records (sources : list (text * bytes)) (_include_passwords : bool) : list ImportRecord :=
  sources ≫= λ '(path, b), xshell_source path b.
End xts.

(** ** WindTerm *)

Record WindTermSession := {
  uuid : option text; protocol : option text; label : option text; group : option text;
  target : option text; port : option Value; user : option text; description : option text;
  auto_login : option Value; ssh_auto_login : option Value; identity_file_path : option text;
  agent : option Value; auth_agent : option Value; auth_password : option Value;
  auto_execution : option text; wt_proxy : option Value; proxy_host : option text;
  wt_jump_server : option Value; tunnels : option Value
}.

(** What serde derives for a file of sessions. *)
Class WindTermLib := windterm_sessions : bytes → option (list WindTermSession).

Record ParsedTarget := {
  pt_host : text; pt_username : option text; pt_port : option N; inline_password_ignored : bool
}.

Definition windterm_host_port (value : text) : option (text * option N) :=
  let value := trim value in
  match strip_prefix (lit "[") value with
  | Some rest => bracketed_host rest
  | None =>
      match host_with_port value with
      | Some (host, port) => host ← non_empty host; Some (host, Some port)
      | None => host ← non_empty value; Some (host, None)
      end
  end.

Definition windterm_target (value : text) : option ParsedTarget :=
  let value := trim value in
  if bool_decide (value = []) then None
  else
    let value := default value (or_else (strip_prefix (lit "ssh://") value) (strip_prefix (lit "SSH://") value)) in
    let value := before_first 47 value in
    let '(user_info, host_port) :=
      match rsplit_once 64 value with Some (user, host) => (Some user, host) | None => (None, value) end in
    let '(username, inline_password_ignored) :=
      match user_info with
      | None => (None, false)
      | Some user_info =>
          match split_once_at (N.eqb 58) user_info with
          | Some (user, _) => (non_empty user, true)
          | None => (non_empty user_info, false)
          end
      end in
    '(host, port) ← windterm_host_port host_port;
    Some {| pt_host := host; pt_username := username; pt_port := port;
            inline_password_ignored := inline_password_ignored |}.

Definition as_u64 (n : number) : option N := match n with PosInt n => Some n | _ => None end.

(** [u16::try_from] *)
Definition as_u16 (n : number) : option N :=
  port ← as_u64 n; if (port <=? u16_max)%N then Some port else None.

Definition parse_port (value : option Value) : option N :=
  match value with
  | Some (Number n) => as_u16 n
  | Some (Str value) => parse_u16 (trim value)
  | _ => None
  end.

Definition is_nonzero (n : number) : bool := match as_u64 n with Some n => negb (n =? 0)%N | None => false end.

Definition truthy (value : option Value) : bool :=
  match value with
  | Some (Bool value) => value
  | Some (Number n) => is_nonzero n
  | Some (Str value) => one_of ["1"; "true"; "yes"] (to_ascii_lowercase (trim value))
  | _ => false
  end.

Definition has_data (value : option Value) : bool :=
  match value with
  | None | Some Null => false
  | Some (Bool value) => value
  | Some (Number n) => is_nonzero n
  | Some (Str value) => not_empty (trim value)
  | Some (Array items) => negb (length items =? 0)
  | Some (Object members) => negb (length members =? 0)
  end.

Definition windterm_warnings (session : WindTermSession) (encrypted_auto_login inline_password_ignored : bool)
    (username : text) : list ImportWarning :=
  let when (b : bool) (code message : string) := if b then [warning (lit code) (lit message)] else [] in
  when encrypted_auto_login "windterm_encrypted_auto_login"
    "WindTerm auto-login data is encrypted and was not imported." ++
  when inline_password_ignored "windterm_inline_password_ignored"
    "A password embedded in the target was intentionally not imported." ++
  when (bool_decide (username = [])) "windterm_missing_username"
    "WindTerm did not expose a plaintext SSH username for this session." ++
  when (has_data (wt_proxy session) || bool_decide (is_Some (proxy_host session ≫= non_empty)))
    "windterm_proxy_not_imported" "WindTerm proxy settings are not imported yet." ++
  when (has_data (wt_jump_server session)) "windterm_jump_server_not_imported"
    "WindTerm jump-server settings are not imported yet." ++
  when (has_data (tunnels session)) "windterm_tunnels_not_imported"
    "WindTerm SSH tunnel settings are not imported yet.".

Definition windterm_auth (session : WindTermSession) : SshImportAuthMethod :=
  match identity_file_path session ≫= non_empty with
  | Some key_path => PrivateKey key_path None
  | None =>
      if truthy (agent session) || truthy (auth_agent session) then Agent
      else if truthy (auth_password session) then Password None
      else AutoPublicKey
  end.

Definition record_from_session (path : text) (session : WindTermSession) : option ImportRecord :=
  if eq_ignore_ascii_case (trim (default [] (protocol session))) (lit "ssh") then
    target ← windterm_target (trim (default [] (target session)));
    let port := or_else (or_else (parse_port (port session)) (pt_port target)) (Some 22%N) in
    let username := default [] (or_else (user session ≫= non_empty) (pt_username target)) in
    let label := or_else (label session ≫= non_empty) (description session ≫= non_empty) in
    let group := group session ≫= non_empty in
    let display_name := default (pt_host target) label in
    let source_id := default (path ++ lit ":" ++ default [] group ++ lit ":" ++ pt_host target ++ lit ":" ++
                                show_N (default 22%N port)) (uuid session ≫= non_empty) in
    let encrypted_auto_login := has_data (auto_login session) || has_data (ssh_auto_login session) in
    Some (ssh_import (lit "windterm") (lit "WindTerm") (lit "windterm:" ++ slug source_id) source_id
      {| ssh_name := display_name; ssh_host := pt_host target; ssh_port := port; ssh_username := username;
         group_path := None; auth_method := windterm_auth session;
         init_script := auto_execution session ≫= non_empty; jump_server := None; proxy := None |}
      (if encrypted_auto_login || inline_password_ignored target then lit "unsupported" else lit "missing")
      (windterm_warnings session encrypted_auto_login (inline_password_ignored target) username))
  else None.

Definition windterm_records `{WindTermLib} (files : list (text * bytes)) (_include_passwords : bool)
    : list ImportRecord :=
  (foldl add_unseen ([], ∅)
     (files ≫= λ '(path, b), omap (record_from_session path) (default [] (windterm_sessions b)))).1.
End importers.
