(* ===== verification/ImportDatabases.v ===== *)
(** * Importing connections: the settings of database tools

    wasm/mongodb-compass-importer, redis-desktop-importer, tableplus-importer,
    dbeaver-importer, jetbrains-importer and navicat-importer.  Functions that the crates have
    in the same words are modelled once.  JSON, property lists, XML, ciphers and the lower case
    of a character are parameters. *)

From S2P Require Import Prelude VncClipboard Text TextSearch JsonValue CrtModel CrtXml ImportTerminals.

(** [serde_json::from_slice] *)
Class JsonLib := json_from_slice : bytes → option Value.

(** ** Members *)

(** The first member with a name, in any case of letters. *)
Definition member_ignoring_case (members : list (text * Value)) (key : text) : option Value :=
  snd ∘ snd <$> list_find (λ '(candidate, _), eq_ignore_ascii_case candidate key = true) members.

(** [keys.iter().find_map(..)] over the members of an object *)
Definition find_field {A} (f : Value → option A) (value : Value) (keys : list string) : option A :=
  match value with
  | Object members => head (omap (λ key, member_ignoring_case members (lit key) ≫= f) keys)
  | _ => None
  end.

Definition value_text (value : Value) : option text := as_str value ≫= non_empty.

Definition text_field (value : Value) (keys : list string) : option text := find_field value_text value keys.

Definition number_text (value : Value) : option text :=
  match value with Number n => show_N <$> as_u64 n | _ => None end.
Definition number_field (value : Value) (keys : list string) : option text := find_field number_text value keys.

Definition port_value (value : Value) : option N :=
  match value with
  | Number n => as_u16 n
  | Str t => parse_u16 (trim t)
  | _ => None
  end.
Definition port_field (value : Value) (keys : list string) : option N := find_field port_value value keys.

Definition bool_field (value : Value) (keys : list string) : option bool :=
  find_field (λ v, match v with Bool b => Some b | _ => None end) value keys.

(** A path of keys and one more. *)
Definition child_path (path key : text) : text :=
  if bool_decide (path = []) then key else path ++ lit "/" ++ key.

(** Blanks, dashes and dots are underscores. *)
Definition normalized_type (raw : text) : text :=
  (λ c, if (c =? 32)%N || (c =? 45)%N || (c =? 46)%N then 95%N else c) <$> to_ascii_lowercase (trim raw).

Definition type_of (table : list (list string * string)) (raw : text) : option text :=
  lit ∘ snd ∘ snd <$> list_find (λ '(names, _), one_of names (normalized_type raw) = true) table.

Section importers.
(** [char::to_lowercase] *)
Context (to_lowercase : N → list N).

Definition slug (value : text) : text := slug_or to_lowercase (lit "connection") value.

(** The record of a database, the parts that these importers have in common. *)
Definition database_import (importer label id : text) (source_id : option text)
    (d : DatabaseImportRecord) (status : text) : ImportRecord :=
  {| ImportTerminals.id := id; importer_id := importer; source_label := label; source_id := source_id;
     kind := lit "database"; display_name := db_name d; database := Some d; ssh := None;
     port_forwarding := None; password_status := status; warnings := [] |}.

Definition external_type (name : string) : Value :=
  Object [(lit "external", Object [(lit "id", Str (lit name))])].

(** ** MongoDB Compass *)

Record CompassConnection := { cc_id : option text; cc_name : option text; cc_uri : text }.

Record MongoUri := {
  scheme : text; username : option text; host : text; port : option N; uri_database : option text;
  query : option text
}.

Definition connection_uri_keys : list string := ["connectionString"; "connection_string"; "uri"].

Definition find_connection_uri (value : Value) : option text :=
  or_else (text_field value connection_uri_keys)
    (options ← get (lit "connectionOptions") value; text_field options connection_uri_keys).

Definition compass_connection (value : Value) (uri : text) : CompassConnection :=
  {| cc_id := text_field value ["id"; "uuid"];
     cc_name := or_else (text_field value ["name"; "title"])
                  (favorite ← get (lit "favorite") value; text_field favorite ["name"; "title"]);
     cc_uri := uri |}.

Fixpoint collect_compass (value : Value) : list CompassConnection :=
  match value with
  | Object members =>
      match find_connection_uri value with
      | Some uri => [compass_connection value uri]
      | None =>
          (fix children (members : list (text * Value)) : list CompassConnection :=
             match members with
             | [] => []
             | (_, child) :: members => collect_compass child ++ children members
             end) members
      end
  | Array items =>
      (fix children (items : list Value) : list CompassConnection :=
         match items with [] => [] | child :: items => collect_compass child ++ children items end) items
  | _ => []
  end.

(** [u8::from_str_radix(hex, 16)] of two characters *)
Definition hex_byte (high low : N) : option N := from_hex 255 [high; low].

Fixpoint percent_bytes (b : bytes) : bytes :=
  match b with
  | [] => []
  | c :: rest =>
      if (c =? 37)%N then
        match rest with
        | high :: low :: after =>
            match hex_byte high low with
            | Some byte => byte :: percent_bytes after
            | None => c :: percent_bytes rest
            end
        | _ => c :: percent_bytes rest
        end
      else c :: percent_bytes rest
  end.

Definition percent_decode (value : text) : option text := utf8_decode (percent_bytes (utf8_encode value)).

Definition hex_upper_digit (n : N) : N := if (n <? 10)%N then (48 + n)%N else (55 + n)%N.

Definition encode_userinfo_byte (byte : N) : text :=
  if is_ascii_alphanumeric byte || existsb (N.eqb byte) [45; 46; 95; 126]%N then [byte]
  else [37; hex_upper_digit (byte / 16); hex_upper_digit (byte `mod` 16)]%N.

Definition percent_encode_userinfo (value : text) : text := utf8_encode value ≫= encode_userinfo_byte.

Definition is_bracket (c : N) : bool := (c =? 91)%N || (c =? 93)%N.

Definition compass_host_port (value : text) : text * option N :=
  let value := trim value in
  match rsplit_once 58 value with
  | None => (value, None)
  | Some (host, port) =>
      match parse_u16 port with
      | Some port => (trim_matches is_bracket host, Some port)
      | None => (trim_matches is_bracket value, None)
      end
  end.

Definition parse_mongo_uri (uri : text) : option MongoUri :=
  '(scheme, rest) ← split_once (lit "://") uri;
  if one_of ["mongodb"; "mongodb+srv"] scheme then
    let '(authority_and_path, query) :=
      match split_once_at (N.eqb 63) rest with Some (before, after) => (before, Some after) | None => (rest, None) end in
    let '(authority, database) :=
      match split_once_at (N.eqb 47) authority_and_path with
      | Some (before, after) => (before, non_empty (before_first 47 after))
      | None => (authority_and_path, None)
      end in
    let '(userinfo, hosts) :=
      match rsplit_once 64 authority with Some (u, h) => (Some u, h) | None => (None, authority) end in
    let username := userinfo ← userinfo; percent_decode (before_first 58 userinfo) in
    let '(host, port) := compass_host_port (trim (before_first 44 hosts)) in
    if bool_decide (host = []) then None
    else Some {| scheme := scheme; username := username; host := host; port := port;
                 uri_database := database; query := query |}
  else None.

Definition filled (t : option text) : option text :=
  t ← t; if bool_decide (t = []) then None else Some t.

Definition sanitize_uri (uri : MongoUri) : text :=
  scheme uri ++ lit "://" ++
  from_option (λ u, percent_encode_userinfo u ++ lit "@") [] (filled (username uri)) ++
  host uri ++
  from_option (λ p, lit ":" ++ show_N p) [] (port uri) ++
  from_option (λ d, lit "/" ++ d) [] (filled (uri_database uri)) ++
  from_option (λ q, lit "?" ++ q) [] (filled (query uri)).

(** The name of a file up to its first dot. *)
Definition file_stem (path : text) : text := before_first 46 (path_name path).

Definition compass_record (path : text) (connection : CompassConnection) : option ImportRecord :=
  uri ← parse_mongo_uri (cc_uri connection);
  let key := default (file_stem path) (cc_id connection) in
  Some (database_import (lit "mongodb-compass") (lit "MongoDB Compass")
    (lit "mongodb-compass:" ++ slug key) (Some path)
    {| database_type := external_type "mongodb"; db_name := default key (cc_name connection);
       db_host := host uri; db_port := port uri; db_username := default [] (username uri);
       db_password := None; db_database := uri_database uri;
       extra_params := [(lit "connection_string", sanitize_uri uri)] |} (lit "unsupported")).

(** The records of the files that are JSON. *)
Definition json_records `{JsonLib} (records : text → Value → list ImportRecord)
    (files : list (text * bytes)) : list ImportRecord :=
  files ≫= λ '(path, b), match json_from_slice b with Some value => records path value | None => [] end.

Definition compass_records `{JsonLib} (files : list (text * bytes)) (_include_passwords : bool)
    : list ImportRecord :=
  json_records (λ path value, omap (compass_record path) (collect_compass value)) files.

(** ** Redis Desktop *)

Record RedisConnection := {
  rc_path : text; rc_id : option text; rc_name : option text; rc_host : text; rc_port : option N;
  rc_username : option text; rc_database : option text; rc_tls : option bool
}.

Definition redis_connection (value : Value) (path host : text) : RedisConnection :=
  {| rc_path := path; rc_id := text_field value ["id"; "uuid"];
     rc_name := text_field value ["name"; "label"; "title"]; rc_host := host;
     rc_port := port_field value ["port"]; rc_username := text_field value ["username"; "user"];
     rc_database := or_else (text_field value ["db"; "database"; "databaseIndex"])
                      (number_field value ["db"; "database"; "databaseIndex"]);
     rc_tls := bool_field value ["tls"; "ssl"; "useTLS"; "useSsl"] |}.

Fixpoint collect_redis (value : Value) (path : text) : list RedisConnection :=
  match value with
  | Object members =>
      match text_field value ["host"; "hostname"; "address"] with
      | Some host => [redis_connection value path host]
      | None =>
          (fix children (members : list (text * Value)) : list RedisConnection :=
             match members with
             | [] => []
             | (key, child) :: members => collect_redis child (child_path path key) ++ children members
             end) members
      end
  | Array items =>
      (fix children (index : nat) (items : list Value) : list RedisConnection :=
         match items with
         | [] => []
         | child :: items =>
             collect_redis child (child_path path (show_N (N.of_nat index))) ++ children (S index) items
         end) 0 items
  | _ => []
  end.

Definition redis_record (path : text) (connection : RedisConnection) : ImportRecord :=
  let key := default (rc_path connection) (or_else (rc_id connection) (rc_name connection)) in
  database_import (lit "redis-desktop") (lit "Redis Desktop") (lit "redis-desktop:" ++ slug key)
    (Some (path ++ lit ":" ++ rc_path connection))
    {| database_type := external_type "redis"; db_name := default key (rc_name connection);
       db_host := rc_host connection; db_port := rc_port connection;
       db_username := default [] (rc_username connection); db_password := None;
       db_database := rc_database connection;
       extra_params := from_option (λ tls : bool, [(lit "tls", if tls then lit "true" else lit "false")]) []
                         (rc_tls connection) |} (lit "unsupported").

Definition redis_records `{JsonLib} (files : list (text * bytes)) (_include_passwords : bool)
    : list ImportRecord :=
  json_records (λ path value, redis_record path <$> collect_redis value []) files.

(** ** TablePlus *)

(** A property list in XML, as JSON. *)
Class PlistXml := plist_from_reader_xml : bytes → option Value.

Definition tableplus_types : list (list string * string) :=
  [(["mysql"; "mariadb"], "my_sql"); (["postgres"; "postgresql"; "pgsql"], "postgre_sql");
   (["sqlite"; "sqlite3"], "sqlite"); (["duckdb"], "duck_db");
   (["sqlserver"; "sql_server"; "mssql"], "sql_server"); (["oracle"], "oracle");
   (["clickhouse"; "click_house"], "click_house")].

Definition tableplus_database_type (raw : text) : option text := type_of tableplus_types raw.

Definition parse_structured `{JsonLib, PlistXml} (b : bytes) : option Value :=
  or_else (json_from_slice b) (plist_from_reader_xml b).

Definition source_of (path key_path : text) : text :=
  if bool_decide (key_path = []) then path else path ++ lit ":" ++ key_path.

(** [key_path.rsplit('/').next()] *)
Definition last_key (key_path : text) : text := after_last 47 key_path.

Definition record_from_value (path key_path : text) (value : Value) : option ImportRecord :=
  raw_type ← text_field value ["driver"; "type"; "databaseType"; "adapter"; "engine"];
  database_type ← tableplus_database_type raw_type;
  let host := default [] (or_else (text_field value ["host"; "hostname"; "server"; "address"; "path"])
                                  (text_field value ["databasePath"; "databaseFile"])) in
  if bool_decide (host = []) && negb (bool_decide (database_type = lit "sqlite")) then None
  else
    let record_key := default (last_key key_path) (text_field value ["id"; "uuid"]) in
    Some (database_import (lit "tableplus") (lit "TablePlus")
      (lit "tableplus:" ++ slug (file_stem path) ++ lit "-" ++ slug record_key) (Some (source_of path key_path))
      {| database_type := Str database_type;
         db_name := default record_key (text_field value ["name"; "title"; "displayName"; "connectionName"]);
         db_host := host; db_port := port_field value ["port"];
         db_username := default [] (text_field value ["user"; "username"; "userName"; "uid"]);
         db_password := None; db_database := text_field value ["database"; "databaseName"; "schema"];
         extra_params := [] |} (lit "unsupported")).

Fixpoint collect_tableplus (path key_path : text) (value : Value) : list ImportRecord :=
  from_option (λ r, [r]) [] (record_from_value path key_path value) ++
  match value with
  | Object members =>
      (fix children (members : list (text * Value)) : list ImportRecord :=
         match members with
         | [] => []
         | (key, child) :: members =>
             collect_tableplus path (child_path key_path key) child ++ children members
         end) members
  | Array items =>
      (fix children (index : nat) (items : list Value) : list ImportRecord :=
         match items with
         | [] => []
         | child :: items =>
             collect_tableplus path (child_path key_path (show_N (N.of_nat index))) child ++
             children (S index) items
         end) 0 items
  | _ => []
  end.

Definition tableplus_records `{JsonLib, PlistXml} (files : list (text * bytes)) (_include_passwords : bool)
    : list ImportRecord :=
  files ≫= λ '(path, b),
    match parse_structured b with Some value => collect_tableplus path [] value | None => [] end.

(** ** DBeaver *)

Class DbeaverLib := {
  (** AES-128 in CBC mode with PKCS #7, of a key, an initial vector and a ciphertext *)
  decrypt_padded : bytes → bytes → bytes → option bytes
}.

Definition find_exact {A} (f : Value → option A) (value : Value) (keys : list string) : option A :=
  head (omap (λ key, get (lit key) value ≫= f) keys).

Definition str_field (value : Value) (keys : list string) : option text := find_exact value_text value keys.
Definition owned_field (value : Value) (keys : list string) : option text :=
  or_else (str_field value keys) (find_exact number_text value keys).
Definition dbeaver_port_field (value : Value) (keys : list string) : option N := find_exact port_value value keys.

Definition dbeaver_types : list (list string * string) :=
  [(["mysql"; "mariadb"; "mysql8"; "mysql5"], "my_sql");
   (["postgres"; "postgresql"; "postgres_jdbc"], "postgre_sql"); (["sqlite"; "sqlite3"], "sqlite");
   (["duckdb"], "duck_db"); (["sqlserver"; "sql_server"; "mssql"; "microsoft_sql_server"], "sql_server");
   (["oracle"; "oracle_thin"], "oracle"); (["clickhouse"; "click_house"], "click_house")].

Definition dbeaver_database_type (raw : text) : option text := type_of dbeaver_types raw.

Definition KEY : bytes :=
  [186; 187; 74; 159; 119; 74; 184; 83; 201; 108; 45; 101; 61; 42; 2; 156]%N.

Definition decrypt_credentials `{DbeaverLib} (b : bytes) : option bytes :=
  if length b <=? 16 then None else decrypt_padded KEY (take 16 b) (drop 16 b).

Definition parse_credentials `{JsonLib, DbeaverLib} (b : bytes) : option Value :=
  or_else (json_from_slice b) (plain ← decrypt_credentials b; json_from_slice plain).

Definition credential_password (credentials : Value) (connection_id : text) : option text :=
  direct ← get connection_id credentials;
  str_field (default direct (get (lit "#connection") direct)) ["password"].

Definition dbeaver_status (include_passwords : bool) (password : option text) : text :=
  if negb include_passwords then lit "unsupported"
  else if bool_decide (default [] password = []) then lit "missing" else lit "included".

Definition dbeaver_record (credentials : option Value) (include_passwords : bool) (connection_id : text)
    (connection : Value) : option ImportRecord :=
  let config := default connection (get (lit "configuration") connection) in
  raw_type ← or_else (str_field connection ["provider"; "driver"; "type"])
                     (str_field config ["provider"; "driver"; "type"]);
  database_type ← dbeaver_database_type raw_type;
  let name := default connection_id (or_else (str_field connection ["name"]) (str_field config ["name"])) in
  let password :=
    if include_passwords then
      or_else (credentials ← credentials; credential_password credentials connection_id)
              (owned_field config ["password"])
    else None in
  Some (database_import (lit "dbeaver") (lit "DBeaver") (lit "dbeaver:" ++ slug connection_id) None
    {| ImportTerminals.database_type := Str database_type; db_name := name;
       db_host := default [] (owned_field config ["host"; "server"; "hostname"]);
       db_port := dbeaver_port_field config ["port"];
       db_username := default [] (owned_field config ["user"; "username"]);
       db_password := password; db_database := owned_field config ["database"; "schema"];
       extra_params := [] |} (dbeaver_status include_passwords password)).

Definition dbeaver_records `{JsonLib, DbeaverLib} (data_sources_json : bytes)
    (credentials_json : option bytes) (include_passwords : bool) : list ImportRecord :=
  match json_from_slice data_sources_json with
  | None => []
  | Some root =>
      let credentials :=
        if include_passwords then credentials_json ≫= parse_credentials else None in
      match get (lit "connections") root with
      | Some (Object connections) =>
          omap (λ '(connection_id, connection),
            dbeaver_record credentials include_passwords connection_id connection) connections
      | _ => []
      end
  end.

(** ** JetBrains *)

Record DataSource := {
  ds_name : option text; ds_uuid : option text; driver_ref : option text; jdbc_url : option text;
  ds_username : option text
}.

Record JdbcParts := {
  jdbc_type : text; jdbc_host : text; jdbc_port : option N; jdbc_database : option text
}.

Definition jetbrains_types : list (list string * string) :=
  [(["mysql"; "mysql_8"; "mariadb"], "my_sql"); (["postgres"; "postgresql"; "pgsql"], "postgre_sql");
   (["sqlite"; "sqlite3"], "sqlite"); (["duckdb"], "duck_db");
   (["sqlserver"; "sql_server"; "mssql"], "sql_server"); (["oracle"; "oracle_thin"], "oracle");
   (["clickhouse"; "click_house"], "click_house")].

Definition jetbrains_database_type (raw : text) : option text := type_of jetbrains_types raw.

(** [split([':', '/']).next()] *)
Definition database_type_from_jdbc (url : text) : option text :=
  rest ← strip_prefix (lit "jdbc:") url;
  jetbrains_database_type (trim (before_first 47 (before_first 58 rest))).

Definition jdbc_host_port (value : text) : text * option N :=
  match rsplit_once 58 value with
  | None => (value, None)
  | Some (host, port) => match parse_u16 port with Some port => (host, Some port) | None => (value, None) end
  end.

Definition semicolon_param (params key : text) : option text :=
  head (omap (λ part,
    '(candidate, value) ← split_once_at (N.eqb 61) part;
    if eq_ignore_ascii_case candidate key then non_empty value else None) (split_char 59 [] params)).

(** The parts around the first character [c]. *)
Definition split_or_end (c : N) (t : text) : text * text := default (t, []) (split_once_at (N.eqb c) t).

Definition jdbc_parts (type : text) (host_port : text) (database : option text) : JdbcParts :=
  let '(host, port) := jdbc_host_port host_port in
  {| jdbc_type := type; jdbc_host := host; jdbc_port := port; jdbc_database := database |}.

Definition parse_jdbc_url (url : text) (driver_ref : option text) : option JdbcParts :=
  type ← or_else (database_type_from_jdbc url) (driver_ref ≫= jetbrains_database_type);
  if bool_decide (type = lit "sqlite") then
    path ← strip_prefix (lit "jdbc:sqlite:") url;
    Some {| jdbc_type := type; jdbc_host := path; jdbc_port := None; jdbc_database := Some path |}
  else match strip_prefix (lit "jdbc:sqlserver://") url with
  | Some rest =>
      let '(host_port, params) := split_or_end 59 (before_first 63 rest) in
      Some (jdbc_parts type host_port (semicolon_param params (lit "databaseName")))
  | None =>
      match strip_prefix (lit "jdbc:oracle:thin:@//") url with
      | Some rest =>
          let '(host_port, database) := split_or_end 47 (before_first 63 rest) in
          Some (jdbc_parts type host_port (non_empty database))
      | None =>
          rest ← strip_prefix (lit "jdbc:") url;
          '(_, rest) ← split_once (lit "://") rest;
          let '(host_port, database) := split_or_end 47 (before_first 63 rest) in
          Some (jdbc_parts type host_port (non_empty database))
      end
  end.

(** The attributes of a data source that are read. *)
Definition source_attribute (source : DataSource) (attr : text * option text) : DataSource :=
  match attr with
  | (key, Some value) =>
      if bool_decide (tag_name key = lit "name") then
        {| ds_name := Some value; ds_uuid := ds_uuid source; driver_ref := driver_ref source;
           jdbc_url := jdbc_url source; ds_username := ds_username source |}
      else if bool_decide (tag_name key = lit "uuid") then
        {| ds_name := ds_name source; ds_uuid := Some value; driver_ref := driver_ref source;
           jdbc_url := jdbc_url source; ds_username := ds_username source |}
      else source
  | (_, None) => source
  end.

Definition source_text (tag value : text) (source : DataSource) : DataSource :=
  let set r u n := {| ds_name := ds_name source; ds_uuid := ds_uuid source; driver_ref := r; jdbc_url := u;
                      ds_username := n |} in
  if bool_decide (tag = lit "driver-ref") then set (Some value) (jdbc_url source) (ds_username source)
  else if bool_decide (tag = lit "jdbc-url") then set (driver_ref source) (Some value) (ds_username source)
  else if one_of ["user-name"; "username"] tag then set (driver_ref source) (jdbc_url source) (Some value)
  else source.

Definition no_source : DataSource :=
  {| ds_name := None; ds_uuid := None; driver_ref := None; jdbc_url := None; ds_username := None |}.

(** The data sources that ended, the one that is read, and its element. *)
Abbreviation SourceState := (list DataSource * option DataSource * option text)%type (only parsing).

Definition source_step `{XmlLib} (st : SourceState) (e : XmlEvent) : SourceState :=
  let '(out, current, current_tag) := st in
  match e with
  | Start tag attrs =>
      if bool_decide (tag_name tag = lit "data-source") then
        (out, Some (foldl source_attribute no_source attrs), None)
      else match current with Some _ => (out, current, Some (tag_name tag)) | None => st end
  | Characters decoded =>
      match current, current_tag, decoded with
      | Some source, Some tag, Some decoded =>
          match non_empty (default decoded (unescape decoded)) with
          | Some value => (out, Some (source_text tag value source), current_tag)
          | None => st
          end
      | _, _, _ => st
      end
  | End_ tag =>
      if bool_decide (tag_name tag = lit "data-source") then
        (out ++ from_option (λ s, [s]) [] current, None, None)
      else (out, current, None)
  | _ => st
  end.

Definition parse_data_sources `{XmlLib} (t : text) : list DataSource :=
  (foldl source_step ([], None, None) (read_events t).1).1.1.

Definition jetbrains_record (path : text) (source : DataSource) : option ImportRecord :=
  jdbc_url ← jdbc_url source;
  parts ← parse_jdbc_url jdbc_url (driver_ref source);
  let source_key := default (default (lit "data-source") (filled (ds_name source))) (ds_uuid source) in
  Some (database_import (lit "jetbrains") (lit "JetBrains")
    (lit "jetbrains:" ++ slug (replace (lit ".xml") [] path) ++ lit "-" ++ slug source_key)
    (Some (path ++ lit ":" ++ source_key))
    {| ImportTerminals.database_type := Str (jdbc_type parts); db_name := default source_key (ds_name source);
       db_host := jdbc_host parts; db_port := jdbc_port parts;
       db_username := default [] (ds_username source); db_password := None;
       db_database := jdbc_database parts; extra_params := [] |} (lit "unsupported")).

Definition jetbrains_records `{XmlLib} (files : list (text * bytes)) (_include_passwords : bool)
    : list ImportRecord :=
  files ≫= λ '(path, b),
    match utf8_decode b with Some t => omap (jetbrains_record path) (parse_data_sources t) | None => [] end.

(** ** Navicat *)

(** A property list; an integer by its value if it is not negative. *)
Inductive PlistValue : Type :=
  | PDictionary (entries : list (text * PlistValue))
  | PString (value : text)
  | PInteger (unsigned : option N)
  | POther.

Abbreviation Dictionary := (list (text * PlistValue)) (only parsing).

Class PlistLib := plist_from_reader : bytes → option PlistValue.

Definition dict_get (dict : Dictionary) (key : text) : option PlistValue :=
  snd ∘ snd <$> list_find (λ '(k, _), k = key) dict.

(** A key that is there keeps its place. *)
Fixpoint dict_insert (key : text) (value : PlistValue) (dict : Dictionary) : Dictionary :=
  match dict with
  | [] => [(key, value)]
  | (k, v) :: dict => if bool_decide (k = key) then (k, value) :: dict else (k, v) :: dict_insert key value dict
  end.

(** The first of some keys that is there, in this case of letters or another. *)
Definition dict_value (dict : Dictionary) (keys : list string) : option PlistValue :=
  head (omap (λ key,
    or_else (dict_get dict (lit key))
      (snd ∘ snd <$> list_find (λ '(existing, _), eq_ignore_ascii_case existing (lit key) = true) dict)) keys).

Definition dict_text (dict : Dictionary) (keys : list string) : option text :=
  match dict_value dict keys with Some (PString t) => non_empty t | _ => None end.

Definition dict_port (dict : Dictionary) (keys : list string) : option N :=
  head (omap (λ key,
    match dict_value dict [key] with
    | Some (PInteger n) => n ← n; if (n <=? u16_max)%N then Some n else None
    | Some (PString t) => parse_u16 (trim t)
    | _ => None
    end) keys).

Definition navicat_types : list (list string * string) :=
  [(["mysql"; "mariadb"; "mysql8"; "mysql5"], "my_sql");
   (["postgres"; "postgresql"; "pgsql"; "postgres_jdbc"], "postgre_sql"); (["sqlite"; "sqlite3"], "sqlite");
   (["oracle"; "oci"; "oracle_thin"], "oracle");
   (["sqlserver"; "sql_server"; "mssql"; "microsoft_sql_server"], "sql_server")].

Definition navicat_database_type (raw : text) : option text := type_of navicat_types raw.

Definition database_type_from_key_path (key_path : text) : option text :=
  snd <$> list_find (λ segment, is_Some (navicat_database_type segment)) (reverse (split_char 47 [] key_path)).

Definition is_parameter_dict (key_path : text) : bool :=
  existsb (λ segment, one_of ["ssh_param"; "http_param"; "ssl_param"; "compatibility_param"]
                        (to_ascii_lowercase segment)) (split_char 47 [] key_path).

Definition host_keys : list string := ["Host"; "Hostname"; "Server"; "IP"; "SocketHost"; "host"].
Definition file_keys : list string :=
  ["DatabaseFile"; "DatabaseFileName"; "FilePath"; "dbfilename"; "savepath"].

Definition database_host (dict : Dictionary) (database_type : text) : text :=
  let host := dict_text dict host_keys in
  let file := dict_text dict file_keys in
  default [] (if bool_decide (database_type = lit "sqlite") then or_else file host else or_else host file).

Definition navicat_slug (value : text) : text := slug (replace (lit ".ncx") [] (replace (lit ".plist") [] value)).

Definition navicat_record_id (source_id : text) : text :=
  lit "navicat:" ++ navicat_slug source_id ++ lit ":" ++ hex16 (stable_hash source_id).

Definition record_from_dict (path key_path : text) (dict : Dictionary) : option ImportRecord :=
  if is_parameter_dict key_path then None
  else
    let named := raw ← dict_text dict ["ConnType"; "Type"; "DatabaseType"; "DBType"; "Driver"; "serviceprovider"];
                 if eq_ignore_ascii_case raw (lit "default") then None else Some raw in
    raw_type ← or_else named (database_type_from_key_path key_path);
    database_type ← navicat_database_type raw_type;
    let host := database_host dict database_type in
    if bool_decide (host = []) && negb (bool_decide (database_type = lit "sqlite")) then None
    else
      let source_id := source_of path key_path in
      let fallback_name := default path (filled (Some (last_key key_path))) in
      Some (database_import (lit "navicat") (lit "Navicat") (navicat_record_id source_id) (Some source_id)
        {| ImportTerminals.database_type := Str database_type;
           db_name := default fallback_name
             (dict_text dict ["Name"; "Title"; "ConnectionName"; "DisplayName"; "name"; "title";
                              "connectionname"; "displayname"]);
           db_host := host; db_port := dict_port dict ["Port"; "port"];
           db_username := default [] (dict_text dict ["UserName"; "Username"; "User"; "UID"; "username"]);
           db_password := None;
           db_database := dict_text dict ["Database"; "DatabaseName"; "InitialDatabase"; "Schema";
                                          "defaultdatabase"];
           extra_params := [] |} (lit "unsupported")).

Fixpoint collect_navicat (path key_path : text) (value : PlistValue) : list ImportRecord :=
  match value with
  | PDictionary dict =>
      from_option (λ r, [r]) [] (record_from_dict path key_path dict) ++
      (fix children (dict : Dictionary) : list ImportRecord :=
         match dict with
         | [] => []
         | (key, child) :: dict => collect_navicat path (child_path key_path key) child ++ children dict
         end) dict
  | _ => []
  end.

(** The attributes of an element; [rsplit(':').next()] of a name keeps its letters. *)
Definition attribute_dict (attrs : list (text * option text)) : Dictionary :=
  foldl (λ dict '(key, value),
    match value with Some v => dict_insert (after_last 58 key) (PString v) dict | None => dict end) [] attrs.

Definition ncx_step (path : text) (st : list ImportRecord * gmap text N) (e : XmlEvent)
    : list ImportRecord * gmap text N :=
  let '(records, name_occurrences) := st in
  match e with
  | Start tag attrs | Empty tag attrs =>
      if bool_decide (after_last 58 tag = lit "Connection") then
        let dict := attribute_dict attrs in
        let connection_name := default (lit "connection") (dict_text dict ["ConnectionName"]) in
        let occurrence := (default 0 (name_occurrences !! connection_name) + 1)%N in
        let key_path := lit "Connections/" ++ connection_name ++
          (if (occurrence =? 1)%N then [] else lit "#" ++ show_N occurrence) in
        (records ++ from_option (λ r, [r]) [] (record_from_dict path key_path dict),
         <[connection_name := occurrence]> name_occurrences)
      else st
  | _ => st
  end.

Definition records_from_ncx `{XmlLib} (path t : text) : list ImportRecord :=
  (foldl (ncx_step path) ([], ∅) (read_events t).1).1.

Definition navicat_records `{XmlLib, PlistLib} (plists : list (text * bytes)) (_include_passwords : bool)
    : list ImportRecord :=
  plists ≫= λ '(path, b),
    match plist_from_reader b with
    | Some value => collect_navicat path [] value
    | None => match utf8_decode b with Some t => records_from_ncx path t | None => [] end
    end.
End importers.
